(* ===== verification/_CoqProject ===== *)
-Q . S2P
Prelude.v
Sha256.v
GoStrings.v
Log.v
Address.v
Wire.v
Protobuf.v
ProtobufScalars.v
ProtobufRoundtrip.v
ProtobufTotal.v
ProtobufExample.v
ProtobufTyped.v
Suite.v
Schnorr.v
Tree.v
TreeGen.v
Keys.v
Config.v
Interactive.v
Protocol.v
Instance.v
Overlay.v
OverlayInv.v
OverlayRun.v
NetEncoding.v
TreeCodec.v
Router.v
Tcp.v
LocalNet.v
ClientError.v
Websocket.v
Services.v
Server.v
Monitor.v
Count.v
Simul.v
Skipchain.v
Bunch.v
Messages.v
Reencrypt.v
Dkg.v
DkgRun.v
CreateDkgs.v
OcsService.v
Otssmc.v
OtsClient.v
OtsSim.v
