(* ===== verification/Prelude.v ===== *)
(** * Verification of the one-time-secrets system

    The repository holds services that keep documents encrypted on a skipchain
    and hand their keys, re-encrypted, to the readers a document names:
    [onchain-secrets] (the on-chain secrets service and its storage of
    skipchains), [otssmc] (the trustees of one-time secrets), [otsclient] (the
    client library), [protocol] (distributed key generation and re-encryption),
    and under [imported] the onet framework they run in and the protobuf library
    that encodes their messages.

    ** The program and the files of the development

    From the bytes up; each file names its sources at its top.

    - [Prelude]: bytes, results of Go code ([outcome]: a value, an error, a
      panic, or no end within the fuel), operations on a state ([SM]), tactics
      and lemmas shared by all files.  [Sha256]: the hash, executable.
      [GoStrings]: the functions of Go's standard library on strings, numbers,
      network addresses, paths, sorting and regular expressions that the code
      calls.  [Log] ([Format], [Log] for [imported/onet/log]): messages with
      levels, formats and columns.
    - The protobuf library: [Wire] ([Varint], [Fixed]: numbers of the wire at
      their width), [Protobuf] ([Fields], [Interfaces], [Encoder], [Decoder] for
      [field.go], [interface.go], [encode.go], [decode.go]), [ProtobufScalars],
      [ProtobufRoundtrip], [ProtobufTotal] and [ProtobufTyped] (what Decode gives
      back, that it ends without a panic, that it keeps to the type),
      [ProtobufExample].
    - Cryptography of onet: [Suite] (the suite as a class with laws, and a
      concrete one), [Schnorr] ([Schnorr], [HashStream], [Util] for
      [crypto/schnorr.go], [crypto/hash.go], [util.go]), [Keys] ([Hex], [Base64],
      [Keys] for [crypto/key.go]; [Toml] for the TOML forms of servers and
      rosters).
    - The network of onet: [Address] ([network/address.go]), [NetEncoding]
      ([Encoding], [Dispatch] for [network/encoding.go], [network/dispatch.go]),
      [Router] ([Routers] for [network/router.go]), and the two kinds of
      connections under it, [Tcp] ([network/tcp.go]) and [LocalNet]
      ([network/local.go]).
    - Trees and protocols of onet: [Tree] ([Network], [Rosters], [Trees] for
      [network/struct.go], [tree.go]), [TreeGen] (trees larger than their
      roster), [TreeCodec] (trees in bytes), [Protocol] ([Messages], [Protocols], [Proxies] for [messages.go],
      [protocol.go] and the default proxy), [Instance] ([Instances] for
      [treenode.go]), [Overlay] ([Overlays] for [overlay.go] and what instances
      send), [OverlayInv] and [OverlayRun] (invariants of a server, and the
      exchange of two servers).
    - Servers and their clients: [Services] ([Factory], [Manager], [Contexts],
      [Statuses] for [service.go], [context.go], [status.go]), [Websocket]
      ([Processor], [Websockets] for [processor.go], [websocket.go]),
      [ClientError] (the errors of [websocket.go] and their text), [Server]
      ([Durations], [Servers], [DataPath] for [server.go] and the directory of
      [context.go]).
    - Setting up a server: [Config] ([Files] for [app/config.go], the
      configuration and group files), [Interactive] ([IO], [Setup] for
      [app/io.go], [app/server.go]: questions, addresses, folders and files).
    - Simulations: [Monitor] ([Float64], [Statistics], [Measures], [Monitors] for
      [simul/monitor]: measurements, their statistics and their collection),
      [Count] ([Positions], [Counting] for [simul/manage/count.go]: counting the
      servers that are up), [Simul] ([RunConfigs] for [simul/platform/platform.go],
      [Builds] for [simul/build.go], [Simulations] for [simulation.go]).
    - The services: [Skipchain] (the third-party skipchain library as a class),
      [Bunch] ([Bunch], [Storage] for [onchain-secrets/bunch.go]), [Messages]
      ([onchain-secrets/struct.go], [otssmc/struct.go]), [Reencrypt]
      ([KeyEncoding], [OcsProtocol] for [protocol/onchain.go], [protocol/ocs.go]),
      [Dkg] and [DkgRun] ([protocol/dkg.go]: the instance and the runs of the
      network of instances), [CreateDkgs] (the generation without a network of
      [protocol/onchain.go]), [OcsService] ([onchain-secrets/service.go]),
      [Otssmc] ([otssmc]), [OtsClient] ([Api], [OtsClient] for
      [onchain-secrets/api.go], [otsclient/ots.go]), [OtsSim] ([OtsSimulation]
      for [otssmc/simulation/otssmc.go], [PubKeys] for the files of keys).

    ** How code is represented

    A definition has the name of the function or the type it models.  A Go
    struct is a [Record], a pointer that may be nil an [option], a map a [gmap],
    an interface with known implementations an [Inductive] type; objects that
    are shared and mutated live in a heap inside the state ([Bunch], [Overlay]).
    A method that changes its object is a function on states ([SM]) that returns
    the new state also when it fails.  Integers of machine width are [Z] with
    the wrap-around written out.  Ranging over a map visits its entries in an
    order that is an argument or any permutation.

    Code outside the repository is a class of operations with its documented
    behaviour as a class of laws ([Suite], [SuiteLaws]; [KeyCodec]; [UuidLib];
    [TomlCodec]; [MsgLib]; [SkipchainLib], [ChainLaws]; [PvssLib]; [ShareLib]; [DkgLib];
    [CosiLib]);
    theorems take the laws as arguments, and concrete instances in the [..Example] modules show
    that each theorem's hypotheses hold together.

    Concurrency: a method that holds the lock of its object is one step.  The
    dispatcher of the router holds its lock while a packet is processed, so the
    handlers of the overlay are one step each; what the code starts with [go] is
    a step of its own that can be taken at any later time.  The queue of an
    instance ([Instances.rstep]), the goroutines of connections
    ([Routers.run_rop]), local connections with their manager ([Local.run]) and
    the network of key generation ([SetupDKG.step]) are step relations, and their
    theorems quantify over all interleavings.  A lock taken twice, or a receive
    that nothing answers, is [OutOfFuel].  A socket is the pieces in which bytes
    arrive and how much each write takes; a websocket is a queue of frames in
    each direction; theorems quantify over both.

    ** Fuel

    Recursion that is not structural takes fuel, and each such function has a
    theorem that says how much is enough: [ProtobufTotal.decode_total] for every
    message, [Trees.generate_nary_tree_correct] for tree generation,
    [BigTree.big_tree_correct] for trees larger than the roster,
    [OcsService.add_retry_result] and [get_read_requests_correct] for the loops
    of the service, [Otssmc.elgamal_roundtrip] for encryption, [Tcp.tcp_stream]
    for the loops of the socket, [Base64.ReadFull_decoder] for the buffers of the
    decoder.  Where the code does not return, a theorem says so for every fuel
    ([BigTree.big_tree_width_zero]).

    ** What is shown

    - The system: a one-time secret written by the client is recovered by its
      reader through the trustees ([OtsClient.ots_end_to_end]); what clients send
      is accepted ([client_write_accepted], [client_read_accepted]); and with the
      service and its skipchain in between, no round of the simulation ends with
      another message ([OtsSim.simulation_recovers]).  Files of keys are read
      ([get_pub_keys]).
    - The services: exactly which blocks are accepted
      ([verify_ocs_write_correct], [verify_ocs_read_correct]) and which requests
      the trustees serve ([verify_decryption_request_correct]); a key that is
      handed out decodes for the reader ([decrypt_key_request_correct],
      [reencrypt_decodes]); no handler loses a block ([handlers_keep_storage],
      [storage_store_invariant], [bunch_store_merges_links]).
    - Key generation: every run of every number of servers ends with shares of
      one secret ([DkgRun.setup_dkg_completes]), and so does the one without a
      network ([create_dkgs_correct]).
    - The framework: encoding and decoding are inverse up to a stated normal form,
      total, on types that do not contain themselves, and typed ([decode_encode], [decode_total], [decoded_is_typed],
      [marshal_unmarshal], [keys_stream]); the overlay delivers first messages,
      keeps its maps consistent and its finished instances finished; queues are
      first-in-first-out ([reader_refines_fifo]); in every interleaving the router's
      connections are those of its goroutines and of those it refused to start
      ([router_connections]), a message that is sent without an error is written once,
      on a connection registered for the server it is for ([send_correct]), and after
      [Stop] all that is still delivered was received before ([stop_drains]); its
      counters hold the bytes of all connections ([router_traffic]).
    - Connections: messages arrive whole and in order however the socket cuts
      them ([tcp_stream], [tcp_send_receive]) and in every interleaving of the
      local network ([local_fifo], [local_delivers]); which addresses are valid
      ([valid_correct], [valid_hostname_correct]).
    - Servers: every registered service is started and found, with its protocols
      and its reports ([new_server_correct], [get_status_correct]); what it saves
      it loads ([save_load]); a server that is set up has the address, keys and
      description it was set up with, for itself and for others
      ([interactive_config_correct], [group_file_correct]), and its set-up
      overwrites nothing without a yes ([interactive_config_safe]); and a
      client's request calls the handler of its type with a value of that type
      and brings back the reply or the error ([request_is_typed],
      [client_request]).
    - Logging: every message is printed once, in order and on its stream, in
      columns that only grow ([log_lines], [padding_grows], [log_aligned]); messages
      for the user in every format ([ui_printed]); the environment
      ([parse_env]).
    - Trees: [generate_nary_tree_correct], [big_tree_correct],
      [tree_marshal_roundtrip], and in bytes [tree_binary_roundtrip].
    - Simulations: what is set up and saved, in bytes, is what the machines load and
      start, on hosts other than 127.0.0.x, where addresses are rewritten
      ([simulation_setup], example [local_addresses]); runs are read, completed and selected
      ([read_run_file_correct], [check_hosts_correct], [start_stop_correct]) and
      their results make a table ([results_table]); the count protocol ends with the size of the tree when
      nothing is lost ([count_completes]), gives that number only after every node has
      counted, and after a timeout the number of reports taken until then
      ([count_correct]); the monitor's statistics are those of the measures that were
      sent, in every interleaving ([monitor_records]); their table ([stats_table],
      [individual_rows]), extremes ([collect_extremes]), averages of runs and when
      those hang ([average_stats]), and what the filter cuts ([filter_cuts]).
    - What the code does not do: theorems such as [roster_lock_leak],
      [late_field_dropped], [decrypt_request_invalid_hangs], [tcp_oversized],
      [local_lock_stuck], [kept_connection_dead], [files_shared], [roster_toml]
      state behaviour that a reader of the code would not expect.

    ** Not modelled

    What lies behind a socket, a websocket, a file or a name of the DNS, the
    clock and the parsing of command lines are input and output; the models
    other than [Log] leave out what is logged.  Go types are finite terms: a type
    that contains itself is represented by its unfolding to a depth that is an
    argument ([TreeCodec.TTreeMarshal]), and decoding into other such types is not
    covered.  The platforms of simulations are deployment scripts, and the monitor's proxy
    copies between sockets; reading and writing floating-point text and the
    percentile of a third-party package are parameters of the monitor.
    Deprecated synonyms outside [key.go] and printing functions carry no logic. *)
From stdpp Require Export base gmap sets list strings fin_maps.
From Stdlib Require Export Strings.Byte ZArith Lia.
From Stdlib Require Import NArith.
#[export] Set Default Goal Selector "!".

Declare Scope go_scope.
Delimit Scope go_scope with go.
#[global] Open Scope go_scope.

#[global] Arguments Nat.ltb : simpl never.
#[global] Arguments Nat.leb : simpl never.

Create HintDb gohints.
Create Rewrite HintDb gorew.

(** ** Bytes: Go's [[]byte] and Go's [string] are both byte sequences *)

#[global] Instance byte_eq_dec : EqDecision byte := Byte.byte_eq_dec.

#[global] Program Instance byte_countable : Countable byte :=
  inj_countable Byte.to_N Byte.of_N _.
Next Obligation. intros b. apply Byte.of_to_N. Qed.

Abbreviation bytes := (list byte).

(** The numeric value of a byte, and the byte of a number ([byte(v)], which
    keeps the low eight bits). *)
Definition byte_val (b : byte) : Z := Z.of_N (Byte.to_N b).

Definition byte_of (z : Z) : byte :=
  default x00 (Byte.of_N (Z.to_N (z mod 256))).

Lemma byte_val_range b : (0 <= byte_val b < 256)%Z.
Proof.
  unfold byte_val. pose proof (Byte.to_N_bounded b). lia.
Qed.

Lemma byte_val_of z : byte_val (byte_of z) = (z mod 256)%Z.
Proof.
  unfold byte_val, byte_of.
  pose proof (Z.mod_pos_bound z 256 eq_refl) as Hb.
  destruct (Byte.of_N (Z.to_N (z mod 256))) as [b|] eqn:E.
  - cbn. apply Byte.to_of_N in E. rewrite E. lia.
  - apply Byte.of_N_None_iff in E. lia.
Qed.

Lemma byte_of_val b : byte_of (byte_val b) = b.
Proof.
  unfold byte_of. rewrite Z.mod_small by apply byte_val_range.
  unfold byte_val. rewrite N2Z.id, Byte.of_to_N. done.
Qed.

Lemma byte_val_inj b c : byte_val b = byte_val c → b = c.
Proof. intros H. rewrite <-(byte_of_val b), <-(byte_of_val c), H. done. Qed.

#[export] Hint Resolve byte_val_range : gohints.
#[export] Hint Rewrite byte_val_of byte_of_val : gorew.

(** Lower-case hexadecimal, as [hex.EncodeToString] and [%x] print it. *)
Definition hex_digit (n : Z) : byte :=
  if (n <? 10)%Z then byte_of (48 + n) else byte_of (87 + n).

Definition hex_encode (b : bytes) : bytes :=
  b ≫= λ x, [hex_digit (byte_val x / 16); hex_digit (byte_val x mod 16)].

(** ** Results of Go code *)

(** A call returns a value, returns an error, or panics (nil dereference,
    index out of range, failed type assertion, explicit [panic]).  A loop or
    recursion that is not structural takes fuel; [OutOfFuel] says that it has
    not ended within it. *)
Inductive outcome (E A : Type) : Type :=
  | Ret (a : A)
  | Err (e : E)
  | Panic (why : string)
  | OutOfFuel.
Arguments Ret {E A} a.
Arguments Err {E A} e.
Arguments Panic {E A} why.
Arguments OutOfFuel {E A}.

(** Go's [error] values are represented by their message. *)
Abbreviation error := string.

Definition obind {E A B} (c : outcome E A) (k : A → outcome E B) : outcome E B :=
  match c with
  | Ret a => k a | Err e => Err e | Panic w => Panic w | OutOfFuel => OutOfFuel
  end.

(** [if err != nil { return f(err) }]. *)
Definition omap_err {E E' A} (f : E → E') (c : outcome E A) : outcome E' A :=
  match c with
  | Ret a => Ret a | Err e => Err (f e) | Panic w => Panic w | OutOfFuel => OutOfFuel
  end.

(** [defer recover()]: the panic value becomes an error. *)
Definition recover_panic {A} (c : outcome error A) : outcome error A :=
  match c with Panic w => Err w | _ => c end.

(** Dereference of a possibly nil pointer. *)
Definition deref {E A} (p : option A) : outcome E A :=
  match p with Some a => Ret a | None => Panic "nil pointer dereference" end.

(** [l[i]] for a slice: panics out of range. *)
Definition index {E A} (l : list A) (i : Z) : outcome E A :=
  if (i <? 0)%Z then Panic "index out of range"
  else match l !! Z.to_nat i with
       | Some a => Ret a
       | None => Panic "index out of range"
       end.

(** [l[i] = x] for a slice: panics out of range. *)
Definition set_index {E A} (l : list A) (i : Z) (x : A) : outcome E (list A) :=
  if (i <? 0)%Z then Panic "index out of range"
  else if decide (Z.to_nat i < length l) then Ret (<[Z.to_nat i := x]> l)
  else Panic "index out of range".

Notation "'let!' x ':=' c 'in' k" := (obind c (λ x, k))
  (at level 10, x pattern, c at level 100, k at level 200) : go_scope.

Section loops.
Context {E A B : Type}.

(** Runs [f] on every element, stopping at the first error or panic. *)
Definition omapM (f : A → outcome E B) := fix omapM (l : list A) : outcome E (list B) :=
  match l with
  | [] => Ret []
  | x :: l => let! y := f x in let! ys := omapM l in Ret (y :: ys)
  end.

(** A loop over a list with accumulated state. *)
Definition ofoldM (f : B → A → outcome E B) := fix ofoldM (b : B) (l : list A) : outcome E B :=
  match l with
  | [] => Ret b
  | x :: l => let! b := f b x in ofoldM b l
  end.
End loops.

Definition is_ret {E A} (c : outcome E A) : bool :=
  match c with Ret _ => true | _ => false end.

(** The call returns, with a value or an error. *)
Definition returns {E A} (c : outcome E A) : Prop :=
  match c with Ret _ | Err _ => True | _ => False end.

Lemma obind_ret_inv {E A B} (c : outcome E A) (k : A → outcome E B) b :
  obind c k = Ret b → ∃ a, c = Ret a ∧ k a = Ret b.
Proof. destruct c; cbn; naive_solver. Qed.

Lemma omapM_ret {E A B} (f : A → outcome E B) (g : A → B) l :
  (∀ x, x ∈ l → f x = Ret (g x)) → omapM f l = Ret (g <$> l).
Proof.
  induction l as [|x l IH]; intros H; cbn; [done|].
  rewrite (H x) by set_solver. cbn. rewrite IH by set_solver. done.
Qed.

Lemma ofoldM_app {E A B} (f : B → A → outcome E B) b l k :
  ofoldM f b (l ++ k) = let! b := ofoldM f b l in ofoldM f b k.
Proof.
  revert b; induction l as [|x l IH]; intros b; cbn; [done|].
  destruct (f b x); cbn; auto.
Qed.

(** Invariant rule for [for i := 0; i < n; i++]. *)
Lemma ofoldM_seq_inv {E B} (f : B → nat → outcome E B) (P : nat → B → Prop) n b :
  P 0 b → (∀ i b, i < n → P i b → ∃ b', f b i = Ret b' ∧ P (S i) b') →
  ∃ b', ofoldM f b (seq 0 n) = Ret b' ∧ P n b'.
Proof.
  intros H0. induction n as [|n IH]; intros HS; [eauto|].
  destruct IH as (b1 & E1 & H1); [eauto with lia|].
  destruct (HS n b1) as (b2 & E2 & H2); [lia|done|].
  exists b2. rewrite seq_S, ofoldM_app, E1. cbn. rewrite E2. done.
Qed.

Lemma omapM_length {E A B} (f : A → outcome E B) l r :
  omapM f l = Ret r → length r = length l.
Proof.
  revert r; induction l as [|x l IH]; intros r; cbn; [naive_solver|].
  intros (y & Hy & (ys & Hys & [= <-])%obind_ret_inv)%obind_ret_inv.
  cbn. f_equal. eauto.
Qed.

Lemma index_Ret {E A} (l : list A) i a :
  l !! i = Some a → index (E := E) l (Z.of_nat i) = Ret a.
Proof.
  intros H. unfold index.
  destruct (Z.ltb_spec (Z.of_nat i) 0); [lia|]. rewrite Nat2Z.id, H. done.
Qed.

Lemma index_0 {E A} (x : A) l : index (E := E) (x :: l) 0 = Ret x.
Proof. done. Qed.

Lemma set_index_Ret {E A} (l : list A) i a :
  (0 <= i < Z.of_nat (length l))%Z →
  set_index (E := E) l i a = Ret (<[Z.to_nat i := a]> l).
Proof.
  intros H. unfold set_index.
  destruct (Z.ltb_spec i 0); [lia|]. rewrite decide_True by lia. done.
Qed.

(** ** Operations on a state

    A handler takes the state of its object and returns its outcome with the
    new state; what was changed before an error stays changed. *)
Section stateful.
Context {St E : Type}.

Definition SM (A : Type) : Type := St → outcome E A * St.

Definition sret {A} (a : A) : SM A := λ s, (Ret a, s).
Definition sthrow {A} (e : E) : SM A := λ s, (Err e, s).
Definition slift {A} (c : outcome E A) : SM A := λ s, (c, s).
Definition sget : SM St := λ s, (Ret s, s).
Definition sput (s : St) : SM unit := λ _, (Ret tt, s).
Definition sbind {A B} (c : SM A) (k : A → SM B) : SM B := λ s,
  match c s with
  | (Ret a, s) => k a s
  | (Err e, s) => (Err e, s)
  | (Panic w, s) => (Panic w, s)
  | (OutOfFuel, s) => (OutOfFuel, s)
  end.

(** A loop over a list. *)
Definition sforM {A B} (f : B → A → SM B) := fix sforM (b : B) (l : list A) : SM B :=
  match l with
  | [] => sret b
  | x :: l => sbind (f b x) (λ b, sforM b l)
  end.

(** A loop whose rounds all return, with an invariant over what is done. *)
Lemma sforM_inv {A B} (I : list A → B → St → Prop) (f : B → A → SM B) (l : list A) b s :
  (∀ l1 a l2 b s, l = l1 ++ a :: l2 → I l1 b s → ∃ b' s', f b a s = (Ret b', s') ∧ I (l1 ++ [a]) b' s') →
  I [] b s → ∃ b' s', sforM f b l s = (Ret b', s') ∧ I l b' s'.
Proof.
  intros Hf HI. cut (∀ l' l0 b s, l = l0 ++ l' → I l0 b s → ∃ b' s', sforM f b l' s = (Ret b', s') ∧ I l b' s').
  { intros H. by apply (H l []). }
  clear b s HI. induction l' as [|a l' IH]; intros l0 b s El HI.
  - rewrite app_nil_r in El. subst l0. by exists b, s.
  - destruct (Hf l0 a l' b s El HI) as (b1 & s1 & Hr & HI1). cbn [sforM]. unfold sbind at 1. rewrite Hr.
    apply (IH (l0 ++ [a])); [|done]. by rewrite <-app_assoc.
Qed.

(** [R] relates the states before and after every run of [c]. *)
Definition preserves (R : relation St) {A} (c : SM A) : Prop := ∀ s, R s (c s).2.

Context (R : relation St) `{!PreOrder R}.

Lemma preserves_ret {A} (a : A) : preserves R (sret a).
Proof. intros s. reflexivity. Qed.
Lemma preserves_throw {A} e : preserves R (sthrow (A := A) e).
Proof. intros s. reflexivity. Qed.
Lemma preserves_lift {A} (c : outcome E A) : preserves R (slift c).
Proof. intros s. reflexivity. Qed.
Lemma preserves_get : preserves R sget.
Proof. intros s. reflexivity. Qed.
Lemma preserves_bind {A B} (c : SM A) (k : A → SM B) :
  preserves R c → (∀ a, preserves R (k a)) → preserves R (sbind c k).
Proof.
  intros Hc Hk s. unfold sbind. specialize (Hc s).
  destruct (c s) as [[a| | |] s']; [|done..]. etrans; [exact Hc|apply Hk].
Qed.
(** Reading the state and continuing is continuing from it. *)
Lemma preserves_get_bind {B} (k : St → SM B) :
  (∀ s, R s (k s s).2) → preserves R (sbind sget k).
Proof. intros Hk s. apply Hk. Qed.
Lemma preserves_for {A B} (f : B → A → SM B) l b :
  (∀ b a, preserves R (f b a)) → preserves R (sforM f b l).
Proof.
  intros Hf. revert b. induction l as [|a l IH]; intros b; [apply preserves_ret|].
  apply preserves_bind; [apply Hf|apply IH].
Qed.
End stateful.
Arguments SM : clear implicits.

Notation "'do!' x ':=' c 'in' k" := (sbind c (λ x, k))
  (at level 10, x pattern, c at level 100, k at level 200) : go_scope.

#[export] Hint Resolve preserves_ret preserves_throw preserves_lift preserves_get
  preserves_bind preserves_for : gohints.

(** ** Tactics *)

(** Takes a hypothesis [_ = Ret _] about a chain of calls apart. *)
Ltac inv_ret :=
  repeat match goal with
  | H : obind _ _ = Ret _ |- _ =>
      let a := fresh "a" in let Ha := fresh "Ha" in
      apply obind_ret_inv in H as (a & Ha & H)
  | H : Ret _ = Ret _ |- _ => injection H as H
  | H : Err _ = Ret _ |- _ => discriminate H
  | H : Panic _ = Ret _ |- _ => discriminate H
  | H : OutOfFuel = Ret _ |- _ => discriminate H
  | H : (if ?b then _ else _) = Ret _ |- _ =>
      let E := fresh "E" in destruct b eqn:E
  end.

(** Case analysis on the scrutinee the goal is stuck on. *)
Ltac case_goal :=
  match goal with
  | |- context [match ?x with _ => _ end] =>
      lazymatch x with context [match _ with _ => _ end] => fail | _ => idtac end;
      let E := fresh "E" in destruct x eqn:E
  end.

(** Closes a closed equation by evaluation, without normalising its types. *)
Ltac by_vm := lazymatch goal with |- _ = ?b => vm_cast_no_check (eq_refl b) end.

(** ** Lists *)

Lemma take_drop_min {A} n (l : list A) :
  take (min (length l) n) l = take n l ∧ drop (min (length l) n) l = drop n l.
Proof.
  destruct (decide (n ≤ length l)).
  - rewrite Nat.min_r by lia. done.
  - rewrite Nat.min_l by lia. rewrite !take_ge, !drop_ge by lia. done.
Qed.

Lemma lookup_in_range {A} (l : list A) i : i < length l → ∃ a, l !! i = Some a.
Proof. intros H. apply lookup_lt_is_Some_2 in H as [a Ha]. eauto. Qed.

(** Filling the slots of a table by the index of each element. *)
Lemma ofoldM_set_index {E A} (f : A → Z) (l : list A) (acc : list (option A)) :
  NoDup (f <$> l) → (∀ x, x ∈ l → (0 <= f x < Z.of_nat (length acc))%Z) →
  ∃ r, ofoldM (λ acc x, set_index acc (f x) (Some x)) acc l = Ret (E := E) r ∧
    length r = length acc ∧
    (∀ x, x ∈ l → r !! Z.to_nat (f x) = Some (Some x)) ∧
    (∀ i, (∀ x, x ∈ l → Z.to_nat (f x) ≠ i) → r !! i = acc !! i).
Proof.
  revert acc. induction l as [|a l IH]; intros acc Hd Hr; cbn.
  { exists acc. set_solver. }
  apply NoDup_cons in Hd as [Ha Hd]. pose proof (Hr a ltac:(set_solver)) as Hra.
  rewrite set_index_Ret by done. cbn.
  destruct (IH (<[Z.to_nat (f a) := Some a]> acc)) as (r & -> & Hl & Hin & Hout); [done| |].
  { intros x Hx. rewrite length_insert. apply Hr. set_solver. }
  rewrite length_insert in Hl. exists r. split; [done|]. split; [done|]. split.
  - intros x [->|Hx]%elem_of_cons; [|auto]. rewrite Hout.
    + apply list_lookup_insert_eq. lia.
    + intros x Hx E'. apply Ha, list_elem_of_fmap. exists x. split; [|done].
      pose proof (Hr x ltac:(set_solver)). lia.
  - intros i Hi. rewrite Hout by set_solver. apply list_lookup_insert_ne.
    apply Hi. set_solver.
Qed.

(** Running a function on a permuted list. *)
Lemma omapM_perm {E A B} (f : A → outcome E B) l es ds :
  l ≡ₚ es → length es = length ds →
  (∀ i e d, es !! i = Some e → ds !! i = Some d → f e = Ret d) →
  ∃ r, omapM f l = Ret r ∧ r ≡ₚ ds.
Proof.
  intros Hp Hlen Hf.
  assert (es = (zip es ds).*1) as Hes by (rewrite fst_zip; [done|lia]).
  rewrite Hes in Hp. apply Permutation_map_inv in Hp as (zs & -> & Hzs).
  assert (∀ z, z ∈ zs → f z.1 = Ret z.2) as Hz.
  { intros z Hz. rewrite <-Hzs in Hz. apply list_elem_of_lookup in Hz as [i Hi].
    rewrite lookup_zip_with in Hi. destruct (es !! i) as [e|] eqn:Ee; [|done].
    destruct (ds !! i) as [d|] eqn:Ed; [|done]. cbn in Hi. simplify_eq. by eapply Hf. }
  exists (zs.*2). split.
  - clear Hzs. induction zs as [|z zs IH]; [done|]. cbn. rewrite (Hz z) by set_solver. cbn.
    rewrite IH by set_solver. done.
  - rewrite <-Hzs, snd_zip by lia. done.
Qed.

(** A loop over indices whose [i]-th round gives the [i]-th element of [r]. *)
Lemma omapM_seq {E B} (f : nat → outcome E B) r :
  (∀ i y, r !! i = Some y → f i = Ret y) → omapM f (seq 0 (length r)) = Ret r.
Proof.
  assert (∀ k, (∀ i y, r !! i = Some y → f (k + i) = Ret y) →
               omapM f (seq k (length r)) = Ret r) as H; [|exact (H 0)].
  induction r as [|y r IH]; intros k Hf; [done|]. cbn [length seq omapM].
  rewrite <-(Nat.add_0_r k) at 1. rewrite (Hf 0 y eq_refl). cbn [obind].
  rewrite IH; [done|]. intros i z Hi. rewrite <-(Hf (S i) z Hi). f_equal. lia.
Qed.

(** ** Histories: what of a list of expected items has not happened yet *)
Section remaining.
Context {A : Type} `{EqDecision A}.

Lemma filter_iff_in (P Q : A → Prop) `{∀ x, Decision (P x)} `{∀ x, Decision (Q x)} (l : list A) :
  (∀ x, x ∈ l → P x ↔ Q x) → filter P l = filter Q l.
Proof.
  induction l as [|x l IH]; intros HPQ; [done|]. rewrite !filter_cons.
  rewrite IH by set_solver. specialize (HPQ x ltac:(set_solver)).
  repeat case_decide; tauto || done.
Qed.

Lemma filter_all (P : A → Prop) `{∀ x, Decision (P x)} (l : list A) :
  (∀ x, x ∈ l → P x) → filter P l = l.
Proof.
  induction l as [|x l IH]; intros HP; [done|].
  rewrite filter_cons, decide_True, IH by set_solver. done.
Qed.

Definition remaining (C U : list A) : nat := length (filter (λ t, t ∉ C) U).

Lemma remaining_here C U t :
  NoDup U → t ∈ U → t ∉ C → remaining C U = S (remaining (t :: C) U).
Proof.
  unfold remaining. intros HU Ht HC.
  apply list_elem_of_split in Ht as (l1 & l2 & ->).
  apply NoDup_app in HU as (_ & Hd & [Hl2 _]%NoDup_cons).
  assert (t ∉ l1) as Hl1 by (intros Ht; apply (Hd t Ht); set_solver).
  rewrite !filter_app, !filter_cons, decide_True, decide_False by set_solver.
  rewrite !length_app. cbn. rewrite Nat.add_succ_r. f_equal. f_equal; f_equal;
    apply filter_iff_in; set_solver.
Qed.

Lemma remaining_elsewhere C U t : t ∉ U → remaining (t :: C) U = remaining C U.
Proof.
  unfold remaining. intros Ht. f_equal. apply filter_iff_in. set_solver.
Qed.

Lemma remaining_0 C U : remaining C U = 0 ↔ ∀ t, t ∈ U → t ∈ C.
Proof.
  unfold remaining. rewrite length_zero_iff_nil. split.
  - intros E t Ht. destruct (decide (t ∈ C)) as [|Hn]; [done|].
    assert (t ∈ filter (λ t, t ∉ C) U) as Hf by (apply list_elem_of_filter; done).
    rewrite E in Hf. set_solver.
  - intros HC. destruct (filter _ U) as [|t l] eqn:E; [done|].
    assert (t ∈ filter (λ t, t ∉ C) U) as Hf by (rewrite E; set_solver).
    apply list_elem_of_filter in Hf as [Hn Ht]. destruct (Hn (HC t Ht)).
Qed.

Lemma remaining_nil U : remaining [] U = length U.
Proof.
  unfold remaining. f_equal. induction U as [|t U IH]; [done|].
  rewrite filter_cons, decide_True by set_solver. by rewrite IH.
Qed.
End remaining.

(** ** Fuel

    A computation with fuel yields [r] when every large enough fuel gives [r]. *)
Section fuel.
Context {E : Type}.

Definition yields {A} (c : nat → outcome E A) (r : outcome E A) : Prop :=
  ∃ f0, ∀ f, f0 ≤ f → c f = r.

Lemma yields_const {A} (r : outcome E A) : yields (λ _, r) r.
Proof. by exists 0. Qed.

Lemma yields_ext {A} (c c' : nat → outcome E A) r :
  (∀ f, c' f = c f) → yields c r → yields c' r.
Proof. intros He [f0 H]. exists f0. intros f Hf. rewrite He. auto. Qed.

(** A recursive call has one fuel less. *)
Lemma yields_succ {A} (c : nat → outcome E A) r : yields (λ f, c (S f)) r → yields c r.
Proof.
  intros [f0 H]. exists (S f0). intros [|f] Hf; [lia|]. apply H. lia.
Qed.

Lemma yields_bind {A B} (c : nat → outcome E A) (k : nat → A → outcome E B) a r :
  yields c (Ret a) → yields (λ f, k f a) r → yields (λ f, obind (c f) (k f)) r.
Proof.
  intros [f1 H1] [f2 H2]. exists (max f1 f2). intros f Hf. rewrite H1 by lia. apply H2. lia.
Qed.

Lemma yields_map {A B} (g : outcome E A → outcome E B) (c : nat → outcome E A) r :
  yields c r → yields (λ f, g (c f)) (g r).
Proof. intros [f0 H]. exists f0. intros f Hf. by rewrite H. Qed.

Lemma yields_fun {A} (c : nat → outcome E A) r r' : yields c r → yields c r' → r = r'.
Proof.
  intros [f1 H1] [f2 H2]. rewrite <-(H1 (max f1 f2)), <-(H2 (max f1 f2)) by lia. done.
Qed.
End fuel.

#[export] Hint Resolve yields_const : gohints.

(** ** Numbers as bytes: sign, bits, end (for the concrete instances) *)

Fixpoint pos_bytes (p : positive) : bytes :=
  match p with
  | xH => [x02]
  | xO p => x00 :: pos_bytes p
  | xI p => x01 :: pos_bytes p
  end.
Definition Z_bytes (z : Z) : bytes :=
  match z with
  | Z0 => [x00; x02]
  | Zpos p => x01 :: pos_bytes p
  | Zneg p => x02 :: pos_bytes p
  end.

Fixpoint bytes_pos (b : bytes) : option (positive * bytes) :=
  match b with
  | x02 :: b => Some (xH, b)
  | x00 :: b => '(p, b) ← bytes_pos b; Some (xO p, b)
  | x01 :: b => '(p, b) ← bytes_pos b; Some (xI p, b)
  | _ => None
  end.
Definition bytes_Z (b : bytes) : option (Z * bytes) :=
  match b with
  | x00 :: b => '(_, b) ← bytes_pos b; Some (Z0, b)
  | x01 :: b => '(p, b) ← bytes_pos b; Some (Zpos p, b)
  | x02 :: b => '(p, b) ← bytes_pos b; Some (Zneg p, b)
  | _ => None
  end.

Lemma bytes_pos_bytes p b : bytes_pos (pos_bytes p ++ b) = Some (p, b).
Proof. induction p as [p IH|p IH|]; cbn; [rewrite IH; done..|done]. Qed.
Lemma bytes_Z_bytes z b : bytes_Z (Z_bytes z ++ b) = Some (z, b).
Proof. destruct z; cbn; [done|rewrite bytes_pos_bytes; done..]. Qed.
