(* ===== verification/Sha256.v ===== *)
(** * SHA-256

    [crypto/sha256] of Go's standard library, executable: [Sum256] is what
    [util.go], [otsclient/ots.go] and [otssmc/protocol.go] call.  32-bit words
    are integers below [2^32]. *)
From S2P Require Import Prelude.
Local Open Scope Z_scope.

Module Sha256.

Definition w32 (z : Z) : Z := z mod 2 ^ 32.
Definition rotr (n z : Z) : Z :=
  Z.lor (Z.shiftr z n) (w32 (Z.shiftl z (32 - n))).

(** The constants of the standard are the first 32 fractional bits of the cube
    roots and square roots of the first primes. *)
Definition is_prime (n : Z) : bool :=
  forallb (λ d, negb (n mod Z.of_nat d =? 0)) (seq 2 (Z.to_nat (Z.sqrt n) - 1)).
Definition primes (bound : nat) : list Z :=
  List.filter is_prime (Z.of_nat <$> seq 2 bound).

(** The largest [r] below [2^bits] with [r^k <= n], bit by bit. *)
Fixpoint root (bits : nat) (k n r : Z) : Z :=
  match bits with
  | O => r
  | Datatypes.S bits =>
      let r' := r + 2 ^ Z.of_nat bits in
      root bits k n (if r' ^ k <=? n then r' else r)
  end.
Definition frac_root (k p : Z) : Z := w32 (root 40 k (p * 2 ^ (32 * k)) 0).

Definition K256 : list Z := Eval vm_compute in frac_root 3 <$> primes 310.
Definition H256 : list Z := Eval vm_compute in frac_root 2 <$> take 8 (primes 310).

(** The message schedule is kept newest first. *)
Definition sched_step (w : list Z) : list Z :=
  let at_ i := default 0 (w !! i) in
  let s0 := let x := at_ 14%nat in
    Z.lxor (Z.lxor (rotr 7 x) (rotr 18 x)) (Z.shiftr x 3) in
  let s1 := let x := at_ 1%nat in
    Z.lxor (Z.lxor (rotr 17 x) (rotr 19 x)) (Z.shiftr x 10) in
  w32 (at_ 15%nat + s0 + at_ 6%nat + s1) :: w.

Definition schedule (block : list Z) : list Z :=
  rev (Nat.iter 48 sched_step (rev block)).

Definition round (st : list Z) (kw : Z * Z) : list Z :=
  match st with
  | [a; b; c; d; e; f; g; h] =>
      let S1 := Z.lxor (Z.lxor (rotr 6 e) (rotr 11 e)) (rotr 25 e) in
      let ch := Z.lxor (Z.land e f) (Z.land (2 ^ 32 - 1 - e) g) in
      let t1 := w32 (h + S1 + ch + kw.1 + kw.2) in
      let S0 := Z.lxor (Z.lxor (rotr 2 a) (rotr 13 a)) (rotr 22 a) in
      let maj := Z.lxor (Z.lxor (Z.land a b) (Z.land a c)) (Z.land b c) in
      [w32 (t1 + S0 + maj); a; b; c; w32 (d + t1); e; f; g]
  | _ => st
  end.

Definition compress (st block : list Z) : list Z :=
  zip_with (λ x y, w32 (x + y)) st
    (foldl round st (zip K256 (schedule block))).

Definition be_bytes (n : nat) (z : Z) : bytes :=
  rev (map (λ i, byte_of (Z.shiftr z (8 * Z.of_nat i))) (seq 0 n)).

Definition pad (m : bytes) : bytes :=
  let l := Z.of_nat (length m) in
  m ++ [x80] ++ repeat x00 (Z.to_nat ((55 - l) mod 64)) ++ be_bytes 8 (8 * l).

Fixpoint be_words (m : bytes) : list Z :=
  match m with
  | a :: b :: c :: d :: m =>
      (byte_val a * 2 ^ 24 + byte_val b * 2 ^ 16 + byte_val c * 2 ^ 8
       + byte_val d) :: be_words m
  | _ => []
  end.

Fixpoint blocks (fuel : nat) (w : list Z) : list (list Z) :=
  match fuel, w with
  | S n, _ :: _ => take 16 w :: blocks n (drop 16 w)
  | _, _ => []
  end.

Definition Sum256 (m : bytes) : bytes :=
  let w := be_words (pad m) in
  foldl compress H256 (blocks (length w) w) ≫= be_bytes 4.

End Sha256.
Export Sha256.

#[global] Opaque Sum256.
#[global] Strategy 1000 [Sum256].

(** The published digest of the empty message. *)
Example sha256_empty :
  hex_encode (Sum256 []) =
  String.list_byte_of_string
    "e3b0c44298fc1c149afbf4c8996fb92427ae41e4649b934ca495991b7852b855".
Proof. vm_compute. reflexivity. Qed.

Example sha256_abc :
  hex_encode (Sum256 (String.list_byte_of_string "abc")) =
  String.list_byte_of_string
    "ba7816bf8f01cfea414140de5dae2223b00361a396177a9cb410ff61f20015ad".
Proof. vm_compute. reflexivity. Qed.
