(* ===== verification/GoStrings.v ===== *)
(** * Go's standard library on strings

    The functions of [strings], [strconv], [net] and [regexp] that
    [imported/onet/network/address.go], [tcp.go] and the websockets call, on byte
    sequences, as in Go 1.13.  [Strings] and [Numbers] are searching, splitting
    and decimal numbers; [Net] is [net.SplitHostPort], [net.JoinHostPort] and
    [net.ParseIP]; [Regexp] matches regular expressions by derivatives, with the
    language they denote; [Path] joins paths; [Sorting] is [sort.Strings]. *)
From stdpp Require Import sorting.
From S2P Require Import Prelude.
Local Open Scope Z_scope.

(** The bytes of a literal. *)
Definition str (s : string) : bytes := String.list_byte_of_string s.
Arguments str s%_string.

Module Strings.

Fixpoint has_prefix (p s : bytes) : bool :=
  match p, s with
  | [], _ => true
  | a :: p, b :: s => bool_decide (a = b) && has_prefix p s
  | _ :: _, [] => false
  end.

Fixpoint Contains (s sub : bytes) : bool :=
  has_prefix sub s || match s with [] => false | _ :: s => Contains s sub end.

(** [strings.Split] by a separator that is not empty: [acc] is the piece so far,
    [skip] the rest of a separator. *)
Fixpoint split_from (sep : bytes) (skip : nat) (acc s : bytes) : list bytes :=
  match s with
  | [] => [acc]
  | c :: s' =>
      match skip with
      | S skip => split_from sep skip acc s'
      | O => if has_prefix sep s then acc :: split_from sep (length sep - 1) [] s'
             else split_from sep 0 (acc ++ [c]) s'
      end
  end.
Definition Split (s sep : bytes) : list bytes := split_from sep 0 [] s.

(** The index of a byte, from the left and from the right. *)
Fixpoint IndexByte (s : bytes) (c : byte) : option nat :=
  match s with
  | [] => None
  | b :: s => if decide (b = c) then Some 0%nat else S <$> IndexByte s c
  end.
Fixpoint LastIndexByte (s : bytes) (c : byte) : option nat :=
  match s with
  | [] => None
  | b :: s =>
      match LastIndexByte s c with
      | Some i => Some (S i)
      | None => if decide (b = c) then Some 0%nat else None
      end
  end.

Definition between (lo hi : Z) (b : byte) : bool := (lo <=? byte_val b) && (byte_val b <=? hi).
Definition is_digit : byte → bool := between 48 57.
Definition is_lower : byte → bool := between 97 122.
Definition is_upper : byte → bool := between 65 90.
Definition is_ascii (b : byte) : bool := byte_val b <? 128.

Definition lower (b : byte) : byte := if is_upper b then byte_of (byte_val b + 32) else b.

(** [strings.TrimSpace]; [unicode] is what it does to a string that is not ASCII. *)
Definition is_space (b : byte) : bool := (between 9 13 b || (byte_val b =? 32))%Z.
Fixpoint trim_left (s : bytes) : bytes :=
  match s with c :: t => if is_space c then trim_left t else s | [] => [] end.
Definition TrimSpace (unicode : bytes → bytes) (s : bytes) : bytes :=
  if forallb is_ascii s then rev (trim_left (rev (trim_left s))) else unicode s.

Lemma has_prefix_app p s : has_prefix p (p ++ s) = true.
Proof. induction p as [|a p IH]; [done|]. cbn. by rewrite bool_decide_true. Qed.

Lemma has_prefix_spec p s : has_prefix p s = true ↔ ∃ k, s = p ++ k.
Proof.
  split; [|intros [k ->]; apply has_prefix_app].
  revert s. induction p as [|a p IH]; intros [|b s]; cbn; [by eexists|by eexists|done|].
  intros [->%bool_decide_eq_true Hp]%andb_prop. destruct (IH s Hp) as [k ->]. by eexists.
Qed.

Lemma Contains_app a sub b : Contains (a ++ sub ++ b) sub = true.
Proof.
  induction a as [|c a IH]; cbn [app].
  - destruct sub as [|x sub]; cbn [app]; [by destruct b|]. cbn [Contains].
    by rewrite (has_prefix_app (x :: sub) b : has_prefix (x :: sub) (x :: sub ++ b) = true).
  - cbn [Contains]. rewrite IH. by rewrite orb_true_r.
Qed.

Lemma split_skip sep n acc l s : length l = n → split_from sep n acc (l ++ s) = split_from sep 0 acc s.
Proof. revert l. induction n as [|n IH]; intros [|c l] Hl; try done. cbn. apply IH. by injection Hl. Qed.

Lemma split_from_sep sep acc s :
  sep ≠ [] → split_from sep 0 acc (sep ++ s) = acc :: split_from sep 0 [] s.
Proof.
  destruct sep as [|c sep]; [done|]. intros _. cbn [app split_from].
  change (c :: sep ++ s) with ((c :: sep) ++ s). rewrite has_prefix_app. f_equal.
  apply split_skip. cbn. lia.
Qed.

(** No piece of a split holds the first byte of a separator that cannot occur. *)
Lemma split_none sep c acc s :
  c ∉ s → head sep = Some c → split_from sep 0 acc s = [acc ++ s].
Proof.
  destruct sep as [|c' sep]; [done|]. intros Hs [= ->]. revert acc Hs.
  induction s as [|b s IH]; intros acc Hs; [by rewrite app_nil_r|].
  apply not_elem_of_cons in Hs as [Hb Hs]. cbn [split_from has_prefix].
  rewrite bool_decide_false by done. cbn [andb]. rewrite IH by done. by rewrite <-app_assoc.
Qed.

(** Splitting at a separator whose first byte does not occur before it. *)
Lemma split_cut sep c acc s1 s2 :
  c ∉ s1 → head sep = Some c →
  split_from sep 0 acc (s1 ++ sep ++ s2) = (acc ++ s1) :: split_from sep 0 [] s2.
Proof.
  intros Hs Hc. assert (sep ≠ []) as Hne by by destruct sep.
  revert acc. induction s1 as [|b s1 IH]; intros acc.
  - cbn [app]. rewrite app_nil_r. by apply split_from_sep.
  - apply not_elem_of_cons in Hs as [Hb Hs]. destruct sep as [|c' sep]; [done|]. injection Hc as ->.
    cbn [app split_from has_prefix]. rewrite bool_decide_false by done. cbn [andb].
    change (c :: sep ++ s2) with ((c :: sep) ++ s2). rewrite IH by done. by rewrite <-app_assoc.
Qed.

(** Only the first piece depends on what was read before. *)
Lemma split_from_acc sep s : ∀ n, ∃ hd tl, ∀ acc, split_from sep n acc s = (acc ++ hd) :: tl.
Proof.
  induction s as [|c s IH]; intros n; [exists [], []; intros acc; cbn; by rewrite app_nil_r|].
  destruct n as [|n].
  - destruct (has_prefix sep (c :: s)) eqn:E.
    + eexists [], _. intros acc. cbn [split_from]. rewrite E, app_nil_r. done.
    + destruct (IH 0%nat) as (hd & tl & H). exists (c :: hd), tl. intros acc. cbn [split_from].
      rewrite E, H, <-app_assoc. done.
  - destruct (IH n) as (hd & tl & H). exists hd, tl. intros acc. cbn [split_from]. apply H.
Qed.

(** Joining the pieces gives the string back. *)
Fixpoint Join (sep : bytes) (l : list bytes) : bytes :=
  match l with
  | [] => []
  | [a] => a
  | a :: l => a ++ sep ++ Join sep l
  end.

Lemma split_from_not_nil sep n acc s : split_from sep n acc s ≠ [].
Proof.
  revert n acc. induction s as [|c s IH]; intros n acc; cbn; [done|].
  destruct n; [|apply IH]. destruct (has_prefix _ _); [done|apply IH].
Qed.

Lemma Join_cons sep a l : l ≠ [] → Join sep (a :: l) = a ++ sep ++ Join sep l.
Proof. by destruct l. Qed.

Lemma split_from_Join sep : sep ≠ [] → ∀ n acc s,
  (length s ≤ n)%nat → Join sep (split_from sep 0 acc s) = acc ++ s.
Proof.
  intros Hne n. induction n as [|n IH]; intros acc s Hl.
  - destruct s; [|cbn in Hl; lia]. cbn. by rewrite app_nil_r.
  - destruct s as [|c s]; [by rewrite app_nil_r|].
    destruct (has_prefix sep (c :: s)) eqn:Hp.
    + apply has_prefix_spec in Hp as [k Hk]. rewrite Hk, split_from_sep by done.
      rewrite Join_cons by apply split_from_not_nil. rewrite IH; [done|].
      apply (f_equal length) in Hk. rewrite length_app in Hk. destruct sep; [done|]. cbn in *. lia.
    + cbn [split_from]. rewrite Hp, IH by (cbn in Hl; lia). by rewrite <-app_assoc.
Qed.

Lemma Join_Split sep s : sep ≠ [] → Join sep (Split s sep) = s.
Proof. intros Hne. by apply (split_from_Join sep Hne (length s)). Qed.

(** The other way round, when no part has the separator, a byte. *)
Lemma Split_Join c l : l ≠ [] → Forall (λ s, c ∉ s) l → Split (Join [c] l) [c] = l.
Proof.
  unfold Split. induction l as [|a l IH]; [done|]. intros _ [Ha Hl]%Forall_cons. destruct l as [|b l].
  - cbn [Join]. by rewrite (split_none [c] c).
  - rewrite Join_cons by done. rewrite (split_cut [c] c) by done. by rewrite IH.
Qed.

Lemma LastIndexByte_app s1 c s2 :
  c ∉ s2 → LastIndexByte (s1 ++ c :: s2) c = Some (length s1).
Proof.
  intros Hc. assert (LastIndexByte s2 c = None) as H2.
  { induction s2 as [|b s2 IH]; [done|]. apply not_elem_of_cons in Hc as [Hb Hc]. cbn.
    rewrite IH by done. by rewrite decide_False. }
  induction s1 as [|b s1 IH]; cbn; [by rewrite H2, decide_True|]. by rewrite IH.
Qed.

Lemma IndexByte_app s1 c s2 : c ∉ s1 → IndexByte (s1 ++ c :: s2) c = Some (length s1).
Proof.
  intros Hc. induction s1 as [|b s1 IH]; cbn; [by rewrite decide_True|].
  apply not_elem_of_cons in Hc as [Hb Hc]. rewrite decide_False by done. by rewrite IH.
Qed.

Lemma IndexByte_None s c : IndexByte s c = None ↔ c ∉ s.
Proof.
  induction s as [|b s IH]; cbn.
  - split; [intros _; apply not_elem_of_nil|done].
  - rewrite not_elem_of_cons. case_decide as E; [subst b; split; [done|intros [? _]; done]|].
    destruct (IndexByte s c); cbn; [|naive_solver]. split; [done|]. intros [_ H]. by apply IH in H.
Qed.

Lemma LastIndexByte_Some s c i :
  LastIndexByte s c = Some i → s = take i s ++ c :: drop (S i) s ∧ c ∉ drop (S i) s.
Proof.
  revert i. induction s as [|b s IH]; intros i; cbn; [done|].
  destruct (LastIndexByte s c) as [j|] eqn:Ej.
  - intros [= <-]. destruct (IH j eq_refl) as [H1 H2]. split; [cbn; by f_equal|done].
  - case_decide as E; [|done]. intros [= <-]. subst b. cbn. split; [done|].
    clear IH. induction s as [|b s IHs]; [apply not_elem_of_nil|]. cbn in Ej.
    destruct (LastIndexByte s c); [done|]. case_decide; [done|]. apply not_elem_of_cons. split; [done|auto].
Qed.

Lemma split_absent sep c acc s : c ∈ sep → c ∉ s → split_from sep 0 acc s = [acc ++ s].
Proof.
  intros Hc. revert acc. induction s as [|b s IH]; intros acc Hs; cbn [split_from]; [by rewrite app_nil_r|].
  destruct (has_prefix sep (b :: s)) eqn:Hp.
  - apply has_prefix_spec in Hp as [k Hk]. rewrite Hk in Hs. set_solver.
  - rewrite IH by set_solver. by rewrite <-app_assoc.
Qed.

End Strings.

Module Numbers.
Import Strings.

Definition digit_val (b : byte) : Z := byte_val b - 48.

(** The number a sequence of digits denotes; [None] for other bytes. *)
Fixpoint digits (acc : Z) (s : bytes) : option Z :=
  match s with
  | [] => Some acc
  | b :: s => if is_digit b then digits (10 * acc + digit_val b) s else None
  end.

(** [strconv.Atoi]: an optional sign and digits, within 64 bits.  On a range
    error the value is the nearest one. *)
Definition Atoi_full (s : bytes) : Z * bool :=
  let '(neg, ds) := match s with
    | x2b :: s => (false, s)
    | x2d :: s => (true, s)
    | _ => (false, s)
    end in
  match ds, digits 0 ds with
  | _ :: _, Some n =>
      let z := if neg : bool then - n else n in
      if z <? - 2 ^ 63 then (- 2 ^ 63, false)
      else if 2 ^ 63 <=? z then (2 ^ 63 - 1, false) else (z, true)
  | _, _ => (0, false)
  end.
Definition Atoi (s : bytes) : option Z :=
  match Atoi_full s with (z, true) => Some z | _ => None end.

(** [strconv.Itoa] of a number that is not negative, and of any. *)
Fixpoint decimal (fuel : nat) (z : Z) (acc : bytes) : bytes :=
  match fuel with
  | O => acc
  | S fuel =>
      let acc := byte_of (48 + z mod 10) :: acc in
      if z <? 10 then acc else decimal fuel (z / 10) acc
  end.
Definition Itoa (z : Z) : bytes :=
  if z <? 0 then x2d :: decimal 20 (- z) [] else decimal 20 z [].

Lemma digit_byte d : 0 <= d < 10 → is_digit (byte_of (48 + d)) = true ∧ digit_val (byte_of (48 + d)) = d.
Proof.
  intros Hd. unfold is_digit, between, digit_val. rewrite byte_val_of, Z.mod_small by lia. lia.
Qed.

Lemma digits_app s1 s2 a b : digits a s1 = Some b → digits a (s1 ++ s2) = digits b s2.
Proof.
  revert a. induction s1 as [|c s1 IH]; intros a; cbn; [by intros [= ->]|].
  destruct (is_digit c); [apply IH|done].
Qed.

(** The number of digits is enough for the fuel. *)
Lemma decimal_spec fuel z acc :
  0 <= z < 10 ^ Z.of_nat fuel →
  ∃ ds, decimal fuel z acc = ds ++ acc ∧ digits 0 ds = Some z ∧ ((0 < fuel)%nat → ds ≠ []) ∧
    Forall (λ b, is_digit b = true) ds.
Proof.
  revert z acc. induction fuel as [|fuel IH]; intros z acc Hz.
  - exists []. cbn in *. split; [done|]. split; [f_equal; lia|]. split; [lia|done].
  - rewrite Nat2Z.inj_succ, Z.pow_succ_r in Hz by lia. cbn [decimal].
    pose proof (Z.mod_pos_bound z 10 eq_refl) as Hm. destruct (digit_byte (z mod 10) Hm) as [H1 H2].
    destruct (Z.ltb_spec z 10) as [Hlt|Hge].
    + exists [byte_of (48 + z mod 10)]. split; [done|]. split; [|split; [done|by apply Forall_singleton]].
      cbn. rewrite H1, H2. rewrite Z.mod_small by lia. f_equal; lia.
    + destruct (IH (z / 10) (byte_of (48 + z mod 10) :: acc)) as (ds & -> & Hd & _ & Hall).
      { split; [apply Z.div_pos; lia|]. apply Z.div_lt_upper_bound; lia. }
      exists (ds ++ [byte_of (48 + z mod 10)]). split; [by rewrite <-app_assoc|].
      split; [|split; [by destruct ds|apply Forall_app; split; [done|by apply Forall_singleton]]].
      rewrite (digits_app _ _ _ _ Hd). cbn. rewrite H1, H2.
      rewrite (Z.div_mod z 10) at 3 by lia. done.
Qed.

Lemma digits_sign ds : Forall (λ b, is_digit b = true) ds →
  ds ≠ [] → ∃ b l, ds = b :: l ∧ b ≠ x2b ∧ b ≠ x2d.
Proof.
  destruct ds as [|b l]; [done|]. intros [Hb _]%Forall_cons _. exists b, l. by split; [|split; intros ->].
Qed.

Lemma Atoi_Itoa z : 0 <= z < 2 ^ 63 → Atoi (Itoa z) = Some z.
Proof.
  intros Hz. unfold Itoa. destruct (Z.ltb_spec z 0); [lia|].
  destruct (decimal_spec 20 z []) as (ds & -> & Hd & Hne & Hall).
  { change (10 ^ Z.of_nat 20) with 100000000000000000000. lia. }
  rewrite app_nil_r. destruct (digits_sign ds Hall (Hne ltac:(lia))) as (b & l & -> & Hb1 & Hb2).
  unfold Atoi, Atoi_full. replace (match b :: l with x2b :: s => (false, s) | x2d :: s => (true, s) | _ => (false, b :: l) end)
    with (false, b :: l) by (by destruct b).
  rewrite Hd. destruct (Z.ltb_spec z (- 2 ^ 63)); [lia|]. destruct (Z.leb_spec (2 ^ 63) z); [lia|done].
Qed.

Lemma Itoa_digits z : 0 <= z < 2 ^ 63 → Forall (λ b, is_digit b = true) (Itoa z) ∧ Itoa z ≠ [].
Proof.
  intros Hz. unfold Itoa. destruct (Z.ltb_spec z 0); [lia|].
  destruct (decimal_spec 20 z []) as (ds & -> & _ & Hne & Hall).
  { change (10 ^ Z.of_nat 20) with 100000000000000000000. lia. }
  rewrite app_nil_r. auto with lia.
Qed.
End Numbers.

Module Net.
Import Strings Numbers.

(** [net.SplitHostPort]: host and port, or [None] for its errors. *)
Definition SplitHostPort (hostport : bytes) : option (bytes * bytes) :=
  match LastIndexByte hostport x3a with
  | None => None
  | Some i =>
      let host_jk :=
        match hostport with
        | x5b :: _ =>
            match IndexByte hostport x5d with
            | None => None
            | Some e =>
                if (e + 1 =? i)%nat then Some (take (e - 1) (drop 1 hostport), 1%nat, (e + 1)%nat) else None
            end
        | _ =>
            let host := take i hostport in
            match IndexByte host x3a with Some _ => None | None => Some (host, 0%nat, 0%nat) end
        end in
      match host_jk with
      | None => None
      | Some (host, j, k) =>
          match IndexByte (drop j hostport) x5b, IndexByte (drop k hostport) x5d with
          | None, None => Some (host, drop (i + 1) hostport)
          | _, _ => None
          end
      end
  end.

(** [net.JoinHostPort]. *)
Definition JoinHostPort (host port : bytes) : bytes :=
  match IndexByte host x3a with
  | Some _ => [x5b] ++ host ++ [x5d; x3a] ++ port
  | None => host ++ [x3a] ++ port
  end.

(** *** [net.ParseIP]: whether there is an address *)

(** [dtoi] and [xtoi]: a decimal or hexadecimal number below [0xFFFFFF] and what
    follows it. *)
Definition hex_val (b : byte) : option Z :=
  if is_digit b then Some (byte_val b - 48)
  else if between 97 102 b then Some (byte_val b - 87)
  else if between 65 70 b then Some (byte_val b - 55) else None.
Definition dec_val (b : byte) : option Z := if is_digit b then Some (byte_val b - 48) else None.

Fixpoint number_from (base : Z) (val : byte → option Z) (n : Z) (s : bytes) : option (Z * bytes) :=
  match s with
  | [] => Some (n, [])
  | b :: s' =>
      match val b with
      | None => Some (n, s)
      | Some d => let n := n * base + d in if 16777215 <=? n then None else number_from base val n s'
      end
  end.
Definition number (base : Z) (val : byte → option Z) (s : bytes) : option (Z * bytes) :=
  match s with
  | [] => None
  | b :: _ => match val b with None => None | Some _ => number_from base val 0 s end
  end.
Definition dtoi : bytes → option (Z * bytes) := number 10 dec_val.
Definition xtoi : bytes → option (Z * bytes) := number 16 hex_val.

(** [parseIPv4]: the octets from the [i]-th on. *)
Fixpoint octets (n : nat) (first : bool) (s : bytes) : bool :=
  match n with
  | O => bool_decide (s = [])
  | S n =>
      let rest := if first then Some s else match s with x2e :: s => Some s | _ => None end in
      match s, rest with
      | _ :: _, Some s =>
          match dtoi s with
          | Some (v, s) => (v <=? 255) && octets n false s
          | None => false
          end
      | _, _ => false
      end
  end.
Definition parseIPv4 (s : bytes) : bool := octets 4 true s.

(** The loop of [parseIPv6]: [i] bytes are read, [fuel] is more than the groups
    that are left; what it leaves, the bytes read, and whether there was an
    ellipsis. *)
Fixpoint groups (fuel : nat) (i : Z) (ellipsis : bool) (s : bytes) : option (bytes * Z * bool) :=
  match fuel with
  | O => Some (s, i, ellipsis)
  | S fuel =>
      if 16 <=? i then Some (s, i, ellipsis)
      else
        match xtoi s with
        | None => None
        | Some (n, rest) =>
            if 65535 <? n then None
            else
              match rest with
              | x2e :: _ =>
                  if negb ellipsis && negb (i =? 12) then None
                  else if 16 <? i + 4 then None
                  else if parseIPv4 s then Some ([], i + 4, ellipsis) else None
              | [] => Some ([], i + 2, ellipsis)
              | x3a :: x3a :: rest =>
                  if ellipsis then None
                  else match rest with
                       | [] => Some ([], i + 2, true)
                       | _ => groups fuel (i + 2) true rest
                       end
              | x3a :: c :: rest => groups fuel (i + 2) ellipsis (c :: rest)
              | _ => None
              end
        end
  end.
Definition parseIPv6 (s : bytes) : bool :=
  let '(start, ellipsis) := match s with x3a :: x3a :: s => (s, true) | _ => (s, false) end in
  match start, ellipsis with
  | [], true => true
  | _, _ =>
      match groups 8 0 ellipsis start with
      | Some ([], i, e) => if i <? 16 then e else negb e
      | _ => false
      end
  end.

Fixpoint ParseIP_scan (whole s : bytes) : bool :=
  match s with
  | [] => false
  | x2e :: _ => parseIPv4 whole
  | x3a :: _ => parseIPv6 whole
  | _ :: s => ParseIP_scan whole s
  end.
Definition ParseIP (s : bytes) : bool := ParseIP_scan s s.

Example ParseIP_examples :
  (λ s, ParseIP (str s)) <$> ["127.0.0.1"; "010.0.0.1"; "1.2.3"; "256.1.1.1"; "::1"; "::"; "2001:db8::1.2.3.4";
    "1:2:3:4:5:6:7:8"; "1:2:3:4:5:6:7:8:9"; "1::2::3"; "::ffff:1.2.3.4"; "12345::"; "localhost"; ""]%string =
  [true; true; false; false; true; true; true; true; false; false; true; false; false; false].
Proof. vm_compute. reflexivity. Qed.

(** The characters of an IP address. *)
Definition ip_char (b : byte) : Prop := is_Some (hex_val b) ∨ b = x2e ∨ b = x3a.

Lemma dec_hex_val b d : dec_val b = Some d → is_Some (hex_val b).
Proof. unfold dec_val, hex_val. destruct (is_digit b); [by eexists|done]. Qed.

Lemma number_from_chars base val n s m rest :
  (∀ b d, val b = Some d → is_Some (hex_val b)) →
  number_from base val n s = Some (m, rest) → Forall ip_char rest → Forall ip_char s.
Proof.
  intros Hval. revert n. induction s as [|b s IH]; intros n; cbn; [by intros [= _ <-]|].
  destruct (val b) as [d|] eqn:Ev; [|by intros [= _ <-]].
  destruct (_ <=? _); [done|]. intros Hn Hr. constructor; [left; eauto|eauto].
Qed.
Lemma number_chars base val s m rest :
  (∀ b d, val b = Some d → is_Some (hex_val b)) →
  number base val s = Some (m, rest) → Forall ip_char rest → Forall ip_char s.
Proof.
  intros Hval. unfold number. destruct s as [|b s]; [done|]. destruct (val b); [|done].
  by apply number_from_chars.
Qed.

Lemma octets_chars n first s : octets n first s = true → Forall ip_char s.
Proof.
  revert first s. induction n as [|n IH]; intros first s; cbn; [by intros ->%bool_decide_eq_true|].
  assert (∀ s', match dtoi s' with Some (v, s) => (v <=? 255) && octets n false s | None => false end = true →
    Forall ip_char s') as Hd.
  { intros s'. destruct (dtoi s') as [[v rest]|] eqn:Ed; [|done]. intros [_ H]%andb_prop.
    apply (number_chars 10 dec_val s' v rest); [apply dec_hex_val|exact Ed|by eapply IH]. }
  destruct s as [|b s]; [done|]. destruct first; [apply Hd|].
  destruct b; try done. intros H. constructor; [by right; left|by apply Hd].
Qed.

Lemma groups_chars fuel i e s i' e' : groups fuel i e s = Some ([], i', e') → Forall ip_char s.
Proof.
  revert i e s. induction fuel as [|fuel IH]; intros i e s; cbn [groups]; [by intros [= -> _ _]|].
  destruct (16 <=? i); [by intros [= -> _ _]|].
  destruct (xtoi s) as [[n rest]|] eqn:Ex; [|done]. destruct (65535 <? n); [done|].
  assert (Forall ip_char rest → Forall ip_char s) as Hs.
  { apply (number_chars 16 hex_val s n rest); [by eexists|exact Ex]. }
  destruct rest as [|c rest]; [auto|]. destruct c; try done.
  - destruct (_ && _); [done|]. destruct (_ <? _); [done|].
    destruct (parseIPv4 s) eqn:Ep; [|done]. intros _. by apply octets_chars in Ep.
  - destruct rest as [|c rest]; [done|].
    assert (∀ i e, groups fuel i e (c :: rest) = Some ([], i', e') → Forall ip_char s) as Hg.
    { intros j f H%IH. apply Hs. constructor; [by right; right|done]. }
    destruct c; try apply Hg. destruct e; [done|].
    destruct rest as [|c rest]; intros H; apply Hs; (constructor; [by right; right|]);
      (constructor; [by right; right|]); [done|by eapply IH].
Qed.

Lemma ParseIP_chars s : ParseIP s = true → Forall ip_char s.
Proof.
  assert (parseIPv6 s = true → Forall ip_char s) as H6.
  { unfold parseIPv6.
    assert (∀ start e, (match groups 8 0 e start with
      | Some ([], i, e) => if i <? 16 then e else negb e | _ => false end) = true → Forall ip_char start) as Hg.
    { intros start e. destruct (groups 8 0 e start) as [[[[|] i] e']|] eqn:E; [|done..].
      intros _. by eapply groups_chars. }
    assert (∀ start, (match start with [] => true | _ => match groups 8 0 true start with
      | Some ([], i, e) => if i <? 16 then e else negb e | _ => false end end) = true → Forall ip_char start) as Hg'.
    { intros [|b start]; [done|apply Hg]. }
    destruct s as [|b [|c s]]; [done|by destruct b; apply Hg|].
    destruct b; try apply Hg. destruct c; try apply Hg.
    intros H. constructor; [by right; right|]. constructor; [by right; right|]. by apply Hg'. }
  unfold ParseIP. generalize s at 2. intros s'. induction s' as [|b s' IH]; cbn [ParseIP_scan]; [done|].
  destruct b; try apply IH; [exact (octets_chars 4 true s)|exact H6].
Qed.

Lemma ip_char_no b : ip_char b → b ≠ x5b ∧ b ≠ x5d ∧ b ≠ x2f.
Proof. intros [[d H]|[-> | ->]]; [|done..]. by repeat split; intros ->. Qed.

Lemma SplitHostPort_Join host port :
  x3a ∉ port → x5b ∉ port → x5d ∉ port → x5b ∉ host → x5d ∉ host →
  SplitHostPort (JoinHostPort host port) = Some (host, port).
Proof.
  intros Hp Hpo Hpc Hho Hhc. unfold JoinHostPort, SplitHostPort.
  destruct (IndexByte host x3a) eqn:Ei.
  - cbn [app]. set (s := x5b :: host ++ x5d :: x3a :: port).
    assert (LastIndexByte s x3a = Some (length host + 2)%nat) as ->.
    { replace s with ((x5b :: host ++ [x5d]) ++ x3a :: port) by (unfold s; cbn; by rewrite <-app_assoc).
      rewrite LastIndexByte_app by done. cbn. rewrite length_app. cbn. f_equal. lia. }
    assert (IndexByte s x5d = Some (S (length host))) as ->.
    { apply (IndexByte_app (x5b :: host)). by rewrite not_elem_of_cons. }
    unfold s at 1. rewrite (proj2 (Nat.eqb_eq _ _)) by lia.
    assert (drop (S (length host) + 1) s = x3a :: port) as ->.
    { unfold s. cbn [drop Nat.add]. change (x5d :: x3a :: port) with ([x5d] ++ x3a :: port).
      rewrite (assoc_L (++)). apply drop_app_length'. rewrite length_app. cbn. lia. }
    assert (drop (length host + 2 + 1) s = port) as ->.
    { unfold s. replace (length host + 2 + 1)%nat with (S (length host + 2)) by lia. cbn [drop].
      change (x5d :: x3a :: port) with ([x5d; x3a] ++ port). rewrite (assoc_L (++)).
      apply drop_app_length'. rewrite length_app. cbn. lia. }
    unfold s. cbn [drop]. replace (S (length host) - 1)%nat with (length host) by lia.
    rewrite drop_0, take_app_length, !(proj2 (IndexByte_None _ _)) by set_solver. done.
  - apply IndexByte_None in Ei. cbn [app]. rewrite LastIndexByte_app by done.
    assert (∀ A (a b : A), (match host ++ x3a :: port with x5b :: _ => a | _ => b end) = b) as Hm.
    { intros A a b. destruct host as [|c host]; [done|]. apply not_elem_of_cons in Hho as [Hc _]. by destruct c. }
    rewrite Hm, take_app_length, (proj2 (IndexByte_None _ _)), !drop_0 by done.
    rewrite !(proj2 (IndexByte_None _ _)) by set_solver.
    do 2 f_equal. change (x3a :: port) with ([x3a] ++ port). rewrite (assoc_L (++)).
    apply drop_app_length'. rewrite length_app. cbn. lia.
Qed.
End Net.

(** ** [regexp] *)
Module Regexp.

(** Regular expressions over bytes, with classes of bytes. *)
Inductive regexp :=
  | Void
  | Eps
  | Class (f : byte → bool)
  | Cat (r1 r2 : regexp)
  | Alt (r1 r2 : regexp)
  | Star (r : regexp).

Definition char (b : byte) : regexp := Class (λ c, bool_decide (c = b)).
Definition Plus (r : regexp) : regexp := Cat r (Star r).
Fixpoint lit (s : bytes) : regexp := match s with [] => Eps | b :: s => Cat (char b) (lit s) end.
Definition any : regexp := Star (Class (λ _, true)).

(** Whether the whole of a string matches. *)
Fixpoint nullable (r : regexp) : bool :=
  match r with
  | Void | Class _ => false
  | Eps | Star _ => true
  | Cat r1 r2 => nullable r1 && nullable r2
  | Alt r1 r2 => nullable r1 || nullable r2
  end.
Fixpoint deriv (b : byte) (r : regexp) : regexp :=
  match r with
  | Void | Eps => Void
  | Class f => if f b then Eps else Void
  | Cat r1 r2 =>
      if nullable r1 then Alt (Cat (deriv b r1) r2) (deriv b r2) else Cat (deriv b r1) r2
  | Alt r1 r2 => Alt (deriv b r1) (deriv b r2)
  | Star r => Cat (deriv b r) (Star r)
  end.
Definition matches (r : regexp) (s : bytes) : bool := nullable (foldl (λ r b, deriv b r) r s).

(** The language of an expression. *)
Inductive lang : regexp → bytes → Prop :=
  | lang_eps : lang Eps []
  | lang_class f b : f b = true → lang (Class f) [b]
  | lang_cat r1 r2 s1 s2 : lang r1 s1 → lang r2 s2 → lang (Cat r1 r2) (s1 ++ s2)
  | lang_alt_l r1 r2 s : lang r1 s → lang (Alt r1 r2) s
  | lang_alt_r r1 r2 s : lang r2 s → lang (Alt r1 r2) s
  | lang_star_nil r : lang (Star r) []
  | lang_star_app r s1 s2 : lang r s1 → lang (Star r) s2 → lang (Star r) (s1 ++ s2).

Lemma lang_eps_inv s : lang Eps s → s = [].
Proof. by inversion 1. Qed.
Lemma lang_class_inv f s : lang (Class f) s → ∃ b, s = [b] ∧ f b = true.
Proof. inversion 1; subst. eauto. Qed.
Lemma lang_cat_inv r1 r2 s : lang (Cat r1 r2) s → ∃ s1 s2, s = s1 ++ s2 ∧ lang r1 s1 ∧ lang r2 s2.
Proof. inversion 1; subst. eauto. Qed.
Lemma lang_alt_inv r1 r2 s : lang (Alt r1 r2) s → lang r1 s ∨ lang r2 s.
Proof. inversion 1; subst; auto. Qed.
Lemma lang_char b : lang (char b) [b].
Proof. constructor. by rewrite bool_decide_true. Qed.
Lemma lang_char_inv b s : lang (char b) s → s = [b].
Proof. intros (c & -> & ->%bool_decide_eq_true)%lang_class_inv. done. Qed.

Lemma lang_star_inv r s : lang (Star r) s →
  s = [] ∨ ∃ b s1 s2, s = b :: s1 ++ s2 ∧ lang r (b :: s1) ∧ lang (Star r) s2.
Proof.
  intros H. remember (Star r) as r' eqn:Er. revert Er. induction H; intros Er; try discriminate; [auto|].
  injection Er as ->. destruct s1 as [|b s1]; [by apply IHlang2|]. right. exists b, s1, s2. auto.
Qed.

Lemma nullable_spec r : nullable r = true ↔ lang r [].
Proof.
  induction r as [| |f|r1 IH1 r2 IH2|r1 IH1 r2 IH2|r IH]; cbn.
  - split; [done|inversion 1].
  - split; [constructor|done].
  - split; [done|]. by intros (b & ? & _)%lang_class_inv.
  - rewrite andb_true_iff, IH1, IH2. split.
    + intros [H1 H2]. exact (lang_cat _ _ [] [] H1 H2).
    + intros (s1 & s2 & Hs & H1 & H2)%lang_cat_inv. symmetry in Hs. apply app_nil in Hs as [-> ->]. done.
  - rewrite orb_true_iff, IH1, IH2. split; [intros [H|H]; by constructor|by intros ?%lang_alt_inv].
  - split; [constructor|done].
Qed.

Lemma deriv_spec b r s : lang (deriv b r) s ↔ lang r (b :: s).
Proof.
  revert s. induction r as [| |f|r1 IH1 r2 IH2|r1 IH1 r2 IH2|r IH]; intros s; cbn.
  - split; inversion 1.
  - split; inversion 1.
  - destruct (f b) eqn:Ef; split.
    + intros ->%lang_eps_inv. by constructor.
    + intros (c & [= -> ->] & _)%lang_class_inv. constructor.
    + inversion 1.
    + intros (c & [= -> ->] & H)%lang_class_inv. congruence.
  - assert (lang (Cat (deriv b r1) r2) s → lang (Cat r1 r2) (b :: s)) as Hl.
    { intros (s1 & s2 & -> & H1%IH1 & H2)%lang_cat_inv. exact (lang_cat _ _ (b :: s1) s2 H1 H2). }
    assert (lang (Cat r1 r2) (b :: s) → lang (Cat (deriv b r1) r2) s ∨ (nullable r1 = true ∧ lang (deriv b r2) s)) as Hr.
    { intros (s1 & s2 & Hs & H1 & H2)%lang_cat_inv. destruct s1 as [|c s1].
      - right. cbn in Hs. subst s2. by rewrite nullable_spec, IH2.
      - left. injection Hs as <- ->. constructor; [by apply IH1|done]. }
    destruct (nullable r1) eqn:En.
    + split.
      * intros [?|H2%IH2]%lang_alt_inv; [auto|].
        exact (lang_cat _ _ [] (b :: s) (proj1 (nullable_spec r1) En) H2).
      * intros [?|[_ ?]]%Hr; [by apply lang_alt_l|by apply lang_alt_r].
    + split; [exact Hl|]. intros [?|[? _]]%Hr; done.
  - split.
    + intros [H%IH1|H%IH2]%lang_alt_inv; by constructor.
    + intros [H%IH1|H%IH2]%lang_alt_inv; [by apply lang_alt_l|by apply lang_alt_r].
  - split.
    + intros (s1 & s2 & -> & H1%IH & H2)%lang_cat_inv. exact (lang_star_app _ (b :: s1) s2 H1 H2).
    + intros [|(c & s1 & s2 & [= <- ->] & H1 & H2)]%lang_star_inv; [done|].
      constructor; [by apply IH|done].
Qed.

Lemma matches_spec r s : matches r s = true ↔ lang r s.
Proof.
  unfold matches. revert r. induction s as [|b s IH]; intros r; cbn; [apply nullable_spec|].
  by rewrite IH, deriv_spec.
Qed.

Lemma lang_star_class f s : lang (Star (Class f)) s ↔ Forall (λ b, f b = true) s.
Proof.
  split.
  - induction s as [|c s IH]; [done|].
    intros [|(b & s1 & s2 & Heq & (c' & Hc & Hf)%lang_class_inv & H2)]%lang_star_inv; [done|].
    injection Hc as -> ->. injection Heq as -> ->. constructor; [done|]. cbn in *. auto.
  - induction 1 as [|c s Hc Hs IH]; [constructor|].
    apply (lang_star_app _ [c] s); [by constructor|done].
Qed.

Lemma lang_plus_class f s : lang (Plus (Class f)) s ↔ s ≠ [] ∧ Forall (λ b, f b = true) s.
Proof.
  split.
  - intros (s1 & s2 & -> & (c & -> & Hc)%lang_class_inv & H2%lang_star_class)%lang_cat_inv.
    by split; [|constructor].
  - destruct s as [|c s]; [by intros []|]. intros [_ [Hc Hs]%Forall_cons].
    apply (lang_cat _ _ [c] s); [by constructor|by apply lang_star_class].
Qed.
End Regexp.

(** ** [path.Clean] and [path.Join] *)
Module Path.
Import Strings.

Definition slash : bytes := str "/".

(** One element: the elements kept so far are changed. *)
Definition push (rooted : bool) (out : list bytes) (c : bytes) : list bytes :=
  if decide (c = [] ∨ c = str ".") then out
  else if decide (c = str "..") then
    match last out with
    | Some d => if decide (d = str "..") then out ++ [c] else removelast out
    | None => if rooted then out else out ++ [c]
    end
  else out ++ [c].

Definition rooted (p : bytes) : bool := has_prefix slash p.
Definition Clean (p : bytes) : bytes :=
  let out := foldl (push (rooted p)) [] (Split p slash) in
  match (if rooted p then slash else []) ++ Join slash out with
  | [] => str "."
  | r => r
  end.

(** From the first element that is not empty. *)
Fixpoint path_Join (elems : list bytes) : bytes :=
  match elems with
  | [] => []
  | [] :: elems => path_Join elems
  | _ => Clean (Join slash elems)
  end.

Lemma Split_slash s1 s2 : ∀ acc, split_from slash 0 acc (s1 ++ slash ++ s2) = split_from slash 0 acc s1 ++ Split s2 slash.
Proof.
  induction s1 as [|c s1 IH]; intros acc; cbn [app].
  - cbn [split_from]. change (has_prefix slash (slash ++ s2)) with true. done.
  - cbn [split_from]. assert (∀ s, has_prefix slash (c :: s) = bool_decide (x2f = c)) as Hp.
    { intros s. cbn. apply andb_true_r. }
    rewrite !Hp. case_bool_decide as Hc; cbn; [f_equal|]; apply IH.
Qed.

Lemma Join_last l x : ∃ pre, ∀ f, Join x (l ++ [f]) = pre ++ f.
Proof.
  induction l as [|a l [pre IH]]; [by exists []|]. exists (a ++ x ++ pre). intros f. cbn [app].
  rewrite Join_cons by (by destruct l). by rewrite IH, <-!app_assoc.
Qed.

(** A file in a directory: what is before its name does not depend on it. *)
Lemma path_Join_file dir : ∃ pre, ∀ f, x2f ∉ f → f ≠ [] → f ≠ str "." → f ≠ str ".." → path_Join [dir; f] = pre ++ f.
Proof.
  assert (∀ f, x2f ∉ f → Split f slash = [f]) as Hs.
  { intros f Hf. unfold Split. apply (split_absent slash x2f [] f); [by left|done]. }
  assert (∀ b out f, f ≠ [] → f ≠ str "." → f ≠ str ".." → push b out f = out ++ [f]) as Hpush.
  { intros b out f H1 H2 H3. unfold push. rewrite decide_False by tauto. by rewrite decide_False. }
  destruct dir as [|c dir].
  - exists []. intros f Hf H1 H2 H3. cbn [path_Join Join]. destruct f as [|b f]; [done|]. unfold Clean.
    rewrite Hs by done. cbn [foldl]. rewrite Hpush by done. cbn [app Join].
    assert (rooted (b :: f) = false) as ->; [|done]. unfold rooted. cbn. rewrite bool_decide_false; [done|].
    intros <-. apply Hf. by left.
  - set (r := rooted (c :: dir)). set (out := foldl (push r) [] (Split (c :: dir) slash)).
    destruct (Join_last out slash) as [pre Hpre].
    exists ((if r then slash else []) ++ pre). intros f Hf H1 H2 H3. cbn [path_Join Join]. unfold Clean.
    assert (rooted ((c :: dir) ++ slash ++ f) = r) as -> by done.
    unfold Split. rewrite Split_slash, foldl_app, Hs by done. cbn [foldl].
    fold (Split (c :: dir) slash). fold out. rewrite Hpush, Hpre, <-app_assoc by done.
    destruct f as [|b f]; [done|].
    destruct ((if r then slash else []) ++ pre ++ b :: f) eqn:E; [|done].
    apply app_eq_nil in E as [_ E]. by apply app_eq_nil in E as [_ E].
Qed.

(** *** Cleaning twice *)

(** What [push] keeps: elements that it keeps again. *)
Definition plain (c : bytes) : Prop := c ≠ [] ∧ c ≠ str "." ∧ x2f ∉ c.
Definition normal (r : bool) (out : list bytes) : Prop := foldl (push r) [] out = out ∧ Forall plain out.

Lemma push_keeps b out d : plain d → d ≠ str ".." → push b out d = out ++ [d].
Proof. intros (H1 & H2 & _) H3. unfold push. rewrite decide_False by tauto. by rewrite decide_False. Qed.

Lemma normal_push r out c : x2f ∉ c → normal r out → normal r (push r out c).
Proof.
  intros Hc [Hf Hp]. pose proof (eq_refl (push r out c)) as E. unfold push in E at 2.
  destruct (decide (c = [] ∨ c = str ".")) as [|Hn]; [by rewrite E|].
  assert (plain c) as Hpc by (split_and!; [intros ->; auto..|done]).
  assert (push r out c = out ++ [c] → normal r (push r out c)) as Happ.
  { intros Ea. rewrite Ea. split; [by rewrite foldl_app, Hf|]. apply Forall_app. by split; [|constructor]. }
  destruct (decide (c = str "..")) as [->|Hd]; [|by apply Happ].
  destruct (last out) as [d|] eqn:El.
  - destruct (decide (d = str "..")) as [|Hd]; [by apply Happ|]. rewrite E.
    apply last_Some in El as [o ->]. rewrite removelast_last. apply Forall_app in Hp as [Hp Hpd].
    split; [|done]. rewrite foldl_app in Hf. cbn [foldl] in Hf. rewrite push_keeps in Hf by (by inversion Hpd).
    by apply app_inj_tail in Hf as [Hf _].
  - destruct r; [by rewrite E|by apply Happ].
Qed.

Lemma normal_fold r l out : Forall (λ c, x2f ∉ c) l → normal r out → normal r (foldl (push r) out l).
Proof.
  intros Hl. revert out. induction Hl as [|c l Hc _ IH]; intros out Hout; [done|]. cbn. apply IH, normal_push; done.
Qed.

Lemma split_no_sep c s : ∀ n acc, c ∉ acc → Forall (λ e, c ∉ e) (split_from [c] n acc s).
Proof.
  induction s as [|b s IH]; intros n acc Hacc; [by repeat constructor|]. cbn.
  destruct n as [|n]; [|by apply IH]. destruct (decide (c = b)) as [->|Hne].
  - rewrite bool_decide_true by done. cbn. constructor; [done|]. apply IH. by apply not_elem_of_nil.
  - rewrite bool_decide_false by done. cbn. apply IH. rewrite elem_of_app, list_elem_of_singleton. by intros [].
Qed.

Lemma Clean_idem p : Clean (Clean p) = Clean p.
Proof.
  set (r := rooted p). set (out := foldl (push r) [] (Split p slash)).
  assert (normal r out) as [Hf Hp].
  { apply normal_fold; [|by split]. apply (split_no_sep x2f). by apply not_elem_of_nil. }
  assert (Forall (λ c, x2f ∉ c) out) as Hs by (eapply Forall_impl; [exact Hp|by intros c (_ & _ & ?)]).
  assert (Clean p = match (if r then slash else []) ++ Join slash out with [] => str "." | t => t end) as -> by done.
  destruct (decide (out = [])) as [->|Hne]; [by destruct r; vm_compute|].
  assert (∃ b t, Join slash out = b :: t ∧ b ≠ x2f) as (b & t & Ej & Hb).
  { destruct out as [|c out]; [done|]. apply Forall_cons in Hp as [(Hc & _ & Hcs) _]. destruct c as [|b c]; [done|].
    assert (b ≠ x2f) by (intros ->; apply Hcs; by left).
    destruct out; [by eexists _, _|by exists b, (c ++ slash ++ Join slash (l :: out))]. }
  pose proof (Split_Join x2f out Hne Hs) as Hsj. change [x2f] with slash in Hsj.
  destruct r; cbn [app].
  - change (slash ++ Join slash out) with (x2f :: Join slash out). unfold Clean.
    assert (rooted (x2f :: Join slash out) = true) as -> by done.
    assert (Split (x2f :: Join slash out) slash = [] :: out) as ->.
    { unfold Split. rewrite <-Hsj at 2. apply (Split_slash [] (Join slash out) []). }
    change (foldl (push true) [] ([] :: out)) with (foldl (push true) [] out). by rewrite Hf.
  - rewrite Ej. unfold Clean. rewrite <-Ej.
    assert (rooted (Join slash out) = false) as ->.
    { rewrite Ej. unfold rooted. cbn. by rewrite bool_decide_false. }
    rewrite Hsj, Hf, Ej. done.
Qed.

Lemma Clean_Join l : Exists (.≠ []) l → Clean (path_Join l) = path_Join l.
Proof. induction 1 as [[|b c] l H|[|b c] l _ IH]; [done|apply Clean_idem|exact IH|apply Clean_idem]. Qed.

(** A file is not on the way to its directory. *)
Lemma Join_longer x l f : (length (Join x l) + length f <= length (Join x (l ++ [f])))%nat.
Proof.
  induction l as [|a l IH]; [done|]. cbn [app]. rewrite (Join_cons x a (l ++ [f])) by (by destruct l).
  destruct l as [|b l]; [cbn; rewrite !length_app; lia|]. rewrite Join_cons, !length_app by done. lia.
Qed.
Lemma path_Join_longer dir f :
  plain f → f ≠ str ".." → (length f ≠ 1)%nat → (length (Clean dir) < length (path_Join [dir; f]))%nat.
Proof.
  intros Hf Hd Hl. pose proof Hf as (H1 & H2 & H3).
  assert (Split f slash = [f]) as Hs by (unfold Split; apply (split_absent slash x2f [] f); [by left|done]).
  assert (length f ≠ 0)%nat by by destruct f.
  destruct dir as [|c dir].
  - assert (length (Clean []) = 1%nat) as -> by done.
    cbn [path_Join Join]. destruct f as [|b f]; [done|]. unfold Clean. rewrite Hs. cbn [foldl]. rewrite push_keeps by done.
    cbn [app Join]. assert (rooted (b :: f) = false) as ->; [|cbn [app length] in *; lia].
    unfold rooted. cbn. rewrite bool_decide_false; [done|]. intros <-. apply H3. by left.
  - cbn [path_Join Join]. unfold Clean at 2. assert (rooted ((c :: dir) ++ slash ++ f) = rooted (c :: dir)) as -> by done.
    unfold Split. rewrite Split_slash, foldl_app, Hs. cbn [foldl]. rewrite push_keeps by done.
    fold (Split (c :: dir) slash). unfold Clean. set (r := if rooted (c :: dir) then slash else []).
    set (out := foldl _ [] (Split (c :: dir) slash)). pose proof (Join_longer slash out f) as Hj.
    assert (∀ t : bytes, (1 <= length t → length (match t with [] => str "." | b :: l => b :: l end) = length t)%nat) as Hm by (intros [|? ?] Ht; [cbn in Ht; lia|done]).
    rewrite (Hm (r ++ Join slash (out ++ [f]))) by (rewrite length_app; lia). rewrite length_app.
    assert (∀ t : bytes, (length (match t with [] => str "." | b :: l => b :: l end) <= max 1 (length t))%nat) as Hm'.
    { intros [|??]; cbn; lia. }
    specialize (Hm' (r ++ Join slash out)). rewrite length_app in Hm'. lia.
Qed.

(** [path.Dir] and [path.Base]. *)
Definition path_Dir (p : bytes) : bytes :=
  Clean (match LastIndexByte p x2f with Some i => take (S i) p | None => [] end).
Fixpoint strip_slashes (rev_p : bytes) : bytes :=
  match rev_p with c :: p => if decide (c = x2f) then strip_slashes p else rev_p | [] => [] end.
Definition path_Base (p : bytes) : bytes :=
  if decide (p = []) then str "."
  else
    let p := rev (strip_slashes (rev p)) in
    let p := match LastIndexByte p x2f with Some i => drop (S i) p | None => p end in
    if decide (p = []) then slash else p.

Example clean_paths :
  (Clean (str "a/../b//c/."), Clean (str "/../a"), path_Join [str "/var/lib"; str "x_y.bin"], path_Join [[]; str "x.bin"],
   Clean (str "../../a/..")) =
  (str "b/c", str "/a", str "/var/lib/x_y.bin", str "x.bin", str "../..").
Proof. vm_compute. reflexivity. Qed.
Example dirs_and_bases :
  (path_Dir (str "/home/me/x.toml"), path_Dir (str "x.toml"), path_Base (str "/a/b//"), path_Base (str "///"), path_Base []) =
  (str "/home/me", str ".", str "b", str "/", str ".").
Proof. vm_compute. reflexivity. Qed.
End Path.

(** ** [sort.Strings] *)
Module Sorting.
Fixpoint bytes_leb (a b : bytes) : bool :=
  match a, b with
  | [], _ => true
  | _ :: _, [] => false
  | x :: a, y :: b =>
      if byte_val x <? byte_val y then true else if byte_val y <? byte_val x then false else bytes_leb a b
  end.
Definition bytes_le (a b : bytes) : Prop := bytes_leb a b = true.
#[export] Instance bytes_le_dec : RelDecision bytes_le := λ a b, decide (bytes_leb a b = true).

#[export] Instance bytes_le_total : Total bytes_le.
Proof.
  intros a. induction a as [|x a IH]; intros [|y b]; [by left..|by right|]. unfold bytes_le in *. cbn.
  destruct (Z.ltb_spec (byte_val x) (byte_val y)), (Z.ltb_spec (byte_val y) (byte_val x)); auto.
Qed.

#[export] Instance bytes_le_trans : Transitive bytes_le.
Proof.
  intros a. induction a as [|x a IH]; intros [|y b] [|z c]; try done. unfold bytes_le in *. cbn.
  destruct (Z.ltb_spec (byte_val x) (byte_val y)), (Z.ltb_spec (byte_val y) (byte_val z)), (Z.ltb_spec (byte_val x) (byte_val z)),
    (Z.ltb_spec (byte_val y) (byte_val x)), (Z.ltb_spec (byte_val z) (byte_val y)), (Z.ltb_spec (byte_val z) (byte_val x));
    try done; try lia; eauto.
Qed.

#[export] Instance bytes_le_antisymm : AntiSymm (=) bytes_le.
Proof.
  intros a. induction a as [|x a IH]; intros [|y b]; try done. unfold bytes_le in *. cbn.
  destruct (Z.ltb_spec (byte_val x) (byte_val y)), (Z.ltb_spec (byte_val y) (byte_val x)); try done; try lia.
  intros H1 H2. f_equal; [apply byte_val_inj; lia|by apply IH].
Qed.

Definition sort_strings : list bytes → list bytes := merge_sort bytes_le.

Lemma sort_strings_perm l : sort_strings l ≡ₚ l.
Proof. apply merge_sort_Permutation. Qed.
Lemma sort_strings_sorted l : StronglySorted bytes_le (sort_strings l).
Proof. apply StronglySorted_merge_sort; apply _. Qed.

(** Sorting does not depend on the order before. *)
Lemma sort_strings_eq l k : l ≡ₚ k → sort_strings l = sort_strings k.
Proof.
  intros H. apply (StronglySorted_unique bytes_le); try apply sort_strings_sorted. by rewrite !sort_strings_perm.
Qed.
End Sorting.
