(* ===== verification/Log.v ===== *)
(** * Logging ([imported/onet/log])

    Lines with a level, which are printed when the level is visible, and messages
    for the user, which are printed with or without a level.  All functions take
    one lock, so each is a step on the state of the package.  Where and when a
    function was called ([runtime.Caller], [time.Now]) is an argument, what
    [fmt.Sprintf] makes of the caller's format a parameter. *)
From S2P Require Import Prelude GoStrings.
Local Open Scope Z_scope.

Module Format.
Import Strings Numbers.

(** An operand of [fmt]: how it prints, and whether it is a string. *)
Inductive arg := AStr (s : bytes) | AInt (z : Z) | ABool (b : bool) | AErr (e : option bytes) | AOther (text : bytes).
Definition Text (a : arg) : bytes :=
  match a with
  | AStr s => s
  | AInt z => Itoa z
  | ABool b => if b then str "true" else str "false"
  | AErr None => str "<nil>"
  | AErr (Some e) => e
  | AOther t => t
  end.
Definition is_str (a : arg) : bool := match a with AStr _ => true | _ => false end.

Definition space : bytes := str " ".
Definition newline : bytes := [x0a].

(** [fmt.Sprint] puts spaces between operands that are not strings, [fmt.Sprintln]
    between all. *)
Fixpoint Sprint (args : list arg) : bytes :=
  match args with
  | [] => []
  | a :: rest =>
      match rest with
      | [] => Text a
      | b :: _ => Text a ++ (if is_str a || is_str b then [] else space) ++ Sprint rest
      end
  end.
Definition Sprintln (args : list arg) : bytes := Join space (Text <$> args) ++ newline.

(** [utf8.RuneCountInString]: the width of the first rune; a byte that does not
    belong to one counts for itself. *)
Definition is_cont (lo hi : Z) (s : bytes) (i : nat) : bool := match s !! i with Some b => between lo hi b | None => false end.
Definition rune_width (b : byte) (s : bytes) : nat :=
  let c := byte_val b in
  let cont i := is_cont 128 191 s i in
  if c <? 128 then 1
  else if (194 <=? c) && (c <=? 223) && cont 0%nat then 2
  else if (c =? 224) && is_cont 160 191 s 0 && cont 1%nat then 3
  else if (c =? 237) && is_cont 128 159 s 0 && cont 1%nat then 3
  else if (225 <=? c) && (c <=? 239) && negb (c =? 237) && cont 0%nat && cont 1%nat then 3
  else if (c =? 240) && is_cont 144 191 s 0 && cont 1%nat && cont 2%nat then 4
  else if (241 <=? c) && (c <=? 243) && cont 0%nat && cont 1%nat && cont 2%nat then 4
  else if (c =? 244) && is_cont 128 143 s 0 && cont 1%nat && cont 2%nat then 4
  else 1.
Fixpoint runes_from (skip : nat) (s : bytes) : nat :=
  match s with
  | [] => 0
  | b :: s => match skip with
              | O => Datatypes.S (runes_from (Nat.pred (rune_width b s)) s)
              | Datatypes.S skip => runes_from skip s
              end
  end.
Definition RuneCount (s : bytes) : nat := runes_from 0 s.

(** The verb [%<n>s], for widths up to a million: a negative one pads on the right. *)
Definition Pad (n : Z) (s : bytes) : bytes :=
  let fill k := repeat x20 (Z.to_nat (k - Z.of_nat (RuneCount s))) in
  if n <? 0 then s ++ fill (- n) else fill n ++ s.
(** [%09d]. *)
Definition Pad0 (n : Z) (z : Z) : bytes :=
  let s := Itoa z in repeat x30 (Z.to_nat (n - Z.of_nat (length s))) ++ s.

(** [strconv.ParseBool]. *)
Definition ParseBool (s : bytes) : option bool :=
  if bool_decide (s ∈ str <$> ["1"; "t"; "T"; "true"; "TRUE"; "True"]%string) then Some true
  else if bool_decide (s ∈ str <$> ["0"; "f"; "F"; "false"; "FALSE"; "False"]%string) then Some false
  else None.

(** The regular expression [.*/] replaced by nothing: every line is cut after its
    last slash. *)
Definition cut_path (l : bytes) : bytes := match LastIndexByte l x2f with Some i => drop (Datatypes.S i) l | None => l end.
Definition strip_paths (s : bytes) : bytes := Join newline (cut_path <$> Split s newline).

Lemma runes_ascii s : forallb is_ascii s = true → RuneCount s = length s.
Proof.
  unfold RuneCount. induction s as [|b s IH]; [done|]. cbn [forallb]. intros [Hb Hs]%andb_prop. cbn [runes_from length].
  unfold rune_width. cbv zeta. unfold is_ascii in Hb. rewrite Hb. cbn [Nat.pred]. by rewrite IH.
Qed.
Lemma runes_le s : (RuneCount s <= length s)%nat.
Proof.
  unfold RuneCount. cut (∀ n, (runes_from n s <= length s)%nat); [done|]. induction s as [|b s IH]; intros [|n]; cbn; [lia..| |].
  - pose proof (IH (Nat.pred (rune_width b s))). lia.
  - pose proof (IH n). lia.
Qed.
Lemma Pad_ascii n s : forallb is_ascii s = true → 0 <= n → (length (Pad n s) = Z.to_nat n `max` length s)%nat.
Proof.
  intros Hs Hn. unfold Pad. rewrite (runes_ascii s Hs). destruct (Z.ltb_spec n 0); [lia|].
  rewrite length_app, repeat_length. lia.
Qed.
End Format.

Module Log.
Import Strings Numbers Format.

Definition lvlWarning : Z := -20.
Definition lvlError : Z := -19.
Definition lvlFatal : Z := -18.
Definition lvlPanic : Z := -17.
Definition lvlInfo : Z := -16.
Definition lvlPrint : Z := -15.
Definition FormatPython : Z := -1.
Definition FormatNone : Z := 0.
Definition defaultMainTest : Z := 2.

Inductive Color := Yellow | Cyan | Green | Blue | White | Red.

(** What reaches the terminal. *)
Inductive output := ToOut (b : bytes) | ToErr (b : bytes) | Foreground (c : Color) (bright : bool) | ResetColor.

(** The variables of the package; [to_buf] when the writers are the buffers.  Of
    the package [flag] there are the names. *)
Record Logger := {
  NamePadding : Z; LinePadding : Z; StaticMsg : bytes;
  debugVisible : Z; showTime : bool; useColors : bool; outputLines : bool;
  to_buf : bool; bufStdOut : bytes; bufStdErr : bytes; terminal : list output;
  flags : list bytes;
}.
Definition initial : Logger :=
  {| NamePadding := 40; LinePadding := 3; StaticMsg := []; debugVisible := 1; showTime := false; useColors := false;
     outputLines := true; to_buf := false; bufStdOut := []; bufStdErr := []; terminal := []; flags := [] |}.

Definition set_visible (l : Z) (s : Logger) : Logger :=
  {| NamePadding := NamePadding s; LinePadding := LinePadding s; StaticMsg := StaticMsg s; debugVisible := l;
     showTime := showTime s; useColors := useColors s; outputLines := outputLines s; to_buf := to_buf s;
     bufStdOut := bufStdOut s; bufStdErr := bufStdErr s; terminal := terminal s; flags := flags s |}.
Definition set_padding (n l : Z) (s : Logger) : Logger :=
  {| NamePadding := n; LinePadding := l; StaticMsg := StaticMsg s; debugVisible := debugVisible s;
     showTime := showTime s; useColors := useColors s; outputLines := outputLines s; to_buf := to_buf s;
     bufStdOut := bufStdOut s; bufStdErr := bufStdErr s; terminal := terminal s; flags := flags s |}.
Definition set_show (time colors : bool) (s : Logger) : Logger :=
  {| NamePadding := NamePadding s; LinePadding := LinePadding s; StaticMsg := StaticMsg s; debugVisible := debugVisible s;
     showTime := time; useColors := colors; outputLines := outputLines s; to_buf := to_buf s;
     bufStdOut := bufStdOut s; bufStdErr := bufStdErr s; terminal := terminal s; flags := flags s |}.
Definition set_output (b : bool) (out err : bytes) (t : list output) (s : Logger) : Logger :=
  {| NamePadding := NamePadding s; LinePadding := LinePadding s; StaticMsg := StaticMsg s; debugVisible := debugVisible s;
     showTime := showTime s; useColors := useColors s; outputLines := outputLines s; to_buf := b;
     bufStdOut := out; bufStdErr := err; terminal := t; flags := flags s |}.
Definition set_flags (f : list bytes) (s : Logger) : Logger :=
  {| NamePadding := NamePadding s; LinePadding := LinePadding s; StaticMsg := StaticMsg s; debugVisible := debugVisible s;
     showTime := showTime s; useColors := useColors s; outputLines := outputLines s; to_buf := to_buf s;
     bufStdOut := bufStdOut s; bufStdErr := bufStdErr s; terminal := terminal s; flags := f |}.

Definition emit (o : output) (s : Logger) : Logger :=
  set_output (to_buf s) (bufStdOut s) (bufStdErr s) (terminal s ++ [o]) s.
(** [fmt.Fprint] to [stdErr] or [stdOut]. *)
Definition Fprint (err : bool) (b : bytes) (s : Logger) : Logger :=
  if to_buf s then
    set_output true (if err then bufStdOut s else bufStdOut s ++ b) (if err then bufStdErr s ++ b else bufStdErr s) (terminal s) s
  else emit (if err then ToErr b else ToOut b) s.

(** Where and when a function of the package was called. *)
Record site := { site_func : bytes; site_line : Z; site_time : bytes; site_nanos : Z }.

(** A function of the package: the program may exit with a code. *)
Abbreviation M := (SM Logger Z).
Definition change (f : Logger → Logger) : M unit := λ s, (Ret tt, f s).

Definition fg (c : Color) (bright : bool) (s : Logger) : Logger := if useColors s then emit (Foreground c bright) s else s.

Definition lvl_name (lvl : Z) : bytes :=
  let bright := lvl <? 0 in
  let lvlAbs := if bright then - lvl else lvl in
  if (lvl =? lvlPrint) || (lvl =? lvlInfo) then str "I"
  else if lvl =? lvlWarning then str "W"
  else if lvl =? lvlError then str "E"
  else if lvl =? lvlFatal then str "F"
  else if lvl =? lvlPanic then str "P"
  else Itoa lvlAbs ++ (if bright then str "!" else []).
Definition lvl_color (lvl : Z) (s : Logger) : Logger :=
  let bright := lvl <? 0 in
  let lvlAbs := if bright then - lvl else lvl in
  if (lvl =? lvlPrint) || (lvl =? lvlInfo) then fg White true s
  else if lvl =? lvlWarning then fg Green true s
  else if lvl =? lvlError then fg Red false s
  else if (lvl =? lvlFatal) || (lvl =? lvlPanic) then fg Red true s
  else if negb (lvl =? 0) && (lvlAbs <=? 5) then
    match [Yellow; Cyan; Green; Blue; Cyan] !! Z.to_nat (lvlAbs - 1) with Some c => fg c bright s | None => s end
  else s.

(** The new widths of the columns. *)
Definition grow (name lineStr : bytes) (s : Logger) : Logger :=
  let n := if (NamePadding s <? Z.of_nat (length name)) && (0 <? NamePadding s) then Z.of_nat (length name) else NamePadding s in
  let l := if (LinePadding s <? Z.of_nat (length lineStr)) && (0 <? LinePadding s) then Z.of_nat (length name) else LinePadding s in
  set_padding n l s.

(** What a line starts with. *)
Definition head_of (lvl : Z) (w : site) (name : bytes) (s : Logger) : bytes :=
  let line := if outputLines s then site_line w else 0 in
  let caller := Pad (NamePadding s) name ++ str ": " ++ Pad (LinePadding s) (Itoa line) ++
                (if decide (StaticMsg s = []) then [] else str "@" ++ StaticMsg s) in
  Pad (-2) (lvl_name lvl) ++
  (if showTime s then site_time w ++ str "." ++ Pad0 9 (site_nanos w) else []) ++
  str ": (" ++ caller ++ str ") - ".

Definition lvl (l : Z) (w : site) (args : list arg) : M unit := λ s,
  if debugVisible s <? l then (Ret tt, s)
  else
    let name := strip_paths (site_func w) in
    let s := grow name (Itoa (site_line w)) s in
    let message := head_of l w name s ++ Sprintln args in
    let s := Fprint (l <? lvlInfo) message (lvl_color l s) in
    (Ret tt, if useColors s then emit ResetColor s else s).

Section formatting.
(** [fmt.Sprintf], and the texts of the errors of [strconv]. *)
Context (Sprintf : bytes → list arg → bytes) (atoi_error parse_bool_error : bytes → bytes).

Definition lvlf (l : Z) (w : site) (f : bytes) (args : list arg) : M unit := λ s,
  if debugVisible s <? l then (Ret tt, s) else lvl l w [AStr (Sprintf f args)] s.
Definition lvld (l : Z) (w : site) (args : list arg) : M unit := lvl l w args.

Definition Lvl1 := lvld 1.
Definition Lvl2 := lvld 2.
Definition Lvl3 := lvld 3.
Definition Lvl4 := lvld 4.
Definition Lvl5 := lvld 5.
Definition Lvlf1 := lvlf 1.
Definition Lvlf2 := lvlf 2.
Definition Lvlf3 := lvlf 3.
Definition Lvlf4 := lvlf 4.
Definition Lvlf5 := lvlf 5.
Definition LLvl1 := lvld (-1).
Definition LLvl2 := lvld (-2).
Definition LLvl3 := lvld (-3).
Definition LLvl4 := lvld (-4).
Definition LLvl5 := lvld (-5).
Definition LLvlf1 := lvlf (-1).
Definition LLvlf2 := lvlf (-2).
Definition LLvlf3 := lvlf (-3).
Definition LLvlf4 := lvlf (-4).
Definition LLvlf5 := lvlf (-5).

(** ** The settings *)
Definition TestOutput (show : bool) (level : Z) : M unit := change (set_visible (if show then level else 0)).
Definition SetDebugVisible (l : Z) : M unit := change (set_visible l).
Definition DebugVisible : M Z := do! s := sget in sret (debugVisible s).
Definition SetShowTime (show : bool) : M unit := change (λ s, set_show show (useColors s) s).
Definition ShowTime : M bool := do! s := sget in sret (showTime s).
Definition SetUseColors (show : bool) : M unit := change (λ s, set_show (showTime s) show s).
Definition UseColors : M bool := do! s := sget in sret (useColors s).

(** ** Messages for the user *)
Definition prefixes : list bytes := str <$> ["[-]"; "[!]"; "[X]"; "[Q]"; "[+]"; ""]%string.
Fixpoint print_args (args : list arg) (s : Logger) : Logger :=
  match args with
  | [] => s
  | a :: rest => let s := Fprint false (Text a) s in
                 print_args rest (if decide (rest = []) then s else Fprint false space s)
  end.
Definition print (l : Z) (args : list arg) : M unit := λ s,
  let finish s := (Ret tt, Fprint false newline (print_args args s)) in
  if debugVisible s =? FormatPython then
    let ind := l - lvlWarning in
    if (ind <? 0) || (4 <? ind) then (Panic "index out of range", s)
    else finish (Fprint false (default [] (prefixes !! Z.to_nat ind) ++ space) s)
  else finish s.

Definition lvlUI (l : Z) (w : site) (args : list arg) : M unit :=
  do! v := DebugVisible in
  if 0 <? v then lvl l w args else print l args.

Definition exit (code : Z) : M unit := sthrow code.
Definition Info := lvlUI lvlInfo.
Definition Print := lvlUI lvlPrint.
Definition Warn := lvlUI lvlWarning.
Definition Error := lvlUI lvlError.
Definition Panic (w : site) (args : list arg) : M unit :=
  do! _ := lvlUI lvlPanic w args in slift (Prelude.Panic "log.Panic").
Definition Fatal (w : site) (args : list arg) : M unit :=
  do! _ := lvlUI lvlFatal w args in exit 1.
Definition Infof (w : site) (f : bytes) (args : list arg) : M unit := lvlUI lvlInfo w [AStr (Sprintf f args)].
Definition Printf (w : site) (f : bytes) (args : list arg) : M unit := lvlUI lvlPrint w [AStr (Sprintf f args)].
Definition Warnf (w : site) (f : bytes) (args : list arg) : M unit := lvlUI lvlWarning w [AStr (Sprintf f args)].
Definition Errorf (w : site) (f : bytes) (args : list arg) : M unit := lvlUI lvlError w [AStr (Sprintf f args)].
Definition Panicf (w : site) (f : bytes) (args : list arg) : M unit :=
  do! _ := lvlUI lvlWarning w [AStr (Sprintf f args)] in slift (Prelude.Panic "log.Panicf").
Definition Fatalf (w : site) (f : bytes) (args : list arg) : M unit :=
  do! _ := lvlUI lvlFatal w [AStr (Sprintf f args)] in exit (-1).
Definition ErrFatal (w : site) (err : option bytes) (args : list arg) : M unit :=
  match err with
  | Some e => do! _ := lvlUI lvlFatal w [AStr (e ++ space ++ Sprint args)] in exit 1
  | None => sret tt
  end.
Definition ErrFatalf (w : site) (err : option bytes) (f : bytes) (args : list arg) : M unit :=
  match err with
  | Some e => do! _ := lvlUI lvlFatal w [AStr (e ++ Sprintf (space ++ f) args)] in exit 1
  | None => sret tt
  end.

(** ** The environment and the flags *)
Definition in_ParseEnv (line : Z) (w : site) : site :=
  {| site_func := str "log.ParseEnv"; site_line := line; site_time := site_time w; site_nanos := site_nanos w |}.
(** One variable: its value [a], what is logged, and the setting. *)
Definition env_var (w : site) (line : Z) (a : bytes) (what kind : string) (parsed : arg) (err : option bytes) (set : Logger → Logger) : M unit :=
  if decide (a = []) then sret tt
  else
    do! _ := Lvl3 (in_ParseEnv line w) [AStr (str what); AStr a; parsed; AErr err] in
    do! _ := change set in
    match err with
    | None => sret tt
    | Some _ => Error (in_ParseEnv (line + 3) w) [AStr (str "Couldn't convert"); AStr a; AStr (str kind)]
    end.
Definition ParseEnv (Getenv : bytes → bytes) (w : site) : M unit :=
  do! _ :=
    let dv := Getenv (str "DEBUG_LVL") in
    let '(dvInt, ok) := Atoi_full dv in
    env_var w 363 dv "Setting level to" "to debug-level" (AInt dvInt) (if ok then None else Some (atoi_error dv)) (set_visible dvInt) in
  do! _ :=
    let dt := Getenv (str "DEBUG_TIME") in
    let dtInt := default false (ParseBool dt) in
    env_var w 372 dt "Setting showTime to" "to boolean" (ABool dtInt)
      (if ParseBool dt then None else Some (parse_bool_error dt)) (λ s, set_show dtInt (useColors s) s) in
  let dc := Getenv (str "DEBUG_COLOR") in
  let ucInt := default false (ParseBool dc) in
  env_var w 381 dc "Setting useColor to" "to boolean" (ABool ucInt)
    (if ParseBool dc then None else Some (parse_bool_error dc)) (λ s, set_show (showTime s) ucInt s).

(** [flag.IntVar] and [flag.BoolVar] set the variable to the default value and
    register the name, once. *)
Definition new_flag (name : bytes) (set : Logger → Logger) : M unit := λ s,
  if decide (name ∈ flags s) then (Prelude.Panic "flag redefined", s)
  else (Ret tt, set_flags (flags s ++ [name]) (set s)).
Definition RegisterFlags (Getenv : bytes → bytes) (w : site) : M unit :=
  do! _ := ParseEnv Getenv w in
  do! v := DebugVisible in
  do! _ := new_flag (str "debug") (set_visible v) in
  do! t := ShowTime in
  do! _ := new_flag (str "debug-time") (λ s, set_show t (useColors s) s) in
  do! c := UseColors in
  new_flag (str "debug-color") (λ s, set_show (showTime s) c s).
End formatting.

(** ** Where the output goes ([log.go]) *)
Definition set_writers (b : bool) (s : Logger) : Logger := set_output b (bufStdOut s) (bufStdErr s) (terminal s) s.
Definition OutputToBuf : M unit := change (set_writers true).
Definition OutputToOs : M unit := change (set_writers false).
Definition GetStdOut : M bytes := λ s, (Ret (bufStdOut s), set_output (to_buf s) [] (bufStdErr s) (terminal s) s).
Definition GetStdErr : M bytes := λ s, (Ret (bufStdErr s), set_output (to_buf s) (bufStdOut s) [] (terminal s) s).
Definition ContainsStdErr (b : bytes) : M bool := do! o := GetStdErr in sret (Contains o b).
Definition ContainsStdOut (b : bytes) : M bool := do! o := GetStdOut in sret (Contains o b).

(** ** What is printed *)

(** What was written to a stream: the buffer, or the terminal. *)
Definition of_stream (err : bool) (o : output) : bytes :=
  match o with ToOut b => if err then [] else b | ToErr b => if err then b else [] | _ => [] end.
Definition text (err : bool) (s : Logger) : bytes :=
  if to_buf s then (if err then bufStdErr s else bufStdOut s) else concat (of_stream err <$> terminal s).

(** A call of one of the functions with a level. *)
Record call := { c_level : Z; c_site : site; c_args : list arg }.
Definition log_all (cs : list call) : M unit :=
  sforM (λ _ c, lvl (c_level c) (c_site c) (c_args c)) tt cs.

Definition visible (v : Z) (c : call) : Prop := c_level c <= v.
Definition to_err (c : call) : Prop := c_level c < lvlInfo.

(** The settings of the program, which printing does not change. *)
Record same_settings (s s' : Logger) : Prop := {
  same_visible : debugVisible s' = debugVisible s;
  same_time : showTime s' = showTime s;
  same_colors : useColors s' = useColors s;
  same_lines : outputLines s' = outputLines s;
  same_msg : StaticMsg s' = StaticMsg s;
  same_buf : to_buf s' = to_buf s;
  same_flags : flags s' = flags s;
}.
#[global] Instance same_settings_preorder : PreOrder same_settings.
Proof. split; [by intros s|]. intros s1 s2 s3 [] []. split; congruence. Qed.

Lemma text_emit err o s : text err (emit o s) = (if to_buf s then text err s else text err s ++ of_stream err o).
Proof.
  unfold text, emit. cbn. destruct (to_buf s); [done|]. rewrite fmap_app, concat_app. cbn. by rewrite app_nil_r.
Qed.
Lemma text_Fprint err e b s : text err (Fprint e b s) = if decide (err = e) then text err s ++ b else text err s.
Proof.
  unfold Fprint. destruct (to_buf s) eqn:Hb.
  - unfold text. cbn. rewrite Hb. by destruct err, e.
  - rewrite text_emit, Hb. by destruct err, e; cbn; rewrite ?app_nil_r.
Qed.
Lemma text_fg err c b s : text err (fg c b s) = text err s.
Proof. unfold fg. destruct (useColors s); [|done]. rewrite text_emit. cbn. destruct (to_buf s); by rewrite ?app_nil_r. Qed.
Lemma emit_same o s : same_settings s (emit o s). Proof. by split. Qed.
Lemma Fprint_same e b s : same_settings s (Fprint e b s).
Proof. unfold Fprint. destruct (to_buf s) eqn:H; [by split|apply emit_same]. Qed.
Lemma fg_same c b s : same_settings s (fg c b s).
Proof. unfold fg. destruct (useColors s) eqn:H; [apply emit_same|done]. Qed.
Lemma lvl_color_same l s : same_settings s (lvl_color l s) ∧ ∀ err, text err (lvl_color l s) = text err s.
Proof.
  unfold lvl_color. cbv zeta.
  repeat case_match; (split; [first [apply fg_same|reflexivity]|intros err; first [apply text_fg|reflexivity]]).
Qed.

(** One call: nothing, or one line on its stream, after the head of the new widths. *)
Lemma lvl_spec l w args s : ∃ s', lvl l w args s = (Ret tt, s') ∧ same_settings s s' ∧
  if bool_decide (l <= debugVisible s) then
    let name := strip_paths (site_func w) in
    let g := grow name (Itoa (site_line w)) s in
    (∀ err, text err s' = if decide (err = (l <? lvlInfo)) then text err s ++ head_of l w name g ++ Sprintln args else text err s) ∧
    NamePadding s' = NamePadding g ∧ LinePadding s' = LinePadding g
  else s' = s.
Proof.
  unfold lvl. case_bool_decide as Hl; [|exists s; destruct (Z.ltb_spec (debugVisible s) l); [by repeat split|lia]].
  destruct (Z.ltb_spec (debugVisible s) l); [lia|]. cbv zeta.
  set (name := strip_paths (site_func w)). set (g := grow name (Itoa (site_line w)) s).
  assert (same_settings s g) as Hg by by split.
  destruct (lvl_color_same l g) as [Hc Ht]. set (b := head_of l w name g ++ Sprintln args).
  set (p := Fprint (l <? lvlInfo) b (lvl_color l g)).
  assert (same_settings s p) as Hp by (etrans; [exact Hg|]; etrans; [exact Hc|]; apply Fprint_same).
  eexists. split; [reflexivity|]. split; [destruct (useColors p); [etrans; [exact Hp|apply emit_same]|exact Hp]|].
  assert (∀ err, text err p = if decide (err = (l <? lvlInfo)) then text err s ++ b else text err s) as Htext.
  { intros err. unfold p. rewrite text_Fprint, Ht. done. }
  split; [intros err; destruct (useColors p); [rewrite text_emit|]; rewrite Htext; cbn; destruct (to_buf p); by rewrite ?app_nil_r|].
  assert (∀ s', NamePadding (lvl_color l s') = NamePadding s' ∧ LinePadding (lvl_color l s') = LinePadding s') as Hcol.
  { intros s'. unfold lvl_color, fg. cbv zeta. repeat case_match; by split. }
  assert (NamePadding p = NamePadding g ∧ LinePadding p = LinePadding g) as [Hn Hl']; [|by destruct (useColors p)].
  unfold p, Fprint. destruct (Hcol g). by destruct (to_buf (lvl_color l g)).
Qed.

(** The calls whose line goes to a stream. *)
Definition shown (err : bool) (v : Z) (cs : list call) : list call :=
  filter (λ c, c_level c <= v ∧ (c_level c <? lvlInfo) = err) cs.

(** Every call prints its message, with a line break, or nothing, as its level
    says: messages reach their stream once each and in order, the errors the error
    stream and all else the output. *)
Theorem log_lines cs s : ∃ s', log_all cs s = (Ret tt, s') ∧ same_settings s s' ∧
  ∀ err, ∃ heads, length heads = length (shown err (debugVisible s) cs) ∧
    text err s' = text err s ++ concat (zip_with (λ h c, h ++ Sprintln (c_args c)) heads (shown err (debugVisible s) cs)).
Proof.
  unfold log_all. induction cs as [|c cs IH] in s |- *.
  - exists s. split; [done|]. split; [reflexivity|]. intros err. exists []. by rewrite app_nil_r.
  - destruct (lvl_spec (c_level c) (c_site c) (c_args c) s) as (s1 & H1 & Hs1 & Hl).
    destruct (IH s1) as (s2 & H2 & Hs2 & Hall). exists s2. split; [cbn [sforM]; unfold sbind; by rewrite H1|].
    split; [by etrans|]. intros err. destruct (Hall err) as (heads & Hlen & Ht). rewrite (same_visible _ _ Hs1) in Hlen, Ht.
    unfold shown in *. rewrite filter_cons. case_bool_decide as Hv.
    + destruct Hl as (Htext & _). specialize (Htext err). rewrite Htext in Ht. case_decide as Herr.
      * rewrite decide_True by done. eexists (_ :: heads). cbn [length zip_with concat]. split; [by rewrite Hlen|].
        rewrite Ht, <-app_assoc. reflexivity.
      * rewrite decide_False by (intros [_ ?]; by subst). by exists heads.
    + subst s1. rewrite decide_False by (by intros [? _]). by exists heads.
Qed.

(** What is printed between two calls of [GetStdOut] is what the second returns. *)
Theorem log_captured cs s : to_buf s = true →
  ∃ before s1 s2 heads, GetStdOut s = (Ret before, s1) ∧ log_all cs s1 = (Ret tt, s2) ∧
    length heads = length (shown false (debugVisible s) cs) ∧
    (GetStdOut s2).1 = Ret (concat (zip_with (λ h c, h ++ Sprintln (c_args c)) heads (shown false (debugVisible s) cs))).
Proof.
  intros Hb. eexists _, _. destruct (log_lines cs (set_output (to_buf s) [] (bufStdErr s) (terminal s) s)) as (s2 & H & Hs & Hall).
  destruct (Hall false) as (heads & Hlen & Ht). exists s2, heads. split; [done|]. split; [done|]. split; [done|].
  cbn. f_equal. unfold text in Ht. rewrite (same_buf _ _ Hs) in Ht. cbn in Ht. by rewrite Hb in Ht.
Qed.

(** *** The columns *)
Definition name_of (w : site) : bytes := strip_paths (site_func w).
Definition name_fits (n : Z) (c : call) : Prop := Z.of_nat (length (name_of (c_site c))) <= n.
Definition line_fits (l : Z) (c : call) : Prop := Z.of_nat (length (Itoa (site_line (c_site c)))) <= l.

(** The column of the names only grows, and then holds every name it has printed;
    that of the line numbers stays as long as they fit. *)
Theorem padding_grows cs s : ∃ s', log_all cs s = (Ret tt, s') ∧ NamePadding s <= NamePadding s' ∧
  (0 < NamePadding s → Forall (λ c, c_level c <= debugVisible s → name_fits (NamePadding s') c) cs) ∧
  (Forall (λ c, c_level c <= debugVisible s → line_fits (LinePadding s) c) cs → LinePadding s' = LinePadding s).
Proof.
  unfold log_all. induction cs as [|c cs IH] in s |- *; [exists s; repeat split; [lia|constructor]|].
  destruct (lvl_spec (c_level c) (c_site c) (c_args c) s) as (s1 & H1 & Hs1 & Hl).
  destruct (IH s1) as (s2 & H2 & Hn & Hall & Hline). rewrite (same_visible _ _ Hs1) in Hall, Hline.
  exists s2. split; [cbn [sforM]; unfold sbind; by rewrite H1|].
  case_bool_decide as Hv; [|subst s1; repeat split; [done|intros ?; constructor; [done|auto]|intros [_ ?]%Forall_cons; auto]].
  destruct Hl as (_ & Hn1 & Hl1). unfold grow in Hn1, Hl1. cbn in Hn1, Hl1. fold (name_of (c_site c)) in Hn1, Hl1.
  set (n := Z.of_nat (length (name_of (c_site c)))) in *. assert (NamePadding s <= NamePadding s1 ∧ (0 < NamePadding s → n <= NamePadding s1)) as [].
  { rewrite Hn1. destruct (Z.ltb_spec (NamePadding s) n), (Z.ltb_spec 0 (NamePadding s)); cbn; lia. }
  split; [lia|]. split.
  - intros Hpos. constructor; [|apply Hall; lia]. intros _. unfold name_fits. fold n. lia.
  - intros [Hc Hcs]%Forall_cons. assert (LinePadding s1 = LinePadding s) as E.
    { rewrite Hl1. specialize (Hc Hv). unfold line_fits in Hc. by destruct (Z.ltb_spec (LinePadding s) (Z.of_nat (length (Itoa (site_line (c_site c)))))); [lia|]. }
    rewrite <-E. apply Hline. by rewrite E.
Qed.

(** A line number that does not fit makes its column as wide as the name of the
    function, wider or narrower than needed. *)
Theorem line_padding_jumps c s : c_level c <= debugVisible s → 0 < LinePadding s → ¬ line_fits (LinePadding s) c →
  ∃ s', log_all [c] s = (Ret tt, s') ∧ LinePadding s' = Z.of_nat (length (name_of (c_site c))).
Proof.
  intros Hv Hpos Hline. destruct (lvl_spec (c_level c) (c_site c) (c_args c) s) as (s1 & H1 & _ & Hl).
  exists s1. split; [cbn; unfold sbind; by rewrite H1|]. rewrite bool_decide_true in Hl by done. destruct Hl as (_ & _ & ->).
  unfold grow, line_fits in *. cbn. destruct (Z.ltb_spec (LinePadding s) (Z.of_nat (length (Itoa (site_line (c_site c)))))); [|lia].
  by rewrite (proj2 (Z.ltb_lt _ _) Hpos).
Qed.

Lemma digits_ascii z : 0 <= z < 2 ^ 63 → forallb is_ascii (Itoa z) = true.
Proof.
  intros [H _]%Itoa_digits. apply Is_true_true, forallb_True, Forall_forall. intros b Hb. rewrite Forall_forall in H. specialize (H b Hb).
  unfold is_digit, between in H. apply andb_prop in H as [_ H%Z.leb_le]. apply Is_true_true, Z.ltb_lt. lia.
Qed.

(** A message that leaves room: its name and line fit, and its level has one digit
    or a letter. *)
Record aligned (n l : Z) (c : call) : Prop := {
  al_ascii : forallb is_ascii (name_of (c_site c)) = true;
  al_name : name_fits n c;
  al_line : line_fits l c;
  al_number : 0 <= site_line (c_site c) < 2 ^ 63;
  al_level : -20 <= c_level c <= -15 ∨ -9 <= c_level c <= 9;
}.

Lemma lvl_name_width l : -20 <= l <= -15 ∨ -9 <= l <= 9 → length (Pad (-2) (lvl_name l)) = 2%nat.
Proof.
  intros Hl. assert (l ∈ (λ k : nat, Z.of_nat k - 20) <$> seq 0 30) as Hin.
  { apply list_elem_of_fmap. exists (Z.to_nat (l + 20)). split; [lia|]. apply elem_of_seq. lia. }
  revert l Hin Hl. assert (Forall (λ l, -20 <= l <= -15 ∨ -9 <= l <= 9 → length (Pad (-2) (lvl_name l)) = 2%nat)
    ((λ k : nat, Z.of_nat k - 20) <$> seq 0 30)) as H.
  { cbn [seq fmap list_fmap]. repeat (constructor; [intros H; first [by vm_compute|exfalso; lia]|]). constructor. }
  intros l Hin. rewrite Forall_forall in H. by apply H.
Qed.

Lemma head_width c g n l : showTime g = false → StaticMsg g = [] → 1 <= l → aligned n l c → NamePadding g = n → LinePadding g = l →
  Z.of_nat (length (head_of (c_level c) (c_site c) (name_of (c_site c)) g)) = n + l + 11.
Proof.
  intros Ht Hm Hl [Ha Hname Hline Hnum Hlev] <- <-. unfold head_of, name_fits, line_fits in *. rewrite Ht, decide_True by done.
  assert (Z.of_nat (length (Pad (LinePadding g) (Itoa (if outputLines g then site_line (c_site c) else 0)))) = LinePadding g) as HL.
  { destruct (outputLines g).
    - rewrite Pad_ascii by first [by apply digits_ascii|lia]. lia.
    - rewrite Pad_ascii by first [reflexivity|lia]. change (length (Itoa 0)) with 1%nat. lia. }
  assert (Z.of_nat (length (Pad (NamePadding g) (name_of (c_site c)))) = NamePadding g) as HN by (rewrite Pad_ascii by first [exact Ha|lia]; lia).
  rewrite !length_app, (lvl_name_width _ Hlev).
  change (length (str ": (")) with 3%nat. change (length (str ") - ")) with 4%nat. change (length (str ": ")) with 2%nat. cbn [length]. lia.
Qed.

(** The messages of calls that fit start in one column. *)
Theorem log_aligned cs s :
  showTime s = false → StaticMsg s = [] → 0 < NamePadding s → 1 <= LinePadding s →
  Forall (λ c, c_level c <= debugVisible s → aligned (NamePadding s) (LinePadding s) c) cs →
  ∃ s', log_all cs s = (Ret tt, s') ∧ ∀ err, ∃ heads, length heads = length (shown err (debugVisible s) cs) ∧
    text err s' = text err s ++ concat (zip_with (λ h c, h ++ Sprintln (c_args c)) heads (shown err (debugVisible s) cs)) ∧
    Forall (λ h, Z.of_nat (length h) = NamePadding s + LinePadding s + 11) heads.
Proof.
  unfold log_all. induction cs as [|c cs IH] in s |- *; intros Ht Hm Hn Hl Hcs.
  - exists s. split; [done|]. intros err. exists []. by rewrite app_nil_r.
  - apply Forall_cons in Hcs as [Hc Hcs].
    destruct (lvl_spec (c_level c) (c_site c) (c_args c) s) as (s1 & H1 & Hs1 & Hspec).
    assert (NamePadding s1 = NamePadding s ∧ LinePadding s1 = LinePadding s) as [En El].
    { case_bool_decide as Hv; [|by subst s1]. destruct Hspec as (_ & -> & ->). destruct (Hc Hv) as [_ Hname Hline _ _].
      unfold name_fits, line_fits, name_of in *. unfold grow. cbn.
      rewrite (proj2 (Z.ltb_ge _ _) Hname), (proj2 (Z.ltb_ge _ _) Hline). done. }
    destruct (IH s1) as (s2 & H2 & Hall); [by rewrite (same_time _ _ Hs1)|by rewrite (same_msg _ _ Hs1)|by rewrite En|by rewrite El|
      rewrite En, El, (same_visible _ _ Hs1); exact Hcs|].
    exists s2. split; [cbn [sforM]; unfold sbind; by rewrite H1|].
    intros err. destruct (Hall err) as (heads & Hlen & Htxt & Hw). rewrite (same_visible _ _ Hs1), En, El in *.
    unfold shown in *. rewrite filter_cons. case_bool_decide as Hv.
    + destruct Hspec as (Htext & Hn1 & Hl1). specialize (Htext err). rewrite Htext in Htxt. case_decide as Herr.
      * rewrite decide_True by done. eexists (_ :: heads). cbn [length zip_with concat]. split; [by rewrite Hlen|].
        split; [rewrite Htxt, <-app_assoc; reflexivity|]. constructor; [|done].
        apply head_width; [done..|by apply Hc|by rewrite <-Hn1|by rewrite <-Hl1].
      * rewrite decide_False by (intros [_ ?]; by subst). by exists heads.
    + subst s1. rewrite decide_False by (by intros [? _]). by exists heads.
Qed.

(** *** Messages for the user *)
Lemma print_args_spec args s : same_settings s (print_args args s) ∧
  text true (print_args args s) = text true s ∧ text false (print_args args s) = text false s ++ Join space (Text <$> args).
Proof.
  induction args as [|a args IH] in s |- *; [split; [reflexivity|]; split; [done|]; cbn; by rewrite app_nil_r|].
  cbn [print_args]. case_decide as Hr.
  - subst args. cbn [print_args fmap list_fmap Join]. split; [apply Fprint_same|]. rewrite !text_Fprint. by cbn.
  - destruct (IH (Fprint false space (Fprint false (Text a) s))) as (Hs & He & Ho).
    split; [etrans; [apply Fprint_same|]; etrans; [apply Fprint_same|exact Hs]|].
    rewrite He, Ho, !text_Fprint. split; [done|]. rewrite !decide_True by done. change (Text <$> a :: args) with (Text a :: (Text <$> args)).
    rewrite Join_cons by (by destruct args). by rewrite <-!app_assoc.
Qed.

Definition python_prefix (v l : Z) : bytes :=
  if v =? FormatPython then default [] (prefixes !! Z.to_nat (l - lvlWarning)) ++ space else [].

(** A message for the user is always printed.  With levels it is a line of its
    level.  Without, it goes to the output, errors too; [Print] has no prefix in
    the list that is looked at, so in the python format it panics. *)
Theorem ui_printed l w args s : lvlWarning <= l <= lvlPrint →
  if 0 <? debugVisible s then
    ∃ s' head, lvlUI l w args s = (Ret tt, s') ∧ same_settings s s' ∧
      ∀ err, text err s' = if decide (err = (l <? lvlInfo)) then text err s ++ head ++ Sprintln args else text err s
  else if (debugVisible s =? FormatPython) && (l =? lvlPrint) then
    lvlUI l w args s = (Prelude.Panic "index out of range", s)
  else
    ∃ s', lvlUI l w args s = (Ret tt, s') ∧ same_settings s s' ∧ text true s' = text true s ∧
      text false s' = text false s ++ python_prefix (debugVisible s) l ++ Sprintln args.
Proof.
  intros Hl. unfold lvlUI, DebugVisible, sbind, sget, sret, python_prefix.
  destruct (Z.ltb_spec 0 (debugVisible s)) as [Hv|Hv].
  - destruct (lvl_spec l w args s) as (s' & H & Hs & Hspec). rewrite bool_decide_true in Hspec by (unfold lvlPrint in Hl; lia).
    destruct Hspec as [Ht _]. by eexists s', _.
  - unfold print. destruct (Z.eqb_spec (debugVisible s) FormatPython) as [Hp|Hp]; cbn [andb].
    + destruct (Z.eqb_spec l lvlPrint) as [->|Hne]; [reflexivity|]. unfold lvlWarning, lvlPrint in *. cbv zeta.
      destruct (Z.ltb_spec (l - -20) 0); [lia|]. destruct (Z.ltb_spec 4 (l - -20)); [lia|]. cbn [orb].
      set (p := default [] _ ++ space). destruct (print_args_spec args (Fprint false p s)) as (Hs & He & Ho).
      eexists. split; [reflexivity|]. rewrite !text_Fprint, He, Ho, !text_Fprint.
      split; [etrans; [apply Fprint_same|]; etrans; [exact Hs|apply Fprint_same]|]. split; [done|].
      rewrite !decide_True by done. unfold Sprintln. by rewrite <-!app_assoc.
    + destruct (print_args_spec args s) as (Hs & He & Ho). eexists. split; [reflexivity|]. rewrite !text_Fprint, He, Ho.
      split; [etrans; [exact Hs|apply Fprint_same]|]. split; [done|]. rewrite decide_True by done. unfold Sprintln. by rewrite <-app_assoc.
Qed.

(** Whatever the settings, messages other than [Print] return. *)
Lemma ui_returns l w args s : lvlWarning <= l < lvlPrint → ∃ s', lvlUI l w args s = (Ret tt, s') ∧ same_settings s s'.
Proof.
  intros Hl. pose proof (ui_printed l w args s ltac:(lia)) as H.
  destruct (0 <? debugVisible s); [destruct H as (s' & _ & H & Hs & _); by exists s'|].
  destruct (Z.eqb_spec l lvlPrint); [lia|]. rewrite andb_false_r in H. destruct H as (s' & H & Hs & _). by exists s'.
Qed.

(** [ErrFatal] goes on without an error and ends the program with one. *)
Theorem err_fatal w e args s :
  (e = None → ErrFatal w e args s = (Ret tt, s)) ∧ (is_Some e → ∃ s', ErrFatal w e args s = (Err 1, s') ∧ same_settings s s').
Proof.
  split; [by intros ->|]. intros [t ->]. unfold ErrFatal, sbind.
  destruct (ui_returns lvlFatal w [AStr (t ++ space ++ Sprint args)] s) as (s' & -> & Hs); [done|]. by exists s'.
Qed.

(** *** The environment *)
Lemma env_var_spec w line a what kind parsed err set s : (∀ s1, same_settings s s1 → same_settings (set s) (set s1)) →
  ∃ s', env_var w line a what kind parsed err set s = (Ret tt, s') ∧ same_settings (if decide (a = []) then s else set s) s'.
Proof.
  intros Hset. unfold env_var. case_decide; [by exists s|].
  destruct (lvl_spec 3 (in_ParseEnv line w) [AStr (str what); AStr a; parsed; AErr err] s) as (s1 & H1 & Hs & _).
  unfold Lvl3, lvld, sbind, change. rewrite H1. specialize (Hset s1 Hs). destruct err; [|by exists (set s1)].
  edestruct (ui_returns lvlError (in_ParseEnv (line + 3) w)) as (s' & H' & Hs'); [done|]. exists s'. split; [exact H'|]. by etrans.
Qed.

(** After [ParseEnv] each variable that is set decides its setting: also one that
    cannot be read, as level 0 or as false. *)
Theorem parse_env atoi_error parse_bool_error env w s : ∃ s', ParseEnv atoi_error parse_bool_error env w s = (Ret tt, s') ∧
  debugVisible s' = (if decide (env (str "DEBUG_LVL") = []) then debugVisible s else (Atoi_full (env (str "DEBUG_LVL"))).1) ∧
  showTime s' = (if decide (env (str "DEBUG_TIME") = []) then showTime s else default false (ParseBool (env (str "DEBUG_TIME")))) ∧
  useColors s' = (if decide (env (str "DEBUG_COLOR") = []) then useColors s else default false (ParseBool (env (str "DEBUG_COLOR")))) ∧
  to_buf s' = to_buf s ∧ flags s' = flags s.
Proof.
  unfold ParseEnv. generalize (env (str "DEBUG_LVL")), (env (str "DEBUG_TIME")), (env (str "DEBUG_COLOR")). intros a1 a2 a3.
  unfold sbind. destruct (Atoi_full a1) as [v ok]. cbn [fst].
  edestruct (env_var_spec w 363 a1) as (s1 & -> & H1); [by intros s1 []; split|].
  edestruct (env_var_spec w 372 a2) as (s2 & -> & H2); [by intros s2 []; split|].
  edestruct (env_var_spec w 381 a3) as (s3 & -> & H3); [by intros s3 []; split|].
  exists s3. split; [done|]. destruct H1, H2, H3. repeat case_decide; cbn in *; repeat split; congruence.
Qed.
End Log.

Module LogExample.
Import Strings Format Log.

Definition at_ (f : string) (line : Z) : site := {| site_func := str f; site_line := line; site_time := str "17/10/01 12:00:00"; site_nanos := 42 |}.
Definition say (l : Z) (f : string) (line : Z) (m : string) : call := {| c_level := l; c_site := at_ f line; c_args := [AStr (str m)] |}.
(** The tests of the package leave out the line numbers. *)
Definition testing (v : Z) : Logger :=
  {| NamePadding := 40; LinePadding := 3; StaticMsg := []; debugVisible := v; showTime := false; useColors := false;
     outputLines := false; to_buf := true; bufStdOut := []; bufStdErr := []; terminal := []; flags := [] |}.
Definition printed (s : Logger) (c : M unit) : bytes * bytes := let s' := (c s).2 in (text false s', text true s').

(** The examples of [lvl_test.go] and [ui_test.go]. *)
Example levels : printed (testing 2)
    (log_all ((λ l, say l "gopkg.in/dedis/onet%2ev1/log.ExampleLvl2" 134 "Level") <$> [1; 2; 3; 4; 5])) =
  (str "1 : (                         log.ExampleLvl2:   0) - Level" ++ newline ++
   str "2 : (                         log.ExampleLvl2:   0) - Level" ++ newline, []).
Proof. vm_compute. reflexivity. Qed.
Example overflow : printed (testing 1)
    (log_all [say 1 "log.ExampleLvlf1" 1 "Before"; say 1 "log.thisIsAVeryLongFunctionNameThatWillOverflow" 2 "Overflow"; say 1 "log.ExampleLvlf1" 3 "After"]) =
  (str "1 : (                        log.ExampleLvlf1:   0) - Before" ++ newline ++
   str "1 : (log.thisIsAVeryLongFunctionNameThatWillOverflow:   0) - Overflow" ++ newline ++
   str "1 : (                               log.ExampleLvlf1:   0) - After" ++ newline, []).
Proof. vm_compute. reflexivity. Qed.
Example warning : printed (testing 1) (Warn (at_ "log.TestLvl" 3) [AStr (str "TestLvl")]) =
  ([], str "W : (                             log.TestLvl:   0) - TestLvl" ++ newline).
Proof. vm_compute. reflexivity. Qed.
Example formats :
  printed (testing FormatPython) (Info (at_ "log.TestInfo" 3) [AStr (str "Python")]) = (str "[+] Python" ++ newline, []) ∧
  printed (testing FormatNone) (Info (at_ "log.TestInfo" 3) [AStr (str "None"); AStr (str "Python")]) = (str "None Python" ++ newline, []) ∧
  (Print (at_ "log.TestInfo" 3) [AStr (str "Python")] (testing FormatPython)).1 = Prelude.Panic "index out of range".
Proof. repeat split; vm_compute; reflexivity. Qed.

(** A line number of four digits makes its column as wide as the name is long. *)
Example line_columns :
  (LinePadding (log_all [say 1 "main.main" 1000 ""] initial).2, LinePadding (log_all [say 1 "a.b" 1000 ""] initial).2) = (9, 3).
Proof. vm_compute. reflexivity. Qed.

(** [Panicf] prints a warning. *)
Example panicf_warns : (Panicf (λ f _, f) (at_ "main.main" 7) (str "broken") [] (testing 1)).1 = Prelude.Panic "log.Panicf" ∧
  printed (testing 1) (Panicf (λ f _, f) (at_ "main.main" 7) (str "broken") []) = ([], str "W : (                               main.main:   0) - broken" ++ newline).
Proof. split; vm_compute; reflexivity. Qed.

Definition env (l : list (string * string)) (name : bytes) : bytes :=
  match filter (λ p, str p.1 = name) l with p :: _ => str p.2 | [] => [] end.
Definition err_text (b : bytes) : bytes := str "invalid syntax".
(** A level that is no number turns off the lines with a level. *)
Example bad_level : debugVisible (ParseEnv err_text err_text (env [("DEBUG_LVL", "high")]%string) (at_ "" 0) initial).2 = 0.
Proof. vm_compute. reflexivity. Qed.
Example register_twice :
  let reg := RegisterFlags err_text err_text (env []) (at_ "" 0) in
  (reg initial).1 = Ret tt ∧ (reg (reg initial).2).1 = Prelude.Panic "flag redefined".
Proof. split; vm_compute; reflexivity. Qed.

(** Runes: a letter of two bytes, a broken one, and a smiley. *)
Example runes : (RuneCount [xc3; xa9], RuneCount [xc3; x41], RuneCount [xf0; x9f; x98; x80], RuneCount [xed; xa0; x80]) = (1, 2, 1, 3)%nat.
Proof. vm_compute. reflexivity. Qed.
Example sprint : Sprint [AStr (str "a"); AInt 1; AInt 2; AStr (str "b"); AErr None] = str "a1 2b<nil>".
Proof. vm_compute. reflexivity. Qed.

Definition calls : list call := [say 1 "main.main" 12 "hello"; say 3 "main.main" 13 "hidden"; say lvlError "main.f" 200 "bad"].
Lemma log_aligned_witness : ∃ s', log_all calls initial = (Ret tt, s') ∧
  ∀ err, ∃ heads, length heads = length (shown err 1 calls) ∧
    text err s' = concat (zip_with (λ h c, h ++ Sprintln (c_args c)) heads (shown err 1 calls)) ∧
    Forall (λ h, Z.of_nat (length h) = 40 + 3 + 11) heads.
Proof.
  apply (log_aligned calls initial); [done..|].
  repeat (apply Forall_cons; split; [intros _; split; [reflexivity|by vm_compute|by vm_compute|split; by vm_compute|
    first [left; split; by vm_compute|right; split; by vm_compute]]|]).
  constructor.
Defined.
End LogExample.
