(* ===== verification/Address.v ===== *)
(** * Addresses ([imported/onet/network/address.go], [GlobalBind] of [struct.go])

    An address is a connection type, [://], and host and port.  Looking up a name
    ([net.LookupHost]) and the lower case of strings that are not ASCII are
    parameters.  [valid_hostname_correct] compares the check of host names with
    the definition its comment gives, [valid_correct] and [address_roundtrip] are
    about whole addresses. *)
From S2P Require Import Prelude GoStrings.
Import Strings Numbers Net Regexp.
Local Open Scope Z_scope.

Module Addresses.
Section address.
(** [net.LookupHost]; [strings.ToLower] of a string that is not ASCII. *)
Context (lookupHost : bytes → outcome error (list bytes)) (lower_unicode : bytes → bytes).

Definition ToLower (s : bytes) : bytes := if forallb is_ascii s then lower <$> s else lower_unicode s.

(** ** Connection types *)
Definition PlainTCP : bytes := str "tcp".
Definition TLS : bytes := str "tls".
Definition PURB : bytes := str "purb".
Definition Local : bytes := str "local".
Definition InvalidConnType : bytes := str "wrong".
Definition typeAddressSep : bytes := str "://".

Definition known_types : list bytes := [PlainTCP; TLS; PURB; Local].
Definition connType (t : bytes) : bytes := if decide (t ∈ known_types) then t else InvalidConnType.

(** ** Host names *)
Definition alnum (b : byte) : bool := is_lower b || is_digit b.
Definition alnum_dash (b : byte) : bool := alnum b || bool_decide (b = x2d).

(** [^(([a-z0-9]|[a-z0-9][a-z0-9\-]*[a-z0-9])\.)*([a-z]+)$]. *)
Definition label_regexp : regexp :=
  Alt (Class alnum) (Cat (Class alnum) (Cat (Star (Class alnum_dash)) (Class alnum))).
Definition hostname_regexp : regexp :=
  Cat (Star (Cat label_regexp (char x2e))) (Plus (Class is_lower)).

Definition bad_label (element : bytes) : bool := ((length element <? 1) || (63 <? length element))%nat.

Definition validHostname (s : bytes) : outcome error bool :=
  let s := ToLower s in
  let! c := index s (Z.of_nat (length s) - 1) in
  let '(maxLength, s) :=
    if decide (c = x2e) then (254%nat, take (length s - 1) s) else (253%nat, s) in
  if (maxLength <? length s)%nat then Ret false
  else if existsb bad_label (Split s [x2e]) then Ret false
  else Ret (matches hostname_regexp s).

(** ** Addresses *)
Definition Valid (a : bytes) : outcome error bool :=
  match Split a typeAddressSep with
  | [t; hp] =>
      if decide (connType t = InvalidConnType) then Ret false
      else
        match SplitHostPort hp with
        | None => Ret false
        | Some (ip, port) =>
            match Atoi port with
            | None => Ret false
            | Some p =>
                if (p <? 0) || (65535 <? p) then Ret false
                else if ParseIP ip then Ret true else validHostname ip
            end
        end
  | _ => Ret false
  end.

Definition ConnType (a : bytes) : outcome error bytes :=
  let! v := Valid a in
  if negb v then Ret InvalidConnType
  else let! t := index (Split a typeAddressSep) 0 in Ret (connType t).

Definition NetworkAddress (a : bytes) : outcome error bytes :=
  let! v := Valid a in
  if negb v then Ret [] else index (Split a typeAddressSep) 1.

Definition Host (a : bytes) : outcome error bytes :=
  let! na := NetworkAddress a in
  if decide (na = []) then Ret []
  else match SplitHostPort na with
       | None => Ret []
       | Some (h, _) => Ret (if decide (h = str "::") then str "[::]" else h)
       end.

Definition Port (a : bytes) : outcome error bytes :=
  let! na := NetworkAddress a in
  if decide (na = []) then Ret []
  else match SplitHostPort na with
       | None => Ret []
       | Some (_, p) => Ret p
       end.

Definition IsHostname (a : bytes) : outcome error bool :=
  let! host := Host a in
  let! v := validHostname host in
  Ret (v && negb (ParseIP host)).

Definition Resolve (a : bytes) : outcome error bytes :=
  let! v := Valid a in
  if negb v then Ret []
  else
    let! host := Host a in
    if decide (host = str "[::]") then Ret (str "::")
    else if ParseIP host then Ret host
    else
      let! h := IsHostname a in
      if negb h then Ret []
      else match lookupHost host with
           | Err _ => Ret []
           | Ret ips => index ips 0
           | Panic w => Panic w
           | OutOfFuel => OutOfFuel
           end.

Definition NetworkAddressResolved (a : bytes) : outcome error bytes :=
  let! v := Valid a in
  if negb v then Ret []
  else
    let! ip := Resolve a in
    let! port := Port a in
    Ret (JoinHostPort ip port).

(** The private networks: each alternative is anchored at the start. *)
Definition digits_between (lo hi : byte) : regexp := Class (between (byte_val lo) (byte_val hi)).
Definition dot : regexp := Class (λ b, negb (bool_decide (b = x0a))).
Definition private_regexp : regexp :=
  Cat (foldr Alt Void
    [lit (str "127."); lit (str "10."); Cat (lit (str "172.1")) (Cat (digits_between x36 x39) (char x2e));
     Cat (lit (str "172.2")) (Cat (digits_between x30 x39) (char x2e));
     Cat (lit (str "172.3")) (Cat (digits_between x30 x31) (char x2e));
     lit (str "192.168."); lit (str "169.254"); lit (str "[::1]");
     Cat (lit (str "[fd")) (Cat (Alt Eps (Alt dot (Cat dot dot))) (char x3a))]) any.

Definition Public (a : bytes) : outcome error bool :=
  let! na := NetworkAddressResolved a in
  let! v := Valid a in
  Ret (negb (matches private_regexp na) && v).

Definition NewAddress (t network : bytes) : bytes := t ++ typeAddressSep ++ network.

(** [GlobalBind] of [struct.go]. *)
Definition GlobalBind (address : bytes) : outcome error bytes :=
  match Split address [x3a] with
  | [_; port] => Ret (str "0.0.0.0:" ++ port)
  | _ => Err "not a host:port address"
  end.

(** ** Host names, as the comment of [validHostname] defines them *)

Record valid_label (l : bytes) : Prop := {
  label_length : (1 <= length l <= 63)%nat;
  label_chars : Forall (λ b, alnum_dash b = true) l;
  label_head : head l ≠ Some x2d;
  label_last : last l ≠ Some x2d;
}.

(** A name of at most [n] characters. *)
Record hostname (n : nat) (s : bytes) : Prop := {
  hostname_length : (length s <= n)%nat;
  hostname_labels : Forall valid_label (Split s [x2e]);
  hostname_tld : ∀ l, last (Split s [x2e]) = Some l → Forall (λ b, is_lower b = true) l;
}.

(** *** Labels *)

Lemma lower_alnum b : is_lower b = true → alnum b = true.
Proof. unfold alnum. by intros ->. Qed.
Lemma alnum_alnum_dash b : alnum b = true → alnum_dash b = true.
Proof. unfold alnum_dash. by intros ->. Qed.
Lemma alnum_not_dash b : alnum b = true → b ≠ x2d.
Proof. by intros H ->. Qed.
Lemma alnum_dash_not_dot b : alnum_dash b = true → b ≠ x2e.
Proof. by intros H ->. Qed.

Lemma lang_class_one f s : lang (Class f) s ↔ ∃ b, s = [b] ∧ f b = true.
Proof. split; [apply lang_class_inv|]. intros (b & -> & H). by constructor. Qed.

Lemma lang_label l :
  lang label_regexp l ↔
  l ≠ [] ∧ Forall (λ b, alnum_dash b = true) l ∧ head l ≠ Some x2d ∧ last l ≠ Some x2d.
Proof.
  unfold label_regexp. split.
  - intros [(b & -> & Hb)%lang_class_inv|H]%lang_alt_inv.
    + pose proof (alnum_not_dash b Hb). split; [done|]. split; [|split; cbn; congruence].
      apply Forall_singleton. by apply alnum_alnum_dash.
    + apply lang_cat_inv in H as (? & s & -> & (b & -> & Hb)%lang_class_inv & H).
      apply lang_cat_inv in H as (m & ? & -> & Hm%lang_star_class & (c & -> & Hc)%lang_class_inv).
      pose proof (alnum_not_dash b Hb). pose proof (alnum_not_dash c Hc).
      split; [done|]. split.
      { apply Forall_app. split; [apply Forall_singleton; by apply alnum_alnum_dash|].
        apply Forall_app. split; [done|]. apply Forall_singleton. by apply alnum_alnum_dash. }
      split; [cbn; congruence|]. rewrite (assoc_L (++)), last_snoc. congruence.
  - intros (Hne & Hall & Hh & Hl). destruct l as [|b l]; [done|]. apply Forall_cons in Hall as [Hb Hall].
    assert (∀ x, alnum_dash x = true → x ≠ x2d → alnum x = true) as Hx.
    { intros x [H|H%bool_decide_eq_true]%orb_prop ?; [done|congruence]. }
    assert (alnum b = true) as Hb' by (apply Hx; cbn in *; congruence).
    destruct l as [|c l _] using rev_ind; [apply lang_alt_l; by constructor|]. apply lang_alt_r.
    apply (lang_cat _ _ [b]); [by constructor|]. rewrite app_comm_cons, last_snoc in Hl.
    apply Forall_app in Hall as [Hall [Hc _]%Forall_cons].
    constructor; [by apply lang_star_class|]. constructor. apply Hx; congruence.
Qed.

Lemma label_no_dot l : Forall (λ b, alnum_dash b = true) l → x2e ∉ l.
Proof. intros Hall Hin. rewrite Forall_forall in Hall. by apply (alnum_dash_not_dot x2e (Hall _ Hin)). Qed.

(** *** Splitting at dots *)

Lemma Split_join ls l :
  Forall (λ l, x2e ∉ l) ls → x2e ∉ l → Split (foldr (λ a r, a ++ [x2e] ++ r) l ls) [x2e] = ls ++ [l].
Proof.
  intros Hls Hl. induction ls as [|a ls IH].
  - cbn. unfold Split. by rewrite (split_none _ x2e).
  - apply Forall_cons in Hls as [Ha Hls]. cbn [foldr]. unfold Split in *.
    rewrite (split_cut [x2e] x2e) by done. by rewrite IH.
Qed.

Lemma split_from_no_dot acc s : x2e ∉ acc → Forall (λ l, x2e ∉ l) (split_from [x2e] 0 acc s).
Proof.
  revert acc. induction s as [|b s IH]; intros acc Ha; cbn; [by apply Forall_singleton|].
  destruct (bool_decide (x2e = b)) eqn:E; cbn.
  - constructor; [done|]. apply IH, not_elem_of_nil.
  - apply bool_decide_eq_false in E. apply IH. set_solver.
Qed.

Lemma Join_foldr ls l : Join [x2e] (ls ++ [l]) = foldr (λ a r, a ++ [x2e] ++ r) l ls.
Proof. induction ls as [|a ls IH]; [done|]. cbn [foldr]. rewrite <-IH, <-app_comm_cons.
  apply Join_cons. by destruct ls. Qed.

(** The regular expression is about the labels. *)
Lemma lang_hostname s :
  lang hostname_regexp s ↔
  ∃ ls l, Split s [x2e] = ls ++ [l] ∧ Forall (λ l, lang label_regexp l) ls ∧
    l ≠ [] ∧ Forall (λ b, is_lower b = true) l.
Proof.
  assert (∀ ls l, Forall (λ b, is_lower b = true) l → Forall (λ l, lang label_regexp l) ls →
    Split (foldr (λ a r, a ++ [x2e] ++ r) l ls) [x2e] = ls ++ [l]) as Hsplit.
  { intros ls l Hl Hls. apply Split_join.
    - eapply Forall_impl; [exact Hls|]. intros a (_ & Ha & _)%lang_label. by apply label_no_dot.
    - apply label_no_dot. eapply Forall_impl; [exact Hl|]. intros b Hb. by apply alnum_alnum_dash, lower_alnum. }
  unfold hostname_regexp. split.
  - intros (s1 & l & -> & H1 & [Hne Hl]%lang_plus_class)%lang_cat_inv.
    assert (∃ ls, Forall (λ l, lang label_regexp l) ls ∧ s1 ++ l = foldr (λ a r, a ++ [x2e] ++ r) l ls) as (ls & Hls & ->).
    { remember (Star (Cat label_regexp (char x2e))) as r eqn:Er. revert Er.
      induction H1; intros Er; try discriminate; [by exists []|].
      injection Er as ->. destruct (IHlang2 eq_refl) as (ls & Hls & Heq).
      apply lang_cat_inv in H1_ as (a & ? & -> & Ha & ->%lang_char_inv).
      exists (a :: ls). split; [by constructor|]. cbn [foldr]. rewrite <-Heq. by rewrite <-!app_assoc. }
    exists ls, l. auto.
  - intros (ls & l & Hs & Hls & Hne & Hl). rewrite <-(Join_Split [x2e] s), Hs, Join_foldr by done.
    clear Hs Hsplit. induction Hls as [|a ls Ha Hls IH].
    + apply (lang_cat _ _ [] l); [constructor|]. by apply lang_plus_class.
    + cbn [foldr]. apply lang_cat_inv in IH as (s1 & s2 & -> & H1 & H2).
      rewrite !(assoc_L (++)). apply lang_cat; [|done]. rewrite <-(assoc_L (++)).
      rewrite (assoc_L (++)). apply lang_star_app; [|done]. apply lang_cat; [done|apply lang_char].
Qed.

Lemma lower_label l : l ≠ [] → Forall (λ b, is_lower b = true) l → lang label_regexp l.
Proof.
  intros Hne Hl. apply lang_label.
  assert (∀ b, b ∈ l → b ≠ x2d) as Hd.
  { intros b Hb. rewrite Forall_forall in Hl. by apply alnum_not_dash, lower_alnum, Hl. }
  split; [done|]. split; [|split].
  - eapply Forall_impl; [exact Hl|]. intros b Hb. by apply alnum_alnum_dash, lower_alnum.
  - intros H. destruct l as [|b l]; [done|]. injection H as ->. by apply (Hd x2d); [left|].
  - intros H. apply last_Some in H as [l' ->]. apply (Hd x2d); [set_solver|done].
Qed.

Lemma bad_label_false l : bad_label l = false ↔ (1 <= length l <= 63)%nat.
Proof. unfold bad_label. rewrite orb_false_iff, !Nat.ltb_ge. lia. Qed.

Lemma valid_label_lang l : valid_label l ↔ lang label_regexp l ∧ bad_label l = false.
Proof.
  rewrite lang_label, bad_label_false. split.
  - intros []. split; [|lia]. split; [by destruct l; cbn in *; [lia|]|done].
  - intros ((_ & H1 & H2 & H3) & H4). by split.
Qed.

(** The two checks of [validHostname] on a name without its final dot. *)
Lemma hostname_checks n s :
  ((length s <= n)%nat ∧ existsb bad_label (Split s [x2e]) = false ∧ matches hostname_regexp s = true)
  ↔ hostname n s.
Proof.
  rewrite matches_spec, lang_hostname. split.
  - intros (Hn & Hbad & ls & l & Hs & Hls & Hne & Hl). rewrite Hs in Hbad.
    assert (∀ x, x ∈ ls ++ [l] → bad_label x = false) as Hb.
    { intros x Hx. destruct (bad_label x) eqn:E; [|done].
      rewrite <-Hbad. symmetry. apply existsb_exists. exists x. by rewrite <-list_elem_of_In. }
    split; [done| |].
    + rewrite Hs. apply Forall_forall. intros x Hx. apply valid_label_lang. split; [|by apply Hb].
      apply elem_of_app in Hx as [Hx|Hx%list_elem_of_singleton].
      * rewrite Forall_forall in Hls. by apply Hls.
      * subst x. by apply lower_label.
    + intros l'. rewrite Hs, last_snoc. by intros [= <-].
  - intros [Hn Hall Htld]. split; [done|].
    assert (∀ x, x ∈ Split s [x2e] → valid_label x) as Hv by by apply Forall_forall.
    split.
    { destruct (existsb _ _) eqn:E; [|done]. apply existsb_exists in E as (x & Hx & Hbad).
      apply list_elem_of_In, Hv, valid_label_lang in Hx as [_ Hx]. congruence. }
    assert (Split s [x2e] ≠ []) as Hne by apply split_from_not_nil.
    destruct (Split s [x2e]) as [|l ls _] using rev_ind; [done|].
    exists ls, l. split; [done|]. split; [|split; [|by apply Htld; rewrite last_snoc]].
    + apply Forall_forall. intros x Hx. apply valid_label_lang, Hv. set_solver.
    + destruct (Hv l) as [Hlen _ _ _]; [set_solver|]. destruct l; [cbn in Hlen; lia|done].
Qed.

Lemma index_last (s : bytes) c : index (E := error) (s ++ [c]) (Z.of_nat (length (s ++ [c])) - 1) = Ret c.
Proof.
  rewrite length_app. replace (Z.of_nat (length s + length [c]) - 1) with (Z.of_nat (length s)) by (cbn; lia).
  apply index_Ret. apply list_lookup_middle. done.
Qed.

(** A name without its trailing dot. *)
Definition without_dot (s : bytes) : bytes :=
  if decide (last s = Some x2e) then take (length s - 1) s else s.

(** The definition of the comment: the trailing dot does not count, the case of
    letters does not matter. *)
Definition well_formed_hostname (s : bytes) : Prop := hostname 253 (without_dot (lower <$> s)).

(** Names the definition is about: there is a host part, in ASCII; left out is also
    the length of 254 before a trailing dot. *)
Definition host_part (s : bytes) : Prop :=
  s ≠ [] ∧ forallb is_ascii s = true ∧ ¬ (length s = 255%nat ∧ last s = Some x2e).

Lemma hostname_shorter s : length s ≠ 254%nat → hostname 254 s ↔ hostname 253 s.
Proof. intros Hl. split; intros [Hn Ha Ht]; (split; [lia|done|done]). Qed.

Lemma name_checked n t : ∃ b, (if (n <? length t)%nat then Ret false
    else if existsb bad_label (Split t [x2e]) then Ret false
    else Ret (matches hostname_regexp t)) = (Ret b : outcome error bool) ∧ (b = true ↔ hostname n t).
Proof.
  setoid_rewrite <-hostname_checks. destruct (Nat.ltb_spec n (length t)).
  - exists false. split; [done|]. split; [done|lia].
  - destruct (existsb _ _); [exists false|exists (matches hostname_regexp t)]; (split; [done|]);
      naive_solver.
Qed.

Lemma host_name_decided s :
  host_part s → ∃ b, validHostname s = Ret b ∧ (b = true ↔ well_formed_hostname s).
Proof.
  intros (Hne & Ha & Hlen). destruct s as [|c s _] using rev_ind; [done|].
  rewrite last_snoc, length_app in Hlen. unfold well_formed_hostname, without_dot, validHostname, ToLower.
  rewrite Ha, fmap_app. cbn [fmap list_fmap]. rewrite index_last, last_snoc. cbn [obind].
  destruct (decide (lower c = x2e)) as [Hc|Hc].
  - rewrite decide_True by congruence. rewrite length_app, length_fmap.
    replace (length s + length [lower c] - 1)%nat with (length (lower <$> s)) by (rewrite length_fmap; cbn; lia).
    rewrite take_app_length. destruct (name_checked 254 (lower <$> s)) as (b & Hb & Heq).
    exists b. split; [exact Hb|]. rewrite Heq. apply hostname_shorter. rewrite length_fmap. intros Hl. apply Hlen. split; [rewrite Hl; done|]. f_equal.
    revert Hc. clear. destruct c; try done; by vm_compute.
  - rewrite decide_False by congruence. apply name_checked.
Qed.

(** C29: the check of host names accepts a name exactly when its comment defines it
    as well formed: labels of 1 to 63 letters, digits and hyphens that neither
    start nor end with a hyphen, the last one alphabetic, and at most 253
    characters without a trailing dot, in lower or upper case. *)
Theorem valid_hostname_correct s :
  host_part s → ∃ b, validHostname s = Ret b ∧ (b = true ↔ well_formed_hostname s).
Proof. apply host_name_decided. Qed.

(** ** Whole addresses *)

(** What [Valid] looks for; the host is checked by [host_ok]. *)
Definition parts (a t host port : bytes) (p : Z) : Prop :=
  ∃ hp, Split a typeAddressSep = [t; hp] ∧ t ∈ known_types ∧
    SplitHostPort hp = Some (host, port) ∧ Atoi port = Some p ∧ 0 <= p <= 65535.

Lemma connType_known t : connType t ≠ InvalidConnType ↔ t ∈ known_types.
Proof.
  unfold connType. case_decide as E; [|done]. split; [done|]. intros _ ->. vm_compute in E.
  repeat (apply elem_of_cons in E as [E|E]; [discriminate E|]). by apply elem_of_nil in E.
Qed.

Lemma Valid_parts a t host port p :
  parts a t host port p → Valid a = if ParseIP host then Ret true else validHostname host.
Proof.
  intros (hp & Hs & Ht & Hhp & Hp & Hr). unfold Valid. rewrite Hs.
  rewrite decide_False by by apply connType_known. rewrite Hhp, Hp.
  rewrite (proj2 (orb_false_iff _ _)); [done|]. rewrite Z.ltb_ge, Z.ltb_ge. lia.
Qed.

Lemma Valid_no_parts a : (∀ t host port p, ¬ parts a t host port p) → Valid a = Ret false.
Proof.
  intros Hno. unfold Valid. destruct (Split a typeAddressSep) as [|t [|hp [|? ?]]] eqn:Es; [done..| |done].
  case_decide as Ht; [done|]. apply connType_known in Ht.
  destruct (SplitHostPort hp) as [[ip port]|] eqn:Eh; [|done].
  destruct (Atoi port) as [p|] eqn:Ep; [|done].
  destruct ((p <? 0) || (65535 <? p)) eqn:Er; [done|].
  exfalso. apply orb_false_iff in Er as [E1 E2]. apply (Hno t ip port p). exists hp.
  split; [done|]. split; [done|]. split; [done|]. split; [done|]. lia.
Qed.

(** Whether there are such parts is decided by looking. *)
Lemma parts_dec a : (∃ t host port p, parts a t host port p) ∨ (∀ t host port p, ¬ parts a t host port p).
Proof.
  destruct (Split a typeAddressSep) as [|t [|hp [|? ?]]] eqn:Es;
    [right; intros ???? (? & ? & _); congruence..| |right; intros ???? (? & ? & _); congruence].
  destruct (decide (t ∈ known_types)); [|right; intros ???? (? & ? & ? & _); congruence].
  destruct (SplitHostPort hp) as [[host port]|] eqn:Eh; [|right; intros ???? (? & ? & ? & ? & _); congruence].
  destruct (Atoi port) as [p|] eqn:Ep; [|right; intros ???? (? & ? & ? & ? & ? & _); congruence].
  destruct (decide (0 <= p <= 65535)); [left; exists t, host, port, p, hp; auto|].
  right. intros ???? (? & ? & ? & ? & ? & ?). congruence.
Qed.

(** What [Valid] takes an address apart into. *)
Definition taken_apart (a t host port : bytes) (p : Z) : Prop :=
  ∃ hp, Split a typeAddressSep = [t; hp] ∧ SplitHostPort hp = Some (host, port) ∧ Atoi port = Some p.

Lemma parts_apart a t host port p :
  parts a t host port p ↔ taken_apart a t host port p ∧ t ∈ known_types ∧ 0 <= p <= 65535.
Proof. unfold parts, taken_apart. naive_solver. Qed.

(** C28: of an address with one [://], [Valid] says whether the connection type is
    a known one, before a host and a port in range, and the host an IP address or a
    well-formed host name, up to the names that [host_part] leaves out and the port
    65536. *)
Theorem valid_correct a t hp :
  Split a typeAddressSep = [t; hp] →
  (∀ host port p, taken_apart a t host port p → p ≠ 65536 ∧ (ParseIP host = true ∨ host_part host)) →
  ∃ b, Valid a = Ret b ∧
    (b = true ↔ t ∈ known_types ∧ ∃ host port p, taken_apart a t host port p ∧ 0 <= p < 65536 ∧
       (ParseIP host = true ∨ well_formed_hostname host)).
Proof.
  intros Hs Hok. destruct (parts_dec a) as [(t' & host & port & p & H)|Hno].
  - rewrite (Valid_parts _ _ _ _ _ H). apply parts_apart in H as (H & Ht & Hp).
    assert (t' = t) as -> by (destruct H as (? & H & _); congruence).
    assert (∀ host' port' p', taken_apart a t host' port' p' → host' = host) as Hsame.
    { destruct H as (? & H1 & H2 & _). intros ??? (? & H3 & H4 & _). congruence. }
    assert (ParseIP host = true ∨ host_part host) as [Hip|Hpart] by by eapply Hok.
    + rewrite Hip. exists true. split; [done|]. split; [|done]. intros _. split; [done|].
      exists host, port, p. split; [done|]. split; [lia|by left].
    + destruct (ParseIP host) eqn:Hip.
      * exists true. split; [done|]. split; [|done]. intros _. split; [done|].
        exists host, port, p. split; [done|]. split; [lia|by left].
      * destruct (host_name_decided host Hpart) as (b & -> & Hb). exists b. split; [done|]. rewrite Hb. split.
        -- intros Hw. split; [done|]. exists host, port, p. split; [done|]. split; [lia|by right].
        -- intros (_ & h & q & p' & Ha & _ & Hh). rewrite (Hsame _ _ _ Ha) in Hh.
           destruct Hh as [Hh|Hh]; [congruence|done].
  - rewrite Valid_no_parts by done. exists false. split; [done|]. split; [done|].
    intros (Ht & host & port & p & Ha & Hp & _). exfalso. apply (Hno t host port p), parts_apart.
    split; [done|]. split; [done|lia].
Qed.

(** *** The characters of a valid host *)

Lemma Join_Forall (P : byte → Prop) sep l : Forall P sep → Forall (Forall P) l → Forall P (Join sep l).
Proof.
  intros Hs. induction 1 as [|a l Ha Hl IH]; [done|]. destruct l as [|b l]; [done|].
  rewrite Join_cons by done. apply Forall_app. split; [done|]. by apply Forall_app.
Qed.

Definition name_char (b : byte) : Prop := alnum_dash (lower b) = true ∨ lower b = x2e.
Lemma name_char_no b : name_char b → b ≠ x5b ∧ b ≠ x5d ∧ b ≠ x2f.
Proof. intros [H|H]; repeat split; intros ->; discriminate H. Qed.

Lemma hostname_chars n t : hostname n t → Forall (λ b, alnum_dash b = true ∨ b = x2e) t.
Proof.
  intros [_ Hl _]. rewrite <-(Join_Split [x2e] t) by done. apply Join_Forall.
  - by repeat constructor; right.
  - eapply Forall_impl; [exact Hl|]. intros l [_ Hc _ _]. eapply Forall_impl; [exact Hc|]. by left.
Qed.

Lemma validHostname_chars s : forallb is_ascii s = true → validHostname s = Ret true → Forall name_char s.
Proof.
  intros Ha Hv.
  assert (∀ n t, (if (n <? length t)%nat then Ret false
    else if existsb bad_label (Split t [x2e]) then Ret false
    else Ret (matches hostname_regexp t)) = (Ret true : outcome error bool) →
    Forall (λ b, alnum_dash b = true ∨ b = x2e) t) as Hchk.
  { intros n t Ht. apply (hostname_chars n). apply hostname_checks.
    destruct (Nat.ltb_spec n (length t)); [done|]. destruct (existsb _ _); [done|]. injection Ht. auto with lia. }
  destruct s as [|c s _] using rev_ind; [done|].
  assert (Forall (λ b, alnum_dash b = true ∨ b = x2e) (lower <$> (s ++ [c]))) as Hall.
  { revert Hv. unfold validHostname, ToLower. rewrite Ha, fmap_app. cbn [fmap list_fmap].
    rewrite index_last. cbn [obind]. case_decide as Ec; [|by intros ?%Hchk].
    rewrite length_app. replace (length (lower <$> s) + length [lower c] - 1)%nat with (length (lower <$> s)) by (cbn; lia).
    rewrite take_app_length. intros H%Hchk. apply Forall_app. split; [done|].
    constructor; [by right|done]. }
  by apply Forall_fmap in Hall.
Qed.

Definition host_ok (host : bytes) : Prop :=
  ParseIP host = true ∨ (forallb is_ascii host = true ∧ validHostname host = Ret true).

Lemma host_ok_chars host b : host_ok host → b ∈ host → b ≠ x5b ∧ b ≠ x5d ∧ b ≠ x2f.
Proof.
  intros [H|[Ha H]] Hb.
  - apply ParseIP_chars in H. rewrite Forall_forall in H. by apply ip_char_no, H.
  - apply (validHostname_chars host Ha) in H. rewrite Forall_forall in H. by apply name_char_no, H.
Qed.

Lemma digit_no b : is_digit b = true → b ≠ x3a ∧ b ≠ x5b ∧ b ≠ x5d ∧ b ≠ x2f.
Proof. intros H. repeat split; intros ->; discriminate H. Qed.

Lemma Itoa_no c z : 0 <= z < 2 ^ 63 → (∀ b, is_digit b = true → b ≠ c) → c ∉ Itoa z.
Proof.
  intros Hz Hc Hin. destruct (Itoa_digits z Hz) as [Hall _]. rewrite Forall_forall in Hall.
  by apply (Hc c (Hall c Hin)).
Qed.

Lemma parts_NewAddress t host p :
  t ∈ known_types → host_ok host → 0 <= p <= 65535 →
  parts (NewAddress t (JoinHostPort host (Itoa p))) t host (Itoa p) p ∧
  Split (NewAddress t (JoinHostPort host (Itoa p))) typeAddressSep = [t; JoinHostPort host (Itoa p)].
Proof.
  intros Ht Hh Hp. assert (0 <= p < 2 ^ 63) as Hp' by lia.
  assert (Split (NewAddress t (JoinHostPort host (Itoa p))) typeAddressSep = [t; JoinHostPort host (Itoa p)]) as Hs.
  { unfold NewAddress, Split. rewrite (split_cut typeAddressSep x3a); [| |done].
    - rewrite (split_absent typeAddressSep x2f); [done|by apply (bool_decide_unpack _); vm_compute|].
      assert (x2f ∉ Itoa p) by (apply Itoa_no; [done|]; by intros b (?&?&?&?)%digit_no).
      assert (x2f ∉ host) by (intros Hin; by destruct (host_ok_chars host x2f Hh Hin) as (_ & _ & ?)).
      unfold JoinHostPort. destruct (IndexByte host x3a); set_solver.
    - clear -Ht. revert Ht. unfold known_types. rewrite !elem_of_cons.
      intros [->|[->|[->|[->|[]%elem_of_nil]]]]; by apply (bool_decide_unpack _); vm_compute. }
  split; [|done]. exists (JoinHostPort host (Itoa p)). split; [done|]. split; [done|].
  split; [|split; [by apply Atoi_Itoa|done]].
  apply SplitHostPort_Join; try (apply Itoa_no; [done|]; by intros b (?&?&?&?)%digit_no);
    intros Hin; by destruct (host_ok_chars host _ Hh Hin) as (? & ? & ?).
Qed.

Lemma JoinHostPort_not_nil h p : JoinHostPort h p ≠ [].
Proof. unfold JoinHostPort. destruct (IndexByte h x3a); [done|]. by destruct h. Qed.

(** An address made of a known connection type, a valid host and a port is
    valid and gives these back: its type, its network address, its host (the
    unspecified IPv6 address in brackets) and its port; an IP address resolves to
    itself, also in the resolved network address. *)
Theorem address_roundtrip t host p :
  t ∈ known_types → host_ok host → 0 <= p <= 65535 →
  let a := NewAddress t (JoinHostPort host (Itoa p)) in
  Valid a = Ret true ∧ ConnType a = Ret t ∧ NetworkAddress a = Ret (JoinHostPort host (Itoa p)) ∧
  Host a = Ret (if decide (host = str "::") then str "[::]" else host) ∧ Port a = Ret (Itoa p) ∧
  (ParseIP host = true → Resolve a = Ret host ∧ NetworkAddressResolved a = Ret (JoinHostPort host (Itoa p))).
Proof.
  intros Ht Hh Hp a. destruct (parts_NewAddress t host p Ht Hh Hp) as [Hparts Hs]. fold a in Hparts, Hs. clearbody a.
  assert (Valid a = Ret true) as Hv.
  { rewrite (Valid_parts _ _ _ _ _ Hparts). destruct Hh as [->|[_ ->]]; [done|]. by destruct (ParseIP host). }
  destruct Hparts as (hp & Hs' & _ & Hhp & _ & _). rewrite Hs in Hs'. injection Hs' as <-.
  assert (NetworkAddress a = Ret (JoinHostPort host (Itoa p))) as Hna.
  { unfold NetworkAddress. rewrite Hv. cbn [obind negb]. by rewrite Hs. }
  assert (Host a = Ret (if decide (host = str "::") then str "[::]" else host)) as Hho.
  { unfold Host. rewrite Hna. cbn [obind]. rewrite decide_False by apply JoinHostPort_not_nil. by rewrite Hhp. }
  assert (Port a = Ret (Itoa p)) as Hpo.
  { unfold Port. rewrite Hna. cbn [obind]. rewrite decide_False by apply JoinHostPort_not_nil. by rewrite Hhp. }
  split; [done|]. split.
  { unfold ConnType. rewrite Hv. cbn [obind negb]. rewrite Hs, index_0. cbn [obind]. unfold connType. by rewrite decide_True. }
  split; [done|]. split; [done|]. split; [done|]. intros Hip.
  assert (Resolve a = Ret host) as Hr.
  { unfold Resolve. rewrite Hv, Hho. cbn [obind negb]. destruct (decide (host = str "::")) as [->|Hne].
    - by rewrite decide_True.
    - rewrite decide_False; [by rewrite Hip|]. intros ->. discriminate Hip. }
  split; [done|]. unfold NetworkAddressResolved. rewrite Hv, Hr, Hpo. done.
Qed.

End address.
End Addresses.

(** ** Examples and witnesses *)
Module AddressExample.
Import Addresses.

Definition no_lookup (s : bytes) : outcome error (list bytes) := Err "no such host".
Definition valid (s : string) : outcome error bool := Valid (λ s, s) (str s).

(** A trailing dot lets one more character pass; a sign in the port is allowed;
    an empty host panics. *)
Example valid_examples :
  valid <$> ["tcp://127.0.0.1:80"; "tls://epfl.ch:65535"; "tcp://[::1]:+80"; "tcp://epfl.ch:65536";
             "tcp4://127.0.0.1:80"; "tcp://a-.ch:80"; "tcp://:80"; "tcp://::1:80"; "tls:192.168.1.10:5678"]%string =
  [Ret true; Ret true; Ret true; Ret false; Ret false; Ret false; Panic "index out of range"; Ret false; Ret false].
Proof. vm_compute. reflexivity. Qed.

Example public_examples :
  (λ s, Public no_lookup (λ s, s) (str s)) <$>
    ["tcp://8.8.8.8:80"; "tcp://172.16.0.1:80"; "tcp://172.32.0.1:80"; "tcp://[fd00::1]:80"; "tcp://[2001::1]:80"]%string =
  [Ret true; Ret false; Ret true; Ret false; Ret true].
Proof. vm_compute. reflexivity. Qed.

Lemma valid_hostname_correct_witness :
  ∃ b, validHostname (λ s, s) (str "EPFL.ch.") = Ret b ∧ (b = true ↔ well_formed_hostname (str "EPFL.ch.")).
Proof.
  apply (valid_hostname_correct no_lookup (λ s, s) (str "EPFL.ch.")).
  split; [by vm_compute|]. split; [by vm_compute|]. intros [H _]. discriminate H.
Defined.

Lemma valid_correct_witness :
  let a := str "tls://EPFL.ch:65535" in
  Valid (λ s, s) a = Ret true ∧
  ∃ b, Valid (λ s, s) a = Ret b ∧
    (b = true ↔ str "tls" ∈ known_types ∧ ∃ host port p, taken_apart a (str "tls") host port p ∧ 0 <= p < 65536 ∧
       (ParseIP host = true ∨ well_formed_hostname host)).
Proof.
  split; [by vm_compute|].
  apply (valid_correct no_lookup (λ s, s) (str "tls://EPFL.ch:65535") (str "tls") (str "EPFL.ch:65535")); [by vm_compute|].
  intros host port p (hp & Hs & Hh & Hp).
  assert (Split (str "tls://EPFL.ch:65535") typeAddressSep = [str "tls"; str "EPFL.ch:65535"]) as Hs' by by_vm.
  rewrite Hs in Hs'. injection Hs' as ->.
  assert (SplitHostPort (str "EPFL.ch:65535") = Some (str "EPFL.ch", str "65535")) as Hh' by by_vm.
  rewrite Hh in Hh'. injection Hh' as -> ->.
  assert (Atoi (str "65535") = Some 65535) as Hp' by by_vm. rewrite Hp in Hp'. injection Hp' as ->.
  split; [done|]. right. split; [by vm_compute|]. split; [by vm_compute|]. intros [H _]. discriminate H.
Defined.

Lemma address_roundtrip_witness :
  let a := NewAddress (str "tls") (JoinHostPort (str "2001:db8::1") (Itoa 7770)) in
  a = str "tls://[2001:db8::1]:7770" ∧
  Host (λ s, s) a = Ret (str "2001:db8::1") ∧ Port (λ s, s) a = Ret (str "7770").
Proof.
  split; [by vm_compute|].
  destruct (address_roundtrip no_lookup (λ s, s) (str "tls") (str "2001:db8::1") 7770)
    as (_ & _ & _ & H & Hp & _).
  - apply (bool_decide_unpack _). by vm_compute.
  - left. by vm_compute.
  - lia.
  - split; [exact H|exact Hp].
Defined.
End AddressExample.
