(* ===== verification/Wire.v ===== *)
(** * Wire format of the protobuf library ([imported/protobuf])

    The numbers of the wire: machine words as [Z] with their wrap-around, Go's
    [binary.PutUvarint] and [binary.Uvarint], the zigzag code of signed
    integers, and little-endian 32 and 64 bit words, each with its inverse. *)
From S2P Require Import Prelude.
Local Open Scope Z_scope.

(** ** Conversions between integer types *)

(** [uint64(x)], [uint32(x)]; [int64(x)], [int32(x)]. *)
Definition wrapU (w : Z) (x : Z) : Z := x mod 2 ^ w.
Definition wrapS (w : Z) (x : Z) : Z := (x + 2 ^ (w - 1)) mod 2 ^ w - 2 ^ (w - 1).

Lemma wrapU_range w x : 0 <= w → 0 <= wrapU w x < 2 ^ w.
Proof. intros. apply Z.mod_pos_bound. lia. Qed.

Lemma wrapU_small w x : 0 <= x < 2 ^ w → wrapU w x = x.
Proof. intros. by apply Z.mod_small. Qed.

Lemma wrapS_small w x : - 2 ^ (w - 1) <= x < 2 ^ (w - 1) → 0 < w → wrapS w x = x.
Proof.
  intros H Hw. unfold wrapS. rewrite Z.mod_small; [lia|].
  replace (2 ^ w) with (2 * 2 ^ (w - 1)); [lia|].
  rewrite <-Z.pow_succ_r by lia. f_equal. lia.
Qed.

Lemma wrapS_wrapU w x : wrapS w (wrapU w x) = wrapS w x.
Proof. unfold wrapS, wrapU. by rewrite Zplus_mod_idemp_l. Qed.

(** ** Varints *)
Module Varint.

(** [binary.PutUvarint] in a buffer of [MaxVarintLen64] bytes. *)
Fixpoint put_loop (room : nat) (x : Z) : bytes :=
  match room with
  | O => []
  | Datatypes.S room =>
      if x <? 128 then [byte_of x]
      else byte_of (Z.lor x 128) :: put_loop room (Z.shiftr x 7)
  end.
Definition MaxVarintLen64 : nat := 10.
Definition PutUvarint (x : Z) : bytes := put_loop MaxVarintLen64 x.

(** [binary.Uvarint]: the value and the number of bytes read; 0 for a buffer
    that ends early, negative for a value beyond 64 bits. *)
Fixpoint uvarint_loop (buf : bytes) (i x s : Z) : Z * Z :=
  match buf with
  | [] => (0, 0)
  | b :: buf =>
      let b := byte_val b in
      if b <? 128 then
        if (9 <? i) || ((i =? 9) && (1 <? b)) then (0, - (i + 1))
        else (Z.lor x (wrapU 64 (Z.shiftl b s)), i + 1)
      else uvarint_loop buf (i + 1) (Z.lor x (wrapU 64 (Z.shiftl (Z.land b 127) s))) (s + 7)
  end.
Definition Uvarint (buf : bytes) : Z * Z := uvarint_loop buf 0 0 0.

(** [encoder.uvarint] and [encoder.svarint]. *)
Definition uvarint (v : Z) : bytes := PutUvarint v.
Definition svarint (v : Z) : bytes :=
  if 0 <=? v then uvarint (wrapU 64 (Z.shiftl (wrapU 64 v) 1))
  else uvarint (wrapU 64 (Z.lnot (wrapU 64 (wrapS 64 (Z.shiftl v 1))))).

#[global] Arguments uvarint : simpl never.
#[global] Arguments svarint : simpl never.

(** The varint case of [decoder.decodeSignedInt]. *)
Definition unzigzag (v : Z) : Z :=
  let sv := Z.shiftr (wrapS 64 v) 1 in
  if negb (Z.land v 1 =? 0) then Z.lnot sv else sv.

Lemma low_bits v : 0 <= v → byte_val (byte_of (Z.lor v 128)) = v mod 128 + 128.
Proof.
  intros Hv. rewrite byte_val_of.
  replace (v mod 128 + 128) with (Z.lor (v mod 128) 128).
  - replace 256 with (2 ^ 8) by done. replace 128 with (2 ^ 7) at 2 by done.
    apply Z.bits_inj'. intros n Hn.
    rewrite Z.lor_spec. destruct (Z.ltb_spec n 8).
    + rewrite Z.mod_pow2_bits_low, Z.lor_spec by lia. replace 128 with (2 ^ 7) by done.
      rewrite Z.pow2_bits_eqb by lia. destruct (Z.ltb_spec n 7).
      * by rewrite Z.mod_pow2_bits_low by lia.
      * replace n with 7 by lia. cbn. by rewrite !orb_true_r.
    + rewrite Z.mod_pow2_bits_high by lia. symmetry. rewrite orb_false_iff. split.
      * rewrite Z.mod_pow2_bits_high by lia. done.
      * replace 128 with (2 ^ 7) by done. apply Z.pow2_bits_false. lia.
  - rewrite Z.add_nocarry_lxor, Z.lxor_lor; [done|..];
      apply Z.bits_inj'; intros n Hn; rewrite Z.land_spec, Z.bits_0;
      replace 128 with (2 ^ 7) by done; rewrite Z.pow2_bits_eqb by lia;
      destruct (Z.eqb_spec 7 n) as [<-|]; rewrite ?andb_false_r, ?andb_true_r;
      rewrite ?Z.mod_pow2_bits_high by lia; done.
Qed.

Lemma split_low v : 0 <= v → Z.lor (v mod 128) (Z.shiftl (Z.shiftr v 7) 7) = v.
Proof.
  intros Hv. replace 128 with (2 ^ 7) by done. apply Z.bits_inj'. intros n Hn.
  rewrite Z.lor_spec, Z.shiftl_spec by lia. destruct (Z.ltb_spec n 7).
  - rewrite Z.mod_pow2_bits_low, (Z.testbit_neg_r _ (n - 7)) by lia. by rewrite orb_false_r.
  - rewrite Z.mod_pow2_bits_high, Z.shiftr_spec by lia. cbn. f_equal. lia.
Qed.

Lemma shiftr7_lt v e : 0 <= v < 2 ^ (e + 7) → 0 <= e → 0 <= Z.shiftr v 7 < 2 ^ e.
Proof.
  intros H He. rewrite Z.shiftr_div_pow2 by lia. split; [apply Z.div_pos; lia|].
  apply Z.div_lt_upper_bound; [lia|]. rewrite <-Z.pow_add_r by lia. rewrite Z.add_comm. lia.
Qed.

Lemma put_loop_nonempty room x : (0 < length (put_loop (Datatypes.S room) x))%nat.
Proof. cbn. destruct (x <? 128); cbn; lia. Qed.

Lemma shiftl_lt b s e : 0 <= s → 0 <= e → 0 <= b < 2 ^ e → 0 <= Z.shiftl b s < 2 ^ (e + s).
Proof.
  intros Hs He Hb. rewrite Z.shiftl_mul_pow2, Z.pow_add_r by lia. nia.
Qed.

Lemma pow2_le a b : 0 <= a <= b → 2 ^ a <= 2 ^ b.
Proof. intros. apply Z.pow_le_mono_r; lia. Qed.

Lemma uvarint_loop_put room v i x rest :
  Z.of_nat room + i = 10 → 0 <= i <= 9 →
  0 <= v → (i < 9 → v < 2 ^ (64 - 7 * i)) → (i = 9 → v < 2) →
  uvarint_loop (put_loop room v ++ rest) i x (7 * i) =
  (Z.lor x (Z.shiftl v (7 * i)), i + Z.of_nat (length (put_loop room v))).
Proof.
  revert v i x. induction room as [|room IH]; intros v i x Hr Hi Hv Hlt H9; [lia|].
  cbn [put_loop]. destruct (Z.ltb_spec v 128).
  - cbn. rewrite byte_val_of, Z.mod_small by lia.
    destruct (Z.ltb_spec v 128); [|lia].
    destruct (Z.ltb_spec 9 i); [lia|].
    assert (((i =? 9) && (1 <? v)) = false) as -> by (destruct (Z.eqb_spec i 9), (Z.ltb_spec 1 v); lia).
    cbn. f_equal. f_equal. apply wrapU_small. destruct (decide (i = 9)) as [->|].
    + assert (v < 2) by lia. pose proof (shiftl_lt v (7 * 9) 1 ltac:(lia) ltac:(lia) ltac:(lia)) as Hs.
      cbn in Hs |- *. lia.
    + pose proof (shiftl_lt v (7 * i) (64 - 7 * i) ltac:(lia) ltac:(lia) ltac:(lia)) as Hs.
      replace (64 - 7 * i + 7 * i) with 64 in Hs by lia. done.
  - assert (i < 9) as Hi9 by (destruct (decide (i = 9)); lia).
    cbn -[Z.mul]. rewrite low_bits by lia.
    assert (0 <= v mod 128 < 128) by (apply Z.mod_pos_bound; lia).
    destruct (Z.ltb_spec (v mod 128 + 128) 128); [lia|].
    assert (Z.land (v mod 128 + 128) 127 = v mod 128) as ->.
    { replace 127 with (Z.ones 7) by done. rewrite Z.land_ones by lia.
      replace (2 ^ 7) with 128 by done. Z.div_mod_to_equations. lia. }
    replace (7 * i + 7) with (7 * (i + 1)) by lia. rewrite IH; [|lia..| | |].
    + f_equal; [|lia]. rewrite <-Z.lor_assoc. f_equal. rewrite wrapU_small.
      * rewrite <-(split_low v) at 3 by lia. rewrite Z.shiftl_lor, Z.shiftl_shiftl by lia.
        do 2 f_equal. lia.
      * pose proof (shiftl_lt (v mod 128) (7 * i) 7 ltac:(lia) ltac:(lia) ltac:(lia)).
        pose proof (pow2_le (7 + 7 * i) 64 ltac:(lia)). lia.
    + apply Z.shiftr_nonneg. lia.
    + intros. apply shiftr7_lt; [|lia]. replace (64 - 7 * (i + 1) + 7) with (64 - 7 * i) by lia. lia.
    + intros E. assert (v < 2 ^ 8) by (replace 8 with (64 - 7 * i) by lia; lia).
      pose proof (shiftr7_lt v 1 ltac:(lia) ltac:(lia)). cbn in *. lia.
Qed.

Lemma uvarint_read v rest :
  0 <= v < 2 ^ 64 → Uvarint (uvarint v ++ rest) = (v, Z.of_nat (length (uvarint v))).
Proof.
  intros Hv. unfold Uvarint, uvarint, PutUvarint.
  pose proof (uvarint_loop_put MaxVarintLen64 v 0 0 rest) as H. change (7 * 0) with 0 in H.
  rewrite H by (unfold MaxVarintLen64; lia). by rewrite Z.shiftl_0_r, Z.lor_0_l.
Qed.

Lemma uvarint_pos v : (0 < length (uvarint v))%nat.
Proof. apply put_loop_nonempty. Qed.

(** What is read is in the buffer. *)
Lemma uvarint_loop_bound buf i x s :
  0 <= i → (uvarint_loop buf i x s).2 <= i + Z.of_nat (length buf).
Proof.
  revert i x s. induction buf as [|b buf IH]; intros i x s Hi; cbn [uvarint_loop length]; [cbn; lia|].
  destruct (byte_val b <? 128).
  - destruct (_ || _); cbn; lia.
  - specialize (IH (i + 1) (Z.lor x (wrapU 64 (Z.shiftl (Z.land (byte_val b) 127) s))) (s + 7)
                   ltac:(lia)). lia.
Qed.

Lemma Uvarint_bound buf : (Uvarint buf).2 <= Z.of_nat (length buf).
Proof. unfold Uvarint. pose proof (uvarint_loop_bound buf 0 0 0). lia. Qed.

(** A varint of more than ten bytes, or beyond 64 bits, is refused. *)
Lemma Uvarint_overflow bs b rest :
  length bs = 9%nat → Forall (λ b, 128 <= byte_val b) bs → 2 <= byte_val b →
  (Uvarint (bs ++ b :: rest)).2 <= 0 ∨ 128 <= byte_val b.
Proof.
  intros Hl Hbs Hb. destruct (Z.ltb_spec (byte_val b) 128); [left|lia]. unfold Uvarint.
  assert (∀ k x s, k + Z.of_nat (length bs) = 9 →
    (uvarint_loop (bs ++ b :: rest) k x s).2 <= 0) as Hk; [|apply Hk; lia].
  clear Hl. induction Hbs as [|c bs Hc Hbs IH]; intros k x s Hk; cbn in Hk |- *.
  - destruct (Z.ltb_spec (byte_val b) 128); [|lia].
    replace k with 9 by lia. cbn. destruct (Z.ltb_spec 1 (byte_val b)); cbn; lia.
  - destruct (Z.ltb_spec (byte_val c) 128); [lia|]. apply IH. lia.
Qed.

Lemma zigzag_range v : - 2 ^ 63 <= v < 2 ^ 63 →
  svarint v = uvarint (if 0 <=? v then 2 * v else - 2 * v - 1) ∧
  0 <= (if 0 <=? v then 2 * v else - 2 * v - 1) < 2 ^ 64.
Proof.
  intros Hv. unfold svarint. destruct (Z.leb_spec 0 v).
  - rewrite (wrapU_small 64 v), Z.shiftl_mul_pow2, wrapU_small by lia. split; [f_equal; lia|lia].
  - split; [|lia]. f_equal. rewrite Z.shiftl_mul_pow2 by lia. unfold Z.lnot, wrapU, wrapS.
    change (2 ^ (64 - 1)) with (2 ^ 63). Z.div_mod_to_equations. lia.
Qed.

(** The shift in [decodeSignedInt] is the one of [int64], which keeps the sign:
    only 63 bits come back. *)
Lemma unzigzag_zigzag v : - 2 ^ 63 <= v < 2 ^ 63 →
  unzigzag (if 0 <=? v then 2 * v else - 2 * v - 1) = wrapS 63 v.
Proof.
  intros Hv. unfold unzigzag.
  assert (∀ x, Z.land x 1 = x mod 2) as Hland by (intros x; by apply (Z.land_ones x 1)).
  rewrite Hland, Z.shiftr_div_pow2 by lia. unfold Z.lnot, wrapS.
  change (2 ^ (64 - 1)) with (2 ^ 63). change (2 ^ 1) with 2. change (2 ^ (63 - 1)) with (2 ^ 62).
  destruct (Z.leb_spec 0 v);
    match goal with |- context [?x =? 0] => destruct (Z.eqb_spec x 0) end; cbn [negb];
    Z.div_mod_to_equations; lia.
Qed.

Lemma unzigzag_small v : - 2 ^ 62 <= v < 2 ^ 62 →
  unzigzag (if 0 <=? v then 2 * v else - 2 * v - 1) = v.
Proof. intros Hv. rewrite unzigzag_zigzag by lia. apply wrapS_small; lia. Qed.
End Varint.

(** ** Little-endian words *)
Module Fixed.

(** [encoder.u32] and [encoder.u64]. *)
Definition u32 (v : Z) : bytes :=
  [byte_of v; byte_of (Z.shiftr v 8); byte_of (Z.shiftr v 16); byte_of (Z.shiftr v 24)].
Definition u64 (v : Z) : bytes :=
  [byte_of v; byte_of (Z.shiftr v 8); byte_of (Z.shiftr v 16); byte_of (Z.shiftr v 24);
   byte_of (Z.shiftr v 32); byte_of (Z.shiftr v 40); byte_of (Z.shiftr v 48);
   byte_of (Z.shiftr v 56)].

(** The fixed-size cases of [decoder.value]: the bytes of a word, lowest
    first. *)
Fixpoint le_word (l : bytes) : Z :=
  match l with
  | [] => 0
  | b :: l => Z.lor (byte_val b) (Z.shiftl (le_word l) 8)
  end.

Definition read_word (n : nat) (buf : bytes) : option (Z * bytes) :=
  if (length buf <? n)%nat then None else Some (le_word (take n buf), drop n buf).

Lemma le_step v : 0 <= v → Z.lor (v mod 256) (Z.shiftl (Z.shiftr v 8) 8) = v.
Proof.
  intros Hv. replace 256 with (2 ^ 8) by done. apply Z.bits_inj'. intros n Hn.
  rewrite Z.lor_spec, Z.shiftl_spec by lia. destruct (Z.ltb_spec n 8).
  - rewrite Z.mod_pow2_bits_low, (Z.testbit_neg_r _ (n - 8)) by lia. by rewrite orb_false_r.
  - rewrite Z.mod_pow2_bits_high, Z.shiftr_spec by lia. cbn. f_equal. lia.
Qed.

(** The bytes of [v], lowest first. *)
Fixpoint le_bytes (n : nat) (v : Z) : bytes :=
  match n with
  | O => []
  | Datatypes.S n => byte_of v :: le_bytes n (Z.shiftr v 8)
  end.

Lemma le_word_bytes n v : 0 <= v < 2 ^ (8 * Z.of_nat n) → le_word (le_bytes n v) = v.
Proof.
  revert v. induction n as [|n IH]; intros v Hv; cbn [le_bytes le_word].
  { cbn in Hv. lia. }
  rewrite byte_val_of, IH, le_step; [done|lia|].
  rewrite Z.shiftr_div_pow2 by lia. split; [apply Z.div_pos; lia|].
  apply Z.div_lt_upper_bound; [lia|]. rewrite <-Z.pow_add_r by lia.
  replace (8 + 8 * Z.of_nat n) with (8 * Z.of_nat (Datatypes.S n)) by lia. lia.
Qed.

Lemma u32_bytes v : u32 v = le_bytes 4 v.
Proof. cbn. by rewrite !Z.shiftr_shiftr by lia. Qed.
Lemma u64_bytes v : u64 v = le_bytes 8 v.
Proof. cbn. by rewrite !Z.shiftr_shiftr by lia. Qed.

Lemma read_u32 v rest : 0 <= v < 2 ^ 32 → read_word 4 (u32 v ++ rest) = Some (v, rest).
Proof.
  intros Hv. unfold read_word. rewrite length_app. cbn [length u32].
  destruct (Nat.ltb_spec (4 + length rest) 4); [lia|].
  rewrite take_app_length', drop_app_length' by done. by rewrite u32_bytes, le_word_bytes.
Qed.
Lemma read_u64 v rest : 0 <= v < 2 ^ 64 → read_word 8 (u64 v ++ rest) = Some (v, rest).
Proof.
  intros Hv. unfold read_word. rewrite length_app. cbn [length u64].
  destruct (Nat.ltb_spec (8 + length rest) 8); [lia|].
  rewrite take_app_length', drop_app_length' by done. by rewrite u64_bytes, le_word_bytes.
Qed.
End Fixed.
