(* ===== verification/Protobuf.v ===== *)
(** * The protobuf library ([imported/protobuf])

    The library encodes Go values by reflection.  [gtype] is what it sees of a
    type, [gvalue] a value of it; recursive types are represented by their
    unfolding to the depth of the message at hand.  [Fields] holds [field.go],
    [Interfaces] the registry of [interface.go], [Encoder] and [Decoder] the two
    sides.  The recursion of both follows the value or the message and takes
    fuel; every part of a function that calls back into the recursion is a
    definition of its own with the recursive call as an argument [rec].  A panic
    inside is an outcome, [Encode] and [DecodeWithConstructors] recover it. *)
From S2P Require Import Prelude Wire.
From Stdlib Require Import Strings.Ascii.
Local Open Scope Z_scope.

(** ** Go types and values as seen by reflection *)

(** What a struct declares of a field: its name, whether it is exported, whether
    it is embedded ([Anonymous]) and its [protobuf] tag. *)
Record StructField := {
  Name : string;
  exported : bool;
  Anonymous : bool;
  Tag : string;
}.

(** The types the library tells apart by identity are constructors; any other
    defined type is [TNamed] with its underlying type.  Types are finite: a Go
    type that contains itself is not among them, only its unfoldings to a depth
    (as [TTreeMarshal] of [TreeCodec]). *)
Inductive gtype :=
  | TBool | TInt | TInt32 | TInt64 | TUint | TUint8 | TUint32 | TUint64
  | TSfixed32 | TSfixed64 | TUfixed32 | TUfixed64
  | TFloat32 | TFloat64 | TString | TTime
  | TNamed (name : string) (underlying : gtype)
  | TStruct (fs : list (StructField * gtype))
  | TPtr (t : gtype)
  | TSlice (t : gtype)
  | TArray (n : nat) (t : gtype)
  | TMap (k v : gtype)
  | TInterface (name : string)
  | TOther (name : string).

Section gtype_ind.
Context (P : gtype → Prop).
Context (Hleaf : ∀ t, match t with TNamed _ _ | TStruct _ | TPtr _ | TSlice _ | TArray _ _ | TMap _ _ => False
                      | _ => True end → P t).
Context (Hnamed : ∀ n u, P u → P (TNamed n u)).
Context (Hstruct : ∀ fs, Forall (λ f, P f.2) fs → P (TStruct fs)).
Context (Hptr : ∀ u, P u → P (TPtr u)).
Context (Hslice : ∀ u, P u → P (TSlice u)).
Context (Harray : ∀ n u, P u → P (TArray n u)).
Context (Hmap : ∀ k u, P k → P u → P (TMap k u)).

Fixpoint gtype_nested_ind (t : gtype) : P t :=
  match t with
  | TNamed n u => Hnamed n u (gtype_nested_ind u)
  | TStruct fs =>
      Hstruct fs ((fix go fs : Forall (λ f, P f.2) fs :=
        match fs with
        | [] => Forall_nil_2 _
        | f :: fs => Forall_cons_2 _ f fs (gtype_nested_ind f.2) (go fs)
        end) fs)
  | TPtr u => Hptr u (gtype_nested_ind u)
  | TSlice u => Hslice u (gtype_nested_ind u)
  | TArray n u => Harray n u (gtype_nested_ind u)
  | TMap k u => Hmap k u (gtype_nested_ind k) (gtype_nested_ind u)
  | t => Hleaf t I
  end.
End gtype_ind.

#[global] Instance StructField_eq_dec : EqDecision StructField.
Proof. solve_decision. Defined.
#[global] Instance gtype_eq_dec : EqDecision gtype.
Proof.
  unfold EqDecision, Decision. fix go 1. intros a b.
  decide equality; first [exact (String.eq_dec _ _) | exact (Nat.eq_dec _ _) | idtac].
  clear a b. revert fs fs0. fix gos 1. intros l k.
  destruct l as [|[f t] l], k as [|[f' t'] k]; [by left|by right|by right|].
  destruct (go t t') as [Ht|]; [|right; congruence].
  destruct (StructField_eq_dec f f') as [Hf|]; [|right; congruence].
  destruct (gos l k) as [Hl|]; [left; congruence|right; congruence].
Defined.

Inductive Kind :=
  | Bool | Int | Int32 | Int64 | Uint | Uint8 | Uint32 | Uint64 | Float32 | Float64
  | String_ | Struct | Ptr | Slice | Array | Map | Interface | OtherKind.

#[global] Instance Kind_eq_dec : EqDecision Kind.
Proof. solve_decision. Defined.

(** [reflect.Type.Kind] and [Elem]. *)
Fixpoint kind (t : gtype) : Kind :=
  match t with
  | TBool => Bool | TInt => Int | TInt32 | TSfixed32 => Int32 | TInt64 | TSfixed64 => Int64
  | TUint => Uint | TUint8 => Uint8 | TUint32 | TUfixed32 => Uint32
  | TUint64 | TUfixed64 => Uint64 | TFloat32 => Float32 | TFloat64 => Float64
  | TString => String_ | TTime => Struct | TNamed _ u => kind u | TStruct _ => Struct
  | TPtr _ => Ptr | TSlice _ => Slice | TArray _ _ => Array | TMap _ _ => Map
  | TInterface _ => Interface | TOther _ => OtherKind
  end.

Fixpoint Elem (t : gtype) : gtype :=
  match t with
  | TNamed _ u => Elem u
  | TPtr t | TSlice t | TArray _ t | TMap _ t => t
  | _ => TOther "no element type"
  end.

Fixpoint Key (t : gtype) : gtype :=
  match t with TNamed _ u => Key u | TMap k _ => k | _ => TOther "no key type" end.

Fixpoint array_len (t : gtype) : nat :=
  match t with TNamed _ u => array_len u | TArray n _ => n | _ => O end.

(** The fields of a struct type; [time.Time] has only unexported ones. *)
Fixpoint fields_of (t : gtype) : option (list (StructField * gtype)) :=
  match t with
  | TNamed _ u => fields_of u
  | TStruct fs => Some fs
  | TTime =>
      let f n := {| Name := n; exported := false; Anonymous := false; Tag := "" |} in
      Some [(f "wall"%string, TUint64); (f "ext"%string, TInt64);
            (f "loc"%string, TPtr (TNamed "Location" (TStruct [])))]
  | _ => None
  end.

(** Values.  Integers are in the range of their type, floats are their bits,
    times are seconds and nanoseconds since 1970; slices and arrays of bytes are
    [VBytes], other ones [VSeq]; nil pointers, slices, maps and interfaces are
    [VNil]; a map is the list of its entries in iteration order; an interface
    holds a value with its dynamic type. *)
Inductive gvalue :=
  | VBool (b : bool)
  | VInt (z : Z)
  | VFloat32 (bits : Z)
  | VFloat64 (bits : Z)
  | VString (s : bytes)
  | VTime (sec nsec : Z)
  | VStruct (vs : list gvalue)
  | VNil
  | VPtr (v : gvalue)
  | VSeq (vs : list gvalue)
  | VBytes (b : bytes)
  | VMap (l : list (gvalue * gvalue))
  | VIface (t : gtype) (v : gvalue).

(** [reflect.Zero]; the zero time is January 1 of year 1. *)
Fixpoint zero (t : gtype) : gvalue :=
  match t with
  | TBool => VBool false
  | TInt | TInt32 | TInt64 | TUint | TUint8 | TUint32 | TUint64
  | TSfixed32 | TSfixed64 | TUfixed32 | TUfixed64 => VInt 0
  | TFloat32 => VFloat32 0
  | TFloat64 => VFloat64 0
  | TString => VString []
  | TTime => VTime (-62135596800) 0
  | TNamed _ u => zero u
  | TStruct fs => VStruct (map (λ f, zero f.2) fs)
  | TArray n t =>
      if decide (kind t = Uint8) then VBytes (repeat x00 n) else VSeq (repeat (zero t) n)
  | TPtr _ | TSlice _ | TMap _ _ | TInterface _ | TOther _ => VNil
  end.

Definition is_nil (v : gvalue) : bool := match v with VNil => true | _ => false end.

(** The methods of the user's types: which interfaces a type implements, and its
    [MarshalBinary], [MarshalID] and [UnmarshalBinary] when it has them. *)
Class Methods := {
  implements : gtype → string → bool;
  MarshalBinary : gtype → option (gvalue → outcome error bytes);
  MarshalID : gtype → option (gvalue → bytes);
  UnmarshalBinary : gtype → option (bytes → gvalue → outcome error gvalue);
}.

(** ** [interface.go] *)
Module Interfaces.
Section interfaces.
Context {M : Methods}.

(** A generator function makes a new value with its type. *)
Abbreviation generatorRegistry := (gmap bytes (gtype * gvalue)).

Definition newInterfaceRegistry : generatorRegistry := ∅.

Definition register (ir : generatorRegistry) (g : gtype * gvalue) : outcome error generatorRegistry :=
  match MarshalBinary g.1, MarshalID g.1 with
  | Some _, Some id => Ret (<[id g.2 := g]> ir)
  | _, _ => Panic "Implementation of the interface must fulfilled InterfaceMarshaler"
  end.

Definition get (ir : generatorRegistry) (key : bytes) : option (gtype * gvalue) := ir !! key.
End interfaces.
End Interfaces.

(** ** [field.go] *)
Module Fields.

Inductive TagPrefix := TagNone | TagOptional | TagRequired.

#[global] Instance TagPrefix_eq_dec : EqDecision TagPrefix.
Proof. solve_decision. Defined.

(** [strings.Split(s, ",")]. *)
Fixpoint split_comma (s : string) : list string :=
  match s with
  | EmptyString => [EmptyString]
  | String a s =>
      match split_comma s with
      | [] => []
      | p :: ps => if decide (a = ","%char) then EmptyString :: p :: ps else String a p :: ps
      end
  end.

Definition digit (a : ascii) : option Z :=
  let n := Z.of_N (Ascii.N_of_ascii a) - 48 in
  if (0 <=? n) && (n <=? 9) then Some n else None.
Fixpoint digits (acc : Z) (s : string) : option Z :=
  match s with
  | EmptyString => Some acc
  | String a s => d ← digit a; digits (10 * acc + d) s
  end.

(** [strconv.Atoi]. *)
Definition Atoi (s : string) : option Z :=
  let in_range z := if (- 2 ^ 63 <=? z) && (z <? 2 ^ 63) then Some z else None in
  let unsigned s := match s with EmptyString => None | _ => digits 0 s end in
  match s with
  | String a s' =>
      if decide (a = "-"%char) then z ← unsigned s'; in_range (- z)
      else if decide (a = "+"%char) then z ← unsigned s'; in_range z
      else z ← unsigned s; in_range z
  | EmptyString => None
  end.

Definition ParseTag (field : StructField) : Z * TagPrefix * string :=
  if decide (Tag field = ""%string) then (0, TagNone, ""%string)
  else
    foldl (λ '(id, opt, name) part,
      if decide (part = "opt"%string) then (id, TagOptional, name)
      else if decide (part = "req"%string) then (id, TagRequired, name)
      else match Atoi part with
           | None => (id, opt, part)
           | Some i => (i, opt, name)
           end) (0, TagNone, ""%string) (split_comma (Tag field)).

Record ProtoField := {
  ID : Z;
  Prefix : TagPrefix;
  pf_Name : string;
  Index : list nat;
  Field : StructField * gtype;
}.

Definition Required (p : ProtoField) : bool :=
  bool_decide (Prefix p = TagRequired) || negb (bool_decide (kind (Field p).2 = Ptr)).

Definition prepend (i : nat) (p : ProtoField) : ProtoField :=
  {| ID := ID p; Prefix := Prefix p; pf_Name := pf_Name p; Index := i :: Index p;
     Field := Field p |}.

(** The loop of [innerFieldIndexes] over the fields of a struct, from number [i];
    [rec] is the call for an embedded field. *)
Definition inner_loop (rec : gtype → Z → outcome error (list ProtoField * Z)) :=
  fix go (i : nat) (id : Z) (fs : list (StructField * gtype)) {struct fs}
      : outcome error (list ProtoField * Z) :=
    match fs with
    | [] => Ret ([], id)
    | (f, ft) :: fs =>
        let id := wrapS 64 (id + 1) in
        let '(tid, prefix, name) := ParseTag f in
        let id := if tid =? 0 then id else tid in
        if Anonymous f then
          let! (inners, id) := rec ft (wrapS 64 (id - 1)) in
          let! (out, id) := go (Datatypes.S i) id fs in
          Ret ((prepend i <$> inners) ++ out, id)
        else
          let! (out, id') := go (Datatypes.S i) id fs in
          Ret ({| ID := id; Prefix := prefix; pf_Name := name; Index := [i]; Field := (f, ft) |}
               :: out, id')
    end.

(** The fields of a type with the last ID used. *)
Fixpoint innerFieldIndexes (t : gtype) (id : Z) {struct t} : outcome error (list ProtoField * Z) :=
  match t with
  | TPtr t | TNamed _ t => innerFieldIndexes t id
  | TStruct fs => inner_loop innerFieldIndexes 0%nat id fs
  | TTime => inner_loop (λ _ id, Ret ([], id)) 0%nat id (default [] (fields_of TTime))
  | _ => Panic "reflect: NumField of non-struct type"
  end.

Fixpoint first_reused (seen : list Z) (idx : list ProtoField) : option Z :=
  match idx with
  | [] => None
  | i :: idx => if decide (ID i ∈ seen) then Some (ID i) else first_reused (ID i :: seen) idx
  end.

(** The cache only saves work. *)
Definition ProtoFields (t : gtype) : outcome error (list ProtoField) :=
  let! (idx, _) := innerFieldIndexes t 0 in
  match first_reused [] idx with
  | Some _ => Panic "protobuf ID reused"
  | None => Ret idx
  end.
End Fields.

(** ** Floats and times *)

(** [float32(float64(f))]: only a signalling NaN changes, to a quiet one. *)
Definition f32_via_f64 (bits : Z) : Z :=
  if (Z.land bits 0x7f800000 =? 0x7f800000) && negb (Z.land bits 0x7fffff =? 0)
  then Z.lor bits 0x400000 else bits.

(** [time.Time.UnixNano] and [time.Unix]. *)
Definition UnixNano (sec nsec : Z) : Z := wrapS 64 (sec * 1000000000 + nsec).
Definition time_Unix (sec nsec : Z) : gvalue :=
  VTime (sec + nsec / 1000000000) (nsec mod 1000000000).

(** ** [encode.go] *)
Module Encoder.
Import Varint Fixed Fields.
Section encoder.
Context {M : Methods} (gens : gmap bytes (gtype * gvalue)).

(** What a call writes to the buffer. *)
Abbreviation W := (outcome error bytes).

(** [reflect.Value.FieldByIndex]: the field's type, its value and whether it can
    be set: it is addressable and no unexported field was used on the way, other
    than to embed. *)
Fixpoint FieldByIndex (path : list nat) (t : gtype) (v : gvalue) (addr sticky : bool)
    : outcome error (gtype * gvalue * bool) :=
  match path, fields_of t with
  | i :: path', Some fs =>
      match fs !! i with
      | None => Panic "reflect: Field index out of range"
      | Some (f, ft) =>
          let sticky := sticky || (negb (exported f) && negb (Anonymous f)) in
          match v with
          | VStruct vs =>
              match vs !! i with
              | None => Panic "reflect: Field index out of range"
              | Some x =>
                  match path' with
                  | [] => Ret (ft, x, addr && negb sticky && exported f)
                  | _ =>
                      if decide (kind ft = Ptr) then
                        match x with
                        | VPtr y => FieldByIndex path' (Elem ft) y true sticky
                        | _ => Panic "reflect: indirection through nil pointer to embedded struct"
                        end
                      else FieldByIndex path' ft x addr sticky
                  end
              end
          | _ => Ret (ft, VNil, false)
          end
      end
  | _, _ => Panic "reflect: Field of non-struct type"
  end.

Section rec.
Context (rec : Z → gtype → bool → gvalue → TagPrefix → W).

(** [encoder.message]: a panic gets the name of the field at hand. *)
Definition in_field {A} (name : string) (c : outcome error A) : outcome error A :=
  match c with Panic w => Panic (w +:+ " (field " +:+ name +:+ ")") | _ => c end.

Definition encode_field (sval : gtype * gvalue * bool) (acc : bytes * bool) (index : ProtoField)
    : outcome error (bytes * bool) :=
  let '(en, noPublicFields) := acc in
  let '(t, v, addr) := sval in
  in_field (Name (Field index).1)
    (let! (ft, field, CanSet) := FieldByIndex (Index index) t v addr false in
     let key := wrapU 64 (Z.shiftl (wrapU 64 (ID index)) 3) in
     if CanSet : bool then
       let! b := rec key ft true field (Prefix index) in Ret (en ++ b, false)
     else Ret (en, noPublicFields)).

Definition message (t : gtype) (addr : bool) (v : gvalue) : W :=
  let! protoFields := ProtoFields t in
  match last protoFields with
  | None => Ret []
  | Some index =>
      let! (en, noPublicFields) := ofoldM (encode_field (t, v, addr)) ([], true) protoFields in
      if noPublicFields : bool then
        in_field (Name (Field index).1) (Panic "struct has no serializable fields")
      else Ret en
  end.

(** [en.uvarint(key | 2)], the length and the bytes. *)
Definition delimited (key : Z) (b : bytes) : bytes :=
  uvarint (Z.lor key 2) ++ uvarint (wrapU 64 (Z.of_nat (length b))) ++ b.

Definition elems (v : gvalue) : list gvalue := match v with VSeq l => l | _ => [] end.
Definition bytes_of (v : gvalue) : bytes := match v with VBytes b => b | _ => [] end.
Definition int_of (v : gvalue) : Z := match v with VInt z => z | _ => 0 end.
Definition bool_of (v : gvalue) : Z := match v with VBool true => 1 | _ => 0 end.
Definition bits_of (v : gvalue) : Z :=
  match v with VFloat32 b | VFloat64 b => b | _ => 0 end.
Definition string_of (v : gvalue) : bytes := match v with VString s => s | _ => [] end.

Definition packed (key : Z) (f : gvalue → bytes) (v : gvalue) : W :=
  Ret (delimited key (elems v ≫= f)).

Definition sliceReflect (key : Z) (t : gtype) (addr : bool) (slval : gvalue) : W :=
  let slelt := Elem t in
  match kind t with
  | Slice | Array =>
      match kind slelt with
      | Bool => packed key (λ x, uvarint (bool_of x)) slval
      | Int | Int32 | Int64 => packed key (λ x, svarint (int_of x)) slval
      | Uint32 | Uint64 => packed key (λ x, uvarint (int_of x)) slval
      | Float32 => packed key (λ x, u32 (f32_via_f64 (bits_of x))) slval
      | Float64 => packed key (λ x, u64 (bits_of x)) slval
      | Uint8 =>
          match slelt with
          | TUint8 => Ret (delimited key (bytes_of slval))
          | _ => Panic "reflect.Value.Convert: not convertible to []uint8"
          end
      | k =>
          if (bool_decide (k = Slice) || bool_decide (k = Array))
             && negb (bool_decide (kind (Elem slelt) = Uint8))
          then Panic "protobuf: no support for 2-dimensional array except for [][]byte"
          else
            (* the elements of a slice are addressable, those of an array if it is *)
            ofoldM (λ en x, let! b := rec key slelt (bool_decide (kind t = Slice) || addr) x TagNone in
                            Ret (en ++ b)) [] (elems slval)
      end
  | _ => Panic "no slice passed"
  end.

Definition slice (key : Z) (t : gtype) (addr : bool) (slval : gvalue) : W :=
  match t with
  | TSlice TBool => packed key (λ x, uvarint (bool_of x)) slval
  | TSlice TInt32 | TSlice TInt64 => packed key (λ x, svarint (int_of x)) slval
  | TSlice TUint32 | TSlice TUint64 => packed key (λ x, uvarint (int_of x)) slval
  | TSlice TSfixed32 | TSlice TUfixed32 => packed key (λ x, u32 (wrapU 32 (int_of x))) slval
  | TSlice TSfixed64 | TSlice TUfixed64 => packed key (λ x, u64 (wrapU 64 (int_of x))) slval
  | TSlice TFloat32 => packed key (λ x, u32 (bits_of x)) slval
  | TSlice TFloat64 => packed key (λ x, u64 (bits_of x)) slval
  | TSlice TUint8 => Ret (delimited key (bytes_of slval))
  | TSlice TString => Ret (elems slval ≫= λ x, delimited key (string_of x))
  | _ => sliceReflect key t addr slval
  end.

(** One entry of a map. *)
Definition map_entry (key : Z) (t : gtype) (prefix : TagPrefix) (e : gvalue * gvalue) : W :=
  let '(mkey, mval) := e in
  let bad :=
    match kind (Elem t) with
    | Ptr => if is_nil mval then Some "proto: map has nil element"%string else None
    | Slice | Array =>
        if decide (kind (Elem (Elem t)) = Uint8) then None
        else Some "protobuf: map only support []byte or string as repeated value"%string
    | _ => None
    end in
  match bad with
  | Some w => Panic w
  | None =>
      let! k := rec (Z.shiftl 1 3) (Key t) false mkey prefix in
      let! v := rec (Z.shiftl 2 3) (Elem t) false mval prefix in
      Ret (delimited key (k ++ v))
  end.

Definition handleMap (key : Z) (t : gtype) (mpval : gvalue) (prefix : TagPrefix) : W :=
  ofoldM (λ en e, let! b := map_entry key t prefix e in Ret (en ++ b)) []
         (match mpval with VMap l => l | _ => [] end).

(** The cases of a non-nil interface. *)
Definition encode_interface (key : Z) (dt : gtype) (x : gvalue) (prefix : TagPrefix) : W :=
  match MarshalBinary dt with
  | Some marshal =>
      match marshal x with
      | Err e => Panic e
      | c =>
          let! b := c in
          let tag :=
            match MarshalID dt with
            | Some MarshalID => match Interfaces.get gens (MarshalID x) with
                                | Some _ => MarshalID x
                                | None => []
                                end
            | None => []
            end in
          let size := Z.of_nat (length b + length tag) in
          Ret (uvarint (Z.lor key 2) ++ uvarint (wrapU 64 size) ++ tag ++ b)
      end
  | None => rec key dt false x prefix
  end.

(** The first switch of [encoder.value], on the exact type. *)
Definition fixed_value (key : Z) (t : gtype) (v : gvalue) : option bytes :=
  match t with
  | TBool => Some (uvarint (Z.lor key 0) ++ uvarint (bool_of v))
  | TInt | TInt32 | TInt64 => Some (uvarint (Z.lor key 0) ++ svarint (int_of v))
  | TTime =>
      match v with
      | VTime sec nsec => Some (uvarint (Z.lor key 1) ++ u64 (wrapU 64 (UnixNano sec nsec)))
      | _ => None
      end
  | TUint32 | TUint64 => Some (uvarint (Z.lor key 0) ++ uvarint (int_of v))
  | TSfixed32 | TUfixed32 => Some (uvarint (Z.lor key 5) ++ u32 (wrapU 32 (int_of v)))
  | TSfixed64 | TUfixed64 => Some (uvarint (Z.lor key 1) ++ u64 (wrapU 64 (int_of v)))
  | TFloat32 => Some (uvarint (Z.lor key 5) ++ u32 (bits_of v))
  | TFloat64 => Some (uvarint (Z.lor key 1) ++ u64 (bits_of v))
  | TString => Some (delimited key (string_of v))
  | _ => None
  end.

(** The second switch, on the kind. *)
Definition kind_value (key : Z) (t : gtype) (addr : bool) (v : gvalue) (prefix : TagPrefix) : W :=
  match kind t with
  | Bool => Ret (uvarint (Z.lor key 0) ++ uvarint (bool_of v))
  | Int | Int32 | Int64 => Ret (uvarint (Z.lor key 0) ++ svarint (int_of v))
  | Uint32 | Uint64 => Ret (uvarint (Z.lor key 0) ++ uvarint (int_of v))
  | Float32 => Ret (uvarint (Z.lor key 5) ++ u32 (f32_via_f64 (bits_of v)))
  | Float64 => Ret (uvarint (Z.lor key 1) ++ u64 (bits_of v))
  | String_ => Ret (delimited key (string_of v))
  | Struct => let! b := message t addr v in Ret (delimited key b)
  | Slice | Array => slice key t addr v
  | Ptr =>
      match v with
      | VPtr x => rec key (Elem t) true x prefix
      | _ => if decide (prefix = TagRequired) then Panic "required field is nil" else Ret []
      end
  | Interface =>
      match v with VIface dt x => encode_interface key dt x prefix | _ => Ret [] end
  | Map => handleMap key t v prefix
  | Uint | Uint8 | OtherKind => Panic "unsupported field Kind"
  end.
End rec.

Fixpoint value (fuel : nat) (key : Z) (t : gtype) (addr : bool) (v : gvalue) (prefix : TagPrefix) : W :=
  match fuel with
  | O => OutOfFuel
  | Datatypes.S fuel =>
      match fixed_value key t v with
      | Some b => Ret b
      | None => kind_value (value fuel) key t addr v prefix
      end
  end.

(** [Encode].  The argument is nil or a value with its type.  The panic of a nil
    pointer is a [*reflect.ValueError], on which the assertion of the recovery
    panics again. *)
Definition Encode (fuel : nat) (structPtr : option (gtype * gvalue)) : W :=
  match structPtr with
  | None => Ret []
  | Some (t, v) =>
      if decide (kind t = Ptr) then
        match v with
        | VPtr x => recover_panic (message (value fuel) (Elem t) true x)
        | _ => Panic "interface conversion: interface {} is *reflect.ValueError, not string"
        end
      else Err "encode takes a pointer to struct"
  end.
End encoder.
End Encoder.

(** ** [decode.go] *)
Module Decoder.
Import Varint Fixed Fields.
Section decoder.
Context {M : Methods} (gens : gmap bytes (gtype * gvalue)).

(** [Constructors]: by the name of the interface, the value that the constructor
    makes. *)
Abbreviation Constructors := (gmap string (gtype * gvalue)).

(** [==] of a map key that was just decoded with a key of the map; a decoded
    pointer is new, and equal to none. *)
Definition nan32 (b : Z) : bool :=
  (Z.land b 0x7f800000 =? 0x7f800000) && negb (Z.land b 0x7fffff =? 0).
Definition nan64 (b : Z) : bool :=
  (Z.land b 0x7ff0000000000000 =? 0x7ff0000000000000) && negb (Z.land b 0xfffffffffffff =? 0).
Fixpoint go_eq (a b : gvalue) : bool :=
  let all := fix all (l k : list gvalue) :=
    match l, k with
    | [], [] => true
    | a :: l, b :: k => go_eq a b && all l k
    | _, _ => false
    end in
  match a, b with
  | VBool a, VBool b => Bool.eqb a b
  | VInt a, VInt b => a =? b
  | VFloat32 a, VFloat32 b =>
      negb (nan32 a) && ((a =? b) || ((Z.land a 0x7fffffff =? 0) && (Z.land b 0x7fffffff =? 0)))
  | VFloat64 a, VFloat64 b =>
      negb (nan64 a) &&
      ((a =? b) || ((Z.land a 0x7fffffffffffffff =? 0) && (Z.land b 0x7fffffffffffffff =? 0)))
  | VString a, VString b | VBytes a, VBytes b => bool_decide (a = b)
  | VTime s n, VTime s' n' => (s =? s') && (n =? n')
  | VStruct l, VStruct k | VSeq l, VSeq k => all l k
  | VNil, VNil => true
  | _, _ => false
  end.

(** [SetMapIndex]. *)
Fixpoint map_set (l : list (gvalue * gvalue)) (k v : gvalue) : list (gvalue * gvalue) :=
  match l with
  | [] => [(k, v)]
  | (k', v') :: l => if go_eq k k' then (k', v) :: l else (k', v') :: map_set l k v
  end.

(** [decoder.decodeSignedInt]. *)
Definition decodeSignedInt (wiretype v : Z) : outcome error Z :=
  if wiretype =? 0 then Ret (unzigzag v)
  else if wiretype =? 5 then Ret (wrapS 32 v)
  else if wiretype =? 1 then Ret (wrapS 64 v)
  else Err "bad wiretype for sint".

(** [decoder.instantiate]: a new value with its type. *)
Definition instantiate (nm : Constructors) (t : gtype) : outcome error (gtype * gvalue) :=
  match kind t, t with
  | Interface, TInterface name | Interface, TNamed name _ =>
      match nm !! name with
      | None => Panic "no constructor for interface"
      | Some g => Ret g
      end
  | _, _ => Ret (TPtr t, VPtr (zero t))
  end.

(** [reflect.Value.Set] of an interface. *)
Definition set_interface (t : gtype) (g : gtype * gvalue) : outcome error gvalue :=
  match t with
  | TInterface name | TNamed name _ =>
      if implements g.1 name then Ret (VIface g.1 g.2)
      else Panic "reflect.Set: value is not assignable to type"
  | _ => Panic "reflect.Set: value is not assignable to type"
  end.

(** Finds the field at [path] for decoding: nil pointers on the way, the field's
    own included, are allocated; [k] decodes into the field. *)
Fixpoint with_field {A} (path : list nat) (t : gtype) (v : gvalue) (addr sticky : bool)
    (k : gtype → bool → gvalue → outcome error (gvalue * A)) {struct path}
    : outcome error (gvalue * A) :=
  match path, fields_of t with
  | i :: path', Some fs =>
      match fs !! i with
      | None => Panic "reflect: Field index out of range"
      | Some (f, ft) =>
          let sticky := sticky || (negb (exported f) && negb (Anonymous f)) in
          let CanSet := addr && negb sticky && exported f in
          match v with
          | VStruct vs =>
              match vs !! i with
              | None => Panic "reflect: Field index out of range"
              | Some x =>
                  let! x :=
                    if bool_decide (kind ft = Ptr) && is_nil x then
                      if CanSet then Ret (VPtr (zero (Elem ft)))
                      else Panic "reflect: reflect.Value.Set using value obtained using unexported field"
                    else Ret x in
                  let! (x, a) :=
                    match path', x with
                    | [], _ => k ft CanSet x
                    | _, VPtr y =>
                        let! (y, a) := with_field path' (Elem ft) y true sticky k in
                        Ret (VPtr y, a)
                    | _, _ => with_field path' ft x addr sticky k
                    end in
                  Ret (VStruct (<[i := x]> vs), a)
              end
          | _ => let! (_, a) := k ft false VNil in Ret (v, a)
          end
      end
  | _, _ => Panic "reflect: Field of non-struct type"
  end.

Section rec.
(** [putvalue]: constructors, wire type, type, settable, value, number, bytes. *)
Context (rec : Constructors → Z → gtype → bool → gvalue → Z → bytes → outcome error gvalue).

(** [decoder.value].  [pull] takes a value of a wire type from the buffer: the
    number, the bytes, and the rest of the buffer. *)
Definition pull (wiretype : Z) (buf : bytes) : outcome error (Z * bytes * bytes) :=
  if wiretype =? 0 then
    let '(v, n) := Uvarint buf in
    if n <=? 0 then Err "bad protobuf varint value"
    else Ret (v, [], drop (Z.to_nat n) buf)
  else if wiretype =? 5 then
    match read_word 4 buf with
    | None => Err "bad protobuf 32-bit value"
    | Some (v, buf) => Ret (v, [], buf)
    end
  else if wiretype =? 1 then
    match read_word 8 buf with
    | None => Err "bad protobuf 64-bit value"
    | Some (v, buf) => Ret (v, [], buf)
    end
  else if wiretype =? 2 then
    let '(v, n) := Uvarint buf in
    if (n <=? 0) || (Z.of_nat (length buf) - n <? v)
    then Err "bad protobuf length-delimited value"
    else
      let buf := drop (Z.to_nat n) buf in
      Ret (v, take (Z.to_nat v) buf, drop (Z.to_nat v) buf)
  else Err "unknown protobuf wire-type".

Definition value (nm : Constructors) (wiretype : Z) (buf : bytes) (t : gtype) (CanSet : bool)
    (val : gvalue) : outcome error (gvalue * bytes) :=
  let! (v, vb, buf) := pull wiretype buf in
  let! val := rec nm wiretype t CanSet val v vb in
  Ret (val, buf).

(** [for fieldi < len(fields) && fields[fieldi].ID < fieldnum { fieldi++ }] on
    the fields from [fieldi]. *)
Fixpoint advance (fieldnum : Z) (fields : list ProtoField) : list ProtoField :=
  match fields with
  | [] => []
  | p :: ps => if ID p <? fieldnum then advance fieldnum ps else fields
  end.

(** The loop of [decoder.message]; every round reads a byte at least.  The
    error prints the field at hand. *)
Definition in_message {A} (fields : list ProtoField) (c : outcome error A) : outcome error A :=
  match fields with
  | [] => c
  | p :: _ => omap_err (λ e, "Error while decoding field " +:+ Name (Field p).1 +:+ ": " +:+ e) c
  end.

Fixpoint message_loop (nm : Constructors) (rounds : nat) (fields : list ProtoField)
    (t : gtype) (buf : bytes) (sval : gvalue) : outcome error gvalue :=
  match buf with
  | [] => Ret sval
  | _ =>
      let '(key, n) := Uvarint buf in
      if n <=? 0 then Err "bad protobuf field key"
      else
        let buf := drop (Z.to_nat n) buf in
        let wiretype := Z.land key 7 in
        let fieldnum := Z.shiftr key 3 in
        let fields := advance fieldnum fields in
        let into := value nm wiretype buf in
        let! (sval, buf) :=
          match fields with
          | p :: _ =>
              if ID p =? fieldnum then
                with_field (Index p) t sval true false (λ ft set x, in_message fields (into ft set x))
              else in_message fields (let! (_, buf) := into t false sval in Ret (sval, buf))
          | [] => let! (_, buf) := into t false sval in Ret (sval, buf)
          end in
        match rounds with
        | O => OutOfFuel
        | Datatypes.S rounds => message_loop nm rounds fields t buf sval
        end
  end.

Definition message (nm : Constructors) (buf : bytes) (t : gtype) (sval : gvalue) : outcome error gvalue :=
  if decide (kind t = Struct) then
    let! fields := ProtoFields t in
    message_loop nm (length buf) fields t buf sval
  else Err "not a struct".

(** [DecodeWithConstructors], of a value with its type. *)
Definition DecodeWithConstructors (nm : Constructors) (buf : bytes) (structPtr : option (gtype * gvalue))
    : outcome error gvalue :=
  match structPtr with
  | None => Ret VNil
  | Some (t, v) =>
      recover_panic
        match UnmarshalBinary t with
        | Some unmarshal => unmarshal buf v
        | None =>
            if decide (kind t = Ptr) then
              match v with
              | VPtr x => let! x := message nm buf (Elem t) x in Ret (VPtr x)
              | _ => Err "not a struct"
              end
            else Err "Decode has been given a non pointer type"
        end
  end.

(** The loop of [decoder.slice] over packed values. *)
Fixpoint packed_loop (nm : Constructors) (rounds : nat) (wiretype : Z) (eltype : gtype) (is_slice : bool)
    (vb : bytes) (val slval : gvalue) : outcome error gvalue :=
  match vb with
  | [] => Ret slval
  | _ =>
      let! (val, rem) := value nm wiretype vb eltype true val in
      let! slval :=
        if is_slice then Ret (VSeq (Encoder.elems slval ++ [val]))
        else Panic "reflect: call of reflect.Append on array Value" in
      match rounds with
      | O => OutOfFuel
      | Datatypes.S rounds => packed_loop nm rounds wiretype eltype is_slice rem val slval
      end
  end.

(** The wire type of packed elements. *)
Definition elem_wiretype (eltype : gtype) : option Z :=
  match kind eltype with
  | Bool | Int32 | Int64 | Int | Uint32 | Uint64 | Uint =>
      match eltype with
      | TSfixed32 => Some 5 | TSfixed64 => Some 1 | TUfixed32 => Some 5 | TUfixed64 => Some 1
      | _ => Some 0
      end
  | Float32 => Some 5
  | Float64 => Some 1
  | _ => None
  end.

(** [decoder.slice]. *)
Definition slice (nm : Constructors) (t : gtype) (slval : gvalue) (vb : bytes) : outcome error gvalue :=
  let eltype := Elem t in
  let val := zero eltype in
  match elem_wiretype eltype, kind eltype with
  | Some wiretype, _ =>
      packed_loop nm (length vb) wiretype eltype (bool_decide (kind t = Slice)) vb val slval
  | None, Uint8 =>
      if decide (kind t = Array) then
        if decide (array_len t = length vb) then Ret (VBytes vb)
        else Err "array length and buffer length differ"
      else Ret (VBytes vb)
  | None, _ =>
      let! val := rec nm 2 eltype true val 0 vb in
      if decide (kind t = Slice) then Ret (VSeq (Encoder.elems slval ++ [val]))
      else Err "append to non-slice"
  end.

(** The loop of [decoder.mapEntry] over the values. *)
Fixpoint entry_loop (nm : Constructors) (rounds : nat) (buf : bytes) (t : gtype) (v : gvalue)
    : outcome error gvalue :=
  match buf with
  | [] => Ret v
  | _ =>
      let '(key, n) := Uvarint buf in
      if n <=? 0 then Err "bad protobuf field key"
      else
        let! (v, buf) := value nm (Z.land key 7) (drop (Z.to_nat n) buf) t true v in
        match rounds with
        | O => OutOfFuel
        | Datatypes.S rounds => entry_loop nm rounds buf t v
        end
  end.

(** [decoder.mapEntry]. *)
Definition mapEntry (nm : Constructors) (t : gtype) (slval : gvalue) (vb : bytes) : outcome error gvalue :=
  let '(key, n) := Uvarint vb in
  if n <=? 0 then Err "bad protobuf field key"
  else
    let buf := drop (Z.to_nat n) vb in
    let! (k, buf) := value nm (Z.land key 7) buf (Key t) true (zero (Key t)) in
    let! v := entry_loop nm (length buf) buf (Elem t) (zero (Elem t)) in
    Ret (VMap (map_set (match slval with VMap l => l | _ => [] end) k v)).

(** The interface case of [decoder.putvalue]. *)
Definition put_interface (nm : Constructors) (wiretype : Z) (t : gtype) (val : gvalue) (vb : bytes)
    : outcome error gvalue :=
  let! (val, data) :=
    match val with
    | VNil =>
        let id := take 8 vb in
        match (if (8 <? length vb)%nat then Interfaces.get gens id else None) with
        | None => let! g := instantiate nm t in let! i := set_interface t g in Ret (i, vb)
        | Some g => let! i := set_interface t g in Ret (i, drop 8 vb)
        end
    | _ => Ret (val, vb)
    end in
  match val with
  | VIface dt x =>
      match UnmarshalBinary dt with
      | Some unmarshal =>
          if negb (wiretype =? 2) then Err "bad wiretype for bytes"
          else let! x := unmarshal data x in Ret (VIface dt x)
      | None =>
          let! x := DecodeWithConstructors ∅ vb (Some (dt, x)) in Ret (VIface dt x)
      end
  | _ => Ret val
  end.

(** [decoder.putvalue]; a value that cannot be set is left alone. *)
Definition putvalue_body (nm : Constructors) (wiretype : Z) (t : gtype) (CanSet : bool) (val : gvalue)
    (v : Z) (vb : bytes) : outcome error gvalue :=
  if negb CanSet then Ret val else
  match kind t with
  | Bool =>
      if negb (wiretype =? 0) then Err "bad wiretype for bool"
      else if 1 <? v then Err "invalid bool value"
      else Ret (VBool (negb (v =? 0)))
  | Int | Int64 => let! sv := decodeSignedInt wiretype v in Ret (VInt sv)
  | Int32 => let! sv := decodeSignedInt wiretype v in Ret (VInt (wrapS 32 sv))
  | Uint | Uint64 =>
      if wiretype =? 0 then Ret (VInt v)
      else if wiretype =? 5 then Ret (VInt (wrapU 32 v))
      else if wiretype =? 1 then Ret (VInt v)
      else Err "bad wiretype for uint"
  | Uint32 =>
      if (wiretype =? 0) || (wiretype =? 5) || (wiretype =? 1) then Ret (VInt (wrapU 32 v))
      else Err "bad wiretype for uint"
  | Float32 =>
      if negb (wiretype =? 5) then Err "bad wiretype for float32"
      else Ret (VFloat32 (f32_via_f64 (wrapU 32 v)))
  | Float64 =>
      if negb (wiretype =? 1) then Err "bad wiretype for float64" else Ret (VFloat64 v)
  | String_ => if negb (wiretype =? 2) then Err "bad wiretype for string" else Ret (VString vb)
  | Struct =>
      match t with
      | TTime =>
          let! sv := decodeSignedInt wiretype v in
          Ret (time_Unix (Z.quot sv 1000000000) (Z.rem sv 1000000000))
      | _ =>
          if negb (wiretype =? 2) then Err "bad wiretype for embedded message"
          else message nm vb t val
      end
  | Ptr =>
      let! val :=
        match val with
        | VNil =>
            if decide (kind (Elem t) = Interface) then
              let! _ := instantiate nm (Elem t) in
              Panic "reflect.Set: value is not assignable to type"
            else let! g := instantiate nm (Elem t) in Ret g.2
        | _ => Ret val
        end in
      match val with
      | VPtr x => let! x := rec nm wiretype (Elem t) true x v vb in Ret (VPtr x)
      | _ => Ret val
      end
  | Slice | Array =>
      if negb (wiretype =? 2) then Err "bad wiretype for repeated field"
      else slice nm t val vb
  | Map =>
      if negb (wiretype =? 2) then Err "bad wiretype for repeated field"
      else mapEntry nm t val vb
  | Interface => put_interface nm wiretype t val vb
  | Uint8 | OtherKind => Panic "unsupported value kind"
  end.
End rec.

Fixpoint putvalue (fuel : nat) (nm : Constructors) (wiretype : Z) (t : gtype) (CanSet : bool)
    (val : gvalue) (v : Z) (vb : bytes) : outcome error gvalue :=
  match fuel with
  | O => OutOfFuel
  | Datatypes.S fuel => putvalue_body (putvalue fuel) nm wiretype t CanSet val v vb
  end.

Definition Decode (fuel : nat) (buf : bytes) (structPtr : option (gtype * gvalue))
    : outcome error gvalue :=
  DecodeWithConstructors (putvalue fuel) ∅ buf structPtr.
End decoder.
End Decoder.
