(* ===== verification/ProtobufScalars.v ===== *)
(** * Protobuf round trip: names and scalars

    Names of types do not matter to reflection beyond the identity of the types
    the library knows; [strip] removes them.  Scalars are the types encoded as
    one number or string; [scalar_roundtrip] says what comes back of each. *)
From S2P Require Import Prelude Wire Protobuf.
Import Varint Fixed Fields.
Local Open Scope Z_scope.

(** ** Names *)
Fixpoint strip (t : gtype) : gtype :=
  match t with TNamed _ u => strip u | _ => t end.

Lemma strip_strip t : strip (strip t) = strip t.
Proof. induction t; done. Qed.
Lemma strip_unnamed t : match strip t with TNamed _ _ => False | _ => True end.
Proof. induction t; done. Qed.
Lemma kind_strip t : kind (strip t) = kind t.
Proof. induction t; done. Qed.
Lemma Elem_strip t : Elem (strip t) = Elem t.
Proof. induction t; done. Qed.
Lemma Key_strip t : Key (strip t) = Key t.
Proof. induction t; done. Qed.
Lemma array_len_strip t : array_len (strip t) = array_len t.
Proof. induction t; done. Qed.
Lemma fields_of_strip t : fields_of (strip t) = fields_of t.
Proof. induction t; done. Qed.
Lemma zero_strip t : zero (strip t) = zero t.
Proof. induction t; done. Qed.
Lemma inner_strip t id : innerFieldIndexes (strip t) id = innerFieldIndexes t id.
Proof. induction t; done. Qed.
Lemma ProtoFields_strip t : ProtoFields (strip t) = ProtoFields t.
Proof. unfold ProtoFields. by rewrite inner_strip. Qed.

(** ** Pulling values *)
Lemma pull_varint v rest :
  0 <= v < 2 ^ 64 → Decoder.pull 0 (uvarint v ++ rest) = Ret (v, [], rest).
Proof.
  intros Hv. unfold Decoder.pull. cbn [Z.eqb]. rewrite uvarint_read by done.
  pose proof (uvarint_pos v). destruct (Z.leb_spec (Z.of_nat (length (uvarint v))) 0); [lia|].
  by rewrite Nat2Z.id, drop_app_length.
Qed.

Lemma pull_u32 v rest : 0 <= v < 2 ^ 32 → Decoder.pull 5 (u32 v ++ rest) = Ret (v, [], rest).
Proof. intros Hv. unfold Decoder.pull. cbn [Z.eqb]. by rewrite read_u32. Qed.

Lemma pull_u64 v rest : 0 <= v < 2 ^ 64 → Decoder.pull 1 (u64 v ++ rest) = Ret (v, [], rest).
Proof. intros Hv. unfold Decoder.pull. cbn [Z.eqb Pos.eqb]. by rewrite read_u64. Qed.

Definition sized (b : bytes) : bytes := uvarint (wrapU 64 (Z.of_nat (length b))) ++ b.

Lemma pull_sized b rest :
  Z.of_nat (length b) < 2 ^ 64 →
  Decoder.pull 2 (sized b ++ rest) = Ret (Z.of_nat (length b), b, rest).
Proof.
  intros Hb. unfold Decoder.pull, sized. cbn [Z.eqb Pos.eqb].
  rewrite wrapU_small by lia. rewrite <-app_assoc, uvarint_read by lia.
  pose proof (uvarint_pos (Z.of_nat (length b))).
  destruct (Z.leb_spec (Z.of_nat (length (uvarint (Z.of_nat (length b))))) 0); [lia|].
  cbn [orb]. rewrite !length_app. match goal with |- context [?a <? ?b] => destruct (Z.ltb_spec a b) end; [lia|].
  by rewrite !Nat2Z.id, drop_app_length, take_app_length, drop_app_length.
Qed.

Lemma delimited_sized key b : Encoder.delimited key b = uvarint (Z.lor key 2) ++ sized b.
Proof. done. Qed.

(** ** Scalars *)

(** The wire type of a scalar type. *)
Definition scalar (t : gtype) : option Z :=
  match t with
  | TSfixed32 | TUfixed32 => Some 5
  | TSfixed64 | TUfixed64 | TTime => Some 1
  | _ =>
      match kind t with
      | Bool | Int | Int32 | Int64 | Uint32 | Uint64 => Some 0
      | Float32 => Some 5
      | Float64 => Some 1
      | String_ => Some 2
      | _ => None
      end
  end.

(** The values of a scalar type. *)
Definition scalar_ok (t : gtype) (v : gvalue) : Prop :=
  match kind t, v with
  | Bool, VBool _ => True
  | (Int | Int64), VInt z => - 2 ^ 63 <= z < 2 ^ 63
  | Int32, VInt z => - 2 ^ 31 <= z < 2 ^ 31
  | Uint32, VInt z => 0 <= z < 2 ^ 32
  | Uint64, VInt z => 0 <= z < 2 ^ 64
  | Float32, VFloat32 b => 0 <= b < 2 ^ 32
  | Float64, VFloat64 b => 0 <= b < 2 ^ 64
  | String_, VString _ => True
  | Struct, VTime _ n => 0 <= n < 1000000000
  | _, _ => False
  end.

(** What is written after the key. *)
Definition scalar_body (t : gtype) (v : gvalue) : bytes :=
  match t, v with
  | (TSfixed32 | TUfixed32), _ => u32 (wrapU 32 (Encoder.int_of v))
  | (TSfixed64 | TUfixed64), _ => u64 (wrapU 64 (Encoder.int_of v))
  | TTime, VTime s n => u64 (wrapU 64 (UnixNano s n))
  | TFloat32, _ => u32 (Encoder.bits_of v)
  | _, _ =>
      match kind t with
      | Bool => uvarint (Encoder.bool_of v)
      | Int | Int32 | Int64 => svarint (Encoder.int_of v)
      | Uint32 | Uint64 => uvarint (Encoder.int_of v)
      | Float32 => u32 (f32_via_f64 (Encoder.bits_of v))
      | Float64 => u64 (Encoder.bits_of v)
      | String_ => sized (Encoder.string_of v)
      | _ => []
      end
  end.

(** What comes back: of a varint of 64 bits, 63; of a [float32] what the way
    through [float64] leaves; of a time the 64 bits of its nanoseconds. *)
Definition scalar_norm (t : gtype) (v : gvalue) : gvalue :=
  match t, v with
  | (TSfixed32 | TUfixed32 | TSfixed64 | TUfixed64), _ => v
  | TTime, VTime s n => VTime (UnixNano s n / 1000000000) (UnixNano s n mod 1000000000)
  | _, _ =>
      match kind t, v with
      | (Int | Int64), VInt z => VInt (wrapS 63 z)
      | Float32, VFloat32 b => VFloat32 (f32_via_f64 b)
      | _, _ => v
      end
  end.

Lemma lor_lt a b n : 0 <= n → 0 <= a < 2 ^ n → 0 <= b < 2 ^ n → 0 <= Z.lor a b < 2 ^ n.
Proof.
  intros Hn Ha Hb. split; [apply Z.lor_nonneg; lia|].
  assert (Z.lor a b = Z.lor a b mod 2 ^ n) as ->; [|apply Z.mod_pos_bound; lia].
  rewrite <-Z.land_ones, Z.land_lor_distr_l, !Z.land_ones, !Z.mod_small by lia. done.
Qed.

Lemma f32_range b : 0 <= b < 2 ^ 32 → 0 <= f32_via_f64 b < 2 ^ 32.
Proof.
  intros Hb. unfold f32_via_f64. destruct (_ && _); [|done]. apply lor_lt; lia.
Qed.

Lemma f32_idem b : f32_via_f64 (f32_via_f64 b) = f32_via_f64 b.
Proof.
  assert (∀ c, f32_via_f64 c = c ∨ f32_via_f64 c = Z.lor c 0x400000) as Hc
    by (intros c; unfold f32_via_f64; destruct (_ && _); auto).
  destruct (Hc b) as [E|E]; rewrite E; [done|].
  destruct (Hc (Z.lor b 0x400000)) as [->| ->]; [done|]. by rewrite <-Z.lor_assoc, Z.lor_diag.
Qed.

Lemma time_norm sv :
  time_Unix (Z.quot sv 1000000000) (Z.rem sv 1000000000) =
  VTime (sv / 1000000000) (sv mod 1000000000).
Proof.
  unfold time_Unix.
  assert (sv = 1000000000 * Z.quot sv 1000000000 + Z.rem sv 1000000000) as Hs
    by (apply Z.quot_rem'; lia).
  set (q := Z.quot sv 1000000000) in *. set (r := Z.rem sv 1000000000) in *. clearbody q r. subst sv.
  f_equal; Z.div_mod_to_equations; lia.
Qed.

Lemma UnixNano_range s n : - 2 ^ 63 <= UnixNano s n < 2 ^ 63.
Proof.
  unfold UnixNano, wrapS. change (2 ^ (64 - 1)) with (2 ^ 63).
  pose proof (Z.mod_pos_bound (s * 1000000000 + n + 2 ^ 63) (2 ^ 64) ltac:(lia)). lia.
Qed.

Section scalars.
Context {M : Methods} (gens : gmap bytes (gtype * gvalue)).

Lemma scalar_encode t v wt f key addr prefix :
  scalar t = Some wt → scalar_ok t v →
  Encoder.value gens (Datatypes.S f) key t addr v prefix =
  Ret (uvarint (Z.lor key wt) ++ scalar_body t v).
Proof.
  intros Ht Hv. unfold scalar_ok in Hv. destruct t as [| | | | | | | | | | | | | | | |nm u| | | | | | |];
    cbn in Ht, Hv; simplify_eq; try done.
  - by destruct v.
  - cbn [Encoder.value Encoder.fixed_value]. unfold Encoder.kind_value. cbn [kind].
    unfold scalar_body. cbn [kind]. by destruct (kind u); simplify_eq.
Qed.

(** Types whose encoding depends on their kind only. *)
Definition by_kind (t : gtype) : Prop :=
  match t with
  | TSfixed32 | TUfixed32 | TSfixed64 | TUfixed64 | TTime | TFloat32 => False
  | _ => True
  end.

(** What is written of a value can be read, and gives its normal form; the
    number that is read with bytes does not matter. *)
Definition reads_back (t : gtype) (wt : Z) (body : bytes) (v' : gvalue) : Prop :=
  ∃ num vb, (∀ rest, Decoder.pull wt (body ++ rest) = Ret (num, vb, rest)) ∧
    ∀ rec nm cur num', (wt ≠ 2 → num' = num) →
      Decoder.putvalue_body gens rec nm wt t true cur num' vb = Ret v'.

Lemma reads_back_number t wt body v' num :
  wt ≠ 2 → (∀ rest, Decoder.pull wt (body ++ rest) = Ret (num, [], rest)) →
  (∀ rec nm cur, Decoder.putvalue_body gens rec nm wt t true cur num [] = Ret v') →
  reads_back t wt body v'.
Proof. intros Hwt Hp Hy. exists num, []. split; [done|]. intros rec nm cur num' ->; auto. Qed.

Lemma scalar_roundtrip_kind t v wt :
  by_kind t → scalar t = Some wt → scalar_ok t v → Z.of_nat (length (scalar_body t v)) < 2 ^ 64 →
  reads_back t wt (scalar_body t v) (scalar_norm t v).
Proof.
  intros Hne Ht Hv Hl.
  assert (scalar t = match kind t with
    | Bool | Int | Int32 | Int64 | Uint32 | Uint64 => Some 0
    | Float32 => Some 5 | Float64 => Some 1 | String_ => Some 2 | _ => None end) as Hs by by destruct t.
  rewrite Hs in Ht. clear Hs.
  assert (scalar_body t v = match kind t with
    | Bool => uvarint (Encoder.bool_of v)
    | Int | Int32 | Int64 => svarint (Encoder.int_of v)
    | Uint32 | Uint64 => uvarint (Encoder.int_of v)
    | Float32 => u32 (f32_via_f64 (Encoder.bits_of v))
    | Float64 => u64 (Encoder.bits_of v)
    | String_ => sized (Encoder.string_of v)
    | _ => []
    end) as Hb by by destruct t.
  assert (scalar_norm t v = match kind t, v with
    | (Int | Int64), VInt z => VInt (wrapS 63 z)
    | Float32, VFloat32 b => VFloat32 (f32_via_f64 b)
    | _, _ => v
    end) as Hn by by destruct t.
  rewrite Hb, Hn in *. clear Hb Hn. unfold scalar_ok in Hv.
  destruct (kind t) eqn:Hk; simplify_eq; destruct v as [b|z|bits|bits|s|sec nsec| | | | | | |]; try done;
    cbn [Encoder.int_of Encoder.bits_of Encoder.string_of] in *;
    try match goal with H : _ <= z < _ |- context [svarint] =>
          let Hr := fresh "Hr" in destruct (zigzag_range z ltac:(lia)) as [-> Hr] end.
  - apply (reads_back_number _ _ _ _ (Encoder.bool_of (VBool b))); [done| |].
    + intros. apply pull_varint. destruct b; cbn; lia.
    + intros. unfold Decoder.putvalue_body. rewrite Hk. by destruct b.
  - eapply reads_back_number; [done|intros; by apply pull_varint|]. intros.
    unfold Decoder.putvalue_body. rewrite Hk. cbn. by rewrite unzigzag_zigzag.
  - eapply reads_back_number; [done|intros; by apply pull_varint|]. intros.
    unfold Decoder.putvalue_body. rewrite Hk. cbn. by rewrite unzigzag_small, wrapS_small by lia.
  - eapply reads_back_number; [done|intros; by apply pull_varint|]. intros.
    unfold Decoder.putvalue_body. rewrite Hk. cbn. by rewrite unzigzag_zigzag.
  - eapply reads_back_number; [done|intros; apply pull_varint; lia|]. intros.
    unfold Decoder.putvalue_body. rewrite Hk. cbn. by rewrite wrapU_small.
  - eapply reads_back_number; [done|intros; apply pull_varint; lia|]. intros.
    unfold Decoder.putvalue_body. by rewrite Hk.
  - pose proof (f32_range bits Hv).
    eapply reads_back_number; [done|intros; by apply pull_u32|]. intros.
    unfold Decoder.putvalue_body. rewrite Hk. cbn. by rewrite wrapU_small, f32_idem.
  - eapply reads_back_number; [done|intros; by apply pull_u64|]. intros.
    unfold Decoder.putvalue_body. by rewrite Hk.
  - eexists _, s. split.
    + intros. apply pull_sized. unfold sized in Hl. rewrite length_app in Hl. lia.
    + intros. unfold Decoder.putvalue_body. by rewrite Hk.
Qed.

Lemma scalar_roundtrip t v wt :
  scalar t = Some wt → scalar_ok t v → Z.of_nat (length (scalar_body t v)) < 2 ^ 64 →
  reads_back t wt (scalar_body t v) (scalar_norm t v).
Proof.
  intros Ht Hv Hl. destruct t; try (by apply scalar_roundtrip_kind);
    cbn in Ht; simplify_eq;
    unfold scalar_ok in Hv; cbn in Hv; destruct v as [b|z|bits|bits|s|sec nsec| | | | | | |]; try done;
    cbn [scalar_body scalar_norm Encoder.int_of Encoder.bits_of kind].
  - eapply reads_back_number; [done|intros; apply pull_u32, wrapU_range; lia|]. intros. cbn.
    by rewrite wrapS_wrapU, !wrapS_small by (rewrite ?wrapS_small; lia).
  - eapply reads_back_number; [done|intros; apply pull_u64, wrapU_range; lia|]. intros. cbn.
    by rewrite wrapS_wrapU, wrapS_small by lia.
  - eapply reads_back_number; [done|intros; apply pull_u32, wrapU_range; lia|]. intros. cbn.
    by rewrite !wrapU_small by (rewrite ?wrapU_small; lia).
  - eapply reads_back_number; [done|intros; apply pull_u64, wrapU_range; lia|]. intros. cbn.
    by rewrite wrapU_small by lia.
  - eapply reads_back_number; [done|intros; by apply pull_u32|]. intros. cbn. by rewrite wrapU_small.
  - eapply reads_back_number; [done|intros; apply pull_u64, wrapU_range; lia|]. intros. cbn.
    pose proof (UnixNano_range sec nsec). rewrite wrapS_wrapU, wrapS_small by lia. by rewrite time_norm.
Qed.
End scalars.
