(* ===== verification/ProtobufRoundtrip.v ===== *)
(** * Protobuf round trip: messages

    [wf] says which values of which types the encoder writes so that the decoder
    can read them, [norm] what comes back.  The encoding of a field is a list of
    key/value pairs ([chunk]); [encodes] is the encoder's side, [takes] the
    decoder's side of one pair.  [fields_roundtrip] is the induction over types;
    [decode_encode] the theorem about [Encode] and [Decode]. *)
From S2P Require Import Prelude Wire Protobuf ProtobufScalars.
Import Varint Fixed Fields.
Local Open Scope Z_scope.

Section roundtrip.
Context {M : Methods} (gens : gmap bytes (gtype * gvalue)).

(** ** What can be encoded, and what comes back *)

(** The wire type of a type that is written as one key/value pair. *)
Fixpoint wire (t : gtype) : Z :=
  match scalar t with
  | Some w => w
  | None => match t with TNamed _ u | TPtr u => wire u | _ => 2 end
  end.

(** Elements of packed slices. *)
Definition packable (u : gtype) : Prop :=
  is_Some (Decoder.elem_wiretype u) ∧ scalar u = Decoder.elem_wiretype u.
(** Elements of slices that are written one by one. *)
Definition repeatable (u : gtype) : Prop :=
  Decoder.elem_wiretype u = None ∧ kind u ≠ Uint8 ∧ wire u = 2 ∧
  (kind u = Slice ∨ kind u = Array → kind (Elem u) = Uint8).

(** A defined type must not hide that its elements are of fixed size, or that it
    is a time; an interface has its name in [TInterface]. *)
Definition plain (u : gtype) : Prop :=
  match strip u with
  | TTime | TInterface _ => False
  | TSlice (TSfixed32 | TSfixed64 | TUfixed32 | TUfixed64) => False
  | _ => True
  end.

Fixpoint ascending (last : Z) (ids : list Z) : bool :=
  match ids with
  | [] => true
  | i :: ids => (last <? i) && (i <? 2 ^ 61) && ascending i ids
  end.

(** No embedded fields, increasing IDs, a field that is written if there is one,
    and no nil in a required field. *)
Definition struct_ok (t : gtype) (vs : list gvalue) : bool :=
  match ProtoFields t, fields_of t with
  | Ret idx, Some fs =>
      bool_decide (Index <$> idx = (λ i, [i]) <$> seq 0 (length fs)) &&
      ascending 0 (ID <$> idx) &&
      (existsb (λ f, exported f.1) fs || bool_decide (fs = [])) &&
      forallb (λ '(p, x), negb (bool_decide (Prefix p = TagRequired) && is_nil x)) (zip idx vs)
  | _, _ => false
  end.

(** A value that marshals itself, with a registered generator. *)
Definition marshals (name : string) (dt : gtype) (x : gvalue) : Prop :=
  ∃ marshal mid unmarshal b g,
    MarshalBinary dt = Some marshal ∧ marshal x = Ret b ∧ b ≠ [] ∧
    MarshalID dt = Some mid ∧ length (mid x) = 8%nat ∧ gens !! mid x = Some (dt, g) ∧
    implements dt name = true ∧ UnmarshalBinary dt = Some unmarshal ∧ unmarshal b g = Ret x.

Fixpoint distinct (ks : list gvalue) : bool :=
  match ks with
  | [] => true
  | k :: ks => forallb (λ k', negb (Decoder.go_eq k' k)) ks && distinct ks
  end.

Definition wf_fields (W : gtype → gvalue → Prop) :=
  fix all (fs : list (StructField * gtype)) (vs : list gvalue) {struct fs} : Prop :=
    match fs, vs with
    | [], [] => True
    | (f, ft) :: fs, x :: vs => (exported f = true → W ft x) ∧ all fs vs
    | _, _ => False
    end.
Definition norm_fields (N : gtype → gvalue → gvalue) :=
  fix all (fs : list (StructField * gtype)) (vs : list gvalue) {struct fs} : list gvalue :=
    match fs, vs with
    | (f, ft) :: fs, x :: vs => (if exported f then N ft x else zero ft) :: all fs vs
    | _, _ => []
    end.

(** [one]: written as exactly one key/value pair; [addr]: addressable. *)
Fixpoint wf (one addr : bool) (t : gtype) (v : gvalue) {struct t} : Prop :=
  match scalar t with
  | Some _ => scalar_ok t v
  | None =>
      match t, v with
      | TNamed _ u, _ => plain u ∧ wf one addr u v
      | TStruct fs, VStruct vs =>
          addr = true ∧ struct_ok t vs = true ∧
          wf_fields (wf false true) fs vs
      | TPtr u, VPtr x => kind u ≠ Interface ∧ wf true true u x
      | TPtr _, VNil => one = false
      | TSlice TUint8, (VBytes _ | VNil) => True
      | TSlice u, VNil => packable u ∨ one = false ∧ repeatable u
      | TSlice u, VSeq l =>
          packable u ∧ Forall (scalar_ok u) l ∨
          one = false ∧ repeatable u ∧ Forall (wf true true u) l
      | TArray n TUint8, VBytes b => length b = n
      | TMap _ _, VNil => one = false
      | TMap k u, VMap l =>
          one = false ∧ is_Some (scalar k) ∧
          (kind u = Slice ∨ kind u = Array → kind (Elem u) = Uint8) ∧
          Forall (λ e, scalar_ok k e.1) l ∧ Forall (λ e, wf true false u e.2) l ∧
          distinct ((λ e, scalar_norm k e.1) <$> l) = true
      | TInterface _, VNil => one = false
      | TInterface name, VIface dt x => marshals name dt x
      | _, _ => False
      end
  end.

(** Fields that are not written come back zero, empty slices and maps nil, nil
    byte slices empty, and numbers as [scalar_norm] says. *)
Fixpoint norm (t : gtype) (v : gvalue) {struct t} : gvalue :=
  match scalar t with
  | Some _ => scalar_norm t v
  | None =>
      match t, v with
      | TNamed _ u, _ => norm u v
      | TStruct fs, VStruct vs =>
          VStruct (norm_fields norm fs vs)
      | TPtr u, VPtr x => VPtr (norm u x)
      | TSlice u, VNil => if decide (kind u = Uint8) then VBytes [] else VNil
      | TSlice u, VSeq l => if decide (l = []) then VNil else VSeq (map (norm u) l)
      | TMap k u, VMap l =>
          if decide (l = []) then VNil else VMap (map (λ e, (scalar_norm k e.1, norm u e.2)) l)
      | _, _ => v
      end
  end.

Definition named_plain (t : gtype) : Prop :=
  match t with TNamed _ _ => plain (strip t) | _ => True end.

Lemma wf_strip one addr t v :
  scalar t = None → wf one addr t v → wf one addr (strip t) v ∧ norm t v = norm (strip t) v ∧ wire t = wire (strip t) ∧
  named_plain t.
Proof.
  induction t; intros Ht Hwf; try by (repeat split; auto).
  cbn [wf norm wire] in *. rewrite Ht in *. destruct Hwf as [Hp Hwf].
  destruct (scalar t) as [w|] eqn:Hs.
  - exfalso. unfold plain in Hp. destruct t; cbn in Hs, Hp, Ht; simplify_eq; done.
  - destruct IHt as (? & ? & ? & Hpl); [done..|]. repeat split; try done.
    cbn [strip named_plain]. unfold plain in *. by rewrite strip_strip.
Qed.

(** ** Key/value pairs *)
Abbreviation chunk := (Z * bytes)%type.
Definition chunk_bytes (key : Z) (c : chunk) : bytes := uvarint (Z.lor key c.1) ++ c.2.
Definition small (c : chunk) : Prop := 0 <= c.1 < 8 ∧ Z.of_nat (length c.2) < 2 ^ 64.

(** Encoding gives the chunks; a nil in a required field is no encoding. *)
Definition encodes (t : gtype) (addr : bool) (v : gvalue) (cs : list chunk) : Prop :=
  ∀ key prefix, (prefix = TagRequired → kind t = Ptr → v ≠ VNil) →
    yields (λ f, Encoder.value gens f key t addr v prefix) (Ret (cs ≫= chunk_bytes key)).

(** Decoding a chunk into a value of the type. *)
Definition takes (t : gtype) (x : gvalue) (c : chunk) (y : gvalue) : Prop :=
  ∃ num vb, (∀ rest, Decoder.pull c.1 (c.2 ++ rest) = Ret (num, vb, rest)) ∧
    ∀ nm num', (c.1 ≠ 2 → num' = num) →
      yields (λ f, Decoder.putvalue gens f nm c.1 t true x num' vb) (Ret y).

Definition alloc (t : gtype) (x : gvalue) : gvalue :=
  if bool_decide (kind t = Ptr) && is_nil x then VPtr (zero (Elem t)) else x.

(** Decoding the chunks of a field. *)
Fixpoint takes_all (t : gtype) (x : gvalue) (cs : list chunk) (y : gvalue) : Prop :=
  match cs with
  | [] => x = y
  | c :: cs => ∃ z, takes t (alloc t x) c z ∧ takes_all t z cs y
  end.

Definition fresh (t : gtype) (x : gvalue) : Prop := x = zero t ∨ x = alloc t (zero t).

Definition single_claim (t : gtype) : Prop := ∀ addr v, wf true addr t v →
  ∃ body, encodes t addr v [(wire t, body)] ∧
    (Z.of_nat (length body) < 2 ^ 64 → ∀ x, fresh t x → takes t x (wire t, body) (norm t v)).

Definition field_claim (t : gtype) : Prop := ∀ v, wf false true t v →
  ∃ cs, encodes t true v cs ∧ Forall (λ c, 0 <= c.1 < 8) cs ∧
    (Forall small cs → takes_all t (zero t) cs (norm t v)).

Lemma takes_value t x c y rest nm :
  takes t x c y →
  yields (λ f, Decoder.value (Decoder.putvalue gens f) nm c.1 (c.2 ++ rest) t true x) (Ret (y, rest)).
Proof.
  intros (num & vb & Hp & Hy). unfold Decoder.value. rewrite Hp. cbn [obind].
  eapply yields_bind; [by apply Hy|]. apply yields_const.
Qed.

Lemma takes_body t x c y num vb :
  (∀ rest, Decoder.pull c.1 (c.2 ++ rest) = Ret (num, vb, rest)) →
  (∀ nm num', (c.1 ≠ 2 → num' = num) →
     yields (λ f, Decoder.putvalue_body gens (Decoder.putvalue gens f) nm c.1 t true x num' vb) (Ret y)) →
  takes t x c y.
Proof.
  intros Hp Hy. exists num, vb. split; [done|]. intros nm num' Hn. apply yields_succ. by apply Hy.
Qed.

Lemma value_nonscalar t key addr v prefix r :
  scalar t = None →
  yields (λ f, Encoder.kind_value gens (Encoder.value gens f) key t addr v prefix) r →
  yields (λ f, Encoder.value gens f key t addr v prefix) r.
Proof.
  intros Ht Hy. apply yields_succ. eapply yields_ext; [|exact Hy]. intros f. cbn.
  assert (Encoder.fixed_value key t v = None) as ->; [|done]. by destruct t.
Qed.

Lemma wire_scalar t w : scalar t = Some w → wire t = w.
Proof. by destruct t; intros Ht; cbn [wire]; rewrite Ht. Qed.

Lemma scalar_wire_range t w : scalar t = Some w → 0 <= w < 8.
Proof.
  destruct t; cbn; intros; simplify_eq; try lia.
  destruct (kind t); simplify_eq; lia.
Qed.

Lemma wire_range t : 0 <= wire t < 8.
Proof.
  induction t; cbn [wire];
    match goal with |- context [scalar ?t] => destruct (scalar t) eqn:Hs end;
    first [eapply scalar_wire_range; exact Hs | lia].
Qed.

Lemma single_scalar t w : scalar t = Some w → single_claim t.
Proof.
  intros Ht addr v Hwf. rewrite (wire_scalar t w Ht).
  assert (scalar_ok t v) as Hok by (destruct t; cbn [wf] in Hwf; rewrite ?Ht in Hwf; done).
  assert (norm t v = scalar_norm t v) as Hn by (destruct t; cbn [norm]; rewrite ?Ht; done).
  exists (scalar_body t v). split.
  - intros key prefix _. apply yields_succ.
    eapply yields_ext; [intros f; by apply scalar_encode|]. cbn. rewrite app_nil_r. apply yields_const.
  - intros Hl x _. destruct (scalar_roundtrip gens t v w Ht Hok Hl) as (num & vb & Hp & Hy).
    eapply takes_body; [done|]. intros nm num' Hnum. cbn. rewrite Hn.
    eapply yields_ext; [intros f; by apply Hy|]. apply yields_const.
Qed.

(** ** Packed slices *)
Lemma scalar_body_nonempty u x : packable u → (0 < length (scalar_body u x))%nat.
Proof.
  intros [[w Hw] Hs]. rewrite Hw in Hs.
  destruct u; cbn in Hs, Hw; simplify_eq;
    try (cbn; unfold svarint; repeat case_match; apply uvarint_pos || (cbn; lia)).
  unfold scalar_body. cbn [kind]. unfold Decoder.elem_wiretype in Hw. cbn [kind] in Hw.
  destruct (kind u); simplify_eq; unfold svarint; repeat case_match; apply uvarint_pos || (cbn; lia).
Qed.

(** How the elements of a packed slice are written. *)
Definition packs (u : gtype) (p : gvalue → bytes) : Prop := ∀ x, scalar_ok u x →
  (0 < length (p x))%nat ∧
  (Z.of_nat (length (p x)) < 2 ^ 64 → reads_back gens u (wire u) (p x) (scalar_norm u x)).

Lemma packs_scalar u : packable u → packs u (scalar_body u).
Proof.
  intros Hu x Hx. split; [by apply scalar_body_nonempty|]. intros Hl.
  destruct Hu as [[w Hw] Hs]. rewrite Hw in Hs. rewrite (wire_scalar u w Hs).
  by apply scalar_roundtrip.
Qed.

Lemma packs_float32 : packs TFloat32 (λ x, u32 (f32_via_f64 (Encoder.bits_of x))).
Proof.
  intros x Hx. split; [cbn; lia|]. intros Hl.
  by apply (scalar_roundtrip_kind gens (TNamed "" TFloat32) x 5).
Qed.

Lemma sliceReflect_packed t u :
  kind t = Slice → Elem t = u → packable u → by_kind u ∨ u = TFloat32 →
  ∃ p, packs u p ∧ ∀ rec key addr v,
    Encoder.sliceReflect rec key t addr v = Ret (Encoder.delimited key (Encoder.elems v ≫= p)).
Proof.
  intros Hk He Hu [Hb| ->].
  - exists (scalar_body u). split; [by apply packs_scalar|]. intros rec key addr v.
    unfold Encoder.sliceReflect. rewrite Hk, He. destruct Hu as [[w Hw] Hs].
    rewrite Hw in Hs. unfold Decoder.elem_wiretype in Hw.
    assert (∀ (f g : gvalue → bytes), (∀ x, f x = g x) →
      Encoder.packed key f v = Ret (Encoder.delimited key (Encoder.elems v ≫= g))) as Hpack.
    { intros f g Hfg. unfold Encoder.packed. do 2 f_equal. by apply list_bind_ext. }
    destruct u; cbn in Hw, Hs; simplify_eq; try (by apply Hpack); try done.
    unfold scalar_body. cbn [kind]. destruct (kind u); simplify_eq; by apply Hpack.
  - eexists. split; [apply packs_float32|]. intros rec key addr v.
    unfold Encoder.sliceReflect. by rewrite Hk, He.
Qed.

Lemma slice_packed t u :
  strip t = TSlice u → named_plain t → packable u →
  ∃ p, packs u p ∧ ∀ rec key addr v,
    Encoder.slice rec key t addr v = Ret (Encoder.delimited key (Encoder.elems v ≫= p)).
Proof.
  intros Ht Hpl Hu.
  assert (kind t = Slice) as Hk by (by rewrite <-kind_strip, Ht).
  assert (Elem t = u) as He by (by rewrite <-Elem_strip, Ht).
  assert (t = TSlice u ∨ ∃ n u', t = TNamed n u') as [->|(n & u' & ->)] by (destruct t; cbn in Ht; eauto).
  { assert (by_kind u → ∃ p, packs u p ∧ ∀ rec key addr v,
      Encoder.sliceReflect rec key (TSlice u) addr v = Ret (Encoder.delimited key (Encoder.elems v ≫= p))) as Hr.
    { intros Hb. apply sliceReflect_packed; auto. }
    pose proof (packs_scalar u Hu) as Hps.
    destruct u; try (by apply Hr); try (eexists; split; [exact Hps|done]).
    all: by destruct Hu as [[? ?] ?]. }
  cbn [named_plain] in Hpl.
  assert (by_kind u ∨ u = TFloat32) as Hb.
  { unfold plain in Hpl. rewrite Ht in Hpl. cbn in Hpl.
    destruct u; auto; try done. left. by destruct Hu as [[? ?] ?]. }
  destruct (sliceReflect_packed (TNamed n u') u Hk He Hu Hb) as (p & Hp & Hs).
  exists p. split; [done|]. intros rec key addr v. by rewrite <-(Hs rec key addr v).
Qed.

Lemma packed_loop_step rec nm rounds w u vb val slval : vb ≠ [] →
  Decoder.packed_loop rec nm (Datatypes.S rounds) w u true vb val slval =
  let! (val, rem) := Decoder.value rec nm w vb u true val in
  Decoder.packed_loop rec nm rounds w u true rem val (VSeq (Encoder.elems slval ++ [val])).
Proof. by destruct vb. Qed.

Lemma packed_loop_reads u p l : packs u p → Forall (scalar_ok u) l →
  Z.of_nat (length (l ≫= p)) < 2 ^ 64 → ∀ rounds nm val slval,
  (length (l ≫= p) ≤ rounds)%nat →
  yields (λ f, Decoder.packed_loop (Decoder.putvalue gens f) nm rounds (wire u) u true (l ≫= p) val slval)
         (Ret (if decide (l = []) then slval
               else VSeq (Encoder.elems slval ++ map (scalar_norm u) l))).
Proof.
  intros Hp Hl. induction Hl as [|x l Hx Hl IH]; intros Hs rounds nm val slval Hr.
  { eapply yields_ext; [|apply yields_const]. by destruct rounds. }
  destruct (Hp x Hx) as [Hne Hrd]. cbn [mbind list_bind] in Hs, Hr |- *.
  rewrite length_app in Hs, Hr. destruct (Hrd ltac:(lia)) as (num & vb & Hpull & Hput).
  destruct rounds as [|rounds]; [lia|].
  eapply yields_ext; [intros f; apply packed_loop_step; by destruct (p x); [cbn in Hne; lia|]|].
  eapply yields_bind with (a := (scalar_norm u x, l ≫= p)).
  { apply (takes_value u val (wire u, p x)). eapply takes_body; [exact Hpull|].
    intros nm' num' Hnum. eapply yields_ext; [intros f; by apply Hput|]. apply yields_const. }
  rewrite decide_False by done.
  pose proof (IH ltac:(lia) rounds nm (scalar_norm u x)
                 (VSeq (Encoder.elems slval ++ [scalar_norm u x])) ltac:(lia)) as Hy.
  destruct (decide (l = [])) as [->|Hl']; [exact Hy|].
  cbn [Encoder.elems] in Hy. rewrite <-app_assoc in Hy. exact Hy.
Qed.

(** ** Values written as one pair *)

Lemma encodes_delimited t addr v b :
  scalar t = None → (∀ rec key prefix, (prefix = TagRequired → kind t = Ptr → v ≠ VNil) →
    Encoder.kind_value gens rec key t addr v prefix = Ret (Encoder.delimited key b)) →
  encodes t addr v [(2, sized b)].
Proof.
  intros Ht Hk key prefix Hn. apply value_nonscalar; [done|].
  eapply yields_ext; [intros f; by apply Hk|]. cbn. rewrite app_nil_r. apply yields_const.
Qed.

Lemma takes_delimited t x b y :
  Z.of_nat (length (sized b)) < 2 ^ 64 →
  (∀ num nm, yields (λ f, Decoder.putvalue_body gens (Decoder.putvalue gens f) nm 2 t true x num b) (Ret y)) →
  takes t x (2, sized b) y.
Proof.
  intros Hb Hy. eapply takes_body; [|intros nm num' _; apply Hy]. intros rest. cbn. apply pull_sized.
  unfold sized in Hb. rewrite length_app in Hb. lia.
Qed.

Lemma single_packed t u l :
  strip t = TSlice u → scalar t = None → named_plain t → packable u → Forall (scalar_ok u) l →
  ∃ b, (∀ addr v, Encoder.elems v = l → encodes t addr v [(2, sized b)]) ∧
    (Z.of_nat (length (sized b)) < 2 ^ 64 →
     takes t VNil (2, sized b) (if decide (l = []) then VNil else VSeq (map (scalar_norm u) l))).
Proof.
  intros Ht Hs Hpl Hu Hl. destruct (slice_packed t u Ht Hpl Hu) as (p & Hp & Henc).
  assert (kind t = Slice) as Hk by (by rewrite <-kind_strip, Ht).
  assert (Elem t = u) as He by (by rewrite <-Elem_strip, Ht).
  exists (l ≫= p). split.
  - intros addr v <-. apply encodes_delimited; [done|]. intros rec key prefix _.
    unfold Encoder.kind_value. rewrite Hk. apply Henc.
  - intros Hb. apply takes_delimited; [done|]. intros num nm.
    unfold Decoder.putvalue_body. rewrite Hk. cbn [negb Z.eqb Pos.eqb].
    unfold Decoder.slice. rewrite Hk, He. destruct Hu as [[w Hw] Hsc]. rewrite Hw in *.
    rewrite <-(wire_scalar u w) by done. rewrite bool_decide_eq_true_2 by done.
    eapply packed_loop_reads; [done..| |lia]. unfold sized in Hb. rewrite length_app in Hb. lia.
Qed.

Lemma single_bytes t b v :
  scalar t = None → kind t = Slice ∨ kind t = Array ∧ length b = array_len t → Elem t = TUint8 →
  Encoder.bytes_of v = b →
  (∀ addr, encodes t addr v [(2, sized b)]) ∧
  (Z.of_nat (length (sized b)) < 2 ^ 64 → ∀ x, takes t x (2, sized b) (VBytes b)).
Proof.
  intros Ht Hk He Hv. split.
  - intros addr. apply encodes_delimited; [done|]. intros rec key prefix _.
    assert (Encoder.sliceReflect rec key t addr v = Ret (Encoder.delimited key b)) as Hr.
    { unfold Encoder.sliceReflect. rewrite He, Hv. by destruct Hk as [-> | [-> _]]. }
    unfold Encoder.kind_value.
    assert (Encoder.slice rec key t addr v = Ret (Encoder.delimited key b)) as Hs.
    { destruct t; try exact Hr. cbn in He. subst. done. }
    by destruct Hk as [-> | [-> _]].
  - intros Hb x. apply takes_delimited; [done|]. intros num nm. unfold Decoder.putvalue_body.
    eapply yields_ext; [|apply yields_const]. intros f. cbn [negb Z.eqb Pos.eqb].
    assert (Decoder.slice (Decoder.putvalue gens f) nm t x b = Ret (VBytes b)) as Hs.
    { unfold Decoder.slice. rewrite He. cbn. destruct Hk as [-> | [-> Hl]]; [done|].
      rewrite decide_True by done. by rewrite decide_True. }
    by destruct Hk as [-> | [-> _]].
Qed.

Lemma single_iface name dt x :
  marshals name dt x →
  ∃ b, (∀ addr, encodes (TInterface name) addr (VIface dt x) [(2, sized b)]) ∧
    (Z.of_nat (length (sized b)) < 2 ^ 64 →
     takes (TInterface name) VNil (2, sized b) (VIface dt x)).
Proof.
  intros (marshal & mid & unmarshal & b & g & Hm & Hmx & Hne & Hmid & Hlen & Hg & Himp & Hu & Hux).
  exists (mid x ++ b). split.
  - intros addr. apply encodes_delimited; [done|]. intros rec key prefix _.
    unfold Encoder.kind_value, Encoder.encode_interface. cbn [kind]. rewrite Hm, Hmx. cbn [obind].
    unfold Interfaces.get. rewrite Hmid, Hg. unfold Encoder.delimited.
    by rewrite !length_app, (Nat.add_comm (length b)).
  - intros Hb. apply takes_delimited; [done|]. intros num nm. unfold Decoder.putvalue_body.
    cbn [kind negb]. eapply yields_ext; [|apply yields_const]. intros f.
    unfold Decoder.put_interface. rewrite take_app_length' by done. rewrite length_app.
    destruct b as [|c b]; [done|].
    match goal with |- context [(8 <? ?n)%nat] => destruct (Nat.ltb_spec 8 n) end; [|cbn in *; lia].
    unfold Interfaces.get. rewrite Hg. cbn [obind fst snd].
    unfold Decoder.set_interface. cbn [fst snd]. rewrite Himp. cbn [obind fst snd]. rewrite Hu. cbn. by rewrite drop_app_length', Hux.
Qed.

Lemma single_ptr t u : strip t = TPtr u → single_claim u → single_claim t.
Proof.
  intros Ht IH addr v Hwf.
  assert (kind t = Ptr) as Hk by (by rewrite <-kind_strip, Ht).
  assert (Elem t = u) as He by (by rewrite <-Elem_strip, Ht).
  assert (scalar t = None) as Hs by (destruct t; try done; cbn in *; by rewrite Hk).
  destruct (wf_strip _ _ _ _ Hs Hwf) as (Hwf' & -> & -> & _). rewrite Ht in *.
  cbn in Hwf'. destruct v as [| | | | | | | |x| | | |]; try done. destruct Hwf' as [Hni Hwf'].
  destruct (IH true x Hwf') as (body & Henc & Hdec). cbn [wire scalar kind norm].
  exists body. split.
  - intros key prefix _. apply value_nonscalar; [done|]. unfold Encoder.kind_value.
    rewrite Hk, He. apply Henc. intros _ Hku ->.
    clear -Hwf' Hku. induction u; try done; cbn in *; rewrite ?Hku in *; naive_solver.
  - intros Hb x0 Hx. destruct (Hdec Hb (zero u)) as (num & vb & Hp & Hy); [by left|].
    eapply takes_body; [exact Hp|]. intros nm num' Hnum. unfold Decoder.putvalue_body.
    rewrite Hk, He. cbn [negb].
    eapply yields_bind with (a := VPtr (zero u)).
    + eapply yields_ext; [|apply yields_const]. intros f.
      assert (x0 = VNil ∨ x0 = VPtr (zero u)) as [-> | ->]; [|..|done].
      { unfold fresh, alloc in Hx. rewrite He, Hk, <-zero_strip, Ht in Hx. cbn in Hx. tauto. }
      rewrite decide_False by done. unfold Decoder.instantiate.
      destruct u; try done; cbn in Hni |- *; destruct (kind u); done.
    + cbv beta iota. eapply yields_bind; [by apply Hy|]. apply yields_const.
Qed.

(** ** Structs: the encoder's side *)

Definition fkey (p : ProtoField) : Z := wrapU 64 (Z.shiftl (wrapU 64 (ID p)) 3).

(** A field that is exported gives its chunks, another one none. *)
Definition row_ok (p : ProtoField) (f : StructField) (ft : gtype) (x : gvalue)
    (cs : list chunk) (y : gvalue) : Prop :=
  if exported f then
    encodes ft true x cs ∧ (Prefix p = TagRequired → kind ft = Ptr → x ≠ VNil) ∧
    Forall (λ c, 0 <= c.1 < 8) cs ∧ (Forall small cs → takes_all ft (zero ft) cs y)
  else cs = [] ∧ y = zero ft.

(** The fields from position [n] with their values, chunks and results. *)
Inductive rows : nat → list ProtoField → list (StructField * gtype) → list gvalue →
                 list (list chunk) → list gvalue → Prop :=
  | rows_nil n : rows n [] [] [] [] []
  | rows_cons n p ps f ft fs x xs cs css y ys :
      Index p = [n] → row_ok p f ft x cs y → rows (Datatypes.S n) ps fs xs css ys →
      rows n (p :: ps) ((f, ft) :: fs) (x :: xs) (cs :: css) (y :: ys).

Fixpoint rows_bytes (ps : list ProtoField) (css : list (list chunk)) : bytes :=
  match ps, css with
  | p :: ps, cs :: css => (cs ≫= chunk_bytes (fkey p)) ++ rows_bytes ps css
  | _, _ => []
  end.

Lemma field_at n t f ft fs vs x addr :
  fields_of t = Some fs → fs !! n = Some (f, ft) → vs !! n = Some x →
  Encoder.FieldByIndex [n] t (VStruct vs) addr false = Ret (ft, x, addr && exported f).
Proof.
  intros Ht Hf Hx. cbn. rewrite Ht, Hf, Hx. do 2 f_equal.
  destruct addr, (exported f), (Anonymous f); done.
Qed.

Lemma rows_encode n ps fs xs css ys : rows n ps fs xs css ys →
  ∀ t fs0 pre acc nopub, fields_of t = Some (fs0 ++ fs) → length fs0 = n → length pre = n →
  yields (λ f, ofoldM (Encoder.encode_field (Encoder.value gens f) (t, VStruct (pre ++ xs), true))
                      (acc, nopub) ps)
         (Ret (acc ++ rows_bytes ps css, nopub && negb (existsb (λ f, exported f.1) fs))).
Proof.
  induction 1 as [n|n p ps f ft fs x xs cs css y ys Hi Hrow _ IH]; intros t fs0 pre acc nopub Ht Hf Hp.
  { cbn. rewrite app_nil_r, andb_true_r. apply yields_const. }
  cbn [ofoldM rows_bytes existsb fst].
  eapply yields_bind with
    (a := (acc ++ (cs ≫= chunk_bytes (fkey p)), nopub && negb (exported f))).
  - cbn [Encoder.encode_field]. rewrite Hi.
    rewrite (field_at n t f ft (fs0 ++ (f, ft) :: fs) (pre ++ x :: xs) x true Ht)
      by (rewrite lookup_app_r, ?Hf, ?Hp, Nat.sub_diag by lia; done).
    cbn [obind andb]. unfold row_ok in Hrow. destruct (exported f).
    + destruct Hrow as (Henc & Hreq & _ & _).
      eapply (yields_map (Encoder.in_field _) _ (Ret _)).
      eapply yields_bind; [apply Henc, Hreq|]. rewrite andb_false_r. apply yields_const.
    + destruct Hrow as [-> _]. cbn. rewrite app_nil_r, andb_true_r. apply yields_const.
  - specialize (IH t (fs0 ++ [(f, ft)]) (pre ++ [x]) (acc ++ (cs ≫= chunk_bytes (fkey p)))
                  (nopub && negb (exported f))).
    rewrite <-!app_assoc, !length_app in IH. cbn [app length] in IH.
    rewrite negb_orb, andb_assoc. apply IH; [done|lia..].
Qed.

(** ** Structs: the decoder's side *)

Lemma ascending_in ps last p :
  ascending last (ID <$> ps) = true → p ∈ ps → last < ID p < 2 ^ 61.
Proof.
  revert last. induction ps as [|q ps IH]; intros last Ha Hp; [by apply elem_of_nil in Hp|].
  cbn in Ha. apply andb_prop in Ha as [[Ha Hb]%andb_prop Hc].
  apply elem_of_cons in Hp as [->|Hp]; [lia|]. specialize (IH _ Hc Hp). lia.
Qed.

(** The decoder is at one of the fields before [ps] or at [ps]. *)
Definition ready (L ps : list ProtoField) : Prop :=
  ∃ pre, L = pre ++ ps ∧ ∀ q p, q ∈ pre → p ∈ ps → ID q < ID p.

Lemma ready_refl ps : ready ps ps.
Proof. exists []. split; [done|]. intros q p Hq. by apply elem_of_nil in Hq. Qed.

Lemma ready_advance L p ps : ready L (p :: ps) → Decoder.advance (ID p) L = p :: ps.
Proof.
  intros (pre & -> & Hlt). induction pre as [|q pre IH]; cbn.
  - by rewrite Z.ltb_irrefl.
  - assert (ID q < ID p) by (apply Hlt; by left). destruct (Z.ltb_spec (ID q) (ID p)); [|lia].
    apply IH. intros q' p' Hq' Hp'. apply Hlt; [by right|done].
Qed.

Lemma ready_skip L p ps :
  (∀ q, q ∈ ps → ID p < ID q) → ready L (p :: ps) → ready L ps.
Proof.
  intros Hps (pre & -> & Hlt). exists (pre ++ [p]). rewrite <-app_assoc. split; [done|].
  intros q p' [Hq|Hq]%elem_of_app Hp'; [apply Hlt; [done|by right]|].
  apply elem_of_cons in Hq as [->|Hq]; [auto|by apply elem_of_nil in Hq].
Qed.

Lemma key_parts id wt :
  0 < id < 2 ^ 61 → 0 <= wt < 8 →
  let key := Z.lor (Z.shiftl id 3) wt in 0 <= key < 2 ^ 64 ∧ Z.land key 7 = wt ∧ Z.shiftr key 3 = id.
Proof.
  intros Hp Hw. cbn zeta.
  assert (Z.shiftl id 3 = 8 * id) as Hs by (rewrite Z.shiftl_mul_pow2; lia).
  assert (Z.land (Z.shiftl id 3) wt = 0) as Hd.
  { apply Z.bits_inj'. intros n Hn. rewrite Z.land_spec, Z.bits_0, Z.shiftl_spec by lia.
    destruct (Z.ltb_spec n 3); [by rewrite Z.testbit_neg_r by lia|].
    rewrite <-(Z.mod_small wt (2 ^ 3)), Z.mod_pow2_bits_high by lia. apply andb_false_r. }
  assert (Z.lor (Z.shiftl id 3) wt = 8 * id + wt) as ->.
  { rewrite <-Hs, Z.add_nocarry_lxor, Z.lxor_lor; done. }
  change 7 with (Z.ones 3). rewrite Z.land_ones, Z.shiftr_div_pow2 by lia.
  change (2 ^ 3) with 8. split; [lia|]. Z.div_mod_to_equations. lia.
Qed.

Lemma fkey_small p : 0 < ID p < 2 ^ 61 → fkey p = Z.shiftl (ID p) 3.
Proof.
  intros Hp. unfold fkey. rewrite (wrapU_small 64 (ID p)) by lia.
  apply wrapU_small. rewrite Z.shiftl_mul_pow2; lia.
Qed.

Lemma message_step rec nm rounds L t key rest sval :
  0 <= key < 2 ^ 64 →
  Decoder.message_loop rec nm (Datatypes.S rounds) L t (uvarint key ++ rest) sval =
  let fields := Decoder.advance (Z.shiftr key 3) L in
  let into := Decoder.value rec nm (Z.land key 7) rest in
  let! (sval, buf) :=
    match fields with
    | p :: _ =>
        if ID p =? Z.shiftr key 3 then
          Decoder.with_field (Index p) t sval true false
            (λ ft set x, Decoder.in_message fields (into ft set x))
        else Decoder.in_message fields (let! (_, buf) := into t false sval in Ret (sval, buf))
    | [] => let! (_, buf) := into t false sval in Ret (sval, buf)
    end in
  Decoder.message_loop rec nm rounds fields t buf sval.
Proof.
  intros Hk. pose proof (uvarint_pos key) as Hpos.
  assert (uvarint key ++ rest ≠ []) as Hne by (destruct (uvarint key); [cbn in Hpos; lia|done]).
  assert (Uvarint (uvarint key ++ rest) = (key, Z.of_nat (length (uvarint key)))) as Hu
    by (by apply uvarint_read).
  assert (drop (Z.to_nat (Z.of_nat (length (uvarint key)))) (uvarint key ++ rest) = rest) as Hd
    by (by rewrite Nat2Z.id, drop_app_length).
  destruct (uvarint key ++ rest) as [|b buf]; [done|]. unfold Decoder.message_loop at 1.
  rewrite Hu, Hd. destruct (Z.leb_spec (Z.of_nat (length (uvarint key))) 0); [lia|]. done.
Qed.

Lemma with_field_at {A} n t f ft fs vs x (k : gtype → bool → gvalue → outcome error (gvalue * A)) :
  fields_of t = Some fs → fs !! n = Some (f, ft) → vs !! n = Some x → exported f = true →
  Decoder.with_field [n] t (VStruct vs) true false k =
  let! (y, a) := k ft true (alloc ft x) in Ret (VStruct (<[n := y]> vs), a).
Proof.
  intros Ht Hf Hx He. cbn. rewrite Ht, Hf, Hx, He. cbn. unfold alloc.
  destruct (bool_decide (kind ft = Ptr) && is_nil x); cbn; by destruct (k ft true _) as [[]| | |].
Qed.

Section field_loop.
Context (t : gtype) (fs : list (StructField * gtype)) (Hfs : fields_of t = Some fs).
Context (nm : gmap string (gtype * gvalue)) (res : outcome error gvalue).

(** The loop gives [res] from here, with enough rounds. *)
Definition loops (L : list ProtoField) (buf : bytes) (vs : list gvalue) : Prop :=
  ∀ rounds, (length buf ≤ rounds)%nat →
  yields (λ f, Decoder.message_loop (Decoder.putvalue gens f) nm rounds L t buf (VStruct vs)) res.

(** One pair of field [p]. *)
Lemma chunk_loop n p ps f ft c L vs x z rest :
  fs !! n = Some (f, ft) → exported f = true → Index p = [n] → 0 < ID p < 2 ^ 61 →
  0 <= c.1 < 8 → ready L (p :: ps) → vs !! n = Some x → takes ft (alloc ft x) c z →
  loops (p :: ps) rest (<[n := z]> vs) → loops L (chunk_bytes (fkey p) c ++ rest) vs.
Proof.
  intros Hf He Hi Hid Hc HL Hx Hz Hk rounds Hr. destruct c as [wt body]. cbn [fst] in Hc.
  destruct (key_parts (ID p) wt Hid Hc) as (Hkey & Hwt & Hfn).
  rewrite <-fkey_small in * by done. unfold chunk_bytes in *. cbn [fst snd] in *. rewrite <-app_assoc, !length_app in *.
  pose proof (uvarint_pos (Z.lor (fkey p) wt)). destruct rounds as [|rounds]; [lia|].
  eapply yields_ext; [intros f'; by apply message_step|]. cbv zeta. rewrite Hfn, Hwt.
  rewrite (ready_advance L p ps HL), Z.eqb_refl, Hi.
  eapply yields_bind with (a := (VStruct (<[n := z]> vs), rest)).
  - eapply yields_ext; [intros f'; by apply (with_field_at n t f ft fs vs x)|].
    eapply yields_bind with (a := (z, rest)); [|apply yields_const].
    apply (yields_map (Decoder.in_message (p :: ps)) _ (Ret (z, rest))).
    by apply (takes_value ft _ (wt, body)).
  - apply Hk. lia.
Qed.

(** All pairs of field [p]. *)
Lemma field_loop n p ps f ft cs x y rest : 
  fs !! n = Some (f, ft) → exported f = true → Index p = [n] → 0 < ID p < 2 ^ 61 →
  (∀ q, q ∈ ps → ID p < ID q) → Forall small cs → takes_all ft x cs y →
  ∀ L vs, ready L (p :: ps) → vs !! n = Some x →
  (∀ L', ready L' ps → loops L' rest (<[n := y]> vs)) →
  loops L ((cs ≫= chunk_bytes (fkey p)) ++ rest) vs.
Proof.
  intros Hf He Hi Hid Hps Hcs. revert x. induction Hcs as [|c cs [Hc _] Hcs IH]; intros x Hy L vs HL Hx Hk.
  - cbn in Hy. subst y. cbn. rewrite <-(list_insert_id vs n x) by done.
    apply Hk. by apply (ready_skip L p).
  - destruct Hy as (z & Hz & Hy). cbn [mbind list_bind]. rewrite <-app_assoc.
    eapply chunk_loop; [done..|]. eapply IH; [exact Hy|apply ready_refl| |].
    + apply list_lookup_insert_eq. by eapply lookup_lt_Some.
    + intros L' HL'. rewrite list_insert_insert_eq. by apply Hk.
Qed.

Lemma rows_decode n ps fs2 xs css ys : rows n ps fs2 xs css ys →
  ∀ fs1 pre L last, fs = fs1 ++ fs2 → length fs1 = n → length pre = n → 0 <= last →
  ascending last (ID <$> ps) = true → Forall (Forall small) css → ready L ps →
  res = Ret (VStruct (pre ++ ys)) →
  loops L (rows_bytes ps css) (pre ++ map (λ f, zero f.2) fs2).
Proof.
  induction 1 as [n|n p ps f ft fs2 x xs cs css y ys Hi Hrow _ IH];
    intros fs1 pre L last Hfs12 Hf Hp Hlast Hasc Hsm HL Hres.
  { intros rounds _. cbn. eapply yields_ext; [|rewrite Hres; apply yields_const].
    by destruct rounds. }
  apply Forall_cons_1 in Hsm as [Hcs Hsm]. cbn [rows_bytes map].
  pose proof (ascending_in _ _ p Hasc ltac:(by left)) as Hid.
  cbn in Hasc. apply andb_prop in Hasc as [_ Hasc].
  assert (∀ q, q ∈ ps → ID p < ID q) as Hps by (intros q Hq; by apply (ascending_in _ _ _ Hasc)).
  assert (∀ L', ready L' ps → loops L' (rows_bytes ps css) ((pre ++ [y]) ++ map (λ f, zero f.2) fs2)) as Hrest.
  { intros L' HL'. apply (IH (fs1 ++ [(f, ft)]) (pre ++ [y]) L' (ID p));
      rewrite ?length_app, ?Hfs12, ?Hres, <-?app_assoc; cbn [length app]; done || lia. }
  rewrite <-app_assoc in Hrest. unfold row_ok in Hrow. destruct (exported f) eqn:He.
  - destruct Hrow as (_ & _ & _ & Htake).
    assert (fs !! n = Some (f, ft)) as Hfn by (rewrite Hfs12, lookup_app_r, Hf, Nat.sub_diag by lia; done).
    eapply (field_loop n p ps f ft cs (zero ft)); [done..|lia|done|done|by apply Htake|done| |].
    + rewrite lookup_app_r, Hp, Nat.sub_diag by lia. done.
    + intros L' HL'. rewrite insert_app_r_alt, Hp, Nat.sub_diag by lia. by apply Hrest.
  - destruct Hrow as [-> ->]. cbn. apply Hrest. by apply (ready_skip L p).
Qed.
End field_loop.

(** ** Structs: both sides *)

Lemma struct_rows fs : Forall (λ f, field_claim f.2) fs → ∀ n ps vs,
  Index <$> ps = (λ i, [i]) <$> seq n (length fs) →
  wf_fields (wf false true) fs vs →
  forallb (λ '(p, x), negb (bool_decide (Prefix p = TagRequired) && is_nil x)) (zip ps vs) = true →
  ∃ css, rows n ps fs vs css (norm_fields norm fs vs).
Proof.
  induction 1 as [|[f ft] fs Hf _ IH]; intros n ps vs Hi Hwf Hreq.
  { destruct ps; [|done]. destruct vs; [|done]. exists []. constructor. }
  destruct ps as [|p ps]; [done|]. cbn in Hi. injection Hi as Hi Hps.
  destruct vs as [|x vs]; [done|]. cbn in Hwf. destruct Hwf as [Hx Hwf].
  cbn in Hreq. apply andb_prop in Hreq as [Hr Hreq].
  destruct (IH (Datatypes.S n) ps vs Hps Hwf Hreq) as (css & Hcss).
  assert (Prefix p = TagRequired → kind ft = Ptr → x ≠ VNil) as Hnil.
  { intros Hp _ ->. by rewrite bool_decide_eq_true_2 in Hr. }
  destruct (exported f) eqn:He.
  - destruct (Hf x (Hx eq_refl)) as (cs & Henc & Hrange & Hdec).
    exists (cs :: css). cbn. rewrite He. apply rows_cons; [done| |done].
    unfold row_ok. by rewrite He.
  - exists ([] :: css). cbn. rewrite He. apply rows_cons; [done| |done].
    unfold row_ok. by rewrite He.
Qed.

Lemma rows_small n ps fs xs css ys : rows n ps fs xs css ys →
  Z.of_nat (length (rows_bytes ps css)) < 2 ^ 64 → Forall (Forall small) css.
Proof.
  induction 1 as [|n p ps f ft fs x xs cs css y ys _ Hrow _ IH]; intros Hl; [done|].
  cbn in Hl. rewrite length_app in Hl. constructor; [|apply IH; lia].
  assert (Forall (λ c, 0 <= c.1 < 8) cs) as Hrange.
  { unfold row_ok in Hrow. destruct (exported f); [apply Hrow|]. destruct Hrow as [-> _]. done. }
  clear -Hrange Hl. induction Hrange as [|c cs Hc _ IH]; [done|].
  cbn [mbind list_bind] in Hl. unfold chunk_bytes in Hl at 1. rewrite !length_app in Hl.
  constructor; [split; [done|lia]|apply IH; lia].
Qed.

Lemma wf_fields_length W fs vs : wf_fields W fs vs → length vs = length fs.
Proof.
  revert vs. induction fs as [|[f ft] fs IH]; intros [|x vs]; cbn; try done.
  intros [_ Hw]. f_equal. auto.
Qed.

(** A message: what [Encoder.message] writes and [Decoder.message] reads. *)
Lemma struct_message t fs v :
  strip t = TStruct fs → Forall (λ f, field_claim f.2) fs → wf true true (TStruct fs) v →
  ∃ b, yields (λ f, Encoder.message (Encoder.value gens f) t true v) (Ret b) ∧
    (Z.of_nat (length b) < 2 ^ 64 → ∀ nm,
     yields (λ f, Decoder.message (Decoder.putvalue gens f) nm b t (zero t))
            (Ret (norm (TStruct fs) v))).
Proof.
  intros Ht Hall Hwf. cbn in Hwf. destruct v as [| | | | | |vs| | | | | |]; try done.
  destruct Hwf as (_ & Hok & Hwf). unfold struct_ok in Hok. rewrite <-Ht, ProtoFields_strip in Hok.
  destruct (ProtoFields t) as [idx| | |] eqn:Hidx; try done.
  assert (fields_of t = Some fs) as Hfs by (by rewrite <-fields_of_strip, Ht).
  rewrite fields_of_strip, Hfs in Hok. apply andb_prop in Hok as [[[Hi Ha]%andb_prop He]%andb_prop Hr].
  apply bool_decide_eq_true in Hi.
  destruct (struct_rows fs Hall 0 idx vs Hi Hwf Hr) as (css & Hrows).
  exists (rows_bytes idx css). split.
  - pose proof (rows_encode _ _ _ _ _ _ Hrows t [] [] [] true Hfs eq_refl eq_refl) as Henc.
    unfold Encoder.message. rewrite Hidx. cbn [obind app] in *.
    destruct (last idx) as [p|] eqn:Hlast.
    + eapply yields_bind; [exact Henc|]. apply orb_prop in He as [->|He].
      * apply yields_const.
      * apply bool_decide_eq_true in He. subst fs. destruct idx; [done|]. done.
    + apply last_None in Hlast. subst idx. apply yields_const.
  - intros Hl nm. unfold Decoder.message.
    assert (kind t = Struct) as Hk by (by rewrite <-kind_strip, Ht). destruct (decide _) as [_|]; [|done].
    rewrite Hidx, <-zero_strip, Ht. cbn [obind zero].
    eapply (rows_decode t fs Hfs nm _ 0 idx fs vs css _ Hrows [] [] idx 0); try done;
      [by eapply rows_small|apply ready_refl].
Qed.

Lemma single_struct t fs :
  strip t = TStruct fs → Forall (λ f, field_claim f.2) fs → single_claim t.
Proof.
  intros Ht Hall addr v Hwf.
  assert (kind t = Struct) as Hk by (by rewrite <-kind_strip, Ht).
  assert (t ≠ TTime) as Htime by (by intros ->).
  assert (scalar t = None) as Hs by (destruct t; try done; cbn in *; by rewrite Hk).
  destruct (wf_strip _ _ _ _ Hs Hwf) as (Hwf' & -> & -> & _). rewrite Ht in *.
  assert (addr = true) as -> by (destruct v; try done; apply Hwf').
  destruct (struct_message t fs v Ht Hall Hwf') as (b & Henc & Hdec).
  cbn [wire scalar kind]. exists (sized b). split.
  - intros key prefix _. apply value_nonscalar; [done|]. unfold Encoder.kind_value. rewrite Hk.
    eapply yields_bind; [exact Henc|]. cbn [mbind list_bind]. rewrite app_nil_r. apply yields_const.
  - intros Hb x Hx.
    assert (x = zero t) as ->.
    { unfold fresh, alloc in Hx. rewrite Hk in Hx. cbn in Hx. tauto. }
    apply takes_delimited; [done|]. intros num nm. unfold Decoder.putvalue_body. rewrite Hk. cbn [negb].
    eapply yields_ext; [|apply Hdec; unfold sized in Hb; rewrite length_app in Hb; lia].
    intros f. by destruct t.
Qed.

(** ** Repeated values *)

Lemma repeated_chunks u l : single_claim u → wire u = 2 → Forall (wf true true u) l →
  ∃ bs, Forall2 (λ x b, encodes u true x [(2, b)] ∧
                        (Z.of_nat (length b) < 2 ^ 64 → takes u (zero u) (2, b) (norm u x))) l bs.
Proof.
  intros Hu Hw. induction 1 as [|x l Hx _ [bs IH]]; [by exists []|].
  destruct (Hu true x Hx) as (b & Henc & Hdec). rewrite Hw in *.
  exists (b :: bs). constructor; [|done]. split; [done|]. intros Hb. apply Hdec; [done|by left].
Qed.

Lemma repeated_encode u l bs key en :
  Forall2 (λ x b, encodes u true x [(2, b)] ∧
                  (Z.of_nat (length b) < 2 ^ 64 → takes u (zero u) (2, b) (norm u x))) l bs →
  yields (λ f, ofoldM (λ en x, let! b := Encoder.value gens f key u true x TagNone in Ret (en ++ b)) en l)
         (Ret (en ++ (bs ≫= λ b, chunk_bytes key (2, b)))).
Proof.
  intros Hl. revert en. induction Hl as [|x b l bs [Henc _] _ IH]; intros en; cbn.
  { rewrite app_nil_r. apply yields_const. }
  eapply yields_bind; [eapply yields_bind; [by apply Henc|apply yields_const]|].
  cbn [mbind list_bind]. rewrite app_nil_r, app_assoc. apply IH.
Qed.

Lemma repeated_strings l bs key :
  Forall (scalar_ok TString) l →
  Forall2 (λ x b, encodes TString true x [(2, b)] ∧
                  (Z.of_nat (length b) < 2 ^ 64 → takes TString (zero TString) (2, b) (norm TString x))) l bs →
  (l ≫= λ x, Encoder.delimited key (Encoder.string_of x)) = (bs ≫= λ b, chunk_bytes key (2, b)).
Proof.
  intros Hok Hl. induction Hl as [|x b l bs [Henc _] _ IH]; [done|].
  apply Forall_cons_1 in Hok as [Hx Hok]. cbn. rewrite (IH Hok). f_equal.
  assert (yields (λ f, Encoder.value gens f key TString true x TagNone)
            (Ret (Encoder.delimited key (Encoder.string_of x)))) as H1
    by (apply yields_succ; eapply yields_ext; [|apply yields_const]; done).
  pose proof (yields_fun _ _ _ H1 (Henc key TagNone ltac:(done))) as E.
  injection E as E. rewrite E. cbn. by rewrite app_nil_r.
Qed.

Lemma repeated_takes t u xs : strip t = TSlice u → repeatable u → Forall (wf true true u) xs →
  ∀ bs, Forall2 (λ x b, encodes u true x [(2, b)] ∧
                  (Z.of_nat (length b) < 2 ^ 64 → takes u (zero u) (2, b) (norm u x))) xs bs →
  Forall small ((λ b, (2, b)) <$> bs) → ∀ cur,
  takes_all t cur ((λ b, (2, b)) <$> bs)
            (if decide (xs = []) then cur else VSeq (Encoder.elems cur ++ map (norm u) xs)).
Proof.
  intros Ht (Hew & Hk8 & _ & _) _ bs Hl.
  assert (kind t = Slice) as Hk by (by rewrite <-kind_strip, Ht).
  assert (Elem t = u) as He by (by rewrite <-Elem_strip, Ht).
  induction Hl as [|x b xs bs [_ Hdec] _ IH]; intros Hsm cur; [done|].
  cbn [fmap list_fmap] in *. apply Forall_cons_1 in Hsm as [[_ Hb] Hsm].
  exists (VSeq (Encoder.elems cur ++ [norm u x])). split.
  - destruct (Hdec Hb) as (num & vb & Hp & Hy). eapply takes_body; [exact Hp|].
    intros nm num' _. unfold Decoder.putvalue_body, alloc. rewrite Hk.
    cbn [negb Z.eqb Pos.eqb bool_decide decide]. unfold Decoder.slice. rewrite Hk, He, Hew.
    assert (∀ A (a b : A), match kind u with Uint8 => a | _ => b end = b) as Hm by (by intros; destruct (kind u)).
    eapply yields_ext; [intros f; apply Hm|].
    eapply yields_bind; [by apply Hy|]. cbn. apply yields_const.
  - specialize (IH Hsm (VSeq (Encoder.elems cur ++ [norm u x]))). cbn [Encoder.elems] in IH.
    rewrite <-app_assoc in IH. rewrite decide_False by done.
    destruct (decide (xs = [])) as [->|]; exact IH.
Qed.

Lemma field_repeated t u l v :
  strip t = TSlice u → named_plain t → scalar t = None → repeatable u → single_claim u →
  Forall (wf true true u) l → Encoder.elems v = l →
  ∃ cs, encodes t true v cs ∧ Forall (λ c, 0 <= c.1 < 8) cs ∧
    (Forall small cs → takes_all t VNil cs (if decide (l = []) then VNil else VSeq (map (norm u) l))).
Proof.
  intros Ht Hpl Hs Hu Hsu Hl Hv.
  assert (kind t = Slice) as Hk by (by rewrite <-kind_strip, Ht).
  assert (Elem t = u) as He by (by rewrite <-Elem_strip, Ht).
  destruct (repeated_chunks u l Hsu ltac:(apply Hu) Hl) as (bs & Hbs).
  exists ((λ b, (2, b)) <$> bs). split; [|split].
  - intros key prefix _. apply value_nonscalar; [done|]. unfold Encoder.kind_value. rewrite Hk.
    assert (((λ b, (2, b)) <$> bs) ≫= chunk_bytes key = bs ≫= λ b, chunk_bytes key (2, b)) as ->.
    { clear. induction bs as [|b bs IH]; [done|]. cbn. by rewrite IH. }
    pose proof (repeated_encode u l bs key [] Hbs) as Hr. cbn [app] in Hr.
    assert (∀ rec, Encoder.sliceReflect rec key t true v =
      ofoldM (λ en x, let! b := rec key u true x TagNone in Ret (en ++ b)) [] l) as Hrefl.
    { intros rec. unfold Encoder.sliceReflect. rewrite Hk, He, Hv. destruct Hu as (Hew & Hk8 & Hw & H2).
      unfold Decoder.elem_wiretype in Hew.
      destruct (kind u) eqn:Hku; try (by destruct u); try done;
        rewrite ?(bool_decide_eq_true_2 (kind (Elem u) = Uint8)) by auto; done. }
    assert (t = TSlice TString ∨ ∀ rec, Encoder.slice rec key t true v = Encoder.sliceReflect rec key t true v)
      as [->|Hsl].
    { destruct t as [| | | | | | | | | | | | | | | | | | |u'| | | |]; try (by right).
      cbn in He. subst u'. destruct Hu as (Hew & Hk8 & _).
      destruct u; try (by right); try (by left); done. }
    + cbn in He. subst u. cbn. rewrite Hv. rewrite (repeated_strings l bs key); [apply yields_const| |done].
      clear -Hl. induction Hl; constructor; auto.
    + eapply yields_ext; [intros f; rewrite Hsl; apply Hrefl|]. exact Hr.
  - clear. induction bs; constructor; [cbn; lia|done].
  - intros Hsm. pose proof (repeated_takes t u l Ht Hu Hl bs Hbs Hsm VNil) as Htk. done.
Qed.

(** ** Maps *)

Lemma wf_nonnil addr u x : wf true addr u x → kind u = Ptr → x ≠ VNil.
Proof.
  intros Hwf Hk ->. induction u; try done; cbn in Hwf, Hk; rewrite ?Hk in Hwf; naive_solver.
Qed.

Section map_fields.
Context (t k u : gtype) (wk : Z) (Ht : strip t = TMap k u) (Hwk : scalar k = Some wk).
Context (Hu : single_claim u).
Context (Hbytes : kind u = Slice ∨ kind u = Array → kind (Elem u) = Uint8).

Let e_ok (e : gvalue * gvalue) : Prop := scalar_ok k e.1 ∧ wf true false u e.2.

(** The two pairs of an entry. *)
Definition entry_bytes (kb vb : bytes) : bytes :=
  chunk_bytes (Z.shiftl 1 3) (wk, kb) ++ chunk_bytes (Z.shiftl 2 3) (wire u, vb).

(** What is known of an entry and its bytes. *)
Definition entry_ok (e : gvalue * gvalue) (b : bytes * bytes) : Prop :=
  encodes k false e.1 [(wk, b.1)] ∧ encodes u false e.2 [(wire u, b.2)] ∧ (kind u = Ptr → e.2 ≠ VNil) ∧
  e.1 ≠ VNil ∧
  (Z.of_nat (length b.1) < 2 ^ 64 → takes k (zero k) (wk, b.1) (scalar_norm k e.1)) ∧
  (Z.of_nat (length b.2) < 2 ^ 64 → takes u (zero u) (wire u, b.2) (norm u e.2)).

Lemma map_chunks l : Forall e_ok l → ∃ bs, Forall2 entry_ok l bs.
Proof.
  induction 1 as [|[mk mv] l [Hk Hv] _ [bs IH]]; [by exists []|]. cbn in Hk, Hv.
  destruct (single_scalar k wk Hwk false mk) as (kb & Hkenc & Hkdec).
  { by destruct k; cbn in *; rewrite ?Hwk. }
  destruct (Hu false mv Hv) as (vb & Hvenc & Hvdec). rewrite (wire_scalar k wk Hwk) in *.
  assert (norm k mk = scalar_norm k mk) as Hn by (destruct k; cbn [norm]; rewrite ?Hwk; done).
  rewrite Hn in Hkdec.
  exists ((kb, vb) :: bs). constructor; [|done].
  repeat split; cbn; try done; try (by intros; apply Hkdec; [done|left]);
    try (by intros; apply Hvdec; [done|left]).
  - intros Hku. by apply (wf_nonnil false u).
  - intros ->. unfold scalar_ok in Hk. by destruct (kind k).
Qed.

Lemma map_entry_encode key prefix e b : entry_ok e b →
  yields (λ f, Encoder.map_entry (Encoder.value gens f) key t prefix e)
         (Ret (chunk_bytes key (2, sized (entry_bytes b.1 b.2)))).
Proof.
  destruct e as [mk mv], b as [kb vb]. intros (Hk & Hv & Hnil & Hknil & _). cbn in *.
  assert (Key t = k) as HK by (by rewrite <-Key_strip, Ht).
  assert (Elem t = u) as HE by (by rewrite <-Elem_strip, Ht).
  rewrite HE, HK.
  set (bad := match kind u with Ptr => _ | _ => _ end).
  assert (bad = None) as ->.
  { subst bad. destruct (kind u) eqn:Hku; try done.
    - destruct mv; try done. by destruct (Hnil eq_refl).
    - rewrite decide_True; auto.
    - rewrite decide_True; auto. }
  eapply yields_bind; [by apply Hk|]. eapply yields_bind; [by apply Hv|].
  cbn [mbind list_bind]. rewrite !app_nil_r. apply yields_const.
Qed.

Lemma map_encode key prefix l bs en : Forall2 entry_ok l bs →
  yields (λ f, ofoldM (λ en e, let! b := Encoder.map_entry (Encoder.value gens f) key t prefix e in
                               Ret (en ++ b)) en l)
         (Ret (en ++ (((λ b, (2, sized (entry_bytes b.1 b.2))) <$> bs) ≫= chunk_bytes key))).
Proof.
  intros Hl. revert en. induction Hl as [|e b l bs He _ IH]; intros en.
  { cbn. rewrite app_nil_r. apply yields_const. }
  cbn [ofoldM fmap list_fmap mbind list_bind].
  eapply yields_bind; [eapply yields_bind; [by apply map_entry_encode|apply yields_const]|].
  rewrite app_assoc. apply IH.
Qed.

Lemma map_set_new l x y :
  Forall (λ e, Decoder.go_eq x e.1 = false) l → Decoder.map_set l x y = l ++ [(x, y)].
Proof.
  induction 1 as [|[k' y'] l Hx _ IH]; [done|]. cbn in *. by rewrite Hx, IH.
Qed.

Lemma uvarint_step key rest : 0 <= key < 2 ^ 64 →
  Uvarint (uvarint key ++ rest) = (key, Z.of_nat (length (uvarint key))) ∧
  (Z.of_nat (length (uvarint key)) <=? 0) = false ∧
  drop (Z.to_nat (Z.of_nat (length (uvarint key)))) (uvarint key ++ rest) = rest.
Proof.
  intros Hk. pose proof (uvarint_pos key). split; [by apply uvarint_read|].
  split; [lia|]. by rewrite Nat2Z.id, drop_app_length.
Qed.

Lemma map_entry_takes e b acc : entry_ok e b →
  Z.of_nat (length (sized (entry_bytes b.1 b.2))) < 2 ^ 64 →
  Forall (λ e', Decoder.go_eq (scalar_norm k e.1) e'.1 = false) acc → ∀ cur,
  match cur with VMap l => l | _ => [] end = acc →
  takes t cur (2, sized (entry_bytes b.1 b.2)) (VMap (acc ++ [(scalar_norm k e.1, norm u e.2)])).
Proof.
  destruct e as [mk mv], b as [kb vb]. intros (_ & _ & _ & _ & Hk & Hv) Hlen Hacc cur Hcur. cbn in *.
  assert (kind t = Map) as Hkt by (by rewrite <-kind_strip, Ht).
  assert (Key t = k) as HK by (by rewrite <-Key_strip, Ht).
  assert (Elem t = u) as HE by (by rewrite <-Elem_strip, Ht).
  apply takes_delimited; [done|]. intros num nm. unfold Decoder.putvalue_body. rewrite Hkt.
  cbn [negb Z.eqb Pos.eqb]. unfold Decoder.mapEntry. rewrite HK, HE.
  unfold entry_bytes, sized, chunk_bytes in *. cbn [fst snd] in *.
  rewrite !length_app in Hlen. rewrite <-app_assoc.
  destruct (key_parts 1 wk ltac:(lia) ltac:(by eapply scalar_wire_range)) as (H1 & H1w & _).
  destruct (key_parts 2 (wire u) ltac:(lia) (wire_range u)) as (H2 & H2w & _).
  destruct (uvarint_step (Z.lor (Z.shiftl 1 3) wk)
              (kb ++ uvarint (Z.lor (Z.shiftl 2 3) (wire u)) ++ vb) H1) as (-> & -> & ->).
  rewrite H1w. eapply yields_bind; [apply (takes_value k (zero k) (wk, kb)), Hk; lia|].
  cbv beta iota.
  eapply yields_bind with (a := norm u mv).
  - pose proof (uvarint_pos (Z.lor (Z.shiftl 2 3) (wire u))) as Hpos.
    destruct (uvarint_step (Z.lor (Z.shiftl 2 3) (wire u)) vb H2) as (E1 & E2 & E3).
    destruct (uvarint (Z.lor (Z.shiftl 2 3) (wire u)) ++ vb) as [|c buf] eqn:Eb.
    { apply app_eq_nil in Eb as [Eb _]. rewrite Eb in Hpos. cbn in Hpos. lia. }
    cbn [length Decoder.entry_loop]. rewrite E1, E2, E3, H2w.
    pose proof (takes_value u (zero u) (wire u, vb) (norm u mv) [] nm ltac:(apply Hv; lia)) as Hval.
    cbn [fst snd] in Hval. rewrite app_nil_r in Hval.
    eapply yields_bind; [exact Hval|]. cbv beta iota.
    eapply yields_ext; [|apply yields_const]. intros f. by destruct (length buf).
  - rewrite Hcur, map_set_new by done. apply yields_const.
Qed.

Lemma map_takes l bs : Forall2 entry_ok l bs → ∀ acc cur,
  match cur with VMap l => l | _ => [] end = acc →
  distinct ((λ e, scalar_norm k e.1) <$> l) = true →
  Forall (λ e', Forall (λ e, Decoder.go_eq (scalar_norm k e.1) e'.1 = false) l) acc →
  Forall small ((λ b, (2, sized (entry_bytes b.1 b.2))) <$> bs) →
  takes_all t cur ((λ b, (2, sized (entry_bytes b.1 b.2))) <$> bs)
    (if decide (l = []) then cur else VMap (acc ++ map (λ e, (scalar_norm k e.1, norm u e.2)) l)).
Proof.
  assert (kind t = Map) as Hkt by (by rewrite <-kind_strip, Ht).
  induction 1 as [|e b l bs He _ IH]; intros acc cur Hcur Hd Hacc Hsm; [done|].
  cbn [fmap list_fmap] in *. apply Forall_cons_1 in Hsm as [[_ Hb] Hsm].
  cbn in Hd. apply andb_prop in Hd as [Hd1 Hd].
  exists (VMap (acc ++ [(scalar_norm k e.1, norm u e.2)])). split.
  - unfold alloc. rewrite Hkt. cbn [bool_decide decide andb].
    apply map_entry_takes; [done|done| |done].
    eapply Forall_impl; [exact Hacc|]. intros e' He'. by apply Forall_cons_1 in He' as [? _].
  - rewrite decide_False by done.
    specialize (IH (acc ++ [(scalar_norm k e.1, norm u e.2)]) (VMap (acc ++ [(scalar_norm k e.1, norm u e.2)]))
                  eq_refl Hd).
    rewrite <-app_assoc in IH.
    assert (Forall (λ e', Forall (λ e, Decoder.go_eq (scalar_norm k e.1) e'.1 = false) l)
                   (acc ++ [(scalar_norm k e.1, norm u e.2)])) as Hacc'.
    { apply Forall_app. split.
      - eapply Forall_impl; [exact Hacc|]. intros e' He'. by apply Forall_cons_1 in He' as [_ ?].
      - constructor; [|done]. apply Forall_forall. intros e' He'.
        rewrite forallb_forall in Hd1. apply negb_true_iff, (Hd1 (scalar_norm k e'.1)).
        apply list_elem_of_In, list_elem_of_fmap. by exists e'. }
    specialize (IH Hacc' Hsm). destruct (decide (l = [])) as [->|Hl]; exact IH.
Qed.
End map_fields.

Lemma field_map t k u l v wk :
  strip t = TMap k u → scalar k = Some wk → single_claim u →
  (kind u = Slice ∨ kind u = Array → kind (Elem u) = Uint8) →
  Forall (λ e, scalar_ok k e.1) l → Forall (λ e, wf true false u e.2) l →
  distinct ((λ e, scalar_norm k e.1) <$> l) = true →
  match v with VMap l => l | _ => [] end = l →
  ∃ cs, encodes t true v cs ∧ Forall (λ c, 0 <= c.1 < 8) cs ∧
    (Forall small cs →
     takes_all t VNil cs (if decide (l = []) then VNil
                          else VMap (map (λ e, (scalar_norm k e.1, norm u e.2)) l))).
Proof.
  intros Ht Hwk Hu Hb Hk Hv Hd Hl.
  assert (kind t = Map) as Hkt by (by rewrite <-kind_strip, Ht).
  assert (scalar t = None) as Hs by (destruct t; try done; cbn in *; by rewrite Hkt).
  destruct (map_chunks t k u wk Ht Hwk Hu l) as (bs & Hbs).
  { clear -Hk Hv. induction Hk; constructor; inversion_clear Hv; auto. }
  exists ((λ b, (2, sized (entry_bytes u wk b.1 b.2))) <$> bs). split; [|split].
  - intros key prefix _. apply value_nonscalar; [done|]. unfold Encoder.kind_value. rewrite Hkt.
    unfold Encoder.handleMap. rewrite Hl.
    pose proof (map_encode t k u wk Ht Hb key prefix l bs [] Hbs) as He. exact He.
  - clear. induction bs; constructor; [cbn; lia|done].
  - intros Hsm.
    pose proof (map_takes t k u wk Ht Hwk l bs Hbs [] VNil eq_refl Hd ltac:(constructor) Hsm) as Htk.
    exact Htk.
Qed.

(** ** All types *)

(** A value that is one pair is the one pair of a field. *)
Lemma field_single t v : single_claim t → wf true true t v →
  ∃ cs, encodes t true v cs ∧ Forall (λ c, 0 <= c.1 < 8) cs ∧
    (Forall small cs → takes_all t (zero t) cs (norm t v)).
Proof.
  intros Ht Hwf. destruct (Ht true v Hwf) as (body & Henc & Hdec).
  exists [(wire t, body)]. split; [done|]. split; [constructor; [apply wire_range|done]|].
  intros Hsm. apply Forall_cons_1 in Hsm as [[_ Hb] _]. eexists. split; [|done].
  apply Hdec; [done|]. by right.
Qed.

Lemma wf_slice addr u v : wf true addr (TSlice u) v →
  u = TUint8 ∧ (∃ b, v = VBytes b ∨ v = VNil ∧ b = []) ∨
  packable u ∧ ∃ l, (v = VSeq l ∨ v = VNil ∧ l = []) ∧ Forall (scalar_ok u) l.
Proof.
  intros Hwf.
  assert (u = TUint8 ∧ match v with VBytes _ | VNil => True | _ => False end ∨
    match v with
    | VNil => packable u
    | VSeq l => packable u ∧ Forall (scalar_ok u) l
    | _ => False
    end) as [[-> Hv]|Hv].
  { cbn in Hwf. destruct u, v; try (by left); try (by right);
      right; destruct Hwf as [Hp|[? _]]; done. }
  - left. split; [done|]. destruct v; try done; eauto.
  - right. destruct v; try done; [|split; [apply Hv|]; eexists; split; [by left|apply Hv]].
    split; [done|]. exists []. split; [by right|done].
Qed.

Lemma single_slice t u : strip t = TSlice u → single_claim t.
Proof.
  intros Ht addr v Hwf.
  assert (kind t = Slice) as Hk by (by rewrite <-kind_strip, Ht).
  assert (scalar t = None) as Hs by (destruct t; try done; cbn in *; by rewrite Hk).
  assert (Elem t = u) as He by (by rewrite <-Elem_strip, Ht).
  destruct (wf_strip _ _ _ _ Hs Hwf) as (Hwf' & -> & -> & Hpl). rewrite Ht in *.
  cbn [wire scalar kind].
  assert (∀ x, fresh t x → x = VNil) as Hfresh.
  { intros x. unfold fresh, alloc. rewrite Hk, <-zero_strip, Ht. cbn. tauto. }
  assert (u = TUint8 ∧ (∃ b, v = VBytes b ∨ v = VNil ∧ b = []) ∨
          packable u ∧ ∃ l, (v = VSeq l ∨ v = VNil ∧ l = []) ∧ Forall (scalar_ok u) l) as [[-> [b Hv]]|[Hu (l & Hv & Hl)]].
  { by apply (wf_slice addr). }
  - destruct (single_bytes t b v Hs (or_introl Hk) He) as [Henc Hdec].
    { destruct Hv as [-> | [-> ->]]; done. }
    exists (sized b). split; [done|]. intros Hb x _.
    assert (norm (TSlice TUint8) v = VBytes b) as -> by (destruct Hv as [-> | [-> ->]]; done).
    by apply Hdec.
  - destruct (single_packed t u l Ht Hs Hpl Hu Hl) as (b & Henc & Hdec).
    exists (sized b). split; [apply Henc; destruct Hv as [-> | [-> ->]]; done|].
    intros Hb x ->%Hfresh. specialize (Hdec Hb).
    assert (map (norm u) l = map (scalar_norm u) l) as E.
    { destruct Hu as [[w Hw] Hsc]. rewrite Hw in Hsc. apply map_ext. intros x.
      destruct u; cbn [norm]; rewrite ?Hsc; done. }
    destruct Hv as [-> | [-> ->]]; cbn [norm scalar kind].
    + by rewrite E.
    + destruct (decide (kind u = Uint8)) as [Hu8|]; [|done].
      destruct Hu as [[w Hw] _]. unfold Decoder.elem_wiretype in Hw. by rewrite Hu8 in Hw.
Qed.

Lemma single_array t n u : strip t = TArray n u → single_claim t.
Proof.
  intros Ht addr v Hwf.
  assert (kind t = Array) as Hk by (by rewrite <-kind_strip, Ht).
  assert (scalar t = None) as Hs by (destruct t; try done; cbn in *; by rewrite Hk).
  destruct (wf_strip _ _ _ _ Hs Hwf) as (Hwf' & -> & -> & _). rewrite Ht in *.
  cbn in Hwf'. destruct u; try done; destruct v as [| | | | | | | | | |b| |]; try done.
  destruct (single_bytes t b (VBytes b) Hs) as [Henc Hdec]; [| |done|].
  { right. split; [done|]. by rewrite <-array_len_strip, Ht. }
  { by rewrite <-Elem_strip, Ht. }
  exists (sized b). split; [done|]. intros Hb x _. by apply Hdec.
Qed.

Lemma wf_lift t v :
  scalar t = None → (wf false true (strip t) v → wf true true (strip t) v) →
  wf false true t v → wf true true t v.
Proof.
  induction t; try (by intros _ H; exact H). intros Hs Hw. cbn [strip wf] in *. rewrite Hs.
  intros [Hp Hwf]. split; [done|]. destruct (scalar t) as [w|] eqn:Hst; [|by apply IHt].
  clear -Hst Hwf. destruct t; cbn [wf] in *; rewrite ?Hst in *; done.
Qed.

Definition claims (t : gtype) : Prop := single_claim t ∧ field_claim t.

Lemma field_lifted t : scalar t = None → single_claim t →
  (∀ v, wf false true (strip t) v → wf true true (strip t) v) → field_claim t.
Proof. intros Hs Ht Hl v Hwf. apply field_single; [done|]. apply wf_lift; auto. Qed.

Lemma claims_scalar t w : scalar t = Some w → claims t.
Proof.
  intros Hs. pose proof (single_scalar t w Hs) as Ht. split; [done|].
  intros v Hwf. apply field_single; [done|].
  destruct t; cbn [wf] in *; rewrite ?Hs in *; done.
Qed.

(** A nil pointer or interface is not written. *)
Lemma field_nil t : scalar t = None → kind t = Ptr ∨ kind t = Interface → 
  ∃ cs, encodes t true VNil cs ∧ Forall (λ c, 0 <= c.1 < 8) cs ∧
    (Forall small cs → takes_all t (zero t) cs VNil).
Proof.
  intros Hs Hk. exists []. split; [|split; [done|]].
  - intros key prefix Hp. apply value_nonscalar; [done|]. eapply yields_ext; [|apply yields_const].
    intros f. unfold Encoder.kind_value. destruct Hk as [Hk|Hk]; rewrite Hk; [|done].
    destruct (decide (prefix = TagRequired)) as [->|]; [|done]. by destruct (Hp eq_refl Hk).
  - intros _. cbn. clear Hs. induction t; cbn in Hk |- *; try done; auto; by destruct Hk.
Qed.

Lemma claims_struct t fs : strip t = TStruct fs → Forall (λ f, field_claim f.2) fs → claims t.
Proof.
  intros Ht Hfs. pose proof (single_struct t fs Ht Hfs) as Hsc. split; [done|].
  apply field_lifted; [|done|by rewrite Ht].
  assert (kind t = Struct) as Hk by (by rewrite <-kind_strip, Ht).
  destruct t; try done; cbn in *; by rewrite Hk.
Qed.

Lemma claims_ptr t u : strip t = TPtr u → single_claim u → claims t.
Proof.
  intros Ht Hu. pose proof (single_ptr t u Ht Hu) as Hsc. split; [done|].
  assert (kind t = Ptr) as Hk by (by rewrite <-kind_strip, Ht).
  assert (scalar t = None) as Hs by (destruct t; try done; cbn in *; by rewrite Hk).
  intros v Hwf. destruct (wf_strip _ _ _ _ Hs Hwf) as (Hwf' & Hn & _). rewrite Ht in *.
  destruct v; try done.
  - rewrite Hn. apply field_nil; auto.
  - apply field_single; [done|]. apply wf_lift; [done| |done]. by rewrite Ht.
Qed.

Lemma claims_slice t u : strip t = TSlice u → single_claim u → claims t.
Proof.
  intros Ht Hu. pose proof (single_slice t u Ht) as Hsc. split; [done|].
  assert (kind t = Slice) as Hk by (by rewrite <-kind_strip, Ht).
  assert (scalar t = None) as Hs by (destruct t; try done; cbn in *; by rewrite Hk).
  intros v Hwf. destruct (wf_strip _ _ _ _ Hs Hwf) as (Hwf' & Hn & _ & Hpl). rewrite Ht in *.
  assert (wf true true (TSlice u) v ∨ repeatable u ∧ ∃ l, (v = VSeq l ∨ v = VNil ∧ l = []) ∧
            Forall (wf true true u) l) as [Hw|(Hrep & l & Hv & Hl)].
  { cbn in Hwf' |- *. destruct u, v; try (by left);
      destruct Hwf' as [Hw|(_ & Hrep & Hw)]; try (by left; left); right; split; try done; eauto. }
  - apply field_single; [done|]. apply wf_lift; [done| |done]. by rewrite Ht.
  - destruct (field_repeated t u l v Ht Hpl Hs Hrep Hu Hl) as (cs & Henc & Hrange & Hdec).
    { destruct Hv as [-> | [-> ->]]; done. }
    exists cs. split; [done|]. split; [done|]. intros Hsm. specialize (Hdec Hsm).
    rewrite Hn, <-zero_strip, Ht.
    destruct Hv as [-> | [-> ->]]; cbn [norm scalar kind]; [done|].
    rewrite decide_False by apply Hrep. done.
Qed.

Lemma claims_array t n u : strip t = TArray n u → claims t.
Proof.
  intros Ht. pose proof (single_array t n u Ht) as Hsc. split; [done|].
  assert (kind t = Array) as Hk by (by rewrite <-kind_strip, Ht).
  apply field_lifted; [|done|by rewrite Ht]. destruct t; try done; cbn in *; by rewrite Hk.
Qed.

Lemma claims_map t k u : strip t = TMap k u → single_claim u → claims t.
Proof.
  intros Ht Hu.
  assert (kind t = Map) as Hk by (by rewrite <-kind_strip, Ht).
  assert (scalar t = None) as Hs by (destruct t; try done; cbn in *; by rewrite Hk).
  split.
  - intros addr v Hwf. destruct (wf_strip _ _ _ _ Hs Hwf) as (Hwf' & _). rewrite Ht in *.
    cbn in Hwf'. destruct v; try done. by destruct Hwf'.
  - intros v Hwf. destruct (wf_strip _ _ _ _ Hs Hwf) as (Hwf' & Hn & _). rewrite Ht in *.
    cbn in Hwf'. destruct v as [| | | | | | | | | | |l|]; try done.
    + exists []. split; [|split; [done|]].
      * intros key prefix _. apply value_nonscalar; [done|]. eapply yields_ext; [|apply yields_const].
        intros f. unfold Encoder.kind_value. by rewrite Hk.
      * intros _. cbn. by rewrite <-zero_strip, Ht, Hn.
    + destruct Hwf' as (_ & [wk Hwk] & Hb & Hks & Hvs & Hd).
      destruct (field_map t k u l (VMap l) wk Ht Hwk Hu Hb Hks Hvs Hd eq_refl) as (cs & Henc & Hr & Hdec).
      exists cs. split; [done|]. split; [done|]. intros Hsm.
      rewrite Hn, <-zero_strip, Ht. exact (Hdec Hsm).
Qed.

Lemma claims_interface t name : strip t = TInterface name → claims t.
Proof.
  intros Ht.
  assert (kind t = Interface) as Hk by (by rewrite <-kind_strip, Ht).
  assert (scalar t = None) as Hs by (destruct t; try done; cbn in *; by rewrite Hk).
  assert (∀ one addr v, wf one addr t v → t = TInterface name) as Hname.
  { intros one addr v Hwf. destruct (wf_strip _ _ _ _ Hs Hwf) as (_ & _ & _ & Hpl).
    destruct t; try done. unfold named_plain, plain in Hpl. by rewrite strip_strip, Ht in Hpl. }
  assert (single_claim t) as Hsc.
  { intros addr v Hwf. pose proof (Hname _ _ _ Hwf). subst t. cbn in Hwf.
    destruct v as [| | | | | | | | | | | |dt x]; try done.
    destruct (single_iface name dt x Hwf) as (b & Henc & Hdec). exists (sized b). split; [apply Henc|].
    intros Hb y Hy. assert (y = VNil) as -> by (unfold fresh, alloc in Hy; cbn in Hy; tauto).
    by apply Hdec. }
  split; [done|]. intros v Hwf. pose proof (Hname _ _ _ Hwf). subst t.
  cbn in Hwf. destruct v; try done; [by apply field_nil; [|right]|by apply field_single].
Qed.

Lemma all_claims t : claims t.
Proof.
  assert (∀ t, (λ t, ∀ t', strip t' = strip t → claims t') t) as H; [|by apply (H t)].
  clear t. intros t. induction t as [t Ht|n u IH|fs IH|u IH|u IH|n u IH|k u _ IH] using gtype_nested_ind;
    intros t' Ht'.
  - destruct (scalar t') as [w|] eqn:Hs; [by eapply claims_scalar|].
    assert (strip t = t) as E by by destruct t. rewrite E in Ht'.
    assert (kind t' = kind t) as Hk by (by rewrite <-kind_strip, Ht').
    destruct t as [| | | | | | | | | | | | | | | | | | | | | |name|]; try done;
      try (by apply (claims_interface t' name));
      try (by destruct t'; cbn in *; simplify_eq; rewrite ?Hk in *).
    all: split; [intros addr v Hwf|intros v Hwf];
      destruct (wf_strip _ _ _ _ Hs Hwf) as (Hwf' & _ & _ & Hpl); rewrite Ht' in Hwf'; cbn in Hwf';
      try done.
    all: destruct t'; try done; cbn [named_plain strip] in *; unfold plain in Hpl;
      by rewrite strip_strip, Ht' in Hpl.
  - by apply IH.
  - apply (claims_struct t' fs); [done|]. eapply Forall_impl; [exact IH|].
    intros f Hf. by apply (Hf f.2).
  - apply (claims_ptr t' u); [done|]. by apply IH.
  - apply (claims_slice t' u); [done|]. by apply IH.
  - by apply (claims_array t' n u).
  - apply (claims_map t' k u); [done|]. by apply IH.
Qed.

(** For every set of constructors of the decoder. *)
Lemma decode_encode_with t v :
  kind t = Struct → t ≠ TTime → UnmarshalBinary (TPtr t) = None → wf true true t v →
  ∃ b, yields (λ f, Encoder.Encode gens f (Some (TPtr t, VPtr v))) (Ret b) ∧
    (Z.of_nat (length b) < 2 ^ 64 → ∀ nm,
     yields (λ f, Decoder.DecodeWithConstructors (Decoder.putvalue gens f) nm b
                    (Some (TPtr t, VPtr (zero t)))) (Ret (VPtr (norm t v)))).
Proof.
  intros Hk Htime Hum Hwf.
  assert (scalar t = None) as Hs by (destruct t; try done; cbn in *; by rewrite Hk).
  destruct (wf_strip _ _ _ _ Hs Hwf) as (Hwf' & Hn & _ & Hpl).
  assert (∃ fs, strip t = TStruct fs) as [fs Ht].
  { rewrite <-kind_strip in Hk. pose proof (strip_unnamed t) as Hu.
    destruct (strip t) eqn:E; try done; [|by eexists].
    destruct t; try done. unfold named_plain, plain in Hpl. by rewrite strip_strip, E in Hpl. }
  rewrite Ht in Hwf'.
  destruct (struct_message t fs v Ht) as (b & Henc & Hdec); [|done|].
  { apply Forall_forall. intros f _. apply all_claims. }
  exists b. split.
  - cbn. by apply (yields_map recover_panic _ (Ret b)).
  - intros Hb nm. unfold Decoder.DecodeWithConstructors. rewrite Hum, Hn, Ht. cbn.
    apply (yields_map recover_panic _ (Ret _)).
    eapply yields_bind; [by apply Hdec|]. apply yields_const.
Qed.

(** C14: decoding what [Encode] wrote of a struct, into a fresh struct, gives the
    struct back up to [norm]: for every type of supported fields, numbered in
    increasing order, and every value of it, however deeply nested, [Encode]
    succeeds, and [Decode] of its bytes terminates without error with the
    value's normal form. *)
Theorem decode_encode t v :
  kind t = Struct → t ≠ TTime → UnmarshalBinary (TPtr t) = None → wf true true t v →
  ∃ b, yields (λ f, Encoder.Encode gens f (Some (TPtr t, VPtr v))) (Ret b) ∧
    (Z.of_nat (length b) < 2 ^ 64 →
     yields (λ f, Decoder.Decode gens f b (Some (TPtr t, VPtr (zero t)))) (Ret (VPtr (norm t v)))).
Proof.
  intros Hk Htime Hum Hwf. destruct (decode_encode_with t v Hk Htime Hum Hwf) as (b & He & Hd).
  exists b. split; [done|]. intros Hb. by apply Hd.
Qed.

(** The decoder only moves forward in the field table: a well-formed pair
    whose number is below every field that is left is dropped without error,
    whatever it holds, and the loop goes on after it. *)
Theorem late_field_dropped fuel nm rounds L t id wt body num vb rest sval :
  0 < id < 2 ^ 61 → 0 <= wt < 8 → Forall (λ q, id < ID q) L →
  Decoder.pull wt (body ++ rest) = Ret (num, vb, rest) →
  Decoder.message_loop (Decoder.putvalue gens (Datatypes.S fuel)) nm (Datatypes.S rounds) L t
    (chunk_bytes (Z.shiftl id 3) (wt, body) ++ rest) sval =
  Decoder.message_loop (Decoder.putvalue gens (Datatypes.S fuel)) nm rounds L t rest sval.
Proof.
  intros Hid Hwt HL Hp. destruct (key_parts id wt Hid Hwt) as (Hk & Hkw & Hki).
  unfold chunk_bytes. cbn [fst snd]. rewrite <-app_assoc, message_step by done. cbv zeta.
  rewrite Hkw, Hki.
  assert (Decoder.advance id L = L) as ->.
  { destruct L as [|q L]; [done|]. apply Forall_cons_1 in HL as [Hq _]. cbn.
    destruct (Z.ltb_spec (ID q) id); [lia|done]. }
  unfold Decoder.value. rewrite Hp. cbn [obind Decoder.putvalue]. unfold Decoder.putvalue_body.
  cbn [negb obind]. destruct L as [|q L]; [done|].
  apply Forall_cons_1 in HL as [Hq _]. destruct (Z.eqb_spec (ID q) id); [lia|]. done.
Qed.
End roundtrip.
