(* ===== verification/ProtobufTotal.v ===== *)
(** * Protobuf: decoding ends without a panic

    [halts] says that enough fuel gives a result.  The recursion of the decoder
    goes down the bytes of the message, and within the same bytes down the type;
    [decode_total] is about every message and every type that does not contain
    itself.  Go has types that do: those that come back to themselves through a
    struct read a key at each turn, so a message sees of them no more than an
    unfolding that is deeper than the message is long; those that come back
    through pointers or slices only, such as [type P *P], are followed for ever
    ([pointers_not_followed]). *)
From S2P Require Import Prelude Wire Protobuf.
Import Varint Fixed Fields.
Local Open Scope Z_scope.

Definition halts {A} (c : nat → outcome error A) : Prop :=
  ∃ r, r ≠ OutOfFuel ∧ yields c r.

Lemma halts_const {A} (r : outcome error A) : r ≠ OutOfFuel → halts (λ _, r).
Proof. intros Hr. exists r. split; [done|]. apply yields_const. Qed.

Lemma halts_ext {A} (c c' : nat → outcome error A) : (∀ f, c' f = c f) → halts c → halts c'.
Proof. intros He (r & Hr & Hy). exists r. split; [done|]. by eapply yields_ext. Qed.

Lemma halts_succ {A} (c : nat → outcome error A) : halts (λ f, c (S f)) → halts c.
Proof. intros (r & Hr & Hy). exists r. split; [done|]. by apply yields_succ. Qed.

Lemma halts_bind {A B} (c : nat → outcome error A) (k : nat → A → outcome error B) :
  halts c → (∀ a, yields c (Ret a) → halts (λ f, k f a)) → halts (λ f, obind (c f) (k f)).
Proof.
  intros (r & Hr & Hy) Hk. destruct r as [a|e|w|]; [|..|done].
  - destruct (Hk a Hy) as (r & Hr' & Hy'). exists r. split; [done|]. by eapply yields_bind.
  - exists (Err e). split; [done|].
    destruct Hy as [f0 Hf]. exists f0. intros f Hle. by rewrite Hf.
  - exists (Panic w). split; [done|].
    destruct Hy as [f0 Hf]. exists f0. intros f Hle. by rewrite Hf.
Qed.

Lemma halts_bind' {A B} (c : nat → outcome error A) (k : nat → A → outcome error B) :
  halts c → (∀ a, halts (λ f, k f a)) → halts (λ f, obind (c f) (k f)).
Proof. intros Hc Hk. by apply halts_bind. Qed.

Lemma halts_map {A B} (g : outcome error A → outcome error B) (c : nat → outcome error A) :
  (∀ r, r ≠ OutOfFuel → g r ≠ OutOfFuel) → halts c → halts (λ f, g (c f)).
Proof.
  intros Hg (r & Hr & Hy). exists (g r). split; [auto|]. by apply yields_map.
Qed.

Ltac halt_now :=
  first [by apply halts_const | by apply (halts_const (Err _)) | by apply (halts_const (Panic _))
        | by apply (halts_const (Ret _))].

(** The size of a type goes down to the elements. *)
Fixpoint tsize (t : gtype) : nat :=
  match t with
  | TNamed _ u | TPtr u | TSlice u | TArray _ u => S (tsize u)
  | TMap k u => S (tsize k + tsize u)
  | _ => 1
  end.

Lemma Elem_smaller t :
  kind t = Ptr ∨ kind t = Slice ∨ kind t = Array → (tsize (Elem t) < tsize t)%nat.
Proof.
  induction t; cbn; intros Hk; try (by naive_solver); try lia.
Qed.

Lemma inner_loop_halts rec fs : Forall (λ f, ∀ id, rec f.2 id ≠ OutOfFuel) fs →
  ∀ i id, inner_loop rec i id fs ≠ OutOfFuel.
Proof.
  induction 1 as [|[f ft] fs Hf _ IH]; intros i id; [done|].
  cbn. destruct (ParseTag f) as [[tid prefix] name]. cbn in Hf. destruct (Anonymous f).
  - destruct (rec ft _) as [[inners id']| | |] eqn:E; try done; [|by apply Hf in E].
    cbn [obind]. specialize (IH (S i) id'). by destruct (inner_loop rec (S i) id' fs) as [[]| | |].
  - specialize (IH (S i) (if tid =? 0 then wrapS 64 (id + 1) else tid)).
    by destruct (inner_loop rec (S i) _ fs) as [[]| | |].
Qed.

Lemma inner_halts t : ∀ id, innerFieldIndexes t id ≠ OutOfFuel.
Proof.
  induction t as [t Ht|n u IH|fs IH|u IH|u IH|n u IH|k u _ IH] using gtype_nested_ind; intros id.
  - by destruct t.
  - cbn. apply IH.
  - cbn. by apply inner_loop_halts.
  - cbn. apply IH.
  - done.
  - done.
  - done.
Qed.

Lemma ProtoFields_halts t : ProtoFields t ≠ OutOfFuel.
Proof.
  unfold ProtoFields. pose proof (inner_halts t 0).
  destruct (innerFieldIndexes t 0) as [[idx ?]| | |]; try done. cbn. by destruct (first_reused [] idx).
Qed.

Section total.
Context {M : Methods} (gens : gmap bytes (gtype * gvalue)).
(** The methods of the user's types end. *)
Context (Huser : ∀ t unmarshal b v, UnmarshalBinary t = Some unmarshal → unmarshal b v ≠ OutOfFuel).

Definition put_halts (n : nat) : Prop := ∀ nm wt t set v num vb,
  (length vb ≤ n)%nat → halts (λ f, Decoder.putvalue gens f nm wt t set v num vb).

(** A value is read from the bytes, and the rest is not longer. *)
Lemma pull_ret wt buf num vb rest :
  Decoder.pull wt buf = Ret (num, vb, rest) →
  (length vb < length buf)%nat ∧ (length rest < length buf)%nat.
Proof.
  unfold Decoder.pull, read_word. pose proof (Uvarint_bound buf) as Hb.
  destruct (Uvarint buf) as [v n]. cbn in Hb.
  destruct (wt =? 0); [|destruct (wt =? 5); [|destruct (wt =? 1); [|destruct (wt =? 2); [|done]]]].
  - destruct (Z.leb_spec n 0); [done|]. intros [= <- <- <-]. rewrite length_drop. cbn. lia.
  - destruct (Nat.ltb_spec (length buf) 4); [done|]. intros [= <- <- <-]. rewrite length_drop. cbn. lia.
  - destruct (Nat.ltb_spec (length buf) 8); [done|]. intros [= <- <- <-]. rewrite length_drop. cbn. lia.
  - destruct (Z.leb_spec n 0); [done|]. cbn [orb].
    destruct (Z.ltb_spec (Z.of_nat (length buf) - n) v); [done|]. intros [= <- <- <-].
    rewrite length_take, !length_drop. lia.
Qed.

Lemma pull_halts wt buf : Decoder.pull wt buf ≠ OutOfFuel.
Proof.
  unfold Decoder.pull. destruct (Uvarint buf). repeat case_match; done.
Qed.

Lemma value_halts n nm wt buf t set v : put_halts n → (length buf ≤ S n)%nat →
  halts (λ f, Decoder.value (Decoder.putvalue gens f) nm wt buf t set v).
Proof.
  intros Hn Hl. unfold Decoder.value. pose proof (pull_halts wt buf) as Hp.
  destruct (Decoder.pull wt buf) as [[[num vb] rest]| | |] eqn:E; [|halt_now..|done].
  apply pull_ret in E as [Hvb _]. cbn [obind].
  apply halts_bind'; [apply Hn; lia|]. intros a. by apply halts_const.
Qed.

(** What [value] leaves is shorter. *)
Lemma value_rest rec nm wt buf t set v a rest :
  Decoder.value rec nm wt buf t set v = Ret (a, rest) → (length rest < length buf)%nat.
Proof.
  unfold Decoder.value. intros H.
  destruct (Decoder.pull wt buf) as [[[num vb] rest']| | |] eqn:E; try done. cbn in H.
  apply obind_ret_inv in H as (x & _ & [= _ <-]). by apply pull_ret in E as [_ ?].
Qed.

Lemma yields_inv {A} (c : nat → outcome error A) r : yields c r → ∃ f, c f = r.
Proof. intros [f0 H]. exists f0. by apply H. Qed.

Lemma with_field_halts {A} path : ∀ t v addr sticky (k : nat → gtype → bool → gvalue → outcome error (gvalue * A)),
  (∀ ft set x, halts (λ f, k f ft set x)) →
  halts (λ f, Decoder.with_field path t v addr sticky (k f)).
Proof.
  induction path as [|i path IH]; intros t v addr sticky k Hk; cbn [Decoder.with_field].
  { by apply halts_const. }
  destruct (fields_of t) as [fs|]; [|by apply halts_const].
  destruct (fs !! i) as [[f ft]|]; [|by apply halts_const].
  destruct v; try (apply halts_bind'; [apply Hk|]; intros []; by apply halts_const).
  destruct (vs !! i) as [x|]; [|by apply halts_const].
  apply halts_bind'; [apply halts_const; repeat case_match; done|]. intros y.
  apply halts_bind'; [|intros []; by apply halts_const].
  destruct path as [|j path]; [apply Hk|].
  destruct y; try (apply IH; apply Hk).
  apply halts_bind'; [apply IH, Hk|]. intros []. by apply halts_const.
Qed.

(** What [with_field] passes on came out of [k]. *)
Lemma with_field_inv {A} path : ∀ t v addr sticky (k : gtype → bool → gvalue → outcome error (gvalue * A)) y a,
  Decoder.with_field path t v addr sticky k = Ret (y, a) →
  ∃ ft set x z, k ft set x = Ret (z, a).
Proof.
  induction path as [|i path IH]; intros t v addr sticky k y a; cbn [Decoder.with_field]; [done|].
  destruct (fields_of t) as [fs|]; [|done]. destruct (fs !! i) as [[f ft]|]; [|done].
  assert (∀ c, (let! (_, a0) := k ft false VNil in Ret (c, a0)) = Ret (y, a) →
    ∃ ft set x z, k ft set x = Ret (z, a)) as Hother.
  { intros c ([z a'] & Hz & [= _ <-])%obind_ret_inv. eauto. }
  destruct v; try apply Hother. destruct (vs !! i) as [x|]; [|done].
  intros (x' & _ & ([z a'] & Hz & [= _ <-])%obind_ret_inv)%obind_ret_inv.
  destruct path as [|j path]; [eauto|]. destruct x'; try (by eapply IH).
  apply obind_ret_inv in Hz as ([z' a''] & Hz & [= _ <-]). by eapply IH.
Qed.

Lemma in_message_ret {A} L (c : outcome error A) a : Decoder.in_message L c = Ret a → c = Ret a.
Proof. destruct L; [done|]. by destruct c. Qed.

Section below.
Context (n : nat) (Hbelow : ∀ m, (m < n)%nat → put_halts m).

Lemma value_below nm wt buf t set v : (length buf ≤ n)%nat → (0 < n)%nat →
  halts (λ f, Decoder.value (Decoder.putvalue gens f) nm wt buf t set v).
Proof. intros Hl Hn. apply (value_halts (n - 1)); [apply Hbelow; lia|lia]. Qed.

(** One round of a loop: what is left is shorter. *)
Lemma skip_key buf key k : Uvarint buf = (key, k) → (k <=? 0) = false →
  (length (drop (Z.to_nat k) buf) < length buf)%nat.
Proof.
  intros Hu Hk. pose proof (Uvarint_bound buf) as Hb. rewrite Hu in Hb. cbn in Hb.
  apply Z.leb_gt in Hk. rewrite length_drop. lia.
Qed.

Lemma message_loop_halts nm t : ∀ rounds L sval buf,
  (length buf ≤ rounds)%nat → (length buf ≤ n)%nat →
  halts (λ f, Decoder.message_loop (Decoder.putvalue gens f) nm rounds L t buf sval).
Proof.
  induction rounds as [|rounds IH]; intros L sval buf Hr Hl.
  { destruct buf; [|cbn in Hr; lia]. cbn. halt_now. }
  destruct buf as [|b buf]; [halt_now|].
  destruct (Uvarint (b :: buf)) as [key k] eqn:Hu. unfold Decoder.message_loop. rewrite Hu.
  fold Decoder.message_loop.
  destruct (k <=? 0) eqn:Hk; [halt_now|]. pose proof (skip_key _ _ _ Hu Hk) as Hd.
  set (rest := drop (Z.to_nat k) (b :: buf)) in *.
  set (into := λ f ft set x, Decoder.value (Decoder.putvalue gens f) nm (Z.land key 7) rest ft set x).
  assert (∀ ft set x, halts (λ f, into f ft set x)) as Hinto by (intros; apply value_below; lia).
  assert (∀ f ft set x z buf', into f ft set x = Ret (z, buf') → (length buf' < length rest)%nat) as Hrest
    by (intros f ft set x z buf' H; by eapply value_rest).
  set (L' := Decoder.advance (Z.shiftr key 3) L).
  assert (∀ A (c : nat → outcome error A), halts c → halts (λ f, Decoder.in_message L' (c f))) as Hin.
  { intros A c. apply halts_map. intros r Hr'. destruct L'; [done|]. by destruct r. }
  assert (halts (λ f, let! (_, buf) := into f t false sval in Ret (sval, buf))) as Hs.
  { apply halts_bind'; [apply Hinto|]. intros []. halt_now. }
  apply halts_bind.
  - destruct L' as [|p ps]; [exact Hs|]. destruct (ID p =? Z.shiftr key 3); [|by apply Hin].
    apply with_field_halts. intros ft set x. apply Hin, Hinto.
  - intros [sval' buf'] [f Hf]%yields_inv.
    assert (∀ L, Decoder.in_message L (let! (_, buf) := into f t false sval in Ret (sval, buf))
                 = Ret (sval', buf') → (length buf' < length rest)%nat) as Hsk.
    { intros L0 H%in_message_ret. apply obind_ret_inv in H as ([z b'] & Hz & [= _ <-]). by eapply Hrest. }
    assert (length buf' < length rest)%nat.
    { destruct L' as [|p ps]; [by apply (Hsk [])|].
      destruct (ID p =? Z.shiftr key 3); [|by eapply Hsk].
      apply with_field_inv in Hf as (ft & set & x & z & Hz%in_message_ret). by eapply Hrest. }
    apply IH; cbn in *; lia.
Qed.

Lemma message_halts nm buf t sval : (length buf ≤ n)%nat →
  halts (λ f, Decoder.message (Decoder.putvalue gens f) nm buf t sval).
Proof.
  intros Hl. unfold Decoder.message. destruct (decide _) as [_|_]; [|halt_now].
  pose proof (ProtoFields_halts t) as Hp.
  destruct (ProtoFields t) as [L| | |]; [|halt_now..|done]. by apply message_loop_halts.
Qed.

Lemma decode_halts nm buf p : (length buf ≤ n)%nat →
  halts (λ f, Decoder.DecodeWithConstructors (Decoder.putvalue gens f) nm buf p).
Proof.
  intros Hl. destruct p as [[t v]|]; [|halt_now]. unfold Decoder.DecodeWithConstructors.
  apply (halts_map recover_panic); [by intros []|].
  destruct (UnmarshalBinary t) as [um|] eqn:E; [apply halts_const; by eapply Huser|].
  destruct (decide _) as [_|_]; [|halt_now]. destruct v; try halt_now.
  apply halts_bind'; [by apply message_halts|]. intros. halt_now.
Qed.

Lemma packed_loop_halts nm wt u s : ∀ rounds vb val slval,
  (length vb ≤ rounds)%nat → (length vb ≤ n)%nat →
  halts (λ f, Decoder.packed_loop (Decoder.putvalue gens f) nm rounds wt u s vb val slval).
Proof.
  induction rounds as [|rounds IH]; intros vb val slval Hr Hl.
  { destruct vb; [|cbn in Hr; lia]. cbn. halt_now. }
  destruct vb as [|b vb]; [halt_now|]. cbn [Decoder.packed_loop].
  apply halts_bind; [apply value_below; cbn in *; lia|].
  intros [val' rem] [f Hf]%yields_inv. apply value_rest in Hf.
  apply halts_bind'; [destruct s; halt_now|]. intros sl. apply IH; cbn in *; lia.
Qed.

Lemma entry_loop_halts nm t : ∀ rounds buf v,
  (length buf ≤ rounds)%nat → (length buf ≤ n)%nat →
  halts (λ f, Decoder.entry_loop (Decoder.putvalue gens f) nm rounds buf t v).
Proof.
  induction rounds as [|rounds IH]; intros buf v Hr Hl.
  { destruct buf; [|cbn in Hr; lia]. cbn. halt_now. }
  destruct buf as [|b buf]; [halt_now|]. unfold Decoder.entry_loop. fold Decoder.entry_loop.
  destruct (Uvarint (b :: buf)) as [key k] eqn:Hu.
  destruct (k <=? 0) eqn:Hk; [halt_now|]. pose proof (skip_key _ _ _ Hu Hk) as Hd.
  apply halts_bind; [apply value_below; cbn in *; lia|].
  intros [v' rem] [f Hf]%yields_inv. apply value_rest in Hf. apply IH; cbn in *; lia.
Qed.

Lemma mapEntry_halts nm t v vb : (length vb ≤ n)%nat →
  halts (λ f, Decoder.mapEntry (Decoder.putvalue gens f) nm t v vb).
Proof.
  intros Hl. unfold Decoder.mapEntry. destruct (Uvarint vb) as [key k] eqn:Hu.
  destruct (k <=? 0) eqn:Hk; [halt_now|]. pose proof (skip_key _ _ _ Hu Hk) as Hd.
  apply halts_bind; [apply value_below; lia|]. intros [mk rest] [f Hf]%yields_inv. apply value_rest in Hf.
  apply halts_bind'; [apply entry_loop_halts; lia|]. intros. halt_now.
Qed.
End below.

Lemma slice_halts n nm t v vb : (∀ m, (m < n)%nat → put_halts m) → (length vb ≤ n)%nat →
  (∀ v' num, halts (λ f, Decoder.putvalue gens f nm 2 (Elem t) true v' num vb)) →
  halts (λ f, Decoder.slice (Decoder.putvalue gens f) nm t v vb).
Proof.
  intros Hb Hl Hel. unfold Decoder.slice. destruct (Decoder.elem_wiretype (Elem t)) as [w|].
  { by apply (packed_loop_halts n). }
  destruct (kind (Elem t));
    try (apply halts_bind'; [apply Hel|]; intros; apply halts_const; by destruct (decide _)).
  apply halts_const. repeat case_decide; done.
Qed.

Lemma obind_halts {A B} (c : outcome error A) (k : A → outcome error B) :
  c ≠ OutOfFuel → (∀ a, k a ≠ OutOfFuel) → obind c k ≠ OutOfFuel.
Proof. intros Hc Hk. destruct c; [apply Hk|done..]. Qed.

Lemma instantiate_halts nm t : Decoder.instantiate nm t ≠ OutOfFuel.
Proof.
  unfold Decoder.instantiate. destruct (kind t); try done. destruct t; try done; by destruct (nm !! _).
Qed.

Lemma set_interface_halts t g : Decoder.set_interface t g ≠ OutOfFuel.
Proof. unfold Decoder.set_interface. destruct t; try done; by destruct (implements _ _). Qed.

Lemma interface_halts n nm wt t v vb : (∀ m, (m < n)%nat → put_halts m) → (length vb ≤ n)%nat →
  halts (λ f, Decoder.put_interface gens (Decoder.putvalue gens f) nm wt t v vb).
Proof.
  intros Hb Hl. unfold Decoder.put_interface. apply halts_bind'.
  { apply halts_const. destruct v; try done.
    destruct (if (8 <? length vb)%nat then _ else _) as [g|].
    - apply obind_halts; [apply set_interface_halts|done].
    - apply obind_halts; [apply instantiate_halts|]. intros g.
      apply obind_halts; [apply set_interface_halts|done]. }
  intros [v' data]. destruct v'; try halt_now. destruct (UnmarshalBinary t0) as [um|] eqn:E.
  - destruct (negb _); [halt_now|]. apply halts_bind'; [apply halts_const; by eapply Huser|].
    intros. halt_now.
  - apply halts_bind'; [by apply (decode_halts n)|]. intros. halt_now.
Qed.

Lemma signed_halts wt v : Decoder.decodeSignedInt wt v ≠ OutOfFuel.
Proof. unfold Decoder.decodeSignedInt. repeat case_match; done. Qed.

Lemma put_body_halts n nm wt t set v num vb : (∀ m, (m < n)%nat → put_halts m) → (length vb ≤ n)%nat →
  (∀ t' wt' v' num', (tsize t' < tsize t)%nat →
     halts (λ f, Decoder.putvalue gens f nm wt' t' true v' num' vb)) →
  halts (λ f, Decoder.putvalue_body gens (Decoder.putvalue gens f) nm wt t set v num vb).
Proof.
  intros Hb Hl Hel. unfold Decoder.putvalue_body. destruct (negb set); [halt_now|].
  pose proof (signed_halts wt num) as Hs. pose proof (Elem_smaller t) as He.
  destruct (kind t) eqn:Hk;
    try (apply halts_const; destruct (Decoder.decodeSignedInt wt num); repeat case_match; done).
  - destruct t; try (destruct (negb _); [halt_now|by apply (message_halts n)]).
    apply halts_const. by destruct (Decoder.decodeSignedInt wt num).
  - apply halts_bind'.
    { apply halts_const. destruct v; try done.
      case_decide; apply obind_halts; try apply instantiate_halts; done. }
    intros v'. destruct v'; try halt_now. apply halts_bind'; [apply Hel; auto|]. intros. halt_now.
  - destruct (negb _); [halt_now|]. apply (slice_halts n); [done..|]. intros. apply Hel. auto.
  - destruct (negb _); [halt_now|]. apply (slice_halts n); [done..|]. intros. apply Hel. auto.
  - destruct (negb _); [halt_now|]. by apply (mapEntry_halts n).
  - by apply (interface_halts n).
Qed.

Lemma put_halts_all n : put_halts n.
Proof.
  induction n as [n IH] using lt_wf_ind. intros nm wt t set v num vb Hl.
  remember (tsize t) as s eqn:Hs. revert wt t set v num Hs.
  induction s as [s IHs] using lt_wf_ind. intros wt t set v num ->.
  apply halts_succ. cbn [Decoder.putvalue]. apply (put_body_halts n); [done..|].
  intros t' wt' v' num' Ht'. by apply (IHs (tsize t')).
Qed.

Lemma decode_with_total nm buf p :
  ∃ r, returns r ∧ yields (λ f, Decoder.DecodeWithConstructors (Decoder.putvalue gens f) nm buf p) r.
Proof.
  destruct (decode_halts (length buf) (λ m _, put_halts_all m) nm buf p (le_n _)) as (r & Hr & Hy).
  exists r. split; [|exact Hy]. apply yields_inv in Hy as [f <-].
  destruct p as [[t v]|]; [|done]. unfold Decoder.DecodeWithConstructors in *.
  by destruct (match UnmarshalBinary t with Some _ => _ | None => _ end).
Qed.

(** C15: [Decode] ends for every message, however malformed, and every type that
    does not contain itself, with a value or an error: it does not loop, and no
    panic leaves it. *)
Theorem decode_total buf p :
  ∃ r, returns r ∧ yields (λ f, Decoder.Decode gens f buf p) r.
Proof. apply decode_with_total. Qed.

(** A pointer to a pointer to a pointer ...: the unfoldings of [type P *P]. *)
Fixpoint pointers (n : nat) (t : gtype) : gtype :=
  match n with O => t | S n => TPtr (pointers n t) end.

(** No depth of recursion is enough for all of them: [putvalue] makes the
    pointers one after the other before it looks at the value. *)
Lemma pointers_not_followed n nm wt t v vb :
  kind t ≠ Interface →
  Decoder.putvalue gens n nm wt (pointers n t) true (zero (pointers n t)) v vb = OutOfFuel.
Proof.
  intros Ht. induction n as [|n IH]; [done|]. cbn [Decoder.putvalue pointers].
  unfold Decoder.putvalue_body. cbn [negb kind zero Elem].
  assert (kind (pointers n t) ≠ Interface) as Hn by (by destruct n).
  destruct (decide _) as [|_]; [done|].
  assert (∀ u, kind u ≠ Interface → Decoder.instantiate nm u = Ret (TPtr u, VPtr (zero u))) as Hi
    by (intros u Hu; unfold Decoder.instantiate; by destruct (kind u)).
  rewrite Hi by done. cbn [obind snd]. by rewrite IH.
Qed.
End total.
