(* ===== verification/ProtobufExample.v ===== *)
(** * Protobuf: concrete messages

    A type that marshals itself, a struct with a field of every supported shape,
    the witnesses of the theorems about the library, and closed examples of what
    it does not bring back. *)
From S2P Require Import Prelude Wire Protobuf ProtobufScalars ProtobufRoundtrip ProtobufTotal.
Local Open Scope Z_scope.

Module ProtobufExample.

Definition fld (n : string) (ex : bool) (tag : string) : StructField :=
  {| Name := n; exported := ex; Anonymous := false; Tag := tag |}.

(** A point: a pointer to a byte array, which marshals to the bytes. *)
Definition TPoint : gtype := TPtr (TNamed "point" (TArray 2 TUint8)).
Definition point_id : bytes := [x65; x64; x2e; x70; x6f; x69; x6e; x74].
Definition is_point (t : gtype) : bool :=
  match t with TPtr (TNamed "point" _) => true | _ => false end.

#[export] Instance ex_methods : Methods := {|
  implements t name := is_point t && bool_decide (name = "abstract.Point"%string);
  MarshalBinary t :=
    if is_point t then Some (λ v, match v with VPtr (VBytes b) => Ret b | _ => Err "nil point" end)
    else None;
  MarshalID t := if is_point t then Some (λ _, point_id) else None;
  UnmarshalBinary t :=
    if is_point t then
      Some (λ b _, if decide (length b = 2%nat) then Ret (VPtr (VBytes b)) else Err "bad point")
    else None;
|}.

Definition ex_gens : gmap bytes (gtype * gvalue) :=
  match Interfaces.register Interfaces.newInterfaceRegistry (TPoint, VPtr (VBytes [x00; x00])) with
  | Ret ir => ir
  | _ => ∅
  end.

Definition TInner : gtype := TNamed "Inner" (TStruct [(fld "X" true "", TFloat64)]).

Definition TMessage : gtype := TNamed "Message" (TStruct
  [(fld "A" true "", TInt64); (fld "B" true "opt", TPtr TInt32); (fld "c" false "", TBool);
   (fld "D" true "7", TSlice TString); (fld "E" true "", TMap TString (TPtr TInner));
   (fld "T" true "", TTime); (fld "I" true "", TSlice TSfixed32); (fld "P" true "", TInterface "abstract.Point");
   (fld "Q" true "", TSlice TInner); (fld "R" true "", TNamed "ID" (TSlice TUint8));
   (fld "S" true "", TSlice TBool); (fld "U" true "req", TPtr TInner)]).

Definition message : gvalue := VStruct
  [VInt (-77); VPtr (VInt (-5)); VBool true; VSeq [VString [x01]; VString []];
   VMap [(VString [x02], VPtr (VStruct [VFloat64 77])); (VString [x03], VPtr (VStruct [VFloat64 78]))];
   VTime 1500000000 5; VSeq [VInt 5; VInt (-1)]; VIface TPoint (VPtr (VBytes [x07; x08]));
   VSeq [VStruct [VFloat64 1]; VStruct [VFloat64 2]]; VBytes [x0a]; VNil; VPtr (VStruct [VFloat64 3])].

Lemma point_marshals : marshals ex_gens "abstract.Point" TPoint (VPtr (VBytes [x07; x08])).
Proof.
  eexists _, _, _, [x07; x08], _. repeat split; try by_vm; done.
Defined.

Lemma repeat_string : repeatable TString.
Proof. split; [done|]. split; [done|]. split; [done|]. by intros [?|?]. Defined.
Lemma repeat_inner : repeatable TInner.
Proof. split; [done|]. split; [done|]. split; [done|]. by intros [?|?]. Defined.

(** Takes [wf] of a concrete value apart. *)
Ltac wf_now :=
  repeat match goal with
  | |- _ ∧ _ => split
  | |- Forall _ _ => constructor
  | |- _ ∨ (_ ∧ repeatable _ ∧ _) => right; split; [done|]; split; [first [exact repeat_string | exact repeat_inner]|]
  | |- packable _ ∨ _ => left
  | |- packable _ => split; [by eexists|done]
  | |- packable _ ∧ _ ∨ _ => left
  | |- is_Some _ => by eexists
  | |- marshals _ _ _ _ => exact point_marshals
  | |- _ ∨ _ → _ => by intros [?|?]
  | |- _ → _ => intros ?
  | |- True => exact I
  | |- _ => first [lia | done | vm_compute; reflexivity]
  end.

Lemma message_wf : wf ex_gens true true TMessage message.
Proof.
  cbn -[ex_gens packable repeatable marshals]. wf_now.
Defined.

(** What comes back of [message]: the unexported field is zero, the nil slice
    stays nil. *)
Definition message_back : gvalue := VStruct
  [VInt (-77); VPtr (VInt (-5)); VBool false; VSeq [VString [x01]; VString []];
   VMap [(VString [x02], VPtr (VStruct [VFloat64 77])); (VString [x03], VPtr (VStruct [VFloat64 78]))];
   VTime 1500000000 5; VSeq [VInt 5; VInt (-1)]; VIface TPoint (VPtr (VBytes [x07; x08]));
   VSeq [VStruct [VFloat64 1]; VStruct [VFloat64 2]]; VBytes [x0a]; VNil; VPtr (VStruct [VFloat64 3])].

Lemma decode_encode_witness :
  wf ex_gens true true TMessage message ∧ norm TMessage message = message_back ∧
  ∃ b, yields (λ f, Encoder.Encode ex_gens f (Some (TPtr TMessage, VPtr message))) (Ret b) ∧
    (Z.of_nat (length b) < 2 ^ 64 →
     yields (λ f, Decoder.Decode ex_gens f b (Some (TPtr TMessage, VPtr (zero TMessage))))
            (Ret (VPtr (norm TMessage message)))).
Proof.
  split; [exact message_wf|]. split; [by_vm|].
  apply (decode_encode ex_gens TMessage message); [by_vm|done|by_vm|exact message_wf].
Defined.

(** The same by evaluation. *)
Lemma decode_encode_message :
  (let! b := Encoder.Encode ex_gens 9 (Some (TPtr TMessage, VPtr message)) in
   Decoder.Decode ex_gens 9 b (Some (TPtr TMessage, VPtr (zero TMessage)))) = Ret (VPtr message_back).
Proof. by_vm. Qed.

Lemma point_ends t unmarshal b v :
  UnmarshalBinary t = Some unmarshal → unmarshal b v ≠ OutOfFuel.
Proof. cbn. destruct (is_point t); [|done]. intros [= <-]. by destruct (decide _). Qed.

(** A message that claims more bytes than it has. *)
Lemma decode_total_witness :
  (∃ r, returns r ∧
    yields (λ f, Decoder.Decode ex_gens f [x42; x7f; x00] (Some (TPtr TMessage, VPtr (zero TMessage)))) r) ∧
  Decoder.Decode ex_gens 9 [x42; x7f; x00] (Some (TPtr TMessage, VPtr (zero TMessage))) =
    Err "Error while decoding field E: bad protobuf length-delimited value".
Proof.
  split; [|by_vm]. apply (decode_total ex_gens point_ends [x42; x7f; x00]).
Defined.

(** ** What does not come back *)

Definition roundtrip (t : gtype) (v : gvalue) : outcome error gvalue :=
  let! b := Encoder.Encode ex_gens 9 (Some (TPtr t, VPtr v)) in
  Decoder.Decode ex_gens 9 b (Some (TPtr t, VPtr (zero t))).

(** A 64-bit integer beyond 62 bits changes its sign. *)
Lemma large_int_lost :
  roundtrip (TStruct [(fld "A" true "", TInt64)]) (VStruct [VInt (2 ^ 62)]) =
  Ret (VPtr (VStruct [VInt (- 2 ^ 62)])).
Proof. by_vm. Qed.

(** A field whose number is smaller than an earlier one is dropped. *)
Lemma decreasing_number_lost :
  roundtrip (TStruct [(fld "A" true "3", TInt64); (fld "B" true "1", TInt64)]) (VStruct [VInt 8; VInt 9]) =
  Ret (VPtr (VStruct [VInt 8; VInt 0])).
Proof. by_vm. Qed.

Definition TwoInts : gtype := TStruct [(fld "A" true "3", TInt64); (fld "B" true "1", TInt64)].
Definition TwoInts_rest : list Fields.ProtoField :=
  match Fields.ProtoFields TwoInts with Ret l => take 1 l | _ => [] end.

Lemma late_field_dropped_witness :
  Decoder.message_loop (Decoder.putvalue ex_gens 9) ∅ 5 TwoInts_rest TwoInts
    (chunk_bytes (Z.shiftl 1 3) (0, [x12]) ++ []) (VStruct [VInt 8; VInt 0]) =
  Decoder.message_loop (Decoder.putvalue ex_gens 9) ∅ 4 TwoInts_rest TwoInts [] (VStruct [VInt 8; VInt 0]) ∧
  roundtrip TwoInts (VStruct [VInt 8; VInt 9]) = Ret (VPtr (VStruct [VInt 8; VInt 0])).
Proof.
  split; [|by_vm].
  apply (late_field_dropped ex_gens 8 ∅ 4 TwoInts_rest TwoInts 1 0 [x12] 18 []); [lia|lia| |by_vm].
  vm_compute. repeat constructor.
Defined.

(** The zero time comes back as a time in 1754. *)
Lemma zero_time_lost :
  roundtrip (TStruct [(fld "T" true "", TTime)]) (VStruct [zero TTime]) =
  Ret (VPtr (VStruct [VTime (-6795364579) 128654848])).
Proof. by_vm. Qed.

(** Slices of times, arrays of numbers and defined slices of fixed-size numbers
    are written so that they cannot be read. *)
Lemma unreadable_slices :
  roundtrip (TStruct [(fld "T" true "", TSlice TTime)]) (VStruct [VSeq [VTime 5 5]]) =
    Err "Error while decoding field T: bad wiretype for repeated field" ∧
  roundtrip (TStruct [(fld "A" true "", TArray 2 TInt32)]) (VStruct [VSeq [VInt 1; VInt 2]]) =
    Err "reflect: call of reflect.Append on array Value" ∧
  roundtrip (TStruct [(fld "F" true "", TNamed "fixeds" (TSlice TUfixed32))]) (VStruct [VSeq [VInt 1]]) =
    Err "Error while decoding field F: bad protobuf 32-bit value".
Proof. repeat split; by_vm. Qed.

(** A map whose values are structs cannot be written. *)
Lemma map_of_structs_refused :
  is_ret (roundtrip (TStruct [(fld "M" true "", TMap TString TInner)])
                    (VStruct [VMap [(VString [], VStruct [VFloat64 1])]])) = false.
Proof. by_vm. Qed.

(** [Encode] of a nil pointer panics: its recovery expects a string. *)
Lemma encode_nil_panics :
  Encoder.Encode ex_gens 9 (Some (TPtr TInner, VNil)) =
  Panic "interface conversion: interface {} is *reflect.ValueError, not string".
Proof. by_vm. Qed.
End ProtobufExample.
