(* ===== verification/ProtobufTyped.v ===== *)
(** * Protobuf: what is decoded has its type

    The decoder takes bytes from anywhere and sets values by reflection.  [typed]
    says which values a type has; the lemmas follow the functions of the decoder,
    and the theorem says that from a value of a type only values of that type
    come back, whatever the bytes are. *)
From S2P Require Import Prelude Wire Protobuf ProtobufScalars ProtobufTotal ProtobufExample.
Import Varint Fixed Fields.
Local Open Scope Z_scope.

(** ** Typing *)

(** The range of the integer kinds. *)
Definition int_range (k : Kind) : option (Z * Z) :=
  match k with
  | Int | Int64 => Some (- 2 ^ 63, 2 ^ 63)
  | Int32 => Some (- 2 ^ 31, 2 ^ 31)
  | Uint | Uint64 => Some (0, 2 ^ 64)
  | Uint32 => Some (0, 2 ^ 32)
  | Uint8 => Some (0, 2 ^ 8)
  | _ => None
  end.

Definition nillable (k : Kind) : Prop :=
  k = Ptr ∨ k = Slice ∨ k = Map ∨ k = Interface ∨ k = OtherKind.

Definition interface_name (t : gtype) : option string :=
  match t with TInterface n | TNamed n _ => Some n | _ => None end.

(** The cases of a value whose type has a known kind. *)
Ltac typed_inv H :=
  inversion H; subst; try congruence;
  try (match goal with
       | E : strip ?t = _ |- _ => pose proof (kind_strip t) as F; rewrite E in F; cbn in F; congruence
       | E : int_range (kind ?t) = _, F : kind ?t = _ |- _ => rewrite F in E; cbn in E; congruence
       end).

Section typed.
Context {M : Methods}.

(** The values of a type; the value in an interface has a type that implements
    it. *)
Inductive typed : gtype → gvalue → Prop :=
  | typed_bool t b : kind t = Bool → typed t (VBool b)
  | typed_int t z lo hi : int_range (kind t) = Some (lo, hi) → lo <= z < hi → typed t (VInt z)
  | typed_float32 t b : kind t = Float32 → 0 <= b < 2 ^ 32 → typed t (VFloat32 b)
  | typed_float64 t b : kind t = Float64 → 0 <= b < 2 ^ 64 → typed t (VFloat64 b)
  | typed_string t s : kind t = String_ → typed t (VString s)
  | typed_time t s n : strip t = TTime → 0 <= n < 1000000000 → typed t (VTime s n)
  | typed_struct t fs vs : strip t = TStruct fs → Forall2 (λ f, typed f.2) fs vs → typed t (VStruct vs)
  | typed_nil t : nillable (kind t) → typed t VNil
  | typed_ptr t x : kind t = Ptr → typed (Elem t) x → typed t (VPtr x)
  | typed_slice t vs : kind t = Slice → kind (Elem t) ≠ Uint8 → Forall (typed (Elem t)) vs → typed t (VSeq vs)
  | typed_array t vs : kind t = Array → kind (Elem t) ≠ Uint8 → length vs = array_len t →
      Forall (typed (Elem t)) vs → typed t (VSeq vs)
  | typed_bytes t b : kind t = Slice → kind (Elem t) = Uint8 → typed t (VBytes b)
  | typed_byte_array t b : kind t = Array → kind (Elem t) = Uint8 → length b = array_len t → typed t (VBytes b)
  | typed_map t l : kind t = Map → Forall (λ e, typed (Key t) e.1 ∧ typed (Elem t) e.2) l → typed t (VMap l)
  | typed_interface t name dt x : kind t = Interface → interface_name t = Some name → implements dt name = true →
      typed dt x → typed t (VIface dt x).

Lemma typed_named n u v : kind u ≠ Interface → typed u v → typed (TNamed n u) v.
Proof. intros Hk H. inversion H; subst; try (by econstructor); congruence. Qed.

(** [reflect.Zero]. *)
Lemma zero_typed t : typed t (zero t).
Proof.
  induction t as [t Hleaf|n u IH|fs IH|u _|u _|n u IH|k u _ _] using gtype_nested_ind.
  - destruct t; try done; cbn;
      first [by constructor | by eapply typed_int; [reflexivity|lia] | by apply typed_nil; unfold nillable; cbn; auto
            | constructor; [reflexivity|lia]].
  - cbn. destruct (decide (kind u = Interface)) as [Hk|Hk]; [|by apply typed_named].
    assert (zero u = VNil) as ->; [|apply typed_nil; cbn; unfold nillable; auto].
    clear IH. induction u; try done; cbn in *; auto.
  - cbn. eapply typed_struct; [reflexivity|]. induction IH as [|f fs Hf _ IH]; cbn; by constructor.
  - apply typed_nil. unfold nillable. cbn. auto.
  - apply typed_nil. unfold nillable. cbn. auto.
  - cbn. destruct (decide (kind u = Uint8)) as [Hk|Hk].
    + by apply typed_byte_array; [| |rewrite repeat_length].
    + apply typed_array; [done|done|by rewrite repeat_length|]. apply Forall_forall. intros x Hx.
      apply list_elem_of_In, repeat_spec in Hx as ->. done.
  - apply typed_nil. unfold nillable. cbn. auto.
Qed.

(** ** Scalars *)

Lemma typed_int_of t z lo hi : int_range (kind t) = Some (lo, hi) → lo <= z < hi → typed t (VInt z).
Proof. intros. by eapply typed_int. Qed.

Lemma wrapS_range w x : 0 < w → - 2 ^ (w - 1) <= wrapS w x < 2 ^ (w - 1).
Proof.
  intros Hw. unfold wrapS. assert (2 ^ w = 2 * 2 ^ (w - 1)) as E.
  { rewrite <-Z.pow_succ_r by lia. f_equal. lia. }
  pose proof (Z.mod_pos_bound (x + 2 ^ (w - 1)) (2 ^ w)) as H. specialize (H ltac:(by apply Z.pow_pos_nonneg; lia)).
  lia.
Qed.

Lemma uvarint_loop_range buf : ∀ i x s, 0 <= x < 2 ^ 64 → 0 <= (uvarint_loop buf i x s).1 < 2 ^ 64.
Proof.
  induction buf as [|b buf IH]; intros i x s Hx; cbn [uvarint_loop]; [done|].
  pose proof (λ z, wrapU_range 64 z ltac:(lia)) as Hw.
  destruct (byte_val b <? 128).
  - destruct (_ || _); cbn [fst]; [done|]. by apply lor_lt.
  - apply IH. by apply lor_lt.
Qed.

Lemma le_word_range l : 0 <= le_word l < 2 ^ (8 * Z.of_nat (length l)).
Proof.
  induction l as [|b l IH]; cbn [le_word length]; [done|].
  pose proof (byte_val_range b) as Hb. rewrite Nat2Z.inj_succ, <-Z.add_1_r, Z.mul_add_distr_l.
  apply lor_lt; [lia| |].
  - pose proof (pow2_le 8 (8 * Z.of_nat (length l) + 8) ltac:(lia)) as Hp.
    change (2 ^ 8) with 256 in Hp. rewrite Z.mul_1_r. lia.
  - rewrite Z.mul_1_r. apply shiftl_lt; lia.
Qed.

(** The numbers [value] reads are 64-bit words. *)
Lemma pull_range wt buf num vb rest : Decoder.pull wt buf = Ret (num, vb, rest) → 0 <= num < 2 ^ 64.
Proof.
  unfold Decoder.pull, read_word. pose proof (uvarint_loop_range buf 0 0 0 ltac:(done)) as Hu.
  fold (Uvarint buf) in Hu. destruct (Uvarint buf) as [v n]. cbn [fst] in Hu.
  assert (∀ k, (k <= 8)%nat → 0 <= le_word (take k buf) < 2 ^ 64) as Hword.
  { intros k Hk. pose proof (le_word_range (take k buf)) as Hr. rewrite length_take in Hr.
    pose proof (pow2_le (8 * Z.of_nat (k `min` length buf)) 64 ltac:(lia)). lia. }
  repeat case_match; intros ?; simplify_eq; auto; apply Hword; lia.
Qed.

Lemma signed_range wt v z : Decoder.decodeSignedInt wt v = Ret z → - 2 ^ 63 <= z < 2 ^ 63.
Proof.
  unfold Decoder.decodeSignedInt. intros H.
  pose proof (wrapS_range 64 v ltac:(lia)) as H64. pose proof (wrapS_range 32 v ltac:(lia)) as H32.
  change (64 - 1) with 63 in H64. change (32 - 1) with 31 in H32.
  repeat case_match; simplify_eq; try lia. unfold unzigzag.
  assert (- 2 ^ 63 <= Z.shiftr (wrapS 64 v) 1 < 2 ^ 63).
  { rewrite Z.shiftr_div_pow2 by lia. change (2 ^ 1) with 2.
    pose proof (Z.mul_div_le (wrapS 64 v) 2). pose proof (Z.mul_succ_div_gt (wrapS 64 v) 2). lia. }
  destruct (negb _); [unfold Z.lnot|]; lia.
Qed.

End typed.

(** ** The decoder *)
Section decoder.
Context {M : Methods} (gens : gmap bytes (gtype * gvalue)).
(** Generators make values of their type, and the user's [UnmarshalBinary] keeps
    the type of its receiver. *)
Context (Hgens : ∀ k g, gens !! k = Some g → typed g.1 g.2).
Context (Huser : ∀ t unmarshal b v v', UnmarshalBinary t = Some unmarshal → typed t v →
  unmarshal b v = Ret v' → typed t v').

Definition constructors_typed (nm : gmap string (gtype * gvalue)) : Prop :=
  ∀ n g, nm !! n = Some g → typed g.1 g.2.

Definition keeps_type (rec : gmap string (gtype * gvalue) → Z → gtype → bool → gvalue → Z → bytes → outcome error gvalue)
    : Prop :=
  ∀ nm wt t set v num vb r, constructors_typed nm → typed t v → 0 <= num < 2 ^ 64 →
  rec nm wt t set v num vb = Ret r → typed t r.

Lemma with_field_typed {A} path : ∀ t v addr sticky (k : gtype → bool → gvalue → outcome error (gvalue * A)) y a,
  (∀ ft set x z b, typed ft x → k ft set x = Ret (z, b) → typed ft z) → typed t v →
  Decoder.with_field path t v addr sticky k = Ret (y, a) → typed t y.
Proof.
  induction path as [|i path IH]; intros t v addr sticky k y a Hk Hv; cbn [Decoder.with_field]; [done|].
  destruct (fields_of t) as [fs|] eqn:Hfs; [|done]. destruct (fs !! i) as [[f ft]|] eqn:Hi; [|done].
  assert (∀ c, (let! (_, a0) := k ft false VNil in Ret (v, a0)) = c → c = Ret (y, a) → typed t y) as Hother.
  { intros c <- ([z b] & _ & [= <- _])%obind_ret_inv. done. }
  destruct v as [| | | | | |vs| | | | | |]; try (by eapply Hother).
  destruct (vs !! i) as [x|] eqn:Hx; [|done]. intros (x1 & Halloc & H)%obind_ret_inv.
  apply obind_ret_inv in H as ([x2 b] & Hz & [= <- _]).
  inversion Hv as [| | | | | |? fs' ? Hs Hall| | | | | | | |]; subst.
  rewrite <-fields_of_strip, Hs in Hfs. injection Hfs as ->.
  pose proof (Forall2_lookup_lr _ _ _ _ _ _ Hall Hi Hx) as Hft. cbn in Hft.
  assert (typed ft x1) as H1.
  { destruct (bool_decide (kind ft = Ptr) && is_nil x) eqn:Hn; [|by injection Halloc as <-].
    apply andb_true_iff in Hn as [Hp%bool_decide_eq_true _].
    destruct (_ && exported f); [|done]. injection Halloc as <-. constructor; [done|apply zero_typed]. }
  assert (typed ft x2) as H2.
  { destruct path as [|j path]; [by eapply Hk|].
    destruct x1 as [| | | | | | | |z| | | |]; try (by eapply IH).
    apply obind_ret_inv in Hz as ([z' b'] & Hz & [= <- <-]). typed_inv H1.
    constructor; [done|]. by eapply IH. }
  eapply typed_struct; [done|]. rewrite <-(list_insert_id _ _ _ Hi). by apply Forall2_insert.
Qed.

Section rec.
Context (rec : gmap string (gtype * gvalue) → Z → gtype → bool → gvalue → Z → bytes → outcome error gvalue).
Context (Hrec : keeps_type rec) (nm : gmap string (gtype * gvalue)) (Hnm : constructors_typed nm).

Lemma value_typed wt buf t set v r rest :
  typed t v → Decoder.value rec nm wt buf t set v = Ret (r, rest) → typed t r.
Proof.
  intros Hv. unfold Decoder.value.
  destruct (Decoder.pull wt buf) as [[[num vb] rest']| | |] eqn:E; try done. cbn [obind].
  intros (x & Hx & [= <- _])%obind_ret_inv. eapply Hrec; eauto using pull_range.
Qed.

Lemma message_loop_typed t : ∀ rounds L buf sval r,
  typed t sval → Decoder.message_loop rec nm rounds L t buf sval = Ret r → typed t r.
Proof.
  induction rounds as [|rounds IH]; intros L buf sval r Hs;
    (destruct buf as [|b buf]; [by intros [= <-]|]); unfold Decoder.message_loop; fold Decoder.message_loop;
    destruct (Uvarint (b :: buf)) as [key k]; (destruct (k <=? 0); [done|]); cbv zeta.
  { by intros ([? ?] & _ & ?)%obind_ret_inv. }
  intros ([s' rest] & Hround & Hnext)%obind_ret_inv. eapply IH; [|exact Hnext].
  destruct (Decoder.advance _ _) as [|p ps].
  { by apply obind_ret_inv in Hround as ([? ?] & _ & [= <- _]). }
  destruct (ID p =? _).
  - eapply with_field_typed; [|exact Hs|exact Hround]. intros ft set x z b' Hx Hz%in_message_ret.
    by eapply value_typed.
  - apply in_message_ret in Hround. by apply obind_ret_inv in Hround as ([? ?] & _ & [= <- _]).
Qed.

Lemma message_typed buf t sval r :
  typed t sval → Decoder.message rec nm buf t sval = Ret r → typed t r.
Proof.
  intros Hs. unfold Decoder.message. destruct (decide _) as [_|_]; [|done].
  intros (L & _ & H)%obind_ret_inv. by eapply message_loop_typed.
Qed.

Lemma decode_typed t v buf r :
  typed t v → Decoder.DecodeWithConstructors rec nm buf (Some (t, v)) = Ret r → typed t r.
Proof.
  intros Hv H. cbn in H.
  assert (∀ A (c : outcome error A) x, recover_panic c = Ret x → c = Ret x) as Hrp by (intros A c x; by destruct c).
  apply Hrp in H. destruct (UnmarshalBinary t) as [um|] eqn:Hu; [by eapply Huser|].
  destruct (decide _) as [Hk|_]; [|done]. destruct v as [| | | | | | | |x| | | |]; try done.
  apply obind_ret_inv in H as (y & Hy & [= <-]). typed_inv Hv. constructor; [done|]. by eapply message_typed.
Qed.

Lemma append_typed t sl x : kind t = Slice → kind (Elem t) ≠ Uint8 → typed t sl → typed (Elem t) x →
  typed t (VSeq (Encoder.elems sl ++ [x])).
Proof.
  intros Hk Hu Hsl Hx. apply typed_slice; [done..|]. apply Forall_app. split; [|by constructor].
  typed_inv Hsl; constructor || done.
Qed.

Lemma packed_loop_typed wt t : (kind t = Slice → kind (Elem t) ≠ Uint8) → ∀ rounds vb val sl r,
  typed (Elem t) val → typed t sl →
  Decoder.packed_loop rec nm rounds wt (Elem t) (bool_decide (kind t = Slice)) vb val sl = Ret r → typed t r.
Proof.
  intros Hu. induction rounds as [|rounds IH]; intros vb val sl r Hv Hs;
    (destruct vb as [|b vb]; [by intros [= <-]|]); cbn [Decoder.packed_loop];
    intros ([val' rem] & Hval & H)%obind_ret_inv; apply (value_typed _ _ _ _ _ _ _ Hv) in Hval.
  - by apply obind_ret_inv in H as (? & _ & ?).
  - case_bool_decide as Hk; [|done]. eapply IH; [exact Hval| |exact H]. by apply append_typed; auto.
Qed.

Lemma slice_typed t sl vb r : kind t = Slice ∨ kind t = Array → typed t sl →
  Decoder.slice rec nm t sl vb = Ret r → typed t r.
Proof.
  intros Hk Hs. unfold Decoder.slice. destruct (Decoder.elem_wiretype (Elem t)) as [w|] eqn:Hw.
  - apply packed_loop_typed; [|apply zero_typed|done]. intros _ Hu. unfold Decoder.elem_wiretype in Hw.
    by rewrite Hu in Hw.
  - destruct (decide (kind (Elem t) = Uint8)) as [Hu|Hu].
    + rewrite Hu. destruct (decide (kind t = Array)) as [Ha|Ha].
      * destruct (decide _) as [Hl|_]; [|done]. intros [= <-]. by apply typed_byte_array.
      * intros [= <-]. destruct Hk; [by apply typed_bytes|done].
    + assert ((let! val := rec nm 2 (Elem t) true (zero (Elem t)) 0 vb in
        if decide (kind t = Slice) then Ret (VSeq (Encoder.elems sl ++ [val])) else Err "append to non-slice") = Ret r →
        typed t r) as H; [|by destruct (kind (Elem t))].
      intros (x & Hx & H)%obind_ret_inv. destruct (decide _) as [Hsl|_]; [|done]. injection H as <-.
      apply append_typed; [done..|]. eapply Hrec; [done|apply zero_typed| |exact Hx]. lia.
Qed.

Lemma entry_loop_typed t : ∀ rounds buf v r,
  typed t v → Decoder.entry_loop rec nm rounds buf t v = Ret r → typed t r.
Proof.
  induction rounds as [|rounds IH]; intros buf v r Hv;
    (destruct buf as [|b buf]; [by intros [= <-]|]); unfold Decoder.entry_loop; fold Decoder.entry_loop;
    destruct (Uvarint (b :: buf)) as [key k]; (destruct (k <=? 0); [done|]);
    intros ([v' rest] & Hval & H)%obind_ret_inv; [done|].
  eapply IH; [|exact H]. by eapply value_typed.
Qed.

Lemma map_set_typed k u l x y :
  Forall (λ e, typed k e.1 ∧ typed u e.2) l → typed k x → typed u y →
  Forall (λ e, typed k e.1 ∧ typed u e.2) (Decoder.map_set l x y).
Proof.
  intros Hl Hx Hy. induction Hl as [|[k' v'] l [Hk' Hv'] Hl IH]; cbn; [by repeat constructor|].
  destruct (Decoder.go_eq x k'); constructor; done.
Qed.

Lemma mapEntry_typed t m vb r : kind t = Map → typed t m →
  Decoder.mapEntry rec nm t m vb = Ret r → typed t r.
Proof.
  intros Hk Hm. unfold Decoder.mapEntry. destruct (Uvarint vb) as [key n]. destruct (n <=? 0); [done|].
  intros ([x rest] & Hx & H)%obind_ret_inv. apply obind_ret_inv in H as (y & Hy & [= <-]).
  apply typed_map; [done|]. apply map_set_typed.
  - typed_inv Hm; constructor || done.
  - eapply value_typed; [|exact Hx]. apply zero_typed.
  - eapply entry_loop_typed; [|exact Hy]. apply zero_typed.
Qed.

Lemma set_interface_typed t g v : kind t = Interface → typed g.1 g.2 →
  Decoder.set_interface t g = Ret v → typed t v.
Proof.
  intros Hk Hg. unfold Decoder.set_interface.
  destruct t; try done; (destruct (implements g.1 name) eqn:Hi; [|done]); intros [= <-];
    by eapply typed_interface.
Qed.

Lemma instantiate_typed t g : kind t = Interface → Decoder.instantiate nm t = Ret g → typed g.1 g.2.
Proof.
  intros Hk. unfold Decoder.instantiate. rewrite Hk.
  destruct t; try done; (destruct (nm !! name) as [g'|] eqn:Hn; [|done]); intros [= <-]; by eapply Hnm.
Qed.

Lemma no_constructors : constructors_typed ∅.
Proof. intros n g. by rewrite lookup_empty. Qed.
End rec.

Section body.
Context (rec : gmap string (gtype * gvalue) → Z → gtype → bool → gvalue → Z → bytes → outcome error gvalue).
Context (Hrec : keeps_type rec) (nm : gmap string (gtype * gvalue)) (Hnm : constructors_typed nm).

Lemma put_interface_typed wt t v vb r : kind t = Interface → typed t v →
  Decoder.put_interface gens rec nm wt t v vb = Ret r → typed t r.
Proof.
  intros Hk Hv. unfold Decoder.put_interface. intros ([v1 data] & H1 & H2)%obind_ret_inv.
  assert (typed t v1) as Hv1.
  { destruct v; try (by injection H1 as <- _).
    destruct (if (8 <? length vb)%nat then _ else _) as [g|] eqn:Hg.
    - apply obind_ret_inv in H1 as (i & Hi & [= <- _]). eapply set_interface_typed; [done| |exact Hi].
      destruct (8 <? length vb)%nat; [by eapply Hgens|done].
    - apply obind_ret_inv in H1 as (g & Hins & H1). apply obind_ret_inv in H1 as (i & Hi & [= <- _]).
      eapply set_interface_typed; [done| |exact Hi]. by eapply (instantiate_typed nm Hnm). }
  destruct v1 as [| | | | | | | | | | | |dt x]; try (by injection H2 as <-).
  inversion Hv1 as [| | | | | | | | | | | | | |? name ? ? _ Hn Himp Hx]; subst.
  destruct (UnmarshalBinary dt) as [um|] eqn:Hum.
  - destruct (negb _); [done|]. apply obind_ret_inv in H2 as (y & Hy & [= <-]).
    eapply typed_interface; eauto.
  - apply obind_ret_inv in H2 as (y & Hy & [= <-]). eapply typed_interface; eauto.
    by eapply (decode_typed rec Hrec ∅ no_constructors).
Qed.

Lemma put_ptr_typed wt t v num vb r : kind t = Ptr → typed t v → 0 <= num < 2 ^ 64 →
  (let! val :=
     match v with
     | VNil =>
         if decide (kind (Elem t) = Interface) then
           let! _ := Decoder.instantiate nm (Elem t) in
           Panic "reflect.Set: value is not assignable to type"
         else let! g := Decoder.instantiate nm (Elem t) in Ret g.2
     | _ => Ret v
     end in
   match val with
   | VPtr x => let! x := rec nm wt (Elem t) true x num vb in Ret (VPtr x)
   | _ => Ret val
   end) = Ret r → typed t r.
Proof.
  intros Hk Hv Hnum (v1 & H1 & H2)%obind_ret_inv.
  assert (typed t v1) as Hv1.
  { destruct v; try (by injection H1 as <-).
    destruct (decide _) as [_|Hni]; [by apply obind_ret_inv in H1 as (? & _ & ?)|].
    apply obind_ret_inv in H1 as (g & Hg & [= <-]). unfold Decoder.instantiate in Hg.
    assert (g = (TPtr (Elem t), VPtr (zero (Elem t)))) as ->.
    { destruct (kind (Elem t)); congruence. }
    constructor; [done|apply zero_typed]. }
  destruct v1 as [| | | | | | | |x| | | |]; try (by injection H2 as <-).
  apply obind_ret_inv in H2 as (y & Hy & [= <-]). typed_inv Hv1. constructor; [done|]. by eapply Hrec.
Qed.

Lemma put_time_typed t sv : strip t = TTime →
  typed t (time_Unix (Z.quot sv 1000000000) (Z.rem sv 1000000000)).
Proof. intros Ht. unfold time_Unix. constructor; [done|]. apply Z.mod_pos_bound. lia. Qed.

Lemma putvalue_body_typed wt t set v num vb r : typed t v → 0 <= num < 2 ^ 64 →
  Decoder.putvalue_body gens rec nm wt t set v num vb = Ret r → typed t r.
Proof.
  intros Hv Hnum. unfold Decoder.putvalue_body. destruct (negb set); [by intros [= <-]|].
  pose proof (wrapU_range 32 num ltac:(lia)) as Hw.
  destruct (kind t) eqn:Hk; try done;
    try (intros (sv & Hsv%signed_range & [= <-])%obind_ret_inv; eapply typed_int_of; [by rewrite Hk|]).
  - repeat case_match; intros ?; simplify_eq. by constructor.
  - lia.
  - exact (wrapS_range 32 sv ltac:(lia)).
  - lia.
  - repeat case_match; intros ?; simplify_eq; (eapply typed_int_of; [by rewrite Hk|lia]).
  - case_match; [|done]. intros [= <-]. eapply typed_int_of; [by rewrite Hk|lia].
  - repeat case_match; intros ?; simplify_eq; (eapply typed_int_of; [by rewrite Hk|lia]).
  - case_match; [done|]. intros [= <-]. constructor; [done|]. by apply f32_range.
  - case_match; [done|]. intros [= <-]. by constructor.
  - case_match; [done|]. intros [= <-]. by constructor.
  - destruct (decide (t = TTime)) as [->|Hne].
    + intros (sv & _ & [= <-])%obind_ret_inv. by apply put_time_typed.
    + assert ((if negb (wt =? 2) then Err "bad wiretype for embedded message"
               else Decoder.message rec nm vb t v) = Ret r → typed t r) as H; [|by destruct t].
      destruct (negb _); [done|]. by apply message_typed.
  - by apply put_ptr_typed.
  - destruct (negb _); [done|]. apply slice_typed; auto.
  - destruct (negb _); [done|]. apply slice_typed; auto.
  - destruct (negb _); [done|]. by apply mapEntry_typed.
  - by apply put_interface_typed.
Qed.
End body.

Lemma putvalue_typed fuel : keeps_type (Decoder.putvalue gens fuel).
Proof.
  induction fuel as [|fuel IH]; intros nm wt t set v num vb r Hnm Hv Hnum; cbn [Decoder.putvalue]; [done|].
  by apply putvalue_body_typed.
Qed.

Lemma decode_with_typed fuel nm buf t v r : constructors_typed nm → typed t v →
  Decoder.DecodeWithConstructors (Decoder.putvalue gens fuel) nm buf (Some (t, v)) = Ret r → typed t r.
Proof. intros Hnm. apply decode_typed; [apply putvalue_typed|done]. Qed.

(** C13: the decoder is type safe: for every type, every value of it to decode into
    and any bytes, what [DecodeWithConstructors] returns without error is a value
    of that type: integers in their range, arrays of their length, structs with
    their fields, interfaces holding implementations. *)
Theorem decoded_is_typed fuel nm buf t v r : constructors_typed nm → typed t v →
  Decoder.DecodeWithConstructors (Decoder.putvalue gens fuel) nm buf (Some (t, v)) = Ret r → typed t r.
Proof. apply decode_with_typed. Qed.
End decoder.

(** ** Witness *)
Module TypedExample.
Import ProtobufExample.

(** The point is the one type with methods. *)
Definition point_methods : Methods := {|
  implements t name := bool_decide (t = TPoint) && bool_decide (name = "abstract.Point"%string);
  MarshalBinary t :=
    if decide (t = TPoint) then Some (λ v, match v with VPtr (VBytes b) => Ret b | _ => Err "nil point" end) else None;
  MarshalID t := if decide (t = TPoint) then Some (λ _, point_id) else None;
  UnmarshalBinary t :=
    if decide (t = TPoint) then
      Some (λ b _, if decide (length b = 2%nat) then Ret (VPtr (VBytes b)) else Err "bad point")
    else None;
|}.
Definition point_gens : gmap bytes (gtype * gvalue) := {[ point_id := (TPoint, VPtr (VBytes [x00; x00])) ]}.

Lemma point_typed b : length b = 2%nat → typed (M := point_methods) TPoint (VPtr (VBytes b)).
Proof. intros Hb. apply typed_ptr; [done|]. by apply typed_byte_array. Qed.

Lemma point_gens_typed k g : point_gens !! k = Some g → typed (M := point_methods) g.1 g.2.
Proof. unfold point_gens. intros [<- <-]%lookup_singleton_Some. by apply point_typed. Qed.

Lemma point_methods_typed t unmarshal b v v' : UnmarshalBinary (Methods := point_methods) t = Some unmarshal →
  typed (M := point_methods) t v → unmarshal b v = Ret v' → typed (M := point_methods) t v'.
Proof.
  unfold UnmarshalBinary, point_methods. destruct (decide (t = TPoint)) as [->|]; [|done]. intros [= <-] _.
  destruct (decide _) as [Hb|]; [|done]. intros [= <-]. by apply point_typed.
Qed.

(** The bytes set the number, the string list and the point. *)
Definition incoming : bytes := [x08; x99; x01; x3a; x01; x01; x5a; x0a] ++ point_id ++ [x07; x08].
Definition decoded : gvalue :=
  match Decoder.DecodeWithConstructors (M := point_methods) (Decoder.putvalue (M := point_methods) point_gens 9) ∅ incoming
          (Some (TPtr TMessage, VPtr (zero TMessage))) with
  | Ret v => v
  | _ => VNil
  end.

Lemma decoded_is_typed_witness : typed (M := point_methods) (TPtr TMessage) decoded.
Proof.
  apply (decoded_is_typed point_gens point_gens_typed point_methods_typed 9 ∅ incoming (TPtr TMessage)
           (VPtr (zero TMessage))).
  - apply no_constructors.
  - apply typed_ptr; [reflexivity|apply zero_typed].
  - by_vm.
Defined.
End TypedExample.
