(* ===== verification/Suite.v ===== *)
(** * The cryptographic suite ([gopkg.in/dedis/crypto.v0/abstract])

    The suite is third-party code: [Suite] is the record of the operations the
    source calls on [abstract.Suite], [abstract.Point], [abstract.Scalar] and
    [abstract.Cipher], [SuiteLaws] the documented behaviour the theorems use.
    Points are compared with [Point.Equal], an equivalence [≡] coarser than
    equality of representations.  [ZSuite] is a concrete suite for closed
    computations. *)
From Stdlib Require Import Ring Setoid Morphisms.
From S2P Require Import Prelude.

Class Suite := {
  Scalar : Type;
  Point : Type;
  (** [cipher.Stream]: [random.Stream] or a cipher used as a generator. *)
  Stream : Type;
  scalar_eq_dec :: EqDecision Scalar;
  scalar_zero : Scalar;
  scalar_one : Scalar;
  scalar_add : Scalar → Scalar → Scalar;
  scalar_sub : Scalar → Scalar → Scalar;
  scalar_mul : Scalar → Scalar → Scalar;
  scalar_neg : Scalar → Scalar;
  scalar_pick : Stream → Scalar * Stream;
  scalar_marshal : Scalar → outcome error bytes;
  point_equiv :: Equiv Point;
  point_equal : Point → Point → bool;
  point_null : Point;
  point_base : Point;
  point_add : Point → Point → Point;
  point_sub : Point → Point → Point;
  point_neg : Point → Point;
  (** [Mul(p, s)]; a nil [p] stands for the base point. *)
  point_mul : option Point → Scalar → Point;
  (** [Pick(data, rand)] embeds a prefix of [data] and returns the rest. *)
  point_pick : bytes → Stream → Point * bytes * Stream;
  point_pick_len : Point → nat;
  point_data : Point → outcome error bytes;
  point_marshal : Point → outcome error bytes;
  point_string : Point → bytes;
  cipher : bytes → Stream;
  cipher_message : Stream → bytes → Stream;
  cipher_seal : Stream → bytes → bytes;
  cipher_open : Stream → bytes → outcome error bytes;
}.

Class SuiteLaws (S : Suite) : Prop := {
  scalar_ring : ring_theory scalar_zero scalar_one scalar_add scalar_mul
                  scalar_sub scalar_neg (@eq Scalar);
  point_equiv_equivalence :: Equivalence (≡@{Point});
  point_equal_spec p q : point_equal p q = true ↔ p ≡ q;
  point_add_proper :: Proper ((≡) ==> (≡) ==> (≡)) point_add;
  point_neg_proper :: Proper ((≡) ==> (≡)) point_neg;
  point_mul_proper p q s : p ≡ q → point_mul (Some p) s ≡ point_mul (Some q) s;
  point_add_assoc p q r : point_add p (point_add q r) ≡ point_add (point_add p q) r;
  point_add_comm p q : point_add p q ≡ point_add q p;
  point_add_null p : point_add point_null p ≡ p;
  point_add_neg p : point_add p (point_neg p) ≡ point_null;
  point_sub_def p q : point_sub p q ≡ point_add p (point_neg q);
  point_mul_nil s : point_mul None s ≡ point_mul (Some point_base) s;
  point_mul_add p s t :
    point_mul (Some p) (scalar_add s t)
    ≡ point_add (point_mul (Some p) s) (point_mul (Some p) t);
  point_mul_point_add p q s :
    point_mul (Some (point_add p q)) s
    ≡ point_add (point_mul (Some p) s) (point_mul (Some q) s);
  point_mul_mul p s t :
    point_mul (Some (point_mul (Some p) s)) t ≡ point_mul (Some p) (scalar_mul s t);
  point_marshal_returns p : returns (point_marshal p);
  point_marshal_proper p q : p ≡ q → point_marshal p = point_marshal q;
  point_data_proper p q : p ≡ q → point_data p = point_data q;
  (** [Pick] embeds the first [PickLen] bytes, which [Data] extracts. *)
  point_pick_rem d st : (point_pick d st).1.2 = drop (point_pick_len (point_pick d st).1.1) d;
  point_pick_data d st :
    d ≠ [] → point_data (point_pick d st).1.1
             = Ret (take (point_pick_len (point_pick d st).1.1) d);
  point_pick_len_pos p : 0 < point_pick_len p;
  cipher_open_seal k m : cipher_open (cipher k) (cipher_seal (cipher k) m) = Ret m;
}.

(** ** Consequences of the laws *)

Section laws.
Context {S : Suite} {SL : SuiteLaws S}.

#[global] Instance point_sub_proper : Proper ((≡) ==> (≡) ==> (≡)) point_sub.
Proof. intros p p' Hp q q' Hq. rewrite !point_sub_def, Hp, Hq. done. Qed.

#[global] Instance point_mul_some_proper :
  Proper ((≡) ==> (=) ==> (≡)) (λ p, point_mul (Some p)).
Proof. intros p q Hpq s t <-. by apply point_mul_proper. Qed.

Lemma point_add_null_r p : point_add p point_null ≡ p.
Proof. rewrite point_add_comm. apply point_add_null. Qed.

Lemma point_add_cancel_r p q r : point_add p r ≡ point_add q r → p ≡ q.
Proof.
  intros E. rewrite <-(point_add_null_r p), <-(point_add_null_r q).
  rewrite <-(point_add_neg r), !point_add_assoc, E. done.
Qed.

Lemma point_neg_unique p q : point_add p q ≡ point_null → q ≡ point_neg p.
Proof.
  intros E. apply (point_add_cancel_r _ _ p).
  rewrite (point_add_comm q), E, (point_add_comm _ p), point_add_neg. done.
Qed.

Lemma point_neg_neg p : point_neg (point_neg p) ≡ p.
Proof.
  symmetry. apply point_neg_unique.
  rewrite point_add_comm. apply point_add_neg.
Qed.

Lemma point_mul_zero p : point_mul (Some p) scalar_zero ≡ point_null.
Proof.
  apply (point_add_cancel_r _ _ (point_mul (Some p) scalar_zero)).
  rewrite point_add_null, <-point_mul_add, (Radd_0_l scalar_ring). done.
Qed.

Lemma point_mul_neg p s :
  point_mul (Some p) (scalar_neg s) ≡ point_neg (point_mul (Some p) s).
Proof.
  apply point_neg_unique.
  rewrite <-point_mul_add, (Ropp_def scalar_ring). apply point_mul_zero.
Qed.

Lemma point_mul_sub p s t :
  point_mul (Some p) (scalar_sub s t)
  ≡ point_sub (point_mul (Some p) s) (point_mul (Some p) t).
Proof.
  rewrite (Rsub_def scalar_ring), point_mul_add, point_mul_neg, point_sub_def. done.
Qed.

Lemma point_sub_add p q : point_add (point_sub p q) q ≡ p.
Proof.
  rewrite point_sub_def, <-point_add_assoc, (point_add_comm _ q).
  rewrite point_add_neg. apply point_add_null_r.
Qed.

Lemma point_add_sub p q : point_sub (point_add p q) p ≡ q.
Proof.
  rewrite point_sub_def, (point_add_comm p), <-point_add_assoc, point_add_neg.
  apply point_add_null_r.
Qed.

Lemma point_mul_comm p s t :
  point_mul (Some (point_mul (Some p) s)) t
  ≡ point_mul (Some (point_mul (Some p) t)) s.
Proof. rewrite !point_mul_mul, (Rmul_comm scalar_ring). done. Qed.

Lemma point_add_sub_r p q : point_sub (point_add p q) q ≡ p.
Proof. rewrite point_add_comm. apply point_add_sub. Qed.

Lemma point_sub_eq p q r : point_sub p q ≡ r ↔ p ≡ point_add r q.
Proof.
  split; intros E.
  - rewrite <-E. symmetry. apply point_sub_add.
  - rewrite E. apply point_add_sub_r.
Qed.

Lemma point_add_transpose p q r t :
  point_add p q ≡ point_add r t → point_sub p r ≡ point_sub t q.
Proof.
  intros E. apply point_sub_eq. apply (point_add_cancel_r _ _ q).
  rewrite E, <-point_add_assoc, (point_add_comm r q), point_add_assoc.
  rewrite point_sub_add. apply point_add_comm.
Qed.

(** The same exponents on both sides of a Diffie-Hellman exchange. *)
Lemma diffie_hellman s t :
  point_mul (Some (point_mul None s)) t ≡ point_mul (Some (point_mul None t)) s.
Proof.
  rewrite (point_mul_proper _ _ _ (point_mul_nil s)).
  rewrite (point_mul_proper _ _ _ (point_mul_nil t)). apply point_mul_comm.
Qed.

Lemma point_pick_shorter d st :
  d ≠ [] → length (point_pick d st).1.2 < length d.
Proof.
  intros Hd. rewrite point_pick_rem, length_drop.
  pose proof (point_pick_len_pos (point_pick d st).1.1).
  destruct d; [done|]. cbn [length]. lia.
Qed.
End laws.

(** ** A concrete suite over the integers *)

Module ZSuite.
Local Open Scope Z_scope.

(** Three bytes are embedded per point, below a leading 1. *)
Definition embed (b : bytes) : Z := foldr (λ x z, byte_val x + 256 * z) 1 b.

Fixpoint unembed (n : nat) (z : Z) : outcome error bytes :=
  match n with
  | O => Err "no embedded data"
  | S n => if (z =? 1) then Ret []
           else let! t := unembed n (z / 256) in Ret (byte_of z :: t)
  end.

Lemma embed_pos b : 1 <= embed b.
Proof.
  induction b as [|y b IH]; [done|]. pose proof (byte_val_range y).
  unfold embed in *. cbn [foldr]. lia.
Qed.

Lemma unembed_embed n b :
  (length b < n)%nat → unembed n (embed b) = Ret b.
Proof.
  revert n; induction b as [|x b IH]; intros [|n] Hn; cbn in *; try lia; [done|].
  pose proof (embed_pos b) as Hp. pose proof (byte_val_range x) as Hx.
  fold (embed b).
  destruct (Z.eqb_spec (byte_val x + 256 * embed b) 1) as [E|_]; [lia|].
  replace (byte_val x + 256 * embed b) with (embed b * 256 + byte_val x) by lia.
  rewrite Z.div_add_l, Z.div_small, Z.add_0_r, IH by lia. cbn.
  f_equal. f_equal. apply byte_val_inj. rewrite byte_val_of.
  rewrite Z.add_comm, Z.mod_add, Z.mod_small; lia.
Qed.

Definition le8 (z : Z) : bytes :=
  map (λ i, byte_of (Z.shiftr z (8 * Z.of_nat i))) (seq 0 8).

#[global] Instance Zsuite : Suite := {|
  Scalar := Z; Point := Z; Stream := Z;
  scalar_eq_dec := Z.eq_dec;
  scalar_zero := 0; scalar_one := 1;
  scalar_add := Z.add; scalar_sub := Z.sub; scalar_mul := Z.mul;
  scalar_neg := Z.opp;
  scalar_pick st := (1 + st mod 1009, 31 * st + 7);
  scalar_marshal s := Ret (le8 s);
  point_equiv := (=);
  point_equal := Z.eqb;
  point_null := 0; point_base := 1;
  point_add := Z.add; point_sub := Z.sub; point_neg := Z.opp;
  point_mul p s := default 1 p * s;
  point_pick d st := (embed (take 3 d), drop 3 d, st);
  point_pick_len _ := 3%nat;
  point_data := unembed 5;
  point_marshal p := Ret (le8 p);
  point_string p := le8 p;
  cipher k := foldl (λ z b, 33 * z + byte_val b) 5381 k;
  cipher_message st m := foldl (λ z b, 33 * z + byte_val b) st m;
  cipher_seal st m := byte_of st :: m;
  cipher_open st c :=
    match c with
    | b :: m => if decide (b = byte_of st) then Ret m else Err "authentication"
    | [] => Err "authentication"
    end;
|}.

#[global] Instance Zsuite_laws : SuiteLaws Zsuite.
Proof.
  split; cbn.
  - split; intros; lia.
  - split; repeat intro; congruence.
  - intros p q. apply Z.eqb_eq.
  - intros p q Hpq r s Hrs. f_equal; done.
  - intros p q Hpq. f_equal; done.
  - intros p q s ->. done.
  - intros p q r. unfold equiv. lia.
  - intros p q. unfold equiv. lia.
  - intros p. done.
  - intros p. unfold equiv. lia.
  - intros p q. unfold equiv. lia.
  - intros s. done.
  - intros p s t. unfold equiv. cbn. ring.
  - intros p q s. unfold equiv. cbn. ring.
  - intros p s t. unfold equiv. cbn. ring.
  - intros p. exact I.
  - intros p q ->. done.
  - intros p q ->. done.
  - done.
  - intros d st _. apply (unembed_embed 5). rewrite length_take. lia.
  - lia.
  - intros k m. by rewrite decide_True.
Qed.

End ZSuite.
