(* ===== verification/Schnorr.v ===== *)
(** * Signatures and hashing ([imported/onet/crypto], [util.go])

    [Schnorr] models [schnorr.go], [Util] models [util.go], [HashStream] models
    [hash.go]: the chunked reading loop, the flattening of arguments and the
    functions built on them. *)
From S2P Require Import Prelude Sha256 Suite.

Module Schnorr.
Section schnorr.
Context {S : Suite}.

Record SchnorrSig := { Challenge : Scalar; Response : Scalar }.

(** [(ss *SchnorrSig) MarshalBinary]. *)
Definition MarshalBinary (ss : SchnorrSig) : outcome error bytes :=
  let! cbuf := scalar_marshal (Challenge ss) in
  let! rbuf := scalar_marshal (Response ss) in
  Ret (cbuf ++ rbuf).

Definition hash (r : Point) (msg : bytes) : outcome error Scalar :=
  let! rBuf := point_marshal r in
  let c := cipher_message (cipher rBuf) msg in
  Ret (scalar_pick c).1.

(** The random stream is threaded through explicitly. *)
Definition SignSchnorr (private : Scalar) (msg : bytes) (random : Stream)
    : outcome error (SchnorrSig * Stream) :=
  let '(k, random) := scalar_pick random in
  let r := point_mul None k in
  let! e := hash r msg in
  let xe := scalar_mul private e in
  let s := scalar_sub k xe in
  Ret ({| Challenge := e; Response := s |}, random).

Definition VerifySchnorr (public : Point) (msg : bytes) (sig : SchnorrSig)
    : outcome error unit :=
  let gs := point_mul None (Response sig) in
  let ye := point_mul (Some public) (Challenge sig) in
  let rv := point_add gs ye in
  let! e := hash rv msg in
  if decide (e = Challenge sig) then Ret tt
  else Err "Signature not valid: Reconstructed challenge isn't equal to challenge in signature".

Section correctness.
Context {SL : SuiteLaws S}.

Lemma hash_proper p q msg : p ≡ q → hash p msg = hash q msg.
Proof. intros E. unfold hash. rewrite (point_marshal_proper p q E). done. Qed.

(** [s·G + e·Y = k·G] for [s = k - x·e] and [Y = x·G]. *)
Lemma schnorr_commitment x k e :
  point_add (point_mul None (scalar_sub k (scalar_mul x e)))
            (point_mul (Some (point_mul None x)) e)
  ≡ point_mul None k.
Proof.
  rewrite (point_mul_nil (scalar_sub _ _)), (point_mul_nil k), point_mul_sub.
  rewrite (point_mul_proper _ _ e (point_mul_nil x)), point_mul_mul.
  apply point_sub_add.
Qed.

Lemma SignSchnorr_inv x m rnd sig rnd' :
  SignSchnorr x m rnd = Ret (sig, rnd') →
  let k := (scalar_pick rnd).1 in
  hash (point_mul None k) m = Ret (Challenge sig) ∧
  Response sig = scalar_sub k (scalar_mul x (Challenge sig)).
Proof.
  unfold SignSchnorr. destruct (scalar_pick rnd) as [k rnd1]. cbn.
  intros H. inv_ret. subst. done.
Qed.

Lemma VerifySchnorr_ok y m sig :
  VerifySchnorr y m sig = Ret tt ↔
  hash (point_add (point_mul None (Response sig))
                  (point_mul (Some y) (Challenge sig))) m
  = Ret (Challenge sig).
Proof.
  unfold VerifySchnorr. destruct (hash _ m) as [e| | |]; cbn; [|naive_solver..].
  case_decide; split; try congruence; done.
Qed.

Lemma VerifySchnorr_signed x m rnd sig rnd' :
  SignSchnorr x m rnd = Ret (sig, rnd') →
  VerifySchnorr (point_mul None x) m sig = Ret tt.
Proof.
  intros [Hh Hs]%SignSchnorr_inv. apply VerifySchnorr_ok.
  rewrite Hs, (hash_proper _ _ m (schnorr_commitment _ _ _)). done.
Qed.

Lemma VerifySchnorr_returns y m sig : returns (VerifySchnorr y m sig).
Proof.
  unfold VerifySchnorr, hash.
  pose proof (point_marshal_returns (point_add (point_mul None (Response sig))
                (point_mul (Some y) (Challenge sig)))) as H.
  destruct (point_marshal _); cbn in *; [|done..]. by case_decide.
Qed.

Lemma VerifySchnorr_proper y z m sig :
  y ≡ z → VerifySchnorr y m sig = VerifySchnorr z m sig.
Proof.
  intros E. unfold VerifySchnorr. erewrite hash_proper; [done|].
  rewrite (point_mul_proper _ _ _ E). done.
Qed.
End correctness.
End schnorr.
Arguments SchnorrSig : clear implicits.
Arguments SchnorrSig {S}.
End Schnorr.
Export Schnorr.

Module Util.
Section util.
Context {S : Suite}.

Definition CreatePointH (pubKey : Point) : outcome error Point :=
  let! binPubKey := point_marshal pubKey in
  let labelHash := Sum256 binPubKey in
  let '(h, _, _) := point_pick [] (cipher labelHash) in
  Ret h.

Definition SignMessage (msg : bytes) (privKey : Scalar) (random : Stream)
    : outcome error (SchnorrSig * Stream) :=
  let msgHash := Sum256 msg in
  SignSchnorr privKey msgHash random.

Lemma CreatePointH_proper {SL : SuiteLaws S} p q :
  p ≡ q → CreatePointH p = CreatePointH q.
Proof. intros E. unfold CreatePointH. rewrite (point_marshal_proper _ _ E). done. Qed.

Lemma SignMessage_verifies {SL : SuiteLaws S} m x rnd sig rnd' :
  SignMessage m x rnd = Ret (sig, rnd') →
  VerifySchnorr (point_mul None x) (Sum256 m) sig = Ret tt.
Proof. apply VerifySchnorr_signed. Qed.
End util.
End Util.
Export Util.

Module HashStream.

(** What [Read] of an [io.Reader] may return besides data. *)
Inductive read_error := EOF | ReadFailed.
#[export] Instance read_error_eq_dec : EqDecision read_error.
Proof. solve_decision. Defined.

(** An [io.Reader]: [Read] into a buffer of the given length. *)
Class Reader (R : Type) := Read : nat → R → bytes * option read_error * R.

(** [bytes.NewReader]: the unread bytes. *)
Record BytesReader := NewReader { unread : bytes }.
#[export] Instance bytes_reader : Reader BytesReader := λ n r,
  match unread r with
  | [] => ([], Some EOF, r)
  | b => (take n b, None, NewReader (drop n b))
  end.

(** A reader that delivers its data in pieces (a socket, a pipe); it may
    return fewer bytes than asked for before the end of the stream. *)
Record PieceReader := NewPieces { pieces : list bytes }.
#[export] Instance piece_reader : Reader PieceReader := λ n r,
  match pieces r with
  | [] => ([], Some EOF, r)
  | p :: ps => (take n p, None,
                NewPieces (if decide (drop n p = []) then ps else drop n p :: ps))
  end.

Definition DefaultChunkSize : nat := Z.to_nat 1024.

Section hashing.
(** The digest of the underlying [hash.Hash]; its state is what was written
    so far, and [Write] never returns an error. *)
Variable digest : bytes → bytes.

Definition Hash (h buff : bytes) : bytes * bytes := (h ++ buff, digest (h ++ buff)).

(** The state of the hash after the call and its sum; [None] when the loop
    has not ended within the fuel. *)
Fixpoint hashStream {R} `{Reader R} (fuel : nat) (h : bytes) (stream : R)
    (size : nat) : option (bytes * bytes) :=
  match fuel with
  | O => None
  | S fuel =>
      let '(b, errRead, stream) := Read size stream in
      let h := h ++ b in
      if decide (errRead = Some EOF ∨ length b < size) then Some (h, digest h)
      else hashStream fuel h stream size
  end.

Definition HashStream {R} `{Reader R} fuel h (stream : R) : option (bytes * bytes) :=
  hashStream fuel h stream DefaultChunkSize.

Definition HashStreamChunk {R} `{Reader R} fuel h (stream : R) (chunkSize : Z)
    : option (outcome error (bytes * bytes)) :=
  if (chunkSize <? 1)%Z then Some (Err "Wrong chunksize value")
  else Ret <$> hashStream fuel h stream (Z.to_nat chunkSize).

(** The reader of a byte slice is exhausted within [length b + 1] reads. *)
Definition HashBytes (h b : bytes) : option (bytes * bytes) :=
  HashStream (S (length b)) h (NewReader b).

(** The arguments of [HashArgs], as reflection sees them: something that
    marshals itself, a slice of arguments, or anything else. *)
Inductive arg :=
  | AMarshaler (MarshalBinary : outcome error bytes)
  | ASlice (l : list arg)
  | AOther.

Fixpoint ConvertToBinaryMarshaler (a : arg) : outcome error (list (outcome error bytes)) :=
  match a with
  | AMarshaler m => Ret [m]
  | ASlice l =>
      let fix go l :=
        match l with
        | [] => Ret []
        | a :: l => let! bms := ConvertToBinaryMarshaler a in
                    let! ret := go l in Ret (bms ++ ret)
        end in go l
  | AOther => Err "Couldn't convert to BinaryMarshaler"
  end.

Fixpoint hash_each (h res : bytes) (l : list (outcome error bytes))
    : option (outcome error bytes) :=
  match l with
  | [] => Some (Ret res)
  | a :: l =>
      match a with
      | Ret buf => '(h, res) ← HashBytes h buf; hash_each h res l
      | Err e => Some (Err e)
      | Panic w => Some (Panic w)
      | OutOfFuel => None
      end
  end.

Definition HashArgs (h : bytes) (args : list arg) : option (outcome error bytes) :=
  match ConvertToBinaryMarshaler (ASlice args) with
  | Ret bmArgs => hash_each h [] bmArgs
  | Err e => Some (Err e)
  | Panic w => Some (Panic w)
  | OutOfFuel => None
  end.

Lemma hashStream_bytes fuel size h b :
  1 <= size → length b < fuel →
  hashStream fuel h (NewReader b) size = Some (h ++ b, digest (h ++ b)).
Proof.
  intros Hs. revert h b. induction fuel as [|fuel IH]; intros h b Hf; [lia|].
  destruct b as [|x b]; cbn [hashStream Read bytes_reader unread].
  { rewrite decide_True by auto. rewrite app_nil_r. done. }
  case_decide as Hd.
  - destruct Hd as [|Hd]; [done|]. rewrite length_take in Hd.
    rewrite take_ge by lia. done.
  - rewrite IH by (rewrite length_drop; cbn [length] in *; lia).
    rewrite <-app_assoc, take_drop. done.
Qed.

Lemma HashBytes_spec h b : HashBytes h b = Some (h ++ b, digest (h ++ b)).
Proof. apply hashStream_bytes; [|lia]. unfold DefaultChunkSize. lia. Qed.

#[local] Arguments HashBytes : simpl never.

Lemma hash_each_spec h res (l : list bytes) :
  hash_each h res (Ret <$> l)
  = Some (Ret (if decide (l = []) then res else digest (h ++ concat l))).
Proof.
  revert h res. induction l as [|b l IH]; intros h res; cbn; [done|].
  rewrite HashBytes_spec. cbn. rewrite IH.
  case_decide; subst; cbn; rewrite ?app_nil_r, <-?app_assoc; done.
Qed.

(** The leaves of an argument, left to right. *)
Fixpoint leaves (a : arg) : list (outcome error bytes) :=
  match a with
  | AMarshaler m => [m]
  | ASlice l => concat (leaves <$> l)
  | AOther => []
  end.

Fixpoint convertible (a : arg) : bool :=
  match a with
  | AMarshaler _ => true
  | ASlice l => forallb convertible l
  | AOther => false
  end.

Lemma Convert_leaves : ∀ a, ConvertToBinaryMarshaler a =
  if convertible a then Ret (leaves a) else Err "Couldn't convert to BinaryMarshaler".
Proof.
  fix IH 1. intros [m|l|]; cbn; [done| |done].
  induction l as [|a l IHl]; cbn; [done|].
  rewrite IH. destruct (convertible a); cbn; [|done].
  rewrite IHl. destruct (forallb convertible l); done.
Qed.

End hashing.
End HashStream.
Export HashStream.

Section schnorr_props.
Context {S : Suite} {SL : SuiteLaws S}.

(** A signature made by [SignSchnorr] is accepted by [VerifySchnorr]
    under every representation of the signer's public key, signing fails only
    when the commitment cannot be marshalled, and [SignMessage] is accepted
    over the SHA-256 digest of the message. *)
Theorem schnorr_complete x y m rnd sig rnd' :
  y ≡ point_mul None x →
  (SignSchnorr x m rnd = Ret (sig, rnd') → VerifySchnorr y m sig = Ret tt) ∧
  (SignMessage m x rnd = Ret (sig, rnd') → VerifySchnorr y (Sum256 m) sig = Ret tt).
Proof.
  intros E. rewrite !(VerifySchnorr_proper _ _ _ _ E).
  split; [apply VerifySchnorr_signed | apply SignMessage_verifies].
Qed.

(** Special soundness of the accepted equation.  Two accepted signatures
    that open the same commitment with different challenges determine the
    secret key: [(s1 - s2)·G = (e2 - e1)·Y]. *)
Theorem schnorr_special_soundness y m1 m2 sig1 sig2 r :
  VerifySchnorr y m1 sig1 = Ret tt →
  VerifySchnorr y m2 sig2 = Ret tt →
  point_add (point_mul None (Response sig1)) (point_mul (Some y) (Challenge sig1)) ≡ r →
  point_add (point_mul None (Response sig2)) (point_mul (Some y) (Challenge sig2)) ≡ r →
  hash r m1 = Ret (Challenge sig1) ∧ hash r m2 = Ret (Challenge sig2) ∧
  point_mul None (scalar_sub (Response sig1) (Response sig2))
  ≡ point_mul (Some y) (scalar_sub (Challenge sig2) (Challenge sig1)).
Proof.
  intros H1%VerifySchnorr_ok H2%VerifySchnorr_ok R1 R2.
  rewrite (hash_proper _ _ m1 R1) in H1. rewrite (hash_proper _ _ m2 R2) in H2.
  do 2 (split; [done|]).
  rewrite point_mul_nil, !point_mul_sub, <-!point_mul_nil.
  apply point_add_transpose. rewrite R1, R2. done.
Qed.
End schnorr_props.

(** [HashStreamChunk] over a byte slice does not depend on the chunk size:
    it ends within [length b + 1] reads and returns the digest of what the hash
    held followed by all the bytes; a chunk size below one is an error; and
    [HashArgs] is the digest of the concatenated encodings of the leaves of its
    arguments, an error when a leaf is no marshaler. *)
Theorem hash_stream_chunk_independent digest h b size :
  HashStreamChunk digest (S (length b)) h (NewReader b) size =
    Some (if (size <? 1)%Z then Err "Wrong chunksize value"
          else Ret (h ++ b, digest (h ++ b))) ∧
  ∀ args enc, leaves (ASlice args) = Ret <$> enc →
    HashArgs digest h args =
      Some (if forallb convertible args
            then Ret (if decide (enc = []) then [] else digest (h ++ concat enc))
            else Err "Couldn't convert to BinaryMarshaler").
Proof.
  split.
  - unfold HashStreamChunk. destruct (Z.ltb_spec size 1); [done|].
    rewrite hashStream_bytes by lia. done.
  - intros args enc Henc. unfold HashArgs. rewrite Convert_leaves. cbn [convertible].
    destruct (forallb convertible args); [|done]. rewrite Henc. apply hash_each_spec.
Qed.

(** A reader that returns a short piece before the end of the stream is
    hashed only up to that piece. *)
Theorem hash_stream_short_read digest h p ps :
  p ≠ [] → length p < DefaultChunkSize →
  HashStream digest 1 h (NewPieces (p :: ps)) = Some (h ++ p, digest (h ++ p)).
Proof.
  intros Hp Hl. unfold HashStream, hashStream. cbn [Read piece_reader pieces].
  rewrite take_ge by lia. rewrite decide_True by auto. done.
Qed.

(** ** Witnesses *)

Module SchnorrExample.
Import ZSuite.

Definition msg : bytes := String.list_byte_of_string "one-time secret".

Lemma schnorr_complete_witness :
  ∃ sig st, SignSchnorr (S := Zsuite) 42%Z msg 7%Z = Ret (sig, st) ∧
            VerifySchnorr (S := Zsuite) 42%Z msg sig = Ret tt.
Proof.
  eexists _, _. split; [reflexivity|].
  eapply (proj1 (schnorr_complete (S := Zsuite) 42%Z 42%Z msg 7%Z _ _ eq_refl)).
  reflexivity.
Defined.

(** The signature of a message with key 42 and a fixed random stream. *)
Definition sign (m : bytes) : SchnorrSig (S := Zsuite) :=
  match SignSchnorr (S := Zsuite) 42%Z m 7%Z with
  | Ret (sig, _) => sig
  | _ => {| Challenge := 0%Z; Response := 0%Z |}
  end.

(** Two messages signed with the same randomness reveal the key. *)
Lemma schnorr_special_soundness_witness :
  (Challenge (sign msg) =? Challenge (sign [x01]))%Z = false ∧
  (Response (sign msg) - Response (sign [x01])
   = 42 * (Challenge (sign [x01]) - Challenge (sign msg)))%Z.
Proof.
  split; [vm_compute; reflexivity|].
  destruct (schnorr_special_soundness (S := Zsuite) 42%Z msg [x01] (sign msg) (sign [x01])
              (point_mul (Suite := Zsuite) None 8%Z)) as (_ & _ & H).
  - vm_compute. reflexivity.
  - vm_compute. reflexivity.
  - vm_compute. reflexivity.
  - vm_compute. reflexivity.
  - exact (eq_trans (eq_sym (Z.mul_1_l _)) H).
Defined.

Lemma hash_stream_chunk_independent_witness :
  HashArgs Sum256 [] [ASlice [AMarshaler (Ret [x61])]; AMarshaler (Ret [x62; x63])]
  = Some (Ret (Sum256 [x61; x62; x63])).
Proof.
  apply (proj2 (hash_stream_chunk_independent Sum256 [] [] 1)
           [ASlice [AMarshaler (Ret [x61])]; AMarshaler (Ret [x62; x63])]
           [[x61]; [x62; x63]]). reflexivity.
Defined.

Lemma hash_stream_short_read_witness :
  HashStream Sum256 1 [] (NewPieces [[x61]; [x62; x63]]) = Some ([x61], Sum256 [x61]).
Proof.
  apply (hash_stream_short_read Sum256 [] [x61] [[x62; x63]]); [discriminate|].
  unfold DefaultChunkSize. cbn [length]. lia.
Defined.

End SchnorrExample.
