(* ===== verification/Tree.v ===== *)
(** * Rosters and trees ([imported/onet/tree.go], [imported/onet/network/struct.go])

    A [TreeNode] is a rose tree; the parent pointer of the source is the
    position in the tree, so operations that follow it take the enclosing tree.
    UUIDs drawn at random ([uuid.NewV4]) come from a counter-indexed supply. *)
From S2P Require Import Prelude Suite.
Local Open Scope Z_scope.

Abbreviation UUID := bytes.

(** [github.com/satori/go.uuid]. *)
Class UuidLib := {
  NewV4 : nat → UUID;
  NewV5 : UUID → bytes → UUID;
  NamespaceURL_uuid : UUID;
  uuid_string : UUID → bytes;
}.

Definition uuid_Nil : UUID := repeat x00 16.
Definition uuid_Equal (a b : UUID) : bool := bool_decide (a = b).
Definition uuid_IsNil (a : UUID) : bool := uuid_Equal a uuid_Nil.

Definition NamespaceURL : bytes :=
  String.list_byte_of_string "https://dedis.epfl.ch/".

Module Network.
Section network.
Context {S : Suite} {U : UuidLib}.

Record ServerIdentity := {
  Public : Point;
  ID : UUID;
  Address : bytes;
  Description : bytes;
}.

Definition NewServerIdentity (public : Point) (address : bytes) : ServerIdentity :=
  let url := NamespaceURL ++ String.list_byte_of_string "id/" ++ point_string public in
  {| Public := public; Address := address; Description := [];
     ID := NewV5 NamespaceURL_uuid url |}.

(** Tests on same public key. *)
Definition Equal (si e2 : ServerIdentity) : bool := point_equal (Public si) (Public e2).

End network.
Arguments ServerIdentity : clear implicits.
Arguments ServerIdentity {S}.
End Network.
Abbreviation ServerIdentity := Network.ServerIdentity.

Module Rosters.
Section roster.
Context {S : Suite} {U : UuidLib}.

Record Roster := {
  ID : UUID;
  List : list ServerIdentity;
  Aggregate : Point;
}.

(** [NewRoster]: draws the ID number [u] from the supply. *)
Definition NewRoster (ids : list ServerIdentity) (u : nat) : Roster :=
  let agg := foldl (λ agg e, point_add agg (Network.Public e)) point_null ids in
  {| List := ids; Aggregate := agg; ID := NewV4 u |}.

Fixpoint search_from (i : Z) (l : list ServerIdentity) (eID : UUID)
    : Z * option ServerIdentity :=
  match l with
  | [] => (-1, None)
  | e :: l => if uuid_Equal (Network.ID e) eID then (i, Some e)
              else search_from (i + 1) l eID
  end.

Definition Search (el : Roster) (eID : UUID) : Z * option ServerIdentity :=
  search_from 0 (List el) eID.

(** [Get]: the guard of the source lets [idx = len(el.List)] through. *)
Definition Get (el : Roster) (idx : Z) : outcome error (option ServerIdentity) :=
  if (idx <? 0) || (Z.of_nat (length (List el)) <? idx) then Ret None
  else let! e := index (List el) idx in Ret (Some e).

Definition Publics (el : Roster) : list Point := Network.Public <$> List el.

Lemma search_from_spec i l eID :
  match search_from i l eID with
  | (j, Some e) => i <= j ∧ l !! Z.to_nat (j - i) = Some e ∧ Network.ID e = eID
      ∧ ∀ k e', l !! k = Some e' → Z.of_nat k < j - i → Network.ID e' ≠ eID
  | (j, None) => j = -1 ∧ ∀ e, e ∈ l → Network.ID e ≠ eID
  end.
Proof.
  revert i; induction l as [|e l IH]; intros i; cbn; [set_solver|].
  unfold uuid_Equal. case_bool_decide as E.
  { rewrite Z.sub_diag. split; [lia|]. repeat split; [done..|]. lia. }
  specialize (IH (i + 1)). destruct (search_from (i + 1) l eID) as [j [e'|]].
  - destruct IH as (Hj & Hl & He & Hk). split; [lia|].
    replace (Z.to_nat (j - i)) with (Datatypes.S (Z.to_nat (j - (i + 1)))) by lia.
    split; [done|]. split; [done|]. intros [|k] e'' Hke Hk'; [naive_solver|].
    apply (Hk k); [done|lia].
  - destruct IH as [-> Hl]. set_solver.
Qed.

(** The identifiers of a roster are pairwise distinct. *)
Definition distinct (el : Roster) : Prop := NoDup (Network.ID <$> List el).

Lemma Search_lookup el i e :
  distinct el → List el !! i = Some e →
  Search el (Network.ID e) = (Z.of_nat i, Some e).
Proof.
  intros Hd Hi. unfold Search.
  pose proof (search_from_spec 0 (List el) (Network.ID e)) as H.
  destruct (search_from 0 (List el) (Network.ID e)) as [j [e'|]].
  - destruct H as (Hj & Hl & He & _). rewrite Z.sub_0_r in Hl.
    assert (Z.to_nat j = i) as <-.
    { apply (NoDup_lookup _ _ _ (Network.ID e) Hd); rewrite list_lookup_fmap.
      - rewrite Hl. cbn. by rewrite He.
      - by rewrite Hi. }
    rewrite Hl in Hi. injection Hi as ->. f_equal. lia.
  - exfalso. destruct H as [_ H]. apply (H e); [|done].
    apply list_elem_of_lookup. eauto.
Qed.
End roster.
Arguments Roster : clear implicits.
Arguments Roster {S}.
End Rosters.
Abbreviation Roster := Rosters.Roster.

Module Trees.
Import Network.
Section tree.
Context {S : Suite} {U : UuidLib}.

Unset Elimination Schemes.
Inductive TreeNode := MkTreeNode {
  tn_ID : UUID;
  tn_ServerIdentity : option ServerIdentity;
  tn_RosterIndex : Z;
  tn_Children : list TreeNode;
  tn_PublicAggregateSubTree : option Point;
}.
Set Elimination Schemes.

Lemma TreeNode_ind (P : TreeNode → Prop) :
  (∀ id si i cs agg, Forall P cs → P (MkTreeNode id si i cs agg)) → ∀ t, P t.
Proof.
  intros H. fix IH 1. intros [id si i cs agg]. apply H.
  induction cs as [|c cs IHcs]; constructor; [apply IH|apply IHcs].
Qed.

Record Tree := MkTree {
  t_ID : UUID;
  t_Roster : option Roster;
  t_Root : option TreeNode;
}.

Definition NewTreeNode (entityIdx : Z) (ni : ServerIdentity) (u : nat) : TreeNode :=
  {| tn_ID := NewV4 u; tn_ServerIdentity := Some ni; tn_RosterIndex := entityIdx;
     tn_Children := []; tn_PublicAggregateSubTree := None |}.

Definition set_children (t : TreeNode) (cs : list TreeNode) : TreeNode :=
  MkTreeNode (tn_ID t) (tn_ServerIdentity t) (tn_RosterIndex t) cs
             (tn_PublicAggregateSubTree t).

(** [AddChild]: appends to the children (and sets the parent of [c]). *)
Definition AddChild (t c : TreeNode) : TreeNode := set_children t (tn_Children t ++ [c]).

Definition IsLeaf (t : TreeNode) : bool := bool_decide (length (tn_Children t) = 0%nat).

(** [Visit]: depth-first, each node before its children.  The closure of the
    source updates captured variables, here the accumulator. *)
Fixpoint Visit {A} (firstDepth : Z) (fn : Z → TreeNode → A → A) (t : TreeNode) (a : A) : A :=
  match t with
  | MkTreeNode _ _ _ cs _ =>
      foldl (λ a c, Visit (firstDepth + 1) fn c a) (fn firstDepth t a) cs
  end.

Definition SubtreeCount (t : TreeNode) : Z := Visit 0 (λ _ _ ret, ret + 1) t (-1).

(** [AggregatePublic]: dereferences the identity of every node. *)
Definition AggregatePublic (t : TreeNode) : outcome error Point :=
  Visit 0 (λ _ tn agg, let! agg := agg in let! si := deref (tn_ServerIdentity tn) in
                       Ret (point_add agg (Public si))) t (Ret point_null).

(** [(t *TreeNode) IsConnectedTo]; [parent] is [t.Parent]. *)
Definition IsConnectedTo (parent : option TreeNode) (t : TreeNode) (si : ServerIdentity)
    : outcome error bool :=
  let same (n : TreeNode) := let! e := deref (tn_ServerIdentity n) in Ret (Equal e si) in
  let fix children cs :=
    match cs with
    | [] => Ret false
    | c :: cs => let! b := same c in if b : bool then Ret true else children cs
    end in
  match parent with
  | Some p => let! b := same p in if b : bool then Ret true else children (tn_Children t)
  | None => children (tn_Children t)
  end.

(** [(t *TreeNode) Equal]. *)
Fixpoint tn_Equal (t t2 : TreeNode) : outcome error bool :=
  match t with
  | MkTreeNode id si _ cs _ =>
      if negb (uuid_Equal id (tn_ID t2)) then Ret false else
      let! s1 := deref si in
      let! s2 := deref (tn_ServerIdentity t2) in
      if negb (uuid_Equal (ID s1) (ID s2)) then Ret false else
      if negb (bool_decide (length cs = length (tn_Children t2))) then Ret false else
      let fix go cs cs2 :=
        match cs, cs2 with
        | c :: cs, c2 :: cs2 =>
            let! b := tn_Equal c c2 in if b : bool then go cs cs2 else Ret false
        | _, _ => Ret true
        end in go cs (tn_Children t2)
  end.

(** The loop over the children: adds up what [f] returns. *)
Definition agg_children (f : TreeNode → outcome error (TreeNode * Point)) :=
  fix go (cs : list TreeNode) (agg : Point) : outcome error (list TreeNode * Point) :=
    match cs with
    | [] => Ret ([], agg)
    | c :: cs =>
        let! (c, a) := f c in
        let! (cs, agg) := go cs (point_add agg a) in
        Ret (c :: cs, agg)
    end.

(** [computeSubtreeAggregate]: sets the aggregate of every node of the subtree
    and returns the one of the root; a node without identity is a nil
    dereference. *)
Fixpoint computeSubtreeAggregate (root : TreeNode) : outcome error (TreeNode * Point) :=
  match root with
  | MkTreeNode id si i cs _ =>
      let! e := deref si in
      let! (cs, aggregate) :=
        agg_children computeSubtreeAggregate cs (point_add point_null (Public e)) in
      Ret (MkTreeNode id si i cs (Some aggregate), aggregate)
  end.

Definition NewTree (el : Roster) (r : option TreeNode) : outcome error Tree :=
  let! r := deref r in
  let url := NamespaceURL ++ String.list_byte_of_string "tree/"
             ++ uuid_string (Rosters.ID el) ++ uuid_string (tn_ID r) in
  let! (r, _) := computeSubtreeAggregate r in
  Ret {| t_Roster := Some el; t_Root := Some r; t_ID := NewV5 NamespaceURL_uuid url |}.

(** [(t *Tree) Search]: the closure overwrites [ret], so the last match of the
    traversal is returned. *)
Definition Search (t : Tree) (tn : UUID) : outcome error (option TreeNode) :=
  let! root := deref (t_Root t) in
  Ret (Visit 0 (λ _ tns ret, if uuid_Equal (tn_ID tns) tn then Some tns else ret) root None).

Definition List (t : Tree) : outcome error (list TreeNode) :=
  let! root := deref (t_Root t) in
  Ret (Visit 0 (λ _ tns ret, ret ++ [tns]) root []).

Definition Size (t : Tree) : outcome error Z :=
  let! root := deref (t_Root t) in Ret (Visit 0 (λ _ _ size, size + 1) root 0).

Fixpoint IsNary (root : TreeNode) (N : Z) : bool :=
  match root with
  | MkTreeNode _ _ _ cs _ =>
      let nChild := Z.of_nat (length cs) in
      if negb (nChild =? N) && negb (nChild =? 0) then false
      else forallb (λ c, IsNary c N) cs
  end.

Definition IsBinary (root : TreeNode) : bool := IsNary root 2.

(** [UsesList]: every server of the roster occurs in the tree. *)
Definition UsesList (t : Tree) : outcome error bool :=
  let! nodes := List t in
  let! el := deref (t_Roster t) in
  let fix found (p : ServerIdentity) nodes :=
    match nodes with
    | [] => Ret false
    | n :: nodes =>
        let! si := deref (tn_ServerIdentity n) in
        if uuid_Equal (ID si) (ID p) then Ret true else found p nodes
    end in
  let fix all ps :=
    match ps with
    | [] => Ret true
    | p :: ps => let! b := found p nodes in if b : bool then all ps else Ret false
    end in
  all (Rosters.List el).

Definition Tree_Equal (t t2 : Tree) : outcome error bool :=
  if negb (uuid_Equal (t_ID t) (t_ID t2)) then Ret false else
  let! r1 := deref (t_Roster t) in
  let! r2 := deref (t_Roster t2) in
  if negb (uuid_Equal (Rosters.ID r1) (Rosters.ID r2)) then Ret false else
  let! n1 := deref (t_Root t) in
  let! n2 := deref (t_Root t2) in
  tn_Equal n1 n2.

(** ** Marshalled trees *)

Inductive TreeMarshal := MkTreeMarshal {
  tm_TreeNodeID : UUID;
  tm_TreeID : UUID;
  tm_ServerIdentityID : UUID;
  tm_RosterID : UUID;
  tm_Children : list TreeMarshal;
}.

Fixpoint TreeMarshalCopyTree (tr : TreeNode) : outcome error TreeMarshal :=
  match tr with
  | MkTreeNode id si _ cs _ =>
      let! e := deref si in
      let! ms := omapM TreeMarshalCopyTree cs in
      Ret (MkTreeMarshal id uuid_Nil (ID e) uuid_Nil ms)
  end.

Definition MakeTreeMarshal (t : Tree) : outcome error TreeMarshal :=
  match t_Roster t with
  | None => Ret (MkTreeMarshal uuid_Nil uuid_Nil uuid_Nil uuid_Nil [])
  | Some el =>
      let! root := deref (t_Root t) in
      let! m := TreeMarshalCopyTree root in
      Ret (MkTreeMarshal uuid_Nil (t_ID t) uuid_Nil (Rosters.ID el) [m])
  end.

Fixpoint MakeTreeFromList (tm : TreeMarshal) (el : Roster) : TreeNode :=
  match tm with
  | MkTreeMarshal nid _ sid _ cs =>
      let '(idx, ent) := Rosters.Search el sid in
      MkTreeNode nid ent idx ((λ c, MakeTreeFromList c el) <$> cs) None
  end.

(** [(tm TreeMarshal) MakeTree]. *)
Definition MakeTree (tm : TreeMarshal) (el : Roster) : outcome error Tree :=
  if negb (uuid_Equal (Rosters.ID el) (tm_RosterID tm)) then Err "Not correct Roster-Id"
  else
    let! c := index (tm_Children tm) 0 in
    let root := MakeTreeFromList c el in
    let! (root, _) := computeSubtreeAggregate root in
    Ret {| t_ID := tm_TreeID tm; t_Roster := Some el; t_Root := Some root |}.

(** ** Generating trees *)

(** [addNary]: the node for [el.List[start]] with the subtrees of [N] slices of
    [start+1..end].  The parent of the source appends the returned node to its
    children; nil results are not appended.  [fuel] bounds the depth, [u] is the
    next random ID. *)
Fixpoint addNary (fuel : nat) (el : list ServerIdentity) (N start end_ : Z) (u : nat)
    : outcome error (option TreeNode * nat) :=
  match fuel with
  | O => OutOfFuel
  | Datatypes.S fuel =>
      if negb ((start <=? end_) && (end_ <? Z.of_nat (length el))) then Ret (None, u)
      else
        let! si := index el start in
        let node := NewTreeNode start si u in
        let diff := end_ - start in
        let! (cs, u) :=
          ofoldM (λ '(cs, u) n,
            let s := diff * Z.of_nat n / N in
            let e := diff * (Z.of_nat n + 1) / N in
            let! (c, u) := addNary fuel el N (start + s + 1) (start + e) u in
            Ret (match c with Some c => cs ++ [c] | None => cs end, u))
          ([], Datatypes.S u) (seq 0 (Z.to_nat N)) in
        Ret (Some (set_children node cs), u)
  end.

(** Fuel enough for every recursion of [addNary]: see [addNary_spec]. *)
Definition GenerateNaryTree (el : Roster) (N : Z) (u : nat) : outcome error (Tree * nat) :=
  let len := length (Rosters.List el) in
  let! (root, u) := addNary (Datatypes.S len) (Rosters.List el) N 0 (Z.of_nat len - 1) u in
  let! t := NewTree el root in Ret (t, u).

Definition GenerateBinaryTree (el : Roster) (u : nat) : outcome error (Tree * nat) :=
  GenerateNaryTree el 2 u.

(** [GenerateNaryTreeWithRoot]: [None] stands for the nil tree. *)
Definition GenerateNaryTreeWithRoot (el : Roster) (N : Z) (root : ServerIdentity) (u : nat)
    : outcome error (option Tree * nat) :=
  let '(rootIndex, _) := Rosters.Search el (ID root) in
  if rootIndex <? 0 then Ret (None, u)
  else
    let! r := index (Rosters.List el) rootIndex in
    let list := [r] ++ take (Z.to_nat rootIndex) (Rosters.List el)
                ++ drop (Z.to_nat rootIndex + 1) (Rosters.List el) in
    let! (t, u) := GenerateNaryTree (Rosters.NewRoster list u) N (Datatypes.S u) in
    Ret (Some t, u).

(** ** Traversal *)

Fixpoint preorder (t : TreeNode) : list TreeNode :=
  match t with MkTreeNode _ _ _ cs _ => t :: concat (preorder <$> cs) end.

Lemma Visit_preorder {A} (f : TreeNode → A → A) d t a :
  Visit d (λ _ n a, f n a) t a = foldl (λ a n, f n a) a (preorder t).
Proof.
  revert d a. induction t as [id si i cs agg IH] using TreeNode_ind; intros d a. cbn.
  generalize (f (MkTreeNode id si i cs agg) a) as b. clear a.
  induction IH as [|c cs Hc _ IHcs]; intros b; cbn; [done|].
  rewrite Hc, IHcs, foldl_app. done.
Qed.

Lemma preorder_unfold t : preorder t = t :: (tn_Children t ≫= preorder).
Proof.
  destruct t as [id si i cs agg]. cbn. f_equal.
  induction cs as [|c cs IH]; cbn; [done|]. by rewrite IH.
Qed.

Lemma foldl_snoc {A} (l k : list A) : foldl (λ r x, r ++ [x]) k l = k ++ l.
Proof.
  revert k; induction l as [|x l IH]; intros k; cbn; [by rewrite app_nil_r|].
  rewrite IH, <-app_assoc. done.
Qed.

Lemma List_preorder t root : t_Root t = Some root → List t = Ret (preorder root).
Proof.
  intros E. unfold List. rewrite E. cbn.
  rewrite (Visit_preorder (λ n r, r ++ [n])), foldl_snoc. done.
Qed.

Lemma Size_preorder t root :
  t_Root t = Some root → Size t = Ret (Z.of_nat (length (preorder root))).
Proof.
  intros E. unfold Size. rewrite E. cbn. f_equal.
  rewrite (Visit_preorder (λ _ r, r + 1)).
  assert (∀ (l : list TreeNode) z, foldl (λ r _, r + 1) z l = z + Z.of_nat (length l)) as ->;
    [|lia].
  induction l as [|x l IH]; intros z; cbn -[Z.of_nat]; [lia|]. rewrite IH. lia.
Qed.

(** With unique node IDs the search finds the node. *)
Lemma Search_preorder t root n :
  t_Root t = Some root → NoDup (tn_ID <$> preorder root) → n ∈ preorder root →
  Search t (tn_ID n) = Ret (Some n).
Proof.
  intros E Hd Hn. unfold Search. rewrite E. cbn. f_equal.
  rewrite (Visit_preorder (λ m r, if uuid_Equal (tn_ID m) (tn_ID n) then Some m else r)).
  apply list_elem_of_split in Hn as (l & k & Hlk). rewrite Hlk in *.
  rewrite fmap_app, fmap_cons in Hd. apply NoDup_app in Hd as (_ & _ & Hd).
  apply NoDup_cons in Hd as [Hd _].
  rewrite foldl_app. cbn. unfold uuid_Equal at 2. rewrite bool_decide_true by done.
  clear Hlk. induction k as [|m k IH]; cbn; [done|].
  unfold uuid_Equal at 2. rewrite bool_decide_false by set_solver.
  apply IH. set_solver.
Qed.

(** ** The N-ary tree *)

Definition node_data (n : TreeNode) : UUID * option ServerIdentity * Z :=
  (tn_ID n, tn_ServerIdentity n, tn_RosterIndex n).

(** The data of the nodes of a subtree over [n] servers from position [s]. *)
Definition slice_data (el : list ServerIdentity) (s u n : nat)
    : list (UUID * option ServerIdentity * Z) :=
  (λ k, (NewV4 (u + k), el !! (s + k)%nat, Z.of_nat (s + k))) <$> seq 0 n.

Lemma slice_data_app el s u n m :
  slice_data el s u (n + m) = slice_data el s u n ++ slice_data el (s + n) (u + n) m.
Proof.
  unfold slice_data. rewrite seq_app, fmap_app. f_equal. cbn.
  rewrite <-(Nat.add_0_r n) at 1. rewrite <-fmap_add_seq, <-list_fmap_compose.
  apply list_fmap_ext. intros i k _. cbn.
  replace (u + (n + k))%nat with (u + n + k)%nat by lia.
  replace (s + (n + k))%nat with (s + n + k)%nat by lia. done.
Qed.

Lemma slice_bounds diff N n :
  0 <= diff → 0 <= n < N →
  0 <= diff * n / N ∧ diff * n / N <= diff * (n + 1) / N ∧ diff * (n + 1) / N <= diff.
Proof.
  intros Hd Hn. split; [|split].
  - apply Z.div_pos; nia.
  - apply Z.div_le_mono; nia.
  - apply Z.div_le_upper_bound; nia.
Qed.

Lemma preorder_set_children t cs :
  preorder (set_children t cs) = set_children t cs :: (cs ≫= preorder).
Proof. rewrite preorder_unfold. done. Qed.

(** What [addNary] returns on a slice of the roster: the nodes of the slice in
    preorder, at most [N] children at the root, one ID per node. *)
Definition covers (el : list ServerIdentity) (N : Z) (s u n : nat) (t : TreeNode) : Prop :=
  node_data <$> preorder t = slice_data el s u n ∧
  Forall (λ n, Z.of_nat (length (tn_Children n)) <= N) (preorder t).

(** The loop of [addNary] after [i] children over a slice of [diff] servers. *)
Definition loop_inv (el : list ServerIdentity) (N diff : Z) (s u i : nat)
    (st : list TreeNode * nat) : Prop :=
  let k := Z.to_nat (diff * Z.of_nat i / N) in
  st.2 = (u + 1 + k)%nat ∧ (length st.1 <= i)%nat ∧
  node_data <$> (st.1 ≫= preorder) = slice_data el (s + 1) (u + 1) k ∧
  Forall (λ n, Z.of_nat (length (tn_Children n)) <= N) (st.1 ≫= preorder).

Lemma loop_inv_skip el N diff s u i st :
  diff * Z.of_nat i / N = diff * (Z.of_nat i + 1) / N →
  loop_inv el N diff s u i st → loop_inv el N diff s u (Datatypes.S i) st.
Proof.
  unfold loop_inv. rewrite Nat2Z.inj_succ, <-Z.add_1_r. intros <-. intuition lia.
Qed.

Lemma loop_inv_child el N diff s u i cs u' t :
  0 <= diff → Z.of_nat i < N →
  let a := Z.to_nat (diff * Z.of_nat i / N) in
  let b := Z.to_nat (diff * (Z.of_nat i + 1) / N) in
  loop_inv el N diff s u i (cs, u') →
  covers el N (s + 1 + a) u' (b - a) t →
  loop_inv el N diff s u (Datatypes.S i) (cs ++ [t], (u' + (b - a))%nat).
Proof.
  intros Hd Hi a b (Hu & Hlen & Hcs & Hw) [Hc Hwt]. unfold loop_inv. cbn [fst snd] in *.
  rewrite Nat2Z.inj_succ, <-Z.add_1_r. fold a b in Hu, Hcs |- *.
  destruct (slice_bounds diff N (Z.of_nat i)) as (B1 & B2 & B3); [lia..|].
  assert (a <= b)%nat as Hab by (unfold a, b; lia). clearbody a b.
  rewrite !bind_app, !fmap_app, Hcs, length_app. cbn. rewrite app_nil_r, Hc.
  split; [lia|]. split; [lia|]. split; [|by apply Forall_app].
  replace b with (a + (b - a))%nat at 2 by lia.
  rewrite slice_data_app, Hu. done.
Qed.

Lemma addNary_empty fuel el N start end_ u :
  end_ < start → addNary (Datatypes.S fuel) el N start end_ u = Ret (None, u).
Proof. intros H. cbn [addNary]. rewrite (proj2 (Z.leb_gt _ _)) by lia. done. Qed.

Lemma addNary_spec el N : 1 <= N → ∀ fuel s n u,
  (0 < n)%nat → (s + n <= length el)%nat → (n < fuel)%nat →
  ∃ t, addNary fuel el N (Z.of_nat s) (Z.of_nat s + Z.of_nat n - 1) u
       = Ret (Some t, (u + n)%nat) ∧ covers el N s u n t.
Proof.
  intros HN. induction fuel as [|fuel IH]; intros s n u Hn Hl Hf; [lia|].
  cbn [addNary].
  destruct (lookup_in_range el s) as [si Hsi]; [lia|].
  rewrite (proj2 (Z.leb_le _ _)), (proj2 (Z.ltb_lt _ _)) by lia. cbn.
  rewrite (index_Ret _ _ _ Hsi). cbn.
  replace (Z.of_nat s + Z.of_nat n - 1 - Z.of_nat s) with (Z.of_nat n - 1) by lia.
  set (diff := Z.of_nat n - 1).
  match goal with |- context [ofoldM ?f ?b _] =>
    destruct (ofoldM_seq_inv f (loop_inv el N diff s u) (Z.to_nat N) b)
      as ([cs u'] & -> & Hu' & Hlen & Hcs & Hw) end.
  - unfold loop_inv. cbn. rewrite Z.mul_0_r, Z.div_0_l by lia.
    cbn. repeat split; [lia|lia|constructor].
  - intros i [cs u'] Hi Hinv.
    destruct (slice_bounds diff N (Z.of_nat i)) as (B1 & B2 & B3); [lia..|].
    destruct (Z.eq_dec (diff * Z.of_nat i / N) (diff * (Z.of_nat i + 1) / N)) as [E|NE].
    + destruct fuel as [|fuel']; [lia|]. rewrite addNary_empty by lia.
      eauto using loop_inv_skip.
    + set (a := Z.to_nat (diff * Z.of_nat i / N)).
      set (b := Z.to_nat (diff * (Z.of_nat i + 1) / N)).
      assert ((a < b)%nat ∧ Z.of_nat b <= diff) as [Hab Hb] by (unfold a, b; lia).
      destruct (IH (s + 1 + a)%nat (b - a)%nat u') as (t & Ht & Hc); [lia..|].
      replace (Z.of_nat s + diff * Z.of_nat i / N + 1)
        with (Z.of_nat (s + 1 + a)) by (unfold a; lia).
      replace (Z.of_nat s + diff * (Z.of_nat i + 1) / N) with
        (Z.of_nat (s + 1 + a) + Z.of_nat (b - a) - 1) by (unfold b in *; lia).
      rewrite Ht. cbn. eexists. split; [done|].
      apply loop_inv_child; [lia..|done|done].
  - cbn [fst snd obind] in *.
    rewrite Z2Nat.id, Z.div_mul in * by lia.
    eexists. split; [do 2 f_equal; lia|]. split; rewrite preorder_set_children.
    + cbn [fmap list_fmap]. rewrite Hcs. replace n with (1 + Z.to_nat diff)%nat by lia.
      rewrite slice_data_app. unfold slice_data at 2. cbn.
      rewrite !Nat.add_0_r, Hsi. done.
    + constructor; [cbn; lia|done].
Qed.


(** ** Aggregate keys *)

(** The subtree without its aggregates. *)
Fixpoint strip (t : TreeNode) : TreeNode :=
  match t with MkTreeNode id si i cs _ => MkTreeNode id si i (strip <$> cs) None end.

Lemma compute_strip t : computeSubtreeAggregate (strip t) = computeSubtreeAggregate t.
Proof.
  induction t as [id si i cs agg IH] using TreeNode_ind. cbn. destruct si as [e|]; cbn; [|done].
  generalize (point_add point_null (Public e)) as a.
  cut (∀ a, agg_children computeSubtreeAggregate (strip <$> cs) a
            = agg_children computeSubtreeAggregate cs a); [intros E a; by rewrite E|].
  induction IH as [|c cs Hc _ IHcs]; intros a; cbn; [done|]. rewrite Hc.
  destruct (computeSubtreeAggregate c) as [[c' a']| | |]; cbn; [|done..].
  rewrite IHcs. done.
Qed.

(** Everything of a node but its aggregate. *)
Definition node_shape (n : TreeNode) := (node_data n, length (tn_Children n)).

Lemma strip_shape t : node_shape <$> preorder (strip t) = node_shape <$> preorder t.
Proof.
  induction t as [id si i cs agg IH] using TreeNode_ind. cbn. f_equal.
  - unfold node_shape. cbn. by rewrite length_fmap.
  - induction IH as [|c cs Hc _ IHcs]; cbn; [done|].
    rewrite !fmap_app, Hc, IHcs. done.
Qed.

Lemma agg_children_inv cs a cs' p :
  agg_children computeSubtreeAggregate cs a = Ret (cs', p) →
  ∃ ps, Forall2 (λ c '(c', q), computeSubtreeAggregate c = Ret (c', q)) cs (zip cs' ps) ∧
        length ps = length cs' ∧ p = foldl point_add a ps.
Proof.
  revert a cs'. induction cs as [|c cs IH]; intros a cs'; cbn.
  { intros [= <- <-]. exists []. split; [constructor|done]. }
  intros ([c' q] & Hc & ([cs1 p1] & Hgo & [= <- <-])%obind_ret_inv)%obind_ret_inv.
  apply IH in Hgo as (ps & Hps & Hl & ->).
  exists (q :: ps). cbn. split; [by constructor|]. split; [lia|done].
Qed.

Lemma compute_result_strip t t' p :
  computeSubtreeAggregate t = Ret (t', p) → strip t' = strip t.
Proof.
  revert t' p. induction t as [id si i cs agg IH] using TreeNode_ind; intros t' p H. cbn in H.
  apply obind_ret_inv in H as (e & _ & ([cs' q] & Hgo & [= <- <-])%obind_ret_inv).
  cbn. f_equal.
  apply agg_children_inv in Hgo as (ps & Hps & Hl & _). clear -IH Hps Hl.
  revert ps cs' Hps Hl. induction IH as [|c cs Hc _ IHcs]; intros ps cs' Hps Hl.
  - inversion Hps as [E|]; destruct cs', ps; naive_solver.
  - inversion Hps as [|? [c' q] ? l Hcc' Hrest E]; subst.
    destruct cs', ps; [done..|]. cbn in *. simplify_eq. f_equal; eauto.
Qed.

Lemma compute_shape t t' p :
  computeSubtreeAggregate t = Ret (t', p) →
  node_shape <$> preorder t' = node_shape <$> preorder t.
Proof.
  intros H%compute_result_strip. by rewrite <-strip_shape, H, strip_shape.
Qed.

(** Recomputing the aggregates changes nothing. *)
Lemma compute_idempotent t t' p :
  computeSubtreeAggregate t = Ret (t', p) → computeSubtreeAggregate t' = Ret (t', p).
Proof.
  intros H. rewrite <-compute_strip, (compute_result_strip _ _ _ H), compute_strip. done.
Qed.

Definition point_sum (l : list Point) : Point := foldr point_add point_null l.

Definition servers (t : TreeNode) : list (option ServerIdentity) :=
  tn_ServerIdentity <$> preorder t.

Section aggregate.
Context {SL : SuiteLaws S}.

Lemma foldl_point_sum l a : foldl point_add a l ≡ point_add a (point_sum l).
Proof.
  revert a; induction l as [|p l IH]; intros a; cbn.
  - symmetry. apply point_add_null_r.
  - rewrite IH. symmetry. apply point_add_assoc.
Qed.

Lemma point_sum_app l k : point_sum (l ++ k) ≡ point_add (point_sum l) (point_sum k).
Proof.
  induction l as [|p l IH]; cbn; [symmetry; apply point_add_null|].
  rewrite IH. apply point_add_assoc.
Qed.

(** On a tree all of whose nodes have an identity the computation succeeds and
    the root gets the sum of the public keys of the subtree. *)
Lemma compute_sum t sis :
  servers t = Some <$> sis →
  ∃ t' p, computeSubtreeAggregate t = Ret (t', p) ∧
    tn_PublicAggregateSubTree t' = Some p ∧ p ≡ point_sum (Public <$> sis).
Proof.
  revert sis. induction t as [id si i cs agg IH] using TreeNode_ind; intros sis Hs.
  unfold servers in Hs. cbn in Hs.
  destruct sis as [|e sis]; [done|]. cbn in Hs. injection Hs as -> Hs. cbn.
  assert (∀ a, ∃ cs' p, agg_children computeSubtreeAggregate cs a = Ret (cs', p) ∧
     p ≡ point_add a (point_sum (Public <$> sis))) as Hloop.
  { revert sis Hs. induction IH as [|c cs Hc _ IHcs]; intros sis Hs a; cbn in *.
    - destruct sis; [|done]. exists [], a. split; [done|]. symmetry.
      apply point_add_null_r.
    - rewrite fmap_app in Hs. symmetry in Hs.
      apply fmap_app_inv in Hs as (s1 & s2 & H1 & H2 & ->).
      destruct (Hc s1) as (c' & q & -> & _ & Hq); [done|]. cbn.
      destruct (IHcs s2 H2 (point_add a q)) as (cs' & p & -> & Hp). cbn.
      do 2 eexists. split; [done|].
      rewrite Hp, fmap_app, point_sum_app, Hq. symmetry. apply point_add_assoc. }
  destruct (Hloop (point_add point_null (Public e))) as (cs' & p & -> & Hp). cbn.
  do 2 eexists. do 2 (split; [done|]). rewrite Hp, point_add_null. done.
Qed.
End aggregate.

(** ** Marshalling *)

(** Every node refers to the roster entry its identity is found at. *)
Definition in_roster (el : Roster) (n : TreeNode) : Prop :=
  ∃ si, tn_ServerIdentity n = Some si ∧
        Rosters.Search el (ID si) = (tn_RosterIndex n, Some si).

Lemma copy_strip el t :
  Forall (in_roster el) (preorder t) →
  ∃ m, TreeMarshalCopyTree t = Ret m ∧ MakeTreeFromList m el = strip t.
Proof.
  induction t as [id si i cs agg IH] using TreeNode_ind.
  intros [(e & Hsi & Hs) Hcs]%Forall_cons. cbn in *. subst si. cbn.
  assert (∃ ms, omapM TreeMarshalCopyTree cs = Ret ms ∧
                (λ m, MakeTreeFromList m el) <$> ms = strip <$> cs) as (ms & -> & Hms).
  { clear Hs. induction IH as [|c cs Hc _ IHcs]; cbn in *; [by exists []|].
    apply Forall_app in Hcs as [H1 H2].
    destruct (Hc H1) as (m & -> & Hm), (IHcs H2) as (ms & -> & Hms). cbn.
    exists (m :: ms). cbn. rewrite Hm, Hms. done. }
  cbn. eexists. split; [done|]. cbn. rewrite Hs, Hms. done.
Qed.

Lemma slice_in_roster el u n node :
  Rosters.distinct el → (n <= length (Rosters.List el))%nat →
  node_data node ∈ slice_data (Rosters.List el) 0 u n → in_roster el node.
Proof.
  intros Hd Hn (k & Hk & Hin)%list_elem_of_fmap. unfold node_data in Hk.
  simplify_eq. apply elem_of_seq in Hin.
  destruct (lookup_in_range (Rosters.List el) k) as [si Hsi]; [lia|].
  exists si. cbn in *. split; [congruence|].
  rewrite (Rosters.Search_lookup _ k) by done. congruence.
Qed.

(** What is known of a generated tree. *)
Definition generated (el : Roster) (N : Z) (u : nat) (t : Tree) (root : TreeNode) : Prop :=
  t_Root t = Some root ∧ t_Roster t = Some el ∧
  node_data <$> preorder root = slice_data (Rosters.List el) 0 u (length (Rosters.List el)) ∧
  Forall (λ n, Z.of_nat (length (tn_Children n)) <= N) (preorder root) ∧
  ∃ p, computeSubtreeAggregate root = Ret (root, p) ∧
       tn_PublicAggregateSubTree root = Some p.

Lemma slice_servers el u :
  (λ d : UUID * option ServerIdentity * Z, d.1.2) <$> slice_data el 0 u (length el) = Some <$> el.
Proof.
  unfold slice_data. rewrite <-list_fmap_compose.
  apply list_eq. intros i. rewrite !list_lookup_fmap. unfold compose. cbn.
  destruct (decide (i < length el)%nat) as [Hi|Hi].
  - rewrite lookup_seq_lt by done. cbn.
    destruct (lookup_in_range el i Hi) as [e ->]. done.
  - rewrite lookup_ge_None_2 by (rewrite length_seq; lia).
    rewrite lookup_ge_None_2 by lia. done.
Qed.

Lemma shape_data (l k : list TreeNode) :
  node_shape <$> l = node_shape <$> k → node_data <$> l = node_data <$> k.
Proof.
  intros H. apply (f_equal (fmap fst)) in H. rewrite <-!list_fmap_compose in H. done.
Qed.

Lemma shape_width N (l k : list TreeNode) :
  node_shape <$> l = node_shape <$> k →
  Forall (λ n, Z.of_nat (length (tn_Children n)) <= N) k →
  Forall (λ n, Z.of_nat (length (tn_Children n)) <= N) l.
Proof.
  rewrite !Forall_lookup. intros H Hk i n Hi.
  apply (f_equal (λ m, m !! i)) in H. rewrite !list_lookup_fmap, Hi in H.
  destruct (k !! i) as [n'|] eqn:E; [|done]. specialize (Hk i n' E).
  cbn in H. unfold node_shape in H. simplify_eq. congruence.
Qed.

Lemma GenerateNaryTree_generated {SL : SuiteLaws S} el N u :
  1 <= N → Rosters.List el ≠ [] →
  ∃ t root, GenerateNaryTree el N u = Ret (t, (u + length (Rosters.List el))%nat) ∧
            generated el N u t root.
Proof.
  intros HN Hne. unfold GenerateNaryTree.
  set (len := length (Rosters.List el)).
  assert (0 < len)%nat as Hl by (unfold len; destruct (Rosters.List el); [done|cbn; lia]).
  destruct (addNary_spec (Rosters.List el) N HN (Datatypes.S len) 0 len u)
    as (root & Hr & Hc & Hw); [lia..|].
  change (Z.of_nat 0 + Z.of_nat len - 1) with (Z.of_nat len - 1) in Hr.
  change (Z.of_nat 0) with 0 in Hr. rewrite Hr. cbn.
  destruct (compute_sum root (Rosters.List el)) as (root' & p & Hcomp & Hp & _).
  { rewrite <-(slice_servers _ u). fold len. rewrite <-Hc, <-list_fmap_compose. done. }
  unfold NewTree. cbn. rewrite Hcomp. cbn. do 2 eexists. split; [done|].
  pose proof (compute_shape _ _ _ Hcomp) as Hshape.
  do 2 (split; [done|]). split; [by rewrite (shape_data _ _ Hshape)|].
  split; [by eapply shape_width|].
  exists p. split; [by eapply compute_idempotent|done].
Qed.

Lemma generated_in_roster el N u t root :
  Rosters.distinct el → generated el N u t root → Forall (in_roster el) (preorder root).
Proof.
  intros Hd (_ & _ & Hdata & _). apply Forall_forall. intros n Hn.
  eapply slice_in_roster; [done|reflexivity|].
  rewrite <-Hdata. by apply list_elem_of_fmap_2.
Qed.

(** With as many children as there are other servers, the tree is a star. *)
Lemma addNary_leaf fuel el N s u si :
  1 <= N → el !! s = Some si →
  addNary (Datatypes.S (Datatypes.S fuel)) el N (Z.of_nat s) (Z.of_nat s) u
  = Ret (Some (set_children (NewTreeNode (Z.of_nat s) si u) []), Datatypes.S u).
Proof.
  intros HN Hsi. pose proof (lookup_lt_Some _ _ _ Hsi) as Hl. remember (Datatypes.S fuel) as f.
  cbn [addNary]. rewrite (proj2 (Z.leb_le _ _)), (proj2 (Z.ltb_lt _ _)) by lia. cbn.
  rewrite (index_Ret _ _ _ Hsi), Z.sub_diag. cbn [obind].
  match goal with |- context [ofoldM ?f ?b _] =>
    destruct (ofoldM_seq_inv f (λ _ st, st = ([], Datatypes.S u)) (Z.to_nat N) b)
      as (st & -> & ->) end; [done| |done].
  intros i _ _ ->. rewrite !Z.mul_0_l, Z.div_0_l by lia. subst f. rewrite addNary_empty by lia.
  eexists. split; [done|done].
Qed.

Lemma addNary_star fuel el m u :
  (1 <= m)%nat → length el = Datatypes.S m →
  ∃ t u', addNary (Datatypes.S (Datatypes.S (Datatypes.S fuel))) el (Z.of_nat m) 0 (Z.of_nat m) u
          = Ret (Some t, u') ∧ Forall (λ c, tn_Children c = []) (tn_Children t).
Proof.
  intros Hm Hl. destruct (lookup_in_range el 0) as [si Hsi]; [lia|].
  remember (Datatypes.S (Datatypes.S fuel)) as f.
  cbn [addNary]. rewrite (proj2 (Z.leb_le _ _)), (proj2 (Z.ltb_lt _ _)) by lia. cbn [andb negb].
  pose proof (index_Ret (E := error) _ 0 _ Hsi) as Hi0. change (Z.of_nat 0) with 0 in Hi0.
  rewrite Hi0. cbn [obind]. rewrite Z.sub_0_r.
  match goal with |- context [ofoldM ?f ?b _] =>
    destruct (ofoldM_seq_inv f (λ _ st, Forall (λ c, tn_Children c = []) st.1)
                (Z.to_nat (Z.of_nat m)) b) as ([cs u'] & -> & Hcs) end.
  - by apply Forall_nil.
  - intros i [cs u'] Hi Hcs. cbn [fst] in Hcs.
    rewrite !(Z.mul_comm (Z.of_nat m)), !Z.div_mul by lia.
    destruct (lookup_in_range el (Datatypes.S i)) as [sj Hsj]; [lia|].
    replace (0 + Z.of_nat i + 1) with (Z.of_nat (Datatypes.S i)) by lia.
    replace (0 + (Z.of_nat i + 1)) with (Z.of_nat (Datatypes.S i)) by lia.
    subst f. rewrite (addNary_leaf fuel el (Z.of_nat m) (Datatypes.S i) u' sj ltac:(lia) Hsj). cbn [obind].
    eexists. split; [done|]. cbn [fst]. apply Forall_app. split; [done|]. by constructor.
  - cbn [obind]. eauto.
Qed.

Lemma preorder_leaves cs : Forall (λ c, tn_Children c = []) cs → concat (preorder <$> cs) = cs.
Proof. induction 1 as [|[id si i [|? ?] a] cs Hc _ IH]; cbn in *; [done|by rewrite IH|done]. Qed.

Lemma generated_star {SL : SuiteLaws S} el m u t root u' :
  (1 <= m)%nat → length (Rosters.List el) = Datatypes.S m →
  GenerateNaryTree el (Z.of_nat m) u = Ret (t, u') → t_Root t = Some root →
  tn_Children root = tail (preorder root) ∧
  Forall (λ c, tn_Children c = []) (tn_Children root).
Proof.
  intros Hm Hl Hg Hroot. unfold GenerateNaryTree in Hg. rewrite Hl in Hg.
  destruct m as [|m]; [lia|].
  destruct (addNary_star m (Rosters.List el) (Datatypes.S m) u) as (r & u1 & Hr & Hleaf); [lia..|].
  replace (Z.of_nat (Datatypes.S (Datatypes.S m)) - 1) with (Z.of_nat (Datatypes.S m)) in Hg by lia.
  rewrite Hr in Hg. cbn [obind] in Hg. unfold NewTree in Hg. cbn in Hg.
  destruct (computeSubtreeAggregate r) as [[r' p]| | |] eqn:Hc; [|done..]. cbn in Hg.
  injection Hg as <- <-. cbn in Hroot. injection Hroot as <-.
  pose proof (compute_shape _ _ _ Hc) as Hsh.
  assert (Forall (λ c, tn_Children c = []) (tail (preorder r'))) as Hall.
  { apply Forall_forall. intros c [j Hj]%list_elem_of_lookup.
    rewrite lookup_tail in Hj.
    apply (f_equal (λ l, l !! Datatypes.S j)) in Hsh. rewrite !list_lookup_fmap, Hj in Hsh.
    destruct (preorder r !! Datatypes.S j) as [c0|] eqn:Hc0; [|done]. cbn in Hsh.
    injection Hsh as _ _ _ Hlen. apply length_zero_iff_nil. rewrite Hlen.
    destruct r as [id si i cs a]. cbn in Hc0, Hleaf. rewrite preorder_leaves in Hc0 by done.
    rewrite Forall_lookup in Hleaf. by rewrite (Hleaf _ _ Hc0). }
  assert (Forall (λ c, tn_Children c = []) (tn_Children r')) as Hch.
  { rewrite Forall_forall in Hall. apply Forall_forall. intros c Hin. apply Hall.
    destruct r' as [id si i cs a]. cbn in Hin |- *.
    apply list_elem_of_In, in_concat. exists (preorder c). split.
    - apply list_elem_of_In. by apply list_elem_of_fmap_2.
    - destruct c. by left. }
  split; [|done]. destruct r' as [id si i cs a]. cbn in Hch |- *. by rewrite preorder_leaves.
Qed.

(** The tree with a chosen root. *)
Lemma GenerateNaryTreeWithRoot_servers {SL : SuiteLaws S} el N i e u :
  1 <= N → Rosters.distinct el → Rosters.List el !! i = Some e →
  ∃ t root nodes u', GenerateNaryTreeWithRoot el N e u = Ret (Some t, u') ∧
    t_Root t = Some root ∧ List t = Ret (root :: nodes) ∧
    Forall (λ n, Z.of_nat (length (tn_Children n)) <= N) (root :: nodes) ∧
    tn_ServerIdentity <$> root :: nodes
    = Some <$> e :: take i (Rosters.List el) ++ drop (i + 1) (Rosters.List el).
Proof.
  intros HN Hd Hi. unfold GenerateNaryTreeWithRoot.
  rewrite (Rosters.Search_lookup _ _ _ Hd Hi).
  rewrite (proj2 (Z.ltb_ge _ _)) by lia. rewrite (index_Ret _ _ _ Hi). cbn [obind].
  rewrite Nat2Z.id.
  set (l := [e] ++ take i (Rosters.List el) ++ drop (i + 1) (Rosters.List el)).
  destruct (GenerateNaryTree_generated (Rosters.NewRoster l u) N (Datatypes.S u) HN)
    as (t & root & Ht & Hroot & _ & Hdata & Hw & _); [done|].
  rewrite Ht. cbn [obind]. exists t, root, (tail (preorder root)). eexists. split; [done|].
  split; [done|].
  assert (preorder root = root :: tail (preorder root)) as Hp by (by destruct root).
  rewrite (List_preorder t root Hroot). rewrite <-Hp. split; [done|]. split; [done|].
  change (Rosters.List (Rosters.NewRoster l u)) with l in Hdata.
  apply (f_equal (fmap (λ d : UUID * option ServerIdentity * Z, d.1.2))) in Hdata.
  rewrite slice_servers, <-list_fmap_compose in Hdata. exact Hdata.
Qed.

(** The star with a chosen root: the children are the other servers, with
    their position in the list of the tree as index. *)
Lemma star_with_root {SL : SuiteLaws S} el i e m u :
  (1 <= m)%nat → length (Rosters.List el) = Datatypes.S m →
  Rosters.distinct el → Rosters.List el !! i = Some e →
  ∃ t root u', GenerateNaryTreeWithRoot el (Z.of_nat m) e u = Ret (Some t, u') ∧
    t_Root t = Some root ∧ IsLeaf root = false ∧ tn_ServerIdentity root = Some e ∧
    Forall (λ c, IsLeaf c = true) (tn_Children root) ∧
    (λ c, (tn_ServerIdentity c, tn_RosterIndex c)) <$> tn_Children root
    = imap (λ k si, (Some si, Z.of_nat (Datatypes.S k)))
        (take i (Rosters.List el) ++ drop (i + 1) (Rosters.List el)).
Proof.
  intros Hm Hlen Hd Hi. unfold GenerateNaryTreeWithRoot.
  rewrite (Rosters.Search_lookup _ _ _ Hd Hi).
  rewrite (proj2 (Z.ltb_ge _ _)) by lia. rewrite (index_Ret _ _ _ Hi). cbn [obind].
  rewrite Nat2Z.id.
  set (rest := take i (Rosters.List el) ++ drop (i + 1) (Rosters.List el)).
  assert (length rest = m) as Hrest.
  { unfold rest. pose proof (lookup_lt_Some _ _ _ Hi). rewrite length_app, length_take, length_drop. lia. }
  destruct (GenerateNaryTree_generated (Rosters.NewRoster ([e] ++ rest) u) (Z.of_nat m)
    (Datatypes.S u)) as (t & root & Ht & Hroot & _ & Hdata & _); [lia|done|].
  destruct (λ H, generated_star (Rosters.NewRoster ([e] ++ rest) u) m _ t root _ Hm H Ht Hroot)
    as [Hch Hleaf]; [cbn; by rewrite Hrest|].
  rewrite Ht. cbn [obind]. exists t, root. eexists. split; [done|]. split; [done|].
  change (Rosters.List (Rosters.NewRoster ([e] ++ rest) u)) with (e :: rest) in Hdata.
  unfold slice_data in Hdata. cbn [length] in Hdata. rewrite Hrest in Hdata.
  destruct root as [id si ix cs a]. cbn [tn_Children] in *. cbn in Hch.
  assert (preorder (MkTreeNode id si ix cs a) = MkTreeNode id si ix cs a :: cs) as Hpre.
  { cbn. f_equal. by symmetry. }
  rewrite Hpre in Hdata. cbn in Hdata. injection Hdata as _ Hsi _ Hdata.
  split.
  { unfold IsLeaf. cbn. apply bool_decide_eq_false. intros E.
    apply (f_equal length) in Hdata. rewrite !length_fmap, length_seq, E in Hdata. lia. }
  split; [done|]. split.
  { eapply Forall_impl; [exact Hleaf|]. intros c Hc. unfold IsLeaf. rewrite Hc. done. }
  cbn [tn_Children]. apply list_eq. intros k.
  rewrite list_lookup_fmap, list_lookup_imap.
  apply (f_equal (λ l, l !! k)) in Hdata. rewrite !list_lookup_fmap in Hdata.
  destruct (decide (k < m)%nat) as [Hk|Hk].
  - rewrite lookup_seq_lt in Hdata by done. cbn in Hdata.
    destruct (lookup_in_range rest k) as [sk Hsk]; [lia|]. rewrite Hsk.
    destruct (cs !! k) as [c|]; [|done]. cbn. injection Hdata as _ Hs Hx.
    assert (tn_ServerIdentity c = Some sk) as -> by exact (eq_trans Hs Hsk). by rewrite Hx.
  - rewrite (lookup_ge_None_2 (seq 1 m)) in Hdata by (rewrite length_seq; lia).
    rewrite (lookup_ge_None_2 rest) by lia. destruct (cs !! k); done.
Qed.

(** [Roster.Get] returns nil outside the roster and the server inside it,
    except that the index one past the end passes the guard and panics. *)
Theorem roster_get_correct (el : Roster) idx :
  Rosters.Get el idx =
    if decide (idx = Z.of_nat (length (Rosters.List el))) then Panic "index out of range"
    else Ret (if idx <? 0 then None else Rosters.List el !! Z.to_nat idx).
Proof.
  unfold Rosters.Get, index.
  destruct (Z.ltb_spec idx 0), (Z.ltb_spec (Z.of_nat (length (Rosters.List el))) idx);
    cbn [orb]; case_decide; try lia; try done.
  - rewrite lookup_ge_None_2 by lia. done.
  - rewrite lookup_ge_None_2 by lia. done.
  - destruct (lookup_in_range (Rosters.List el) (Z.to_nat idx)) as [e ->]; [lia|]. done.
Qed.

(** C33: [GenerateNaryTree] terminates on every non-empty roster and every
    branching factor of at least one and returns a tree whose depth-first
    traversal visits the servers in roster order, each exactly once and with
    its roster index, no node with more than [N] children; the aggregate key of
    the root is the aggregate key of the roster. *)
Theorem generate_nary_tree_correct {SL : SuiteLaws S} el N u :
  1 <= N → Rosters.List el ≠ [] →
  ∃ t root p, GenerateNaryTree el N u = Ret (t, (u + length (Rosters.List el))%nat) ∧
    t_Root t = Some root ∧
    List t = Ret (preorder root) ∧
    tn_ServerIdentity <$> preorder root = Some <$> Rosters.List el ∧
    tn_RosterIndex <$> preorder root = Z.of_nat <$> seq 0 (length (Rosters.List el)) ∧
    Forall (λ n, Z.of_nat (length (tn_Children n)) <= N) (preorder root) ∧
    tn_PublicAggregateSubTree root = Some p ∧
    p ≡ point_sum (Rosters.Publics el).
Proof.
  intros HN Hne.
  destruct (GenerateNaryTree_generated el N u HN Hne)
    as (t & root & Ht & Hroot & _ & Hd & Hw & p & Hc & Hp).
  assert (servers root = Some <$> Rosters.List el) as Hs.
  { rewrite <-(slice_servers _ u), <-Hd, <-list_fmap_compose. done. }
  destruct (compute_sum _ _ Hs) as (root' & q & Hc' & _ & Hq).
  rewrite Hc in Hc'. injection Hc' as _ <-.
  exists t, root, p. split; [done|]. split; [done|]. split; [by apply List_preorder|].
  split; [done|]. split; [|done].
  apply (f_equal (fmap snd)) in Hd. unfold slice_data in Hd.
  rewrite <-!list_fmap_compose in Hd. exact Hd.
Qed.

(** [GenerateNaryTreeWithRoot] gives a tree rooted at the requested server
    that visits all other servers in roster order, with the given width, when
    the server is in the roster; the nil tree when it is not. *)
Theorem generate_with_root_correct {SL : SuiteLaws S} el N e u :
  1 <= N → Rosters.distinct el →
  match Rosters.Search el (Network.ID e) with
  | (i, Some e') =>
      ∃ t nodes u', GenerateNaryTreeWithRoot el N e u = Ret (Some t, u') ∧
        List t = Ret nodes ∧
        Forall (λ n, Z.of_nat (length (tn_Children n)) <= N) nodes ∧
        tn_ServerIdentity <$> nodes
        = Some <$> e' :: take (Z.to_nat i) (Rosters.List el)
                      ++ drop (Z.to_nat i + 1) (Rosters.List el)
  | (_, None) => GenerateNaryTreeWithRoot el N e u = Ret (None, u)
  end.
Proof.
  intros HN Hd. destruct (Rosters.Search el (Network.ID e)) as [i [e'|]] eqn:Es.
  - unfold Rosters.Search in Es.
    pose proof (Rosters.search_from_spec 0 (Rosters.List el) (Network.ID e)) as H.
    rewrite Es in H. destruct H as (Hi0 & Hi & He & _). rewrite Z.sub_0_r in Hi.
    destruct (GenerateNaryTreeWithRoot_servers el N (Z.to_nat i) e' u HN Hd Hi)
      as (t & root & nodes & u' & Ht & _ & Hl & Hw & Hs).
    exists t, (root :: nodes), u'. split; [|done]. rewrite <-Ht.
    unfold GenerateNaryTreeWithRoot. by rewrite He.
  - unfold GenerateNaryTreeWithRoot. rewrite Es. unfold Rosters.Search in Es.
    pose proof (Rosters.search_from_spec 0 (Rosters.List el) (Network.ID e)) as H.
    rewrite Es in H. destruct H as [-> _]. done.
Qed.

(** A tree whose aggregates are computed and whose nodes refer to their roster,
    marshalled and made again from the same roster. *)
Lemma marshal_same el t root p :
  t_Root t = Some root → t_Roster t = Some el → Forall (in_roster el) (preorder root) →
  computeSubtreeAggregate root = Ret (root, p) →
  ∃ m, MakeTreeMarshal t = Ret m ∧ MakeTree m el = Ret t ∧ tm_RosterID m = Rosters.ID el.
Proof.
  intros Hroot Hel Hin Hc. destruct (copy_strip el root Hin) as (m & Hm & Hstrip). eexists.
  unfold MakeTreeMarshal. rewrite Hel, Hroot. cbn. rewrite Hm. cbn.
  split; [done|]. split; [|done]. unfold MakeTree, uuid_Equal. cbn [tm_Children tm_RosterID tm_TreeID].
  rewrite !index_0, bool_decide_true by done. cbn. rewrite Hstrip, compute_strip, Hc. cbn.
  destruct t; cbn in *; congruence.
Qed.

Lemma marshal_make {SL : SuiteLaws S} el N u :
  1 <= N → Rosters.List el ≠ [] → Rosters.distinct el →
  ∃ t m u', GenerateNaryTree el N u = Ret (t, u') ∧
    MakeTreeMarshal t = Ret m ∧ MakeTree m el = Ret t ∧ tm_RosterID m = Rosters.ID el.
Proof.
  intros HN Hne Hd.
  destruct (GenerateNaryTree_generated el N u HN Hne) as (t & root & Ht & Hg).
  pose proof (generated_in_roster _ _ _ _ _ Hd Hg) as Hin.
  destruct Hg as (Hroot & Hel & _ & _ & p & Hc & _).
  destruct (marshal_same el t root p Hroot Hel Hin Hc) as (m & Hm). exists t, m. eexists. split; [exact Ht|done].
Qed.

Lemma MakeTree_other m el : Rosters.ID el ≠ tm_RosterID m → MakeTree m el = Err "Not correct Roster-Id".
Proof. intros H. unfold MakeTree, uuid_Equal. by rewrite bool_decide_false. Qed.

Lemma MakeTree_ID m el t : MakeTree m el = Ret t → t_ID t = tm_TreeID m.
Proof.
  unfold MakeTree. destruct (negb _); [done|]. intros (c & _ & H)%obind_ret_inv.
  apply obind_ret_inv in H as ([r q] & _ & [= <-]). done.
Qed.

(** A tree sent as a [TreeMarshal] and rebuilt by [MakeTree] from the same
    roster is the tree that was sent, identities, roster indices, shape and
    aggregate keys included; rebuilding from another roster is refused. *)
Theorem tree_marshal_roundtrip {SL : SuiteLaws S} el el2 N u :
  1 <= N → Rosters.List el ≠ [] → Rosters.distinct el →
  ∃ t m u', GenerateNaryTree el N u = Ret (t, u') ∧
    MakeTreeMarshal t = Ret m ∧ MakeTree m el = Ret t ∧
    (Rosters.ID el2 ≠ Rosters.ID el → MakeTree m el2 = Err "Not correct Roster-Id").
Proof.
  intros HN Hne Hd. destruct (marshal_make el N u HN Hne Hd) as (t & m & u' & Ht & Hm & Hmk & Hr).
  exists t, m, u'. repeat (split; [done|]). intros Hne2. apply MakeTree_other. by rewrite Hr.
Qed.
End tree.
Arguments TreeNode : clear implicits. Arguments TreeNode {S}.
Arguments Tree : clear implicits. Arguments Tree {S}.
End Trees.
Export Network (NewServerIdentity).

(** ** Witnesses *)

Module TreeExample.
Import ZSuite.

#[global] Instance toy_uuid : UuidLib := {|
  NewV4 u := ZSuite.le8 (Z.of_nat u);
  NewV5 ns s := ns ++ s;
  NamespaceURL_uuid := [x10];
  uuid_string u := u;
|}.

Definition server (k : Z) : ServerIdentity :=
  NewServerIdentity (S := Zsuite) k (String.list_byte_of_string "tcp://h:1").
Definition roster5 : Roster := Rosters.NewRoster (server <$> [3; 5; 7; 11; 13]) 0.

Lemma generate_nary_tree_correct_witness :
  ∃ t root p, Trees.GenerateNaryTree roster5 2 1 = Ret (t, 6%nat) ∧
    Trees.t_Root t = Some root ∧
    Trees.tn_RosterIndex <$> Trees.preorder root = [0; 1; 2; 3; 4] ∧
    Trees.tn_PublicAggregateSubTree root = Some p ∧ p = 39.
Proof.
  destruct (Trees.generate_nary_tree_correct roster5 2 1) as
    (t & root & p & Ht & Hr & _ & _ & Hi & _ & Hp & Hagg); [lia|discriminate|].
  exists t, root, p. repeat (split; [done|]). exact Hagg.
Defined.

Lemma generate_with_root_correct_witness :
  ∃ t nodes u', Trees.GenerateNaryTreeWithRoot roster5 4 (server 7) 1 = Ret (Some t, u') ∧
    Trees.List t = Ret nodes ∧
    Trees.tn_ServerIdentity <$> nodes = Some ∘ server <$> [7; 3; 5; 11; 13].
Proof.
  destruct (Trees.generate_with_root_correct roster5 4 (server 7) 1) as
    (t & nodes & u' & Ht & Hl & _ & Hs); [lia|by apply (bool_decide_unpack _)|].
  exists t, nodes, u'. done.
Defined.

Lemma tree_marshal_roundtrip_witness :
  ∃ t m u', Trees.GenerateNaryTree roster5 2 1 = Ret (t, u') ∧
            Trees.MakeTreeMarshal t = Ret m ∧ Trees.MakeTree m roster5 = Ret t.
Proof.
  assert (Rosters.distinct roster5) as Hd.
  { unfold Rosters.distinct. apply (bool_decide_unpack _). vm_compute. exact I. }
  destruct (Trees.tree_marshal_roundtrip roster5 roster5 2 1)
    as (t & m & u & Ht & Hm & Hmk & _); [lia|discriminate|exact Hd|].
  exists t, m, u. repeat (split; [done|]). exact Hmk.
Defined.
End TreeExample.
