(* ===== verification/TreeGen.v ===== *)
(** * Trees larger than their roster ([GenerateBigNaryTree] of [imported/onet/tree.go])

    The tree is made level by level; a child gets the next server of the roster
    that is on another host than its parent, and servers not used yet go first
    when every server is to be used once.  The nodes under construction are
    shared between the levels and their parents: [nodes_made] is the memory, a
    pointer is a position in it, and [tree_of] reads the finished tree. *)
From S2P Require Import Prelude Wire GoStrings Address Suite Tree.
Local Open Scope Z_scope.

Module BigTree.
Import Trees.

(** [make([]*TreeNode, n)]: what is negative or larger than the address space of
    48 bits panics. *)
Definition make_pointers (n : Z) : outcome error unit :=
  if (n <? 0) || (2 ^ 45 <? n) then Panic "makeslice: len out of range" else Ret tt.

Section big.
Context {S : Suite} {U : UuidLib} (lower_unicode : bytes → bytes).

Record node := {
  n_ID : UUID;
  n_ServerIdentity : ServerIdentity;
  n_RosterIndex : Z;
  n_Children : list nat;
}.

(** The variables of the loops. *)
Record gen := {
  nodes_made : list node;
  used : list bool;
  elIndex : Z;
  totalNodes : Z;
  uuids : nat;
}.

Definition NewNode (entityIdx : Z) (ni : ServerIdentity) (u : nat) : node :=
  {| n_ID := NewV4 u; n_ServerIdentity := ni; n_RosterIndex := entityIdx; n_Children := [] |}.

Definition append_child (c : nat) (p : node) : node :=
  {| n_ID := n_ID p; n_ServerIdentity := n_ServerIdentity p; n_RosterIndex := n_RosterIndex p;
     n_Children := n_Children p ++ [c] |}.

Section roster.
Context (el : list ServerIdentity) (useAll : bool).

Definition ilLen : Z := Z.of_nat (length el).

(** [el.List[i].Address.Host()]. *)
Definition host_at (i : Z) : outcome error bytes :=
  let! e := index el i in Addresses.Host lower_unicode (Network.Address e).

(** [useAll && used[i]]. *)
Definition taken (us : list bool) (i : Z) : outcome error bool :=
  if useAll then index us i else Ret false.

(** The loop that looks for the server of a child. *)
Fixpoint next_host (fuel : nat) (us : list bool) (parentHost : bytes) (elIndexFirst : Z)
    (notSameHost : bool) (i : Z) (childHost : bytes) : outcome error Z :=
  match fuel with
  | O => OutOfFuel
  | Datatypes.S fuel =>
      let! again :=
        if notSameHost && bool_decide (childHost = parentHost) && (1 <? ilLen) then Ret true
        else taken us i in
      if negb again then Ret i
      else
        let i := Z.rem (i + 1) ilLen in
        let! t := taken us i in
        if t : bool then
          next_host fuel us parentHost elIndexFirst
            (if i =? elIndexFirst then false else notSameHost) i childHost
        else if i =? elIndexFirst then Ret i
        else
          let! childHost := host_at i in
          next_host fuel us parentHost elIndexFirst notSameHost i childHost
  end.

(** One child of the node [parent]; it is also put on the next level. *)
Definition add_child (fuel : nat) (parent : nat) (parentHost : bytes) (a : gen * list nat)
    : outcome error (gen * list nat) :=
  let '(st, newLevelNodes) := a in
  let! childHost := host_at (elIndex st) in
  let! i := next_host fuel (used st) parentHost (elIndex st) true (elIndex st) childHost in
  let! e := index el i in
  let! us := set_index (used st) i true in
  let child := length (nodes_made st) in
  Ret ({| nodes_made := alter (append_child child) parent (nodes_made st) ++ [NewNode i e (uuids st)];
          used := us; elIndex := Z.rem (i + 1) ilLen; totalNodes := totalNodes st + 1;
          uuids := Datatypes.S (uuids st) |}, newLevelNodes ++ [child]).

(** The children of the [i]-th of [len] nodes of a level. *)
Definition add_children (fuel : nat) (N nodes : Z) (len : nat) (a : gen * list nat) (ip : nat * nat)
    : outcome error (gen * list nat) :=
  let '(i, parent) := ip in
  let children :=
    Z.quot (wrapS 64 (wrapS 64 (nodes - totalNodes a.1) * (Z.of_nat i + 1))) (Z.of_nat len) in
  let children := if N <? children then N else children in
  let! _ := make_pointers children in
  let! p := index (nodes_made a.1) (Z.of_nat parent) in
  let! parentHost := Addresses.Host lower_unicode (Network.Address (n_ServerIdentity p)) in
  ofoldM (λ a _, add_child fuel parent parentHost a) a (seq 0 (Z.to_nat children)).

(** The levels. *)
Fixpoint levels (rounds fuel : nat) (N nodes : Z) (levelNodes : list nat) (st : gen) : outcome error gen :=
  match rounds with
  | O => OutOfFuel
  | Datatypes.S rounds =>
      if totalNodes st <? nodes then
        let len := length levelNodes in
        let! _ := make_pointers (wrapS 64 (Z.of_nat len * N)) in
        let! (st, newLevelNodes) :=
          ofoldM (add_children fuel N nodes len) (st, []) (zip (seq 0 len) levelNodes) in
        levels rounds fuel N nodes newLevelNodes st
      else Ret st
  end.
End roster.

(** The tree below the node at position [p]. *)
Fixpoint tree_of (fuel : nat) (l : list node) (p : nat) : option TreeNode :=
  match fuel with
  | O => None
  | Datatypes.S fuel =>
      n ← l !! p;
      cs ← mapM (tree_of fuel l) (n_Children n);
      Some (MkTreeNode (n_ID n) (Some (n_ServerIdentity n)) (n_RosterIndex n) cs None)
  end.

(** [GenerateBigNaryTree]. *)
Definition GenerateBigNaryTree (fuel : nat) (el : Roster) (N nodes : Z) (u : nat)
    : outcome error (Tree * nat) :=
  let list := Rosters.List el in
  let useAll := Z.of_nat (length list) =? nodes in
  let! e := index list 0 in
  let! us := set_index (replicate (length list) false) 0 true in
  let st := {| nodes_made := [NewNode 0 e u]; used := us; elIndex := Z.rem 1 (ilLen list);
               totalNodes := 1; uuids := Datatypes.S u |} in
  let! st := levels list useAll fuel fuel N nodes [0%nat] st in
  let! t := NewTree el (tree_of (length (nodes_made st)) (nodes_made st) 0) in
  Ret (t, uuids st).

(** [RandomServerIdentity]; [r] is what [rand.Int] draws. *)
Definition RandomServerIdentity (el : Roster) (r : Z) : outcome error (option ServerIdentity) :=
  if decide (length (Rosters.List el) = 0%nat) then Ret None
  else let! e := index (Rosters.List el) (Z.rem r (Z.of_nat (length (Rosters.List el)))) in Ret (Some e).

(** ** The search for a host *)
Section search.
Context (el : list ServerIdentity) (useAll : bool).
Let n : Z := ilLen el.

Lemma next_range i : 0 <= i < n → 0 <= Z.rem (i + 1) n < n.
Proof. intros Hi. rewrite Z.rem_mod_nonneg by lia. by apply Z.mod_pos_bound; lia. Qed.

(** Every address has a host part, maybe empty. *)
Definition hosts_ok (l : list ServerIdentity) : Prop :=
  Forall (λ e, is_ret (Addresses.Host lower_unicode (Network.Address e)) = true) l.

Definition host_of (e : ServerIdentity) : bytes :=
  match Addresses.Host lower_unicode (Network.Address e) with Ret h => h | _ => [] end.

Definition hostZ (i : Z) : bytes := default [] (host_of <$> el !! Z.to_nat i).

(** The server may be used for a child. *)
Definition allowed (us : list bool) (i : Z) : bool := negb (useAll && default false (us !! Z.to_nat i)).

Context (Hhosts : hosts_ok el).

Lemma host_of_Ret e : e ∈ el → Addresses.Host lower_unicode (Network.Address e) = Ret (host_of e).
Proof.
  intros He. unfold hosts_ok in Hhosts. rewrite Forall_forall in Hhosts. specialize (Hhosts e He).
  unfold host_of. by destruct (Addresses.Host _ _).
Qed.

Lemma host_at_Ret i : 0 <= i < n → host_at el i = Ret (hostZ i).
Proof.
  unfold n, ilLen. intros Hi. destruct (lookup_in_range el (Z.to_nat i)) as [e He]; [lia|].
  unfold host_at, hostZ, index. rewrite He. destruct (Z.ltb_spec i 0); [lia|]. cbn.
  apply host_of_Ret. by eapply list_elem_of_lookup_2.
Qed.

Context (us : list bool) (Hus : length us = length el).

Lemma taken_Ret i : 0 <= i < n → taken useAll us i = Ret (negb (allowed us i)).
Proof.
  unfold n, ilLen. intros Hi. unfold taken, allowed. destruct useAll; [|done].
  destruct (lookup_in_range us (Z.to_nat i)) as [b Hb]; [lia|].
  unfold index. rewrite Hb. destruct (Z.ltb_spec i 0); [lia|]. cbn. by rewrite negb_involutive.
Qed.

(** One round of the loop. *)
Lemma next_host_step fuel ph first ns i c :
  0 <= i < n → 
  next_host el useAll (Datatypes.S fuel) us ph first ns i c =
    if (ns && bool_decide (c = ph) && (1 <? n)) || negb (allowed us i) then
      let j := Z.rem (i + 1) n in
      if negb (allowed us j) then next_host el useAll fuel us ph first (if j =? first then false else ns) j c
      else if j =? first then Ret j
      else next_host el useAll fuel us ph first ns j (hostZ j)
    else Ret i.
Proof.
  intros Hi. cbn [next_host]. fold n.
  destruct (ns && bool_decide (c = ph) && (1 <? n)); cbn [obind orb negb];
    [|rewrite taken_Ret by done; cbn [obind]; destruct (allowed us i); cbn [negb]; [done|]];
    rewrite taken_Ret by (by apply next_range); cbn [obind]; destruct (allowed us (Z.rem (i + 1) n)); cbn [negb];
    try done; destruct (_ =? first); try done; rewrite host_at_Ret by (by apply next_range); done.
Qed.

(** The position after [k] more steps. *)
Definition pos (first : Z) (k : nat) : Z := (first + Z.of_nat k) mod n.

Lemma pos_range first k : 0 < n → 0 <= pos first k < n.
Proof. intros. apply Z.mod_pos_bound. lia. Qed.

Lemma pos_S first k : 0 < n → 0 <= first → Z.rem (pos first k + 1) n = pos first (Datatypes.S k).
Proof.
  intros Hn Hf. pose proof (pos_range first k Hn). rewrite Z.rem_mod_nonneg by lia.
  unfold pos. rewrite Zplus_mod_idemp_l. f_equal. lia.
Qed.

Lemma pos_0 first : 0 <= first < n → pos first 0 = first.
Proof. intros. unfold pos. rewrite Z.add_0_r. by apply Z.mod_small. Qed.

Lemma pos_n first : 0 <= first < n → pos first (length el) = first.
Proof.
  intros. unfold pos. fold (ilLen el). fold n.
  replace (first + n) with (first + 1 * n) by lia. rewrite Z_mod_plus_full. by apply Z.mod_small.
Qed.

Lemma pos_surj first j : 0 <= first < n → 0 <= j < n → ∃ k, (k < length el)%nat ∧ pos first k = j.
Proof.
  unfold n, ilLen. intros Hf Hj. exists (Z.to_nat ((j - first) mod Z.of_nat (length el))).
  pose proof (Z.mod_pos_bound (j - first) (Z.of_nat (length el)) ltac:(lia)).
  split; [lia|]. unfold pos. rewrite Z2Nat.id by lia. fold (ilLen el) n. rewrite Zplus_mod_idemp_r.
  replace (first + (j - first)) with j by lia. by apply Z.mod_small.
Qed.

Lemma pos_first first k : 0 <= first < n → (0 < k < length el)%nat → pos first k ≠ first.
Proof.
  unfold n, ilLen. intros Hf Hk E. unfold pos in E. fold (ilLen el) n in E. unfold n, ilLen in E.
  destruct (decide (first + Z.of_nat k < Z.of_nat (length el))) as [Hlt|Hge].
  - rewrite Z.mod_small in E; lia.
  - replace (first + Z.of_nat k) with (first + Z.of_nat k - Z.of_nat (length el) + 1 * Z.of_nat (length el)) in E by lia.
    rewrite Z_mod_plus_full, Z.mod_small in E; lia.
Qed.

(** When hosts do not matter any more the next unused server is taken. *)
Lemma next_host_any ph first : 0 <= first → 0 < n → ∀ d fuel k c,
  allowed us (pos first (k + d)) = true → (d < fuel)%nat →
  ∃ r, next_host el useAll fuel us ph first false (pos first k) c = Ret r ∧ 0 <= r < n ∧ allowed us r = true.
Proof.
  intros Hf Hn. induction d as [|d IH]; intros [|fuel] k c Ha Hfuel; try lia;
    rewrite next_host_step by (by apply pos_range); cbn [andb orb];
    pose proof (pos_range first k Hn) as Hr.
  - rewrite Nat.add_0_r in Ha. rewrite Ha. cbn. eauto.
  - destruct (allowed us (pos first k)) eqn:Ek; cbn [negb]; [by eauto|].
    rewrite pos_S by done. cbv zeta. pose proof (pos_range first (Datatypes.S k) Hn) as Hr'.
    destruct (allowed us (pos first (Datatypes.S k))) eqn:Ek'; cbn [negb].
    + destruct (_ =? first); [by eauto|].
      destruct fuel as [|fuel]; [lia|]. rewrite next_host_step by done. cbn [andb orb]. rewrite Ek'. cbn. eauto.
    + replace (if _ =? first then false else false) with false by (by destruct (_ =? first)).
      apply IH; [|lia]. by rewrite Nat.add_succ_l, <-Nat.add_succ_r.
Qed.

Definition good (ph : bytes) (i : Z) : Prop := allowed us i = true ∧ (hostZ i ≠ ph ∨ n = 1).

Lemma next_host_round ph first : 0 <= first < n → (∃ j, 0 <= j < n ∧ allowed us j = true) →
  ∀ m fuel k c, (k + m = length el)%nat → (0 < m)%nat → (m + length el < fuel)%nat →
  (allowed us (pos first k) = true → c = hostZ (pos first k)) →
  (∀ k', (k' < k)%nat → ¬ good ph (pos first k')) →
  ∃ r, next_host el useAll fuel us ph first true (pos first k) c = Ret r ∧ 0 <= r < n ∧ allowed us r = true ∧
       (good ph r ∨ ∀ k', (k' < length el)%nat → ¬ good ph (pos first k')).
Proof.
  intros Hf Hex. assert (0 < n) as Hn by lia.
  induction m as [|m IH]; intros [|fuel] k c Hkm Hm Hfuel Hc Hno; try lia.
  rewrite next_host_step by (by apply pos_range). cbv zeta. cbn [andb].
  pose proof (pos_range first k Hn) as Hr. pose proof (pos_range first (Datatypes.S k) Hn) as Hr'.
  destruct (_ || _) eqn:Eagain.
  2:{ apply orb_false_iff in Eagain as [E1 E2%negb_false_iff]. eexists. split; [done|]. do 2 (split; [done|]).
      left. split; [done|]. rewrite <-Hc by done. apply andb_false_iff in E1 as [E1|E1].
      - left. by apply bool_decide_eq_false in E1.
      - right. apply Z.ltb_ge in E1. lia. }
  assert (¬ good ph (pos first k)) as Hk.
  { intros [Ha Hg]. rewrite <-Hc, Ha in * by done. rewrite orb_false_r in Eagain.
    apply andb_true_iff in Eagain as [E1%bool_decide_eq_true E2%Z.ltb_lt]. destruct Hg as [Hg|Hg]; [done|lia]. }
  assert (∀ k', (k' < Datatypes.S k)%nat → ¬ good ph (pos first k')) as Hno'.
  { intros k' Hk'. destruct (decide (k' = k)) as [->|]; [done|]. apply Hno. lia. }
  rewrite pos_S by lia. destruct (decide (m = 0)%nat) as [->|Hm0].
  - replace (Datatypes.S k) with (length el) in * by lia. rewrite pos_n, Z.eqb_refl in * by done.
    destruct (allowed us first) eqn:Ef; cbn [negb]; [by eauto 10|].
    destruct Hex as (j & Hj & Haj). destruct (pos_surj first j Hf Hj) as (d & Hd & <-).
    destruct (next_host_any ph first ltac:(lia) Hn d fuel 0 c) as (r & Hr1 & Hr2 & Hr3); [done|lia|].
    rewrite pos_0 in Hr1 by done. eauto 10.
  - rewrite (proj2 (Z.eqb_neq _ _)) by (apply pos_first; [done|lia]).
    destruct (allowed us (pos first (Datatypes.S k))) eqn:Ek; cbn [negb]; apply IH; try done; lia || (by rewrite Ek).
Qed.

(** The search returns a server that may be used, and one on another host than
    the parent if there is one. *)
Lemma next_host_spec fuel ph first :
  0 <= first < n → (∃ j, 0 <= j < n ∧ allowed us j = true) → (2 * length el < fuel)%nat →
  ∃ r, next_host el useAll fuel us ph first true first (hostZ first) = Ret r ∧ 0 <= r < n ∧ allowed us r = true ∧
       ∀ j, 0 <= j < n → allowed us j = true → hostZ j ≠ ph → hostZ r ≠ ph.
Proof.
  intros Hf Hex Hfuel.
  destruct (next_host_round ph first Hf Hex (length el) fuel 0 (hostZ first)) as (r & Hr & Hr1 & Hr2 & Hr3);
    [lia|unfold n, ilLen in Hf; lia|lia|by rewrite pos_0|lia|].
  rewrite pos_0 in Hr by done. exists r. do 3 (split; [done|]). intros j Hj Haj Hhj.
  destruct Hr3 as [[_ [Hg|Hg]]|Hnone]; [done| |].
  - by replace r with j by lia.
  - destruct (pos_surj first j Hf Hj) as (k & Hk & <-). destruct (Hnone k Hk). split; auto.
Qed.
End search.

(** ** What holds while the tree grows *)
Section growth.
Context (el : list ServerIdentity) (N nodes : Z) (u0 : nat).
Context (Hhosts : hosts_ok el).
Let n : Z := ilLen el.
Let useAll : bool := n =? nodes.

(** The numbers are small enough for 64 bits and for memory. *)
Definition fits : Prop := 1 <= N ∧ 1 <= nodes <= 2 ^ 31 ∧ nodes * N <= 2 ^ 45.

Record inv (st : gen) : Prop := {
  inv_used : length (used st) = length el;
  inv_index : 0 <= elIndex st < n;
  inv_total : totalNodes st = Z.of_nat (length (nodes_made st));
  inv_pos : 1 <= totalNodes st <= nodes;
  inv_uuids : uuids st = (u0 + length (nodes_made st))%nat;
  inv_node p nd : nodes_made st !! p = Some nd →
    0 <= n_RosterIndex nd ∧ el !! Z.to_nat (n_RosterIndex nd) = Some (n_ServerIdentity nd) ∧
    used st !! Z.to_nat (n_RosterIndex nd) = Some true ∧ n_ID nd = NewV4 (u0 + p);
  inv_free i : used st !! i = Some true → Z.of_nat i ∈ n_RosterIndex <$> nodes_made st;
  inv_distinct : useAll = true → NoDup (n_RosterIndex <$> nodes_made st);
  inv_children : concat (n_Children <$> nodes_made st) ≡ₚ seq 1 (length (nodes_made st) - 1);
  inv_later p nd c : nodes_made st !! p = Some nd → c ∈ n_Children nd → (p < c)%nat;
  inv_width p nd : nodes_made st !! p = Some nd → Z.of_nat (length (n_Children nd)) <= N;
  inv_hosts p nd c ndc : useAll = false →
    nodes_made st !! p = Some nd → c ∈ n_Children nd → nodes_made st !! c = Some ndc →
    (∃ j, 0 <= j < n ∧ hostZ el j ≠ host_of (n_ServerIdentity nd)) →
    host_of (n_ServerIdentity ndc) ≠ host_of (n_ServerIdentity nd);
}.

Lemma inv_child_bound st p nd c : inv st → nodes_made st !! p = Some nd → c ∈ n_Children nd →
  (1 <= c < length (nodes_made st))%nat.
Proof.
  intros Hi Hp Hc. assert (c ∈ concat (n_Children <$> nodes_made st)) as H.
  { apply list_elem_of_In, in_concat. exists (n_Children nd). rewrite <-!list_elem_of_In. split; [|done].
    apply list_elem_of_fmap. exists nd. split; [done|]. by eapply list_elem_of_lookup_2. }
  rewrite (inv_children _ Hi) in H. apply elem_of_seq in H.
  pose proof (lookup_lt_Some _ _ _ Hp). lia.
Qed.

(** While nodes are missing some server may be used. *)
Lemma some_allowed st : inv st → totalNodes st < nodes →
  ∃ j, 0 <= j < n ∧ allowed useAll (used st) j = true.
Proof.
  intros Hi Hlt. unfold allowed. destruct useAll eqn:Hu; [|exists (elIndex st); split; [apply Hi|done]].
  unfold useAll in Hu. apply Z.eqb_eq in Hu.
  destruct (decide (Exists (λ b, b = false) (used st))) as [(b & [i Hb]%list_elem_of_lookup & ->)%Exists_exists|Hall].
  { exists (Z.of_nat i). pose proof (lookup_lt_Some _ _ _ Hb) as Hl. rewrite (inv_used _ Hi) in Hl.
    split; [unfold n, ilLen; lia|]. by rewrite Nat2Z.id, Hb. }
  exfalso. assert (∀ z, z ∈ Z.of_nat <$> seq 0 (length el) → z ∈ n_RosterIndex <$> nodes_made st) as Hin.
  { intros z (i & -> & Hs%elem_of_seq)%list_elem_of_fmap. apply (inv_free _ Hi).
    rewrite <-(inv_used _ Hi) in Hs. destruct (lookup_in_range (used st) i) as [[|] Hb]; [lia|done|].
    destruct Hall. apply Exists_exists. exists false. split; [by eapply list_elem_of_lookup_2|done]. }
  apply NoDup_submseteq in Hin; [|apply NoDup_fmap; [intros ???; lia|apply NoDup_seq]].
  apply submseteq_length in Hin. rewrite !length_fmap, length_seq in Hin.
  rewrite (inv_total _ Hi) in Hlt. unfold n, ilLen in Hu. lia.
Qed.

Lemma concat_append (l : list node) p c : (p < length l)%nat →
  concat (n_Children <$> alter (append_child c) p l) ≡ₚ c :: concat (n_Children <$> l).
Proof.
  revert p. induction l as [|nd l IH]; intros [|p] Hp; cbn in *; [lia..| |].
  - rewrite <-app_assoc. cbn. by rewrite <-Permutation_middle.
  - change (alter (append_child c) (Datatypes.S p) (nd :: l)) with (nd :: alter (append_child c) p l). cbn.
    rewrite IH by lia. by rewrite <-Permutation_middle.
Qed.

(** A node of the extended memory is the new one, the parent, or an old one. *)
Lemma lookup_grown (l : list node) parent q c new nd :
  (alter (append_child c) parent l ++ [new]) !! q = Some nd →
  (q = length l ∧ nd = new) ∨
  (∃ old, l !! q = Some old ∧ nd = (if decide (q = parent) then append_child c old else old)).
Proof.
  intros [H|[Hge H]]%lookup_app_Some.
  - right. destruct (decide (q = parent)) as [->|Hne].
    + rewrite list_lookup_alter_eq in H. destruct (l !! parent) as [old|]; [|done]. injection H as <-. eauto.
    + rewrite list_lookup_alter_ne in H by done. eauto.
  - left. rewrite length_alter in *. apply list_lookup_singleton_Some in H as [? <-]. split; [lia|done].
Qed.

Lemma append_server (P : Prop) `{Decision P} c (o : node) :
  n_ServerIdentity (if decide P then append_child c o else o) = n_ServerIdentity o.
Proof. by destruct (decide P). Qed.

Lemma grown_old (l : list node) parent q c new old :
  l !! q = Some old →
  (alter (append_child c) parent l ++ [new]) !! q = Some (if decide (q = parent) then append_child c old else old).
Proof.
  intros H. pose proof (lookup_lt_Some _ _ _ H). rewrite lookup_app_l by (rewrite length_alter; done).
  destruct (decide (q = parent)) as [->|]; [by rewrite list_lookup_alter_eq, H|by rewrite list_lookup_alter_ne].
Qed.

Lemma grown_indices (l : list node) parent c new :
  n_RosterIndex <$> (alter (append_child c) parent l ++ [new]) = (n_RosterIndex <$> l) ++ [n_RosterIndex new].
Proof.
  rewrite fmap_app. cbn. f_equal. apply list_eq. intros i. rewrite !list_lookup_fmap.
  destruct (decide (parent = i)) as [->|]; [rewrite list_lookup_alter_eq|by rewrite list_lookup_alter_ne].
  by destruct (l !! i).
Qed.

(** The state after server [r] was made the next child of [parent]. *)
Definition grow (st : gen) (parent : nat) (r : Z) (e : ServerIdentity) : gen :=
  {| nodes_made := alter (append_child (length (nodes_made st))) parent (nodes_made st)
                   ++ [NewNode r e (uuids st)];
     used := <[Z.to_nat r := true]> (used st); elIndex := Z.rem (r + 1) n;
     totalNodes := totalNodes st + 1; uuids := Datatypes.S (uuids st) |}.

Lemma grow_length st parent r e : length (nodes_made (grow st parent r e)) = Datatypes.S (length (nodes_made st)).
Proof. cbn. rewrite length_app, length_alter. cbn. lia. Qed.

Context (st : gen) (parent : nat) (nd : node) (r : Z) (e : ServerIdentity).
Context (Hi : inv st) (Hp : nodes_made st !! parent = Some nd) (Hr : 0 <= r < n).
Context (He : el !! Z.to_nat r = Some e) (Ha : allowed useAll (used st) r = true).

Lemma used_grow i : (used (grow st parent r e)) !! i = Some true ↔ i = Z.to_nat r ∨ used st !! i = Some true.
Proof.
  cbn. unfold n, ilLen in Hr. destruct (decide (Z.to_nat r = i)) as [<-|Hne].
  - rewrite list_lookup_insert_eq by (rewrite (inv_used _ Hi); lia). naive_solver.
  - rewrite list_lookup_insert_ne by done. naive_solver.
Qed.

Lemma grow_node q nd' : nodes_made (grow st parent r e) !! q = Some nd' →
    0 <= n_RosterIndex nd' ∧ el !! Z.to_nat (n_RosterIndex nd') = Some (n_ServerIdentity nd') ∧
    used (grow st parent r e) !! Z.to_nat (n_RosterIndex nd') = Some true ∧ n_ID nd' = NewV4 (u0 + q).
Proof.
  intros [[-> ->]|(old & Hq & ->)]%lookup_grown.
  - rewrite used_grow. cbn [NewNode n_RosterIndex n_ServerIdentity n_ID]. rewrite (inv_uuids _ Hi).
    split; [lia|]. auto.
  - destruct (inv_node _ Hi _ _ Hq) as (H1 & H2 & H3 & H4). rewrite used_grow.
    destruct (decide _); cbn [append_child n_RosterIndex n_ServerIdentity n_ID]; auto.
Qed.

Lemma grow_distinct : useAll = true → NoDup (n_RosterIndex <$> nodes_made (grow st parent r e)).
Proof.
  intros Hu. cbn [grow nodes_made]. rewrite grown_indices. apply NoDup_app.
  split; [by apply (inv_distinct _ Hi)|]. split; [|apply NoDup_singleton].
  intros x (old & -> & [q Hq]%list_elem_of_lookup)%list_elem_of_fmap Hx%list_elem_of_singleton.
  destruct (inv_node _ Hi _ _ Hq) as (_ & _ & H3 & _). cbn in Hx. rewrite Hx in H3.
  unfold allowed in Ha. rewrite Hu, H3 in Ha. done.
Qed.

Lemma grow_later q nd' c : nodes_made (grow st parent r e) !! q = Some nd' → c ∈ n_Children nd' → (q < c)%nat.
Proof.
  intros [[-> ->]|(old & Hq & ->)]%lookup_grown; [by intros ?%elem_of_nil|].
  pose proof (lookup_lt_Some _ _ _ Hq) as Hlt.
  destruct (decide _) as [->|]; cbn; [|by apply (inv_later _ Hi)].
  intros [Hc| ->%list_elem_of_singleton]%elem_of_app; [|done]. by eapply (inv_later _ Hi).
Qed.

Lemma grow_width q nd' : Z.of_nat (length (n_Children nd)) < N →
  nodes_made (grow st parent r e) !! q = Some nd' → Z.of_nat (length (n_Children nd')) <= N.
Proof.
  intros HN [[-> ->]|(old & Hq & ->)]%lookup_grown; [cbn; lia|].
  destruct (decide _) as [->|]; [|by eapply (inv_width _ Hi)].
  simplify_eq. cbn. rewrite length_app. cbn. lia.
Qed.

Lemma grow_hosts : 
  (∀ j, 0 <= j < n → allowed useAll (used st) j = true →
        hostZ el j ≠ host_of (n_ServerIdentity nd) → hostZ el r ≠ host_of (n_ServerIdentity nd)) →
  ∀ q nd' c ndc, useAll = false →
    nodes_made (grow st parent r e) !! q = Some nd' → c ∈ n_Children nd' →
    nodes_made (grow st parent r e) !! c = Some ndc →
    (∃ j, 0 <= j < n ∧ hostZ el j ≠ host_of (n_ServerIdentity nd')) →
    host_of (n_ServerIdentity ndc) ≠ host_of (n_ServerIdentity nd').
Proof.
  intros Hg q nd' c ndc Hu [[-> ->]|(old & Hq & ->)]%lookup_grown Hc Hndc (j & Hj & Hne).
  { by apply elem_of_nil in Hc. }
  rewrite append_server in *.
  apply lookup_grown in Hndc as [[-> ->]|(oldc & Hoc & ->)].
  - assert (q = parent) as ->.
    { destruct (decide (q = parent)) as [|Hqp]; [done|].
      apply (inv_child_bound _ _ _ _ Hi Hq) in Hc. lia. }
    simplify_eq. cbn. replace (host_of e) with (hostZ el r) by (unfold hostZ; by rewrite He).
    apply (Hg j); [done| |done]. unfold allowed. by rewrite Hu.
  - rewrite append_server in *.
    apply (inv_hosts _ Hi q old c oldc); [done..| |done|by eauto].
    destruct (decide (q = parent)) as [->|]; [|done].
    apply elem_of_app in Hc as [Hc| ->%list_elem_of_singleton]; [done|].
    apply lookup_lt_Some in Hoc. lia.
Qed.

Lemma grow_inv : totalNodes st < nodes → Z.of_nat (length (n_Children nd)) < N →
  (∀ j, 0 <= j < n → allowed useAll (used st) j = true →
        hostZ el j ≠ host_of (n_ServerIdentity nd) → hostZ el r ≠ host_of (n_ServerIdentity nd)) →
  inv (grow st parent r e).
Proof.
  intros Hlt HN Hg. pose proof (grow_length st parent r e) as Hlen. pose proof (lookup_lt_Some _ _ _ Hp).
  split; rewrite ?Hlen.
  - cbn. rewrite length_insert. apply Hi.
  - cbn. by apply next_range.
  - cbn [grow totalNodes]. rewrite (inv_total _ Hi). lia.
  - pose proof (inv_pos _ Hi). cbn. lia.
  - cbn. rewrite (inv_uuids _ Hi). lia.
  - apply grow_node.
  - intros i. rewrite used_grow. cbn [grow nodes_made]. rewrite grown_indices.
    intros [-> |H1%(inv_free _ Hi)]; apply elem_of_app; [|by left].
    right. cbn. apply list_elem_of_singleton. lia.
  - apply grow_distinct.
  - cbn [grow nodes_made]. rewrite fmap_app, concat_app, concat_append by done. cbn. rewrite app_nil_r, (inv_children _ Hi).
    destruct (length (nodes_made st)) as [|k]; [lia|]. replace (Datatypes.S k - 1)%nat with k by lia.
    rewrite Nat.sub_0_r, seq_S. by rewrite <-Permutation_cons_append.
  - intros q nd' c. apply grow_later.
  - intros q nd'. by apply grow_width.
  - by apply grow_hosts.
Qed.
End growth.

(** ** Levels *)

(** The positions of the children of the node at [p]; those [k] levels below [ps]. *)
Definition children_at (l : list node) (p : nat) : list nat := default [] (n_Children <$> l !! p).

Lemma bind_ext {A B} (f g : A → list B) (k : list A) : (∀ x, x ∈ k → f x = g x) → k ≫= f = k ≫= g.
Proof.
  induction k as [|x k IH]; intros H; cbn; [done|]. rewrite H by left. f_equal. apply IH. intros y Hy. apply H. by right.
Qed.

Fixpoint descend {A} (f : A → list A) (k : nat) (ps : list A) : list A :=
  match k with O => ps | Datatypes.S k => descend f k (ps ≫= f) end.

Lemma descend_nil {A} (f : A → list A) k : descend f k [] = [].
Proof. by induction k. Qed.

(** The sizes of the levels from one of [len] nodes on, when [rem] are missing. *)
Fixpoint level_size (N len rem : Z) (k : nat) : Z :=
  match k with
  | O => len
  | Datatypes.S k => level_size N (Z.min (N * len) rem) (rem - Z.min (N * len) rem) k
  end.

Lemma level_size_done N k : 0 <= N → level_size N 0 0 k = 0.
Proof.
  intros HN. induction k as [|k IH]; [done|]. cbn [level_size]. rewrite Z.mul_0_r. exact IH.
Qed.

Section levels.
Context (el : list ServerIdentity) (N nodes : Z) (u0 : nat) (Hfits : fits N nodes).
Abbreviation inv := (inv el N nodes u0).

(** The nodes of a level, and those made for the next one, are pairwise
    different and have no children yet. *)
Definition leaves (st : gen) (l : list nat) : Prop :=
  NoDup l ∧ ∀ p, p ∈ l → n_Children <$> nodes_made st !! p = Some [].

Lemma leaves_bound st l : inv st → leaves st l → Z.of_nat (length l) <= totalNodes st.
Proof.
  intros Hi [Hd Hl]. rewrite (inv_total _ _ _ _ _ Hi). apply inj_le.
  assert (l ⊆+ seq 0 (length (nodes_made st))) as H%submseteq_length; [|by rewrite length_seq in H].
  apply NoDup_submseteq; [done|]. intros p Hp%Hl. apply elem_of_seq. split; [lia|].
  destruct (nodes_made st !! p) eqn:E; [|done]. by eapply lookup_lt_Some.
Qed.

(** How many children the [i]-th node of a level gets. *)
Definition share (st : gen) (i len : nat) : Z :=
  Z.quot (wrapS 64 (wrapS 64 (nodes - totalNodes st) * (Z.of_nat i + 1))) (Z.of_nat len).

Lemma share_spec st i len : inv st → (i < len)%nat → Z.of_nat len <= nodes →
  0 <= share st i len <= nodes - totalNodes st ∧ ((i + 1)%nat = len → share st i len = nodes - totalNodes st).
Proof using Hfits.
  intros Hi Hlt Hlen. destruct Hfits as (_ & Hn & _). pose proof (inv_pos _ _ _ _ _ Hi) as Hp.
  unfold share. rewrite (wrapS_small 64 (nodes - _)) by lia. rewrite wrapS_small by nia.
  set (x := nodes - totalNodes st) in *. rewrite Z.quot_div_nonneg by nia. split; [split|].
  - apply Z.div_pos; nia.
  - apply Z.div_le_upper_bound; nia.
  - intros <-. replace (Z.of_nat i + 1) with (Z.of_nat (i + 1)) by lia. apply Z.div_mul. lia.
Qed.

(** Shares fill a level: the nodes from the [i]-th on get [N] children each when
    there are so many left, and otherwise all that are left. *)
Lemma share_fills st i len c : inv st → (i < len)%nat → Z.of_nat len <= nodes →
  c = Z.min N (share st i len) → let rem := nodes - totalNodes st in let later := Z.of_nat len - Z.of_nat i - 1 in
  (N * (later + 1) <= rem → c = N ∧ N * later <= rem - c) ∧
  (rem <= N * (later + 1) → c <= rem ∧ rem - c <= N * later).
Proof using Hfits.
  intros Hi Hlt Hlen Hc rem later. destruct Hfits as (HN & Hn & _). pose proof (inv_pos _ _ _ _ _ Hi) as Hp.
  assert (share st i len = rem * (Z.of_nat i + 1) / Z.of_nat len) as Hs.
  { unfold share. rewrite (wrapS_small 64 (nodes - _)) by lia. rewrite wrapS_small by nia. by rewrite Z.quot_div_nonneg by nia. }
  rewrite Hs in Hc. pose proof (Z.mul_div_le (rem * (Z.of_nat i + 1)) (Z.of_nat len) ltac:(lia)) as Hd1.
  pose proof (Z.mul_succ_div_gt (rem * (Z.of_nat i + 1)) (Z.of_nat len) ltac:(lia)) as Hd2.
  set (x := rem * (Z.of_nat i + 1) / Z.of_nat len) in *. set (j := Z.of_nat i + 1) in *.
  assert (Z.of_nat len = later + j) as HL by lia. assert (0 <= later ∧ 1 <= j ∧ 0 <= rem) as (Ht & Hj & Hr) by lia.
  clearbody rem later j. split.
  - intros Hge. assert (N <= x); [|lia]. unfold x. apply Z.div_le_lower_bound; [lia|].
    assert (later + j <= (later + 1) * j) as H1 by nia.
    apply (Z.mul_le_mono_nonneg_l _ _ N) in H1; [|lia].
    apply (Z.mul_le_mono_nonneg_r _ _ j) in Hge; [|lia]. rewrite HL. lia.
  - intros Hle. assert (rem * j <= rem * Z.of_nat len) as H1 by (apply Z.mul_le_mono_nonneg_l; lia).
    assert (x <= rem) as Hxr by nia.
    destruct (Z.le_gt_cases N x) as [HNx|HNx]; [split; nia|]. assert (c = x) as -> by lia.
    split; [done|]. destruct (decide (later = 0)) as [Hz|Hz].
    + assert (x = rem); [|nia]. unfold x. replace j with (Z.of_nat len) by lia. apply Z.div_mul. lia.
    + assert (rem * j < Z.of_nat len * N) as H2 by nia.
      assert (rem <= rem * j) as H3 by nia.
      assert (rem * later <= Z.of_nat len * N * later) as H4 by (apply Z.mul_le_mono_nonneg_r; lia).
      assert (Z.of_nat len * (rem - x) < Z.of_nat len * (N * later + 1)) as H5; [|nia].
      assert (Z.of_nat len * (rem - x) < rem * later + Z.of_nat len) as H6; [|nia].
      assert (rem * later = rem * Z.of_nat len - rem * j) as -> by (rewrite HL; ring). nia.
Qed.

Lemma make_pointers_Ret x : 0 <= x <= 2 ^ 45 → make_pointers x = Ret tt.
Proof. intros H. unfold make_pointers. destruct (Z.ltb_spec x 0), (Z.ltb_spec (2 ^ 45) x); done || lia. Qed.

End levels.

(** ** The loops *)
Section loops.
Context (el : list ServerIdentity) (N nodes : Z) (u0 fuel : nat).
Context (Hhosts : hosts_ok el) (Hfits : fits N nodes) (Hfuel : (2 * length el < fuel)%nat).
Let useAll : bool := ilLen el =? nodes.
Abbreviation inv := (inv el N nodes u0).

Lemma inv_host st p nd : inv st → nodes_made st !! p = Some nd →
  Addresses.Host lower_unicode (Network.Address (n_ServerIdentity nd)) = Ret (host_of (n_ServerIdentity nd)).
Proof using Hhosts.
  intros Hi Hp. apply (host_of_Ret el Hhosts). destruct (inv_node _ _ _ _ _ Hi _ _ Hp) as (_ & He & _).
  by eapply list_elem_of_lookup_2.
Qed.

Lemma add_child_spec st new parent nd :
  inv st → totalNodes st < nodes → nodes_made st !! parent = Some nd → Z.of_nat (length (n_Children nd)) < N →
  ∃ r e, add_child el useAll fuel parent (host_of (n_ServerIdentity nd)) (st, new)
         = Ret (grow el st parent r e, new ++ [length (nodes_made st)]) ∧ inv (grow el st parent r e).
Proof using Hhosts Hfuel.
  intros Hi Hlt Hp HN. pose proof (inv_index _ _ _ _ _ Hi) as Hf.
  destruct (next_host_spec el useAll Hhosts (used st) (inv_used _ _ _ _ _ Hi) fuel (host_of (n_ServerIdentity nd)) (elIndex st) Hf)
    as (r & Hr & Hr1 & Hr2 & Hr3); [by eapply some_allowed|done|].
  unfold ilLen in Hr1. destruct (lookup_in_range el (Z.to_nat r)) as [e He]; [lia|]. exists r, e. split.
  - unfold add_child. rewrite host_at_Ret by done. cbn [obind]. rewrite Hr. cbn [obind].
    rewrite <-(Z2Nat.id r) at 1 by lia. rewrite (index_Ret _ _ _ He). cbn [obind].
    rewrite set_index_Ret by (rewrite (inv_used _ _ _ _ _ Hi); lia). done.
  - eapply grow_inv; try done.
Qed.

(** All children of one node. *)
Lemma add_child_loop st new parent nd k :
  inv st → nodes_made st !! parent = Some nd → n_Children nd = [] →
  Z.of_nat k <= N → totalNodes st + Z.of_nat k <= nodes →
  ∃ st' nd', ofoldM (λ a _, add_child el useAll fuel parent (host_of (n_ServerIdentity nd)) a) (st, new) (seq 0 k)
         = Ret (st', new ++ seq (length (nodes_made st)) k) ∧ inv st' ∧
    totalNodes st' = totalNodes st + Z.of_nat k ∧
    nodes_made st' !! parent = Some nd' ∧ n_Children nd' = seq (length (nodes_made st)) k ∧
    n_ServerIdentity nd' = n_ServerIdentity nd ∧
    (∀ q, (length (nodes_made st) <= q < length (nodes_made st) + k)%nat →
          n_Children <$> nodes_made st' !! q = Some []) ∧
    (∀ q, (q < length (nodes_made st))%nat → q ≠ parent → nodes_made st' !! q = nodes_made st !! q).
Proof using Hhosts Hfuel.
  intros Hi Hp Hnil. pose proof (lookup_lt_Some _ _ _ Hp) as Hplt.
  induction k as [|k IH]; intros HkN Hkn.
  { exists st, nd. rewrite app_nil_r, Z.add_0_r, Hnil. do 6 (split; [done|]). split; [lia|done]. }
  destruct IH as (st1 & nd1 & Hrun & Hi1 & Ht1 & Hp1 & Hk & Hs1 & Hnew & Hold); [lia..|].
  assert (length (nodes_made st1) = length (nodes_made st) + k)%nat as Hl1.
  { pose proof (inv_total _ _ _ _ _ Hi). pose proof (inv_total _ _ _ _ _ Hi1). lia. }
  destruct (add_child_spec st1 (new ++ seq (length (nodes_made st)) k) parent nd1) as (r & e & Hadd & Hi2); [done|lia|done|rewrite Hk, length_seq; lia|].
  eexists _, _. rewrite seq_S, seq_S, ofoldM_app, Hrun. cbn [obind ofoldM]. rewrite <-Hs1, Hadd. cbn [obind].
  rewrite Hl1, <-app_assoc. split; [done|]. split; [done|]. split; [cbn; lia|].
  split; [by apply grown_old|]. rewrite decide_True by done. cbn. rewrite Hk, Hl1. split; [done|].
  split; [done|]. split.
  - intros q Hq. destruct (decide (q = length (nodes_made st1))) as [->|Hne].
    + rewrite lookup_app_r by (rewrite length_alter; lia). by rewrite length_alter, Nat.sub_diag.
    + specialize (Hnew q ltac:(lia)). destruct (nodes_made st1 !! q) as [ndq|] eqn:Eq; [|done].
      rewrite (grown_old _ _ _ _ _ _ Eq), decide_False by lia. done.
  - intros q Hq Hne. rewrite <-(Hold q Hq Hne). rewrite lookup_app_l by (rewrite length_alter; lia).
    by rewrite list_lookup_alter_ne.
Qed.

Lemma add_children_spec st new i len p l :
  inv st → (i < len)%nat → Z.of_nat len <= nodes → leaves st (p :: l ++ new) →
  ∃ st' k, add_children el useAll fuel N nodes len (st, new) (i, p)
         = Ret (st', new ++ seq (length (nodes_made st)) k) ∧ inv st' ∧
    totalNodes st' = totalNodes st + Z.of_nat k ∧ leaves st' (l ++ new ++ seq (length (nodes_made st)) k) ∧
    children_at (nodes_made st') p = seq (length (nodes_made st)) k ∧
    (∀ q, (q < length (nodes_made st))%nat → q ≠ p → nodes_made st' !! q = nodes_made st !! q) ∧
    Z.of_nat k = Z.min N (share nodes st i len).
Proof using Hhosts Hfits Hfuel.
  intros Hi Hlt Hlen [Hd Hl]. destruct (share_spec el N nodes u0 Hfits st i len Hi Hlt Hlen) as [Hs1 Hs2].
  pose proof (Hl p ltac:(left)) as Hp. destruct (nodes_made st !! p) as [nd|] eqn:Ep; [|done]. injection Hp as Hnil.
  set (children := if N <? share nodes st i len then N else share nodes st i len).
  destruct Hfits as (HN & Hn & _). pose proof (inv_pos _ _ _ _ _ Hi) as Hpos.
  assert (0 <= children <= N ∧ children <= share nodes st i len) as (Hc & Hcs).
  { unfold children. destruct (Z.ltb_spec N (share nodes st i len)); lia. }
  destruct (add_child_loop st new p nd (Z.to_nat children) Hi Ep Hnil) as (st' & nd' & Hrun & Hi' & Ht & Hp' & Hk & _ & Hnew & Hold); [lia..|].
  exists st', (Z.to_nat children). split.
  { unfold add_children. cbn [fst]. fold (share nodes st i len). fold children. cbv zeta.
    rewrite make_pointers_Ret by lia. cbn [obind]. rewrite (index_Ret _ _ _ Ep). cbn [obind].
    rewrite (inv_host _ _ _ Hi Ep). exact Hrun. }
  do 2 (split; [done|]). apply NoDup_cons in Hd as [Hpl Hd]. split.
  2:{ split; [unfold children_at; by rewrite Hp'|]. split; [exact Hold|].
      unfold children. destruct (Z.ltb_spec N (share nodes st i len)); lia. }
  assert (∀ q, q ∈ l ++ new → (q < length (nodes_made st))%nat) as Hb.
  { intros q Hq. specialize (Hl q ltac:(by right)). destruct (nodes_made st !! q) eqn:E; [|done]. by eapply lookup_lt_Some. }
  rewrite app_assoc. split.
  - apply NoDup_app. split; [done|]. split; [|apply NoDup_seq]. intros q Hq%Hb Hs%elem_of_seq. lia.
  - intros q [Hq|Hs%elem_of_seq]%elem_of_app; [|apply Hnew; lia].
    rewrite (Hold q (Hb q Hq)) by (intros ->; done). apply Hl. by right.
Qed.

(** One level: as many nodes as fit below it, if so many are missing, and all that
    are missing otherwise. *)
Lemma level_spec len : Z.of_nat len <= nodes → ∀ l i st new,
  (i + length l = len)%nat → inv st → leaves st (l ++ new) →
  ∃ st' fresh, ofoldM (add_children el useAll fuel N nodes len) (st, new) (zip (seq i (length l)) l) = Ret (st', new ++ fresh) ∧
    inv st' ∧ leaves st' (new ++ fresh) ∧ fresh = l ≫= children_at (nodes_made st') ∧
    (∀ q, (q < length (nodes_made st))%nat → q ∉ l → nodes_made st' !! q = nodes_made st !! q) ∧
    (∀ q, q ∈ fresh → (length (nodes_made st) <= q)%nat) ∧
    totalNodes st' = totalNodes st + Z.of_nat (length fresh) ∧
    (N * Z.of_nat (length l) <= nodes - totalNodes st → Z.of_nat (length fresh) = N * Z.of_nat (length l)) ∧
    (nodes - totalNodes st <= N * Z.of_nat (length l) → Z.of_nat (length fresh) = nodes - totalNodes st).
Proof using Hhosts Hfits Hfuel.
  intros Hlen. induction l as [|p l IH]; intros i st new Hil Hi Hl; cbn [length seq zip zip_with ofoldM].
  { exists st, []. rewrite app_nil_r. split; [done|]. do 2 (split; [done|]). split; [done|]. split; [done|].
    split; [by intros q ?%elem_of_nil|]. pose proof (inv_pos _ _ _ _ _ Hi). cbn [length]. lia. }
  cbn [length] in Hil.
  destruct (add_children_spec st new i len p l Hi ltac:(lia) Hlen Hl) as (st1 & k & Hrun & Hi1 & Ht1 & Hl1 & Hch & Hold & Hk).
  destruct (share_fills el N nodes u0 Hfits st i len (Z.of_nat k) Hi ltac:(lia) Hlen Hk) as [Hfull Hrest].
  rewrite Hrun. cbn [obind].
  destruct (IH (Datatypes.S i) st1 (new ++ seq (length (nodes_made st)) k))
    as (st' & fresh & Hrun' & Hi' & Hl' & Hfr & Hold' & Hge & Ht' & Hf1 & Hf2); [lia|done|done|].
  assert (length (nodes_made st1) = length (nodes_made st) + k)%nat as Hl1n.
  { pose proof (inv_total _ _ _ _ _ Hi). pose proof (inv_total _ _ _ _ _ Hi1). lia. }
  assert (p < length (nodes_made st))%nat as Hp.
  { destruct Hl as [_ Hl]. specialize (Hl p ltac:(left)). destruct (nodes_made st !! p) eqn:E; [|done]. by eapply lookup_lt_Some. }
  destruct Hl as [[Hpl _]%NoDup_cons _]. rewrite elem_of_app in Hpl.
  exists st', (seq (length (nodes_made st)) k ++ fresh). rewrite app_assoc. split; [exact Hrun'|]. split; [done|].
  split; [done|]. split.
  { cbn [mbind list_bind]. fold (l ≫= children_at (nodes_made st')). rewrite <-Hfr, <-Hch. f_equal.
    unfold children_at. rewrite Hold' by (lia || tauto). done. }
  split.
  { intros q Hq Hn. rewrite not_elem_of_cons in Hn. rewrite Hold' by (lia || tauto). apply Hold; tauto. }
  split; [intros q [Hq%elem_of_seq|Hq%Hge]%elem_of_app; lia|].
  rewrite length_app, length_seq. cbn [length]. split; [lia|]. split; lia.
Qed.

(** The loop over the levels makes all nodes, and levels of these sizes. *)
Lemma levels_spec rounds : ∀ l st, inv st → leaves st l → l ≠ [] →
  (Z.to_nat (nodes - totalNodes st) < rounds)%nat →
  ∃ st', levels el useAll rounds fuel N nodes l st = Ret st' ∧ inv st' ∧ totalNodes st' = nodes ∧
    (∀ q, (q < length (nodes_made st))%nat → q ∉ l → nodes_made st' !! q = nodes_made st !! q) ∧
    ∀ k, Z.of_nat (length (descend (children_at (nodes_made st')) k l)) =
         level_size N (Z.of_nat (length l)) (nodes - totalNodes st) k.
Proof using Hhosts Hfits Hfuel.
  induction rounds as [|rounds IH]; intros l st Hi Hl Hne Hf; [lia|]. cbn [levels].
  pose proof (inv_pos _ _ _ _ _ Hi) as Hpos. destruct Hfits as (HN & Hn & Hm).
  destruct (Z.ltb_spec (totalNodes st) nodes) as [Hlt|Hge].
  2:{ exists st. split; [done|]. split; [done|]. split; [lia|]. split; [done|].
      replace (nodes - totalNodes st) with 0 by lia. intros [|k]; [done|]. cbn [descend level_size].
      assert (l ≫= children_at (nodes_made st) = []) as ->.
      { destruct Hl as [_ Hl]. clear -Hl. induction l as [|p l IHl]; [done|]. cbn. rewrite IHl by (intros q Hq; apply Hl; by right).
        unfold children_at. specialize (Hl p ltac:(left)). destruct (nodes_made st !! p); [|done]. cbn in *. by injection Hl as ->. }
      rewrite descend_nil, Z.min_r, Z.sub_0_r by nia. by rewrite level_size_done by lia. }
  pose proof (leaves_bound _ _ _ _ _ _ Hi Hl) as Hlen.
  rewrite wrapS_small by nia. rewrite make_pointers_Ret by nia. cbn [obind].
  destruct (level_spec (length l) ltac:(lia) l 0 st [] ltac:(done) Hi)
    as (st1 & fresh & Hrun & Hi1 & Hl1 & Hfr & Hold & Hge & Ht1 & Hf1 & Hf2); [by rewrite app_nil_r|].
  rewrite Hrun. cbn [obind app]. cbn [app] in Hl1.
  assert (Z.of_nat (length fresh) = Z.min (N * Z.of_nat (length l)) (nodes - totalNodes st)) as Hsize by lia.
  assert (0 < Z.of_nat (length l)) as Hll by (destruct l; [done|cbn; lia]).
  assert (fresh ≠ []) as Hfne by (intros ->; cbn in Hsize; nia).
  destruct (IH fresh st1 Hi1 Hl1 Hfne ltac:(lia)) as (st' & Hrun' & Hi' & Ht' & Hold' & Hd).
  assert (∀ q, (q < length (nodes_made st))%nat → nodes_made st' !! q = nodes_made st1 !! q) as Hkeep.
  { pose proof (inv_total _ _ _ _ _ Hi). pose proof (inv_total _ _ _ _ _ Hi1). intros q Hq. apply Hold'; [lia|].
    intros Hin%Hge. lia. }
  exists st'. split; [done|]. split; [done|]. split; [done|]. split.
  { intros q Hlq Hnl. rewrite Hkeep by done. by apply Hold. }
  intros [|k]; [done|]. cbn [descend level_size]. rewrite <-Hsize.
  replace (nodes - totalNodes st - Z.of_nat (length fresh)) with (nodes - totalNodes st1) by lia.
  rewrite <-Hd, Hfr. do 3 f_equal. apply bind_ext. intros q Hq. unfold children_at.
  rewrite Hkeep; [done|]. destruct Hl as [_ Hl]. specialize (Hl q Hq).
  destruct (nodes_made st !! q) eqn:E; [|done]. by eapply lookup_lt_Some.
Qed.
End loops.

(** ** From memory to the tree *)
Lemma bind_concat {A B} (f : A → list B) (k : list A) : k ≫= f = concat (f <$> k).
Proof. induction k as [|x k IH]; [done|]. cbn. by f_equal. Qed.

Section memory.
Context (l : list node).
Let len : nat := length l.
Context (Hchild : ∀ p nd c, l !! p = Some nd → c ∈ n_Children nd → (p < c < len)%nat).

(** The positions below [p], parents first. *)
Fixpoint below (fuel p : nat) : list nat :=
  match fuel with O => [] | Datatypes.S fuel => p :: (children_at l p ≫= below fuel) end.

Lemma children_at_bound p c : c ∈ children_at l p → (p < c < len)%nat.
Proof using Hchild.
  unfold children_at. destruct (l !! p) as [nd|] eqn:E; cbn; [by apply Hchild|by intros ?%elem_of_nil].
Qed.

Lemma below_fuel f g p : (len - p <= f)%nat → (len - p <= g)%nat → (p < len)%nat → below f p = below g p.
Proof using Hchild.
  revert g p. induction f as [|f IH]; intros [|g] p Hf Hg Hp; try lia. cbn. f_equal. apply bind_ext.
  intros c [Hc1 Hc2]%children_at_bound. apply IH; lia.
Qed.

Lemma below_unfold p : (p < len)%nat → below len p = p :: (children_at l p ≫= below len).
Proof using Hchild.
  intros Hp. transitivity (below (Datatypes.S len) p); [apply below_fuel; lia|]. done.
Qed.

Lemma all_children : seq 0 len ≫= children_at l = concat (n_Children <$> l).
Proof using.
  rewrite bind_concat. f_equal. apply list_eq. intros i. rewrite !list_lookup_fmap. unfold len.
  destruct (decide (i < length l)%nat) as [Hi|Hi].
  - rewrite lookup_seq_lt by done. unfold children_at. cbn. by destruct (lookup_in_range l i Hi) as [nd ->].
  - rewrite (lookup_ge_None_2 l), (lookup_ge_None_2 (seq 0 _)) by (rewrite ?length_seq; lia). done.
Qed.

(** What is below the nodes from [k] on that are no children of these. *)
Lemma below_from k : concat (n_Children <$> l) ≡ₚ seq 1 (len - 1) → (k <= len)%nat →
  ∃ R, R ++ (seq k (len - k) ≫= children_at l) ≡ₚ seq k (len - k) ∧ (R ≫= below len) ≡ₚ seq k (len - k).
Proof using Hchild.
  intros Hall Hk. remember (len - k)%nat as m eqn:Em. revert k Hk Em.
  induction m as [|m IH]; intros k Hk Em; [by exists []|].
  destruct (IH (Datatypes.S k)) as (R & HR & Hbelow); [lia..|].
  assert (NoDup (children_at l k ++ (seq (Datatypes.S k) m ≫= children_at l))) as Hnd.
  { assert (NoDup (seq 0 len ≫= children_at l)) as Hd.
    { rewrite all_children, Hall. apply NoDup_seq. }
    replace len with (k + Datatypes.S m)%nat in Hd by lia. rewrite seq_app, bind_app in Hd.
    apply NoDup_app in Hd as (_ & _ & Hd). done. }
  apply NoDup_app in Hnd as (Hnd1 & Hdis & _).
  assert (children_at l k ⊆+ R) as [R' HR']%submseteq_Permutation.
  { apply NoDup_submseteq; [done|]. intros c Hc. pose proof (children_at_bound _ _ Hc).
    assert (c ∈ R ++ (seq (Datatypes.S k) m ≫= children_at l)) as Hin.
    { rewrite HR. apply elem_of_seq. lia. }
    apply elem_of_app in Hin as [|Hin]; [done|]. by destruct (Hdis c Hc). }
  exists (k :: R'). cbn [seq mbind list_bind]. fold (seq (Datatypes.S k) m ≫= children_at l). split.
  - cbn. constructor. etrans; [|exact HR]. rewrite HR', !app_assoc. apply Permutation_app_tail, Permutation_app_comm.
  - cbn. fold (R' ≫= below len). rewrite below_unfold by lia. cbn. constructor.
    rewrite <-Hbelow, HR', bind_app. done.
Qed.

Lemma below_root : concat (n_Children <$> l) ≡ₚ seq 1 (len - 1) → (0 < len)%nat → below len 0 ≡ₚ seq 0 len.
Proof using Hchild.
  intros Hall Hl. destruct (below_from 0 Hall ltac:(lia)) as (R & HR & Hb). rewrite Nat.sub_0_r in *.
  rewrite all_children, Hall in HR. replace len with (Datatypes.S (len - 1)) in HR at 2 by lia. cbn [seq] in HR.
  rewrite (Permutation_app_comm R) in HR. rewrite Permutation_cons_append in HR. apply Permutation_app_inv_l in HR.
  apply Permutation_singleton_r in HR as ->. cbn in Hb. by rewrite app_nil_r in Hb.
Qed.

(** What a node of the tree says of its place in memory. *)
Definition shape_of (nd : node) : UUID * option ServerIdentity * Z * nat :=
  (n_ID nd, Some (n_ServerIdentity nd), n_RosterIndex nd, length (n_Children nd)).

Lemma tree_of_total fuel p : (len - p <= fuel)%nat → (p < len)%nat →
  ∃ t, tree_of fuel l p = Some t ∧
       (λ q, shape_of <$> l !! q) <$> below len p = Some <$> (node_shape <$> preorder t).
Proof using Hchild.
  revert p. induction fuel as [|fuel IH]; intros p Hf Hp; [lia|].
  destruct (lookup_in_range l p Hp) as [nd Hnd]. cbn [tree_of]. rewrite Hnd. cbn [mbind option_bind].
  assert (∀ ks, (∀ c, c ∈ ks → c ∈ n_Children nd) → ∃ cs, mapM (tree_of fuel l) ks = Some cs ∧ length cs = length ks ∧
    (λ q, shape_of <$> l !! q) <$> (ks ≫= below len) = Some <$> (node_shape <$> (cs ≫= preorder))) as H.
  { induction ks as [|c ks IHks]; intros Hks; [by exists []|].
    destruct (Hchild p nd c Hnd (Hks c ltac:(by left))) as [Hc1 Hc2].
    destruct (IH c) as (t & Ht & Hts); [lia..|].
    destruct IHks as (cs & Hcs & Hlen & Hcss); [intros x Hx; apply Hks; by right|].
    exists (t :: cs). cbn [mapM mbind option_bind]. rewrite Ht. cbn [mbind option_bind]. rewrite Hcs. cbn [mbind option_bind].
    split; [done|]. split; [cbn; by rewrite Hlen|]. cbn [mbind list_bind]. rewrite !fmap_app, Hts. f_equal. exact Hcss. }
  destruct (H (n_Children nd) ltac:(done)) as (cs & -> & Hlen & Hcs). cbn [mbind option_bind].
  eexists. split; [done|]. rewrite below_unfold by done. unfold children_at. rewrite Hnd. cbn [fmap option_fmap option_map default].
  rewrite preorder_unfold. cbn [tn_Children]. rewrite !fmap_cons, Hnd. cbn [fmap option_fmap option_map]. f_equal; [|exact Hcs].
  unfold node_shape, node_data, shape_of. cbn. by rewrite Hlen.
Qed.

Lemma tree_of_nodes fuel p t m : tree_of fuel l p = Some t → m ∈ preorder t → ∃ f q, tree_of f l q = Some m.
Proof using.
  revert p t m. induction fuel as [|fuel IH]; intros p t m Ht Hm; [done|]. pose proof Ht as Ht0. cbn [tree_of] in Ht.
  destruct (l !! p) as [nd|]; [|done]. cbn [mbind option_bind] in Ht.
  destruct (mapM (tree_of fuel l) (n_Children nd)) as [cs|] eqn:Hcs; [|done]. injection Ht as <-.
  rewrite preorder_unfold in Hm. apply elem_of_cons in Hm as [->|(c & Hc & Hin)%list_elem_of_bind]; [eauto|].
  cbn [tn_Children] in Hin. apply mapM_Some in Hcs. eapply Forall2_Forall_r in Hcs.
  2:{ apply Forall_forall. intros x _ y. exact (λ H, ex_intro (λ q, tree_of fuel l q = Some y) x H). }
  rewrite Forall_forall in Hcs. destruct (Hcs c Hin) as [q Hq]. by eapply IH.
Qed.

Lemma tree_of_inv fuel p t : tree_of fuel l p = Some t →
  ∃ nd, l !! p = Some nd ∧ tn_ServerIdentity t = Some (n_ServerIdentity nd) ∧
        ∀ c, c ∈ tn_Children t → ∃ q ndc, q ∈ n_Children nd ∧ l !! q = Some ndc ∧
                                  tn_ServerIdentity c = Some (n_ServerIdentity ndc).
Proof using.
  assert (∀ f q c, tree_of f l q = Some c → ∃ nd, l !! q = Some nd ∧ tn_ServerIdentity c = Some (n_ServerIdentity nd)) as Hown.
  { intros [|f] q c Hc; [done|]. cbn [tree_of] in Hc. destruct (l !! q) as [nd|]; [|done]. cbn [mbind option_bind] in Hc.
    destruct (mapM (tree_of f l) (n_Children nd)) as [cs|]; [|done]. injection Hc as <-. eauto. }
  intros Ht. destruct (Hown _ _ _ Ht) as (nd & Hnd & Hs). exists nd. do 2 (split; [done|]).
  destruct fuel as [|fuel]; [done|]. cbn [tree_of] in Ht. rewrite Hnd in Ht. cbn [mbind option_bind] in Ht.
  destruct (mapM (tree_of fuel l) (n_Children nd)) as [cs|] eqn:Hcs; [|done]. injection Ht as <-. cbn [tn_Children].
  intros c Hc. apply mapM_Some in Hcs. apply list_elem_of_lookup in Hc as [i Hi].
  destruct (Forall2_lookup_r _ _ _ _ _ Hcs Hi) as (q & Hq & Htc).
  destruct (Hown _ _ _ Htc) as (ndc & Hndc & Hsc). exists q, ndc. split; [by eapply list_elem_of_lookup_2|done].
Qed.
End memory.

(** The nodes of the tree are those of the memory. *)
Definition read {A} (l : list A) (qs : list nat) : list A := omap (λ q : nat, (l !! q : option A)) qs.

Lemma lookup_all {A} (l : list A) : read l (seq 0 (length l)) = l.
Proof.
  assert (∀ k pre : list A, read (pre ++ k) (seq (length pre) (length k)) = k) as H; [|exact (H l [])].
  induction k as [|x k IH]; intros pre; [done|]. cbn [length seq read omap list_omap].
  rewrite list_lookup_middle by done. f_equal. specialize (IH (pre ++ [x])).
  rewrite length_app, <-app_assoc in IH. cbn in IH. by rewrite Nat.add_1_r in IH.
Qed.

Lemma omap_shapes {A B} (f : A → B) (l : list A) (qs : list nat) xs :
  (λ q, f <$> l !! q) <$> qs = Some <$> xs → f <$> read l qs = xs.
Proof.
  unfold read. revert xs. induction qs as [|q qs IH]; intros [|x xs]; cbn; try done.
  intros [= Hq Hqs]. destruct (l !! q) as [a|]; [|done]. cbn in *. f_equal; [by injection Hq|by apply IH].
Qed.

Lemma memory_tree (l : list node) :
  (∀ p nd c, l !! p = Some nd → c ∈ n_Children nd → (p < c < length l)%nat) →
  concat (n_Children <$> l) ≡ₚ seq 1 (length l - 1) → (0 < length l)%nat →
  ∃ t nds, tree_of (length l) l 0 = Some t ∧ nds ≡ₚ l ∧ node_shape <$> preorder t = shape_of <$> nds.
Proof.
  intros Hc Hall Hl. destruct (tree_of_total l Hc (length l) 0) as (t & Ht & Hs); [lia..|].
  exists t, (read l (below l (length l) 0)). split; [done|]. split; [|symmetry; by apply omap_shapes].
  rewrite <-(lookup_all l) at 4. apply omap_Permutation. by apply below_root.
Qed.

Lemma preorder_strip t : preorder (strip t) = strip <$> preorder t.
Proof.
  induction t as [id si i cs agg IH] using TreeNode_ind. cbn. f_equal.
  induction IH as [|c cs Hc _ IHcs]; [done|]. cbn. by rewrite fmap_app, Hc, IHcs.
Qed.

(** A child is on another host than its parent whenever the roster has a server
    on another host. *)
Definition hosts_apart (el : list ServerIdentity) (root : TreeNode) : Prop :=
  ∀ m c si sc, m ∈ preorder root → c ∈ tn_Children m →
    tn_ServerIdentity m = Some si → tn_ServerIdentity c = Some sc →
    (∃ e, e ∈ el ∧ host_of e ≠ host_of si) → host_of sc ≠ host_of si.

Lemma strip_server t : tn_ServerIdentity (strip t) = tn_ServerIdentity t.
Proof. by destruct t. Qed.
Lemma strip_children t : tn_Children (strip t) = strip <$> tn_Children t.
Proof. by destruct t. Qed.

Lemma hosts_apart_strip el t : hosts_apart el (strip t) ↔ hosts_apart el t.
Proof.
  split; intros H m c si sc Hm Hc.
  - intros Hs Hsc. apply (H (strip m) (strip c)); rewrite ?preorder_strip, ?strip_server, ?strip_children; try done;
      by apply list_elem_of_fmap_2.
  - rewrite preorder_strip in Hm. apply list_elem_of_fmap in Hm as (m' & -> & Hm).
    rewrite strip_children in Hc. apply list_elem_of_fmap in Hc as (c' & -> & Hc).
    rewrite !strip_server. by apply H.
Qed.

Lemma memory_hosts_apart el (l : list node) fuel p t :
  (∀ q nd c ndc, l !! q = Some nd → c ∈ n_Children nd → l !! c = Some ndc →
     (∃ j, 0 <= j < ilLen el ∧ hostZ el j ≠ host_of (n_ServerIdentity nd)) →
     host_of (n_ServerIdentity ndc) ≠ host_of (n_ServerIdentity nd)) →
  tree_of fuel l p = Some t → hosts_apart el t.
Proof.
  intros H Ht m c si sc Hm Hc Hsi Hsc (e & [i He]%list_elem_of_lookup & Hne).
  destruct (tree_of_nodes l fuel p t m Ht Hm) as (f & q & Hq).
  destruct (tree_of_inv l f q m Hq) as (nd & Hnd & Hs & Hch).
  destruct (Hch c Hc) as (qc & ndc & Hqc & Hndc & Hsc').
  rewrite Hs in Hsi. rewrite Hsc' in Hsc. simplify_eq. eapply H; [done..|].
  exists (Z.of_nat i). split; [apply lookup_lt_Some in He; unfold ilLen; lia|].
  unfold hostZ. by rewrite Nat2Z.id, He.
Qed.

(** ** The generated tree *)
Section result.
Context (el : list ServerIdentity) (N nodes : Z) (u : nat).
Context (Hhosts : hosts_ok el) (Hfits : fits N nodes) (Hne : el ≠ []).

(** The state before the loop. *)
Definition start (e : ServerIdentity) : gen :=
  {| nodes_made := [NewNode 0 e u]; used := <[0%nat := true]> (replicate (length el) false);
     elIndex := Z.rem 1 (ilLen el); totalNodes := 1; uuids := Datatypes.S u |}.

Lemma start_inv e : el !! 0%nat = Some e → inv el N nodes u (start e).
Proof using Hfits.
  intros He. pose proof (lookup_lt_Some _ _ _ He) as Hl. destruct Hfits as (HN & Hn & _).
  assert (∀ p (nd : node), [NewNode 0 e u] !! p = Some nd → p = 0%nat ∧ nd = NewNode 0 e u) as Hsingle.
  { by intros p nd [-> ->]%list_lookup_singleton_Some. }
  split; cbn [start nodes_made used elIndex totalNodes uuids].
  - by rewrite length_insert, length_replicate.
  - unfold ilLen. apply Z.rem_bound_pos; lia.
  - done.
  - lia.
  - cbn. lia.
  - intros p nd [-> ->]%Hsingle. cbn [NewNode n_RosterIndex n_ServerIdentity n_ID]. rewrite Nat.add_0_r.
    split; [lia|]. split; [done|]. split; [|done]. apply list_lookup_insert_eq. rewrite length_replicate. lia.
  - intros [|i] Hi; [by left|]. rewrite list_lookup_insert_ne in Hi by done.
    apply lookup_replicate in Hi as [Hi _]. done.
  - intros _. apply NoDup_singleton.
  - done.
  - intros p nd c [-> ->]%Hsingle Hc. by apply elem_of_nil in Hc.
  - intros p nd [-> ->]%Hsingle. cbn. lia.
  - intros p nd c ndc _ [-> ->]%Hsingle Hc. by apply elem_of_nil in Hc.
Qed.

(** Every server used once: the tree has the servers of the roster. *)
Lemma all_used st : inv el N nodes u st → ilLen el = nodes → totalNodes st = nodes →
  Some ∘ n_ServerIdentity <$> nodes_made st ≡ₚ Some <$> el.
Proof using.
  intros Hi Hall Ht. rewrite (inv_total _ _ _ _ _ Hi) in Ht. unfold ilLen in Hall.
  assert (n_RosterIndex <$> nodes_made st ≡ₚ Z.of_nat <$> seq 0 (length el)) as Hp.
  { apply submseteq_length_Permutation; [|rewrite !length_fmap, length_seq; lia].
    apply NoDup_submseteq; [apply (inv_distinct _ _ _ _ _ Hi), Z.eqb_eq; unfold ilLen; lia|].
    intros x (nd & -> & [p Hp]%list_elem_of_lookup)%list_elem_of_fmap.
    destruct (inv_node _ _ _ _ _ Hi _ _ Hp) as (Hx & Hl & _). apply lookup_lt_Some in Hl.
    apply list_elem_of_fmap. exists (Z.to_nat (n_RosterIndex nd)). split; [lia|]. apply elem_of_seq. lia. }
  transitivity ((λ z, el !! Z.to_nat z) <$> (n_RosterIndex <$> nodes_made st)).
  { rewrite <-list_fmap_compose. apply reflexive_eq, list_fmap_ext. intros p nd Hp'. cbn.
    by destruct (inv_node _ _ _ _ _ Hi _ _ Hp') as (_ & -> & _). }
  rewrite Hp, <-list_fmap_compose. apply reflexive_eq, list_eq. intros i. rewrite !list_lookup_fmap. cbn.
  destruct (decide (i < length el)%nat) as [Hlt|Hge].
  - rewrite lookup_seq_lt by done. cbn. rewrite Nat2Z.id. by destruct (lookup_in_range el i Hlt) as [e' ->].
  - rewrite (lookup_ge_None_2 (seq _ _)), (lookup_ge_None_2 el) by (rewrite ?length_seq; lia). done.
Qed.
End result.

Lemma hosts_apart_result el N nodes u st t t' p fuel :
  inv el N nodes u st → (ilLen el =? nodes) = false → tree_of fuel (nodes_made st) 0 = Some t →
  computeSubtreeAggregate t = Ret (t', p) → hosts_apart el t'.
Proof.
  intros Hi Hu Ht Hc%compute_result_strip. apply hosts_apart_strip. rewrite Hc. apply hosts_apart_strip.
  eapply memory_hosts_apart; [|exact Ht]. intros q nd c ndc. by apply (inv_hosts _ _ _ _ _ Hi).
Qed.

(** Each node refers to its server in the roster and has at most [N] children. *)
Definition node_ok (el : list ServerIdentity) (N : Z) (m : TreeNode) : Prop :=
  Z.of_nat (length (tn_Children m)) <= N ∧ 0 <= tn_RosterIndex m ∧
  ∃ si, tn_ServerIdentity m = Some si ∧ el !! Z.to_nat (tn_RosterIndex m) = Some si.

Lemma shapes_ok el N nodes u st (l : list TreeNode) nds :
  inv el N nodes u st → nds ≡ₚ nodes_made st → node_shape <$> l = shape_of <$> nds → Forall (node_ok el N) l.
Proof.
  intros Hi Hp Hs. apply Forall_forall. intros m [i Hm]%list_elem_of_lookup.
  apply (f_equal (λ k, k !! i)) in Hs. rewrite !list_lookup_fmap, Hm in Hs. cbn in Hs.
  destruct (nds !! i) as [nd|] eqn:Hnd; [|done]. injection Hs as _ Hsi Hix Hlen.
  assert (nd ∈ nodes_made st) as [q Hq]%list_elem_of_lookup by (rewrite <-Hp; by eapply list_elem_of_lookup_2).
  destruct (inv_node _ _ _ _ _ Hi _ _ Hq) as (H1 & H2 & _ & _). unfold node_ok. rewrite Hsi, Hix, Hlen.
  split; [by eapply (inv_width _ _ _ _ _ Hi)|]. split; [done|]. eauto.
Qed.

Lemma shapes_ids el N nodes u st (l : list TreeNode) nds :
  inv el N nodes u st → nds ≡ₚ nodes_made st → node_shape <$> l = shape_of <$> nds → Forall (λ m, ∃ q, tn_ID m = NewV4 q) l.
Proof.
  intros Hi Hp Hs. apply Forall_forall. intros m [i Hm]%list_elem_of_lookup.
  apply (f_equal (λ k, k !! i)) in Hs. rewrite !list_lookup_fmap, Hm in Hs. cbn in Hs.
  destruct (nds !! i) as [nd|] eqn:Hnd; [|done]. injection Hs as Hid _ _ _.
  assert (nd ∈ nodes_made st) as [q Hq]%list_elem_of_lookup by (rewrite <-Hp; by eapply list_elem_of_lookup_2).
  destruct (inv_node _ _ _ _ _ Hi _ _ Hq) as (_ & _ & _ & H4). rewrite Hid, H4. by eexists.
Qed.

(** *** The levels of the tree *)

(** The nodes [k] levels below the root. *)
Fixpoint level (k : nat) (t : TreeNode) : list TreeNode :=
  match k with O => [t] | Datatypes.S k => tn_Children t ≫= level k end.

Lemma bind_bind {A B C} (f : A → list B) (g : B → list C) l : (l ≫= f) ≫= g = l ≫= λ a, f a ≫= g.
Proof. induction l as [|a l IH]; [done|]. cbn. by rewrite bind_app, IH. Qed.

Lemma descend_bind {A} (f : A → list A) k : ∀ ps, descend f k ps = ps ≫= λ p, descend f k [p].
Proof.
  induction k as [|k IH]; intros ps; cbn [descend].
  - induction ps as [|p ps IHps]; [done|]. cbn. by f_equal.
  - rewrite IH, bind_bind. apply bind_ext. intros p _. cbn. by rewrite app_nil_r, <-IH.
Qed.

Lemma tree_of_level (l : list node) k : ∀ fuel p t,
  tree_of fuel l p = Some t → length (level k t) = length (descend (children_at l) k [p]).
Proof.
  induction k as [|k IH]; intros fuel p t Ht; [done|]. destruct fuel as [|fuel]; [done|].
  cbn [tree_of] in Ht. destruct (l !! p) as [nd|] eqn:Hp; [|done]. cbn [mbind option_bind] in Ht.
  destruct (mapM (tree_of fuel l) (n_Children nd)) as [cs|] eqn:Hcs; [|done]. injection Ht as <-.
  apply mapM_Some in Hcs. cbn [level tn_Children descend mbind list_bind]. rewrite app_nil_r.
  unfold children_at at 2. rewrite Hp. cbn [fmap option_fmap option_map default from_option id]. rewrite descend_bind.
  induction Hcs as [|q c qs cs Hc _ IHcs]; [done|]. cbn [mbind list_bind].
  rewrite !length_app. f_equal; [by apply (IH fuel)|exact IHcs].
Qed.

Lemma level_strip k : ∀ t, level k (strip t) = strip <$> level k t.
Proof.
  induction k as [|k IH]; intros t; [done|]. cbn [level]. rewrite strip_children.
  induction (tn_Children t) as [|c cs IHcs]; [done|]. cbn. rewrite fmap_app, IH. f_equal. exact IHcs.
Qed.

(** The nodes above level [k] of a full tree, and the size of the level. *)
Fixpoint nodes_above (N : Z) (k : nat) : Z :=
  match k with O => 0 | Datatypes.S k => nodes_above N k + N ^ Z.of_nat k end.
Definition level_width (N nodes : Z) (k : nat) : Z := Z.min (N ^ Z.of_nat k) (Z.max 0 (nodes - nodes_above N k)).

Lemma level_size_width N nodes : 1 <= N → ∀ k j,
  level_size N (level_width N nodes j) (Z.max 0 (nodes - nodes_above N (Datatypes.S j))) k = level_width N nodes (j + k).
Proof.
  intros HN. induction k as [|k IH]; intros j; [by rewrite Nat.add_0_r|].
  rewrite <-Nat.add_succ_comm, <-IH. cbn [level_size nodes_above]. unfold level_width. cbn [nodes_above].
  assert (N ^ Z.of_nat (Datatypes.S j) = N * N ^ Z.of_nat j) as ->.
  { rewrite Nat2Z.inj_succ, Z.pow_succ_r by lia. done. }
  assert (1 <= N ^ Z.of_nat j) as Hpow by (assert (0 < N ^ Z.of_nat j) by (apply Z.pow_pos_nonneg; lia); lia).
  set (x := N ^ Z.of_nat j) in *. set (r := nodes - nodes_above N j) in *.
  replace (nodes - (nodes_above N j + x)) with (r - x) by lia.
  replace (nodes - (nodes_above N j + x + N * x)) with (r - x - N * x) by lia.
  assert (x <= N * x) by nia.
  destruct (Z.le_gt_cases x r) as [Hr|Hr].
  - rewrite (Z.max_r 0 r), (Z.max_r 0 (r - x)), (Z.min_l x r) by lia. f_equal; lia.
  - rewrite (Z.max_l 0 (r - x)), (Z.max_l 0 (r - x - N * x)) by lia.
    rewrite (Z.min_r (N * x) 0), (Z.min_r (N * Z.min _ _) 0) by nia. done.
Qed.

(** A tree that is generated: of its roster, with its aggregates, and its shape. *)
Lemma big_tree_generated {SL : SuiteLaws S} fuel (el : Roster) N nodes u :
  fits N nodes → hosts_ok (Rosters.List el) → Rosters.List el ≠ [] →
  (2 * length (Rosters.List el) < fuel)%nat → (Z.to_nat nodes < fuel)%nat →
  ∃ t root, GenerateBigNaryTree fuel el N nodes u = Ret (t, (u + Z.to_nat nodes)%nat) ∧
    t_Root t = Some root ∧ t_Roster t = Some el ∧ (∃ p, computeSubtreeAggregate root = Ret (root, p)) ∧ Size t = Ret nodes ∧
    Forall (node_ok (Rosters.List el) N) (preorder root) ∧
    (∀ k, Z.of_nat (length (level k root)) = level_width N nodes k) ∧
    Forall (λ m, ∃ q, tn_ID m = NewV4 q) (preorder root) ∧ (∃ url, t_ID t = NewV5 NamespaceURL_uuid url) ∧
    (Z.of_nat (length (Rosters.List el)) = nodes →
       tn_ServerIdentity <$> preorder root ≡ₚ Some <$> Rosters.List el) ∧
    (Z.of_nat (length (Rosters.List el)) ≠ nodes → hosts_apart (Rosters.List el) root).
Proof.
  intros Hfits Hhosts Hne Hf1 Hf2. destruct (lookup_in_range (Rosters.List el) 0) as [e He].
  { destruct (Rosters.List el); [done|cbn; lia]. }
  pose proof (start_inv _ N nodes u Hfits e He) as Hi0. pose proof (lookup_lt_Some _ _ _ He) as Hl.
  destruct (levels_spec (Rosters.List el) N nodes u fuel Hhosts Hfits Hf1 fuel [0%nat] (start (Rosters.List el) u e))
    as (st & Hrun & Hi & Ht & _ & Hlevels); [done| |done|cbn; lia|].
  { split; [apply NoDup_singleton|]. by intros p ->%list_elem_of_singleton. }
  pose proof (inv_total _ _ _ _ _ Hi) as Htot. pose proof (inv_pos _ _ _ _ _ Hi) as Hpos.
  destruct (memory_tree (nodes_made st)) as (root & nds & Hroot & Hnds & Hs); [|apply Hi|lia|].
  { intros p nd c Hp Hc. pose proof (inv_child_bound _ _ _ _ _ _ _ _ Hi Hp Hc).
    pose proof (inv_later _ _ _ _ _ Hi _ _ _ Hp Hc). lia. }
  assert (servers root = Some <$> (n_ServerIdentity <$> nds)) as Hsv.
  { unfold servers. apply (f_equal (fmap (λ x, x.1.1.2))) in Hs. rewrite <-!list_fmap_compose in Hs.
    rewrite <-list_fmap_compose. exact Hs. }
  destruct (compute_sum root _ Hsv) as (root' & p & Hcomp & _ & _). pose proof (compute_shape _ _ _ Hcomp) as Hshape.
  eexists _, root'. split.
  { unfold GenerateBigNaryTree. rewrite (index_Ret _ _ _ He : index _ 0 = _). cbn [obind].
    rewrite set_index_Ret by (rewrite length_replicate; lia). cbn [obind].
    change (Z.to_nat 0) with 0%nat. fold (ilLen (Rosters.List el)). fold (start (Rosters.List el) u e).
    rewrite Hrun. cbn [obind]. rewrite Hroot. unfold NewTree. cbn [deref obind]. rewrite Hcomp. cbn [obind].
    rewrite (inv_uuids _ _ _ _ _ Hi). do 2 f_equal. lia. }
  split; [done|]. split; [done|]. split; [exists p; by eapply compute_idempotent|]. split.
  { erewrite Size_preorder by done. f_equal. rewrite <-(length_fmap node_shape), Hshape, Hs, length_fmap, Hnds. lia. }
  split; [eapply shapes_ok; [done..|by rewrite Hshape]|]. split; [|split; [|split; [by eexists|split]]].
  - intros k. rewrite <-(length_fmap strip), <-level_strip, (compute_result_strip _ _ _ Hcomp), level_strip, length_fmap.
    rewrite (tree_of_level _ k _ _ _ Hroot), Hlevels. destruct Hfits as (HN & Hn & _).
    pose proof (level_size_width N nodes HN k 0) as Hw. change (0 + k)%nat with k in Hw.
    rewrite <-Hw. cbn [length start totalNodes nodes_above]. unfold level_width. cbn [nodes_above].
    rewrite Z.pow_0_r, Z.max_r, Z.min_l, Z.max_r by lia. done.
  - eapply shapes_ids; [done..|by rewrite Hshape].
  - intros Hall. assert (servers root' = servers root) as Heq.
    { unfold servers. apply (f_equal (fmap (λ x : _ * nat, x.1.1.2))) in Hshape. by rewrite <-!list_fmap_compose in Hshape. }
    unfold servers at 1 in Heq. rewrite Heq, Hsv, Hnds, <-list_fmap_compose. by eapply all_used.
  - intros Hdiff. eapply hosts_apart_result; [done|by apply Z.eqb_neq|done..].
Qed.

(** C36: [GenerateBigNaryTree] returns, for a width of at least one and numbers that
    fit into memory, a tree with exactly the requested number of nodes, each on a
    server of the roster and with at most [N] children; its levels are filled from
    the root on: level [k] has [N ^ k] nodes as long as there are so many, and the
    one after them those that are left; when there are as many nodes as servers
    every server is used exactly once, otherwise no child is on the host of its
    parent unless the whole roster is. *)
Theorem big_tree_correct {SL : SuiteLaws S} fuel (el : Roster) N nodes u :
  fits N nodes → hosts_ok (Rosters.List el) → Rosters.List el ≠ [] →
  (2 * length (Rosters.List el) < fuel)%nat → (Z.to_nat nodes < fuel)%nat →
  ∃ t root, GenerateBigNaryTree fuel el N nodes u = Ret (t, (u + Z.to_nat nodes)%nat) ∧
    t_Root t = Some root ∧ Size t = Ret nodes ∧
    Forall (node_ok (Rosters.List el) N) (preorder root) ∧
    (∀ k, Z.of_nat (length (level k root)) = Z.min (N ^ Z.of_nat k) (Z.max 0 (nodes - nodes_above N k))) ∧
    (Z.of_nat (length (Rosters.List el)) = nodes →
       tn_ServerIdentity <$> preorder root ≡ₚ Some <$> Rosters.List el) ∧
    (Z.of_nat (length (Rosters.List el)) ≠ nodes → hosts_apart (Rosters.List el) root).
Proof.
  intros H1 H2 H3 H4 H5. destruct (big_tree_generated fuel el N nodes u H1 H2 H3 H4 H5)
    as (t & root & Ht & Hr & _ & _ & Hs & Hok & Hlv & _ & _ & H). by exists t, root.
Qed.

(** The search of levels without children goes on for ever; negative widths and
    empty rosters panic. *)
Lemma levels_empty el useAll rounds fuel nodes st : totalNodes st < nodes →
  levels el useAll rounds fuel 0 nodes [] st = OutOfFuel.
Proof.
  intros Hlt. induction rounds as [|rounds IH]; [done|]. cbn [levels].
  rewrite (proj2 (Z.ltb_lt _ _) Hlt). cbn. exact IH.
Qed.

Lemma add_children_zero el useAll fuel nodes e u us i :
  is_ret (Addresses.Host lower_unicode (Network.Address e)) = true → 1 < nodes < 2 ^ 31 →
  let st := {| nodes_made := [NewNode 0 e u]; used := us; elIndex := i; totalNodes := 1; uuids := Datatypes.S u |} in
  add_children el useAll fuel 0 nodes 1 (st, []) (0%nat, 0%nat) = Ret (st, []).
Proof.
  intros He Hn st. unfold add_children. cbn [fst st totalNodes nodes_made]. change (Z.of_nat 0) with 0.
  change (Z.of_nat 1) with 1. rewrite (wrapS_small 64 (nodes - 1)), wrapS_small, Z.quot_1_r by lia.
  rewrite (proj2 (Z.ltb_lt 0 _)), make_pointers_Ret, index_0 by lia. cbn [obind NewNode n_ServerIdentity].
  by destruct (Addresses.Host _ _).
Qed.

(** [GenerateBigNaryTree] with no children per node does not return when more
    than the root is asked for. *)
Theorem big_tree_width_zero fuel (el : Roster) nodes u :
  1 < nodes < 2 ^ 31 → hosts_ok (Rosters.List el) → Rosters.List el ≠ [] →
  GenerateBigNaryTree fuel el 0 nodes u = OutOfFuel.
Proof.
  intros Hn Hhosts Hne. destruct (Rosters.List el) as [|e l] eqn:El; [done|]. apply Forall_cons in Hhosts as [He _].
  unfold GenerateBigNaryTree. rewrite El, index_0. cbn [obind].
  rewrite set_index_Ret by (rewrite length_replicate; cbn; lia). cbn [obind].
  destruct fuel as [|fuel]; [done|]. cbn [levels totalNodes].
  rewrite (proj2 (Z.ltb_lt 1 nodes)) by lia. cbn [length]. rewrite Z.mul_0_r, wrapS_small, make_pointers_Ret by lia.
  cbn [obind zip zip_with seq ofoldM]. rewrite add_children_zero by done. cbn [obind].
  by rewrite levels_empty by (cbn; lia).
Qed.

Lemma random_server_in_roster el r : 0 <= r →
  match RandomServerIdentity el r with
  | Ret (Some e) => e ∈ Rosters.List el
  | Ret None => Rosters.List el = []
  | _ => False
  end.
Proof.
  intros Hr. unfold RandomServerIdentity. case_decide as E; [by destruct (Rosters.List el)|].
  set (len := Z.of_nat (length (Rosters.List el))).
  assert (0 <= Z.rem r len < len) as Hb by (apply Z.rem_bound_pos; unfold len; lia).
  destruct (lookup_in_range (Rosters.List el) (Z.to_nat (Z.rem r len))) as [e He]; [unfold len in *; lia|].
  unfold index. destruct (Z.ltb_spec (Z.rem r len) 0); [lia|]. rewrite He. cbn. by eapply list_elem_of_lookup_2.
Qed.
End big.
End BigTree.

(** ** Examples and witnesses *)
Module TreeGenExample.
Import ZSuite TreeExample Trees BigTree.

(** Two servers on one host, one on another. *)
Definition at_host (k : Z) (a : string) : ServerIdentity := NewServerIdentity (S := Zsuite) k (str a).
Definition roster3 : Roster :=
  Rosters.NewRoster [at_host 3 "tcp://10.0.0.1:2000"; at_host 5 "tcp://10.0.0.1:2002"; at_host 7 "tcp://10.0.0.2:2000"] 0.

Definition layout (t : outcome error (Tree * nat)) : outcome error (list (Z * nat)) :=
  let! (t, _) := t in let! l := List t in Ret ((λ n, (tn_RosterIndex n, length (tn_Children n))) <$> l).

(** With every server used once the last one shares its host with the parent
    it is left for; with more nodes than servers no child does. *)
Example big_layouts :
  layout (GenerateBigNaryTree (λ s, s) 20 roster3 2 3 1) = Ret [(0, 2%nat); (2, 0%nat); (1, 0%nat)] ∧
  layout (GenerateBigNaryTree (λ s, s) 20 roster3 2 5 1)
  = Ret [(0, 2%nat); (2, 1%nat); (0, 0%nat); (2, 1%nat); (1, 0%nat)] ∧
  layout (GenerateBigNaryTree (λ s, s) 20 roster3 1 1 1) = Ret [(0, 0%nat)] ∧
  layout (GenerateBigNaryTree (λ s, s) 20 roster3 (-1) 3 1) = Panic "makeslice: len out of range" ∧
  layout (GenerateBigNaryTree (λ s, s) 20 (Rosters.NewRoster [] 0) 2 3 1) = Panic "index out of range".
Proof. split_and!; by_vm. Qed.

Lemma big_tree_correct_witness :
  ∃ t root, GenerateBigNaryTree (λ s, s) 20 roster3 2 5 1 = Ret (t, 6%nat) ∧ t_Root t = Some root ∧
    Size t = Ret 5 ∧ (λ k, Z.of_nat (length (level k root))) <$> [0; 1; 2; 3]%nat = [1; 2; 2; 0] ∧
    hosts_apart (λ s, s) (Rosters.List roster3) root.
Proof.
  destruct (big_tree_correct (λ s, s) 20 roster3 2 5 1) as (t & root & Ht & Hr & Hs & _ & Hl & _ & Ha);
    [unfold fits; lia|repeat constructor; by_vm|done|cbn; lia|cbn; lia|].
  exists t, root. do 3 (split; [done|]). split; [cbn [fmap list_fmap]; by rewrite !Hl|]. by apply Ha.
Defined.

Lemma big_tree_width_zero_witness :
  GenerateBigNaryTree (λ s, s) 20 roster3 0 3 1 = OutOfFuel.
Proof. apply big_tree_width_zero; [lia|repeat constructor; by_vm|done]. Defined.
End TreeGenExample.
