(* ===== verification/Keys.v ===== *)
(** * Texts of keys ([imported/onet/crypto/key.go], the [Toml] types of [network/struct.go] and [tree.go])

    Points and scalars as hexadecimal and base64 texts.  [Readers], [Hex] and
    [Base64] are the functions of [io], [encoding/hex] and [encoding/base64] the
    code calls, the streaming encoder and decoder with their buffers; a reader is
    the pieces in which its bytes arrive, a writer what it took.  [Keys] is
    [key.go], [Toml] the text form of servers and rosters. *)
From S2P Require Import Prelude Suite Tree.
Local Open Scope Z_scope.

Lemma lor_shift a b n : 0 <= n → 0 <= b < 2 ^ n → Z.lor (Z.shiftl a n) b = a * 2 ^ n + b.
Proof.
  intros Hn Hb. rewrite <-Z.shiftl_mul_pow2, <-Z.add_lor_land by done.
  enough (Z.land (Z.shiftl a n) b = 0) as ->; [lia|].
  apply Z.bits_inj'. intros k Hk. rewrite Z.land_spec, Z.bits_0, Z.shiftl_spec by done.
  destruct (Z.ltb_spec k n); [by rewrite Z.testbit_neg_r by lia|].
  rewrite <-(Z.mod_small b (2 ^ n)), Z.mod_pow2_bits_high by lia. apply andb_false_r.
Qed.

(** ** [io] *)
Module Readers.

(** What a reader still gives: one call of [Read] gets at most one piece. *)
Abbreviation reader := (list bytes).
Definition EOF : error := "EOF".
Definition ErrUnexpectedEOF : error := "unexpected EOF".

Definition Read (r : reader) (n : nat) : bytes * option error * reader :=
  match r with
  | [] => ([], Some EOF, [])
  | p :: r => (take n p, None, if decide (drop n p = []) then r else drop n p :: r)
  end.

(** [strings.NewReader], or the reading side of a [bytes.Buffer]. *)
Definition NewReader (s : bytes) : reader := if decide (s = []) then [] else [s].

(** [io.ReadFull] on anything with a [Read]. *)
Section full.
Context {R : Type} (read : R → nat → outcome error (bytes * option error * R)).

Fixpoint ReadFull (fuel : nat) (r : R) (n : nat) (got : bytes) : outcome error (bytes * option error * R) :=
  match n with
  | O => Ret (got, None, r)
  | _ =>
      match fuel with
      | O => OutOfFuel
      | Datatypes.S fuel =>
          let! (b, err, r) := read r n in
          let got := got ++ b in
          match err with
          | None => ReadFull fuel r (n - length b) got
          | Some e =>
              if decide (n <= length b)%nat then Ret (got, None, r)
              else Ret (got, Some (if decide (got ≠ [] ∧ e = EOF) then ErrUnexpectedEOF else e), r)
          end
      end
  end.
End full.

(** A writer takes [room] more bytes. *)
Record writer := { written : bytes; room : option nat }.
Definition ErrFull : error := "short write".

Definition Write (w : writer) (p : bytes) : option error * writer :=
  match room w with
  | None => (None, {| written := written w ++ p; room := None |})
  | Some k =>
      if decide (length p <= k)%nat then (None, {| written := written w ++ p; room := Some (k - length p)%nat |})
      else (Some ErrFull, {| written := written w ++ take k p; room := Some 0%nat |})
  end.
End Readers.

(** ** [encoding/hex] *)
Module Hex.

Definition fromHexChar (c : byte) : option Z :=
  let v := byte_val c in
  if (48 <=? v) && (v <=? 57) then Some (v - 48)
  else if (97 <=? v) && (v <=? 102) then Some (v - 97 + 10)
  else if (65 <=? v) && (v <=? 70) then Some (v - 65 + 10)
  else None.

Definition InvalidByteError : error := "encoding/hex: invalid byte".
Definition ErrLength : error := "encoding/hex: odd length hex string".

Fixpoint Decode (src : bytes) : outcome error bytes :=
  match src with
  | [] => Ret []
  | [a] => match fromHexChar a with None => Err InvalidByteError | Some _ => Err ErrLength end
  | a :: b :: src =>
      match fromHexChar a, fromHexChar b with
      | Some x, Some y => let! r := Decode src in Ret (byte_of (Z.lor (Z.shiftl x 4) y) :: r)
      | _, _ => Err InvalidByteError
      end
  end.

Lemma fromHexChar_digit n : 0 <= n < 16 → fromHexChar (hex_digit n) = Some n.
Proof.
  intros H. assert (n ∈ seqZ 0 16) as Hin by (apply elem_of_seqZ; lia). revert n Hin H.
  assert (Forall (λ n, fromHexChar (hex_digit n) = Some n) (seqZ 0 16)) as Hall.
  { apply (bool_decide_unpack _). by vm_compute. }
  intros n Hin _. rewrite Forall_forall in Hall. by apply Hall.
Qed.

Lemma decode_hex_encode b : Decode (hex_encode b) = Ret b.
Proof.
  induction b as [|x b IH]; [done|]. cbn [hex_encode mbind list_bind app Decode].
  pose proof (byte_val_range x). rewrite (fromHexChar_digit (_ / 16)) by (split; [apply Z.div_pos|apply Z.div_lt_upper_bound]; lia).
  rewrite (fromHexChar_digit (_ mod 16)) by (apply Z.mod_pos_bound; lia).
  fold (hex_encode b). change (b ≫= _) with (hex_encode b). rewrite IH. cbn [obind]. f_equal. f_equal.
  apply byte_val_inj. rewrite byte_val_of, lor_shift by (try apply Z.mod_pos_bound; lia).
  change (2 ^ 4) with 16. rewrite Z.mul_comm, <-Z.div_mod by lia. by apply Z.mod_small.
Qed.

Lemma hex_encode_all (P : byte → Prop) b : (∀ n, 0 <= n < 16 → P (hex_digit n)) → Forall P (hex_encode b).
Proof.
  intros HP. unfold hex_encode. induction b as [|x b IH]; [constructor|]. pose proof (byte_val_range x).
  cbn [mbind list_bind]. apply Forall_app. split; [|done]. repeat constructor; apply HP.
  - split; [apply Z.div_pos; lia|apply Z.div_lt_upper_bound; lia].
  - apply Z.mod_pos_bound. lia.
Qed.

Lemma length_hex_encode b : length (hex_encode b) = (2 * length b)%nat.
Proof. induction b as [|x b IH]; [done|]. unfold hex_encode in *. cbn. rewrite IH. lia. Qed.

(** A zero byte is no digit. *)
Lemma Decode_zero s k : Decode (s ++ x00 :: k) = Err InvalidByteError.
Proof.
  assert (∀ n s, (length s < n)%nat → Decode (s ++ x00 :: k) = Err InvalidByteError) as H; [|apply (H (Datatypes.S (length s))); lia].
  induction n as [|n IH]; intros s' Hs; [lia|]. destruct s' as [|a [|b s']].
  - cbn. by destruct k.
  - cbn. by destruct (fromHexChar a).
  - cbn [app Decode]. rewrite IH by (cbn in Hs; lia). by destruct (fromHexChar a), (fromHexChar b).
Qed.
End Hex.

(** ** [encoding/base64] *)
Module Base64.
Import Readers.

(** The alphabet of [StdEncoding]. *)
Definition encode_char (v : Z) : byte :=
  if v <? 26 then byte_of (65 + v) else if v <? 52 then byte_of (71 + v)
  else if v <? 62 then byte_of (v - 4) else if v =? 62 then x2b else x2f.

Definition decode_char (c : byte) : option Z :=
  let v := byte_val c in
  if (65 <=? v) && (v <=? 90) then Some (v - 65)
  else if (97 <=? v) && (v <=? 122) then Some (v - 71)
  else if (48 <=? v) && (v <=? 57) then Some (v + 4)
  else if v =? 43 then Some 62 else if v =? 47 then Some 63 else None.

Definition padChar : byte := x3d.

(** [Encode] and [EncodeToString]. *)
Fixpoint EncodeToString (src : bytes) : bytes :=
  match src with
  | a :: b :: c :: src =>
      let val := Z.lor (Z.lor (Z.shiftl (byte_val a) 16) (Z.shiftl (byte_val b) 8)) (byte_val c) in
      [encode_char (Z.land (Z.shiftr val 18) 63); encode_char (Z.land (Z.shiftr val 12) 63);
       encode_char (Z.land (Z.shiftr val 6) 63); encode_char (Z.land val 63)] ++ EncodeToString src
  | [a; b] =>
      let val := Z.lor (Z.shiftl (byte_val a) 16) (Z.shiftl (byte_val b) 8) in
      [encode_char (Z.land (Z.shiftr val 18) 63); encode_char (Z.land (Z.shiftr val 12) 63);
       encode_char (Z.land (Z.shiftr val 6) 63); padChar]
  | [a] =>
      let val := Z.shiftl (byte_val a) 16 in
      [encode_char (Z.land (Z.shiftr val 18) 63); encode_char (Z.land (Z.shiftr val 12) 63); padChar; padChar]
  | [] => []
  end.

Definition CorruptInputError : error := "illegal base64 data".

(** The bytes of four digits. *)
Definition word (a b c d : Z) : Z :=
  Z.lor (Z.lor (Z.lor (Z.shiftl a 18) (Z.shiftl b 12)) (Z.shiftl c 6)) d.
Definition bytes3 (v : Z) : bytes := [byte_of (Z.shiftr v 16); byte_of (Z.shiftr v 8); byte_of v].

(** [Decode] of a text without line breaks whose length is a multiple of four:
    the bytes before the first error, and the error. *)
Fixpoint Decode (src : bytes) : bytes * option error :=
  match src with
  | a :: b :: c :: d :: src =>
      match decode_char a, decode_char b with
      | Some x, Some y =>
          match decode_char c with
          | Some z =>
              match decode_char d with
              | Some t => let '(r, e) := Decode src in (bytes3 (word x y z t) ++ r, e)
              | None =>
                  if decide (d = padChar) then
                    (take 2 (bytes3 (word x y z 0)), if decide (src = []) then None else Some CorruptInputError)
                  else ([], Some CorruptInputError)
              end
          | None =>
              if decide (c = padChar ∧ d = padChar) then
                (take 1 (bytes3 (word x y 0 0)), if decide (src = []) then None else Some CorruptInputError)
              else ([], Some CorruptInputError)
          end
      | _, _ => ([], Some CorruptInputError)
      end
  | [] => ([], None)
  | _ => ([], Some CorruptInputError)
  end.

(** *** [NewEncoder] *)
Record encoder := { e_w : writer; e_err : option error; e_buf : bytes }.
Definition NewEncoder (w : writer) : encoder := {| e_w := w; e_err := None; e_buf := [] |}.

(** Writes the text of [p]; a write error stays. *)
Definition emit (e : encoder) (p rest : bytes) : option error * encoder :=
  let '(err, w) := Write (e_w e) (EncodeToString p) in
  (err, {| e_w := w; e_err := err; e_buf := rest |}).

(** The large interior chunks: 768 bytes at a time. *)
Fixpoint interior (fuel : nat) (e : encoder) (p : bytes) : option error * encoder :=
  match fuel with
  | O => (None, e)
  | Datatypes.S fuel =>
      if decide (3 <= length p)%nat then
        let nn := if decide (length p < 768)%nat then (length p - length p mod 3)%nat else 768%nat in
        let '(err, e) := emit e (take nn p) [] in
        match err with Some er => (Some er, e) | None => interior fuel e (drop nn p) end
      else (None, {| e_w := e_w e; e_err := e_err e; e_buf := p |})
  end.

Definition enc_Write (e : encoder) (p : bytes) : option error * encoder :=
  match e_err e with
  | Some er => (Some er, e)
  | None =>
      if decide (e_buf e = []) then interior (Datatypes.S (length p)) e p
      else
        let i := Nat.min (length p) (3 - length (e_buf e)) in
        let buf := e_buf e ++ take i p in
        let p := drop i p in
        if decide (length buf < 3)%nat then (None, {| e_w := e_w e; e_err := None; e_buf := buf |})
        else
          let '(err, e) := emit e buf [] in
          match err with Some er => (Some er, e) | None => interior (Datatypes.S (length p)) e p end
  end.

Definition enc_Close (e : encoder) : option error * encoder :=
  if decide (e_err e = None ∧ e_buf e ≠ []) then emit e (e_buf e) [] else (e_err e, e).

(** *** [NewDecoder] *)
Record decoder := {
  d_r : reader;
  d_err : option error;
  readErr : option error;
  d_buf : bytes;
  d_out : bytes;
}.
Definition NewDecoder (r : reader) : decoder :=
  {| d_r := r; d_err := None; readErr := None; d_buf := []; d_out := [] |}.

Definition no_break (c : byte) : Prop := c ≠ x0a ∧ c ≠ x0d.
#[export] Instance no_break_dec c : Decision (no_break c) := _.

(** [newlineFilteringReader.Read]. *)
Fixpoint filtered_Read (fuel : nat) (r : reader) (n : nat) : outcome error (bytes * option error * reader) :=
  match fuel with
  | O => OutOfFuel
  | Datatypes.S fuel =>
      let '(b, err, r) := Read r n in
      let kept := filter no_break b in
      if decide (b = [] ∨ kept ≠ []) then Ret (kept, err, r) else filtered_Read fuel r n
  end.

(** The loop that fills the buffer to at least four characters. *)
Fixpoint refill (fuel : nat) (d : decoder) (len : nat) : outcome error decoder :=
  if decide (length (d_buf d) < 4 ∧ readErr d = None)%nat then
    match fuel with
    | O => OutOfFuel
    | Datatypes.S fuel' =>
        let nn := Nat.min (Nat.max (len / 3 * 4) 4) 1024 in
        let! (b, err, r) := filtered_Read fuel (d_r d) (nn - length (d_buf d)) in
        refill fuel' {| d_r := r; d_err := d_err d; readErr := err; d_buf := d_buf d ++ b; d_out := d_out d |} len
    end
  else Ret d.

(** [decoder.Read] into a slice of [len] bytes. *)
Definition dec_Read (fuel : nat) (d : decoder) (len : nat) : outcome error (bytes * option error * decoder) :=
  let give (d : decoder) (out : bytes) err :=
    (take len out, err, {| d_r := d_r d; d_err := d_err d; readErr := readErr d; d_buf := d_buf d; d_out := drop len out |}) in
  if decide (d_out d ≠ []) then Ret (give d (d_out d) None)
  else
    match d_err d with
    | Some e => Ret ([], Some e, d)
    | None =>
        let! d := refill fuel d len in
        if decide (length (d_buf d) < 4)%nat then
          let err := match readErr d with
                     | Some e => Some (if decide (e = EOF ∧ d_buf d ≠ []) then ErrUnexpectedEOF else e)
                     | None => None
                     end in
          Ret ([], err, {| d_r := d_r d; d_err := err; readErr := readErr d; d_buf := d_buf d; d_out := d_out d |})
        else
          let nr := (length (d_buf d) / 4 * 4)%nat in
          let '(out, err) := Decode (take nr (d_buf d)) in
          let d := {| d_r := d_r d; d_err := err; readErr := readErr d; d_buf := drop nr (d_buf d); d_out := d_out d |} in
          Ret (give d out err)
    end.

(** *** A text decodes to what it encodes *)
Lemma decode_encode_char v : 0 <= v < 64 → decode_char (encode_char v) = Some v.
Proof.
  intros H. assert (v ∈ seqZ 0 64) as Hin by (apply elem_of_seqZ; lia). revert v Hin H.
  assert (Forall (λ v, decode_char (encode_char v) = Some v) (seqZ 0 64)) as Hall.
  { apply (bool_decide_unpack _). by vm_compute. }
  intros v Hin _. rewrite Forall_forall in Hall. by apply Hall.
Qed.

Lemma low6 v : 0 <= Z.land v 63 < 64.
Proof. change 63 with (Z.ones 6). rewrite Z.land_ones by lia. apply Z.mod_pos_bound. lia. Qed.

(** The digits of 24 bits put together again. *)
Lemma word_digits v : 0 <= v < 2 ^ 24 →
  word (Z.land (Z.shiftr v 18) 63) (Z.land (Z.shiftr v 12) 63) (Z.land (Z.shiftr v 6) 63) (Z.land v 63) = v.
Proof.
  intros Hv. unfold word. change 63 with (Z.ones 6). rewrite !Z.land_ones, !Z.shiftr_div_pow2 by lia.
  rewrite <-!Z.lor_assoc. rewrite (lor_shift (v / 2 ^ 6 mod _)) by (try apply Z.mod_pos_bound; lia).
  rewrite (lor_shift (v / 2 ^ 12 mod _)) by (change (2 ^ 6) with 64; change (2 ^ 12) with 4096; Z.div_mod_to_equations; lia).
  rewrite lor_shift by (change (2 ^ 6) with 64; change (2 ^ 12) with 4096; change (2 ^ 18) with 262144; Z.div_mod_to_equations; lia).
  change (2 ^ 6) with 64; change (2 ^ 12) with 4096; change (2 ^ 18) with 262144. change (2 ^ 24) with 16777216 in Hv.
  Z.div_mod_to_equations. lia.
Qed.

Definition val3 (a b c : byte) : Z := Z.lor (Z.lor (Z.shiftl (byte_val a) 16) (Z.shiftl (byte_val b) 8)) (byte_val c).

Lemma val3_sum a b c : val3 a b c = byte_val a * 65536 + byte_val b * 256 + byte_val c.
Proof.
  pose proof (byte_val_range a). pose proof (byte_val_range b). pose proof (byte_val_range c).
  unfold val3. rewrite <-Z.lor_assoc, (lor_shift (byte_val b)) by lia. rewrite lor_shift by lia. lia.
Qed.

Lemma bytes3_val a b c : bytes3 (val3 a b c) = [a; b; c].
Proof.
  pose proof (byte_val_range a). pose proof (byte_val_range b). pose proof (byte_val_range c).
  rewrite val3_sum. unfold bytes3. rewrite !Z.shiftr_div_pow2 by lia.
  change (2 ^ 16) with 65536. change (2 ^ 8) with 256.
  f_equal; [|f_equal; [|f_equal]]; apply byte_val_inj; rewrite byte_val_of; Z.div_mod_to_equations; lia.
Qed.

Lemma val3_range a b c : 0 <= val3 a b c < 2 ^ 24.
Proof.
  pose proof (byte_val_range a). pose proof (byte_val_range b). pose proof (byte_val_range c).
  rewrite val3_sum. lia.
Qed.

(** The text of three bytes, and of the last one or two. *)
Definition quad (v : Z) : bytes :=
  [encode_char (Z.land (Z.shiftr v 18) 63); encode_char (Z.land (Z.shiftr v 12) 63);
   encode_char (Z.land (Z.shiftr v 6) 63); encode_char (Z.land v 63)].

Lemma Encode_cons3 a b c s : EncodeToString (a :: b :: c :: s) = quad (val3 a b c) ++ EncodeToString s.
Proof. done. Qed.
Lemma Encode_2 a b : EncodeToString [a; b] = take 3 (quad (val3 a b x00)) ++ [padChar].
Proof. cbn. unfold val3. change (byte_val x00) with 0. by rewrite Z.lor_0_r. Qed.
Lemma Encode_1 a : EncodeToString [a] = take 2 (quad (val3 a x00 x00)) ++ [padChar; padChar].
Proof. cbn. unfold val3. change (byte_val x00) with 0. by rewrite Z.shiftl_0_l, !Z.lor_0_r. Qed.

Lemma Decode_quad a b c s : Decode (quad (val3 a b c) ++ s) = let '(r, e) := Decode s in (a :: b :: c :: r, e).
Proof.
  cbn [quad app Decode]. rewrite !decode_encode_char by apply low6.
  rewrite word_digits by apply val3_range. rewrite bytes3_val. done.
Qed.

(** The digits that stand for no bits are zero. *)
Lemma last_digits a b : Z.land (val3 a b x00) 63 = 0 ∧ Z.land (Z.shiftr (val3 a x00 x00) 6) 63 = 0.
Proof.
  change 63 with (Z.ones 6). rewrite !Z.land_ones, Z.shiftr_div_pow2, !val3_sum by lia. change (byte_val x00) with 0.
  change (2 ^ 6) with 64. pose proof (byte_val_range a). pose proof (byte_val_range b). split; Z.div_mod_to_equations; lia.
Qed.

Lemma Decode_Encode s : Decode (EncodeToString s) = (s, None).
Proof.
  assert (∀ n s, (length s < n)%nat → Decode (EncodeToString s) = (s, None)) as H; [|apply (H (Datatypes.S (length s))); lia].
  induction n as [|n IH]; intros l Hl; [lia|]. destruct l as [|a [|b [|c l]]]; [done|..].
  - rewrite Encode_1. destruct (last_digits a x00) as [H1 H2].
    cbn [quad take app Decode]. rewrite !decode_encode_char by apply low6.
    change (decode_char padChar) with (@None Z). cbn [fst snd]. rewrite decide_True by done. rewrite decide_True by done.
    pose proof (word_digits _ (val3_range a x00 x00)) as Hw. rewrite H1, H2 in Hw. rewrite Hw. by rewrite bytes3_val.
  - rewrite Encode_2. destruct (last_digits a b) as [H1 _].
    cbn [quad take app Decode]. rewrite !decode_encode_char by apply low6.
    change (decode_char padChar) with (@None Z). rewrite !decide_True by done.
    pose proof (word_digits _ (val3_range a b x00)) as Hw. rewrite H1 in Hw. rewrite Hw. by rewrite bytes3_val.
  - rewrite Encode_cons3, Decode_quad, IH by (cbn in Hl; lia). done.
Qed.

Lemma Encode_app a b : (length a mod 3 = 0)%nat → EncodeToString (a ++ b) = EncodeToString a ++ EncodeToString b.
Proof.
  assert (∀ n a, (length a < n)%nat → (length a mod 3 = 0)%nat →
            EncodeToString (a ++ b) = EncodeToString a ++ EncodeToString b) as H;
    [|apply (H (Datatypes.S (length a))); lia].
  induction n as [|n IH]; intros l Hl Hm; [lia|].
  destruct l as [|x [|y [|z l]]]; [done|discriminate Hm..|].
  cbn [app]. rewrite !Encode_cons3, IH, app_assoc; [done|cbn in Hl; lia|].
  cbn [length] in Hm. replace (Datatypes.S (Datatypes.S (Datatypes.S (length l)))) with (length l + 1 * 3)%nat in Hm by lia.
  by rewrite Nat.Div0.mod_add in Hm.
Qed.

Lemma length_Encode s : length (EncodeToString s) = (4 * ((length s + 2) / 3))%nat.
Proof.
  assert (∀ n s, (length s < n)%nat → length (EncodeToString s) = (4 * ((length s + 2) / 3))%nat) as H;
    [|apply (H (Datatypes.S (length s))); lia].
  induction n as [|n IH]; intros l Hl; [lia|]. destruct l as [|x [|y [|z l]]]; [done..|].
  rewrite Encode_cons3, length_app, IH by (cbn in Hl; lia). cbn [length quad].
  replace (Datatypes.S (Datatypes.S (Datatypes.S (length l))) + 2)%nat with (length l + 2 + 1 * 3)%nat by lia.
  rewrite Nat.div_add by lia. lia.
Qed.

(** Cutting the text after a multiple of four characters. *)
Lemma cut_Encode k s : (4 * k <= length (EncodeToString s))%nat →
  take (4 * k) (EncodeToString s) = EncodeToString (take (3 * k) s) ∧
  drop (4 * k) (EncodeToString s) = EncodeToString (drop (3 * k) s).
Proof.
  intros Hk. destruct (decide (3 * k <= length s)%nat) as [Hle|Hgt].
  - assert (length (take (3 * k) s) = 3 * k)%nat as Hl by (rewrite length_take; lia).
    assert (length (EncodeToString (take (3 * k) s)) = 4 * k)%nat as Hl'.
    { rewrite length_Encode, Hl. rewrite (Nat.mul_comm 3 k), Nat.div_add_l by lia. cbn. lia. }
    assert (EncodeToString s = EncodeToString (take (3 * k) s) ++ EncodeToString (drop (3 * k) s)) as ->.
    { rewrite <-Encode_app, take_drop; [done|]. by rewrite Hl, Nat.mul_comm, Nat.Div0.mod_mul. }
    rewrite <-Hl'. by rewrite take_app_length, drop_app_length.
  - rewrite length_Encode in Hk. assert (4 * k = length (EncodeToString s))%nat as Hl.
    { rewrite length_Encode. pose proof (Nat.Div0.div_mod (length s + 2) 3). pose proof (Nat.mod_upper_bound (length s + 2) 3). lia. }
    by rewrite Hl, take_ge, drop_ge, (take_ge s), (drop_ge s) by lia.
Qed.

Lemma encode_char_no_break v : 0 <= v < 64 → no_break (encode_char v).
Proof. intros H. split; intros E; apply (f_equal decode_char) in E; by rewrite decode_encode_char in E. Qed.

(** The text has characters of the alphabet and padding. *)
Lemma Encode_all (P : byte → Prop) s :
  (∀ v, 0 <= v < 64 → P (encode_char v)) → P padChar → Forall P (EncodeToString s).
Proof.
  intros HP Hpad. assert (∀ v, Forall P (quad v)) as Hq.
  { intros v. repeat constructor; apply HP, low6. }
  assert (∀ n s, (length s < n)%nat → Forall P (EncodeToString s)) as H; [|apply (H (Datatypes.S (length s))); lia].
  induction n as [|n IH]; intros l Hl; [lia|]. destruct l as [|x [|y [|z l]]]; [constructor|..].
  - rewrite Encode_1. apply Forall_app. split; [by apply Forall_take|by repeat constructor].
  - rewrite Encode_2. apply Forall_app. split; [by apply Forall_take|by repeat constructor].
  - rewrite Encode_cons3. apply Forall_app. split; [done|]. apply IH. cbn in Hl. lia.
Qed.

Lemma Encode_no_break s : Forall no_break (EncodeToString s).
Proof. apply Encode_all; [exact encode_char_no_break|done]. Qed.

(** *** The encoder *)

(** What was written so far and what waits in the buffer encode [s]. *)
Definition encoding (w0 s : bytes) (e : encoder) : Prop :=
  e_err e = None ∧ room (e_w e) = None ∧ (length (e_buf e) < 3)%nat ∧
  ∃ d, (length d mod 3 = 0)%nat ∧ written (e_w e) = w0 ++ EncodeToString d ∧ s = d ++ e_buf e.

Lemma emit_spec w0 d p rest e : room (e_w e) = None → (length d mod 3 = 0)%nat → (length p mod 3 = 0)%nat →
  (length rest < 3)%nat → written (e_w e) = w0 ++ EncodeToString d →
  ∃ e', emit e p rest = (None, e') ∧ encoding w0 (d ++ p ++ rest) e' ∧ e_buf e' = rest.
Proof.
  intros Hr Hd Hp Hrest Hw. unfold emit, Write. rewrite Hr. eexists. split; [done|]. split; [|done].
  split; [done|]. split; [done|]. split; [done|]. exists (d ++ p). split.
  - rewrite length_app, Nat.Div0.add_mod, Hd, Hp. done.
  - cbn. rewrite Hw, Encode_app by done. rewrite <-!app_assoc. done.
Qed.

Lemma interior_spec w0 : ∀ fuel e s p, (length p < fuel)%nat → encoding w0 s e → e_buf e = [] →
  ∃ e', interior fuel e p = (None, e') ∧ encoding w0 (s ++ p) e'.
Proof.
  induction fuel as [|fuel IH]; intros e s p Hf (He & Hr & _ & d & Hd & Hw & ->) Hb; [lia|]. rewrite Hb, app_nil_r.
  cbn [interior]. case_decide as Hl.
  - set (nn := if decide (length p < 768)%nat then _ else _).
    assert (3 <= nn <= length p ∧ nn mod 3 = 0)%nat as [Hnn Hm].
    { unfold nn. case_decide; [|split; [lia|done]]. pose proof (Nat.Div0.div_mod (length p) 3) as Hdm.
      pose proof (Nat.mod_upper_bound (length p) 3). split; [lia|].
      replace (length p - length p mod 3)%nat with (length p / 3 * 3)%nat by lia. apply Nat.Div0.mod_mul. }
    destruct (emit_spec w0 d (take nn p) [] e) as (e' & -> & He' & Hb'); [done|done| |cbn; lia|done|].
    { by rewrite length_take, Nat.min_l by lia. }
    rewrite app_nil_r in He'. destruct (IH e' (d ++ take nn p) (drop nn p)) as (e2 & -> & He2); [rewrite length_drop; lia|done|done|].
    exists e2. split; [done|]. by rewrite <-app_assoc, take_drop in He2.
  - eexists. split; [done|]. split; [done|]. split; [done|]. cbn. split; [lia|]. by exists d.
Qed.

Lemma enc_Write_spec w0 e s p : encoding w0 s e → ∃ e', enc_Write e p = (None, e') ∧ encoding w0 (s ++ p) e'.
Proof.
  intros He. pose proof He as (Herr & Hr & Hl & d & Hd & Hw & Hs). unfold enc_Write. rewrite Herr.
  case_decide as Hb; [apply interior_spec; [lia|done|done]|].
  set (i := Nat.min _ _). case_decide as Hlt.
  - eexists. split; [done|]. split; [done|]. split; [done|]. cbn. split; [done|]. exists d. split; [done|]. split; [done|].
    rewrite Hs, <-!app_assoc. f_equal. f_equal. rewrite length_app, length_take in Hlt. symmetry. apply take_ge. lia.
  - assert (length (e_buf e ++ take i p) = 3)%nat as H3.
    { rewrite length_app, length_take in *. lia. }
    destruct (emit_spec w0 d (e_buf e ++ take i p) [] e) as (e' & -> & He' & Hb'); [done|done|by rewrite H3|cbn; lia|done|].
    rewrite app_nil_r in He'.
    destruct (interior_spec w0 (Datatypes.S (length (drop i p))) e' (d ++ e_buf e ++ take i p) (drop i p)) as (e2 & -> & He2); [lia|done|done|].
    exists e2. split; [done|]. rewrite <-!app_assoc, take_drop in He2. by rewrite Hs, <-app_assoc.
Qed.

Lemma enc_Close_spec w0 e s : encoding w0 s e →
  ∃ e', enc_Close e = (None, e') ∧ room (e_w e') = None ∧ written (e_w e') = w0 ++ EncodeToString s.
Proof.
  intros (Herr & Hr & _ & d & Hd & Hw & ->). unfold enc_Close. case_decide as Hc.
  - unfold emit, Write. rewrite Hr. eexists. split; [done|]. split; [done|]. cbn. by rewrite Hw, Encode_app, app_assoc.
  - exists e. split; [by rewrite Herr|]. split; [done|]. destruct (decide (e_buf e = [])) as [->|]; [by rewrite app_nil_r|].
    by destruct Hc.
Qed.

(** *** The decoder *)

(** The bytes still to come and the pieces they come in. *)
Definition weight (r : reader) : nat := (length (concat r) + length r)%nat.

Lemma Read_spec r n : r ≠ [] → (0 < n)%nat →
  ∃ b r', Read r n = (b, None, r') ∧ concat r = b ++ concat r' ∧ (length b <= n)%nat ∧ (weight r' < weight r)%nat.
Proof.
  destruct r as [|p r]; [done|]. intros _ Hn. cbn [Read]. exists (take n p). eexists. split; [done|].
  rewrite length_take. unfold weight. case_decide as Hd; cbn [concat].
  - split; [|split; [lia|rewrite length_app; cbn; lia]]. f_equal. rewrite <-(take_drop n p) at 1. by rewrite Hd, app_nil_r.
  - split; [by rewrite app_assoc, take_drop|]. split; [lia|]. rewrite !length_app, length_drop. cbn.
    assert (length p ≠ 0)%nat; [|lia]. intros Hp%length_zero_iff_nil. subst p. by rewrite drop_nil in Hd.
Qed.

(** The buffer and the pieces hold [E] and [rest]. *)
Definition holds (E rest : bytes) (d : decoder) : Prop :=
  d_err d = None ∧ readErr d = None ∧ d_out d = [] ∧ d_buf d ++ concat (d_r d) = E ++ rest.

Lemma refill_spec E rest len nn : nn = Nat.min (Nat.max (len / 3 * 4) 4) 1024 → (nn <= length E)%nat → Forall no_break E →
  ∀ fuel d, holds E rest d → (length (d_buf d) <= nn)%nat → (weight (d_r d) < fuel)%nat →
  ∃ d', refill fuel d len = Ret d' ∧ holds E rest d' ∧ (4 <= length (d_buf d') <= nn)%nat ∧
        (weight (d_r d') <= weight (d_r d))%nat.
Proof.
  intros Hnn HnE Hbr. induction fuel as [|fuel IH]; intros d Hh Hb Hf; [lia|]. pose proof Hh as (He & Hre & Ho & Hc).
  cbn [refill]. case_decide as Hlt; [|exists d; split; [done|]; split; [done|]; split; [|done]].
  2:{ split; [|done]. destruct (decide (4 <= length (d_buf d))%nat); [done|]. destruct Hlt. split; [lia|done]. }
  rewrite <-Hnn. assert (4 <= nn)%nat as H4 by lia.
  assert (d_r d ≠ []) as Hr.
  { intros Hr. rewrite Hr in Hc. cbn in Hc. apply (f_equal length) in Hc. rewrite !length_app in Hc. cbn in Hc. lia. }
  destruct (Read_spec (d_r d) (nn - length (d_buf d)) Hr) as (b & r' & Hread & Hcat & Hlb & Hw); [lia|].
  assert (filter no_break b = b) as Hkeep.
  { apply filter_all. intros c Hcb. rewrite Forall_forall in Hbr. apply Hbr.
    rewrite Hcat, app_assoc in Hc. apply (f_equal (take (length (d_buf d ++ b)))) in Hc.
    rewrite take_app_length, take_app_le in Hc by (rewrite length_app; lia).
    apply (subseteq_take (length (d_buf d ++ b))). rewrite <-Hc. apply elem_of_app. by right. }
  cbn [filtered_Read]. rewrite Hread. cbv beta iota zeta. rewrite Hkeep, decide_True by (destruct b; [by left|by right]). cbn [obind].
  destruct (IH {| d_r := r'; d_err := d_err d; readErr := None; d_buf := d_buf d ++ b; d_out := d_out d |})
    as (d' & Hrun & Hh' & Hl' & Hw'); [|cbn; rewrite length_app; lia|cbn [d_r]; lia|].
  { split; [done|]. split; [done|]. split; [done|]. cbn. by rewrite <-app_assoc, <-Hcat. }
  exists d'. split; [exact Hrun|]. split; [done|]. split; [done|]. cbn [d_r] in Hw'. lia.
Qed.

(** [Read] gives a part of the bytes that are encoded next and takes no
    character that comes after them. *)
Lemma dec_Read_spec b rest fuel d : b ≠ [] → holds (EncodeToString b) rest d → (length (d_buf d) < 4)%nat →
  (weight (d_r d) < fuel)%nat →
  ∃ k d', dec_Read fuel d (length b) = Ret (take k b, None, d') ∧ (0 < length (take k b))%nat ∧
    holds (EncodeToString (drop k b)) rest d' ∧ (length (d_buf d') < 4)%nat ∧ (weight (d_r d') <= weight (d_r d))%nat ∧
    (drop k b = [] → d_buf d' = []).
Proof.
  intros Hne Hh Hb Hf. pose proof Hh as (He & _ & Ho & _).
  set (nn := Nat.min (Nat.max (length b / 3 * 4) 4) 1024).
  assert (0 < length b)%nat as Hpos by (destruct b; [done|cbn; lia]).
  assert (nn <= length (EncodeToString b) ∧ nn mod 4 = 0 ∧ 4 <= nn)%nat as (HnE & Hn4 & H4n).
  { rewrite length_Encode. pose proof (Nat.Div0.div_mod (length b) 3). pose proof (Nat.mod_upper_bound (length b) 3).
    pose proof (Nat.Div0.div_mod (length b + 2) 3). pose proof (Nat.mod_upper_bound (length b + 2) 3).
    split; [unfold nn; lia|]. split; [|unfold nn; lia]. unfold nn.
    destruct (Nat.min_spec (Nat.max (length b / 3 * 4) 4) 1024) as [[_ ->]|[_ ->]]; [|done].
    destruct (Nat.max_spec (length b / 3 * 4) 4) as [[_ ->]|[_ ->]]; [done|apply Nat.Div0.mod_mul]. }
  destruct (refill_spec (EncodeToString b) rest (length b) nn eq_refl HnE (Encode_no_break b) fuel d Hh) as
    (d1 & Hrun & (He1 & Hre1 & Ho1 & Hc1) & Hl1 & Hw1); [lia|done|].
  unfold dec_Read. rewrite Ho, decide_False, He, Hrun by (by intros []). cbn [obind]. rewrite decide_False by lia.
  set (k := (length (d_buf d1) / 4)%nat). pose proof (Nat.Div0.div_mod (length (d_buf d1)) 4) as Hdm. fold k in Hdm.
  pose proof (Nat.mod_upper_bound (length (d_buf d1)) 4) as Hmu. rewrite (Nat.mul_comm k 4).
  assert (4 * k <= length (EncodeToString b))%nat as Hk by lia. destruct (cut_Encode k b Hk) as [Ht Hd].
  assert (take (4 * k) (d_buf d1) = EncodeToString (take (3 * k) b)) as Htake.
  { rewrite <-Ht. apply (f_equal (take (4 * k))) in Hc1. by rewrite !take_app_le in Hc1 by lia. }
  rewrite Htake, Decode_Encode. exists (3 * k)%nat. eexists. rewrite (take_ge (take _ _)) by (rewrite length_take; lia).
  split; [done|]. split; [rewrite length_take; lia|]. split.
  2:{ cbn [d_buf d_r]. rewrite length_drop. split; [lia|]. split; [lia|]. intros Hnil. rewrite Hnil in Hd.
      apply (f_equal length) in Hd. rewrite length_drop in Hd. change (length (EncodeToString [])) with 0%nat in Hd. apply drop_ge. lia. }
  split; [done|]. split; [done|]. split; [cbn [d_out]; apply drop_ge; rewrite length_take; lia|].
  cbn [d_buf d_r]. rewrite <-Hd. apply (f_equal (drop (4 * k))) in Hc1. by rewrite !drop_app_le in Hc1 by lia.
Qed.

(** [io.ReadFull] on a decoder gives what was encoded and leaves the reader at
    the character after it, in whatever pieces the text comes. *)
Lemma ReadFull_decoder rest fuel : ∀ n b d got f, (length b <= n)%nat → (length b <= f)%nat →
  holds (EncodeToString b) rest d → (length (d_buf d) < 4)%nat → (weight (d_r d) < fuel)%nat →
  ∃ d', ReadFull (dec_Read fuel) f d (length b) got = Ret (got ++ b, None, d') ∧ holds [] rest d' ∧
    (b ≠ [] ∨ d_buf d = [] → d_buf d' = []).
Proof.
  induction n as [|n IH]; intros b d got f Hn Hf Hh Hb Hw.
  { destruct b; [|cbn in Hn; lia]. exists d. rewrite app_nil_r. split; [by destruct f|]. split; [done|]. by intros [|]. }
  destruct (decide (b = [])) as [->|Hne].
  { exists d. rewrite app_nil_r. split; [by destruct f|]. split; [done|]. by intros [|]. }
  destruct (dec_Read_spec b rest fuel d Hne Hh Hb Hw) as (k & d1 & Hread & Hpos & Hh1 & Hb1 & Hw1 & Hend).
  pose proof (take_drop k b) as Htd. assert (length b = length (take k b) + length (drop k b))%nat as Hlen.
  { by rewrite <-length_app, Htd. }
  destruct f as [|f]; [lia|]. 
  destruct (IH (drop k b) d1 (got ++ take k b) f) as (d2 & Hrun & Hh2 & Hb2); [lia|lia|done|done|lia|].
  exists d2. split; [|split; [done|]]; cycle 1.
  { intros _. apply Hb2. destruct (decide (drop k b = [])); [right; by apply Hend|by left]. }
  destruct (length b) as [|lb] eqn:El; [lia|]. cbn [ReadFull]. rewrite <-El, Hread in *. cbn [obind].
  replace (length b - length (take k b))%nat with (length (drop k b)) by lia. rewrite Hrun, <-app_assoc, Htd. done.
Qed.

End Base64.

(** ** The suite's own encoding *)

(** [MarshalSize] and [UnmarshalBinary] of points and scalars; the pieces and the
    error of [suite.Write]; [suite.Read] from a decoder. *)
Class KeyCodec (S : Suite) := {
  point_size : nat;
  scalar_size : nat;
  point_unmarshal : bytes → Point * option error;
  scalar_unmarshal : bytes → Scalar * option error;
  suite_write_point : Point → list bytes * option error;
  suite_write_scalar : Scalar → list bytes * option error;
  suite_read_point : Base64.decoder → outcome error (Point * option error * Base64.decoder);
  suite_read_scalar : Base64.decoder → outcome error (Scalar * option error * Base64.decoder);
}.

(** Enough calls for a decoder that has just been made. *)
Definition dec_fuel (d : Base64.decoder) : nat := Datatypes.S (Base64.weight (Base64.d_r d)).

(** [suite.Read] reads the binary form in full and unmarshals it. *)
Definition reads {A} (size : nat) (unmarshal : bytes → A * option error)
    (read : Base64.decoder → outcome error (A * option error * Base64.decoder)) : Prop :=
  ∀ d b d', Readers.ReadFull (Base64.dec_Read (dec_fuel d)) size d size [] = Ret (b, None, d') →
  read d = Ret (unmarshal b, d').

(** Points and scalars have a fixed-length binary form that unmarshals back, and
    [suite.Write] writes it. *)
Class KeyCodecLaws (S : Suite) (K : KeyCodec S) : Prop := {
  point_codec p : ∃ b, point_marshal p = Ret b ∧ length b = point_size ∧
    (∃ q, point_unmarshal b = (q, None) ∧ q ≡ p) ∧
    ∃ ps, suite_write_point p = (ps, None) ∧ concat ps = b;
  scalar_codec s : ∃ b, scalar_marshal s = Ret b ∧ length b = scalar_size ∧
    scalar_unmarshal b = (s, None) ∧
    ∃ ps, suite_write_scalar s = (ps, None) ∧ concat ps = b;
  point_size_pos : (0 < point_size)%nat;
  scalar_size_pos : (0 < scalar_size)%nat;
  read_point_law : reads point_size point_unmarshal suite_read_point;
  read_scalar_law : reads scalar_size scalar_unmarshal suite_read_scalar;
}.

(** ** [crypto/key.go] *)
Module Keys.
Import Readers.
Section keys.
Context {S : Suite} {K : KeyCodec S}.

(** The writes of [suite.Write] to the encoder, up to the first error. *)
Fixpoint write_pieces (e : Base64.encoder) (ps : list bytes) : option error * Base64.encoder :=
  match ps with
  | [] => (None, e)
  | p :: ps =>
      let '(err, e) := Base64.enc_Write e p in
      match err with Some er => (Some er, e) | None => write_pieces e ps end
  end.

(** [write64]. *)
Definition write64 (data : list bytes * option error) : SM writer error unit := λ w,
  let '(err, e) := write_pieces (Base64.NewEncoder w) data.1 in
  match err with
  | Some er => (Err er, Base64.e_w e)
  | None =>
      match data.2 with
      | Some er => (Err er, Base64.e_w e)
      | None =>
          let '(err, e) := Base64.enc_Close e in
          (match err with Some er => Err er | None => Ret tt end, Base64.e_w e)
      end
  end.

(** [getHex]: one call of [Read] into a slice of zeros. *)
Definition getHex (len : nat) : SM reader error bytes := λ r,
  let '(b, err, r) := Read r (len * 2) in
  match err with
  | Some e => (Err e, r)
  | None =>
      if decide (length b < len)%nat then (Err "didn't get enough bytes from stream", r)
      else (Hex.Decode (b ++ replicate (len * 2 - length b) x00), r)
  end.

Definition Write64Point (p : Point) : SM writer error unit := write64 (suite_write_point p).
Definition Write64Scalar (s : Scalar) : SM writer error unit := write64 (suite_write_scalar s).

(** The value is returned with the error. *)
Definition Read64Point : SM reader error (Point * option error) := λ r,
  match suite_read_point (Base64.NewDecoder r) with
  | Ret (p, err, d) => (Ret (p, err), Base64.d_r d)
  | Err e => (Err e, r)
  | Panic w => (Panic w, r)
  | OutOfFuel => (OutOfFuel, r)
  end.
Definition Read64Scalar : SM reader error (Scalar * option error) := λ r,
  match suite_read_scalar (Base64.NewDecoder r) with
  | Ret (s, err, d) => (Ret (s, err), Base64.d_r d)
  | Err e => (Err e, r)
  | Panic w => (Panic w, r)
  | OutOfFuel => (OutOfFuel, r)
  end.

(** The error of [UnmarshalBinary] is dropped. *)
Definition ReadHexPoint : SM reader error Point :=
  do! buf := getHex point_size in sret (point_unmarshal buf).1.
Definition ReadHexScalar : SM reader error Scalar :=
  do! buf := getHex scalar_size in sret (scalar_unmarshal buf).1.

Definition write_text (out : bytes) : SM writer error unit := λ w,
  let '(err, w) := Write w out in (match err with Some e => Err e | None => Ret tt end, w).

Definition WriteHexPoint (p : Point) : SM writer error unit :=
  do! buf := slift (point_marshal p) in write_text (hex_encode buf).
Definition WriteHexScalar (s : Scalar) : SM writer error unit :=
  do! buf := slift (scalar_marshal s) in write_text (hex_encode buf).

(** *** Strings: the text of the binary form, and the error of getting it *)
Definition PointToStringHex (p : Point) : outcome error bytes := let! b := point_marshal p in Ret (hex_encode b).
Definition ScalarToStringHex (s : Scalar) : outcome error bytes := let! b := scalar_marshal s in Ret (hex_encode b).
Definition PointToString64 (p : Point) : outcome error bytes :=
  let! b := point_marshal p in Ret (Base64.EncodeToString b).
Definition ScalarToString64 (s : Scalar) : outcome error bytes :=
  let! b := scalar_marshal s in Ret (Base64.EncodeToString b).

Definition StringHexToPoint (s : bytes) : outcome error Point := (ReadHexPoint (NewReader s)).1.
Definition StringHexToScalar (s : bytes) : outcome error Scalar := (ReadHexScalar (NewReader s)).1.
Definition String64ToPoint (s : bytes) : outcome error (Point * option error) := (Read64Point (NewReader s)).1.
Definition String64ToScalar (s : bytes) : outcome error (Scalar * option error) := (Read64Scalar (NewReader s)).1.

(** *** Deprecated names *)
Definition Read64Pub := Read64Point.
Definition Write64Pub := Write64Point.
Definition ReadHexPub := ReadHexPoint.
Definition WriteHexPub := WriteHexPoint.
Definition PubToStringHex := PointToStringHex.
Definition StringHexToPub := StringHexToPoint.
Definition PubToString64 := PointToStringHex.
Definition String64ToPub := String64ToPoint.

(** ** What is written is read back *)
Lemma write_pieces_spec w0 : ∀ ps e s, Base64.encoding w0 s e →
  ∃ e', write_pieces e ps = (None, e') ∧ Base64.encoding w0 (s ++ concat ps) e'.
Proof.
  induction ps as [|p ps IH]; intros e s He; cbn [write_pieces concat]; [exists e; by rewrite app_nil_r|].
  destruct (Base64.enc_Write_spec w0 e s p He) as (e1 & -> & He1). destruct (IH _ _ He1) as (e2 & -> & He2).
  exists e2. by rewrite app_assoc.
Qed.

Lemma write64_spec ps w : room w = None →
  write64 (ps, None) w = (Ret tt, {| written := written w ++ Base64.EncodeToString (concat ps); room := None |}).
Proof.
  intros Hr. unfold write64. cbn [fst snd].
  destruct (write_pieces_spec (written w) ps (Base64.NewEncoder w) []) as (e & -> & He).
  { split; [done|]. split; [done|]. split; [cbn; lia|]. exists []. by rewrite app_nil_r. }
  destruct (Base64.enc_Close_spec _ _ _ He) as (e' & -> & Hr' & Hw). f_equal.
  destruct (Base64.e_w e'); cbn in *. by subst.
Qed.

Lemma read64_spec {A} size unmarshal (read : Base64.decoder → outcome error (A * option error * Base64.decoder)) r b rest :
  reads size unmarshal read → length b = size → (0 < size)%nat → concat r = Base64.EncodeToString b ++ rest →
  ∃ d', read (Base64.NewDecoder r) = Ret (unmarshal b, d') ∧ concat (Base64.d_r d') = rest.
Proof.
  intros Hlaw <- Hpos Hr.
  destruct (Base64.ReadFull_decoder rest (dec_fuel (Base64.NewDecoder r)) (length b) b (Base64.NewDecoder r) [] (length b))
    as (d' & Hrun & (_ & _ & _ & Hh) & Hnil); [done|done|done|cbn; lia|unfold dec_fuel; lia|].
  exists d'. split; [by apply Hlaw|]. rewrite Hnil in Hh by (by right). exact Hh.
Qed.

Lemma getHex_text b q r : b ≠ [] →
  ∃ r', getHex (length b) ((hex_encode b ++ q) :: r) = (Ret b, r') ∧ concat r' = q ++ concat r.
Proof.
  intros Hne. unfold getHex. cbn [Read]. rewrite <-(Nat.mul_comm 2), <-(Hex.length_hex_encode b).
  rewrite take_app_length, drop_app_length. rewrite decide_False by (rewrite Hex.length_hex_encode; lia).
  rewrite Nat.sub_diag. cbn [replicate]. rewrite app_nil_r, Hex.decode_hex_encode.
  eexists. split; [done|]. by case_decide as Hq; [subst q|].
Qed.

(** A first piece that is too short is refused, also when the rest would come
    with the next [Read]. *)
Lemma getHex_short n p r : (length p < 2 * n)%nat → ∃ e, (getHex n (p :: r)).1 = Err e.
Proof.
  intros Hl. unfold getHex. cbn [Read]. rewrite take_ge by lia. case_decide; [by eexists|].
  destruct (n * 2 - length p)%nat as [|k] eqn:Ek; [lia|]. cbn [replicate fst]. rewrite Hex.Decode_zero. by eexists.
Qed.

Context {KL : KeyCodecLaws S K}.

Lemma read64_point p r b rest : point_marshal p = Ret b → concat r = Base64.EncodeToString b ++ rest →
  ∃ q r', Read64Point r = (Ret (q, None), r') ∧ q ≡ p ∧ concat r' = rest.
Proof.
  intros Hb Hr. destruct (point_codec p) as (b' & Hb' & Hlen & (q & Hq & Hqp) & _). rewrite Hb in Hb'. injection Hb' as <-.
  destruct (read64_spec point_size point_unmarshal suite_read_point r b rest read_point_law Hlen point_size_pos Hr)
    as (d' & Hd & Hrest).
  exists q, (Base64.d_r d'). unfold Read64Point. rewrite Hd, Hq. done.
Qed.

Lemma read64_scalar s r b rest : scalar_marshal s = Ret b → concat r = Base64.EncodeToString b ++ rest →
  ∃ r', Read64Scalar r = (Ret (s, None), r') ∧ concat r' = rest.
Proof.
  intros Hb Hr. destruct (scalar_codec s) as (b' & Hb' & Hlen & Hq & _). rewrite Hb in Hb'. injection Hb' as <-.
  destruct (read64_spec scalar_size scalar_unmarshal suite_read_scalar r b rest read_scalar_law Hlen scalar_size_pos Hr)
    as (d' & Hd & Hrest).
  exists (Base64.d_r d'). unfold Read64Scalar. rewrite Hd, Hq. done.
Qed.

Lemma write64_point p w b : point_marshal p = Ret b → room w = None →
  Write64Point p w = (Ret tt, {| written := written w ++ Base64.EncodeToString b; room := None |}).
Proof.
  intros Hb Hr. destruct (point_codec p) as (b' & Hb' & _ & _ & ps & Hw & Hps). rewrite Hb in Hb'. injection Hb' as <-.
  unfold Write64Point. by rewrite Hw, write64_spec, Hps.
Qed.

(** Points one after the other. *)
Definition write_all (ps : list Point) : SM writer error unit := sforM (λ _ p, Write64Point p) tt ps.
Definition read_all (n : nat) : SM reader error (list (Point * option error)) :=
  sforM (λ acc _, do! x := Read64Point in sret (acc ++ [x])) [] (seq 0 n).

Lemma write_all_spec ps : ∀ w, room w = None → ∃ bs, Forall2 (λ p b, point_marshal p = Ret b) ps bs ∧
  write_all ps w = (Ret tt, {| written := written w ++ (bs ≫= Base64.EncodeToString); room := None |}).
Proof.
  induction ps as [|p ps IH]; intros w Hr.
  { exists []. split; [constructor|]. cbn. rewrite app_nil_r. by destruct w; cbn in *; subst. }
  destruct (point_codec p) as (b & Hb & _). destruct (IH {| written := written w ++ Base64.EncodeToString b; room := None |} eq_refl)
    as (bs & Hbs & Hw). exists (b :: bs). split; [by constructor|].
  unfold write_all in *. cbn [sforM]. unfold sbind at 1. rewrite (write64_point _ _ _ Hb Hr), Hw. cbn. by rewrite app_assoc.
Qed.

Lemma read_all_spec rest ps bs : Forall2 (λ p b, point_marshal p = Ret b) ps bs → ∀ k acc r,
  concat r = (bs ≫= Base64.EncodeToString) ++ rest →
  ∃ qs r', sforM (λ acc _, do! x := Read64Point in sret (acc ++ [x])) acc (seq k (length ps)) r
           = (Ret (acc ++ ((λ q, (q, None)) <$> qs)), r') ∧ Forall2 (≡) qs ps ∧ concat r' = rest.
Proof.
  induction 1 as [|p b ps bs Hb Hbs IH]; intros k acc r Hr.
  { exists [], r. cbn. rewrite app_nil_r. split; [done|]. split; [constructor|done]. }
  cbn [mbind list_bind] in Hr. rewrite <-app_assoc in Hr.
  destruct (read64_point p r b _ Hb Hr) as (q & r1 & Hq & Hqp & Hr1).
  destruct (IH (Datatypes.S k) (acc ++ [(q, None)]) r1 Hr1) as (qs & r' & Hrun & Hqs & Hr').
  exists (q :: qs), r'. split; [|split; [by constructor|done]].
  cbn [length seq sforM]. unfold sbind at 1 2. rewrite Hq. unfold sret at 1. rewrite Hrun. cbn. by rewrite <-app_assoc.
Qed.

(** C37: points written with [Write64Point] one after the other are read back by
    [Read64Point] in the same order, whatever the pieces in which the text
    arrives and whatever follows it; what follows stays in the reader. *)
Theorem keys_stream ps r rest w :
  room w = None → written w = [] → concat r = written (write_all ps w).2 ++ rest →
  (write_all ps w).1 = Ret tt ∧
  ∃ qs r', read_all (length ps) r = (Ret ((λ q, (q, None)) <$> qs), r') ∧ Forall2 (≡) qs ps ∧ concat r' = rest.
Proof.
  intros Hroom Hw Hr. destruct (write_all_spec ps w Hroom) as (bs & Hbs & Hrun). rewrite Hrun in *. cbn [fst snd written] in *.
  rewrite Hw in Hr. split; [done|]. exact (read_all_spec rest ps bs Hbs 0 [] r Hr).
Qed.

(** The texts of points and scalars convert back, in both notations; a
    hexadecimal text that is too short is refused. *)
Theorem key_strings_roundtrip (p : Point) (x : Scalar) (s : bytes) :
  (∃ t q, PointToStringHex p = Ret t ∧ StringHexToPoint t = Ret q ∧ q ≡ p) ∧
  (∃ t, ScalarToStringHex x = Ret t ∧ StringHexToScalar t = Ret x) ∧
  (∃ t q, PointToString64 p = Ret t ∧ String64ToPoint t = Ret (q, None) ∧ q ≡ p) ∧
  (∃ t, ScalarToString64 x = Ret t ∧ String64ToScalar t = Ret (x, None)) ∧
  ((length s < 2 * point_size)%nat → ∃ e, StringHexToPoint s = Err e).
Proof.
  destruct (point_codec p) as (b & Hb & Hlen & (q & Hq & Hqp) & _). destruct (scalar_codec x) as (c & Hc & Hlc & Hx & _).
  assert (b ≠ [] ∧ c ≠ []) as [Hbne Hcne].
  { split; intros ->; [pose proof point_size_pos|pose proof scalar_size_pos]; cbn in *; lia. }
  assert (∀ b, b ≠ [] → NewReader (hex_encode b) = [hex_encode b ++ []] ∧ concat (NewReader (Base64.EncodeToString b)) = Base64.EncodeToString b ++ []) as Hnew.
  { intros b' Hb'. rewrite !app_nil_r. unfold NewReader. split.
    - rewrite decide_False; [done|]. intros E%(f_equal length). rewrite Hex.length_hex_encode in E. by destruct b'.
    - case_decide as E; [by rewrite E|]. cbn. by rewrite app_nil_r. }
  destruct (Hnew b Hbne) as [Hn1 Hn2], (Hnew c Hcne) as [Hn3 Hn4]. split; [|split; [|split; [|split]]].
  - exists (hex_encode b), q. unfold PointToStringHex, StringHexToPoint, ReadHexPoint, sbind. rewrite Hb, Hn1, <-Hlen.
    destruct (getHex_text b [] [] Hbne) as (r' & -> & _). by rewrite Hq.
  - exists (hex_encode c). unfold ScalarToStringHex, StringHexToScalar, ReadHexScalar, sbind. rewrite Hc, Hn3, <-Hlc.
    destruct (getHex_text c [] [] Hcne) as (r' & -> & _). by rewrite Hx.
  - destruct (read64_point p _ b [] Hb Hn2) as (q' & r' & Hr & Hq' & _). exists (Base64.EncodeToString b), q'.
    unfold PointToString64, String64ToPoint. by rewrite Hb, Hr.
  - destruct (read64_scalar x _ c [] Hc Hn4) as (r' & Hr & _). exists (Base64.EncodeToString c).
    unfold ScalarToString64, String64ToScalar. by rewrite Hc, Hr.
  - intros Hs. unfold StringHexToPoint, ReadHexPoint, sbind, NewReader. case_decide; [by eexists|].
    destruct (getHex_short point_size s [] Hs) as [e He]. destruct (getHex point_size [s]) as [o r'] eqn:E. cbn in He. subst o. by eexists.
Qed.
End keys.
End Keys.

(** ** Servers and rosters as TOML structures *)
Module Toml.
Import Readers Keys.
Section toml.
Context {S : Suite} {U : UuidLib} {K : KeyCodec S}.

Record ServerIdentityToml := { Public : bytes; Address : bytes }.
Record RosterToml := { ID : UUID; List : list ServerIdentityToml }.

(** [(si *ServerIdentity) Toml]: an error of the writer is logged. *)
Definition si_Toml (si : ServerIdentity) : ServerIdentityToml :=
  let '(_, buf) := Write64Point (Network.Public si) {| written := []; room := None |} in
  {| Address := Network.Address si; Public := written buf |}.

(** [(si *ServerIdentityToml) ServerIdentity]: an error of the reader is logged;
    the identifier and the description are not set. *)
Definition si_ServerIdentity (si : ServerIdentityToml) : outcome error ServerIdentity :=
  let! (pub, _) := (Read64Point (NewReader (Public si))).1 in
  Ret {| Network.Public := pub; Network.ID := uuid_Nil; Network.Address := Address si; Network.Description := [] |}.

(** [(el *Roster) Toml]. *)
Definition roster_Toml (el : Roster) : RosterToml :=
  {| ID := Rosters.ID el; List := si_Toml <$> Rosters.List el |}.

(** [(elt *RosterToml) Roster]: the fields it sets; the aggregate key stays nil. *)
Definition toml_Roster (elt : RosterToml) : outcome error (UUID * list ServerIdentity) :=
  let! ids := omapM si_ServerIdentity (List elt) in Ret (ID elt, ids).

Context {KL : KeyCodecLaws S K}.

(** What is left of a server. *)
Definition same_server (a b : ServerIdentity) : Prop :=
  Network.Public b ≡ Network.Public a ∧ Network.Address b = Network.Address a ∧
  Network.ID b = uuid_Nil ∧ Network.Description b = [].

Lemma si_roundtrip si : ∃ si', si_ServerIdentity (si_Toml si) = Ret si' ∧ same_server si si'.
Proof.
  destruct (point_codec (Network.Public si)) as (b & Hb & Hlen & _). unfold si_Toml.
  rewrite (write64_point _ {| written := []; room := None |} b Hb eq_refl). cbn [written app].
  destruct (read64_point (Network.Public si) (NewReader (Base64.EncodeToString b)) b [] Hb) as (q & r' & Hr & Hq & _).
  { rewrite app_nil_r. unfold NewReader. case_decide as E; [by rewrite E|]. cbn. apply app_nil_r. }
  unfold si_ServerIdentity. cbn [Public Address]. rewrite Hr. cbn [fst obind]. eexists. by split; [|split].
Qed.

(** A roster read back from its TOML form has its identifier and the keys and
    addresses of its servers, but all servers have the same, zero, identifier:
    the search for any of them finds the first. *)
Theorem roster_toml el :
  ∃ ids, toml_Roster (roster_Toml el) = Ret (Rosters.ID el, ids) ∧ Forall2 same_server (Rosters.List el) ids ∧
    ∀ el' e, Rosters.List el' = ids → e ∈ ids → Rosters.Search el' (Network.ID e) = (0, head ids).
Proof.
  assert (∃ ids, omapM si_ServerIdentity (si_Toml <$> Rosters.List el) = Ret ids ∧ Forall2 same_server (Rosters.List el) ids)
    as (ids & Hrun & Hids).
  { induction (Rosters.List el) as [|si l IH]; [exists []; split; [done|constructor]|].
    destruct (si_roundtrip si) as (si' & Hsi & Hs), IH as (ids & Hl & Hf). exists (si' :: ids). cbn. rewrite Hsi. cbn.
    rewrite Hl. split; [done|by constructor]. }
  exists ids. split; [unfold toml_Roster; cbn; by rewrite Hrun|]. split; [done|]. intros el' e Hl He.
  assert (∀ x, x ∈ ids → Network.ID x = uuid_Nil) as Hnil.
  { intros x [i Hi]%list_elem_of_lookup. destruct (Forall2_lookup_r _ _ _ _ _ Hids Hi) as (y & _ & _ & _ & Hx & _). done. }
  unfold Rosters.Search. rewrite Hl. destruct ids as [|f ids]; [by apply elem_of_nil in He|].
  cbn. unfold uuid_Equal. rewrite bool_decide_true; [done|]. rewrite (Hnil e He). apply Hnil. left.
Qed.
End toml.
End Toml.

(** ** Examples and witnesses *)
Module KeysExample.
Import Readers Keys.

(** One byte per key: operations modulo 256. *)
Definition b2 (f : Z → Z → Z) (a b : byte) : byte := byte_of (f (byte_val a) (byte_val b)).
#[local] Instance byte_suite : Suite := {|
  Scalar := byte; Point := byte; Stream := byte; scalar_zero := x00; scalar_one := x01;
  scalar_add := b2 Z.add; scalar_sub := b2 Z.sub; scalar_mul := b2 Z.mul; scalar_neg := b2 Z.sub x00;
  scalar_pick st := (st, st); scalar_marshal s := Ret [s];
  point_equiv := (=); point_equal a b := bool_decide (a = b); point_null := x00; point_base := x01;
  point_add := b2 Z.add; point_sub := b2 Z.sub; point_neg := b2 Z.sub x00;
  point_mul p s := b2 Z.mul (default x01 p) s;
  point_pick d st := (default x00 (head d), drop 1 d, st); point_pick_len _ := 1%nat;
  point_data p := Ret [p]; point_marshal p := Ret [p]; point_string p := [p];
  cipher k := default x00 (head k); cipher_message st _ := st; cipher_seal _ m := m; cipher_open _ m := Ret m;
|}.

(** Sums, differences and products of remainders. *)
Lemma byte_of_mod x y : x mod 256 = y mod 256 → byte_of x = byte_of y.
Proof. intros H. apply byte_val_inj. by rewrite !byte_val_of. Qed.
Lemma b2_of_add x y : b2 Z.add (byte_of x) (byte_of y) = byte_of (x + y).
Proof. unfold b2. rewrite !byte_val_of. apply byte_of_mod. symmetry. apply Zplus_mod. Qed.
Lemma b2_of_sub x y : b2 Z.sub (byte_of x) (byte_of y) = byte_of (x - y).
Proof. unfold b2. rewrite !byte_val_of. apply byte_of_mod. symmetry. apply Zminus_mod. Qed.
Lemma b2_of_mul x y : b2 Z.mul (byte_of x) (byte_of y) = byte_of (x * y).
Proof. unfold b2. rewrite !byte_val_of. apply byte_of_mod. symmetry. apply Zmult_mod. Qed.
Lemma byte_is_of (b : byte) : ∃ x, b = byte_of x.
Proof. exists (byte_val b). apply byte_val_inj. rewrite byte_val_of, Z.mod_small; [done|apply byte_val_range]. Qed.

#[local] Ltac byte_ring :=
  cbn [point_equiv point_add point_sub point_neg point_mul point_null point_base scalar_add scalar_sub scalar_mul
       scalar_neg scalar_zero scalar_one byte_suite default from_option id Scalar Point];
  repeat (let b := fresh "b" in intros b; let x := fresh "x" in destruct (byte_is_of b) as [x ->]);
  change x00 with (byte_of 0); change x01 with (byte_of 1);
  repeat first [rewrite b2_of_add | rewrite b2_of_sub | rewrite b2_of_mul]; f_equal; ring.

#[local] Instance byte_suite_laws : SuiteLaws byte_suite.
Proof.
  split.
  - split; byte_ring.
  - apply _.
  - intros p q. cbn. by rewrite bool_decide_eq_true.
  - solve_proper.
  - solve_proper.
  - by intros p q s ->.
  - byte_ring.
  - byte_ring.
  - byte_ring.
  - byte_ring.
  - byte_ring.
  - done.
  - byte_ring.
  - byte_ring.
  - byte_ring.
  - by eexists.
  - by intros p q ->.
  - by intros p q ->.
  - done.
  - by intros [|x d] st.
  - cbn. lia.
  - done.
Qed.

Definition unmarshal1 (b : bytes) : byte * option error :=
  match b with [x] => (x, None) | _ => (x00, Some "wrong length"%string) end.
Definition read1 (d : Base64.decoder) : outcome error (byte * option error * Base64.decoder) :=
  let! (b, err, d) := ReadFull (Base64.dec_Read (dec_fuel d)) 1 d 1 [] in
  Ret (match err with None => unmarshal1 b | Some e => (x00, Some e) end, d).

#[local] Instance byte_codec : KeyCodec byte_suite := {|
  point_size := 1; scalar_size := 1; point_unmarshal := unmarshal1; scalar_unmarshal := unmarshal1;
  suite_write_point p := ([[p]], None); suite_write_scalar s := ([[s]], None);
  suite_read_point := read1; suite_read_scalar := read1;
|}.

#[local] Instance byte_codec_laws : KeyCodecLaws byte_suite byte_codec.
Proof.
  split; cbn.
  - intros p. exists [p]. split; [done|]. split; [done|]. split; [by exists p|]. by eexists.
  - intros s. exists [s]. do 3 (split; [done|]). by eexists.
  - lia.
  - lia.
  - intros d b d' H. unfold read1. cbn in H |- *. rewrite H. cbn. by destruct (unmarshal1 b).
  - intros d b d' H. unfold read1. cbn in H |- *. rewrite H. cbn. by destruct (unmarshal1 b).
Qed.

Definition buffer : writer := {| written := []; room := None |}.

Lemma keys_stream_witness :
  (write_all (S := byte_suite) [x41; x42] buffer).1 = Ret tt ∧
  ∃ qs r', read_all 2 (concat [[ [x51]; [x51; x3d]; [x3d; x51] ]; [ []; [x67; x3d; x3d; x21] ]])
           = (Ret ((λ q, (q, None)) <$> qs), r') ∧ Forall2 (=) qs [x41; x42] ∧ concat r' = [x21].
Proof.
  destruct (keys_stream (S := byte_suite) [x41; x42] (concat [[ [x51]; [x51; x3d]; [x3d; x51] ]; [ []; [x67; x3d; x3d; x21] ]]) [x21] buffer)
    as [Hw Hr]; [done|done|by_vm|]. split; [exact Hw|exact Hr].
Defined.

Lemma key_strings_roundtrip_witness : ∃ t q, PointToStringHex x41 = Ret t ∧ StringHexToPoint t = Ret q ∧ q = x41.
Proof. destruct (key_strings_roundtrip (S := byte_suite) x41 x41 []) as (H & _). exact H. Defined.

(** [PubToString64] writes hexadecimal digits, which [String64ToPub] takes for
    base64: the key does not come back. *)
Example pub_string64 :
  PubToString64 x41 = Ret (String.list_byte_of_string "41") ∧
  (let! t := PointToString64 x41 in String64ToPub t) = Ret (x41, None) ∧
  (let! t := PubToString64 x41 in String64ToPub t) = Ret (x00, Some ErrUnexpectedEOF).
Proof. split_and!; by_vm. Qed.

Definition two_servers : Roster :=
  {| Rosters.ID := [x07]; Rosters.Aggregate := x00;
     Rosters.List := [ {| Network.Public := x41; Network.ID := [x01]; Network.Address := [x61]; Network.Description := [] |};
                       {| Network.Public := x42; Network.ID := [x02]; Network.Address := [x62]; Network.Description := [] |} ] |}.

Lemma roster_toml_witness :
  ∃ ids, Toml.toml_Roster (Toml.roster_Toml two_servers) = Ret ([x07], ids) ∧
         Network.Public <$> ids = [x41; x42] ∧ Network.ID <$> ids = [uuid_Nil; uuid_Nil].
Proof.
  destruct (Toml.roster_toml two_servers) as (ids & Hr & Hf & _). exists ids. split; [exact Hr|].
  pose proof (Forall2_length _ _ _ Hf) as Hl. destruct ids as [|a [|b [|c ids]]]; try discriminate Hl.
  apply Forall2_cons_1 in Hf as [(Ha & _ & Ia & _) Hf]. apply Forall2_cons_1 in Hf as [(Hb & _ & Ib & _) _].
  split; cbn; [by rewrite Ha, Hb|by rewrite Ia, Ib].
Defined.
End KeysExample.
