(* ===== verification/Config.v ===== *)
(** * Configuration files ([imported/onet/app/config.go])

    A server is started from a private file with its keys, and is known to others
    by a group file with the public keys and addresses of servers.  [Files] is
    [config.go]: the two types, their files and how they are read.  [Setup] is the
    part of [InteractiveConfig] that makes the keys and writes both files.  The
    TOML library is a class of encoders and decoders. *)
From S2P Require Import Prelude GoStrings Suite Tree Keys.
Import Strings Readers Keys.
Local Open Scope Z_scope.

(** [toml.Encoder.Encode] and [toml.Decode] for a type. *)
Class TomlCodec (A : Type) := {
  Encode : A → outcome error bytes;
  Decode : bytes → outcome error A;
  (** The values TOML can write: their strings are texts. *)
  writable : A → Prop;
}.

(** What is written is read; a comment line before it changes nothing. *)
Class TomlLaws (A : Type) (T : TomlCodec A) : Prop := {
  toml_roundtrip (x : A) : writable x → ∃ b, Encode x = Ret b ∧ Decode b = Ret x;
  toml_comment (l b : bytes) : x0a ∉ l → Decode (x23 :: l ++ x0a :: b) = Decode b;
}.

(** ** [config.go] *)
Module Files.
Section files.
Context {S : Suite} {U : UuidLib} {K : KeyCodec S}.

Record CothorityConfig := {
  conf_Public : bytes;
  conf_Private : bytes;
  conf_Address : bytes;
  conf_Description : bytes;
}.

Record ServerToml := { st_Address : bytes; st_Public : bytes; st_Description : bytes }.

(** [GroupToml]: a slice of pointers. *)
Abbreviation GroupToml := (list (option ServerToml)).

Context {TC : TomlCodec CothorityConfig} {TG : TomlCodec GroupToml}.

Definition key_comment : bytes := str "# This file contains your private key." ++ [x0a].
Definition care_comment : bytes := str "# Do not give it away lightly!" ++ [x0a].

(** [WriteString], whose error is not looked at. *)
Definition write_unchecked (p : bytes) : SM writer error unit := λ w, (Ret tt, (Write w p).2).

(** [CothorityConfig.Save] to a file that was created; [Save_file] with the error
    of creating it. *)
Definition Save (hc : CothorityConfig) : SM writer error unit :=
  do! _ := write_unchecked key_comment in
  do! _ := write_unchecked care_comment in
  do! b := slift (Encode hc) in
  write_text b.
Definition Save_file (create : option error) (room : option nat) (hc : CothorityConfig) : outcome error unit * option bytes :=
  match create with
  | Some e => (Err e, None)
  | None => let '(r, w) := Save hc {| written := []; room := room |} in (r, Some (written w))
  end.

(** [ParseCothority] of the bytes of the file: the configuration, and what
    [NewServerTCP] makes the server of. *)
Definition ParseCothority (file : outcome error bytes) : outcome error (CothorityConfig * ServerIdentity * Scalar) :=
  let! b := file in
  let! hc := Decode b in
  let! secret := StringHexToScalar (conf_Private hc) in
  let! point := StringHexToPoint (conf_Public hc) in
  let si := Network.NewServerIdentity point (conf_Address hc) in
  Ret (hc, {| Network.Public := Network.Public si; Network.ID := Network.ID si; Network.Address := Network.Address si;
              Network.Description := conf_Description hc |}, secret).

Definition NewGroupToml (servers : list (option ServerToml)) : GroupToml := servers.

(** [NewServerToml]: nil when the key cannot be written. *)
Definition NewServerToml (public : Point) (addr desc : bytes) : option ServerToml :=
  match Write64Point public {| written := []; room := None |} with
  | (Ret _, buff) => Some {| st_Address := addr; st_Public := written buff; st_Description := desc |}
  | _ => None
  end.

(** A description for those that have none. *)
Definition describe (text : bytes) (s : ServerToml) : ServerToml :=
  {| st_Address := st_Address s; st_Public := st_Public s;
     st_Description := if decide (st_Description s = []) then text else st_Description s |}.
Definition group_text : bytes := str "Description of your server".

(** [GroupToml.String]: the servers it describes are changed; an error of the
    encoder is the text. *)
Definition group_String : SM GroupToml error bytes := λ gt,
  match omapM deref gt with
  | Ret servers =>
      let gt := (λ s, Some (describe group_text s)) <$> servers in
      match Encode gt with
      | Ret b => (Ret b, gt)
      | Err e => (Ret (str "Error encoding grouptoml" ++ str e), gt)
      | Panic w => (Panic w, gt)
      | OutOfFuel => (OutOfFuel, gt)
      end
  | Err e => (Err e, gt)
  | Panic w => (Panic w, gt)
  | OutOfFuel => (OutOfFuel, gt)
  end.

(** [GroupToml.Save]: the text of an error is what the file holds. *)
Definition group_Save (create : option error) (room : option nat) (gt : GroupToml) : outcome error unit * option bytes * GroupToml :=
  match create with
  | Some e => (Err e, None, gt)
  | None =>
      let '(r, gt) := group_String gt in
      match r with
      | Ret text => let '(r, w) := write_text text {| written := []; room := room |} in (r, Some (written w), gt)
      | Err e => (Err e, Some [], gt)
      | Panic w => (Panic w, Some [], gt)
      | OutOfFuel => (OutOfFuel, Some [], gt)
      end
  end.

(** [toServerIdentity]. *)
Definition toServerIdentity (s : ServerToml) : outcome error ServerIdentity :=
  let! (public, err) := (Read64Point (NewReader (st_Public s))).1 in
  match err with
  | Some e => Err e
  | None => Ret (Network.NewServerIdentity public (st_Address s))
  end.

(** [Group]: the pointers of the roster's servers are their positions. *)
Record Group := { group_Roster : Roster; group_Description : gmap nat bytes }.

Definition GetDescription (g : Group) (e : nat) : bytes := default [] (group_Description g !! e).

(** A server and its description. *)
Definition described (s : option ServerToml) : outcome error (ServerIdentity * bytes) :=
  let! s := deref s in
  let! en := toServerIdentity s in
  Ret (en, st_Description s).

(** [ReadGroupDescToml] of what the reader holds; [u] is the next UUID. *)
Definition ReadGroupDescToml (f : outcome error bytes) (u : nat) : outcome error Group :=
  let! b := f in
  let! group := Decode b in
  let! entities := omapM described group in
  Ret {| group_Roster := Rosters.NewRoster entities.*1 u; group_Description := map_seq 0 entities.*2 |}.

Definition ReadGroupToml (f : outcome error bytes) (u : nat) : outcome error Roster :=
  let! group := ReadGroupDescToml f u in
  Ret (group_Roster group).
End files.
End Files.

(** ** What is written is read *)
Section reading.
Import Files.
Context {S : Suite} {SL : SuiteLaws S} {U : UuidLib} {K : KeyCodec S} {KL : KeyCodecLaws S K}.
Context {TC : TomlCodec CothorityConfig} {TCL : TomlLaws _ TC}.
Context {TG : TomlCodec (list (option ServerToml))} {TGL : TomlLaws _ TG}.

(** The point that comes back. *)
Definition reread (p q : Point) : Prop := ∃ b, point_marshal p = Ret b ∧ point_unmarshal b = (q, None) ∧ q ≡ p.

Lemma reread_exists p : ∃ q, reread p q.
Proof. destruct (point_codec p) as (b & Hb & _ & (q & Hq & Hqp) & _). by exists q, b. Qed.
Lemma reread_equiv p p' q q' : p ≡ p' → reread p q → reread p' q' → q = q'.
Proof.
  intros Hp (b & Hb & Hq & _) (b' & Hb' & Hq' & _). rewrite (point_marshal_proper _ _ Hp), Hb' in Hb. injection Hb as ->.
  rewrite Hq' in Hq. by injection Hq.
Qed.

(** The texts of keys are plain ASCII. *)
Abbreviation ascii := (Forall (λ c, is_ascii c = true)).
Lemma hex_ascii b : ascii (hex_encode b).
Proof.
  apply Hex.hex_encode_all. intros n Hn. unfold is_ascii, hex_digit.
  destruct (n <? 10); rewrite byte_val_of, Z.mod_small by lia; lia.
Qed.
Lemma base64_ascii b : ascii (Base64.EncodeToString b).
Proof.
  apply Base64.Encode_all; [|done]. intros v Hv. unfold is_ascii, Base64.encode_char.
  repeat case_match; try done; rewrite byte_val_of, Z.mod_small by lia; lia.
Qed.

Lemma reader_concat t : concat (NewReader t) = t.
Proof. unfold NewReader. case_decide as E; [by rewrite E|]. cbn. apply app_nil_r. Qed.

(** An entry of a group file. *)
Lemma server_toml_back p q addr desc : reread p q →
  ∃ s, NewServerToml p addr desc = Some s ∧ st_Description s = desc ∧ st_Address s = addr ∧ ascii (st_Public s) ∧
    ∀ text, toServerIdentity (describe text s) = Ret (Network.NewServerIdentity q addr).
Proof.
  intros (b & Hb & Hq & _). unfold NewServerToml. rewrite (write64_point p {| written := []; room := None |} b Hb eq_refl). cbn [written app].
  eexists. split; [done|]. split; [done|]. split; [done|]. split; [apply base64_ascii|].
  intros text. unfold toServerIdentity. cbn [describe st_Public st_Address].
  destruct (point_codec p) as (b' & Hb' & Hlen & _). rewrite Hb in Hb'. injection Hb' as <-.
  destruct (read64_spec point_size point_unmarshal suite_read_point (NewReader (Base64.EncodeToString b)) b [] read_point_law Hlen
    point_size_pos) as (d' & Hd & _); [by rewrite reader_concat, app_nil_r|].
  unfold Read64Point. rewrite Hd, Hq. done.
Qed.

Lemma omapM_deref_Some {A} (l : list A) : omapM (E := error) deref (Some <$> l) = Ret l.
Proof. induction l as [|a l IH]; [done|]. cbn. by rewrite IH. Qed.

(** The servers of a group: key, address and description. *)
Abbreviation entry := (Point * bytes * bytes)%type.
Definition new_entry (e : entry) : option ServerToml := NewServerToml e.1.1 e.1.2 e.2.
Definition shown (desc : bytes) : bytes := if decide (desc = []) then group_text else desc.

Lemma new_entries (es : list entry) qs :
  Forall2 (λ e q, reread e.1.1 q) es qs →
  ∃ ss, new_entry <$> es = Some <$> ss ∧ st_Description <$> (describe group_text <$> ss) = shown <$> es.*2 ∧
    st_Address <$> (describe group_text <$> ss) = es.*1.*2 ∧ Forall (λ s, ascii (st_Public s)) (describe group_text <$> ss) ∧
    omapM described (Some <$> (describe group_text <$> ss))
      = Ret (zip_with (λ e q, (Network.NewServerIdentity q e.1.2, shown e.2)) es qs).
Proof.
  induction 1 as [|[[p addr] desc] q es qs Hq _ IH]; [by exists []|].
  destruct (server_toml_back p q addr desc Hq) as (s & Hs & Hd & Ha & Ht & Hsi), IH as (ss & Hss & Hds & Has & Hts & Hrun).
  exists (s :: ss). cbn in Hd, Ha. subst desc addr. split; [by apply (f_equal2 cons Hs Hss)|].
  split; [by apply (f_equal (cons _) Hds)|]. split; [by apply (f_equal (cons _) Has)|]. split; [by constructor|].
  change (Some <$> (describe group_text <$> (s :: ss))) with (Some (describe group_text s) :: (Some <$> (describe group_text <$> ss))).
  cbn [omapM]. rewrite Hrun. unfold described. cbn [deref obind]. by rewrite Hsi.
Qed.

(** TOML can write what the group has for these entries. *)
Definition writable_group (es : list entry) : Prop := ∀ ss,
  st_Description <$> ss = shown <$> es.*2 → st_Address <$> ss = es.*1.*2 → Forall (λ s, ascii (st_Public s)) ss →
  writable (Some <$> ss).

Lemma group_file (es : list entry) qs u :
  Forall2 (λ e q, reread e.1.1 q) es qs → writable_group es →
  ∃ text gt, group_String (NewGroupToml (new_entry <$> es)) = (Ret text, gt) ∧
    ∃ g, ReadGroupDescToml (Ret text) u = Ret g ∧
      group_Roster g = Rosters.NewRoster (zip_with (λ e q, Network.NewServerIdentity q e.1.2) es qs) u ∧
      ∀ i p addr desc, es !! i = Some (p, addr, desc) → GetDescription g i = shown desc.
Proof.
  intros Hq Hw. destruct (new_entries es qs Hq) as (ss & Hss & Hds & Has & Hts & Hrun).
  unfold group_String, NewGroupToml. rewrite Hss, omapM_deref_Some.
  destruct (toml_roundtrip (Some <$> (describe group_text <$> ss))) as (b & Hb & Hdec); [by apply Hw|].
  assert ((λ s, Some (describe group_text s)) <$> ss = Some <$> (describe group_text <$> ss)) as ->
    by (by rewrite <-list_fmap_compose).
  rewrite Hb. eexists _, _. split; [done|]. unfold ReadGroupDescToml. cbn [obind]. rewrite Hdec. cbn [obind].
  rewrite Hrun. cbn [obind]. eexists. split; [done|]. cbn [group_Roster]. clear -Hq. split.
  - f_equal. induction Hq as [|e q es qs _ _ IH]; [done|]. cbn. by f_equal.
  - intros i p addr desc Hi. unfold GetDescription. cbn [group_Description]. rewrite lookup_map_seq_0.
    destruct (Forall2_lookup_l _ _ _ _ _ Hq Hi) as (q & Hqi & _). by rewrite list_lookup_fmap, lookup_zip_with, Hi, Hqi.
Qed.

(** A group file gives the servers it was written for, in order, with their keys
    and addresses, in a roster with their aggregate key, and their descriptions,
    with a text for those that have none. *)
Theorem group_file_correct (es : list entry) u :
  writable_group es →
  ∃ text gt g, group_String (NewGroupToml (new_entry <$> es)) = (Ret text, gt) ∧ ReadGroupDescToml (Ret text) u = Ret g ∧
    ReadGroupToml (Ret text) u = Ret (group_Roster g) ∧
    Forall2 (λ e si, Network.Public si ≡ e.1.1 ∧ Network.Address si = e.1.2 ∧
               si = Network.NewServerIdentity (Network.Public si) e.1.2) es (Rosters.List (group_Roster g)) ∧
    Rosters.Aggregate (group_Roster g) ≡ foldl (λ agg e, point_add agg e.1.1) point_null es ∧
    ∀ i p addr desc, es !! i = Some (p, addr, desc) → GetDescription g i = shown desc.
Proof.
  intros Hw. assert (∃ qs, Forall2 (λ e q, reread e.1.1 q) es qs) as [qs Hqs].
  { clear Hw. induction es as [|e es [qs IH]]; [by exists []|]. destruct (reread_exists e.1.1) as [q Hq].
    exists (q :: qs). by constructor. }
  destruct (group_file es qs u Hqs Hw) as (text & gt & Ht & g & Hg & Hr & Hd). exists text, gt, g.
  split; [done|]. split; [done|]. split; [unfold ReadGroupToml; by rewrite Hg|]. rewrite Hr. split; [|split; [|done]].
  - cbn. clear -Hqs. induction Hqs as [|e q es qs (b & _ & _ & Hq) _ IH]; [constructor|]. constructor; [done|exact IH].
  - cbn [Rosters.NewRoster Rosters.Aggregate]. clear -Hqs SL. assert (∀ a a' : Point, a ≡ a' →
      foldl (λ agg e, point_add agg (Network.Public e)) a (zip_with (λ e q, Network.NewServerIdentity q e.1.2) es qs)
      ≡ foldl (λ agg (e : entry), point_add agg e.1.1) a' es) as H; [|by apply H].
    induction Hqs as [|e q es qs (b & _ & _ & Hq) _ IH]; intros a a' Ha; [done|]. cbn. apply IH. by rewrite Ha, Hq.
Qed.

(** ** The files of a new server *)

Lemma hex_back p q : reread p q → ∃ t, PointToStringHex p = Ret t ∧ StringHexToPoint t = Ret q ∧ ascii t.
Proof.
  intros (b & Hb & Hq & _). exists (hex_encode b). unfold PointToStringHex. rewrite Hb. cbn [obind]. split; [done|].
  split; [|apply hex_ascii]. destruct (point_codec p) as (b' & Hb' & Hlen & _). rewrite Hb in Hb'. injection Hb' as <-.
  assert (b ≠ []) as Hne by (intros ->; pose proof point_size_pos; cbn in Hlen; lia).
  unfold StringHexToPoint, ReadHexPoint, sbind, NewReader.
  rewrite decide_False by (intros E%(f_equal length); rewrite Hex.length_hex_encode in E; by destruct b).
  rewrite <-Hlen. destruct (getHex_text b [] [] Hne) as (r' & Hr & _). rewrite app_nil_r in Hr. rewrite Hr. cbn. by rewrite Hq.
Qed.

Lemma scalar_back x : ∃ t, ScalarToStringHex x = Ret t ∧ StringHexToScalar t = Ret x ∧ ascii t.
Proof.
  destruct (key_strings_roundtrip point_null x []) as (_ & (t & Ht & Hx) & _). exists t. split; [done|]. split; [done|].
  unfold ScalarToStringHex in Ht. destruct (scalar_marshal x) as [b| | |]; [|done..]. injection Ht as <-. apply hex_ascii.
Qed.

(** A private file that is saved without an error has the comments and the keys. *)
Lemma Write_full w p w' : Write w p = (None, w') → written w' = written w ++ p ∧ (room w = Some 0%nat → p = []).
Proof.
  unfold Write. destruct (room w) as [k|]; [case_decide as Hk|]; intros [= <-]; cbn; (split; [done|]); try done.
  intros [= ->]. destruct p; [done|]. cbn in Hk. lia.
Qed.
Lemma Write_fails w p : (Write w p).1 ≠ None → room (Write w p).2 = Some 0%nat.
Proof. unfold Write. destruct (room w) as [k|]; [case_decide|]; done. Qed.
Lemma Write_no_room w p : room w = Some 0%nat → room (Write w p).2 = Some 0%nat.
Proof. unfold Write. intros ->. case_decide as Hk; cbn; [|done]. by f_equal. Qed.

Lemma Save_writes hc b w w' : Encode hc = Ret b → b ≠ [] → Save hc w = (Ret tt, w') →
  written w' = written w ++ key_comment ++ care_comment ++ b.
Proof.
  intros Hb Hne. unfold Save, sbind, slift, write_unchecked. rewrite Hb. unfold write_text.
  destruct (Write w key_comment) as [e1 w1] eqn:E1. cbn [snd]. destruct (Write w1 care_comment) as [e2 w2] eqn:E2. cbn [snd].
  destruct (Write w2 b) as [e3 w3] eqn:E3. destruct e3; [done|]. intros [= <-].
  pose proof (Write_full _ _ _ E3) as [H3 Hr]. assert (room w2 ≠ Some 0%nat) as Hw2 by (intros H; by apply Hne, Hr).
  destruct e2; [destruct Hw2; pose proof (Write_fails w1 care_comment) as H; rewrite E2 in H; by apply H|].
  destruct e1; [destruct Hw2; pose proof (Write_fails w key_comment) as H; rewrite E1 in H;
                pose proof (Write_no_room w1 care_comment (H ltac:(done))) as H2; by rewrite E2 in H2|].
  pose proof (Write_full _ _ _ E1) as [H1 _]. pose proof (Write_full _ _ _ E2) as [H2 _].
  by rewrite H3, H2, H1, <-!app_assoc.
Qed.

(** The comments of the private file are skipped. *)
Lemma comments_skipped b : Decode (A := CothorityConfig) (key_comment ++ care_comment ++ b) = Decode b.
Proof.
  assert (∀ l, x0a ∉ l → ∀ t, Decode (A := CothorityConfig) ((x23 :: l ++ [x0a]) ++ t) = Decode t) as Hc.
  { intros l Hl t. cbn [app]. rewrite <-app_assoc. by apply toml_comment. }
  unfold key_comment, care_comment. change (str "# This file contains your private key." ++ [x0a]) with
    (x23 :: str " This file contains your private key." ++ [x0a]).
  change (str "# Do not give it away lightly!" ++ [x0a]) with (x23 :: str " Do not give it away lightly!" ++ [x0a]).
  rewrite !Hc; [done|..]; apply (bool_decide_unpack _); vm_compute; exact I.
Qed.

(** The private file starts a server with the secret, key, address and description
    it was made with. *)
Lemma private_file x p q hc b : reread p q →
  ScalarToStringHex x = Ret (conf_Private hc) → PointToStringHex p = Ret (conf_Public hc) → Encode hc = Ret b → Decode b = Ret hc →
  ParseCothority (Ret (key_comment ++ care_comment ++ b)) =
    Ret (hc, {| Network.Public := q; Network.ID := Network.ID (Network.NewServerIdentity q (conf_Address hc));
                Network.Address := conf_Address hc; Network.Description := conf_Description hc |}, x).
Proof.
  intros Hq Hpriv Hpub Hb Hdec. destruct (scalar_back x) as (t & Ht & Hx & _). rewrite Hpriv in Ht. injection Ht as <-.
  destruct (hex_back p q Hq) as (t & Ht & Hpq & _). rewrite Hpub in Ht. injection Ht as <-.
  unfold ParseCothority. cbn [obind]. rewrite comments_skipped, Hdec. cbn [obind]. rewrite Hx. cbn [obind]. by rewrite Hpq.
Qed.
End reading.

(** ** Concrete files *)
Module ConfigExample.
Import Files KeysExample.
#[local] Existing Instance byte_suite.
#[local] Existing Instance byte_suite_laws.
#[local] Existing Instance byte_codec.
#[local] Existing Instance byte_codec_laws.

(** A file of lines: a comment, or a text with a mark before each byte. *)
Definition line (t : bytes) : bytes := concat ((λ c, [x2d; c]) <$> t) ++ [x0a].
Fixpoint lines (comment : bool) (cur b : bytes) : list bytes :=
  match b with
  | [] => []
  | c :: b =>
      if comment then lines (negb (bool_decide (c = x0a))) cur b
      else if bool_decide (c = x23) then lines true cur b
      else if bool_decide (c = x0a) then cur :: lines false [] b
      else match b with [] => [] | d :: b => lines false (cur ++ [d]) b end
  end.

Lemma lines_line t cur b : lines false cur (line t ++ b) = (cur ++ t) :: lines false [] b.
Proof.
  revert cur. induction t as [|c t IH]; intros cur; cbn; [by rewrite app_nil_r|].
  change (lines false (cur ++ [c]) (line t ++ b) = (cur ++ c :: t) :: lines false [] b). by rewrite IH, <-app_assoc.
Qed.
Lemma lines_lines ts : lines false [] (concat (line <$> ts)) = ts.
Proof. induction ts as [|t ts IH]; [done|]. cbn [fmap list_fmap concat]. rewrite lines_line. by f_equal. Qed.
Lemma lines_comment l b : x0a ∉ l → lines false [] (x23 :: l ++ x0a :: b) = lines false [] b.
Proof.
  change (x0a ∉ l → lines true [] (l ++ x0a :: b) = lines false [] b).
  induction l as [|c l IH]; [done|]. rewrite not_elem_of_cons. intros [Hc Hl]. cbn.
  rewrite (bool_decide_eq_false_2 (c = x0a)) by congruence. by apply IH.
Qed.

#[local] Instance toy_conf : TomlCodec CothorityConfig := {|
  Encode c := Ret (concat (line <$> [conf_Public c; conf_Private c; conf_Address c; conf_Description c]));
  Decode b := match lines false [] b with
              | [p; s; a; d] => Ret {| conf_Public := p; conf_Private := s; conf_Address := a; conf_Description := d |}
              | _ => Err "not a configuration" end;
  writable _ := True;
|}.
#[local] Instance toy_conf_laws : TomlLaws CothorityConfig toy_conf.
Proof.
  split.
  - intros [p s a d] _. eexists. split; [done|]. cbn [Decode toy_conf]. by rewrite lines_lines.
  - intros l b Hl. cbn [Decode toy_conf]. by rewrite lines_comment.
Qed.

Fixpoint triples (l : list bytes) : outcome error (list (option ServerToml)) :=
  match l with
  | [] => Ret []
  | a :: p :: d :: l => let! r := triples l in Ret (Some {| st_Address := a; st_Public := p; st_Description := d |} :: r)
  | _ => Err "not a group"
  end.
#[local] Instance toy_group : TomlCodec (list (option ServerToml)) := {|
  Encode g := let! servers := omapM deref g in
              Ret (concat (line <$> concat ((λ s, [st_Address s; st_Public s; st_Description s]) <$> servers)));
  Decode b := triples (lines false [] b);
  writable g := Forall is_Some g;
|}.
#[local] Instance toy_group_laws : TomlLaws (list (option ServerToml)) toy_group.
Proof.
  split.
  - intros g Hg. cbn [Encode Decode writable toy_group] in *.
    assert (∃ ss, g = Some <$> ss) as [ss ->].
    { induction Hg as [|o g [s ->] _ [ss ->]]; [by exists []|by exists (s :: ss)]. }
    rewrite omapM_deref_Some. eexists. split; [done|]. rewrite lines_lines. clear Hg.
    induction ss as [|[a p d] ss IH]; [done|]. cbn. by rewrite IH.
  - intros l b Hl. cbn [Decode toy_group]. by rewrite lines_comment.
Qed.

Lemma writable_toy es : writable_group es.
Proof. intros ss _ _ _. apply Forall_fmap, Forall_true. by eexists. Qed.

Definition two_entries : list (@Point byte_suite * bytes * bytes) := [(x41, str "a", []); (x42, str "b", str "two")].

Lemma group_file_witness : ∃ text gt g,
  group_String (NewGroupToml (new_entry <$> two_entries)) = (Ret text, gt) ∧
  ReadGroupDescToml (Ret text) 7 = Ret g ∧ Rosters.Aggregate (group_Roster g) = x83 ∧
  GetDescription g 0 = group_text ∧ GetDescription g 1 = str "two".
Proof.
  destruct (group_file_correct two_entries 7) as (text & gt & g & Ht & Hg & _ & _ & Ha & Hd);
    [apply writable_toy|].
  exists text, gt, g. split; [exact Ht|]. split; [exact Hg|]. split; [exact Ha|].
  split; [exact (Hd 0%nat x41 (str "a") [] eq_refl)|exact (Hd 1%nat x42 (str "b") (str "two") eq_refl)].
Defined.

(** Errors of writing the comments are not looked at, but the keys come after
    them and do not fit either. *)
Example full_disk :
  (Save_file None (Some 10%nat) {| conf_Public := []; conf_Private := []; conf_Address := []; conf_Description := [] |}).1
  ≠ Ret tt.
Proof. by vm_compute. Qed.
End ConfigExample.
