(* ===== verification/Interactive.v ===== *)
(** * Setting up a server ([imported/onet/app/server.go], [app/io.go])

    [InteractiveConfig] asks the user for the address of a new server, finds the
    address others reach it under, and writes its configuration and group files,
    which [RunServer] and the other servers read.  [Machine] is what the process
    gets from its machine and the network; the user's lines and the disk are its
    state.  [Fatal] ends the process: an error here. *)
From S2P Require Import Prelude GoStrings Address Suite Tree Keys Config.
Import Strings Numbers Net Path Addresses Readers Keys Files.
Local Open Scope Z_scope.

(** ** The machine *)
Inductive node := Dir (mode : Z) | File (mode : Z) (contents : bytes).
Inductive op := OpStat | OpMkdir | OpOpen | OpCreate.

(** The system can refuse an operation on a path for reasons of its own, and has
    room for so many bytes in a file.  [http_Get] is the body, if there is an answer
    and it can be read; [listens] tells whether one can listen on an address within
    two seconds. *)
Class Machine := {
  user_Current : outcome error bytes;
  Getwd : outcome error bytes;
  GOOS : bytes;
  umask : Z;
  refused : op → bytes → option error;
  room_for : bytes → option nat;
  VirtualMemory : option Z * option error;
  http_Get : bytes → option (option bytes);
  listens : bytes → bool;
  Dial : bytes → option error;
  lookupHost : bytes → outcome error (list bytes);
  lower_unicode : bytes → bytes;
  trim_unicode : bytes → bytes;
}.

(** The lines the user types, and the disk, by clean paths. *)
Record World := { typed : list bytes; disk : gmap bytes node }.

Module IO.
Section io.
Context {M : Machine}.

Definition fatal {A} (msg : error) (r : outcome error A) : outcome error A := match r with Err _ => Err msg | _ => r end.

(** *** Files *)
Definition at_path (w : World) (p : bytes) : option node := disk w !! Clean p.
Definition set_path (p : bytes) (n : node) (w : World) : World := {| typed := typed w; disk := <[Clean p := n]> (disk w) |}.

(** [os.Stat]: what is there, if it is, or an error of the system. *)
Definition Stat (w : World) (p : bytes) : outcome error (option node) :=
  match refused OpStat p with Some e => Err e | None => Ret (at_path w p) end.
Definition IsNotExist (r : outcome error (option node)) : bool := match r with Ret None => true | _ => false end.
Definition exists_file (r : outcome error (option node)) : bool := match r with Ret (Some _) => true | _ => false end.

(** Opening a file to read it. *)
Definition Open (w : World) (p : bytes) : outcome error node :=
  match refused OpOpen p, at_path w p with
  | Some e, _ => Err e
  | None, Some n => Ret n
  | None, None => Err "no such file or directory"
  end.
Definition read_file (w : World) (p : bytes) : outcome error bytes :=
  let! n := Open w p in match n with File _ c => Ret c | Dir _ => Err "is a directory" end.

(** Opening a file to write it. *)
Definition create_error (w : World) (p : bytes) : option error :=
  match refused OpCreate p, at_path w p with
  | Some e, _ => Some e
  | None, Some (Dir _) => Some "is a directory"%string
  | None, _ => None
  end.
(** The mode of a file that is written, made with this mode when it is new. *)
Definition mode_of (w : World) (p : bytes) (mode : Z) : Z :=
  match at_path w p with Some (File m _) => m | _ => Z.ldiff mode umask end.
(** [os.Create], whose files have mode 0666, and what is written then. *)
Definition create_mode : Z := 0x1b6.
Definition put (p c : bytes) (w : World) : World := set_path p (File (mode_of w p create_mode) c) w.

(** [os.MkdirAll]: the folders on the way to a path, and itself. *)
Definition ancestors (p : bytes) : list bytes :=
  let c := Clean p in
  omap (λ i, if decide (c !! i = Some x2f) then Some (take i c) else None) (seq 1 (length c - 1)) ++ [c].
Definition is_file (n : option node) : bool := match n with Some (File _ _) => true | _ => false end.
Definition make_dir (mode : Z) (d : gmap bytes node) (a : bytes) : gmap bytes node :=
  match d !! a with Some _ => d | None => <[a := Dir (Z.ldiff mode umask)]> d end.
Definition MkdirAll (p : bytes) (mode : Z) : SM World error unit := λ w,
  match refused OpMkdir p with
  | Some e => (Err e, w)
  | None =>
      if existsb (λ a, is_file (disk w !! a)) (ancestors p) then (Err "not a directory"%string, w)
      else (Ret tt, {| typed := typed w; disk := foldl (make_dir mode) (disk w) (ancestors p) |})
  end.

(** *** [io.go] *)
Definition TildeToHome (p : bytes) : outcome error bytes :=
  if has_prefix (str "~/") p then
    let! home := fatal "Got error while fetching home-directory" user_Current in Ret (home ++ drop 1 p)
  else Ret p.

(** [Input]: the next line, without the space around it. *)
Definition Input (def : bytes) : SM World error bytes := λ w,
  match typed w with
  | [] => (Err "Could not read input."%string, w)
  | l :: ls =>
      let s := TrimSpace trim_unicode l in
      (Ret (if decide (s = []) then def else s), {| typed := ls; disk := disk w |})
  end.

(** [InputYN]: the first byte, as a character, in lower case is [y]. *)
Definition InputYN (def : bool) : SM World error bool :=
  do! s := Input (if def then str "Yn" else str "Ny") in
  do! c := slift (index s 0) in
  sret (bool_decide (c = x79 ∨ c = x59)).

(** [Copy] to a path that is not a folder. *)
Definition node_mode (n : node) : Z := match n with Dir m | File m _ => m end.
Definition copy_file (dst src : bytes) : SM World error unit := λ w,
  match Open w src with
  | Ret n =>
      match create_error w dst with
      | Some e => (Err e, w)
      | None =>
          let mode := mode_of w dst (node_mode n) in
          let before := match at_path w dst with Some (File _ c) => c | _ => [] end in
          match n with
          | Dir _ => (Err "is a directory"%string, set_path dst (File mode before) w)
          | File _ data =>
              let '(r, out) := write_text data {| written := []; room := room_for dst |} in
              (r, set_path dst (File mode (written out ++ drop (length (written out)) before)) w)
          end
      end
  | Err e => (Err e, w)
  | Panic e => (Panic e, w)
  | OutOfFuel => (OutOfFuel, w)
  end.
Fixpoint Copy (fuel : nat) (dst src : bytes) : SM World error unit := λ w,
  match fuel with
  | O => (OutOfFuel, w)
  | S fuel =>
      match Stat w dst with
      | Ret (Some (Dir _)) => Copy fuel (path_Join [dst; path_Base src]) src w
      | _ => copy_file dst src w
      end
  end.
End io.
End IO.

(** ** [server.go] *)
Module Setup.
Import IO.
Section setup.
Context {M : Machine} {S : Suite} {U : UuidLib} {K : KeyCodec S}.
Context {TC : TomlCodec CothorityConfig} {TG : TomlCodec (list (option ServerToml))}.

Definition DefaultServerConfig : bytes := str "private.toml".
Definition DefaultGroupFile : bytes := str "public.toml".
Definition DefaultPort : Z := 6879.
Definition DefaultAddress : bytes := str "127.0.0.1".
Definition portscan : bytes := str "https://dedis.ch/portscan.php".
Definition colon : bytes := str ":".

(** [NewTCPAddress] of [network/tcp.go]; the addresses with this machine's lookups. *)
Definition NewTCPAddress (addr : bytes) : bytes := NewAddress PlainTCP addr.
Abbreviation valid := (Valid lower_unicode).
Abbreviation networkAddress := (NetworkAddress lower_unicode).
Abbreviation public := (Public lookupHost lower_unicode).

(** [checkAvailableMemory]: what it logs. *)
Definition checkAvailableMemory : outcome error (list string) :=
  if decide (GOOS = str "darwin" ∨ GOOS = str "linux") then
    let '(v, err) := VirtualMemory in
    let warned := match err with Some _ => ["Could not get systems memory"%string] | None => [] end in
    let! total := deref v in
    let memoryInMB := total `div` 1024 `div` 1024 in
    Ret (warned ++ (if memoryInMB <=? 512 then ["System has less than 512MB of memory"%string]
                    else if memoryInMB <=? 1024 then ["System has less than 1024MB of memory"%string] else []))
  else Ret [].

(** [askReachableAddress]. *)
Definition askReachableAddress (port : bytes) : SM World error bytes :=
  do! ipStr := Input DefaultAddress in
  slift match Split ipStr colon with
        | [ip; p] =>
            if decide (p ≠ port) then Err "The port you gave is not the same"%string
            else if ParseIP ip then Ret (NewTCPAddress ipStr) else Err "Invalid IP:port address given"%string
        | [_] => if ParseIP ipStr then Ret (NewTCPAddress (ipStr ++ colon ++ port)) else Err "Invalid IP address given"%string
        | _ => Ret (NewTCPAddress ipStr)
        end.

(** [tryConnect]: the error it returns, or the end of the process. *)
Definition tryConnect (ip binding : bytes) : outcome error (option error) :=
  let! b := networkAddress binding in
  if negb (listens b) then Ret (Some "timeout while listening"%string)
  else
    let! na := networkAddress ip in
    match Dial na with
    | Some _ => Err "Could not connect itself to public address"%string
    | None =>
        match SplitHostPort na with
        | None => Ret (Some "missing port in address"%string)
        | Some (_, portStr) =>
            match Atoi portStr with
            | None => Ret (Some "invalid syntax"%string)
            | Some port =>
                match http_Get (portscan ++ str "?port=" ++ Itoa port) with
                | None | Some None => Ret (Some "Could not get your public IP address"%string)
                | Some (Some res) => Ret (if decide (res = str "Open") then None else Some "Portscan returned"%string)
                end
            end
        end
    end.

(** Where to listen: host, port and whether a host was given. *)
Definition binding_of (s : bytes) : outcome error (bytes * bytes * bool) :=
  let s := if Contains s colon then s else colon ++ s in
  match SplitHostPort s with
  | None => Err "Couldn't interpret"%string
  | Some (host, port) =>
      Ret (if decide (s = []) then (str "0.0.0.0", Itoa DefaultPort, false)
           else if decide (host = []) then (str "0.0.0.0", port, false) else (host, port, true))
  end.

(** The address for others, when it can be found without asking. *)
Definition own_address (ipProvided : bool) (serverBinding portStr : bytes) : option bytes :=
  if ipProvided then Some serverBinding
  else match http_Get portscan with
       | Some (Some buff) => Some (NewTCPAddress (TrimSpace trim_unicode buff ++ colon ++ portStr))
       | _ => None
       end.
Definition public_address (found : option bytes) (serverBinding portStr : bytes) : SM World error bytes :=
  match found with
  | None => askReachableAddress portStr
  | Some tryIP =>
      do! p := slift (public tryIP) in
      if p then
        do! err := slift (tryConnect tryIP serverBinding) in
        match err with Some _ => askReachableAddress portStr | None => sret tryIP end
      else sret tryIP
  end.

(** [createKeyPair] of a new key pair. *)
Definition createKeyPair (kp : Scalar * Point) : outcome error (bytes * bytes) :=
  let! privStr := fatal "Error formating private key to hexadecimal" (ScalarToStringHex kp.1) in
  let! pubStr := fatal "Could not parse public key" (PointToStringHex kp.2) in
  Ret (privStr, pubStr).

Definition GetDefaultConfigFile (binaryName : bytes) : outcome error bytes :=
  match user_Current with
  | Err _ => let! curr := fatal "Impossible to get the current directory" Getwd in Ret (path_Join [curr; DefaultServerConfig])
  | Ret home =>
      Ret (if decide (GOOS = str "darwin") then path_Join [home; str "Library"; binaryName; DefaultServerConfig]
           else path_Join [home; str ".config"; binaryName; DefaultServerConfig])
  | Panic e => Panic e
  | OutOfFuel => OutOfFuel
  end.

(** [entityListToPublics]. *)
Definition entityListToPublics (el : Roster) : list Point := Network.Public <$> Rosters.List el.

(** [checkOverwrite]. *)
Definition checkOverwrite (file : bytes) : SM World error bool :=
  do! w := sget in
  if exists_file (Stat w file) then InputYN true else sret true.

(** The loop for the folder of the files. *)
Definition dir_mode : Z := 0x1e4.
Definition configFile (folder : bytes) : bytes := path_Join [folder; DefaultServerConfig].
Definition groupFile (folder : bytes) : bytes := path_Join [folder; DefaultGroupFile].
Definition make_folder (configFolder : bytes) : SM World error unit := λ w,
  if IsNotExist (Stat w configFolder) then
    let '(r, w) := MkdirAll configFolder dir_mode w in (fatal "Could not create directory" r, w)
  else (Ret tt, w).
Fixpoint choose_folder (fuel : nat) (defaultFolder : bytes) : SM World error bytes :=
  match fuel with
  | O => slift OutOfFuel
  | Datatypes.S fuel =>
      do! configFolder := Input defaultFolder in
      do! _ := make_folder configFolder in
      do! ok := checkOverwrite (configFile configFolder) in
      do! ok := (if ok : bool then checkOverwrite (groupFile configFolder) else sret false) in
      if ok then sret configFolder else choose_folder fuel defaultFolder
  end.

(** [saveFiles]. *)
Definition put_if (p : bytes) (c : option bytes) (w : World) : World := match c with Some c => put p c w | None => w end.
Definition saveFiles (conf : CothorityConfig) (fileConf : bytes) (group : list (option ServerToml)) (fileGroup : bytes)
    : SM World error unit :=
  do! _ := (λ w, let '(r, c) := Save_file (create_error w fileConf) (room_for fileConf) conf in
                 (fatal "Unable to write the config to file" r, put_if fileConf c w)) in
  λ w, let '(r, c, _) := group_Save (create_error w fileGroup) (room_for fileGroup) group in
       (fatal "Could not write your group file snippet" r, put_if fileGroup c w).

(** From the address on: keys, description, folder and files. *)
Definition write_config (binaryName : bytes) (kp : Scalar * Point) (publicAddress : bytes) : SM World error unit :=
  do! (privStr, pubStr) := slift (createKeyPair kp) in
  do! description := Input (str "New cothority") in
  let conf := {| conf_Public := pubStr; conf_Private := privStr; conf_Address := publicAddress;
                 conf_Description := description |} in
  do! defaultFile := slift (GetDefaultConfigFile binaryName) in
  do! w := sget in
  do! folder := choose_folder (Datatypes.S (length (typed w))) (path_Dir defaultFile) in
  do! public := slift (fatal "Impossible to parse public key" (StringHexToPoint pubStr)) in
  saveFiles conf (configFile folder) (NewGroupToml [NewServerToml public publicAddress description]) (groupFile folder).

(** [InteractiveConfig] with the key pair that will be made: whether it came to
    write the files. *)
Definition InteractiveConfig (binaryName : bytes) (kp : Scalar * Point) : SM World error bool :=
  do! _ := slift checkAvailableMemory in
  do! s := Input (Itoa DefaultPort) in
  do! (hostStr, portStr, ipProvided) := slift (binding_of s) in
  let serverBinding := NewTCPAddress (hostStr ++ colon ++ portStr) in
  do! v := slift (valid serverBinding) in
  if negb v then sret false
  else
    do! publicAddress := public_address (own_address ipProvided serverBinding portStr) serverBinding portStr in
    do! v := slift (valid publicAddress) in
    if negb v then sthrow "Could not validate public ip address"%string
    else do! _ := write_config binaryName kp publicAddress in sret true.

(** [RunServer]: the server that is started. *)
Definition RunServer (w : World) (configFilename : bytes) : outcome error (CothorityConfig * ServerIdentity * Scalar) :=
  if IsNotExist (Stat w configFilename) then Err "Configuration file does not exists"%string
  else fatal "Couldn't parse config" (ParseCothority (read_file w configFilename)).
End setup.
End Setup.

(** ** Lines and files *)
Section world.
Import IO.
Context {M : Machine}.

Lemma Input_line def w l ls : typed w = l :: ls → TrimSpace trim_unicode l ≠ [] →
  Input def w = (Ret (TrimSpace trim_unicode l), {| typed := ls; disk := disk w |}).
Proof. intros Hw Hl. unfold Input. rewrite Hw. by rewrite decide_False. Qed.

Lemma at_set_path p q n w : at_path (set_path p n w) q = if decide (Clean p = Clean q) then Some n else at_path w q.
Proof.
  unfold at_path, set_path. cbn. case_decide as E; [rewrite E; apply lookup_insert_eq|by apply lookup_insert_ne].
Qed.

Lemma put_reads p c w : refused OpOpen p = None → read_file (put p c w) p = Ret c.
Proof. intros H. unfold read_file, Open, put. rewrite H, at_set_path, decide_True by done. done. Qed.
Lemma put_other p q c w : Clean p ≠ Clean q → at_path (put p c w) q = at_path w q.
Proof. intros H. unfold put. rewrite at_set_path. by rewrite decide_False. Qed.

(** Folders are made where there was nothing. *)
Lemma make_dirs mode l d a :
  foldl (make_dir mode) d l !! a = d !! a ∨ (a ∈ l ∧ d !! a = None ∧ ∃ m, foldl (make_dir mode) d l !! a = Some (Dir m)).
Proof.
  revert d. induction l as [|x l IH]; intros d; [by left|]. cbn.
  assert (make_dir mode d x !! a = d !! a ∨ (a = x ∧ d !! a = None ∧ ∃ m, make_dir mode d x !! a = Some (Dir m))) as Hx.
  { unfold make_dir. destruct (d !! x) eqn:E; [by left|]. destruct (decide (a = x)) as [->|Hne].
    - right. split; [done|]. split; [done|]. rewrite lookup_insert_eq. by eexists.
    - left. by apply lookup_insert_ne. }
  destruct (IH (make_dir mode d x)) as [E|(Hin & Hn & m & E)].
  - destruct Hx as [Hx|(-> & Hn & m & Hx)]; [left; by rewrite E|].
    right. split; [by left|]. split; [done|]. exists m. by rewrite E.
  - destruct Hx as [Hx|(-> & Hn' & m' & Hx)]; [|congruence].
    right. split; [by right|]. split; [by rewrite <-Hx|by exists m].
Qed.

Lemma ancestors_length p a : a ∈ ancestors p → (length a <= length (Clean p))%nat.
Proof.
  unfold ancestors. rewrite elem_of_app, list_elem_of_singleton. intros [H| ->]; [|done].
  apply list_elem_of_omap in H as (i & _ & Hi). case_decide; [|done]. injection Hi as <-. rewrite length_take. lia.
Qed.
End world.

(** The two files of a folder. *)
Section two_files.
Import Setup.

Lemma file_names : plain DefaultServerConfig ∧ plain DefaultGroupFile.
Proof. split; (split; [done|split; [done|apply (bool_decide_unpack _); by vm_compute]]). Qed.
Lemma Clean_files f : Clean (configFile f) = configFile f ∧ Clean (groupFile f) = groupFile f.
Proof. split; apply Clean_Join; (apply Exists_cons_tl, Exists_cons_hd; done). Qed.
Lemma files_differ f : Clean (configFile f) ≠ Clean (groupFile f).
Proof.
  destruct (Clean_files f) as [-> ->]. destruct file_names as [(? & ? & ?) (? & ? & ?)], (path_Join_file f) as [pre Hpre].
  unfold configFile, groupFile. rewrite !Hpre by done. intros E%app_inv_head. discriminate E.
Qed.
Lemma files_not_on_the_way f : configFile f ∉ IO.ancestors f ∧ groupFile f ∉ IO.ancestors f.
Proof.
  destruct file_names as [H1 H2].
  split; intros H%ancestors_length;
    [pose proof (path_Join_longer f DefaultServerConfig H1 ltac:(done) ltac:(done)) as Hl; unfold configFile in H
    |pose proof (path_Join_longer f DefaultGroupFile H2 ltac:(done) ltac:(done)) as Hl; unfold groupFile in H]; lia.
Qed.
End two_files.

(** ** The address *)
Section addressing.
Import IO Setup.
Context {M : Machine}.

Lemma JoinHostPort_plain host port : x3a ∉ host → JoinHostPort host port = host ++ colon ++ port.
Proof. intros H. unfold JoinHostPort. by rewrite (proj2 (IndexByte_None host x3a) H). Qed.

Abbreviation okhost := (host_ok lower_unicode).

Lemma host_not_empty host : okhost host → host ≠ [].
Proof. by intros [H|[_ H]] ->. Qed.

(** A host that is not an IPv6 address, with a port. *)
Lemma given_binding host p : okhost host → x3a ∉ host → 0 <= p <= 65535 →
  binding_of (host ++ colon ++ Itoa p) = Ret (host, Itoa p, true) ∧
  Valid lower_unicode (NewTCPAddress (host ++ colon ++ Itoa p)) = Ret true.
Proof.
  intros Hh Hc Hp. rewrite <-JoinHostPort_plain by done.
  destruct (parts_NewAddress lookupHost lower_unicode PlainTCP host p) as [Hparts _]; [by left|done|done|].
  split.
  - unfold binding_of. rewrite JoinHostPort_plain, Contains_app by done.
    destruct Hparts as (hp & _ & _ & _). rewrite <-JoinHostPort_plain by done.
    rewrite SplitHostPort_Join; try (apply Itoa_no; [lia|]; by intros b (? & ? & ? & ?)%digit_no);
      try (intros Hin; by destruct (host_ok_chars lookupHost lower_unicode host _ Hh Hin) as (? & ? & ?)).
    rewrite decide_False by apply JoinHostPort_not_nil. by rewrite decide_False by by apply host_not_empty.
  - unfold NewTCPAddress. rewrite (Valid_parts _ _ _ _ _ _ Hparts).
    destruct Hh as [->|[_ ->]]; [done|]. by destruct (ParseIP host).
Qed.
End addressing.

(** ** A new server *)
Section new_server.
Import IO Setup.
Context {M : Machine} {S : Suite} {SL : SuiteLaws S} {U : UuidLib} {K : KeyCodec S} {KL : KeyCodecLaws S K}.
Context {TC : TomlCodec CothorityConfig} {TCL : TomlLaws _ TC}.
Context {TG : TomlCodec (list (option ServerToml))} {TGL : TomlLaws _ TG}.

(** A folder that is there, or can be made, without the two files. *)
Record fresh (w : World) (folder : bytes) : Prop := {
  fresh_folder : (∃ m, at_path w folder = Some (Dir m)) ∨
                 (at_path w folder = None ∧ existsb (λ a, is_file (disk w !! a)) (ancestors folder) = false);
  fresh_config : at_path w (configFile folder) = None;
  fresh_group : at_path w (groupFile folder) = None;
}.

Lemma choose_folder_fresh n def w l ls :
  (∀ o p, refused o p = None) → typed w = l :: ls → TrimSpace trim_unicode l ≠ [] → fresh w (TrimSpace trim_unicode l) →
  ∃ w', choose_folder (Datatypes.S n) def w = (Ret (TrimSpace trim_unicode l), w') ∧ typed w' = ls ∧
    at_path w' (configFile (TrimSpace trim_unicode l)) = None ∧ at_path w' (groupFile (TrimSpace trim_unicode l)) = None.
Proof.
  intros Hr Hw Hl Hf. set (folder := TrimSpace trim_unicode l) in *. cbn [choose_folder]. unfold sbind at 1.
  rewrite (Input_line def w l ls Hw Hl). fold folder. unfold sbind at 1.
  set (w1 := {| typed := ls; disk := disk w |}).
  assert (∃ w2, make_folder folder w1 = (Ret tt, w2) ∧ typed w2 = ls ∧
     at_path w2 (configFile folder) = None ∧ at_path w2 (groupFile folder) = None) as (w2 & -> & Hls & Hc & Hg).
  { unfold make_folder, Stat. rewrite Hr. destruct Hf as [Hdir Hc Hg]. destruct Hdir as [[m Hd]|[Hd Ha]].
    - exists w1. assert (at_path w1 folder = Some (Dir m)) as -> by exact Hd. by split.
    - assert (at_path w1 folder = None) as -> by exact Hd. cbn [IsNotExist]. unfold MkdirAll. rewrite Hr.
      change (disk w1) with (disk w). rewrite Ha. eexists. split; [done|]. split; [done|].
      destruct (files_not_on_the_way folder) as [Nc Ng], (Clean_files folder) as [Cc Cg].
      unfold at_path in *. cbn [disk]. rewrite Cc, Cg in *.
      split; [destruct (make_dirs dir_mode (ancestors folder) (disk w) (configFile folder)) as [->|(? & _)]
             |destruct (make_dirs dir_mode (ancestors folder) (disk w) (groupFile folder)) as [->|(? & _)]]; done. }
  exists w2. unfold checkOverwrite, sbind, sget, Stat. rewrite !Hr, Hc. cbn [exists_file]. unfold sret. rewrite Hg. done.
Qed.

(** Both files are written when nothing is in the way. *)
Lemma saveFiles_writes conf f group b text gt w :
  (∀ o p, refused o p = None) → (∀ p, room_for p = None) → Encode conf = Ret b → group_String group = (Ret text, gt) →
  at_path w (configFile f) = None → at_path w (groupFile f) = None →
  saveFiles conf (configFile f) group (groupFile f) w =
    (Ret tt, put (groupFile f) text (put (configFile f) (key_comment ++ care_comment ++ b) w)).
Proof.
  intros Hr Hroom Hb Ht Hc Hg. unfold saveFiles, sbind at 1. unfold create_error at 1. rewrite Hr, Hc, Hroom. unfold Save_file.
  assert (Save conf {| written := []; room := None |} =
    (Ret tt, {| written := key_comment ++ care_comment ++ b; room := None |})) as ->.
  { unfold Save, sbind, slift, write_unchecked. rewrite Hb. cbn [Write room written snd app].
    unfold write_text. cbn [Write room written]. by rewrite <-app_assoc. }
  cbn [fatal written put_if]. unfold create_error. rewrite Hr, put_other, Hg, Hroom by apply files_differ.
  unfold group_Save. rewrite Ht. done.
Qed.

Lemma createKeyPair_texts kp : ∃ priv pub, createKeyPair kp = Ret (priv, pub) ∧
  ScalarToStringHex kp.1 = Ret priv ∧ PointToStringHex kp.2 = Ret pub ∧ Forall (λ c, is_ascii c = true) priv ∧
  Forall (λ c, is_ascii c = true) pub.
Proof.
  destruct (scalar_back kp.1) as (priv & Hpriv & _ & Ha), (reread_exists kp.2) as [q Hq].
  destruct (hex_back kp.2 q Hq) as (pub & Hpub & _ & Hb). exists priv, pub. unfold createKeyPair. by rewrite Hpriv, Hpub.
Qed.

Lemma reread_self p q : reread p q → reread q q.
Proof.
  intros Hq. destruct (reread_exists q) as [q' Hq']. pose proof Hq as (_ & _ & _ & Hqp).
  by rewrite (reread_equiv p q q q') at 2; [|symmetry|..].
Qed.

(** What the files of a server with this key pair, address and description give. *)
Record server_files (kp : Scalar * Point) (addr desc : bytes) (w : World) (folder : bytes) : Prop := {
  sf_server : ∃ hc si, RunServer w (configFile folder) = Ret (hc, si, kp.1) ∧ Network.Public si ≡ kp.2 ∧
    Network.Address si = addr ∧ Network.Description si = desc ∧
    ∀ u, ∃ g e, ReadGroupDescToml (read_file w (groupFile folder)) u = Ret g ∧ Rosters.List (group_Roster g) = [e] ∧
      Network.Public e = Network.Public si ∧ Network.ID e = Network.ID si ∧ Network.Address e = addr ∧
      GetDescription g 0 = shown desc;
}.

(** TOML can write the configuration and the group of any keys with this address
    and description. *)
Definition writable_server (addr desc : bytes) : Prop :=
  (∀ pub priv, Forall (λ c, is_ascii c = true) pub → Forall (λ c, is_ascii c = true) priv →
    writable {| conf_Public := pub; conf_Private := priv; conf_Address := addr; conf_Description := desc |}) ∧
  (∀ p, writable_group [(p, addr, desc)]).

Lemma write_config_files binaryName kp addr w l2 l3 rest defaultFile :
  (∀ o p, refused o p = None) → (∀ p, room_for p = None) → GetDefaultConfigFile binaryName = Ret defaultFile →
  typed w = l2 :: l3 :: rest → TrimSpace trim_unicode l2 ≠ [] → TrimSpace trim_unicode l3 ≠ [] →
  fresh w (TrimSpace trim_unicode l3) → writable_server addr (TrimSpace trim_unicode l2) →
  ∃ w', write_config binaryName kp addr w = (Ret tt, w') ∧ typed w' = rest ∧
    server_files kp addr (TrimSpace trim_unicode l2) w' (TrimSpace trim_unicode l3).
Proof.
  intros Hr Hroom Hdef Hw H2 H3 Hf [Hconf Hgroup]. destruct (createKeyPair_texts kp) as (priv & pub & Hkp & Hpriv & Hpub & Ap & Au).
  destruct (reread_exists kp.2) as [q Hq]. destruct (hex_back kp.2 q Hq) as (t & Ht & Hpq & _). rewrite Hpub in Ht. injection Ht as <-.
  set (desc := TrimSpace trim_unicode l2) in *. set (folder := TrimSpace trim_unicode l3) in *.
  set (conf := {| conf_Public := pub; conf_Private := priv; conf_Address := addr; conf_Description := desc |}).
  destruct (toml_roundtrip conf) as (b & Hb & Hdec); [by apply Hconf|].
  destruct (group_file [(q, addr, desc)] [q] 0) as (text & gt & Ht & _); [repeat constructor; by eapply reread_self|done|].
  unfold write_config, sbind at 1, slift at 1. rewrite Hkp. unfold sbind at 1. rewrite (Input_line _ w l2 (l3 :: rest) Hw H2).
  fold desc conf. unfold sbind at 1, slift at 1. rewrite Hdef. unfold sbind at 1. cbn [sget]. unfold sbind at 1.
  match goal with |- context [choose_folder (Datatypes.S ?n) ?d ?w] =>
    destruct (choose_folder_fresh n d w l3 rest Hr eq_refl H3) as (w2 & -> & Hls & Hc & Hg) end.
  { destruct Hf. by constructor. }
  fold folder in Hc, Hg |- *. unfold sbind at 1, slift at 1. rewrite Hpq. cbn [fatal].
  change (NewGroupToml [NewServerToml q addr desc]) with (NewGroupToml (new_entry <$> [(q, addr, desc)])).
  rewrite (saveFiles_writes conf folder _ b text gt w2 Hr Hroom Hb Ht Hc Hg). eexists. split; [done|]. split; [done|]. constructor.
  exists conf. eexists. split; [|split; [|split; [|split]]]; cycle 4.
  - intros u. rewrite put_reads by done.
    destruct (group_file [(q, addr, desc)] [q] u) as (text' & gt' & Ht' & g & Hgr & Hro & Hd);
      [repeat constructor; by eapply reread_self|done|].
    rewrite Ht in Ht'. injection Ht' as <- _. exists g. eexists. split; [exact Hgr|]. rewrite Hro. split; [done|].
    instantiate (1 := {| Network.Public := q; Network.ID := Network.ID (Network.NewServerIdentity q addr); Network.Address := addr;
                         Network.Description := desc |}).
    split; [done|]. split; [done|]. split; [done|]. by apply (Hd 0%nat q addr desc).
  - assert (∃ m, at_path (put (groupFile folder) text (put (configFile folder) (key_comment ++ care_comment ++ b) w2))
      (configFile folder) = Some (File m (key_comment ++ care_comment ++ b))) as [m Hat].
    { rewrite put_other by (symmetry; apply files_differ). unfold put. rewrite at_set_path, decide_True by done. by eexists. }
    unfold RunServer, Stat, read_file, Open. rewrite !Hr, Hat. cbn [IsNotExist obind].
    by rewrite (private_file kp.1 kp.2 q conf b Hq Hpriv Hpub Hb Hdec).
  - by destruct Hq as (? & ? & ? & ?).
  - done.
  - done.
Qed.

(** C25: A server at a host name or an IPv4 address and a port, which is private or
    can be reached: when its folder has no configuration, nothing is refused and
    its texts can be written, its files are written.  The configuration starts a
    server with the new key pair, this address and description, and the group has
    one server, the same one. *)
Theorem interactive_config_correct binaryName kp host p w l1 l2 l3 rest logs defaultFile :
  let addr := NewTCPAddress (host ++ colon ++ Itoa p) in
  host_ok lower_unicode host → x3a ∉ host → 0 <= p <= 65535 →
  Public lookupHost lower_unicode addr = Ret false ∨
    (Public lookupHost lower_unicode addr = Ret true ∧ tryConnect addr addr = Ret None) →
  (∀ o p, refused o p = None) → (∀ p, room_for p = None) → checkAvailableMemory = Ret logs →
  GetDefaultConfigFile binaryName = Ret defaultFile →
  typed w = l1 :: l2 :: l3 :: rest → TrimSpace trim_unicode l1 = host ++ colon ++ Itoa p →
  TrimSpace trim_unicode l2 ≠ [] → TrimSpace trim_unicode l3 ≠ [] →
  fresh w (TrimSpace trim_unicode l3) → writable_server addr (TrimSpace trim_unicode l2) →
  ∃ w', InteractiveConfig binaryName kp w = (Ret true, w') ∧ typed w' = rest ∧
    server_files kp addr (TrimSpace trim_unicode l2) w' (TrimSpace trim_unicode l3).
Proof.
  intros addr Hh Hc Hp Hpub Hr Hroom Hmem Hdef Hw H1 H2 H3 Hf Hwr. destruct (given_binding host p Hh Hc Hp) as [Hb Hv].
  fold addr in Hv. unfold InteractiveConfig, sbind at 1, slift at 1. rewrite Hmem. unfold sbind at 1.
  rewrite (Input_line _ w l1 (l2 :: l3 :: rest) Hw) by (rewrite H1; by destruct host). rewrite H1.
  unfold sbind at 1, slift at 1. rewrite Hb. fold addr. unfold sbind at 1, slift at 1. rewrite Hv. cbn [negb].
  set (w1 := {| typed := l2 :: l3 :: rest; disk := disk w |}).
  assert (public_address (own_address true addr (Itoa p)) addr (Itoa p) w1 = (Ret addr, w1)) as Ha.
  { unfold public_address, own_address, sbind, slift. by destruct Hpub as [->|[-> ->]]. }
  unfold sbind at 1. rewrite Ha. unfold sbind at 1, slift at 1. rewrite Hv. cbn [negb].
  destruct (write_config_files binaryName kp addr w1 l2 l3 rest defaultFile) as (w' & Hrun & Hls & Hsf); [done..| |done|].
  { destruct Hf. by constructor. }
  exists w'. unfold sbind. by rewrite Hrun.
Qed.
End new_server.

(** ** What a run changes *)
Section safety.
Import IO Setup.
Context {M : Machine} {S : Suite} {U : UuidLib} {K : KeyCodec S}.
Context {TC : TomlCodec CothorityConfig} {TG : TomlCodec (list (option ServerToml))}.

(** Lines are read; what is new on the disk are folders. *)
Definition only_dirs (w w' : World) : Prop :=
  (∃ taken, typed w = taken ++ typed w') ∧
  ∀ p, disk w' !! p = disk w !! p ∨ (disk w !! p = None ∧ ∃ m, disk w' !! p = Some (Dir m)).
Definition asks (w w' : World) : Prop := (∃ taken, typed w = taken ++ typed w') ∧ disk w' = disk w.

#[local] Instance asks_preorder : PreOrder asks.
Proof.
  split; [by split; [exists []|]|]. intros w1 w2 w3 [[t1 E1] D1] [[t2 E2] D2]. split; [|congruence].
  exists (t1 ++ t2). by rewrite <-app_assoc, <-E2.
Qed.
#[local] Instance only_dirs_preorder : PreOrder only_dirs.
Proof.
  split; [split; [by exists []|by left]|]. intros w1 w2 w3 [[t1 E1] D1] [[t2 E2] D2]. split.
  - exists (t1 ++ t2). by rewrite <-app_assoc, <-E2.
  - intros p. destruct (D1 p) as [A1|(A1 & m1 & B1)], (D2 p) as [A2|(A2 & m2 & B2)]; [left; congruence|right..|congruence].
    + split; [congruence|by exists m2].
    + split; [done|]. exists m1. congruence.
Qed.
Lemma asks_only_dirs w w' : asks w w' → only_dirs w w'.
Proof. intros [H E]. split; [done|]. intros p. left. by rewrite E. Qed.

Lemma Input_asks def : preserves asks (Input def).
Proof. intros w. unfold Input. destruct (typed w) as [|l ls] eqn:E; [reflexivity|]. split; [exists [l]|]; done. Qed.
Lemma InputYN_asks def : preserves asks (InputYN def).
Proof.
  apply preserves_bind; [apply _|apply Input_asks|]. intros t. apply preserves_bind; [apply _|apply preserves_lift, _|].
  intros c. apply preserves_ret, _.
Qed.
Lemma checkOverwrite_asks f : preserves asks (checkOverwrite f).
Proof. apply preserves_get_bind. intros w. case_match; [apply InputYN_asks|reflexivity]. Qed.
Lemma askReachableAddress_asks port : preserves asks (askReachableAddress port).
Proof. apply preserves_bind; [apply _|apply Input_asks|]. intros t. apply preserves_lift, _. Qed.
#[local] Ltac keep := first [apply preserves_ret | apply preserves_lift | apply preserves_throw]; apply _.
Lemma public_address_asks found b port : preserves asks (public_address found b port).
Proof.
  unfold public_address. destruct found as [a|]; [|apply askReachableAddress_asks].
  apply preserves_bind; [apply _|keep|]. intros [|]; [|keep].
  apply preserves_bind; [apply _|keep|]. intros [e|]; [apply askReachableAddress_asks|keep].
Qed.
Lemma make_folder_dirs f : preserves only_dirs (make_folder f).
Proof.
  intros w. unfold make_folder. case_match; [|reflexivity]. unfold MkdirAll. repeat case_match; simplify_eq/=; try reflexivity.
  split; [by exists []|]. intros p. cbn. destruct (make_dirs dir_mode (ancestors f) (disk w) p) as [?|(_ & ? & ?)]; auto.
Qed.

(** The answer to the question whether a file is overwritten. *)
Definition says_yes (l : bytes) : Prop :=
  TrimSpace trim_unicode l = [] ∨ ∃ t, TrimSpace trim_unicode l = x79 :: t ∨ TrimSpace trim_unicode l = x59 :: t.

Lemma InputYN_yes w w' : InputYN true w = (Ret true, w') → ∃ l, typed w = l :: typed w' ∧ says_yes l.
Proof.
  unfold InputYN, Input, sbind, slift, sret. destruct (typed w) as [|l ls]; [done|]. intros H. exists l. unfold says_yes.
  destruct (TrimSpace trim_unicode l) as [|c t] eqn:E; cbn in H; [injection H as <-; by split; [|left]|].
  injection H as Hc <-. apply bool_decide_eq_true in Hc. split; [done|]. right. exists t. by destruct Hc as [-> | ->]; [left|right].
Qed.

(** A file that was there is overwritten after a yes. *)
Definition consented (w w' : World) (f : bytes) : Prop :=
  ∀ n, at_path w f = Some n → ∃ l taken, typed w = taken ++ typed w' ∧ l ∈ taken ∧ says_yes l.

Lemma consented_step w1 w2 w3 f :
  only_dirs w1 w2 → consented w2 w3 f → consented w1 w3 f.
Proof.
  intros [[t E] D] H n Hn. destruct (H n) as (l & taken & E2 & Hin & Hy).
  { unfold at_path in *. destruct (D (Clean f)) as [->|(? & _)]; congruence. }
  exists l, (t ++ taken). rewrite E, E2, app_assoc. split; [done|]. split; [|done]. apply elem_of_app. by right.
Qed.
Lemma consented_later w1 w2 w3 f : consented w1 w2 f → only_dirs w2 w3 → consented w1 w3 f.
Proof.
  intros H [[t E] _] n Hn. destruct (H n Hn) as (l & taken & E1 & Hin & Hy).
  exists l, (taken ++ t). rewrite E1, E, app_assoc. split; [done|]. split; [|done]. apply elem_of_app. by left.
Qed.

Lemma checkOverwrite_yes f w w' : (∀ p, refused OpStat p = None) → checkOverwrite f w = (Ret true, w') → consented w w' f.
Proof.
  intros Hr. unfold checkOverwrite, sbind, sget, Stat. rewrite Hr. intros H n Hn. rewrite Hn in H. cbn in H.
  destruct (InputYN_yes w w' H) as (l & E & Hy). exists l, [l]. split; [done|]. split; [by left|done].
Qed.

Lemma choose_folder_dirs n d : preserves only_dirs (choose_folder n d).
Proof.
  assert (∀ f, preserves only_dirs (checkOverwrite f)) as Hco by (intros f w; apply asks_only_dirs, checkOverwrite_asks).
  induction n as [|n IH]; [cbn; keep|]. cbn [choose_folder].
  apply preserves_bind; [apply _|intros w; apply asks_only_dirs, Input_asks|]. intros folder.
  apply preserves_bind; [apply _|apply make_folder_dirs|]. intros _.
  apply preserves_bind; [apply _|apply Hco|]. intros ok.
  apply preserves_bind; [apply _|destruct ok; [apply Hco|keep]|]. intros [|]; [keep|apply IH].
Qed.

Lemma choose_folder_consent n d w folder w' : (∀ p, refused OpStat p = None) →
  choose_folder n d w = (Ret folder, w') → consented w w' (configFile folder) ∧ consented w w' (groupFile folder).
Proof.
  intros Hr. revert w. induction n as [|n IH]; intros w; [done|]. cbn [choose_folder]. unfold sbind.
  pose proof (Input_asks d w) as HI%asks_only_dirs. destruct (Input d w) as [[f| | |] w1]; [|done..]. cbn [snd] in HI.
  pose proof (make_folder_dirs f w1) as HM. destruct (make_folder f w1) as [[[]| | |] w2]; [|done..]. cbn [snd] in HM.
  pose proof (checkOverwrite_asks (configFile f) w2) as HC%asks_only_dirs.
  destruct (checkOverwrite (configFile f) w2) as [[[]| | |] w3] eqn:EC; [| |done..]; cbn [snd] in HC.
  - pose proof (checkOverwrite_asks (groupFile f) w3) as HG%asks_only_dirs.
    destruct (checkOverwrite (groupFile f) w3) as [[[]| | |] w4] eqn:EG; [| |done..]; cbn [snd] in HG.
    + intros [= <- <-]. apply checkOverwrite_yes in EC, EG; [|done..]. split.
      * eapply consented_step; [etrans; [exact HI|exact HM]|]. by eapply consented_later.
      * eapply consented_step; [|exact EG]. etrans; [exact HI|]. by etrans; [exact HM|].
    + intros [H1 H2]%IH. assert (only_dirs w w4) as H by (repeat (etrans; [eassumption|]); reflexivity).
      split; by eapply consented_step.
  - intros [H1 H2]%IH. assert (only_dirs w w3) as H by (repeat (etrans; [eassumption|]); reflexivity).
    split; by eapply consented_step.
Qed.

(** The loop ends: each round takes a line. *)
Lemma choose_folder_ends n d w : (length (typed w) < n)%nat → (choose_folder n d w).1 ≠ OutOfFuel.
Proof.
  revert w. induction n as [|n IH]; intros w Hn; [lia|]. cbn [choose_folder]. unfold sbind.
  unfold Input. destruct (typed w) as [|l ls] eqn:E; [done|]. set (w1 := {| typed := ls; disk := disk w |}).
  set (f := if decide _ then _ else _). assert ((make_folder f w1).1 ≠ OutOfFuel) as HM.
  { unfold make_folder, MkdirAll. repeat case_match; simplify_eq/=; done. }
  pose proof (make_folder_dirs f w1) as [[t1 E1] _]. destruct (make_folder f w1) as [[| | |] w2]; [|done..]. cbn [snd] in E1.
  assert (∀ g v, (checkOverwrite g v).1 ≠ OutOfFuel) as HC.
  { intros g v. unfold checkOverwrite, InputYN, Input, sbind, sget, sret, slift, index. repeat case_match; simplify_eq/=; done. }
  specialize (HC (configFile f) w2) as HC1. pose proof (checkOverwrite_asks (configFile f) w2) as [[t2 E2] _].
  destruct (checkOverwrite (configFile f) w2) as [[[]| | |] w3]; [| |done..]; cbn [snd] in E2.
  - specialize (HC (groupFile f) w3) as HC2. pose proof (checkOverwrite_asks (groupFile f) w3) as [[t3 E3] _].
    destruct (checkOverwrite (groupFile f) w3) as [[[]| | |] w4]; [done| |done..]; cbn [snd] in E3.
    apply IH. apply (f_equal length) in E1, E2, E3. rewrite length_app in E1, E2, E3. cbn in E1, Hn. lia.
  - apply IH. apply (f_equal length) in E1, E2. rewrite length_app in E1, E2. cbn in E1, Hn. lia.
Qed.

(** Only the two files of a folder change, after a yes where they were there;
    what else is new are folders. *)
Record changes (w w' : World) (folder : bytes) : Prop := {
  changes_lines : ∃ taken, typed w = taken ++ typed w';
  changes_others p : Clean p ≠ configFile folder → Clean p ≠ groupFile folder →
    at_path w' p = at_path w p ∨ (at_path w p = None ∧ ∃ m, at_path w' p = Some (Dir m));
  changes_files f : f = configFile folder ∨ f = groupFile folder → at_path w' f ≠ at_path w f → consented w w' f;
}.

Lemma only_dirs_changes w w' folder : only_dirs w w' → changes w w' folder.
Proof.
  intros [Hl Hd]. constructor; [done|intros p _ _; apply Hd|]. intros f _ Hne n Hn.
  unfold at_path in *. destruct (Hd (Clean f)) as [|(? & _)]; congruence.
Qed.
Lemma changes_step w1 w2 w3 folder : only_dirs w1 w2 → changes w2 w3 folder → changes w1 w3 folder.
Proof.
  intros Hd [[t3 E3] Ho Hf]. pose proof Hd as [[t2 E2] D]. constructor.
  - exists (t2 ++ t3). by rewrite <-app_assoc, <-E3.
  - intros p Hc Hg. unfold at_path in *.
    destruct (D (Clean p)) as [E|(E & m & E')], (Ho p Hc Hg) as [F|(F & m' & F')];
      [left; congruence|right; split; [congruence|by exists m']|right; split; [done|exists m; congruence]|congruence].
  - intros f Hin Hne n Hn. assert (at_path w2 f = Some n) as Hn2.
    { unfold at_path in *. destruct (D (Clean f)) as [|(? & _)]; congruence. }
    assert (consented w1 w3 f) as H; [|by apply (H n)]. apply (consented_step w1 w2 w3 f Hd), (Hf f Hin). congruence.
Qed.

Lemma saveFiles_changes conf fc group fg w :
  typed (saveFiles conf fc group fg w).2 = typed w ∧
  ∀ p, Clean p ≠ Clean fc → Clean p ≠ Clean fg → at_path (saveFiles conf fc group fg w).2 p = at_path w p.
Proof.
  assert (∀ f c v, typed (put_if f c v) = typed v ∧ ∀ p, Clean p ≠ Clean f → at_path (put_if f c v) p = at_path v p) as Hput.
  { intros f [c|] v; [|done]. split; [done|]. intros p Hp. apply put_other. by symmetry. }
  unfold saveFiles, sbind. destruct (Save_file _ _ conf) as [r c]. destruct (Hput fc c w) as [T1 P1].
  set (w1 := put_if fc c w) in *. destruct (fatal _ r); cbn [snd]; try (split; [done|]; intros p Hp _; by apply P1).
  destruct (group_Save _ _ group) as [[r' c'] g]. destruct (Hput fg c' w1) as [T2 P2]. cbn [snd].
  split; [congruence|]. intros p Hc Hg. by rewrite P2, P1.
Qed.

Lemma write_config_changes binaryName kp addr w : (∀ p, refused OpStat p = None) →
  ∃ folder, changes w (write_config binaryName kp addr w).2 folder.
Proof.
  intros Hr. assert (∃ folder, changes w w folder) as Hsame by (exists []; apply only_dirs_changes; reflexivity).
  unfold write_config, sbind at 1, slift at 1. destruct (createKeyPair kp) as [[priv pub]| | |]; [|done..].
  unfold sbind at 1. pose proof (Input_asks (str "New cothority") w) as HI%asks_only_dirs.
  destruct (Input (str "New cothority") w) as [[desc| | |] w1]; cbn [snd] in HI;
    [|by exists []; apply only_dirs_changes..].
  unfold sbind at 1, slift at 1. destruct (GetDefaultConfigFile binaryName) as [d| | |]; [|by exists []; apply only_dirs_changes..].
  unfold sbind at 1. cbn [sget]. unfold sbind at 1. set (n := Datatypes.S _).
  pose proof (choose_folder_dirs n (path_Dir d) w1) as HC.
  destruct (choose_folder n (path_Dir d) w1) as [[folder| | |] w2] eqn:EC; cbn [snd] in HC;
    [|exists []; apply only_dirs_changes; by etrans..].
  apply choose_folder_consent in EC as [Cc Cg]; [|done]. assert (only_dirs w w2) as HD by by etrans.
  unfold sbind at 1, slift at 1. destruct (fatal _ (StringHexToPoint pub)) as [p| | |]; [|by exists []; apply only_dirs_changes..].
  exists folder. apply (changes_step w w1 _ folder HI).
  set (conf := {| conf_Public := pub; conf_Private := priv; conf_Address := addr; conf_Description := desc |}).
  set (group := NewGroupToml [NewServerToml p addr desc]).
  destruct (saveFiles_changes conf (configFile folder) group (groupFile folder) w2) as [Ht Hp].
  destruct (Clean_files folder) as [Kc Kg]. rewrite Kc, Kg in Hp. set (w3 := (saveFiles _ _ _ _ w2).2) in *.
  destruct HC as [[t E] D]. constructor.
  - exists t. by rewrite Ht.
  - intros q Hc Hg. rewrite Hp by done. apply D.
  - intros f [-> | ->] _; [revert Cc|revert Cg]; unfold consented; by rewrite Ht.
Qed.

(** Whatever the user types, the machine has and the network answers: a run that
    does not come to writing files changes nothing on the disk; another one changes
    the two files of one folder, those that were there after a yes to overwriting
    them, and makes folders where there was nothing. *)
Theorem interactive_config_safe binaryName kp w r w' :
  (∀ p, refused OpStat p = None) → InteractiveConfig binaryName kp w = (r, w') →
  (r = Ret false → disk w' = disk w) ∧ ∃ folder, changes w w' folder.
Proof.
  intros Hr. unfold InteractiveConfig.
  assert (∀ v (r0 : outcome error bool), asks w v → (r0, v) = (r, w') → (r = Ret false → disk w' = disk w) ∧ ∃ folder, changes w w' folder) as Hasks.
  { intros v r0 H [= _ <-]. split; [intros _; apply H|]. exists []. by apply only_dirs_changes, asks_only_dirs. }
  unfold sbind at 1, slift at 1. destruct checkAvailableMemory as [logs| | |]; [|by apply Hasks..].
  unfold sbind at 1. pose proof (Input_asks (Itoa DefaultPort) w) as HI.
  destruct (Input (Itoa DefaultPort) w) as [[s| | |] w1]; cbn [snd] in HI; [|by apply Hasks..].
  unfold sbind at 1, slift at 1. destruct (binding_of s) as [[[host port] given]| | |]; [|by apply Hasks..].
  unfold sbind at 1, slift at 1. destruct (Valid _ _) as [[]| | |]; cbn [negb]; [|by apply Hasks..].
  set (b := NewTCPAddress _). unfold sbind at 1. pose proof (public_address_asks (own_address given b port) b port w1) as HP.
  destruct (public_address _ b port w1) as [[a| | |] w2]; cbn [snd] in HP; [|by apply (Hasks w2); etrans..].
  assert (asks w w2) as HD by by etrans.
  unfold sbind at 1, slift at 1. destruct (Valid _ a) as [[]| | |]; cbn [negb]; [|by apply (Hasks w2)..].
  unfold sbind. destruct (write_config_changes binaryName kp a w2 Hr) as [folder Hc].
  assert (changes w (write_config binaryName kp a w2).2 folder) as Hch by by apply (changes_step _ w2); [apply asks_only_dirs|].
  destruct (write_config binaryName kp a w2) as [[[]| | |] w3]; cbn [snd] in *; intros [= <- <-]; (split; [done|by exists folder]).
Qed.
End safety.

(** ** Copying files *)
Section copying.
Import IO.
Context {M : Machine}.

Definition is_dir (n : option node) : Prop := ∃ m, n = Some (Dir m).
Definition into (src d : bytes) : bytes := path_Join [d; path_Base src].

(** [Copy] goes down the folders of the name of the source, and copies there. *)
Lemma Copy_down n dst src w : (∀ p, refused OpStat p = None) →
  (∀ i, (i < n)%nat → is_dir (at_path w (Nat.iter i (into src) dst))) → ¬ is_dir (at_path w (Nat.iter n (into src) dst)) →
  Copy (S n) dst src w = copy_file (Nat.iter n (into src) dst) src w.
Proof.
  intros Hr. revert dst. induction n as [|n IH]; intros dst Hi Hn.
  - change (Nat.iter 0 (into src) dst) with dst in *. cbn [Copy]. unfold Stat. rewrite Hr. destruct (at_path w dst) as [[m|]|]; [|done..].
    exfalso. apply Hn. by exists m.
  - destruct (Hi 0%nat ltac:(lia)) as [m Hm]. cbn in Hm. cbn [Copy]. unfold Stat at 1. rewrite Hr, Hm.
    rewrite Nat.iter_succ_r in *. apply IH; [|done]. intros i Hlt. rewrite <-Nat.iter_succ_r. apply Hi. lia.
Qed.

(** A copy of a file to where there is no file, in the first place down the
    folders of that name that is not a folder, has its contents and its mode
    without the bits of the mask; nothing else changes. *)
Theorem copy_new_file n dst src w mode data : let target := Nat.iter n (into src) dst in
  (∀ o p, refused o p = None) → (∀ p, room_for p = None) →
  (∀ i, (i < n)%nat → is_dir (at_path w (Nat.iter i (into src) dst))) → at_path w target = None →
  at_path w src = Some (File mode data) →
  ∃ w', Copy (S n) dst src w = (Ret tt, w') ∧ at_path w' target = Some (File (Z.ldiff mode umask) data) ∧
    (∀ p, Clean p ≠ Clean target → at_path w' p = at_path w p) ∧ typed w' = typed w.
Proof.
  intros target Hr Hroom Hi Ht Hs. rewrite Copy_down; [|done|done|fold target; rewrite Ht; by intros [? ?]].
  fold target. unfold copy_file, Open, create_error, mode_of. rewrite !Hr, Hs, Ht, Hroom. cbn [node_mode].
  unfold write_text. cbn [Write room written app]. eexists. split; [done|]. rewrite drop_nil, app_nil_r.
  split; [by rewrite at_set_path, decide_True|]. split; [|done]. intros p Hp. rewrite at_set_path. by rewrite decide_False.
Qed.
End copying.

(** ** Concrete runs *)
Module InteractiveExample.
Import IO Setup KeysExample ConfigExample.
#[local] Existing Instance byte_suite.
#[local] Existing Instance byte_suite_laws.
#[local] Existing Instance byte_codec.
#[local] Existing Instance byte_codec_laws.
#[local] Existing Instance toy_conf.
#[local] Existing Instance toy_conf_laws.
#[local] Existing Instance toy_group.
#[local] Existing Instance toy_group_laws.

(** A machine whose port scan gives this text. *)
Definition machine (scan : bytes) (memory : option Z * option error) : Machine := {|
  user_Current := Ret (str "/home/me"); Getwd := Ret (str "/"); GOOS := str "linux"; umask := 18;
  refused _ _ := None; room_for _ := None; VirtualMemory := memory;
  http_Get url := if decide (url = portscan) then Some (Some scan) else Some (Some (str "Open"));
  listens _ := true; Dial _ := None; lookupHost _ := Err "no such host"%string; lower_unicode s := s; trim_unicode s := s;
|}.
#[local] Instance home : Machine := machine (str "10.0.0.7") (Some 0x200000000, None).

Definition start (ls : list string) : World :=
  {| typed := (λ l, str l ++ [x0a]) <$> ls; disk := {[ str "/home" := Dir 493; str "/home/me" := Dir 493; str "/tmp" := Dir 493 ]} |}.
Definition keys1 : @Scalar byte_suite * @Point byte_suite := (x21, x41).
Definition lines1 : list string := ["10.0.0.1:2000"; "mine"; "/home/me/conf"; "more"]%string.

Lemma interactive_config_witness : ∃ w',
  InteractiveConfig (str "conode") keys1 (start lines1) = (Ret true, w') ∧ typed w' = [str "more" ++ [x0a]] ∧
  server_files keys1 (NewTCPAddress (str "10.0.0.1:2000")) (str "mine") w' (str "/home/me/conf").
Proof.
  destruct (interactive_config_correct (str "conode") keys1 (str "10.0.0.1") 2000 (start lines1)
    (str "10.0.0.1:2000" ++ [x0a]) (str "mine" ++ [x0a]) (str "/home/me/conf" ++ [x0a]) [str "more" ++ [x0a]] []
    (str "/home/me/.config/conode/private.toml")) as (w' & H & Hl & Hf).
  - left. by_vm.
  - apply (bool_decide_unpack _). vm_compute. exact I.
  - lia.
  - left. by_vm.
  - done.
  - done.
  - by_vm.
  - by_vm.
  - by_vm.
  - by_vm.
  - by apply (bool_decide_unpack _); vm_compute.
  - by apply (bool_decide_unpack _); vm_compute.
  - constructor; [right; split|..]; by_vm.
  - split; [done|]. intros p. apply writable_toy.
  - exists w'. split; [exact H|]. split; [exact Hl|exact Hf].
Defined.

Lemma interactive_safe_witness : ∃ folder,
  changes (start lines1) (InteractiveConfig (str "conode") keys1 (start lines1)).2 folder.
Proof.
  refine (proj2 (interactive_config_safe (str "conode") keys1 (start lines1)
    (InteractiveConfig (str "conode") keys1 (start lines1)).1 (InteractiveConfig (str "conode") keys1 (start lines1)).2 _ _));
    [done|]. by destruct (InteractiveConfig _ _ _).
Defined.

(** The private file is for all to read. *)
Example private_mode :
  (λ n, match n with Some (File m _) => Some m | _ => None end)
    (at_path (InteractiveConfig (str "conode") keys1 (start lines1)).2 (str "/home/me/conf/private.toml")) = Some 0x1a4.
Proof. by_vm. Qed.

(** An IPv6 address is not taken, in brackets either; asked for, it is taken with
    any port. *)
Example ipv6_binding : (InteractiveConfig (str "conode") keys1 (start ["[::1]:2000"%string])).1 = Ret false.
Proof. by_vm. Qed.
Example ipv6_port :
  (askReachableAddress (str "2000") (start ["[::1]:99"%string])).1 = Ret (NewTCPAddress (str "[::1]:99")) ∧
  Valid lower_unicode (NewTCPAddress (str "[::1]:99")) = Ret true ∧
  (askReachableAddress (str "2000") (start ["127.0.0.1:99"%string])).1 = Err "The port you gave is not the same"%string.
Proof. split_and!; by_vm. Qed.

(** An empty answer of the port scan, and memory that cannot be found out. *)
Example empty_scan :
  (InteractiveConfig (M := machine [] (Some 0x200000000, None)) (str "conode") keys1 (start ["2000"%string])).1
  = Panic "index out of range".
Proof. by_vm. Qed.
Example no_memory :
  checkAvailableMemory (M := machine [] (None, Some "no such file"%string)) = Panic "nil pointer dereference".
Proof. by_vm. Qed.

Definition files : World :=
  {| typed := []; disk := {[ str "/tmp" := Dir 493; str "/a" := File 493 (str "new"); str "/b" := File 420 (str "old and longer") ]} |}.

Lemma copy_new_file_witness : ∃ w', Copy 2 (str "/tmp") (str "/a") files = (Ret tt, w') ∧
  at_path w' (str "/tmp/a") = Some (File 493 (str "new")).
Proof.
  destruct (copy_new_file 1 (str "/tmp") (str "/a") files 493 (str "new")) as (w' & H & Ht & _).
  - done.
  - done.
  - intros [|i] Hi; [exists 493; by_vm|lia].
  - by_vm.
  - by_vm.
  - exists w'. split; [exact H|exact Ht].
Defined.

(** The end of a longer file stays. *)
Example copy_keeps_tail : at_path (Copy 1 (str "/b") (str "/a") files).2 (str "/b") = Some (File 420 (str "new and longer")).
Proof. by_vm. Qed.

(** Copying the root, or the current folder, to a folder does not end. *)
Lemma copy_root_never fuel : (Copy fuel (str "/tmp") (str "/") files).1 = OutOfFuel.
Proof.
  induction fuel as [|fuel IH]; [done|]. cbn [Copy].
  assert (Stat files (str "/tmp") = Ret (Some (Dir 493))) as -> by by_vm.
  assert (path_Join [str "/tmp"; path_Base (str "/")] = str "/tmp") as -> by by_vm. exact IH.
Qed.
End InteractiveExample.
