(* ===== verification/Protocol.v ===== *)
(** * Tokens, overlay messages and message proxies ([imported/onet/messages.go],
      [imported/onet/protocol.go], the default proxy of [overlay.go])

    The messages of the protocols and their encoding are a parameter,
    [MsgLib]: [network.MessageType], [network.Marshal] and [network.Unmarshal]. *)
From S2P Require Import Prelude Suite Tree.
Local Open Scope Z_scope.

(** [uuid.NewV3]. *)
Class UuidV3Lib := { NewV3 : UUID → bytes → UUID }.

Class MsgLib := {
  UMsg : Type;
  MessageType : UMsg → UUID;
  Marshal : UMsg → outcome error bytes;
  Unmarshal : bytes → outcome error UMsg;
}.

(** What [Marshal] writes, [Unmarshal] reads. *)
Class MsgLaws (L : MsgLib) := {
  marshal_roundtrip m b : Marshal m = Ret b → Unmarshal b = Ret m;
}.

Definition bs (s : string) : bytes := String.list_byte_of_string s.

(** ** [messages.go] *)
Module Messages.
Section messages.
Context {S : Suite} {U : UuidLib} {U3 : UuidV3Lib} {L : MsgLib}.

(** A token; [cacheID] of the source only saves the computation of [Token_ID]. *)
Record Token := {
  tok_RosterID : UUID;
  tok_TreeID : UUID;
  tok_ProtoID : UUID;
  tok_ServiceID : UUID;
  tok_RoundID : UUID;
  tok_TreeNodeID : UUID;
}.

#[global] Instance Token_eq_dec : EqDecision Token.
Proof. solve_decision. Defined.

Definition Token_ID (t : Token) : UUID :=
  let url := NamespaceURL ++ bs "token/" ++ uuid_string (tok_RosterID t) ++
    uuid_string (tok_RoundID t) ++ uuid_string (tok_ServiceID t) ++ uuid_string (tok_ProtoID t) ++
    uuid_string (tok_TreeID t) ++ uuid_string (tok_TreeNodeID t) in
  NewV5 NamespaceURL_uuid url.

Definition ChangeTreeNodeID (t : Token) (newid : UUID) : Token :=
  {| tok_RosterID := tok_RosterID t; tok_TreeID := tok_TreeID t; tok_ProtoID := tok_ProtoID t;
     tok_ServiceID := tok_ServiceID t; tok_RoundID := tok_RoundID t; tok_TreeNodeID := newid |}.

(** A protocol message as it is on the wire ([MsgSlice]) and after unwrapping
    ([Msg]); the tokens are pointers. *)
Record ProtocolMsg := {
  pm_From : option Token;
  pm_To : option Token;
  pm_ServerIdentity : option ServerIdentity;
  pm_MsgType : UUID;
  pm_Msg : option UMsg;
  pm_MsgSlice : bytes;
}.

Record ConfigMsg := {
  cm_Config : bytes;
  cm_Dest : UUID;
}.

Record TreeNodeInfo := {
  tni_To : option Token;
  tni_From : option Token;
}.

Record OverlayMsg := {
  om_TreeNodeInfo : option TreeNodeInfo;
  om_RequestTree : option UUID;
  om_TreeMarshal : option Trees.TreeMarshal;
  om_RequestRoster : option UUID;
  om_Roster : option Roster;
}.

Definition no_info : OverlayMsg :=
  {| om_TreeNodeInfo := None; om_RequestTree := None; om_TreeMarshal := None;
     om_RequestRoster := None; om_Roster := None |}.
Definition request_tree (id : UUID) : OverlayMsg :=
  {| om_TreeNodeInfo := None; om_RequestTree := Some id; om_TreeMarshal := None;
     om_RequestRoster := None; om_Roster := None |}.
Definition send_tree (tm : Trees.TreeMarshal) : OverlayMsg :=
  {| om_TreeNodeInfo := None; om_RequestTree := None; om_TreeMarshal := Some tm;
     om_RequestRoster := None; om_Roster := None |}.
Definition request_roster (id : UUID) : OverlayMsg :=
  {| om_TreeNodeInfo := None; om_RequestTree := None; om_TreeMarshal := None;
     om_RequestRoster := Some id; om_Roster := None |}.
Definition send_roster (r : Roster) : OverlayMsg :=
  {| om_TreeNodeInfo := None; om_RequestTree := None; om_TreeMarshal := None;
     om_RequestRoster := None; om_Roster := Some r |}.
Definition node_info (i : TreeNodeInfo) : OverlayMsg :=
  {| om_TreeNodeInfo := Some i; om_RequestTree := None; om_TreeMarshal := None;
     om_RequestRoster := None; om_Roster := None |}.

(** What the overlay gives to and gets from the network. *)
Inductive Packet :=
  | PProtocol (m : ProtocolMsg)
  | PRequestTree (id : UUID)
  | PTreeMarshal (tm : Trees.TreeMarshal)
  | PRequestRoster (id : UUID)
  | PRoster (r : Roster)
  | PConfig (c : ConfigMsg)
  | POther (m : UMsg).

(** The types of the packets: [network.RegisterMessage] of the source. *)
Definition onet_type (name : string) : UUID :=
  NewV5 NamespaceURL_uuid (NamespaceURL ++ bs "/protocolType/onet." ++ bs name).
Definition ProtocolMsgID : UUID := onet_type "ProtocolMsg".
Definition RequestTreeMsgID : UUID := onet_type "RequestTree".
Definition SendTreeMsgID : UUID := onet_type "TreeMarshal".
Definition RequestRosterMsgID : UUID := onet_type "RequestRoster".
Definition SendRosterMsgID : UUID := onet_type "Roster".
Definition ConfigMsgID : UUID := onet_type "ConfigMsg".

Definition packet_type (p : Packet) : UUID :=
  match p with
  | PProtocol _ => ProtocolMsgID
  | PRequestTree _ => RequestTreeMsgID
  | PTreeMarshal _ => SendTreeMsgID
  | PRequestRoster _ => RequestRosterMsgID
  | PRoster _ => SendRosterMsgID
  | PConfig _ => ConfigMsgID
  | POther m => MessageType m
  end.

Record Envelope := {
  env_ServerIdentity : ServerIdentity;
  env_Msg : Packet;
}.
End messages.
End Messages.

(** ** [protocol.go]: the registered protocols *)
Module Protocols.
Section protocols.
Context {S : Suite} {U : UuidLib} {U3 : UuidV3Lib}.
(** [NewProtocol] functions. *)
Context {NewProtocol : Type}.

Definition ProtocolNameToID (name : bytes) : UUID :=
  NewV3 NamespaceURL_uuid (NamespaceURL ++ bs "protocolname/" ++ name).

(** The map of a storage, in iteration order. *)
Abbreviation protocolStorage := (list (bytes * NewProtocol)).

Fixpoint instantiator (ps : protocolStorage) (name : bytes) : option NewProtocol :=
  match ps with
  | [] => None
  | (n, p) :: ps => if decide (n = name) then Some p else instantiator ps name
  end.

Fixpoint ProtocolIDToName (ps : protocolStorage) (id : UUID) : bytes :=
  match ps with
  | [] => []
  | (n, _) :: ps => if uuid_Equal id (ProtocolNameToID n) then n else ProtocolIDToName ps id
  end.

Definition ProtocolExists (ps : protocolStorage) (protoID : UUID) : bool :=
  bool_decide (is_Some (instantiator ps (ProtocolIDToName ps protoID))).

Definition Register (ps : protocolStorage) (name : bytes) (protocol : NewProtocol)
    : outcome error (UUID * protocolStorage) :=
  match instantiator ps name with
  | Some _ => Err "Protocol already exists - not overwriting"
  | None => Ret (ProtocolNameToID name, ps ++ [(name, protocol)])
  end.
End protocols.
End Protocols.

(** ** Message proxies *)
Module Proxies.
Import Messages.
Section proxies.
Context {S : Suite} {U : UuidLib} {U3 : UuidV3Lib} {L : MsgLib}.

(** [MessageProxy]: [Wrap] of a message (or of internal information only), and
    [Unwrap]; a panic of a proxy is an outcome. *)
Record MessageProxy := {
  Wrap : option UMsg → OverlayMsg → outcome error Packet;
  Unwrap : Packet → outcome error (option UMsg * OverlayMsg);
  PacketType : UUID;
  proxy_Name : bytes;
}.

Definition default_Wrap (msg : option UMsg) (info : OverlayMsg) : outcome error Packet :=
  match msg with
  | Some msg =>
      let! buff := Marshal msg in
      let! i := deref (om_TreeNodeInfo info) in
      Ret (PProtocol {| pm_From := tni_From i; pm_To := tni_To i; pm_ServerIdentity := None;
                        pm_MsgType := MessageType msg; pm_Msg := None; pm_MsgSlice := buff |})
  | None =>
      match om_RequestTree info, om_RequestRoster info, om_TreeMarshal info, om_Roster info with
      | Some id, _, _, _ => Ret (PRequestTree id)
      | _, Some id, _, _ => Ret (PRequestRoster id)
      | _, _, Some tm, _ => Ret (PTreeMarshal tm)
      | _, _, _, Some r => Ret (PRoster r)
      | _, _, _, _ => Panic "overlay: default wrapper has nothing to wrap"
      end
  end.

Definition default_Unwrap (msg : Packet) : outcome error (option UMsg * OverlayMsg) :=
  match msg with
  | PProtocol inner =>
      let! protoMsg := Unmarshal (pm_MsgSlice inner) in
      Ret (Some protoMsg, node_info {| tni_To := pm_To inner; tni_From := pm_From inner |})
  | PRequestTree id => Ret (None, request_tree id)
  | PRequestRoster id => Ret (None, request_roster id)
  | PTreeMarshal tm => Ret (None, send_tree tm)
  | PRoster r => Ret (None, send_roster r)
  | _ => Err "default protoIO: unwraping an unknown message type"
  end.

Definition defaultProtoIO : MessageProxy :=
  {| Wrap := default_Wrap; Unwrap := default_Unwrap; PacketType := uuid_Nil;
     proxy_Name := bs "default" |}.

(** [messageProxyStore]: the proxies besides the default one. *)
Fixpoint find_name (protos : list MessageProxy) (name : bytes) : option MessageProxy :=
  match protos with
  | [] => None
  | pio :: protos => if decide (proxy_Name pio = name) then Some pio else find_name protos name
  end.
Fixpoint find_type (protos : list MessageProxy) (mid : UUID) : option MessageProxy :=
  match protos with
  | [] => None
  | pio :: protos => if uuid_Equal (PacketType pio) mid then Some pio else find_type protos mid
  end.

Definition getByName (protos : list MessageProxy) (name : bytes) : MessageProxy :=
  default defaultProtoIO (find_name protos name).
Definition getByPacketType (protos : list MessageProxy) (mid : UUID) : MessageProxy :=
  default defaultProtoIO (find_type protos mid).

(** [messageProxyStore.RegisterMessageProxy]: returns when the search by name
    gives the default proxy. *)
Definition RegisterMessageProxy (protos : list MessageProxy) (mp : MessageProxy) : list MessageProxy :=
  match find_name protos (proxy_Name mp) with
  | None => protos
  | Some _ => protos ++ [mp]
  end.

(** [newMessageProxyStore]: a proxy of every registered factory, and the types
    to register a processor for. *)
Definition newMessageProxyStore (factories : list (unit → MessageProxy)) : list MessageProxy * list UUID :=
  let protos := (λ f : unit → MessageProxy, f tt) <$> factories in (protos, PacketType <$> protos).

(** Internal messages survive the default proxy, protocol messages up to their
    encoding. *)
Lemma unwrap_internal info p :
  om_TreeNodeInfo info = None → default_Wrap None info = Ret p →
  match om_RequestTree info, om_RequestRoster info, om_TreeMarshal info, om_Roster info with
  | Some id, _, _, _ => default_Unwrap p = Ret (None, request_tree id)
  | _, Some id, _, _ => default_Unwrap p = Ret (None, request_roster id)
  | _, _, Some tm, _ => default_Unwrap p = Ret (None, send_tree tm)
  | _, _, _, Some r => default_Unwrap p = Ret (None, send_roster r)
  | _, _, _, _ => False
  end.
Proof. cbn. intros _. repeat case_match; naive_solver. Qed.

Lemma unwrap_wrap `{!MsgLaws L} m i p :
  default_Wrap (Some m) (node_info i) = Ret p →
  ∃ pm, p = PProtocol pm ∧ pm_To pm = tni_To i ∧ pm_From pm = tni_From i ∧
    default_Unwrap p = Ret (Some m, node_info i).
Proof.
  cbn. intros (b & Hb & [= <-])%obind_ret_inv. eexists. split; [done|]. split; [done|]. split; [done|].
  cbn. rewrite (marshal_roundtrip m b Hb). by destruct i.
Qed.
End proxies.
End Proxies.

(** ** Instances for the witnesses: messages are bytes, the first is the type *)
Module ProtocolExample.
#[global] Instance toy_v3 : UuidV3Lib := {| NewV3 ns s := x33 :: ns ++ s |}.
#[global] Instance toy_msgs : MsgLib := {|
  UMsg := bytes;
  MessageType m := take 1 m;
  Marshal m := Ret m;
  Unmarshal b := Ret b;
|}.
#[global] Instance toy_msgs_laws : MsgLaws toy_msgs.
Proof. constructor. intros m b [= ->]. done. Qed.

Definition message (from to : Messages.Token) (m : bytes) : Messages.ProtocolMsg :=
  {| Messages.pm_From := Some from; Messages.pm_To := Some to; Messages.pm_ServerIdentity := None;
     Messages.pm_MsgType := MessageType m; Messages.pm_Msg := Some m; Messages.pm_MsgSlice := [] |}.
End ProtocolExample.
