(* ===== verification/Instance.v ===== *)
(** * Protocol instances ([imported/onet/treenode.go])

    A [TreeNodeInstance] with its registered channels and handlers, the
    aggregation of the children's messages, the dispatch to the protocol, and the
    queue between the overlay and the goroutine that reads it, as a step relation
    ([rstep]).  What an instance sends is in [Overlay]. *)
From S2P Require Import Prelude Suite Tree Protocol.
Import Messages Proxies.
Local Open Scope Z_scope.

Module Instances.
Section instance.
Context {S : Suite} {U : UuidLib} {U3 : UuidV3Lib} {L : MsgLib}.

(** ** What reflection sees of the arguments of the registrations *)
Inductive rtype :=
  | RStruct (id : UUID) (fields : list rtype)
  | RSlice (elem : rtype)
  | RTreeNodePtr
  | RError
  | ROther (id : UUID).

(** A channel with its capacity, or nil; a pointer; a function; another value. *)
Inductive goarg :=
  | AChan (elem : rtype) (capacity : option nat)
  | APtr (a : goarg)
  | AFunc (ins outs : list rtype)
  | AValue.

(** [network.computeMessageType] of a type. *)
Definition type_id (t : rtype) : UUID :=
  match t with RStruct id _ | ROther id => id | _ => uuid_Nil end.

(** The struct a channel or handler gets: the sender's node with the message,
    or the zero struct when the node is not in the tree. *)
Definition Dispatched : Type := (option (Trees.TreeNode * UMsg)).

(** A channel holds what was sent and not received: one struct per element, or
    the structs of all children. *)
Record Channel := {
  ch_cap : nat;
  ch_elems : list (list Dispatched);
}.

(** A handler is the protocol's code. *)
Definition Handler : Type := list Dispatched → option error.

(** [instance] is whether a protocol instance is bound; [wakeup] is the content
    of the channel [msgDispatchQueueWait], which has room for one. *)
Record TreeNodeInstance := {
  token : Token;
  treeNode : Trees.TreeNode;
  Parent : option Trees.TreeNode;
  channels : gmap UUID Channel;
  handlers : gmap UUID Handler;
  messageTypeFlags : gmap UUID Z;
  instance : bool;
  msgQueue : gmap UUID (list ProtocolMsg);
  msgDispatchQueue : list ProtocolMsg;
  wakeup : bool;
  closing : bool;
  protoIO : MessageProxy;
  config : option bytes;
  sentTo : gset UUID;
  treeNodeList : list Trees.TreeNode;
}.

Definition AggregateMessages : Z := 1.
Definition DefaultChannelLength : nat := 100.

Definition newTreeNodeInstance (tok : Token) (tn : Trees.TreeNode) (parent : option Trees.TreeNode)
    (io : MessageProxy) : TreeNodeInstance :=
  {| token := tok; treeNode := tn; Parent := parent; channels := ∅; handlers := ∅;
     messageTypeFlags := ∅; instance := false; msgQueue := ∅; msgDispatchQueue := [];
     wakeup := false; closing := false; protoIO := io; config := None; sentTo := ∅;
     treeNodeList := [] |}.

(** Updates of single fields. *)
Definition set_registered (n : TreeNodeInstance) (chs : gmap UUID Channel) (hs : gmap UUID Handler)
    (fl : gmap UUID Z) : TreeNodeInstance :=
  {| token := token n; treeNode := treeNode n; Parent := Parent n; channels := chs; handlers := hs;
     messageTypeFlags := fl; instance := instance n; msgQueue := msgQueue n;
     msgDispatchQueue := msgDispatchQueue n; wakeup := wakeup n; closing := closing n;
     protoIO := protoIO n; config := config n; sentTo := sentTo n;
     treeNodeList := treeNodeList n |}.
Definition set_channels (n : TreeNodeInstance) (chs : gmap UUID Channel) : TreeNodeInstance :=
  set_registered n chs (handlers n) (messageTypeFlags n).
Definition set_msgQueue (n : TreeNodeInstance) (q : gmap UUID (list ProtocolMsg)) : TreeNodeInstance :=
  {| token := token n; treeNode := treeNode n; Parent := Parent n; channels := channels n;
     handlers := handlers n; messageTypeFlags := messageTypeFlags n; instance := instance n;
     msgQueue := q; msgDispatchQueue := msgDispatchQueue n; wakeup := wakeup n; closing := closing n;
     protoIO := protoIO n; config := config n; sentTo := sentTo n;
     treeNodeList := treeNodeList n |}.
Definition set_queue (n : TreeNodeInstance) (q : list ProtocolMsg) (w c : bool) : TreeNodeInstance :=
  {| token := token n; treeNode := treeNode n; Parent := Parent n; channels := channels n;
     handlers := handlers n; messageTypeFlags := messageTypeFlags n; instance := instance n;
     msgQueue := msgQueue n; msgDispatchQueue := q; wakeup := w; closing := c;
     protoIO := protoIO n; config := config n; sentTo := sentTo n;
     treeNodeList := treeNodeList n |}.
Definition set_instance (n : TreeNodeInstance) (b : bool) : TreeNodeInstance :=
  {| token := token n; treeNode := treeNode n; Parent := Parent n; channels := channels n;
     handlers := handlers n; messageTypeFlags := messageTypeFlags n; instance := b;
     msgQueue := msgQueue n; msgDispatchQueue := msgDispatchQueue n; wakeup := wakeup n;
     closing := closing n; protoIO := protoIO n; config := config n; sentTo := sentTo n;
     treeNodeList := treeNodeList n |}.
Definition set_config (n : TreeNodeInstance) (c : option bytes) (sent : gset UUID) : TreeNodeInstance :=
  {| token := token n; treeNode := treeNode n; Parent := Parent n; channels := channels n;
     handlers := handlers n; messageTypeFlags := messageTypeFlags n; instance := instance n;
     msgQueue := msgQueue n; msgDispatchQueue := msgDispatchQueue n; wakeup := wakeup n;
     closing := closing n; protoIO := protoIO n; config := c; sentTo := sent;
     treeNodeList := treeNodeList n |}.

Definition set_treeNodeList (n : TreeNodeInstance) (l : list Trees.TreeNode) : TreeNodeInstance :=
  {| token := token n; treeNode := treeNode n; Parent := Parent n; channels := channels n;
     handlers := handlers n; messageTypeFlags := messageTypeFlags n; instance := instance n;
     msgQueue := msgQueue n; msgDispatchQueue := msgDispatchQueue n; wakeup := wakeup n;
     closing := closing n; protoIO := protoIO n; config := config n; sentTo := sentTo n;
     treeNodeList := l |}.

(** ** Position in the tree *)
Definition IsRoot (n : TreeNodeInstance) : bool := bool_decide (Parent n = None).
Definition Children (n : TreeNodeInstance) : list Trees.TreeNode := Trees.tn_Children (treeNode n).
Definition IsLeaf (n : TreeNodeInstance) : bool := (length (Children n) =? 0)%nat.
Definition Index (n : TreeNodeInstance) : Z := Trees.tn_RosterIndex (treeNode n).
Definition TokenID (n : TreeNodeInstance) : UUID := Token_ID (token n).
Definition isBound (n : TreeNodeInstance) : bool := instance n.
Definition bind (n : TreeNodeInstance) : TreeNodeInstance := set_instance n true.

(** ** Registration *)

(** The struct of two fields, the first a tree node; the type of the second. *)
Definition message_struct (t : rtype) (not_struct not_two not_node : error) : outcome error rtype :=
  match t with
  | RStruct _ fs =>
      match fs with
      | [f0; f1] => match f0 with RTreeNodePtr => Ret f1 | _ => Err not_node end
      | _ => Err not_two
      end
  | _ => Err not_struct
  end.

(** The flag of a slice, and the element. *)
Definition aggregated (t : rtype) : Z * rtype :=
  match t with RSlice e => (AggregateMessages, e) | _ => (0, t) end.

(** The part of [RegisterChannelLength] after the channel is there. *)
Definition register_chan (n : TreeNodeInstance) (elem : rtype) (capacity : nat)
    : outcome error TreeNodeInstance :=
  let '(flags, cr) := aggregated elem in
  let! m := message_struct cr "Input is not channel of structure"
              "Input is not channel of structure with 2 elements"
              "Input-channel doesn't have TreeNode as element" in
  let typ := type_id m in
  Ret (set_registered n (<[typ := {| ch_cap := capacity; ch_elems := [] |}]> (channels n))
         (handlers n) (<[typ := flags]> (messageTypeFlags n))).

Definition RegisterChannelLength (n : TreeNodeInstance) (c : goarg) (len : nat)
    : outcome error TreeNodeInstance :=
  match c with
  | APtr (AChan elem _) => register_chan n elem len
  | APtr _ => Panic "reflect.MakeChan of non-chan type"
  | AChan elem None => Err "Can not Register a (value) channel not initialized"
  | AChan elem (Some capacity) => register_chan n elem capacity
  | AFunc _ _ => Err "Input is not channel"
  | AValue => Panic "reflect: call of reflect.Value.IsNil"
  end.

Definition RegisterChannel (n : TreeNodeInstance) (c : goarg) : outcome error TreeNodeInstance :=
  RegisterChannelLength n c DefaultChannelLength.

Definition RegisterChannelsLength (n : TreeNodeInstance) (len : nat) (cs : list goarg)
    : outcome error TreeNodeInstance :=
  ofoldM (λ n c, omap_err (λ e, "Error, could not register channel: " +:+ e)
                   (RegisterChannelLength n c len)) n cs.

Definition RegisterChannels (n : TreeNodeInstance) (cs : list goarg) : outcome error TreeNodeInstance :=
  ofoldM (λ n c, omap_err (λ e, "Error, could not register channel: " +:+ e)
                   (RegisterChannel n c)) n cs.

Definition RegisterHandler (n : TreeNodeInstance) (c : goarg) (h : Handler)
    : outcome error TreeNodeInstance :=
  match c with
  | AFunc ins outs =>
      match outs with
      | [out] =>
          match out with
          | RError =>
              let! ci := index ins 0 in
              let '(flags, ci) := aggregated ci in
              let! m := message_struct ci "Input is not a structure"
                          "Input is not a structure with 2 elements"
                          "Input-handler doesn't have TreeNode as element" in
              let typ := type_id m in
              Ret (set_registered n (channels n) (<[typ := h]> (handlers n))
                     (<[typ := flags]> (messageTypeFlags n)))
          | _ => Err "return-type of message-handler needs to be error"
          end
      | _ => Err "Need exactly one return argument of type error"
      end
  | _ => Err "Input is not function"
  end.

Definition RegisterHandlers (n : TreeNodeInstance) (hs : list (goarg * Handler))
    : outcome error TreeNodeInstance :=
  ofoldM (λ n h, omap_err (λ e, "Error, could not register handler: " +:+ e)
                   (RegisterHandler n h.1 h.2)) n hs.

(** ** Flags *)
Definition flags_of (n : TreeNodeInstance) (mt : UUID) : Z := default 0 (messageTypeFlags n !! mt).
Definition setFlag (n : TreeNodeInstance) (mt : UUID) (f : Z) : TreeNodeInstance :=
  set_registered n (channels n) (handlers n) (<[mt := Z.lor (flags_of n mt) f]> (messageTypeFlags n)).
Definition clearFlag (n : TreeNodeInstance) (mt : UUID) (f : Z) : TreeNodeInstance :=
  set_registered n (channels n) (handlers n)
    (<[mt := Z.land (flags_of n mt) (Z.lnot f)]> (messageTypeFlags n)).
Definition hasFlag (n : TreeNodeInstance) (mt : UUID) (f : Z) : bool :=
  negb (Z.land (flags_of n mt) f =? 0).

(** ** Dispatch *)

(** [aggregate]: the messages to dispatch, or none while children are missing. *)
Definition aggregate (n : TreeNodeInstance) (onetMsg : ProtocolMsg)
    : outcome error (option (list ProtocolMsg) * TreeNodeInstance) :=
  let mt := pm_MsgType onetMsg in
  let! fromParent :=
    match Parent n with
    | None => Ret false
    | Some p => let! from := deref (pm_From onetMsg) in
                Ret (uuid_Equal (tok_TreeNodeID from) (Trees.tn_ID p))
    end in
  if fromParent || negb (hasFlag n mt AggregateMessages) then Ret (Some [onetMsg], n)
  else
    let msgs := default [] (msgQueue n !! mt) ++ [onetMsg] in
    if (length msgs =? length (Children n))%nat
    then Ret (Some msgs, set_msgQueue n (delete mt (msgQueue n)))
    else Ret (None, set_msgQueue n (<[mt := msgs]> (msgQueue n))).

(** [reflectCreate]; [tree] is the tree of the token in the overlay. *)
Definition reflectCreate (tree : option Trees.Tree) (msg : ProtocolMsg) : outcome error Dispatched :=
  let! tree := deref tree in
  let! from := deref (pm_From msg) in
  let! tn := Trees.Search tree (tok_TreeNodeID from) in
  match tn with
  | None => Ret None
  | Some tn => let! m := deref (pm_Msg msg) in Ret (Some (tn, m))
  end.

(** [dispatchHandler]: the error of the last call. *)
Definition dispatchHandler (tree : option Trees.Tree) (n : TreeNodeInstance) (h : Handler)
    (mt : UUID) (msgSlice : list ProtocolMsg) : outcome error (option error) :=
  if hasFlag n mt AggregateMessages then
    let! msgs := omapM (reflectCreate tree) msgSlice in Ret (h msgs)
  else
    ofoldM (λ _ msg, let! m := reflectCreate tree msg in Ret (h [m])) None msgSlice.

(** Sending to a channel: [None] while it is full. *)
Definition send_chan (c : Channel) (x : list Dispatched) : option Channel :=
  if (length (ch_elems c) <? ch_cap c)%nat
  then Some {| ch_cap := ch_cap c; ch_elems := ch_elems c ++ [x] |} else None.

(** The loop of [dispatchChannel] when the type is not aggregated: a full channel
    is an error, and the message is gone. *)
Fixpoint send_each (tree : option Trees.Tree) (c : Channel) (msgSlice : list ProtocolMsg)
    : outcome error (option error * Channel) :=
  match msgSlice with
  | [] => Ret (None, c)
  | msg :: msgSlice =>
      let! m := reflectCreate tree msg in
      match send_chan c [m] with
      | Some c => send_each tree c msgSlice
      | None => Ret (Some "channel too small for msg: please use RegisterChannelLength()"%string, c)
      end
  end.

(** [dispatchChannel]: the error with the channel; [None] waits for room. *)
Definition dispatchChannel (tree : option Trees.Tree) (n : TreeNodeInstance) (c : Channel)
    (mt : UUID) (msgSlice : list ProtocolMsg) : option (outcome error (option error * Channel)) :=
  if hasFlag n mt AggregateMessages then
    match omapM (reflectCreate tree) msgSlice with
    | Ret out => (λ c, Ret (None, c)) <$> send_chan c out
    | Err e => Some (Err e)
    | Panic w => Some (Panic w)
    | OutOfFuel => Some OutOfFuel
    end
  else Some (send_each tree c msgSlice).

(** [dispatchMsgToProtocol]: the error that is logged, if any; [None] waits. *)
Definition dispatchMsgToProtocol (tree : option Trees.Tree) (n : TreeNodeInstance) (onetMsg : ProtocolMsg)
    : option (outcome error (option error * TreeNodeInstance)) :=
  match aggregate n onetMsg with
  | Ret (None, n) => Some (Ret (None, n))
  | Ret (Some msgs, n) =>
      let mt := pm_MsgType onetMsg in
      match channels n !! mt, handlers n !! mt with
      | Some c, _ =>
          (λ r, let! (e, c) := r in Ret (e, set_channels n (<[mt := c]> (channels n))))
            <$> dispatchChannel tree n c mt msgs
      | None, Some h =>
          Some (let! e := dispatchHandler tree n h mt msgs in Ret (e, n))
      | None, None => Some (Ret (Some "message-type not handled by the protocol"%string, n))
      end
  | Err e => Some (Err e)
  | Panic w => Some (Panic w)
  | OutOfFuel => Some OutOfFuel
  end.

(** ** The queue *)

(** [ProcessProtocolMsg]. *)
Definition ProcessProtocolMsg (n : TreeNodeInstance) (msg : ProtocolMsg) : TreeNodeInstance :=
  let q := msgDispatchQueue n ++ [msg] in
  set_queue n q (wakeup n || (length q =? 1)%nat) (closing n).

(** [closeDispatch]; [shutdown] is the result of the protocol's [Shutdown]. *)
Definition closeDispatch (n : TreeNodeInstance) (shutdown : option error)
    : option error * TreeNodeInstance :=
  let n := set_queue n (msgDispatchQueue n) true true in
  (if instance n then shutdown else Some "Can't shutdown empty ProtocolInstance"%string, n).

(** ** Configuration *)

(** [SetConfig]. *)
Definition SetConfig (n : TreeNodeInstance) (c : option bytes) : outcome error TreeNodeInstance :=
  match config n with
  | Some _ => Err "Can't set config twice"
  | None => Ret (set_config n c (sentTo n))
  end.

(** [List]: the nodes of the tree, which are kept once they are known. *)
Definition List (tree : option Trees.Tree) (n : TreeNodeInstance)
    : outcome error (list Trees.TreeNode * TreeNodeInstance) :=
  match treeNodeList n with
  | [] => let! tree := deref tree in let! l := Trees.List tree in Ret (l, set_treeNodeList n l)
  | l => Ret (l, n)
  end.

(** The first part of [SendTo]: the configuration goes to every node once. *)
Definition take_config (n : TreeNodeInstance) (to : UUID) : option bytes * TreeNodeInstance :=
  if decide (to ∈ sentTo n) then (None, n)
  else (config n, set_config n (config n) ({[ to ]} ∪ sentTo n)).

(** ** The reader

    [dispatchMsgReader] holds the lock of the queue while it looks at it; it is
    at the top of its loop, busy with a message, waiting for a wake-up, or has
    ended. *)
Inductive ReaderPc := RTop | RBusy (msg : ProtocolMsg) | RWait | REnd.

Record Running := {
  tni : TreeNodeInstance;
  reader : ReaderPc;
}.

(** What happens: a message comes in, is taken from the queue, is dispatched (with
    the error that is logged); the protocol receives from a channel; other steps. *)
Inductive Event :=
  | EArrive (msg : ProtocolMsg)
  | EDispatch (msg : ProtocolMsg) (e : option error)
  | EReceive (mt : UUID) (x : list Dispatched)
  | ESilent.

Inductive rstep (tree : option Trees.Tree) : Running → Event → Running → Prop :=
  | step_arrive n pc msg :
      rstep tree {| tni := n; reader := pc |} (EArrive msg)
                 {| tni := ProcessProtocolMsg n msg; reader := pc |}
  | step_close n pc sd :
      rstep tree {| tni := n; reader := pc |} ESilent
                 {| tni := (closeDispatch n sd).2; reader := pc |}
  | step_end n :
      closing n = true →
      rstep tree {| tni := n; reader := RTop |} ESilent {| tni := n; reader := REnd |}
  | step_take n msg q :
      closing n = false → msgDispatchQueue n = msg :: q →
      rstep tree {| tni := n; reader := RTop |} ESilent
                 {| tni := set_queue n q (wakeup n) (closing n); reader := RBusy msg |}
  | step_sleep n :
      closing n = false → msgDispatchQueue n = [] →
      rstep tree {| tni := n; reader := RTop |} ESilent {| tni := n; reader := RWait |}
  | step_wake n :
      wakeup n = true →
      rstep tree {| tni := n; reader := RWait |} ESilent
                 {| tni := set_queue n (msgDispatchQueue n) false (closing n); reader := RTop |}
  | step_dispatch n msg e n' :
      dispatchMsgToProtocol tree n msg = Some (Ret (e, n')) →
      rstep tree {| tni := n; reader := RBusy msg |} (EDispatch msg e) {| tni := n'; reader := RTop |}
  | step_receive n pc mt c x xs :
      channels n !! mt = Some c → ch_elems c = x :: xs →
      rstep tree {| tni := n; reader := pc |} (EReceive mt x)
                 {| tni := set_channels n (<[mt := {| ch_cap := ch_cap c; ch_elems := xs |}]> (channels n));
                    reader := pc |}.

Inductive rsteps (tree : option Trees.Tree) : Running → list Event → Running → Prop :=
  | rsteps_nil s : rsteps tree s [] s
  | rsteps_snoc s es s' e s'' :
      rsteps tree s es s' → rstep tree s' e s'' → rsteps tree s (es ++ [e]) s''.

Definition start_reader (n : TreeNodeInstance) : Running := {| tni := n; reader := RTop |}.

(** ** Aggregation *)

(** Messages that arrive one after the other; what each of them releases. *)
Fixpoint aggregate_each (n : TreeNodeInstance) (ms : list ProtocolMsg)
    : outcome error (list (option (list ProtocolMsg)) * TreeNodeInstance) :=
  match ms with
  | [] => Ret ([], n)
  | m :: ms =>
      let! (r, n) := aggregate n m in
      let! (rs, n) := aggregate_each n ms in
      Ret (r :: rs, n)
  end.

(** A message of type [mt] that does not come from the parent. *)
Definition not_from_parent (n : TreeNodeInstance) (mt : UUID) (m : ProtocolMsg) : Prop :=
  pm_MsgType m = mt ∧ ∃ from, pm_From m = Some from ∧
    (∀ p, Parent n = Some p → tok_TreeNodeID from ≠ Trees.tn_ID p).

Lemma set_msgQueue_set n q q' : set_msgQueue (set_msgQueue n q) q' = set_msgQueue n q'.
Proof. done. Qed.
Lemma set_msgQueue_same n : set_msgQueue n (msgQueue n) = n.
Proof. by destruct n. Qed.

Lemma not_from_parent_set n q mt m :
  not_from_parent n mt m → not_from_parent (set_msgQueue n q) mt m.
Proof. done. Qed.

(** What a message adds to the queue of its type. *)
Lemma aggregate_wait n mt m :
  hasFlag n mt AggregateMessages = true → not_from_parent n mt m →
  aggregate n m =
    let msgs := default [] (msgQueue n !! mt) ++ [m] in
    if (length msgs =? length (Children n))%nat
    then Ret (Some msgs, set_msgQueue n (delete mt (msgQueue n)))
    else Ret (None, set_msgQueue n (<[mt := msgs]> (msgQueue n))).
Proof.
  intros Hf (Ht & from & Hfrom & Hp). unfold aggregate. rewrite Ht.
  destruct (Parent n) as [p|].
  - rewrite Hfrom. cbn [deref obind]. unfold uuid_Equal.
    rewrite bool_decide_false by auto. by rewrite Hf.
  - cbn [obind]. by rewrite Hf.
Qed.

Lemma aggregate_each_spec n mt q ms :
  hasFlag n mt AggregateMessages = true → Forall (not_from_parent n mt) ms →
  ms ≠ [] → (length q + length ms = length (Children n))%nat →
  aggregate_each (set_msgQueue n (<[mt := q]> (msgQueue n))) ms =
    Ret (repeat None (length ms - 1) ++ [Some (q ++ ms)], set_msgQueue n (delete mt (msgQueue n))).
Proof.
  intros Hf. revert q. induction ms as [|m ms IH]; intros q Hms Hne Hlen; [done|].
  apply Forall_cons in Hms as [Hm Hms]. cbn [aggregate_each].
  rewrite (aggregate_wait _ mt m) by done. cbn zeta. cbn [msgQueue set_msgQueue].
  rewrite lookup_insert_eq. change (default [] (Some q)) with q.
  rewrite length_app. cbn [length].
  change (Children (set_msgQueue n (<[mt:=q]> (msgQueue n)))) with (Children n).
  destruct ms as [|m' ms].
  - rewrite (proj2 (Nat.eqb_eq _ _)) by exact Hlen. cbn.
    by rewrite set_msgQueue_set, delete_insert_eq.
  - cbn in Hlen. rewrite (proj2 (Nat.eqb_neq _ _)) by lia. cbn [obind].
    rewrite set_msgQueue_set, insert_insert_eq, IH; [|done|done|rewrite length_app; cbn; lia].
    cbn. rewrite Nat.sub_0_r. by rewrite <-app_assoc.
Qed.

(** One message of type [mt] from each child, in some order. *)
Definition one_from_each_child (n : TreeNodeInstance) (mt : UUID) (ms : list ProtocolMsg) : Prop :=
  Forall (λ m, pm_MsgType m = mt) ms ∧
  ∃ froms, pm_From <$> ms = Some <$> froms ∧
    tok_TreeNodeID <$> froms ≡ₚ Trees.tn_ID <$> Children n.

Lemma one_from_each_length n mt ms :
  one_from_each_child n mt ms → length ms = length (Children n).
Proof.
  intros (_ & froms & E & Hp). apply (f_equal length) in E. apply Permutation_length in Hp.
  rewrite !length_fmap in E. rewrite !length_fmap in Hp. congruence.
Qed.

Lemma one_from_each_not_parent n mt ms :
  (∀ p, Parent n = Some p → Trees.tn_ID p ∉ Trees.tn_ID <$> Children n) →
  one_from_each_child n mt ms → Forall (not_from_parent n mt) ms.
Proof.
  intros Hn (Ht & froms & E & Hp). apply Forall_forall. intros m Hm.
  split; [by eapply (proj1 (Forall_forall _ _) Ht)|].
  assert (pm_From m ∈ Some <$> froms) as (from & -> & Hfrom)%list_elem_of_fmap
    by (rewrite <-E; by apply list_elem_of_fmap_2).
  exists from. split; [done|]. intros p HP Heq. apply (Hn p HP). rewrite <-Hp, <-Heq.
  by apply list_elem_of_fmap_2.
Qed.

(** C18: a message from the parent, or of a type that is not aggregated, is
    released at once.  Of one message from each child, in whatever order they
    come, all are held back until the last, which releases them together in the
    order they came; the instance is then as before the first. *)
Theorem aggregate_correct n mt :
  msgQueue n !! mt = None →
  (∀ m from, pm_MsgType m = mt → pm_From m = Some from →
     hasFlag n mt AggregateMessages = false ∨
       (∃ p, Parent n = Some p ∧ tok_TreeNodeID from = Trees.tn_ID p) →
     aggregate n m = Ret (Some [m], n)) ∧
  (hasFlag n mt AggregateMessages = true → IsLeaf n = false →
   (∀ p, Parent n = Some p → Trees.tn_ID p ∉ Trees.tn_ID <$> Children n) →
   ∀ ms, one_from_each_child n mt ms →
     aggregate_each n ms = Ret (repeat None (length (Children n) - 1) ++ [Some ms], n)).
Proof.
  intros Hq. split.
  - intros m from Ht Hfrom Hp. unfold aggregate. rewrite Ht, Hfrom.
    destruct (Parent n) as [p|]; cbn [deref obind].
    + unfold uuid_Equal. destruct Hp as [->|(p' & [= <-] & ->)].
      * by rewrite orb_true_r.
      * by rewrite bool_decide_true.
    + destruct Hp as [->|(p' & [=] & _)]. done.
  - intros Hf Hl Hpar ms Heach. pose proof (one_from_each_length _ _ _ Heach) as Hlen.
    pose proof (one_from_each_not_parent _ _ _ Hpar Heach) as Hms. rewrite <-Hlen.
    apply Nat.eqb_neq in Hl. destruct ms as [|m ms]; [done|].
    pose proof (aggregate_each_spec n mt [] (m :: ms) Hf Hms ltac:(done) Hlen) as H.
    rewrite delete_id in H by done. rewrite set_msgQueue_same in H. etrans; [|exact H].
    apply Forall_cons in Hms as [Hm _]. cbn [aggregate_each].
    rewrite (aggregate_wait n mt m), (aggregate_wait _ mt m) by done. cbn zeta.
    cbn [msgQueue set_msgQueue]. rewrite lookup_insert_eq, Hq.
    change (default [] (Some [])) with ([] : list ProtocolMsg).
    change (default [] None) with ([] : list ProtocolMsg).
    rewrite !set_msgQueue_set, insert_insert_eq, delete_insert_eq. done.
Qed.

(** ** The queue refines a first-in-first-out list *)

Definition arrivals (es : list Event) : list ProtocolMsg :=
  omap (λ e, match e with EArrive m => Some m | _ => None end) es.
Definition dispatched (es : list Event) : list ProtocolMsg :=
  omap (λ e, match e with EDispatch m _ => Some m | _ => None end) es.

(** What has come in and was not dispatched, oldest first. *)
Definition pending (s : Running) : list ProtocolMsg :=
  match reader s with RBusy m => [m] | _ => [] end ++ msgDispatchQueue (tni s).

(** The specification: a list that takes messages at its end and gives them at
    its front. *)
Definition fifo_step (l : list ProtocolMsg) (e : Event) (l' : list ProtocolMsg) : Prop :=
  match e with
  | EArrive m => l' = l ++ [m]
  | EDispatch m _ => l = m :: l'
  | _ => l' = l
  end.

Lemma aggregate_frame n m r n' :
  aggregate n m = Ret (r, n') → ∃ q, n' = set_msgQueue n q.
Proof.
  unfold aggregate. intros (fp & _ & H)%obind_ret_inv. revert H.
  case_match; [intros [= <- <-]; exists (msgQueue n); by rewrite set_msgQueue_same|].
  case_match; intros [= <- <-]; eauto.
Qed.

(** Dispatching does not touch the queue; the set of channels stays. *)
Lemma dispatch_frame tree n m e n' :
  dispatchMsgToProtocol tree n m = Some (Ret (e, n')) →
  ∃ q chs, n' = set_channels (set_msgQueue n q) chs.
Proof.
  unfold dispatchMsgToProtocol. destruct (aggregate n m) as [[r n1]| | |] eqn:E; [|done..].
  apply aggregate_frame in E as [q ->].
  assert (set_msgQueue n q = set_channels (set_msgQueue n q) (channels n)) as Hn by done.
  destruct r as [msgs|]; [|intros [= <- <-]; eauto].
  cbn [channels handlers set_msgQueue]. destruct (channels n !! pm_MsgType m) as [c|].
  - destruct (dispatchChannel _ _ c _ msgs) as [r|]; [|done]. cbn.
    destruct r as [[e' c']| | |]; cbn; [|done..]. intros [= <- <-]. eauto.
  - destruct (handlers n !! pm_MsgType m) as [h|]; [|intros [= <- <-]; eauto].
    destruct (dispatchHandler _ _ h _ msgs) as [e'| | |]; cbn; [|done..].
    intros [= <- <-]. eauto.
Qed.

(** A sleeping reader with something to do has a wake-up waiting. *)
Definition reader_inv (s : Running) : Prop :=
  (reader s = RWait → msgDispatchQueue (tni s) ≠ [] ∨ closing (tni s) = true →
   wakeup (tni s) = true) ∧
  (reader s = REnd → closing (tni s) = true).

Lemma reader_inv_step tree s e s' : rstep tree s e s' → reader_inv s → reader_inv s'.
Proof.
  unfold reader_inv. destruct 1 as [n pc msg|n pc sd|n Hc|n msg q Hc Hq|n Hc Hq|n Hw|n msg e n' Hd|
    n pc mt c x xs Hc Hx]; cbn; intros [H1 H2]; try done.
  - split; [|done]. intros -> [_|Hc].
    + destruct (msgDispatchQueue n) as [|m q] eqn:Eq; cbn; [by rewrite orb_true_r|].
      rewrite H1 by auto. done.
    + rewrite H1 by auto. done.
  - split; [|done]. intros _ [?|?]; congruence.
Qed.

Lemma pending_step tree s e s' : rstep tree s e s' → fifo_step (pending s) e (pending s').
Proof.
  unfold pending. destruct 1 as [n pc msg|n pc sd|n Hc|n msg q Hc Hq|n Hc Hq|n Hw|n msg e n' Hd|
    n pc mt c x xs Hc Hx]; cbn; try done.
  - by rewrite app_assoc.
  - apply dispatch_frame in Hd as (q & chs & ->). done.
Qed.

Lemma rsteps_inv tree n es s :
  rsteps tree (start_reader n) es s → reader_inv s.
Proof.
  intros H. remember (start_reader n) as s0 eqn:E. induction H; subst; [done|].
  eauto using reader_inv_step.
Qed.

Lemma rsteps_app tree s es s' es' s'' :
  rsteps tree s es s' → rsteps tree s' es' s'' → rsteps tree s (es ++ es') s''.
Proof.
  intros H H'. revert H. induction H' as [s'|s' es' s1 e s2 H' IH Hs]; intros H.
  - by rewrite app_nil_r.
  - rewrite app_assoc. econstructor; eauto.
Qed.
Lemma rsteps_one tree s e s' : rstep tree s e s' → rsteps tree s [e] s'.
Proof. intros H. apply (rsteps_snoc _ _ [] s e s'); [constructor|done]. Qed.

(** C17: the queue of an instance refines a first-in-first-out list: every step
    of the reader, of an arrival, of the protocol or of the shutdown is a step
    of the list, so messages are dispatched once, in the order of arrival, and
    none is lost.  The reader never sleeps on a message or on the shutdown: a
    wake-up is then waiting for it. *)
Theorem reader_refines_fifo tree n es s e s' :
  msgDispatchQueue n = [] → rsteps tree (start_reader n) es s → rstep tree s e s' →
  arrivals es = dispatched es ++ pending s ∧
  fifo_step (pending s) e (pending s') ∧
  (reader s' = RWait → pending s' ≠ [] ∨ closing (tni s') = true →
   ∃ s'', rstep tree s' ESilent s'' ∧ reader s'' = RTop ∧ pending s'' = pending s').
Proof.
  intros Hn Hs He. split; [|split].
  - clear He. remember (start_reader n) as s0 eqn:E.
    induction Hs as [s|s es s1 e1 s2 Hs IH He]; subst; [by unfold pending; cbn; rewrite Hn|].
    specialize (IH eq_refl). apply pending_step in He.
    unfold arrivals, dispatched in *. rewrite !omap_app, IH. cbn.
    destruct e1; cbn in *; rewrite ?app_nil_r, He.
    + by rewrite app_assoc.
    + by rewrite <-app_assoc.
    + done.
    + done.
  - by apply pending_step in He.
  - intros Hw Hp. assert (reader_inv s') as [Hi _].
    { eapply reader_inv_step; [exact He|]. by eapply rsteps_inv. }
    destruct s' as [n' pc]. cbn in Hw. subst pc.
    eexists. split; [apply step_wake; by apply Hi|]. done.
Qed.

(** ** The reader gets through *)

(** A message from the network: it has a sender and a content. *)
Definition well_formed (m : ProtocolMsg) : Prop := is_Some (pm_From m) ∧ is_Some (pm_Msg m).

(** An instance with handlers only, whose held back messages are well-formed. *)
Definition handlers_only (n : TreeNodeInstance) : Prop :=
  channels n = ∅ ∧ map_Forall (λ _, Forall well_formed) (msgQueue n).

Lemma reflectCreate_returns t m :
  is_Some (Trees.t_Root t) → well_formed m → ∃ d, reflectCreate (Some t) m = Ret d.
Proof.
  intros [r Hr] [[from Hf] [msg Hm]]. unfold reflectCreate, Trees.Search. cbn [deref obind].
  rewrite Hf. cbn [deref obind]. rewrite Hr. cbn [deref obind]. rewrite Hm.
  case_match; eexists; done.
Qed.

Lemma reflect_all_returns t ms :
  is_Some (Trees.t_Root t) → Forall well_formed ms →
  ∃ ds, omapM (reflectCreate (Some t)) ms = Ret ds.
Proof.
  intros Ht. induction 1 as [|m ms Hm _ [ds IH]]; [eexists; done|].
  destruct (reflectCreate_returns t m Ht Hm) as [d Hd]. cbn [omapM].
  rewrite Hd. cbn [obind]. rewrite IH. eexists; done.
Qed.

Lemma dispatchHandler_returns t n h mt ms :
  is_Some (Trees.t_Root t) → Forall well_formed ms →
  ∃ e, dispatchHandler (Some t) n h mt ms = Ret e.
Proof.
  intros Ht Hms. unfold dispatchHandler. case_match.
  - destruct (reflect_all_returns t ms Ht Hms) as [ds ->]. eexists; done.
  - generalize (@None error) as e0. induction Hms as [|m ms Hm _ IH]; intros e0; [eexists; done|].
    destruct (reflectCreate_returns t m Ht Hm) as [d Hd].
    cbn [ofoldM]. rewrite Hd. apply IH.
Qed.

Lemma aggregate_returns n m :
  well_formed m → map_Forall (λ _, Forall well_formed) (msgQueue n) →
  ∃ r q, aggregate n m = Ret (r, set_msgQueue n q) ∧
    map_Forall (λ _, Forall well_formed) q ∧ (∀ ms, r = Some ms → Forall well_formed ms).
Proof.
  intros Hm Hq. pose proof Hm as [[from Hf] _]. unfold aggregate.
  destruct (match Parent n with None => _ | Some p => _ end) as [fp| | |] eqn:E;
    [|destruct (Parent n); [rewrite Hf in E|]; done..]. cbn [obind].
  assert (Forall well_formed (default [] (msgQueue n !! pm_MsgType m) ++ [m])) as Ha.
  { apply Forall_app. split; [|by apply Forall_singleton].
    destruct (msgQueue n !! pm_MsgType m) eqn:El; [exact (Hq _ _ El)|apply Forall_nil_2]. }
  destruct (fp || _).
  - exists (Some [m]), (msgQueue n). rewrite set_msgQueue_same. split; [done|]. split; [done|].
    intros ms [= <-]. by apply Forall_singleton.
  - destruct (_ =? _)%nat; eexists _, _; (split; [done|]); split.
    + by apply map_Forall_delete.
    + by intros ms [= <-].
    + by apply map_Forall_insert_2.
    + done.
Qed.

Lemma dispatch_returns t n m :
  is_Some (Trees.t_Root t) → well_formed m → handlers_only n →
  ∃ e n', dispatchMsgToProtocol (Some t) n m = Some (Ret (e, n')) ∧ handlers_only n'.
Proof.
  intros Ht Hm [Hc Hq]. destruct (aggregate_returns n m Hm Hq) as (r & q & E & Hq' & Hr).
  unfold dispatchMsgToProtocol. rewrite E. destruct r as [ms|]; [|by eexists _, _].
  cbn [channels handlers set_msgQueue]. rewrite Hc, lookup_empty.
  destruct (handlers n !! pm_MsgType m) as [h|]; [|by eexists _, _].
  destruct (dispatchHandler_returns t (set_msgQueue n q) h (pm_MsgType m) ms Ht (Hr _ eq_refl))
    as [e ->]. by eexists _, _.
Qed.

Lemma drain_top t q : is_Some (Trees.t_Root t) → Forall well_formed q → ∀ n,
  handlers_only n → closing n = false → msgDispatchQueue n = q →
  ∃ es s, rsteps (Some t) {| tni := n; reader := RTop |} es s ∧ arrivals es = [] ∧
    dispatched es = q ∧ pending s = [].
Proof.
  intros Ht. induction 1 as [|m q Hm _ IH]; intros n Hh Hc Hq.
  { exists [], {| tni := n; reader := RTop |}. unfold pending. cbn. rewrite Hq. repeat constructor. }
  set (n1 := set_queue n q (wakeup n) (closing n)).
  destruct (dispatch_returns t n1 m Ht Hm Hh) as (e & n2 & Hd & Hh2).
  pose proof (dispatch_frame _ _ _ _ _ Hd) as (mq & chs & ->).
  destruct (IH _ Hh2 Hc eq_refl) as (es & s & Hs & Ha & Hds & Hp).
  exists (([ESilent] ++ [EDispatch m e]) ++ es), s. split; [|split; [|split]].
  - eapply rsteps_app; [|exact Hs].
    eapply rsteps_app; apply rsteps_one; [by apply step_take|by apply step_dispatch].
  - done.
  - cbn. f_equal. exact Hds.
  - done.
Qed.

Lemma handlers_only_step t s e s' :
  rstep (Some t) s e s' → is_Some (Trees.t_Root t) → Forall well_formed (arrivals [e]) →
  Forall well_formed (pending s) → handlers_only (tni s) → handlers_only (tni s').
Proof.
  unfold pending. destruct 1 as [n pc msg|n pc sd|n Hc|n msg q Hc Hq|n Hc Hq|n Hw|n msg e n' Hd|
    n pc mt c x xs Hc Hx]; cbn; intros Ht Ha Hp Hh; try done.
  - apply Forall_cons in Hp as [Hm _].
    destruct (dispatch_returns t n msg Ht Hm Hh) as (e' & n1 & E & Hh'). congruence.
  - destruct Hh as [Hn _]. rewrite Hn in Hc. by rewrite lookup_empty in Hc.
Qed.

Lemma arrivals_app es es' : arrivals (es ++ es') = arrivals es ++ arrivals es'.
Proof. apply omap_app. Qed.

Lemma handlers_only_steps t n es s :
  rsteps (Some t) (start_reader n) es s → is_Some (Trees.t_Root t) →
  Forall well_formed (arrivals es) → msgDispatchQueue n = [] → handlers_only n →
  handlers_only (tni s) ∧ Forall well_formed (pending s).
Proof.
  intros H Ht Ha Hn Hh. remember (start_reader n) as s0 eqn:E. revert Ha.
  induction H as [s|s es s1 e s2 Hs IH He]; intros Ha; subst; [by unfold pending; cbn; rewrite Hn|].
  rewrite arrivals_app in Ha. apply Forall_app in Ha as [Ha Ha1].
  destruct (IH eq_refl Ha) as [IHh IHp]. split; [by eapply handlers_only_step|].
  apply pending_step in He. destruct e; cbn in He.
  - rewrite He. by apply Forall_app.
  - rewrite He in IHp. by apply Forall_cons in IHp as [_ ?].
  - by rewrite He.
  - by rewrite He.
Qed.

(** Whatever happened before, an instance whose protocol uses handlers, that
    is not closing and that got well-formed messages of a tree the overlay
    knows, comes to dispatch all messages that are waiting, in order, without
    any further arrival. *)
Theorem reader_drains t n es s :
  is_Some (Trees.t_Root t) → msgDispatchQueue n = [] → handlers_only n →
  rsteps (Some t) (start_reader n) es s → Forall well_formed (arrivals es) →
  closing (tni s) = false →
  ∃ es' s', rsteps (Some t) s es' s' ∧ arrivals es' = [] ∧
    dispatched es' = pending s ∧ pending s' = [].
Proof.
  intros Ht Hn Hh Hs Ha Hc.
  destruct (handlers_only_steps _ _ _ _ Hs Ht Ha Hn Hh) as [Hh' Hp].
  destruct (rsteps_inv _ _ _ _ Hs) as [Hw He]. clear Hs Hn Hh Ha n es.
  destruct s as [n [|m| |]]; cbn in *; unfold pending in *; cbn in *.
  - destruct (drain_top t _ Ht Hp n Hh' Hc eq_refl) as (es & s & ? & ? & ? & ?). eauto 10.
  - apply Forall_cons in Hp as [Hm Hp].
    destruct (dispatch_returns t n m Ht Hm Hh') as (e & n2 & Hd & Hh2).
    pose proof (dispatch_frame _ _ _ _ _ Hd) as (mq & chs & ->).
    destruct (drain_top t _ Ht Hp _ Hh2 Hc eq_refl) as (es & s & Hs & Ha & Hds & Hps).
    exists ([EDispatch m e] ++ es), s.
    split; [eapply rsteps_app; [by apply rsteps_one, step_dispatch|exact Hs]|].
    split; [done|]. split; [|done]. cbn. f_equal. exact Hds.
  - destruct (msgDispatchQueue n) as [|m q] eqn:Eq.
    + exists [], {| tni := n; reader := RWait |}. cbn. rewrite Eq. repeat constructor.
    + destruct (drain_top t _ Ht Hp (set_queue n (m :: q) false (closing n)) Hh' Hc eq_refl)
        as (es & s & Hs & Ha & Hds & Hps).
      exists ([ESilent] ++ es), s. split; [|done].
      eapply rsteps_app; [|exact Hs]. apply rsteps_one. rewrite <-Eq. apply step_wake. auto.
  - rewrite He in Hc by done. done.
Qed.
End instance.
End Instances.

(** ** Witnesses *)
Module InstanceExample.
Import ZSuite TreeExample ProtocolExample Instances.

Definition leaf (k : Z) : Trees.TreeNode := Trees.NewTreeNode k (server k) (Z.to_nat k).
Definition node : Trees.TreeNode := Trees.set_children (leaf 1) [leaf 2; leaf 3].
Definition tree : Trees.Tree := Trees.MkTree [x01] None (Some node).
Definition token_at (k : Z) : Token :=
  {| tok_RosterID := [x02]; tok_TreeID := [x01]; tok_ProtoID := [x03]; tok_ServiceID := [x04];
     tok_RoundID := [x05]; tok_TreeNodeID := Trees.tn_ID (leaf k) |}.
Definition from_child (k : Z) (m : bytes) : ProtocolMsg := message (token_at k) (token_at 1) m.
Definition fresh : TreeNodeInstance := newTreeNodeInstance (token_at 1) node None defaultProtoIO.
Definition aggregating : TreeNodeInstance := setFlag fresh [x0a] AggregateMessages.

(** A handler for slices of structs registers with the flag of aggregation. *)
Example register_aggregated h :
  (let! n := RegisterHandler fresh
     (AFunc [RSlice (RStruct [] [RTreeNodePtr; ROther [x0a]])] [RError]) h in
   Ret (hasFlag n [x0a] AggregateMessages, bool_decide (is_Some (handlers n !! [x0a])))) =
  Ret (true, true).
Proof. reflexivity. Qed.

(** The children's messages in another order than theirs in the tree. *)
Lemma aggregate_correct_witness :
  aggregate_each aggregating [from_child 3 [x0a; x01]; from_child 2 [x0a; x02]] =
    Ret ([None; Some [from_child 3 [x0a; x01]; from_child 2 [x0a; x02]]], aggregating).
Proof.
  destruct (aggregate_correct aggregating [x0a] eq_refl) as (_ & H).
  apply (H eq_refl eq_refl); [done|]. split; [repeat constructor|].
  exists [token_at 3; token_at 2]. split; [reflexivity|]. apply perm_swap.
Defined.

Definition sleeping : Running := {| tni := fresh; reader := RWait |}.
Definition woken : Running :=
  {| tni := ProcessProtocolMsg fresh (from_child 2 [x0a]); reader := RWait |}.

Lemma reader_refines_fifo_witness :
  ∃ s, rstep (Some tree) woken ESilent s ∧ reader s = RTop ∧ pending s = [from_child 2 [x0a]].
Proof.
  destruct (reader_refines_fifo (Some tree) fresh [ESilent] sleeping (EArrive (from_child 2 [x0a])) woken)
    as (_ & _ & H).
  - done.
  - apply rsteps_one. by apply step_sleep.
  - apply step_arrive.
  - apply H; [done|]. by left.
Defined.

Lemma reader_drains_witness :
  ∃ es s, rsteps (Some tree) woken es s ∧ arrivals es = [] ∧
    dispatched es = [from_child 2 [x0a]] ∧ pending s = [].
Proof.
  apply (reader_drains tree fresh ([ESilent] ++ [EArrive (from_child 2 [x0a])]) woken).
  - by eexists.
  - done.
  - split; [done|]. apply map_Forall_empty.
  - eapply rsteps_app; apply rsteps_one; [by apply step_sleep|apply step_arrive].
  - apply Forall_singleton. split; by eexists.
  - done.
Defined.
End InstanceExample.
