(* ===== verification/Overlay.v ===== *)
(** * The overlay of a server ([imported/onet/overlay.go], the sending operations
      of [imported/onet/treenode.go], [newProtocol] of [service.go])

    The overlay knows trees and rosters, fetches the ones it does not know from
    the sender of a message, creates protocol instances and hands them their
    messages.  One server is a state [Overlay]; the dispatcher of the router
    holds its lock while a message is processed, so every [Process] is one step,
    and the goroutines started with [go] are steps of their own ([spawned]).  A
    mutex that is locked while it is held blocks for ever: [OutOfFuel]. *)
From S2P Require Import Prelude Suite Tree Protocol Instance.
Import Messages Protocols Proxies Instances.
Local Open Scope Z_scope.

(** The router: the error of sending a packet, after what was sent before. *)
Class RouterLib {S : Suite} {U : UuidLib} {L : MsgLib} := {
  router_error : list (ServerIdentity * Packet) → ServerIdentity → Packet → option error;
}.

Module Overlays.
Section overlay.
Context {S : Suite} {U : UuidLib} {U3 : UuidV3Lib} {L : MsgLib} {R : RouterLib}.

(** A [*TreeNode] with its parent pointers: the node and its ancestors, nearest
    first. *)
Definition Position : Type := Trees.TreeNode * list Trees.TreeNode.

(** A protocol constructor ([NewProtocol], and [NewProtocol] of a service, which
    also gets the configuration) registers channels and handlers with the
    instance it gets; [None] is the nil protocol.  A protocol instance is the
    tree node instance it embeds. *)
Record Registered := {
  reg_channels : gmap UUID Channel;
  reg_handlers : gmap UUID Handler;
  reg_flags : gmap UUID Z;
}.
Definition Constructor : Type := TreeNodeInstance → outcome error (option Registered).
Record Constructors := {
  protocols : list (bytes * Constructor);
  services : gmap UUID (option bytes → Constructor);
}.
Context (C : Constructors).

(** Goroutines that were started: the check of the waiting messages for a new
    tree, and the code of a protocol. *)
Inductive Task :=
  | TCheckPending (t : Trees.Tree)
  | TDispatch (pi : nat)
  | TStart (pi : nat).

(** Tree node instances are shared: [heap] holds them, the maps hold pointers.
    The locks are the two that are not released by the method that takes them,
    or held while other methods run.  [sent] is what the router took. *)
Record Overlay := {
  self : ServerIdentity;
  trees : gmap UUID Trees.Tree;
  entityLists : gmap UUID Roster;
  cache : gmap UUID (gmap UUID Position);
  heap : gmap nat TreeNodeInstance;
  next : nat;
  instances : gmap UUID nat;
  instancesInfo : gmap UUID bool;
  protocolInstances : gmap UUID nat;
  pendingTreeMarshal : gmap UUID (list Trees.TreeMarshal);
  pendingTreeLock : bool;
  pendingMsg : list (ProtocolMsg * MessageProxy);
  pendingMsgLock : bool;
  protos : list MessageProxy;
  pendingConfigs : gmap UUID bytes;
  sent : list (ServerIdentity * Packet);
  spawned : list Task;
}.

Definition NewOverlay (c : ServerIdentity) (factories : list (unit → MessageProxy)) : Overlay :=
  {| self := c; trees := ∅; entityLists := ∅; cache := ∅; heap := ∅; next := 0; instances := ∅;
     instancesInfo := ∅; protocolInstances := ∅; pendingTreeMarshal := ∅; pendingTreeLock := false;
     pendingMsg := []; pendingMsgLock := false; protos := (newMessageProxyStore factories).1;
     pendingConfigs := ∅; sent := []; spawned := [] |}.

(** Updates of single fields. *)
Definition set_trees (o : Overlay) (x : gmap UUID Trees.Tree) : Overlay :=
  {| self := self o; trees := x; entityLists := entityLists o; cache := cache o; heap :=
     heap o; next := next o; instances := instances o; instancesInfo := instancesInfo o;
     protocolInstances := protocolInstances o; pendingTreeMarshal := pendingTreeMarshal o;
     pendingTreeLock := pendingTreeLock o; pendingMsg := pendingMsg o; pendingMsgLock :=
     pendingMsgLock o; protos := protos o; pendingConfigs := pendingConfigs o; sent := sent
     o; spawned := spawned o |}.
Definition set_entityLists (o : Overlay) (x : gmap UUID Roster) : Overlay :=
  {| self := self o; trees := trees o; entityLists := x; cache := cache o; heap := heap o;
     next := next o; instances := instances o; instancesInfo := instancesInfo o;
     protocolInstances := protocolInstances o; pendingTreeMarshal := pendingTreeMarshal o;
     pendingTreeLock := pendingTreeLock o; pendingMsg := pendingMsg o; pendingMsgLock :=
     pendingMsgLock o; protos := protos o; pendingConfigs := pendingConfigs o; sent := sent
     o; spawned := spawned o |}.
Definition set_cache (o : Overlay) (x : gmap UUID (gmap UUID Position)) : Overlay :=
  {| self := self o; trees := trees o; entityLists := entityLists o; cache := x; heap :=
     heap o; next := next o; instances := instances o; instancesInfo := instancesInfo o;
     protocolInstances := protocolInstances o; pendingTreeMarshal := pendingTreeMarshal o;
     pendingTreeLock := pendingTreeLock o; pendingMsg := pendingMsg o; pendingMsgLock :=
     pendingMsgLock o; protos := protos o; pendingConfigs := pendingConfigs o; sent := sent
     o; spawned := spawned o |}.
Definition set_protocolInstances (o : Overlay) (x : gmap UUID nat) : Overlay :=
  {| self := self o; trees := trees o; entityLists := entityLists o; cache := cache o; heap
     := heap o; next := next o; instances := instances o; instancesInfo := instancesInfo o;
     protocolInstances := x; pendingTreeMarshal := pendingTreeMarshal o; pendingTreeLock :=
     pendingTreeLock o; pendingMsg := pendingMsg o; pendingMsgLock := pendingMsgLock o;
     protos := protos o; pendingConfigs := pendingConfigs o; sent := sent o; spawned :=
     spawned o |}.
Definition set_pendingTreeMarshal (o : Overlay) (x : gmap UUID (list Trees.TreeMarshal)) : Overlay :=
  {| self := self o; trees := trees o; entityLists := entityLists o; cache := cache o; heap
     := heap o; next := next o; instances := instances o; instancesInfo := instancesInfo o;
     protocolInstances := protocolInstances o; pendingTreeMarshal := x; pendingTreeLock :=
     pendingTreeLock o; pendingMsg := pendingMsg o; pendingMsgLock := pendingMsgLock o;
     protos := protos o; pendingConfigs := pendingConfigs o; sent := sent o; spawned :=
     spawned o |}.
Definition set_pendingTreeLock (o : Overlay) (x : bool) : Overlay :=
  {| self := self o; trees := trees o; entityLists := entityLists o; cache := cache o; heap
     := heap o; next := next o; instances := instances o; instancesInfo := instancesInfo o;
     protocolInstances := protocolInstances o; pendingTreeMarshal := pendingTreeMarshal o;
     pendingTreeLock := x; pendingMsg := pendingMsg o; pendingMsgLock := pendingMsgLock o;
     protos := protos o; pendingConfigs := pendingConfigs o; sent := sent o; spawned :=
     spawned o |}.
Definition set_pendingMsg (o : Overlay) (x : list (ProtocolMsg * MessageProxy)) : Overlay :=
  {| self := self o; trees := trees o; entityLists := entityLists o; cache := cache o; heap
     := heap o; next := next o; instances := instances o; instancesInfo := instancesInfo o;
     protocolInstances := protocolInstances o; pendingTreeMarshal := pendingTreeMarshal o;
     pendingTreeLock := pendingTreeLock o; pendingMsg := x; pendingMsgLock := pendingMsgLock
     o; protos := protos o; pendingConfigs := pendingConfigs o; sent := sent o; spawned :=
     spawned o |}.
Definition set_pendingMsgLock (o : Overlay) (x : bool) : Overlay :=
  {| self := self o; trees := trees o; entityLists := entityLists o; cache := cache o; heap
     := heap o; next := next o; instances := instances o; instancesInfo := instancesInfo o;
     protocolInstances := protocolInstances o; pendingTreeMarshal := pendingTreeMarshal o;
     pendingTreeLock := pendingTreeLock o; pendingMsg := pendingMsg o; pendingMsgLock := x;
     protos := protos o; pendingConfigs := pendingConfigs o; sent := sent o; spawned :=
     spawned o |}.
Definition set_pendingConfigs (o : Overlay) (x : gmap UUID bytes) : Overlay :=
  {| self := self o; trees := trees o; entityLists := entityLists o; cache := cache o; heap
     := heap o; next := next o; instances := instances o; instancesInfo := instancesInfo o;
     protocolInstances := protocolInstances o; pendingTreeMarshal := pendingTreeMarshal o;
     pendingTreeLock := pendingTreeLock o; pendingMsg := pendingMsg o; pendingMsgLock :=
     pendingMsgLock o; protos := protos o; pendingConfigs := x; sent := sent o; spawned :=
     spawned o |}.
Definition set_sent (o : Overlay) (x : list (ServerIdentity * Packet)) : Overlay :=
  {| self := self o; trees := trees o; entityLists := entityLists o; cache := cache o; heap
     := heap o; next := next o; instances := instances o; instancesInfo := instancesInfo o;
     protocolInstances := protocolInstances o; pendingTreeMarshal := pendingTreeMarshal o;
     pendingTreeLock := pendingTreeLock o; pendingMsg := pendingMsg o; pendingMsgLock :=
     pendingMsgLock o; protos := protos o; pendingConfigs := pendingConfigs o; sent := x;
     spawned := spawned o |}.
Definition set_spawned (o : Overlay) (x : list Task) : Overlay :=
  {| self := self o; trees := trees o; entityLists := entityLists o; cache := cache o; heap
     := heap o; next := next o; instances := instances o; instancesInfo := instancesInfo o;
     protocolInstances := protocolInstances o; pendingTreeMarshal := pendingTreeMarshal o;
     pendingTreeLock := pendingTreeLock o; pendingMsg := pendingMsg o; pendingMsgLock :=
     pendingMsgLock o; protos := protos o; pendingConfigs := pendingConfigs o; sent := sent
     o; spawned := x |}.
Definition set_heap (o : Overlay) (x : gmap nat TreeNodeInstance) : Overlay :=
  {| self := self o; trees := trees o; entityLists := entityLists o; cache := cache o; heap
     := x; next := next o; instances := instances o; instancesInfo := instancesInfo o;
     protocolInstances := protocolInstances o; pendingTreeMarshal := pendingTreeMarshal o;
     pendingTreeLock := pendingTreeLock o; pendingMsg := pendingMsg o; pendingMsgLock :=
     pendingMsgLock o; protos := protos o; pendingConfigs := pendingConfigs o; sent := sent
     o; spawned := spawned o |}.
Definition set_instances (o : Overlay) (h : gmap nat TreeNodeInstance) (k : nat) (x : gmap UUID nat) (i : gmap UUID bool) : Overlay :=
  {| self := self o; trees := trees o; entityLists := entityLists o; cache := cache o; heap
     := h; next := k; instances := x; instancesInfo := i; protocolInstances :=
     protocolInstances o; pendingTreeMarshal := pendingTreeMarshal o; pendingTreeLock :=
     pendingTreeLock o; pendingMsg := pendingMsg o; pendingMsgLock := pendingMsgLock o;
     protos := protos o; pendingConfigs := pendingConfigs o; sent := sent o; spawned :=
     spawned o |}.

Abbreviation OM := (SM Overlay error).

Definition modify (f : Overlay → Overlay) : OM unit := λ o, (Ret tt, f o).
Definition gets {A} (f : Overlay → A) : OM A := λ o, (Ret (f o), o).
(** An error that is only logged. *)
Definition logged {A} (c : OM A) : OM (option error) := λ o,
  match c o with
  | (Ret _, o) => (Ret None, o)
  | (Err e, o) => (Ret (Some e), o)
  | (Panic w, o) => (Panic w, o)
  | (OutOfFuel, o) => (OutOfFuel, o)
  end.
Definition map_error {A} (f : error → error) (c : OM A) : OM A := λ o,
  let '(r, o) := c o in (omap_err f r, o).
(** [if err != nil { log; return }]. *)
Definition or_return {A} (r : outcome error A) (k : A → OM unit) : OM unit :=
  match r with
  | Ret a => k a
  | Err _ => sret tt
  | Panic w => slift (Panic w)
  | OutOfFuel => slift OutOfFuel
  end.
Definition spawn (t : Task) : OM unit := modify (λ o, set_spawned o (spawned o ++ [t])).

(** [server.Send]: refuses a nil packet, dereferences the identity. *)
Definition server_Send (si : option ServerIdentity) (msg : option Packet) : OM unit := λ o,
  match msg with
  | None => (Err "Can't send nil-packet", o)
  | Some p =>
      match si with
      | None => (Panic "nil pointer dereference", o)
      | Some si =>
          match router_error (sent o) si p with
          | Some e => (Err e, o)
          | None => (Ret tt, set_sent o (sent o ++ [(si, p)]))
          end
      end
  end.

(** ** Trees and rosters *)
Definition Tree (o : Overlay) (tid : UUID) : option Trees.Tree := trees o !! tid.
Definition TreeFromToken (o : Overlay) (tok : Token) : option Trees.Tree := trees o !! tok_TreeID tok.
Definition Roster (o : Overlay) (elid : UUID) : option Rosters.Roster := entityLists o !! elid.
Definition RosterFromToken (o : Overlay) (tok : Token) : option Rosters.Roster :=
  entityLists o !! tok_RosterID tok.

(** [checkPendingMessages] starts its goroutine. *)
Definition checkPendingMessages (t : Trees.Tree) : OM unit := spawn (TCheckPending t).

Definition RegisterTree (t : Trees.Tree) : OM unit :=
  do! _ := modify (λ o, set_trees o (<[Trees.t_ID t := t]> (trees o))) in
  checkPendingMessages t.

Definition RegisterRoster (el : Rosters.Roster) : OM unit :=
  modify (λ o, set_entityLists o (<[Rosters.ID el := el]> (entityLists o))).

(** ** The cache of tree nodes *)

(** The nodes of a tree with their ancestors, depth-first. *)
Fixpoint positions (ancestors : list Trees.TreeNode) (t : Trees.TreeNode) : list Position :=
  match t with
  | Trees.MkTreeNode _ _ _ cs _ => (t, ancestors) :: concat (positions (t :: ancestors) <$> cs)
  end.

(** [tree.Search] with the parent pointers: the last match. *)
Definition locate (t : Trees.Tree) (id : UUID) : outcome error (option Position) :=
  let! root := deref (Trees.t_Root t) in
  Ret (foldl (λ r p, if uuid_Equal (Trees.tn_ID p.1) id then Some p else r) None
         (positions [] root)).

(** [TreeNodeCache.Cache]: the node, its parent and its children. *)
Definition Cache (c : gmap UUID (gmap UUID Position)) (tree : Trees.Tree) (treeNode : Position)
    : gmap UUID (gmap UUID Position) :=
  let mm := default ∅ (c !! Trees.t_ID tree) in
  let mm := <[Trees.tn_ID treeNode.1 := treeNode]> mm in
  let mm := match treeNode.2 with [] => mm | p :: anc => <[Trees.tn_ID p := (p, anc)]> mm end in
  let mm := foldl (λ mm c, <[Trees.tn_ID c := (c, treeNode.1 :: treeNode.2)]> mm) mm
              (Trees.tn_Children treeNode.1) in
  <[Trees.t_ID tree := mm]> c.

Definition GetFromToken (c : gmap UUID (gmap UUID Position)) (tok : option Token) : option Position :=
  match tok with
  | None => None
  | Some tok => match c !! tok_TreeID tok with None => None | Some mm => mm !! tok_TreeNodeID tok end
  end.

Definition TreeNodeFromToken (t : option Token) : OM Position :=
  match t with
  | None => sthrow "didn't find tree-node: No token given"
  | Some tok =>
      do! o := sget in
      match GetFromToken (cache o) t with
      | Some tn => sret tn
      | None =>
          match Tree o (tok_TreeID tok) with
          | None => sthrow "didn't find tree"
          | Some tree =>
              do! tn := slift (locate tree (tok_TreeNodeID tok)) in
              match tn with
              | None => sthrow "didn't find treenode"
              | Some tn => do! _ := modify (λ o, set_cache o (Cache (cache o) tree tn)) in sret tn
              end
          end
      end
  end.

(** ** Instances *)
Definition get_instance (p : nat) : OM TreeNodeInstance :=
  do! o := sget in slift (deref (heap o !! p)).
Definition put_instance (p : nat) (n : TreeNodeInstance) : OM unit :=
  modify (λ o, set_heap o (<[p := n]> (heap o))).

Definition newTreeNodeInstanceFromToken (tn : Position) (tok : Token) (io : MessageProxy) : OM nat :=
  do! o := sget in
  let n := newTreeNodeInstance tok tn.1 (head tn.2) io in
  do! _ := modify (λ o, set_instances o (<[next o := n]> (heap o)) (Datatypes.S (next o))
                          (<[Token_ID tok := next o]> (instances o)) (instancesInfo o)) in
  sret (next o).

Definition RegisterProtocolInstance (pi : nat) : OM unit :=
  do! n := get_instance pi in
  let tok := token n in
  do! o := sget in
  match instances o !! Token_ID tok with
  | None => sthrow "This TreeNodeInstance doesn't exist"
  | Some p =>
      do! tni := get_instance p in
      if isBound tni
      then sthrow "a ProtocolInstance already has been registered using this TreeNodeInstance"
      else
        do! _ := put_instance p (bind tni) in
        modify (λ o, set_protocolInstances o (<[Token_ID tok := pi]> (protocolInstances o)))
  end.

(** [Server.protocolInstantiate]; the constructor registers with the instance. *)
Definition construct (p : nat) (fn : Constructor) : OM (option nat) :=
  do! n := get_instance p in
  do! r := slift (fn n) in
  match r with
  | None => sret None
  | Some r =>
      do! _ := put_instance p (set_registered n (reg_channels r) (reg_handlers r) (reg_flags r)) in
      sret (Some p)
  end.

Definition protocolInstantiate (protoID : UUID) (p : nat) : OM (option nat) :=
  match instantiator (protocols C) (ProtocolIDToName (protocols C) protoID) with
  | None => sthrow "No protocol constructor with this ID"
  | Some fn => construct p fn
  end.

(** [serviceManager.newProtocol]. *)
Definition newProtocol (p : nat) (config : option bytes) : OM (option nat) :=
  do! n := get_instance p in
  let defaultHandle := protocolInstantiate (tok_ProtoID (token n)) p in
  match services C !! tok_ServiceID (token n) with
  | None => defaultHandle
  | Some si =>
      do! pi := construct p (si config) in
      match pi with None => defaultHandle | Some pi => sret (Some pi) end
  end.

(** [nodeDelete]: the error of closing is logged. *)
Definition nodeDelete (tok : Token) : OM unit :=
  do! o := sget in
  match instances o !! Token_ID tok with
  | None => sret tt
  | Some p =>
      do! tni := get_instance p in
      do! _ := put_instance p (closeDispatch tni None).2 in
      modify (λ o, set_instances o (heap o) (next o) (delete (Token_ID tok) (instances o))
                     (<[Token_ID tok := true]> (instancesInfo o)))
  end.
Definition nodeDone (tok : Token) : OM unit := nodeDelete tok.

(** [TreeNodeInstance.Done]; [cb] is the answer of the callback, if there is one. *)
Definition Done (p : nat) (cb : option bool) : OM unit :=
  match cb with
  | Some false => sret tt
  | _ =>
      do! n := get_instance p in
      do! _ := put_instance p (closeDispatch n None).2 in
      nodeDone (token n)
  end.

(** [Close]; Go ranges over the map of instances. *)
Definition Close : OM unit :=
  do! o := sget in
  sforM (λ _ p, do! n := get_instance p in nodeDelete (token n)) tt (map_to_list (instances o)).*2.

(** [getConfig]. *)
Definition getConfig (id : UUID) : OM (option bytes) :=
  do! c := gets (λ o, pendingConfigs o !! id) in
  do! _ := modify (λ o, set_pendingConfigs o (delete id (pendingConfigs o))) in
  sret c.
(** ** Messages waiting for their tree *)

(** [mutex.Lock()]: for ever when the mutex is held. *)
Definition lock_pendingMsg : OM unit := λ o,
  if pendingMsgLock o then (OutOfFuel, o) else (Ret tt, set_pendingMsgLock o true).
Definition unlock_pendingMsg : OM unit := modify (λ o, set_pendingMsgLock o false).
Definition lock_pendingTree : OM unit := λ o,
  if pendingTreeLock o then (OutOfFuel, o) else (Ret tt, set_pendingTreeLock o true).
Definition unlock_pendingTree : OM unit := modify (λ o, set_pendingTreeLock o false).

Definition savePendingMsg (onetMsg : ProtocolMsg) (io : MessageProxy) : OM unit :=
  do! _ := lock_pendingMsg in
  do! _ := modify (λ o, set_pendingMsg o (pendingMsg o ++ [(onetMsg, io)])) in
  unlock_pendingMsg.

Definition requestTree (si : option ServerIdentity) (onetMsg : ProtocolMsg) (io : MessageProxy) : OM unit :=
  do! _ := savePendingMsg onetMsg io in
  do! to := slift (deref (pm_To onetMsg)) in
  do! msg := slift (Wrap io None (request_tree (tok_TreeID to))) in
  server_Send si (Some msg).

(** The part of [TransmitMsg] that makes the instance: [None] when the protocol
    is not started. *)
Definition create_instance (to : Token) (io : MessageProxy) : OM (option nat) :=
  do! tn := map_error (λ _, "No TreeNode defined in this tree here"%string) (TreeNodeFromToken (Some to)) in
  do! tni := newTreeNodeInstanceFromToken tn to io in
  do! config := getConfig (Token_ID to) in
  do! pi := newProtocol tni config in
  match pi with
  | None => sret None
  | Some pi =>
      do! _ := spawn (TDispatch pi) in
      do! _ := map_error (λ e, "Error Binding TreeNodeInstance and ProtocolInstance:" +:+ e)
                 (RegisterProtocolInstance pi) in
      sret (Some pi)
  end.

Definition TransmitMsg (onetMsg : ProtocolMsg) (io : MessageProxy) : OM unit :=
  do! to := slift (deref (pm_To onetMsg)) in
  do! o := sget in
  match Tree o (tok_TreeID to) with
  | None => requestTree (pm_ServerIdentity onetMsg) onetMsg io
  | Some tree =>
      let pi := protocolInstances o !! Token_ID to in
      let done := default false (instancesInfo o !! Token_ID to) in
      if done : bool then sret tt
      else
        do! pi := match pi with Some pi => sret (Some pi) | None => create_instance to io end in
        match pi with
        | None => sret tt
        | Some pi => do! n := get_instance pi in put_instance pi (ProcessProtocolMsg n onetMsg)
        end
  end.

(** A waiting message: given to the overlay again when its tree is [t]. *)
Definition keep_pending (t : Trees.Tree) (newPending : list (ProtocolMsg * MessageProxy))
    (pending : ProtocolMsg * MessageProxy) : OM (list (ProtocolMsg * MessageProxy)) :=
  do! to := slift (deref (pm_To pending.1)) in
  if uuid_Equal (Trees.t_ID t) (tok_TreeID to)
  then do! _ := logged (TransmitMsg pending.1 pending.2) in sret newPending
  else sret (newPending ++ [pending]).

(** The body of the goroutine of [checkPendingMessages]. *)
Definition check_pending (t : Trees.Tree) : OM unit :=
  do! _ := lock_pendingMsg in
  do! msgs := gets pendingMsg in
  do! newPending := sforM (keep_pending t) [] msgs in
  do! _ := modify (λ o, set_pendingMsg o newPending) in
  unlock_pendingMsg.

(** ** Trees waiting for their roster *)
Definition addPendingTreeMarshal (tm : Trees.TreeMarshal) : OM unit :=
  do! _ := lock_pendingTree in
  do! _ := modify (λ o, set_pendingTreeMarshal o
             (<[Trees.tm_RosterID tm :=
                default [] (pendingTreeMarshal o !! Trees.tm_RosterID tm) ++ [tm]]> (pendingTreeMarshal o))) in
  unlock_pendingTree.

(** [checkPendingTreeMarshal]: returns with the lock when no tree waits. *)
Definition checkPendingTreeMarshal (el : Rosters.Roster) : OM unit :=
  do! _ := lock_pendingTree in
  do! sl := gets (λ o, pendingTreeMarshal o !! Rosters.ID el) in
  match sl with
  | None => sret tt
  | Some sl =>
      do! _ := sforM (λ _ tm, or_return (Trees.MakeTree tm el) RegisterTree) tt sl in
      unlock_pendingTree
  end.

(** ** Handlers of the overlay's own messages *)
Definition handleRequestTree (si : option ServerIdentity) (tid : UUID) (io : MessageProxy) : OM unit :=
  do! o := sget in
  do! treeM := slift (match Tree o tid with
                      | Some tree => Trees.MakeTreeMarshal tree
                      | None => Trees.MakeTreeMarshal (Trees.MkTree uuid_Nil None None)
                      end) in
  or_return (Wrap io None (send_tree treeM))
    (λ msg, do! _ := logged (server_Send si (Some msg)) in sret tt).

(** An error of [Wrap] is logged; a nil packet is sent then. *)
Definition handleSendTree (si : option ServerIdentity) (tm : Trees.TreeMarshal) (io : MessageProxy) : OM unit :=
  if uuid_IsNil (Trees.tm_TreeID tm) then sret tt
  else
    do! o := sget in
    match Roster o (Trees.tm_RosterID tm) with
    | None =>
        do! msg := match Wrap io None (request_roster (Trees.tm_RosterID tm)) with
                   | Err _ => sret None
                   | r => do! msg := slift r in sret (Some msg)
                   end in
        do! _ := logged (server_Send si msg) in
        addPendingTreeMarshal tm
    | Some roster => or_return (Trees.MakeTree tm roster) RegisterTree
    end.

(** The empty roster of the source has no aggregate. *)
Context (nil_point : Point).
Definition empty_roster : Rosters.Roster :=
  {| Rosters.ID := uuid_Nil; Rosters.List := []; Rosters.Aggregate := nil_point |}.

Definition handleRequestRoster (si : option ServerIdentity) (id : UUID) (io : MessageProxy) : OM unit :=
  do! o := sget in
  let roster := default empty_roster (Roster o id) in
  or_return (Wrap io None (send_roster roster))
    (λ msg, do! _ := logged (server_Send si (Some msg)) in sret tt).

Definition handleSendRoster (roster : Rosters.Roster) : OM unit :=
  if uuid_IsNil (Rosters.ID roster) then sret tt
  else do! _ := RegisterRoster roster in checkPendingTreeMarshal roster.

Definition handleConfigMessage (msg : Packet) : OM unit :=
  match msg with
  | PConfig c => modify (λ o, set_pendingConfigs o (<[cm_Dest c := cm_Config c]> (pendingConfigs o)))
  | _ => slift (Panic "wrong config type")
  end.

(** [Process]: a packet from the network. *)
Definition Process (env : Envelope) : OM unit :=
  if uuid_Equal (packet_type (env_Msg env)) ConfigMsgID then handleConfigMessage (env_Msg env)
  else
    do! o := sget in
    let io := getByPacketType (protos o) (packet_type (env_Msg env)) in
    let si := Some (env_ServerIdentity env) in
    or_return (Unwrap io (env_Msg env)) (λ '(inner, info),
        match om_RequestTree info, om_TreeMarshal info, om_RequestRoster info, om_Roster info with
        | Some id, _, _, _ => handleRequestTree si id io
        | None, Some tm, _, _ => handleSendTree si tm io
        | None, None, Some id, _ => handleRequestRoster si id io
        | None, None, None, Some r => handleSendRoster r
        | None, None, None, None =>
            do! inner := slift (deref inner) in
            do! i := slift (deref (om_TreeNodeInfo info)) in
            let protoMsg := {| pm_From := tni_From i; pm_To := tni_To i; pm_ServerIdentity := si;
                               pm_MsgType := MessageType inner; pm_Msg := Some inner; pm_MsgSlice := [] |} in
            do! _ := logged (TransmitMsg protoMsg io) in sret tt
        end).

(** ** Sending *)
Definition SendToTreeNode (from : Token) (to : Trees.TreeNode) (msg : option UMsg) (io : MessageProxy)
    (c : option bytes) : OM unit :=
  let tokenTo := ChangeTreeNodeID from (Trees.tn_ID to) in
  do! _ := match c with
           | None => sret tt
           | Some c => server_Send (Trees.tn_ServerIdentity to)
                         (Some (PConfig {| cm_Config := c; cm_Dest := Token_ID tokenTo |}))
           end in
  do! final := slift (Wrap io msg (node_info {| tni_To := Some tokenTo; tni_From := Some from |})) in
  server_Send (Trees.tn_ServerIdentity to) (Some final).

Definition SendTo (p : nat) (to : option Trees.TreeNode) (msg : option UMsg) : OM unit :=
  match to with
  | None => sthrow "Sent to a nil TreeNode"
  | Some to =>
      do! n := get_instance p in
      let '(c, n) := take_config n (Trees.tn_ID to) in
      do! _ := put_instance p n in
      SendToTreeNode (token n) to msg (protoIO n) c
  end.

Definition Multicast (p : nat) (msg : option UMsg) (nodes : list Trees.TreeNode) : OM unit :=
  sforM (λ _ node, SendTo p (Some node) msg) tt nodes.

(** [Broadcast] compares pointers; the nodes of one tree have different IDs. *)
Definition Broadcast (p : nat) (msg : option UMsg) : OM unit :=
  do! n := get_instance p in
  do! o := sget in
  do! (l, n) := slift (Instances.List (TreeFromToken o (token n)) n) in
  do! _ := put_instance p n in
  sforM (λ _ node, if uuid_Equal (Trees.tn_ID node) (Trees.tn_ID (treeNode n)) then sret tt
                   else SendTo p (Some node) msg) tt l.

Definition SendToParent (p : nat) (msg : option UMsg) : OM unit :=
  do! n := get_instance p in
  if IsRoot n then sret tt else SendTo p (Parent n) msg.

Definition SendToChildren (p : nat) (msg : option UMsg) : OM unit :=
  do! n := get_instance p in
  if IsLeaf n then sret tt
  else sforM (λ _ node, SendTo p (Some node) msg) tt (Children n).

(** The sends of [SendToChildrenInParallel] in the order they happen, with the
    errors that are collected. *)
Definition SendToChildrenInParallel (p : nat) (msg : option UMsg) (order : list Trees.TreeNode)
    : OM (list (UUID * error)) :=
  do! n := get_instance p in
  if IsLeaf n then sret []
  else sforM (λ errs node,
         do! e := logged (SendTo p (Some node) msg) in
         sret (match e with Some e => errs ++ [(Trees.tn_ID node, e)] | None => errs end)) [] order.

(** ** Starting protocols *)

(** [NewTreeNodeInstanceFromService]; the round gets the [u]-th random ID. *)
Definition NewTreeNodeInstanceFromService (t : Trees.Tree) (tn : option Trees.TreeNode) (protoID servID : UUID)
    (io : MessageProxy) (u : nat) : OM nat :=
  do! node := slift (deref tn) in
  do! el := slift (deref (Trees.t_Roster t)) in
  let tok := {| tok_TreeNodeID := Trees.tn_ID node; tok_TreeID := Trees.t_ID t;
                tok_RosterID := Rosters.ID el; tok_ProtoID := protoID;
                tok_ServiceID := servID; tok_RoundID := NewV4 u |} in
  do! pos := slift (locate t (Trees.tn_ID node)) in
  do! tni := newTreeNodeInstanceFromToken (default (node, []) pos) tok io in
  do! _ := RegisterTree t in
  do! _ := RegisterRoster el in
  sret tni.

Definition NewTreeNodeInstanceFromProtocol (t : Trees.Tree) (tn : option Trees.TreeNode) (protoID : UUID)
    (io : MessageProxy) (u : nat) : OM nat :=
  NewTreeNodeInstanceFromService t tn protoID uuid_Nil io u.

Definition NewTreeNodeInstanceFromProtoName (t : Trees.Tree) (name : bytes) (u : nat) : OM nat :=
  do! o := sget in
  NewTreeNodeInstanceFromProtocol t (Trees.t_Root t) (ProtocolNameToID name) (getByName (protos o) name) u.

Definition CreateProtocol (name : bytes) (t : Trees.Tree) (sid : UUID) (u : nat) : OM nat :=
  do! o := sget in
  let io := getByName (protos o) name in
  do! tni := NewTreeNodeInstanceFromService t (Trees.t_Root t) (ProtocolNameToID name) sid io u in
  do! n := get_instance tni in
  do! pi := protocolInstantiate (tok_ProtoID (token n)) tni in
  do! pi := slift (deref pi) in
  do! _ := RegisterProtocolInstance pi in
  do! _ := spawn (TDispatch pi) in
  sret pi.

Definition StartProtocol (name : bytes) (t : Trees.Tree) (sid : UUID) (u : nat) : OM nat :=
  do! pi := CreateProtocol name t sid u in
  do! _ := spawn (TStart pi) in
  sret pi.
(** ** Operations of a server, as they happen one after the other *)
Inductive Op :=
  | OProcess (env : Envelope)
  | OTask (i : nat)
  | OSendTo (p : nat) (to : option Trees.TreeNode) (msg : option UMsg)
  | OCreate (name : bytes) (t : Trees.Tree) (sid : UUID) (u : nat)
  | ODone (p : nat) (cb : option bool)
  | OClose.

(** A goroutine that is due runs; the code of the protocols is not ours. *)
Definition run_task (i : nat) : OM unit :=
  do! o := sget in
  match spawned o !! i with
  | Some (TCheckPending t) =>
      do! _ := modify (λ o, set_spawned o (delete i (spawned o))) in
      check_pending t
  | _ => sret tt
  end.

Definition run_op (op : Op) : OM unit :=
  match op with
  | OProcess env => Process env
  | OTask i => run_task i
  | OSendTo p to msg => SendTo p to msg
  | OCreate name t sid u => do! _ := CreateProtocol name t sid u in sret tt
  | ODone p cb => Done p cb
  | OClose => Close
  end.

Definition run_ops (ops : list Op) : OM unit := sforM (λ _ op, do! _ := logged (run_op op) in sret tt) tt ops.
End overlay.
End Overlays.
