(* ===== verification/OverlayInv.v ===== *)
(** * Invariants of the overlay ([imported/onet/overlay.go])

    What every sequence of operations of a server keeps: the maps of instances
    point to instances with their token, trees and rosters are filed under their
    IDs ([wf]); finished instances stay finished, and a lock that is not
    released stays taken ([grows]). *)
From S2P Require Import Prelude Suite Tree Protocol Instance Overlay.
Import Messages Protocols Proxies Instances Overlays.
Local Open Scope Z_scope.

(** Unfolds the elementary steps. *)
Ltac osteps := unfold get_instance, put_instance, modify, gets, spawn, sbind, sget, slift, sret,
  sthrow, deref in *; cbn in *.

Module OverlayInv.
Section inv.
Context {S : Suite} {U : UuidLib} {U3 : UuidV3Lib} {L : MsgLib} {R : RouterLib}.
Context (C : Constructors) (nil_point : Point).

(** ** Which operations keep a relation between states *)
Section preserving.
Context (Rel : relation Overlay) `{!PreOrder Rel}.
Abbreviation OM := (SM Overlay error).
Abbreviation keeps := (preserves Rel).

Lemma keeps_modify f : (∀ o, Rel o (f o)) → keeps (modify f).
Proof. intros Hf o. apply Hf. Qed.
Lemma keeps_gets {A} (f : Overlay → A) : keeps (gets f).
Proof. intros o. cbn. reflexivity. Qed.
Lemma keeps_logged {A} (c : OM A) : keeps c → keeps (logged c).
Proof. intros Hc o. specialize (Hc o). unfold logged. by destruct (c o) as [[] ?]. Qed.
Lemma keeps_map_error {A} f (c : OM A) : keeps c → keeps (map_error f c).
Proof. intros Hc o. specialize (Hc o). unfold map_error. by destruct (c o). Qed.
Lemma keeps_get_instance p : keeps (get_instance p).
Proof. intros o. cbn. reflexivity. Qed.

(** The updates of the state that creating an instance makes. *)
Record closed_inst := {
  cr_spawned o x : Rel o (set_spawned o x);
  cr_configs o x : Rel o (set_pendingConfigs o x);
  cr_cache o tree pos : Rel o (set_cache o (Cache (cache o) tree pos));
  cr_new o tn tok io : Rel o (newTreeNodeInstanceFromToken tn tok io o).2;
  cr_update o p n n' : heap o !! p = Some n → token n' = token n →
    Rel o (set_heap o (<[p := n']> (heap o)));
  cr_bound o p n : heap o !! p = Some n →
    Rel o (set_protocolInstances o (<[Token_ID (token n) := p]> (protocolInstances o)));
}.

Section creating.
Context (H : closed_inst).

(** Reading an instance, changing it but not its token, and going on. *)
Lemma keeps_update {A} p (f : TreeNodeInstance → TreeNodeInstance) (k : TreeNodeInstance → OM A) :
  (∀ n, token (f n) = token n) → (∀ n, keeps (k n)) →
  keeps (do! n := get_instance p in do! _ := put_instance p (f n) in k n).
Proof.
  intros Hf Hk o. unfold get_instance, put_instance, modify, sbind, sget, slift, deref. cbn.
  destruct (heap o !! p) as [n|] eqn:E; cbn; [|reflexivity].
  etrans; [by apply (cr_update H o p n (f n))|exact (Hk n _)].
Qed.
Lemma keeps_update_last p (f : TreeNodeInstance → TreeNodeInstance) :
  (∀ n, token (f n) = token n) → keeps (do! n := get_instance p in put_instance p (f n)).
Proof.
  intros Hf o. unfold get_instance, put_instance, modify, sbind, sget, slift, deref. cbn.
  destruct (heap o !! p) as [n|] eqn:E; cbn; [|reflexivity].
  by apply (cr_update H o p n).
Qed.
Lemma keeps_spawn t : keeps (spawn t).
Proof. apply keeps_modify. intros o. apply (cr_spawned H). Qed.
Lemma keeps_getConfig id : keeps (getConfig id).
Proof.
  apply preserves_bind; [done|apply keeps_gets|]. intros c.
  apply preserves_bind; [done| |intros _; by apply preserves_ret].
  apply keeps_modify. intros o. apply (cr_configs H).
Qed.
Lemma keeps_construct p fn : keeps (construct p fn).
Proof.
  intros o. unfold construct. osteps. destruct (heap o !! p) as [n|] eqn:E; osteps; [|reflexivity].
  destruct (fn n) as [[r|]| | |]; osteps; [|reflexivity..]. by apply (cr_update H o p n).
Qed.
Lemma keeps_protocolInstantiate id p : keeps (protocolInstantiate C id p).
Proof. unfold protocolInstantiate. case_match; [apply keeps_construct|by apply preserves_throw]. Qed.
Lemma keeps_newProtocol p config : keeps (newProtocol C p config).
Proof.
  apply preserves_bind; [done|apply keeps_get_instance|]. intros n. cbn zeta.
  case_match; [|apply keeps_protocolInstantiate].
  apply preserves_bind; [done|apply keeps_construct|]. intros [pi|]; [by apply preserves_ret|].
  apply keeps_protocolInstantiate.
Qed.
Lemma keeps_RegisterProtocolInstance pi : keeps (RegisterProtocolInstance pi).
Proof.
  intros o. unfold RegisterProtocolInstance. osteps.
  destruct (heap o !! pi) as [n|] eqn:E; osteps; [|reflexivity].
  destruct (instances o !! Token_ID (token n)) as [p|] eqn:Ei; osteps; [|reflexivity].
  destruct (heap o !! p) as [tni|] eqn:Ep; osteps; [|reflexivity].
  destruct (isBound tni); osteps; [reflexivity|].
  etrans; [by apply (cr_update H o p tni (bind tni))|].
  set (o' := set_heap o _).
  assert (∃ n', heap o' !! pi = Some n' ∧ token n' = token n) as (n' & E' & <-).
  { cbn. destruct (decide (p = pi)) as [->|Hne].
    - rewrite lookup_insert_eq. rewrite E in Ep. injection Ep as <-. by eexists.
    - rewrite lookup_insert_ne by done. by eexists. }
  exact (cr_bound H o' pi n' E').
Qed.
Lemma keeps_TreeNodeFromToken t : keeps (TreeNodeFromToken t).
Proof.
  destruct t as [tok|]; [|by apply preserves_throw]. unfold TreeNodeFromToken.
  apply preserves_get_bind. intros o. case_match; [by apply preserves_ret|].
  case_match; [|by apply preserves_throw].
  apply preserves_bind; [done|by apply preserves_lift|]. intros [tn|]; [|by apply preserves_throw].
  apply preserves_bind; [done| |intros _; by apply preserves_ret].
  apply keeps_modify. intros o'. apply (cr_cache H).
Qed.
Lemma keeps_create_instance to io : keeps (create_instance C to io).
Proof.
  apply preserves_bind; [done|apply keeps_map_error, keeps_TreeNodeFromToken|]. intros tn.
  apply preserves_bind; [done|intros o; apply (cr_new H)|]. intros tni.
  apply preserves_bind; [done|apply keeps_getConfig|]. intros config.
  apply preserves_bind; [done|apply keeps_newProtocol|]. intros [pi|]; [|by apply preserves_ret].
  apply preserves_bind; [done|apply keeps_spawn|]. intros _.
  apply preserves_bind; [done|apply keeps_map_error, keeps_RegisterProtocolInstance|].
  intros _. by apply preserves_ret.
Qed.
End creating.

(** The updates of all operations. *)
Record closed_rel := {
  cr_inst : closed_inst;
  cr_trees o t : Rel o (set_trees o (<[Trees.t_ID t := t]> (trees o)));
  cr_roster o el : Rel o (set_entityLists o (<[Rosters.ID el := el]> (entityLists o)));
  cr_sent o m : Rel o (set_sent o (sent o ++ [m]));
  cr_delete o tok :
    Rel o (set_instances o (heap o) (next o) (delete (Token_ID tok) (instances o))
             (<[Token_ID tok := true]> (instancesInfo o)));
  cr_save m to io : pm_To m = Some to → keeps (savePendingMsg m io);
  cr_check t : (∀ m io, keeps (TransmitMsg C m io)) → keeps (check_pending C t);
  cr_addTree tm : keeps (addPendingTreeMarshal tm);
  cr_checkTrees el : (∀ t, keeps (RegisterTree t)) → keeps (checkPendingTreeMarshal el);
}.
Context (H : closed_rel).


Lemma keeps_server_Send si msg : keeps (server_Send si msg).
Proof.
  intros o. unfold server_Send. destruct msg as [p|]; [|cbn; reflexivity].
  destruct si as [si|]; [|cbn; reflexivity]. destruct (router_error _ _ _); cbn; [reflexivity|].
  apply (cr_sent H).
Qed.
Lemma keeps_RegisterTree t : keeps (RegisterTree t).
Proof.
  apply preserves_bind; [done| |intros _; apply (keeps_spawn (cr_inst H))].
  apply keeps_modify. intros o. apply (cr_trees H).
Qed.
Lemma keeps_RegisterRoster el : keeps (RegisterRoster el).
Proof. apply keeps_modify. intros o. apply (cr_roster H). Qed.
Lemma keeps_requestTree si m to io : pm_To m = Some to → keeps (requestTree si m io).
Proof.
  intros Hm. apply preserves_bind; [done|by eapply (cr_save H)|]. intros _.
  apply preserves_bind; [done|by apply preserves_lift|]. intros to2.
  apply preserves_bind; [done|by apply preserves_lift|]. intros msg. apply keeps_server_Send.
Qed.
Lemma keeps_TransmitMsg m io : keeps (TransmitMsg C m io).
Proof.
  unfold TransmitMsg. destruct (pm_To m) as [to|] eqn:Em; [|intros o; cbn; reflexivity].
  apply preserves_bind; [done|by apply preserves_lift|]. intros to'.
  apply preserves_get_bind. intros o. case_match.
  - cbn zeta. case_match; [by apply preserves_ret|].
    apply preserves_bind; [done|case_match; [by apply preserves_ret|apply (keeps_create_instance (cr_inst H))]|].
    intros [pi|]; [|by apply preserves_ret]. by apply (keeps_update_last (cr_inst H)).
  - by eapply keeps_requestTree.
Qed.
Lemma keeps_nodeDelete tok : keeps (nodeDelete tok).
Proof.
  apply preserves_get_bind. intros o. case_match; [|by apply preserves_ret].
  apply (keeps_update (cr_inst H) n (λ tni, (closeDispatch tni None).2)); [done|]. intros _.
  apply keeps_modify. intros o'. apply (cr_delete H).
Qed.
Lemma keeps_Done p cb : keeps (Done p cb).
Proof.
  assert (keeps (do! n := get_instance p in
    do! _ := put_instance p (closeDispatch n None).2 in nodeDone (token n))) as Hd.
  { apply (keeps_update (cr_inst H) p (λ n, (closeDispatch n None).2)); [done|]. intros n. apply keeps_nodeDelete. }
  destruct cb as [[]|]; [done|by apply preserves_ret|done].
Qed.
Lemma keeps_Close : keeps Close.
Proof.
  apply preserves_get_bind. intros o. apply preserves_for; [done|]. intros _ p.
  apply preserves_bind; [done|apply keeps_get_instance|]. intros n. apply keeps_nodeDelete.
Qed.
Lemma keeps_SendTo p to msg : keeps (SendTo p to msg).
Proof.
  destruct to as [to|]; [|by apply preserves_throw]. unfold SendTo.
  assert (∀ n, token (take_config n (Trees.tn_ID to)).2 = token n) as Ht.
  { intros n. unfold take_config. by case_match. }
  assert (∀ n c, keeps (SendToTreeNode (token n) to msg (protoIO n) c)) as Hs.
  { intros n c. apply preserves_bind; [done| |].
    - case_match; [apply keeps_server_Send|by apply preserves_ret].
    - intros _. apply preserves_bind; [done|by apply preserves_lift|].
      intros final. apply keeps_server_Send. }
  intros o. osteps. destruct (heap o !! p) as [n|] eqn:E; osteps; [|reflexivity].
  specialize (Ht n). destruct (take_config n (Trees.tn_ID to)) as [c n']. cbn in *.
  etrans; [by apply (cr_update (cr_inst H) o p n n')|]. apply Hs.
Qed.
Lemma keeps_CreateProtocol name t sid u : keeps (CreateProtocol C name t sid u).
Proof.
  apply preserves_get_bind. intros o. cbn zeta. apply preserves_bind; [done| |].
  - apply preserves_bind; [done|by apply preserves_lift|]. intros node.
    apply preserves_bind; [done|by apply preserves_lift|]. intros el. cbn zeta.
    apply preserves_bind; [done|by apply preserves_lift|]. intros pos.
    apply preserves_bind; [done|intros o'; apply (cr_new (cr_inst H))|]. intros tni.
    apply preserves_bind; [done|apply keeps_RegisterTree|]. intros _.
    apply preserves_bind; [done|apply keeps_RegisterRoster|]. intros _. by apply preserves_ret.
  - intros tni. apply preserves_bind; [done|apply keeps_get_instance|]. intros n.
    apply preserves_bind; [done|apply (keeps_protocolInstantiate (cr_inst H))|]. intros pi.
    apply preserves_bind; [done|by apply preserves_lift|]. intros pi'.
    apply preserves_bind; [done|apply (keeps_RegisterProtocolInstance (cr_inst H))|]. intros _.
    apply preserves_bind; [done|apply (keeps_spawn (cr_inst H))|]. intros _. by apply preserves_ret.
Qed.

Lemma keeps_or_return {A} (r : outcome error A) k : (∀ a, keeps (k a)) → keeps (or_return r k).
Proof. intros Hk. destruct r; [apply Hk|by apply preserves_ret|by apply preserves_lift..]. Qed.

(** A reply: wrapped, sent, errors only logged. *)
Lemma keeps_reply si (r : outcome error Packet) :
  keeps (or_return r (λ msg, do! _ := logged (server_Send si (Some msg)) in sret tt)).
Proof.
  apply keeps_or_return. intros msg.
  apply preserves_bind; [done|apply keeps_logged, keeps_server_Send|]. intros _. by apply preserves_ret.
Qed.

Lemma keeps_handleSendTree si tm io : keeps (handleSendTree si tm io).
Proof.
  unfold handleSendTree. case_match; [by apply preserves_ret|].
  apply preserves_get_bind. intros o. case_match.
  - apply keeps_or_return, keeps_RegisterTree.
  - refine (preserves_bind Rel _ _ _ _ o).
    + destruct (Wrap _ _ _); intros o'; cbn; reflexivity.
    + intros msg. apply preserves_bind; [done|apply keeps_logged, keeps_server_Send|].
      intros _. apply (cr_addTree H).
Qed.
Lemma keeps_handleSendRoster el : keeps (handleSendRoster el).
Proof.
  unfold handleSendRoster. case_match; [by apply preserves_ret|].
  apply preserves_bind; [done|apply keeps_RegisterRoster|]. intros _.
  apply (cr_checkTrees H), keeps_RegisterTree.
Qed.
Lemma keeps_Process env : keeps (Process C nil_point env).
Proof.
  unfold Process. case_match.
  { unfold handleConfigMessage. case_match; try by apply preserves_lift.
    apply keeps_modify. intros o. apply (cr_configs (cr_inst H)). }
  apply preserves_get_bind. intros o. cbn zeta. generalize (getByPacketType (protos o) (packet_type (env_Msg env))) as io.
  intros io. apply keeps_or_return. intros [inner info].
  destruct (om_RequestTree info) as [tid|].
  { apply preserves_get_bind. intros o'. refine (preserves_bind Rel _ _ _ _ o');
      [by apply preserves_lift|]. intros tm. apply keeps_reply. }
  destruct (om_TreeMarshal info); [apply keeps_handleSendTree|].
  destruct (om_RequestRoster info) as [rid|].
  { apply preserves_get_bind. intros o'. apply keeps_reply. }
  destruct (om_Roster info); [apply keeps_handleSendRoster|].
  apply preserves_bind; [done|by apply preserves_lift|]. intros inner'.
  apply preserves_bind; [done|by apply preserves_lift|]. intros i. cbn zeta.
  apply preserves_bind; [done|apply keeps_logged, keeps_TransmitMsg|]. intros _. by apply preserves_ret.
Qed.

Lemma keeps_run_op op : keeps (run_op C nil_point op).
Proof.
  destruct op; cbn [run_op].
  - apply keeps_Process.
  - apply preserves_get_bind. intros o. case_match; [|by apply preserves_ret].
    case_match; [|by apply preserves_ret..].
    apply preserves_bind; [done|apply keeps_modify; intros o'; apply (cr_spawned (cr_inst H))|].
    intros _. apply (cr_check H), keeps_TransmitMsg.
  - apply keeps_SendTo.
  - apply preserves_bind; [done|apply keeps_CreateProtocol|]. intros _. by apply preserves_ret.
  - apply keeps_Done.
  - apply keeps_Close.
Qed.
Lemma keeps_run_ops ops : keeps (run_ops C nil_point ops).
Proof.
  apply preserves_for; [done|]. intros _ op.
  apply preserves_bind; [done|apply keeps_logged, keeps_run_op|]. intros _. by apply preserves_ret.
Qed.
End preserving.

(** ** Well-formed states *)
Record wf (o : Overlay) : Prop := {
  wf_heap p : (next o ≤ p)%nat → heap o !! p = None;
  wf_instances id p : instances o !! id = Some p →
    ∃ n, heap o !! p = Some n ∧ Token_ID (token n) = id;
  wf_protocols id p : protocolInstances o !! id = Some p →
    ∃ n, heap o !! p = Some n ∧ Token_ID (token n) = id;
  wf_trees id t : trees o !! id = Some t → Trees.t_ID t = id;
  wf_rosters id el : entityLists o !! id = Some el → Rosters.ID el = id;
  wf_cache tid mm nid pos : cache o !! tid = Some mm → mm !! nid = Some pos → Trees.tn_ID pos.1 = nid;
  wf_pending : Forall (λ p, is_Some (pm_To p.1)) (pendingMsg o);
  wf_marshals id tms : pendingTreeMarshal o !! id = Some tms →
    Forall (λ tm, Trees.tm_RosterID tm = id) tms;
}.

Definition keeps_wf : relation Overlay := λ o o', wf o → wf o'.
#[global] Instance keeps_wf_preorder : PreOrder keeps_wf.
Proof. split; [intros o H; exact H|intros o1 o2 o3 H1 H2 H; auto]. Qed.

(** Updates that [wf] does not see. *)
Lemma wf_same o o' :
  wf o → heap o' = heap o → next o' = next o → instances o' = instances o →
  protocolInstances o' = protocolInstances o → trees o' = trees o → entityLists o' = entityLists o →
  cache o' = cache o → pendingMsg o' = pendingMsg o → pendingTreeMarshal o' = pendingTreeMarshal o →
  wf o'.
Proof. intros [] ?????????. split; by repeat match goal with H : _ o' = _ |- _ => rewrite ?H; clear H end. Qed.

Lemma wf_set_pending o l :
  wf o → Forall (λ p, is_Some (pm_To p.1)) l → wf (set_pendingMsg o l).
Proof. intros [] Hl. by split. Qed.

Lemma wf_insert_tree o t : wf o → wf (set_trees o (<[Trees.t_ID t := t]> (trees o))).
Proof. intros []. split; cbn; [done..| |done|done|done|done]. intros id t'. rewrite lookup_insert_Some. naive_solver. Qed.

Lemma wf_insert_roster o el : wf o → wf (set_entityLists o (<[Rosters.ID el := el]> (entityLists o))).
Proof. intros []. split; cbn; [done..| |done|done|done]. intros id t'. rewrite lookup_insert_Some. naive_solver. Qed.

Definition coherent (mm : gmap UUID Position) : Prop :=
  map_Forall (λ nid pos, Trees.tn_ID pos.1 = nid) mm.

Lemma wf_insert_cache o tree pos : wf o → wf (set_cache o (Cache (cache o) tree pos)).
Proof.
  intros []. split; cbn; [done..| |done|done]. intros tid mm nid q. unfold Cache.
  rewrite lookup_insert_Some. intros [[_ <-]|[_ Hm]] Hq; [|by eapply wf_cache0].
  revert nid q Hq. change (coherent (foldl (λ mm c, <[Trees.tn_ID c:=(c, pos.1 :: pos.2)]> mm)
    (match pos.2 with
     | [] => <[Trees.tn_ID pos.1:=pos]> (default ∅ (cache o !! Trees.t_ID tree))
     | p :: anc => <[Trees.tn_ID p:=(p, anc)]>
         (<[Trees.tn_ID pos.1:=pos]> (default ∅ (cache o !! Trees.t_ID tree)))
     end) (Trees.tn_Children pos.1))).
  match goal with |- coherent (foldl _ ?m _) => assert (coherent m) as Hm end.
  - assert (coherent (<[Trees.tn_ID pos.1:=pos]> (default ∅ (cache o !! Trees.t_ID tree)))) as H1.
    { apply map_Forall_insert_2; [done|]. destruct (cache o !! _) eqn:E; [|apply map_Forall_empty].
      intros nid q. by eapply wf_cache0. }
    destruct pos.2; [done|]. by apply map_Forall_insert_2.
  - revert Hm. generalize (pos.1 :: pos.2) as anc. intros anc.
    match goal with |- coherent ?m → _ => generalize m end. clear.
    induction (Trees.tn_Children pos.1) as [|c cs IH]; intros m Hm; [done|].
    apply IH. by apply map_Forall_insert_2.
Qed.

Lemma wf_new o tn tok io : wf o → wf (newTreeNodeInstanceFromToken tn tok io o).2.
Proof.
  intros []. unfold newTreeNodeInstanceFromToken. osteps. split; cbn; try done.
  - intros p Hp. rewrite lookup_insert_ne by lia. apply wf_heap0. lia.
  - intros id p. rewrite lookup_insert_Some. intros [[<- <-]|[Hne Hi]].
    + rewrite lookup_insert_eq. by eexists.
    + destruct (wf_instances0 _ _ Hi) as (n & Hn & Ht). exists n. split; [|done].
      rewrite lookup_insert_ne; [done|]. intros <-. by rewrite wf_heap0 in Hn.
  - intros id p Hi. destruct (wf_protocols0 _ _ Hi) as (n & Hn & Ht). exists n. split; [|done].
    rewrite lookup_insert_ne; [done|]. intros <-. by rewrite wf_heap0 in Hn.
Qed.

(** An instance may change, but not its token. *)
Lemma lookup_update (h : gmap nat TreeNodeInstance) p n n' q id :
  h !! p = Some n → token n' = token n →
  (∃ m, h !! q = Some m ∧ Token_ID (token m) = id) →
  ∃ m, <[p := n']> h !! q = Some m ∧ Token_ID (token m) = id.
Proof.
  intros Hp Ht (m & Hm & Hid). destruct (decide (p = q)) as [->|Hne].
  - rewrite lookup_insert_eq. eexists. split; [done|]. rewrite Hp in Hm. injection Hm as <-.
    by rewrite Ht.
  - rewrite lookup_insert_ne by done. eauto.
Qed.

Lemma wf_update o p n n' :
  heap o !! p = Some n → token n' = token n → wf o → wf (set_heap o (<[p := n']> (heap o))).
Proof.
  intros Hp Ht []. split; cbn; try done.
  - intros q Hq. rewrite lookup_insert_ne; [by apply wf_heap0|].
    intros <-. rewrite wf_heap0 in Hp by done. done.
  - intros id q Hi. eapply lookup_update; eauto.
  - intros id q Hi. eapply lookup_update; eauto.
Qed.

Lemma wf_save m to io : pm_To m = Some to → preserves keeps_wf (savePendingMsg m io).
Proof.
  intros Hm o Hw. unfold savePendingMsg, lock_pendingMsg, unlock_pendingMsg. osteps.
  destruct (pendingMsgLock o); [done|]. cbn. destruct Hw. split; cbn; try done.
  apply Forall_app. split; [done|]. apply Forall_singleton. cbn. by rewrite Hm.
Qed.

Lemma wf_check t :
  (∀ m io, preserves keeps_wf (TransmitMsg C m io)) → preserves keeps_wf (check_pending C t).
Proof.
  intros HT o Hw. unfold check_pending, lock_pendingMsg, unlock_pendingMsg. osteps.
  destruct (pendingMsgLock o); [done|]. cbn.
  assert (∀ msgs acc o, wf o → Forall (λ p, is_Some (pm_To p.1)) msgs →
    Forall (λ p, is_Some (pm_To p.1)) acc →
    wf (sforM (keep_pending C t) acc msgs o).2 ∧ ∀ acc', (sforM (keep_pending C t) acc msgs o).1 = Ret acc' →
      Forall (λ p, is_Some (pm_To p.1)) acc') as Hloop.
  { clear o Hw. induction msgs as [|[m io] msgs IH]; intros acc o Hw Hm Ha.
    { cbn. split; [done|]. by intros acc' [= <-]. }
    apply Forall_cons in Hm as [[to Hto] Hm]. cbn in Hto. cbn [sforM].
    unfold sbind, keep_pending at 1 3. cbn. rewrite Hto. osteps. destruct (uuid_Equal _ _).
    - pose proof (HT m io o Hw) as Hw'. unfold logged.
      destruct (TransmitMsg C m io o) as [[] o']; cbn in *; [by apply IH..|done|done].
    - cbn. apply IH; [done|done|]. apply Forall_app. split; [done|].
      apply Forall_singleton. cbn. by rewrite Hto. }
  destruct (Hloop (pendingMsg o) [] (set_pendingMsgLock o true)) as [H1 H2].
  { by apply (wf_same o). }
  { apply Hw. }
  { done. }
  destruct (sforM (keep_pending C t) [] (pendingMsg o) (set_pendingMsgLock o true)) as [[l| | |] o'] eqn:E; cbn in *;
    [|done..]. eapply (wf_same (set_pendingMsg o' l)); [|done..]. apply wf_set_pending; auto.
Qed.

Lemma wf_addTree tm : preserves keeps_wf (addPendingTreeMarshal tm).
Proof.
  intros o Hw. unfold addPendingTreeMarshal, lock_pendingTree, unlock_pendingTree. osteps.
  destruct (pendingTreeLock o); [done|]. cbn. destruct Hw. split; cbn; try done.
  intros id tms. rewrite lookup_insert_Some. intros [[<- <-]|[_ Hi]]; [|by apply wf_marshals0].
  apply Forall_app. split; [|by apply Forall_singleton].
  destruct (pendingTreeMarshal o !! _) eqn:E; [by apply wf_marshals0|by apply Forall_nil_2].
Qed.

Lemma wf_checkTrees el :
  (∀ t, preserves keeps_wf (RegisterTree t)) → preserves keeps_wf (checkPendingTreeMarshal el).
Proof.
  intros HT o Hw. unfold checkPendingTreeMarshal, lock_pendingTree, unlock_pendingTree. osteps.
  destruct (pendingTreeLock o); [done|]. cbn.
  assert (wf (set_pendingTreeLock o true)) as Hw1 by by apply (wf_same o).
  destruct (pendingTreeMarshal o !! _) as [sl|]; [|done].
  assert (preserves keeps_wf
    (sforM (λ (_ : unit) tm, or_return (Trees.MakeTree tm el) RegisterTree) tt sl)) as Hs.
  { apply preserves_for; [apply _|]. intros _ tm. apply keeps_or_return; [apply _|done]. }
  specialize (Hs _ Hw1). destruct (sforM _ tt sl _) as [[] o']; cbn in *; [|done..].
  by apply (wf_same o').
Qed.

Lemma keeps_wf_inst : closed_inst keeps_wf.
Proof.
  split.
  - intros o x Hw. by apply (wf_same o).
  - intros o x Hw. by apply (wf_same o).
  - intros o tree pos Hw. by apply wf_insert_cache.
  - intros o tn tok io Hw. by apply wf_new.
  - intros o p n n' Hp Ht Hw. by eapply wf_update.
  - intros o p n Hp []. split; cbn; try done. intros id q. rewrite lookup_insert_Some.
    intros [[<- <-]|[_ Hi]]; [eauto|by apply wf_protocols0].
Qed.

Lemma keeps_wf_closed : closed_rel keeps_wf.
Proof.
  split.
  - apply keeps_wf_inst.
  - intros o t Hw. by apply wf_insert_tree.
  - intros o el Hw. by apply wf_insert_roster.
  - intros o m Hw. by apply (wf_same o).
  - intros o tok []. split; cbn; try done. intros id q. rewrite lookup_delete_Some.
    intros [_ Hi]. by apply wf_instances0.
  - intros m to io. apply wf_save.
  - apply wf_check.
  - apply wf_addTree.
  - apply wf_checkTrees.
Qed.

Lemma wf_new_overlay c fs : wf (NewOverlay c fs).
Proof. by split. Qed.

(** C19: after any sequence of operations of a server (packets from the network,
    goroutines, sends, new and finished protocols), whatever they return, every
    registered instance exists and is filed under the ID of its token, trees,
    rosters and cached nodes under their own IDs, trees that wait for a roster
    under the roster they name, and every waiting message names its receiver. *)
Theorem overlay_well_formed c fs ops : wf (run_ops C nil_point ops (NewOverlay c fs)).2.
Proof. apply (keeps_run_ops keeps_wf keeps_wf_closed ops), wf_new_overlay. Qed.

(** ** What only grows *)
Record grows (o o' : Overlay) : Prop := {
  g_self : self o' = self o;
  g_protos : protos o' = protos o;
  g_done id : instancesInfo o !! id = Some true → instancesInfo o' !! id = Some true;
  g_trees id : is_Some (trees o !! id) → is_Some (trees o' !! id);
  g_lock : pendingTreeLock o = true → pendingTreeLock o' = true;
}.
#[global] Instance grows_preorder : PreOrder grows.
Proof.
  split; [by split|]. intros o1 o2 o3 [] []. split; [congruence|congruence|auto..].
Qed.

Lemma grows_checkTrees el :
  (∀ t, preserves grows (RegisterTree t)) → preserves grows (checkPendingTreeMarshal el).
Proof.
  intros HT o. unfold checkPendingTreeMarshal, lock_pendingTree, unlock_pendingTree. osteps.
  destruct (pendingTreeLock o) eqn:El; [cbn; reflexivity|]. cbn.
  destruct (pendingTreeMarshal o !! _) as [sl|]; [|split; cbn; try done; congruence].
  assert (preserves grows
    (sforM (λ (_ : unit) tm, or_return (Trees.MakeTree tm el) RegisterTree) tt sl)) as Hs.
  { apply preserves_for; [apply _|]. intros _ tm. apply keeps_or_return; [apply _|done]. }
  specialize (Hs (set_pendingTreeLock o true)).
  destruct (sforM _ tt sl _) as [[] o']; cbn in *; destruct Hs; split; cbn in *; auto; congruence.
Qed.

Lemma grows_check t :
  (∀ m io, preserves grows (TransmitMsg C m io)) → preserves grows (check_pending C t).
Proof.
  intros HT. unfold check_pending.
  apply preserves_bind; [apply _| |]; [|intros _].
  { intros o. unfold lock_pendingMsg. by destruct (pendingMsgLock o). }
  apply preserves_bind; [apply _|apply keeps_gets; apply _|]. intros msgs.
  apply preserves_bind; [apply _| |].
  - apply preserves_for; [apply _|]. intros acc p.
    apply preserves_bind; [apply _|apply preserves_lift; apply _|]. intros to. case_match.
    + apply preserves_bind; [apply _|apply keeps_logged, HT|]. intros _. apply preserves_ret; apply _.
    + apply preserves_ret; apply _.
  - intros np. apply preserves_bind; [apply _|by apply keeps_modify|]. intros _. by apply keeps_modify.
Qed.

Lemma grows_closed : closed_rel grows.
Proof.
  split; try by (intros; split).
  - intros o t. split; cbn; try done. intros id Hi. destruct (decide (Trees.t_ID t = id)) as [->|].
    + rewrite lookup_insert_eq. by eexists.
    + by rewrite lookup_insert_ne.
  - intros o tok. split; cbn; try done. intros id Hi. destruct (decide (Token_ID tok = id)) as [->|].
    + by rewrite lookup_insert_eq.
    + by rewrite lookup_insert_ne.
  - intros m to io _ o. unfold savePendingMsg, lock_pendingMsg, unlock_pendingMsg. osteps.
    by destruct (pendingMsgLock o).
  - apply grows_check.
  - intros tm o. unfold addPendingTreeMarshal, lock_pendingTree, unlock_pendingTree. osteps.
    destruct (pendingTreeLock o) eqn:E; cbn; [reflexivity|]. split; cbn; try done. congruence.
  - apply grows_checkTrees.
Qed.

(** An instance that has finished stays finished: whatever operations follow,
    a message for its token changes nothing, no new instance is created for it
    and none gets the message. *)
Theorem finished_stays_finished o to ops m io :
  instancesInfo o !! Token_ID to = Some true → is_Some (Tree o (tok_TreeID to)) →
  pm_To m = Some to →
  let o' := (run_ops C nil_point ops o).2 in TransmitMsg C m io o' = (Ret tt, o').
Proof.
  intros Hd Ht Hm. cbn zeta.
  destruct (keeps_run_ops grows grows_closed ops o) as [_ _ Hd' Ht' _].
  specialize (Hd' _ Hd). specialize (Ht' _ Ht). revert Hd' Ht'.
  generalize (run_ops C nil_point ops o).2 as o'. intros o' Hd' [t Ht'].
  unfold TransmitMsg. rewrite Hm. osteps. unfold Tree. rewrite Ht', Hd'. done.
Qed.

(** A packet with a roster, with the default proxy. *)
Lemma Process_roster o from el :
  SendRosterMsgID ≠ ConfigMsgID → find_type (protos o) SendRosterMsgID = None →
  Process C nil_point {| env_ServerIdentity := from; env_Msg := PRoster el |} o = handleSendRoster el o.
Proof.
  intros Hc Hp. unfold Process. cbn [env_Msg packet_type]. unfold uuid_Equal at 1.
  rewrite bool_decide_false by done. osteps. unfold getByPacketType. rewrite Hp. done.
Qed.

(** C20: [checkPendingTreeMarshal] keeps its lock when no tree waits for the
    roster.  One packet with such a roster, from anyone, and the lock is taken
    for good: no operation gives it back, and every later packet with a roster,
    and every tree whose roster is not known, blocks for ever in the handler
    that the dispatcher of the router waits for. *)
Theorem roster_lock_leak o from el ops from' el' tm :
  SendRosterMsgID ≠ ConfigMsgID → find_type (protos o) SendRosterMsgID = None →
  pendingTreeLock o = false → pendingTreeMarshal o !! Rosters.ID el = None →
  Rosters.ID el ≠ uuid_Nil → Rosters.ID el' ≠ uuid_Nil →
  ∃ o1, Process C nil_point {| env_ServerIdentity := from; env_Msg := PRoster el |} o = (Ret tt, o1) ∧
    let o2 := (run_ops C nil_point ops o1).2 in
    pendingTreeLock o2 = true ∧
    (Process C nil_point {| env_ServerIdentity := from'; env_Msg := PRoster el' |} o2).1 = OutOfFuel ∧
    (addPendingTreeMarshal tm o2).1 = OutOfFuel.
Proof.
  intros Hc Hf Hl Hp Hn Hn'. rewrite Process_roster by done.
  unfold handleSendRoster, uuid_IsNil, uuid_Equal. rewrite bool_decide_false by done.
  unfold RegisterRoster, checkPendingTreeMarshal, lock_pendingTree. osteps. rewrite Hl. cbn.
  rewrite Hp. eexists. split; [done|].
  match goal with |- context [run_ops C nil_point ops ?o1] =>
    destruct (keeps_run_ops grows grows_closed ops o1) as [_ Hpr _ _ Hlk] end.
  specialize (Hlk eq_refl). cbn [protos set_pendingTreeLock set_entityLists] in Hpr.
  revert Hpr Hlk. generalize (run_ops C nil_point ops
    (set_pendingTreeLock (set_entityLists o (<[Rosters.ID el:=el]> (entityLists o))) true)).2 as o2.
  intros o2 Hpr Hlk. split; [done|]. split.
  - rewrite Process_roster by (done || by rewrite Hpr).
    unfold handleSendRoster, uuid_IsNil, uuid_Equal. rewrite bool_decide_false by done.
    unfold RegisterRoster, checkPendingTreeMarshal, lock_pendingTree. osteps. by rewrite Hlk.
  - unfold addPendingTreeMarshal, lock_pendingTree. osteps. by rewrite Hlk.
Qed.
End inv.
End OverlayInv.

(** ** Witnesses *)
Module OverlayExample.
Import ZSuite TreeExample ProtocolExample InstanceExample OverlayInv.

(** A router that delivers, and a service without handlers of its own. *)
#[global] Instance toy_router : RouterLib := {| router_error _ _ _ := None |}.
Definition no_registration : Registered :=
  {| reg_channels := ∅; reg_handlers := ∅; reg_flags := ∅ |}.
Definition toy_constructors : Constructors :=
  {| protocols := []; services := {[ [x04] := λ _ _, Ret (Some no_registration) ]} |}.

Definition idle : Overlay := NewOverlay (server 3) [].
Definition with_tree : Overlay := set_trees idle {[ Trees.t_ID tree := tree ]}.
Definition finished : Overlay := set_instances with_tree ∅ 0 ∅ {[ Token_ID (token_at 1) := true ]}.

Lemma finished_stays_finished_witness :
  let o := (run_ops toy_constructors 0 [OProcess {| env_ServerIdentity := server 5;
              env_Msg := PRoster roster5 |}; OClose] finished).2 in
  TransmitMsg toy_constructors (from_child 2 [x0a]) defaultProtoIO o = (Ret tt, o).
Proof.
  apply (finished_stays_finished toy_constructors 0 finished (token_at 1)).
  - apply lookup_insert_eq.
  - exists tree. vm_compute. reflexivity.
  - done.
Defined.

Lemma roster_lock_leak_witness :
  ∃ o1, Process toy_constructors 0 {| env_ServerIdentity := server 5; env_Msg := PRoster roster5 |} idle =
          (Ret tt, o1) ∧
    (Process toy_constructors 0 {| env_ServerIdentity := server 7; env_Msg := PRoster roster5 |}
       (run_ops toy_constructors 0 [OClose] o1).2).1 = OutOfFuel.
Proof.
  destruct (roster_lock_leak toy_constructors 0 idle (server 5) roster5 [OClose] (server 7) roster5
              (Trees.MkTreeMarshal [] [] [] [] []))
    as (o1 & H & _ & Hb & _).
  - apply (bool_decide_unpack _). vm_compute. exact I.
  - done.
  - done.
  - done.
  - apply (bool_decide_unpack _). vm_compute. exact I.
  - apply (bool_decide_unpack _). vm_compute. exact I.
  - exists o1. split; [exact H|exact Hb].
Defined.
End OverlayExample.
