(* ===== verification/OverlayRun.v ===== *)
(** * Two servers exchange a message ([imported/onet/overlay.go])

    A server sends a protocol message to one that knows neither the tree nor the
    roster: the handlers of both, packet by packet, up to the delivery to a new
    instance of the protocol. *)
From S2P Require Import Prelude Suite Tree Protocol Instance Overlay OverlayInv.
Import Messages Protocols Proxies Instances Overlays OverlayInv.
Local Open Scope Z_scope.

Module OverlayRun.
Section run.
Context {S : Suite} {U : UuidLib} {U3 : UuidV3Lib} {L : MsgLib} {R : RouterLib}.
Context (C : Constructors) (nil_point : Point).
Abbreviation OM := (SM Overlay error).

(** The packets of [ps] that are addressed to the server, from [from]. *)
Definition receive (from : ServerIdentity) (ps : list (ServerIdentity * Packet)) : OM unit :=
  do! o := sget in
  sforM (λ _ p, if uuid_Equal (Network.ID p.1) (Network.ID (self o))
                then Process C nil_point {| env_ServerIdentity := from; env_Msg := p.2 |}
                else sret tt) tt ps.

(** What was sent since [o]. *)
Definition new_packets (o o' : Overlay) : list (ServerIdentity * Packet) :=
  drop (length (sent o)) (sent o').

(** The hypotheses on the network: packets are delivered, and the names of the
    six packet types have different UUIDs. *)
Definition network_delivers : Prop := ∀ h si p, router_error h si p = None.
Definition types_differ : Prop :=
  NoDup [ProtocolMsgID; RequestTreeMsgID; SendTreeMsgID; RequestRosterMsgID; SendRosterMsgID; ConfigMsgID].

Context (Hnet : network_delivers) (Htypes : types_differ).

Lemma not_config p :
  match p with PConfig _ | POther _ => False | _ => True end → packet_type p ≠ ConfigMsgID.
Proof.
  unfold types_differ in Htypes. rewrite !NoDup_cons in Htypes.
  destruct Htypes as (H1 & H2 & H3 & H4 & H5 & _).
  destruct p; try done; intros _; cbn; intros E;
    [apply H1|apply H2|apply H3|apply H4|apply H5]; rewrite E, !elem_of_cons; tauto.
Qed.

Lemma server_Send_ok si p o :
  server_Send (Some si) (Some p) o = (Ret tt, set_sent o (sent o ++ [(si, p)])).
Proof. unfold server_Send. by rewrite Hnet. Qed.

Lemma Process_default env o :
  match env_Msg env with PConfig _ | POther _ => False | _ => True end → protos o = [] →
  Process C nil_point env o =
    or_return (default_Unwrap (env_Msg env)) (λ '(inner, info),
        match om_RequestTree info, om_TreeMarshal info, om_RequestRoster info, om_Roster info with
        | Some id, _, _, _ => handleRequestTree (Some (env_ServerIdentity env)) id defaultProtoIO
        | None, Some tm, _, _ => handleSendTree (Some (env_ServerIdentity env)) tm defaultProtoIO
        | None, None, Some id, _ =>
            handleRequestRoster nil_point (Some (env_ServerIdentity env)) id defaultProtoIO
        | None, None, None, Some r => handleSendRoster r
        | None, None, None, None =>
            do! inner := slift (deref inner) in
            do! i := slift (deref (om_TreeNodeInfo info)) in
            let protoMsg := {| pm_From := tni_From i; pm_To := tni_To i;
                               pm_ServerIdentity := Some (env_ServerIdentity env);
                               pm_MsgType := MessageType inner; pm_Msg := Some inner; pm_MsgSlice := [] |} in
            do! _ := logged (TransmitMsg C protoMsg defaultProtoIO) in sret tt
        end) o.
Proof.
  intros Hp Hprotos. unfold Process, uuid_Equal at 1. rewrite bool_decide_false by by apply not_config.
  unfold sbind at 1, sget. unfold getByPacketType. by rewrite Hprotos.
Qed.

(** One packet each. *)
Lemma Process_config from c o :
  Process C nil_point {| env_ServerIdentity := from; env_Msg := PConfig c |} o =
    (Ret tt, set_pendingConfigs o (<[cm_Dest c := cm_Config c]> (pendingConfigs o))).
Proof. unfold Process, uuid_Equal at 1. by rewrite bool_decide_true. Qed.

Lemma Process_request_tree from t tm o :
  protos o = [] → trees o !! Trees.t_ID t = Some t → Trees.MakeTreeMarshal t = Ret tm →
  Process C nil_point {| env_ServerIdentity := from; env_Msg := PRequestTree (Trees.t_ID t) |} o =
    (Ret tt, set_sent o (sent o ++ [(from, PTreeMarshal tm)])).
Proof.
  intros Hp Ht Hm. rewrite Process_default by done. cbn. unfold handleRequestTree, logged. osteps.
  unfold Tree. rewrite Ht, Hm. cbn. by rewrite Hnet.
Qed.

Lemma Process_tree from tm o :
  protos o = [] → entityLists o !! Trees.tm_RosterID tm = None → Trees.tm_TreeID tm ≠ uuid_Nil →
  pendingTreeLock o = false →
  Process C nil_point {| env_ServerIdentity := from; env_Msg := PTreeMarshal tm |} o =
    (Ret tt, set_pendingTreeLock (set_pendingTreeMarshal
      (set_pendingTreeLock (set_sent o (sent o ++ [(from, PRequestRoster (Trees.tm_RosterID tm))])) true)
      (<[Trees.tm_RosterID tm :=
           default [] (pendingTreeMarshal o !! Trees.tm_RosterID tm) ++ [tm]]> (pendingTreeMarshal o))) false).
Proof.
  intros Hp Hr Hid Hl. rewrite Process_default by done. cbn. unfold handleSendTree, uuid_IsNil, uuid_Equal.
  rewrite bool_decide_false by done. osteps. unfold Roster. rewrite Hr. cbn. unfold logged.
  rewrite server_Send_ok. unfold addPendingTreeMarshal, lock_pendingTree, unlock_pendingTree. osteps.
  rewrite Hl. done.
Qed.

Lemma Process_request_roster from el o :
  protos o = [] → entityLists o !! Rosters.ID el = Some el →
  Process C nil_point {| env_ServerIdentity := from; env_Msg := PRequestRoster (Rosters.ID el) |} o =
    (Ret tt, set_sent o (sent o ++ [(from, PRoster el)])).
Proof.
  intros Hp Hel. rewrite Process_default by done. cbn. unfold handleRequestRoster, logged. osteps.
  unfold Roster. rewrite Hel. cbn. by rewrite Hnet.
Qed.

Lemma Process_roster_builds from el tm t o :
  protos o = [] → pendingTreeLock o = false → pendingTreeMarshal o !! Rosters.ID el = Some [tm] →
  Rosters.ID el ≠ uuid_Nil → Trees.MakeTree tm el = Ret t →
  ∃ o', Process C nil_point {| env_ServerIdentity := from; env_Msg := PRoster el |} o = (Ret tt, o') ∧
    trees o' = <[Trees.t_ID t := t]> (trees o) ∧ spawned o' = spawned o ++ [TCheckPending t] ∧
    o' = set_pendingTreeLock (set_spawned (set_trees (set_pendingTreeLock
           (set_entityLists o (<[Rosters.ID el := el]> (entityLists o))) true)
           (trees o')) (spawned o')) false.
Proof.
  intros Hp Hl Htm Hid Hmk. rewrite Process_default by done. cbn.
  unfold handleSendRoster, uuid_IsNil, uuid_Equal. rewrite bool_decide_false by done.
  unfold RegisterRoster, checkPendingTreeMarshal, lock_pendingTree, unlock_pendingTree. osteps.
  rewrite Hl. cbn. rewrite Htm. cbn. rewrite Hmk. eexists. done.
Qed.

(** A message for a tree that is not known waits, and the tree is requested. *)
Lemma Process_protocol_unknown from pm m to o :
  protos o = [] → Unmarshal (pm_MsgSlice pm) = Ret m → pm_To pm = Some to →
  trees o !! tok_TreeID to = None → pendingMsgLock o = false →
  Process C nil_point {| env_ServerIdentity := from; env_Msg := PProtocol pm |} o =
    (Ret tt, set_sent (set_pendingMsgLock (set_pendingMsg (set_pendingMsgLock o true)
       (pendingMsg o ++ [({| pm_From := pm_From pm; pm_To := Some to; pm_ServerIdentity := Some from;
                             pm_MsgType := MessageType m; pm_Msg := Some m; pm_MsgSlice := [] |},
                          defaultProtoIO)])) false)
       (sent o ++ [(from, PRequestTree (tok_TreeID to))])).
Proof.
  intros Hp Hm Hto Ht Hl. rewrite Process_default by done. cbn. rewrite Hm, Hto. cbn. osteps.
  unfold logged, TransmitMsg. osteps. unfold Tree. rewrite Ht.
  unfold requestTree, savePendingMsg, lock_pendingMsg, unlock_pendingMsg. osteps. rewrite Hl. cbn.
  by rewrite Hnet.
Qed.

Lemma sbind_ret {A B} (c : OM A) (k : A → OM B) o a o' :
  c o = (Ret a, o') → sbind c k o = k a o'.
Proof. intros H. unfold sbind. by rewrite H. Qed.

Lemma TreeNodeFromToken_ok to t pos o :
  cache o = ∅ → trees o !! tok_TreeID to = Some t → locate t (tok_TreeNodeID to) = Ret (Some pos) →
  TreeNodeFromToken (Some to) o = (Ret pos, set_cache o (Cache (cache o) t pos)).
Proof.
  intros Hc Ht Hl. unfold TreeNodeFromToken. erewrite sbind_ret; [|done].
  assert (GetFromToken (cache o) (Some to) = None) as ->.
  { unfold GetFromToken. by rewrite Hc, lookup_empty. }
  unfold Tree. by rewrite Ht, Hl.
Qed.

Lemma newTreeNodeInstance_ok pos to io o :
  newTreeNodeInstanceFromToken pos to io o =
    (Ret (next o), set_instances o (<[next o := newTreeNodeInstance to pos.1 (head pos.2) io]> (heap o))
       (Datatypes.S (next o)) (<[Token_ID to := next o]> (instances o)) (instancesInfo o)).
Proof. done. Qed.

Lemma getConfig_ok id o :
  getConfig id o = (Ret (pendingConfigs o !! id), set_pendingConfigs o (delete id (pendingConfigs o))).
Proof. done. Qed.

Lemma construct_ok p n (fn : Constructor) reg o :
  heap o !! p = Some n → fn n = Ret (Some reg) →
  construct p fn o = (Ret (Some p), set_heap o (<[p :=
    set_registered n (reg_channels reg) (reg_handlers reg) (reg_flags reg)]> (heap o))).
Proof. intros Hn Hr. unfold construct. osteps. rewrite Hn. cbn. by rewrite Hr. Qed.

Lemma newProtocol_service p n config (si : option bytes → Constructor) reg o :
  heap o !! p = Some n → services C !! tok_ServiceID (token n) = Some si →
  si config n = Ret (Some reg) →
  newProtocol C p config o = (Ret (Some p), set_heap o (<[p :=
    set_registered n (reg_channels reg) (reg_handlers reg) (reg_flags reg)]> (heap o))).
Proof.
  intros Hn Hs Hr. unfold newProtocol.
  erewrite sbind_ret; [|unfold get_instance; osteps; by rewrite Hn]. cbn beta zeta. rewrite Hs.
  erewrite sbind_ret; [|by apply construct_ok]. done.
Qed.

Lemma RegisterProtocolInstance_ok p n o :
  heap o !! p = Some n → instances o !! Token_ID (token n) = Some p → instance n = false →
  RegisterProtocolInstance p o = (Ret tt, set_protocolInstances (set_heap o (<[p := bind n]> (heap o)))
    (<[Token_ID (token n) := p]> (protocolInstances o))).
Proof.
  intros Hn Hi Hb. unfold RegisterProtocolInstance.
  erewrite sbind_ret; [|unfold get_instance; osteps; by rewrite Hn]. cbn beta zeta.
  erewrite sbind_ret; [|done]. rewrite Hi.
  erewrite sbind_ret; [|unfold get_instance; osteps; by rewrite Hn].
  unfold isBound. rewrite Hb. done.
Qed.

(** A new instance for a token, through the service of the token. *)
Lemma create_instance_ok to io t pos (si : option bytes → Constructor) c reg o :
  trees o !! tok_TreeID to = Some t → cache o = ∅ → locate t (tok_TreeNodeID to) = Ret (Some pos) →
  pendingConfigs o !! Token_ID to = c → services C !! tok_ServiceID to = Some si →
  si c (newTreeNodeInstance to pos.1 (head pos.2) io) = Ret (Some reg) →
  ∃ o', create_instance C to io o = (Ret (Some (next o)), o') ∧
    trees o' = trees o ∧ pendingMsg o' = pendingMsg o ∧ pendingMsgLock o' = pendingMsgLock o ∧
    sent o' = sent o ∧ spawned o' = spawned o ++ [TDispatch (next o)] ∧
    pendingConfigs o' = delete (Token_ID to) (pendingConfigs o) ∧
    protocolInstances o' !! Token_ID to = Some (next o) ∧
    instances o' !! Token_ID to = Some (next o) ∧
    heap o' !! next o = Some (bind (set_registered (newTreeNodeInstance to pos.1 (head pos.2) io)
      (reg_channels reg) (reg_handlers reg) (reg_flags reg))).
Proof.
  intros Ht Hc Hloc Hcfg Hs Hreg. unfold create_instance.
  erewrite sbind_ret; [|unfold map_error; by erewrite TreeNodeFromToken_ok].
  erewrite sbind_ret; [|apply newTreeNodeInstance_ok].
  erewrite sbind_ret; [|apply getConfig_ok]. cbn [pendingConfigs set_instances set_cache]. rewrite Hcfg.
  erewrite sbind_ret; [|by eapply newProtocol_service; [apply lookup_insert_eq|done..]].
  cbn [set_heap]. erewrite sbind_ret; [|done].
  erewrite sbind_ret; [|unfold map_error; erewrite RegisterProtocolInstance_ok; [done|..]].
  2: { cbn. apply lookup_insert_eq. }
  2: { cbn. apply lookup_insert_eq. }
  2: { done. }
  eexists. split; [done|]. cbn. rewrite !lookup_insert_eq. done.
Qed.

(** The first message for a token makes the instance, with the configuration
    that came before, and is queued. *)
Lemma TransmitMsg_creates m io to t pos (si : option bytes → Constructor) c reg o :
  pm_To m = Some to → trees o !! tok_TreeID to = Some t →
  instancesInfo o !! Token_ID to = None → protocolInstances o !! Token_ID to = None →
  cache o = ∅ → locate t (tok_TreeNodeID to) = Ret (Some pos) →
  pendingConfigs o !! Token_ID to = c → services C !! tok_ServiceID to = Some si →
  si c (newTreeNodeInstance to pos.1 (head pos.2) io) = Ret (Some reg) →
  ∃ o', TransmitMsg C m io o = (Ret tt, o') ∧
    trees o' = trees o ∧ pendingMsg o' = pendingMsg o ∧ pendingMsgLock o' = pendingMsgLock o ∧
    sent o' = sent o ∧ pendingConfigs o' = delete (Token_ID to) (pendingConfigs o) ∧
    protocolInstances o' !! Token_ID to = Some (next o) ∧
    instances o' !! Token_ID to = Some (next o) ∧
    heap o' !! next o = Some (ProcessProtocolMsg (bind (set_registered
      (newTreeNodeInstance to pos.1 (head pos.2) io)
      (reg_channels reg) (reg_handlers reg) (reg_flags reg))) m).
Proof.
  intros Hto Ht Hi Hp Hc Hloc Hcfg Hs Hreg.
  destruct (create_instance_ok to io t pos si c reg o)
    as (o' & Hcr & Ht' & Hm' & Hl' & Hs' & _ & Hc' & Hp' & Hi' & Hh'); [done..|].
  unfold TransmitMsg. rewrite Hto. erewrite sbind_ret; [|done]. erewrite sbind_ret; [|done].
  unfold Tree. rewrite Ht. cbn zeta. rewrite Hi, Hp. cbn [default from_option].
  change (default false None) with false. cbn match.
  erewrite sbind_ret; [|exact Hcr]. cbn beta match. erewrite sbind_ret; [|unfold get_instance; osteps; by rewrite Hh'].
  eexists. split; [done|]. cbn. rewrite lookup_insert_eq. done.
Qed.

(** The goroutine for a new tree hands the waiting message over. *)
Lemma check_pending_delivers m io to t pos (si : option bytes → Constructor) c reg o :
  pendingMsg o = [(m, io)] → pendingMsgLock o = false → tok_TreeID to = Trees.t_ID t →
  pm_To m = Some to → trees o !! tok_TreeID to = Some t →
  instancesInfo o !! Token_ID to = None → protocolInstances o !! Token_ID to = None →
  cache o = ∅ → locate t (tok_TreeNodeID to) = Ret (Some pos) →
  pendingConfigs o !! Token_ID to = c → services C !! tok_ServiceID to = Some si →
  si c (newTreeNodeInstance to pos.1 (head pos.2) io) = Ret (Some reg) →
  ∃ o', check_pending C t o = (Ret tt, o') ∧
    trees o' = trees o ∧ pendingMsg o' = [] ∧ pendingMsgLock o' = false ∧ sent o' = sent o ∧
    pendingConfigs o' = delete (Token_ID to) (pendingConfigs o) ∧
    protocolInstances o' !! Token_ID to = Some (next o) ∧
    instances o' !! Token_ID to = Some (next o) ∧
    heap o' !! next o = Some (ProcessProtocolMsg (bind (set_registered
      (newTreeNodeInstance to pos.1 (head pos.2) io)
      (reg_channels reg) (reg_handlers reg) (reg_flags reg))) m).
Proof.
  intros Hm Hl Hid Hto Ht Hi Hp Hc Hloc Hcfg Hs Hreg.
  destruct (TransmitMsg_creates m io to t pos si c reg (set_pendingMsgLock o true))
    as (o' & HT & Ht' & Hm' & _ & Hs' & Hc' & Hp' & Hi' & Hh'); [done..|].
  assert (sforM (keep_pending C t) [] [(m, io)] (set_pendingMsgLock o true) = (Ret [], o')) as Hloop.
  { cbn [sforM]. erewrite sbind_ret; [done|]. unfold keep_pending. cbn [fst snd].
    erewrite sbind_ret; [|unfold slift; by rewrite Hto]. cbn beta. unfold uuid_Equal.
    rewrite bool_decide_true by done. erewrite sbind_ret; [|unfold logged; by rewrite HT]. done. }
  unfold check_pending. erewrite sbind_ret; [|unfold lock_pendingMsg; by rewrite Hl].
  erewrite sbind_ret; [|done]. cbn [pendingMsg set_pendingMsgLock]. rewrite Hm.
  erewrite sbind_ret; [|exact Hloop]. eexists. split; [done|]. cbn. done.
Qed.

(** Sending with a configuration that the receiver did not get yet. *)
Lemma SendTo_with_config p n to si m buf c o :
  heap o !! p = Some n → protoIO n = defaultProtoIO → config n = Some c → Trees.tn_ID to ∉ sentTo n →
  Trees.tn_ServerIdentity to = Some si → Marshal m = Ret buf →
  let tokenTo := ChangeTreeNodeID (token n) (Trees.tn_ID to) in
  SendTo p (Some to) (Some m) o =
    (Ret tt, set_sent (set_sent
      (set_heap o (<[p := set_config n (Some c) ({[Trees.tn_ID to]} ∪ sentTo n)]> (heap o)))
      (sent o ++ [(si, PConfig {| cm_Config := c; cm_Dest := Token_ID tokenTo |})]))
      ((sent o ++ [(si, PConfig {| cm_Config := c; cm_Dest := Token_ID tokenTo |})]) ++
       [(si, PProtocol {| pm_From := Some (token n); pm_To := Some tokenTo; pm_ServerIdentity := None;
                          pm_MsgType := MessageType m; pm_Msg := None; pm_MsgSlice := buf |})])).
Proof.
  intros Hn Hio Hc Hto Hsi Hm tokenTo. unfold SendTo, take_config. osteps. rewrite Hn. cbn.
  rewrite decide_False by done. rewrite Hc. cbn. unfold SendToTreeNode. rewrite Hsi. osteps.
  rewrite Hnet. cbn. rewrite Hio. cbn. rewrite Hm. cbn. rewrite Hnet. done.
Qed.

Lemma receive_one from p o o' :
  Process C nil_point {| env_ServerIdentity := from; env_Msg := p |} o = (Ret tt, o') →
  receive from [(self o, p)] o = (Ret tt, o').
Proof.
  intros H. unfold receive. erewrite sbind_ret; [|done]. cbn [sforM fst snd]. unfold uuid_Equal.
  rewrite bool_decide_true by done. by erewrite sbind_ret.
Qed.

Lemma receive_two from p1 p2 o o1 o2 :
  Process C nil_point {| env_ServerIdentity := from; env_Msg := p1 |} o = (Ret tt, o1) →
  Process C nil_point {| env_ServerIdentity := from; env_Msg := p2 |} o1 = (Ret tt, o2) →
  receive from [(self o, p1); (self o, p2)] o = (Ret tt, o2).
Proof.
  intros H1 H2. unfold receive. erewrite sbind_ret; [|done]. cbn [sforM fst snd]. unfold uuid_Equal.
  rewrite bool_decide_true by done. erewrite sbind_ret; [|exact H1]. by erewrite sbind_ret.
Qed.

Lemma new_packets_app o o' l : sent o' = sent o ++ l → new_packets o o' = l.
Proof. intros E. unfold new_packets. by rewrite E, drop_app_length. Qed.

(** C16: an instance sends its first message, with its configuration, to the
    server of another node of a generated tree; that server has just started and
    knows neither the tree nor the roster.  It asks the sender for the tree, then
    for the roster, rebuilds the tree, makes an instance through the service of
    the token with the configuration that was sent, and queues the message for
    it, sender and receiver as they were sent; nothing is left waiting. *)
Theorem first_message_delivered {SL : SuiteLaws S} {ML : MsgLaws L}
    el N u t u' a0 p n to pos m buf c (si : option bytes → Constructor) reg sB :
  1 <= N → Rosters.List el ≠ [] → Rosters.distinct el → Trees.GenerateNaryTree el N u = Ret (t, u') →
  Trees.t_ID t ≠ uuid_Nil → Rosters.ID el ≠ uuid_Nil →
  protos a0 = [] → trees a0 !! Trees.t_ID t = Some t → entityLists a0 !! Rosters.ID el = Some el →
  heap a0 !! p = Some n → protoIO n = defaultProtoIO → config n = Some c →
  Trees.tn_ID to ∉ sentTo n → tok_TreeID (token n) = Trees.t_ID t →
  Trees.tn_ServerIdentity to = Some sB → locate t (Trees.tn_ID to) = Ret (Some pos) →
  Marshal m = Ret buf → services C !! tok_ServiceID (token n) = Some si →
  let toToken := ChangeTreeNodeID (token n) (Trees.tn_ID to) in
  let fresh := newTreeNodeInstance toToken pos.1 (head pos.2) defaultProtoIO in
  si (Some c) fresh = Ret (Some reg) →
  let sA := self a0 in let b0 := NewOverlay sB [] in
  ∃ a1 b1 a2 b2 a3 b3 b4,
    SendTo p (Some to) (Some m) a0 = (Ret tt, a1) ∧
    receive sA (new_packets a0 a1) b0 = (Ret tt, b1) ∧
    receive sB (new_packets b0 b1) a1 = (Ret tt, a2) ∧
    receive sA (new_packets a1 a2) b1 = (Ret tt, b2) ∧
    receive sB (new_packets b1 b2) a2 = (Ret tt, a3) ∧
    receive sA (new_packets a2 a3) b2 = (Ret tt, b3) ∧
    run_task C 0 b3 = (Ret tt, b4) ∧
    trees b4 !! Trees.t_ID t = Some t ∧ pendingMsg b4 = [] ∧ pendingConfigs b4 = ∅ ∧
    protocolInstances b4 !! Token_ID toToken = Some 0%nat ∧
    heap b4 !! 0%nat = Some (ProcessProtocolMsg
      (bind (set_registered fresh (reg_channels reg) (reg_handlers reg) (reg_flags reg)))
      {| pm_From := Some (token n); pm_To := Some toToken; pm_ServerIdentity := Some sA;
         pm_MsgType := MessageType m; pm_Msg := Some m; pm_MsgSlice := [] |}).
Proof.
  intros HN Hne Hdist Hgen Htid Helid Hpr Htree Hroster Hn Hio Hc Hto Htok Hsi Hloc Hm Hs toToken fresh
    Hreg sA b0.
  destruct (Trees.marshal_make el N u HN Hne Hdist) as (t' & tm & u2 & Hgen' & Htm & Hmk & Hrid).
  rewrite Hgen in Hgen'. injection Hgen' as <- <-.
  pose proof (Trees.MakeTree_ID _ _ _ Hmk) as Htmid.
  pose proof (SendTo_with_config p n to sB m buf c a0 Hn Hio Hc Hto Hsi Hm) as E1.
  cbn zeta in E1. fold toToken in E1.
  match type of E1 with _ = (_, ?x) => set (a1 := x) in E1 end.
  set (wire := {| pm_From := Some (token n); pm_To := Some toToken; pm_ServerIdentity := None;
                  pm_MsgType := MessageType m; pm_Msg := None; pm_MsgSlice := buf |}) in *.
  assert (new_packets a0 a1 =
    [(sB, PConfig {| cm_Config := c; cm_Dest := Token_ID toToken |}); (sB, PProtocol wire)]) as N1.
  { apply new_packets_app. cbn. by rewrite <-app_assoc. }
  epose proof (Process_protocol_unknown sA wire m toToken
    (set_pendingConfigs b0 (<[Token_ID toToken := c]> ∅))
    eq_refl (marshal_roundtrip m buf Hm) eq_refl eq_refl eq_refl) as E2.
  match type of E2 with _ = (_, ?x) => set (b1 := x) in E2 end.
  assert (new_packets b0 b1 = [(sA, PRequestTree (Trees.t_ID t))]) as N2.
  { rewrite <-Htok. by apply new_packets_app. }
  epose proof (Process_request_tree sB t tm a1 Hpr Htree Htm) as E3.
  match type of E3 with _ = (_, ?x) => set (a2 := x) in E3 end.
  assert (new_packets a1 a2 = [(sB, PTreeMarshal tm)]) as N3 by by apply new_packets_app.
  epose proof (Process_tree sA tm b1 eq_refl eq_refl) as E4.
  specialize (E4 ltac:(by rewrite <-Htmid) eq_refl).
  match type of E4 with _ = (_, ?x) => set (b2 := x) in E4 end.
  assert (new_packets b1 b2 = [(sA, PRequestRoster (Rosters.ID el))]) as N4.
  { rewrite <-Hrid. by apply new_packets_app. }
  epose proof (Process_request_roster sB el a2 Hpr Hroster) as E5.
  match type of E5 with _ = (_, ?x) => set (a3 := x) in E5 end.
  assert (new_packets a2 a3 = [(sB, PRoster el)]) as N5 by by apply new_packets_app.
  destruct (Process_roster_builds sA el tm t b2) as (b3 & E6 & Ht3 & Hs3 & Hb3); [done..| |done|done|].
  { cbn. rewrite Hrid. apply lookup_insert_eq. }
  set (o3 := set_spawned b3 (delete 0%nat (spawned b3))).
  assert (trees o3 !! tok_TreeID toToken = Some t) as Ht.
  { change (trees b3 !! tok_TreeID (token n) = Some t). rewrite Ht3, Htok. apply lookup_insert_eq. }
  destruct (check_pending_delivers _ defaultProtoIO toToken t pos si (Some c) reg o3
    ltac:(cbn; rewrite Hb3; done) ltac:(cbn; by rewrite Hb3) Htok eq_refl Ht
    ltac:(cbn; by rewrite Hb3) ltac:(cbn; by rewrite Hb3) ltac:(cbn; by rewrite Hb3) Hloc
    ltac:(cbn; rewrite Hb3; apply lookup_insert_eq) Hs Hreg)
    as (b4 & E7 & Ht4 & Hm4 & _ & _ & Hc4 & Hp4 & _ & Hh4).
  assert (next o3 = 0%nat) as Hnext by (cbn; by rewrite Hb3). rewrite Hnext in *.
  exists a1, b1, a2, b2, a3, b3, b4. rewrite N1, N2, N3, N4, N5.
  split; [exact E1|]. split; [by eapply receive_two; [apply Process_config|]|].
  split; [by apply (receive_one sB _ a1)|]. split; [by apply (receive_one sA _ b1)|].
  split; [by apply (receive_one sB _ a2)|]. split; [by apply (receive_one sA _ b2)|].
  split.
  { unfold run_task. erewrite sbind_ret; [|done].
    assert (spawned b3 !! 0%nat = Some (TCheckPending t)) as -> by by rewrite Hs3. exact E7. }
  split; [by rewrite Ht4, <-Htok|]. split; [done|]. split; [|done].
  rewrite Hc4. cbn. rewrite Hb3. cbn. rewrite delete_insert_eq. apply delete_empty.
Qed.

(** ** Waiting messages are handed over *)

(** The constructors of the protocols return. *)
Definition constructors_return : Prop :=
  (∀ name (fn : Constructor) n, (name, fn) ∈ protocols C → returns (fn n)) ∧
  (∀ id (si : option bytes → Constructor) c n, services C !! id = Some si → returns (si c n)).

Lemma instantiator_elem (ps : list (bytes * Constructor)) name fn :
  instantiator ps name = Some fn → (name, fn) ∈ ps.
Proof.
  induction ps as [|[n p] ps IH]; cbn; [done|]. rewrite elem_of_cons.
  case_decide as E; [intros [= ->]; left; by rewrite E|auto].
Qed.

(** What a constructor leaves of an instance. *)
Definition constructed (p : nat) (n : TreeNodeInstance) (o : Overlay) (r : outcome error (option nat) * Overlay) : Prop :=
  (∃ e, r = (Err e, o)) ∨ r = (Ret None, o) ∨
  ∃ n', r = (Ret (Some p), set_heap o (<[p := n']> (heap o))) ∧ token n' = token n ∧ instance n' = instance n.

Lemma construct_returns p n (fn : Constructor) o :
  heap o !! p = Some n → returns (fn n) → constructed p n o (construct p fn o).
Proof.
  intros Hn Hr. unfold construct. erewrite sbind_ret; [|unfold get_instance; osteps; by rewrite Hn].
  unfold sbind at 1, slift. destruct (fn n) as [[reg|]|e| |]; try done.
  - right; right. eexists. split; [reflexivity|done].
  - right; left. done.
  - left. by eexists.
Qed.

Lemma newProtocol_returns p n c o :
  constructors_return → heap o !! p = Some n → constructed p n o (newProtocol C p c o).
Proof.
  intros [Hp Hs] Hn. unfold newProtocol.
  erewrite sbind_ret; [|unfold get_instance; osteps; by rewrite Hn]. cbn beta zeta.
  assert (constructed p n o (protocolInstantiate C (tok_ProtoID (token n)) p o)) as Hd.
  { unfold protocolInstantiate. destruct (instantiator _ _) as [fn|] eqn:E; [|left; by eexists].
    apply construct_returns; [done|]. eapply Hp. by apply instantiator_elem. }
  destruct (services C !! _) as [si|] eqn:E; [|done].
  destruct (construct_returns p n (si c) o Hn (Hs _ _ c n E)) as [[e H]|[H|(n' & H & Ht & Hi)]];
    unfold sbind at 1; rewrite H; [left; by eexists|done|right; right; by exists n'].
Qed.

(** Creating an instance leaves the trees, the waiting messages and the locks. *)
Definition same_waiting (o o' : Overlay) : Prop :=
  trees o' = trees o ∧ pendingMsg o' = pendingMsg o ∧ pendingMsgLock o' = pendingMsgLock o.
#[local] Instance same_waiting_preorder : PreOrder same_waiting.
Proof. split; [by intros o|]. intros o1 o2 o3 (?&?&?) (?&?&?). repeat split; congruence. Qed.
Lemma same_waiting_inst : closed_inst same_waiting.
Proof. split; done. Qed.

Lemma TreeNodeFromToken_returns to t o :
  trees o !! tok_TreeID to = Some t → is_Some (Trees.t_Root t) →
  returns (TreeNodeFromToken (Some to) o).1.
Proof.
  intros Ht [root Hr]. unfold TreeNodeFromToken. erewrite sbind_ret; [|done].
  destruct (GetFromToken _ _); [done|]. unfold Tree. rewrite Ht. unfold locate. rewrite Hr. cbn.
  unfold sbind, slift. by destruct (foldl _ _ _).
Qed.

(** An error, no protocol, or an instance. *)
Definition created (r : outcome error (option nat) * Overlay) : Prop :=
  (∃ e o', r = (Err e, o')) ∨ (∃ o', r = (Ret None, o')) ∨
  ∃ p o', r = (Ret (Some p), o') ∧ is_Some (heap o' !! p).

Lemma create_instance_returns to io t o :
  constructors_return → trees o !! tok_TreeID to = Some t → is_Some (Trees.t_Root t) →
  created (create_instance C to io o).
Proof.
  intros HC Ht Hr. unfold create_instance, map_error at 1, sbind at 1.
  pose proof (TreeNodeFromToken_returns to t o Ht Hr) as H1.
  destruct (TreeNodeFromToken (Some to) o) as [[pos|e| |] o1]; cbn in H1; [|left; by eexists _, _|done..].
  clear H1. cbn [omap_err]. erewrite sbind_ret; [|apply newTreeNodeInstance_ok].
  erewrite sbind_ret; [|apply getConfig_ok].
  match goal with |- context [sbind (newProtocol C ?p ?c) _ ?o2] =>
    destruct (newProtocol_returns p (newTreeNodeInstance to pos.1 (head pos.2) io) c o2)
      as [[e H]|[H|(n' & H & Htok & Hi)]]; [done|apply lookup_insert_eq|..]; unfold sbind at 1; rewrite H end.
  - left. eexists _, _. done.
  - right; left. eexists. done.
  - erewrite sbind_ret; [|done]. unfold map_error, sbind at 1.
    erewrite RegisterProtocolInstance_ok;
      [|apply lookup_insert_eq|cbn; rewrite Htok; apply lookup_insert_eq|by rewrite Hi].
    right; right. eexists _, _. split; [done|]. cbn. rewrite lookup_insert_eq. by eexists.
Qed.

Lemma TransmitMsg_returns m to io t o :
  constructors_return → wf o → pm_To m = Some to → trees o !! tok_TreeID to = Some t →
  is_Some (Trees.t_Root t) →
  returns (TransmitMsg C m io o).1 ∧ same_waiting o (TransmitMsg C m io o).2.
Proof.
  intros HC Hw Hm Ht Hr. unfold TransmitMsg. rewrite Hm.
  erewrite sbind_ret; [|done]. erewrite sbind_ret; [|done]. unfold Tree. rewrite Ht. cbn zeta.
  destruct (default false (instancesInfo o !! Token_ID to)); [done|].
  destruct (protocolInstances o !! Token_ID to) as [p|] eqn:Ep.
  - destruct (wf_protocols o Hw _ _ Ep) as (n & Hn & _).
    erewrite sbind_ret; [|done]. cbn beta match.
    erewrite sbind_ret; [|unfold get_instance; osteps; by rewrite Hn]. done.
  - pose proof (keeps_create_instance C same_waiting same_waiting_inst to io o) as Hk.
    unfold sbind at 1 3.
    destruct (create_instance_returns to io t o HC Ht Hr) as [(e & o' & E)|[(o' & E)|(p & o' & E & n & Hn)]];
      rewrite E in *; cbn in Hk; [done..|].
    erewrite sbind_ret; [|unfold get_instance; osteps; by rewrite Hn]. done.
Qed.

Lemma keep_pending_mine t acc m io to o r o' :
  pm_To m = Some to → Trees.t_ID t = tok_TreeID to → TransmitMsg C m io o = (r, o') → returns r →
  keep_pending C t acc (m, io) o = (Ret acc, o').
Proof.
  intros Hto E HT Hr. unfold keep_pending. cbn [fst snd]. rewrite Hto. erewrite sbind_ret; [|done].
  cbn beta. unfold uuid_Equal. rewrite bool_decide_true by done.
  unfold sbind, logged. rewrite HT. by destruct r.
Qed.
Lemma keep_pending_other t acc m io to o :
  pm_To m = Some to → Trees.t_ID t ≠ tok_TreeID to →
  keep_pending C t acc (m, io) o = (Ret (acc ++ [(m, io)]), o).
Proof.
  intros Hto E. unfold keep_pending. cbn [fst snd]. rewrite Hto. erewrite sbind_ret; [|done].
  cbn beta. unfold uuid_Equal. by rewrite bool_decide_false.
Qed.

(** The goroutine that hands over the messages waiting for a tree ends: while
    it holds the lock of the waiting messages it never runs into the method that
    takes this lock.  Every message for the tree has been handed over (or
    dropped, when its instance could not be made), the others still wait, in
    order, and the lock is free. *)
Theorem check_pending_returns o t t' :
  constructors_return → wf o → pendingMsgLock o = false →
  trees o !! Trees.t_ID t = Some t' → is_Some (Trees.t_Root t') →
  ∃ o', check_pending C t o = (Ret tt, o') ∧ pendingMsgLock o' = false ∧
    pendingMsg o' = filter (λ p, tok_TreeID <$> pm_To p.1 ≠ Some (Trees.t_ID t)) (pendingMsg o).
Proof.
  intros HC Hw Hl Ht Hr.
  assert (∀ msgs acc o1, wf o1 → Forall (λ p, is_Some (pm_To p.1)) msgs →
    trees o1 !! Trees.t_ID t = Some t' →
    ∃ o2, sforM (keep_pending C t) acc msgs o1 =
      (Ret (acc ++ filter (λ p, tok_TreeID <$> pm_To p.1 ≠ Some (Trees.t_ID t)) msgs), o2)) as Hloop.
  { induction msgs as [|[m io] msgs IH]; intros acc o1 Hw1 Hm Ht1.
    { exists o1. cbn. by rewrite app_nil_r. }
    apply Forall_cons in Hm as [[to Hto] Hm]. cbn [fst] in Hto. cbn [sforM].
    rewrite filter_cons. cbn [fst]. rewrite Hto. cbn [fmap option_fmap option_map].
    destruct (decide (Trees.t_ID t = tok_TreeID to)) as [E|E].
    - rewrite decide_False by (rewrite E; tauto).
      rewrite E in Ht1. pose proof (TransmitMsg_returns m to io t' o1 HC Hw1 Hto Ht1 Hr) as [Hret Hsame].
      pose proof (keeps_TransmitMsg C keeps_wf (keeps_wf_closed C) m io o1 Hw1) as Hw2.
      destruct (TransmitMsg C m io o1) as [r o2] eqn:ET. cbn in Hret, Hsame, Hw2.
      erewrite sbind_ret; [|by eapply keep_pending_mine].
      apply IH; [done|done|]. destruct Hsame as (-> & _). by rewrite E.
    - rewrite decide_True by congruence.
      erewrite sbind_ret; [|by eapply keep_pending_other].
      destruct (IH (acc ++ [(m, io)]) o1 Hw1 Hm Ht1) as [o2 ->]. exists o2. by rewrite <-app_assoc. }
  destruct (Hloop (pendingMsg o) [] (set_pendingMsgLock o true)) as [o2 H2].
  { by apply (wf_same o). }
  { apply Hw. }
  { done. }
  unfold check_pending. erewrite sbind_ret; [|unfold lock_pendingMsg; by rewrite Hl].
  erewrite sbind_ret; [|done]. erewrite sbind_ret; [|exact H2]. eexists. split; [done|]. done.
Qed.
End run.
End OverlayRun.

(** ** Witnesses *)
Module OverlayRunExample.
Import ZSuite TreeExample ProtocolExample InstanceExample OverlayExample OverlayRun.

Lemma toy_delivers : network_delivers.
Proof. done. Qed.
Lemma toy_types : types_differ.
Proof. apply (bool_decide_unpack _). vm_compute. exact I. Qed.
Lemma toy_return : constructors_return toy_constructors.
Proof.
  split.
  - intros name fn n H. by apply elem_of_nil in H.
  - intros id si c n Hi. cbn [services toy_constructors] in Hi.
    by apply lookup_singleton_Some in Hi as [_ <-].
Qed.

Definition the_tree : Trees.Tree :=
  match Trees.GenerateNaryTree roster5 2 1 with
  | Ret (t, _) => t | _ => Trees.MkTree [] None None end.
Definition root_node : Trees.TreeNode := default (leaf 0) (Trees.t_Root the_tree).
Definition child_node : Trees.TreeNode := default (leaf 0) (head (Trees.tn_Children root_node)).
Definition root_token : Token :=
  {| tok_RosterID := Rosters.ID roster5; tok_TreeID := Trees.t_ID the_tree; tok_ProtoID := [x03];
     tok_ServiceID := [x04]; tok_RoundID := [x05]; tok_TreeNodeID := Trees.tn_ID root_node |}.
Definition root_instance : TreeNodeInstance :=
  set_config (newTreeNodeInstance root_token root_node None defaultProtoIO) (Some [x2a]) ∅.
Definition sender : Overlay :=
  set_heap (set_entityLists (set_trees (NewOverlay (server 3) []) {[ Trees.t_ID the_tree := the_tree ]})
              {[ Rosters.ID roster5 := roster5 ]}) {[ 0%nat := root_instance ]}.

Lemma first_message_delivered_witness :
  ∃ b4 n, heap b4 !! 0%nat = Some n ∧ trees b4 !! Trees.t_ID the_tree = Some the_tree ∧
    pendingMsg b4 = [] ∧ pm_Msg <$> msgDispatchQueue n = [Some [x0a; x01]] ∧ wakeup n = true.
Proof.
  destruct (first_message_delivered toy_constructors 0 toy_delivers toy_types roster5 2 1 the_tree 6
    sender 0 root_instance child_node (child_node, [root_node]) [x0a; x01] [x0a; x01] [x2a]
    (λ _ _, Ret (Some no_registration)) no_registration (server 5))
    as (a1 & b1 & a2 & b2 & a3 & b3 & b4 & _ & _ & _ & _ & _ & _ & _ & Ht & Hm & _ & _ & Hh).
  - lia.
  - discriminate.
  - unfold Rosters.distinct. apply (bool_decide_unpack _). vm_compute. exact I.
  - by_vm.
  - apply (bool_decide_unpack _). vm_compute. exact I.
  - apply (bool_decide_unpack _). vm_compute. exact I.
  - done.
  - apply lookup_insert_eq.
  - apply lookup_insert_eq.
  - done.
  - done.
  - done.
  - apply not_elem_of_empty.
  - done.
  - by_vm.
  - by_vm.
  - done.
  - apply lookup_insert_eq.
  - done.
  - eexists b4, _. split; [exact Hh|]. split; [exact Ht|]. split; [exact Hm|]. done.
Defined.

Definition waiting : Overlay :=
  set_pendingMsg with_tree
    [(from_child 2 [x0a], defaultProtoIO);
     ({| pm_From := None; pm_To := Some (ChangeTreeNodeID root_token []); pm_ServerIdentity := None;
         pm_MsgType := []; pm_Msg := None; pm_MsgSlice := [] |}, defaultProtoIO)].

Lemma check_pending_returns_witness :
  ∃ o, check_pending toy_constructors tree waiting = (Ret tt, o) ∧ length (pendingMsg o) = 1%nat.
Proof.
  destruct (check_pending_returns toy_constructors waiting tree tree) as (o & H & _ & Hp).
  - apply toy_return.
  - split; cbn; try done.
    + intros id t Hi. by apply lookup_singleton_Some in Hi as [<- <-].
    + repeat constructor; by eexists.
  - done.
  - apply lookup_insert_eq.
  - by eexists.
  - exists o. split; [exact H|]. rewrite Hp. by_vm.
Defined.
End OverlayRunExample.
