(* ===== verification/NetEncoding.v ===== *)
(** * Network messages ([imported/onet/network/encoding.go], [dispatch.go])

    [Encoding] is the registry of message types and the encoding of a message
    with the identifier of its type, over the protobuf library ([Protobuf]).
    [Dispatch] is the table from message types to processors. *)
From S2P Require Import Prelude Suite Tree Wire Protobuf ProtobufScalars ProtobufRoundtrip ProtobufTotal ProtobufExample.
Local Open Scope Z_scope.

(** UUIDs have 16 bytes. *)
Class UuidLaws (U : UuidLib) := {
  NewV4_length u : length (NewV4 u) = 16%nat;
  NewV5_length ns s : length (NewV5 ns s) = 16%nat;
}.

Module Encoding.
Section encoding.
Context {U : UuidLib} {M : Methods} (gens : gmap bytes (gtype * gvalue)).
(** [reflect.Type.String]. *)
Context (type_string : gtype → bytes).

(** A message is an interface: a value with its type; [None] is nil. *)
Abbreviation Message := (option (gtype * gvalue)).

(** [typeRegistry]. *)
Abbreviation typeRegistry := (gmap UUID gtype).
Definition newTypeRegistry : typeRegistry := ∅.
Definition get (tr : typeRegistry) (mid : UUID) : option gtype := tr !! mid.
Definition put (tr : typeRegistry) (mid : UUID) (typ : gtype) : typeRegistry := <[mid := typ]> tr.

Definition ErrorType : UUID := uuid_Nil.
Definition NamespaceBodyType : bytes := NamespaceURL ++ String.list_byte_of_string "/protocolType/".

Definition type_id (t : gtype) : UUID :=
  NewV5 NamespaceURL_uuid (NamespaceBodyType ++ type_string t).

(** The type of a message, without the pointer. *)
Definition message_type (msg : Message) : outcome error gtype :=
  match msg with
  | None => Panic "reflect: call of reflect.Value.Type on zero Value"
  | Some (t, v) =>
      if decide (kind t = Ptr) then
        match v with
        | VPtr _ => Ret (Elem t)
        | _ => Panic "reflect: call of reflect.Value.Type on zero Value"
        end
      else Ret t
  end.

Definition computeMessageType (msg : Message) : outcome error UUID :=
  let! t := message_type msg in Ret (type_id t).

Definition RegisterMessage (tr : typeRegistry) (msg : Message) : outcome error (UUID * typeRegistry) :=
  let! msgType := computeMessageType msg in
  let! t := message_type msg in
  Ret (msgType, put tr msgType t).

Definition RegisterMessages (tr : typeRegistry) (msgs : list Message)
    : outcome error (list UUID * typeRegistry) :=
  ofoldM (λ '(ret, tr) m, let! (id, tr) := RegisterMessage tr m in Ret (ret ++ [id], tr)) ([], tr) msgs.

Definition MessageType (tr : typeRegistry) (msg : Message) : outcome error UUID :=
  let! msgType := computeMessageType msg in
  Ret (match get tr msgType with Some _ => msgType | None => ErrorType end).

(** [Marshal]: the identifier of the type, then the encoding. *)
Definition Marshal (fuel : nat) (tr : typeRegistry) (msg : Message) : outcome error bytes :=
  let! msgType := MessageType tr msg in
  if uuid_Equal msgType ErrorType then Err "type of message not registered to the network library"
  else
    let! buf := Encoder.Encode gens fuel msg in
    Ret (msgType ++ buf).

(** [Unmarshal], with the constructors of the suite: a pointer to the message. *)
Definition Unmarshal (fuel : nat) (tr : typeRegistry) (constructors : gmap string (gtype * gvalue))
    (buf : bytes) : outcome error (UUID * (gtype * gvalue)) :=
  if (length buf =? 0)%nat then Err "EOF"
  else if (length buf <? 16)%nat then Err "unexpected EOF"
  else
    let tID := take 16 buf in
    match get tr tID with
    | None => Err "type not registered"
    | Some typ =>
        let! v := Decoder.DecodeWithConstructors (Decoder.putvalue gens fuel) constructors (drop 16 buf)
                    (Some (TPtr typ, VPtr (zero typ))) in
        Ret (tID, (TPtr typ, v))
    end.

(** [DefaultConstructors]: of points and of scalars. *)
Definition DefaultConstructors (point scalar : gtype * gvalue) : gmap string (gtype * gvalue) :=
  {[ "abstract.Point"%string := point; "abstract.Scalar"%string := scalar ]}.

Lemma RegisterMessage_get tr t v :
  ∃ tr', RegisterMessage tr (Some (TPtr t, VPtr v)) = Ret (type_id t, tr') ∧
    get tr' (type_id t) = Some t.
Proof. eexists. split; [done|]. apply lookup_insert_eq. Qed.

Lemma MessageType_ptr tr t v :
  MessageType tr (Some (TPtr t, VPtr v)) =
  Ret (match get tr (type_id t) with Some _ => type_id t | None => ErrorType end).
Proof. done. Qed.

(** Both directions of a registered struct. *)
Lemma marshal_unmarshal_registered {UL : UuidLaws U} tr t v :
  get tr (type_id t) = Some t → type_id t ≠ ErrorType →
  kind t = Struct → t ≠ TTime → UnmarshalBinary (TPtr t) = None → wf gens true true t v →
  ∃ b, yields (λ f, Marshal f tr (Some (TPtr t, VPtr v))) (Ret b) ∧ take 16 b = type_id t ∧
    (Z.of_nat (length b) < 2 ^ 64 → ∀ constructors,
     yields (λ f, Unmarshal f tr constructors b) (Ret (type_id t, (TPtr t, VPtr (norm t v))))).
Proof.
  intros Hreg Hid Hk Htime Hum Hwf.
  destruct (decode_encode_with gens t v Hk Htime Hum Hwf) as (b & He & Hd).
  assert (take 16 (type_id t ++ b) = type_id t) as Ht.
  { rewrite <-(NewV5_length NamespaceURL_uuid (NamespaceBodyType ++ type_string t)).
    apply take_app_length. }
  assert (drop 16 (type_id t ++ b) = b) as Hdr.
  { rewrite <-(NewV5_length NamespaceURL_uuid (NamespaceBodyType ++ type_string t)).
    apply drop_app_length. }
  exists (type_id t ++ b). split; [|split; [exact Ht|]].
  - unfold Marshal. rewrite MessageType_ptr, Hreg. cbn [obind]. unfold uuid_Equal.
    rewrite bool_decide_false by done. eapply yields_bind; [exact He|]. apply yields_const.
  - intros Hl nm. rewrite length_app in Hl. unfold Unmarshal.
    assert (length (type_id t ++ b) = (16 + length b)%nat) as Hlen.
    { rewrite length_app. unfold type_id. by rewrite NewV5_length. }
    rewrite Hlen. cbn [Nat.eqb]. rewrite (proj2 (Nat.ltb_ge _ _)) by lia. cbn zeta.
    rewrite Ht, Hdr, Hreg. eapply yields_bind; [apply Hd; lia|]. apply yields_const.
Qed.

(** A registered struct goes over the network: [Marshal] ends with the 16
    bytes of the identifier of its type and its encoding, and [Unmarshal] of
    these bytes, with any constructors, ends with a pointer to the normal form
    of the struct and the same identifier.  A message of a type that is not
    registered, and bytes that name no registered type, are refused. *)
Theorem marshal_unmarshal {UL : UuidLaws U} tr t v :
  get tr (type_id t) = Some t → type_id t ≠ ErrorType →
  kind t = Struct → t ≠ TTime → UnmarshalBinary (TPtr t) = None → wf gens true true t v →
  (∃ b, yields (λ f, Marshal f tr (Some (TPtr t, VPtr v))) (Ret b) ∧ take 16 b = type_id t ∧
    (Z.of_nat (length b) < 2 ^ 64 → ∀ constructors,
     yields (λ f, Unmarshal f tr constructors b) (Ret (type_id t, (TPtr t, VPtr (norm t v)))))) ∧
  (∀ t' f, get tr (type_id t') = None →
     Marshal f tr (Some (TPtr t', VPtr v)) = Err "type of message not registered to the network library") ∧
  (∀ b f constructors, (16 <= length b)%nat → get tr (take 16 b) = None →
     Unmarshal f tr constructors b = Err "type not registered").
Proof.
  intros Hreg Hid Hk Htime Hum Hwf. split; [by apply marshal_unmarshal_registered|]. split.
  - intros t' f Hn. unfold Marshal. rewrite MessageType_ptr, Hn. cbn [obind]. unfold uuid_Equal.
    by rewrite bool_decide_true.
  - intros b f nm Hl Hn. unfold Unmarshal. rewrite (proj2 (Nat.eqb_neq _ _)) by lia.
    rewrite (proj2 (Nat.ltb_ge _ _)) by lia. cbn zeta. by rewrite Hn.
Qed.

(** [Unmarshal] of any bytes ends with a message or an error. *)
Theorem unmarshal_total tr nm buf :
  (∀ t unmarshal b v, UnmarshalBinary t = Some unmarshal → unmarshal b v ≠ OutOfFuel) →
  ∃ r, returns r ∧ yields (λ f, Unmarshal f tr nm buf) r.
Proof.
  intros Huser. unfold Unmarshal. destruct (_ =? _)%nat; [by eexists (Err _); split; [|apply yields_const]|].
  destruct (_ <? _)%nat; [by eexists (Err _); split; [|apply yields_const]|]. cbn zeta.
  destruct (get tr _) as [typ|]; [|by eexists (Err _); split; [|apply yields_const]].
  destruct (decode_with_total gens Huser nm (drop 16 buf) (Some (TPtr typ, VPtr (zero typ))))
    as (r & Hr & [f0 Hf]).
  exists (let! v := r in Ret (take 16 buf, (TPtr typ, v))). split; [by destruct r|].
  exists f0. intros f Hle. by rewrite Hf.
Qed.
End encoding.
End Encoding.

(** ** [BlockingDispatcher] and [RoutineDispatcher] *)
Module Dispatch.
Section dispatch.
Context {Processor Env St : Type} (msg_type : Env → UUID).
(** [Process] of a processor. *)
Context (Process : Processor → Env → SM St error unit).

Abbreviation Dispatcher := (gmap UUID Processor).
Definition NewBlockingDispatcher : Dispatcher := ∅.

(** [RegisterProcessor]: the last processor of a type is used. *)
Definition RegisterProcessor (procs : Dispatcher) (p : Processor) (msgType : list UUID) : Dispatcher :=
  foldl (λ procs t, <[t := p]> procs) procs msgType.

(** [BlockingDispatcher.Dispatch]: processes under the lock of the dispatcher. *)
Definition BlockingDispatch (procs : Dispatcher) (packet : Env) : SM St error unit :=
  match procs !! msg_type packet with
  | None => sthrow "No Processor attached to this message type"
  | Some p => Process p packet
  end.

(** [RoutineDispatcher.Dispatch]: the processor to start with the packet. *)
Definition RoutineDispatch (procs : Dispatcher) (packet : Env) : outcome error Processor :=
  match procs !! msg_type packet with
  | None => Err "no Processor attached to this message type"
  | Some p => Ret p
  end.

Lemma RegisterProcessor_lookup procs p types t :
  RegisterProcessor procs p types !! t = if decide (t ∈ types) then Some p else procs !! t.
Proof using Processor.
  clear msg_type Process St Env.
  revert procs. induction types as [|t' types IH]; intros procs; [done|].
  change (RegisterProcessor (<[t' := p]> procs) p types !! t =
    if decide (t ∈ t' :: types) then Some p else procs !! t). rewrite IH.
  destruct (decide (t' = t)) as [<-|Hne].
  - rewrite (decide_True (P := t' ∈ t' :: types)) by set_solver.
    case_decide; [done|]. apply lookup_insert_eq.
  - rewrite lookup_insert_ne by done.
    destruct (decide (t ∈ types)); [rewrite decide_True by set_solver|rewrite decide_False by set_solver]; done.
Qed.
End dispatch.
End Dispatch.

(** ** Witness *)
Module NetExample.

Import ProtobufExample Encoding.

(** The last 16 bytes of the name. *)
Definition uuid16 : UuidLib := {|
  NewV4 u := repeat x00 16;
  NewV5 ns s := take 16 (reverse (ns ++ s) ++ repeat x00 16);
  NamespaceURL_uuid := [x10];
  uuid_string u := u;
|}.
Lemma uuid16_laws : UuidLaws uuid16.
Proof. constructor; [done|]. intros ns s. unfold NewV5, uuid16. rewrite length_take, length_app, repeat_length. lia. Qed.

Definition type_string (t : gtype) : bytes :=
  match t with TNamed name _ => String.list_byte_of_string name | _ => [] end.

Definition registry : gmap UUID gtype :=
  match RegisterMessage (U := uuid16) type_string ∅ (Some (TPtr TMessage, VPtr message)) with
  | Ret (_, tr) => tr
  | _ => ∅
  end.

Lemma marshal_unmarshal_witness :
  ∃ b, yields (λ f, Marshal (U := uuid16) ex_gens type_string f registry (Some (TPtr TMessage, VPtr message))) (Ret b) ∧
    (Z.of_nat (length b) < 2 ^ 64 →
     yields (λ f, Unmarshal ex_gens f registry ∅ b)
       (Ret (type_id (U := uuid16) type_string TMessage, (TPtr TMessage, VPtr message_back)))).
Proof.
  destruct (marshal_unmarshal (U := uuid16) (UL := uuid16_laws) ex_gens type_string registry TMessage message)
    as [(b & Hm & _ & Hu) _].
  - apply lookup_insert_eq.
  - apply (bool_decide_unpack _). vm_compute. exact I.
  - by_vm.
  - done.
  - by_vm.
  - exact message_wf.
  - exists b. split; [exact Hm|]. intros Hb. exact (Hu Hb ∅).
Defined.
End NetExample.
