(* ===== verification/TreeCodec.v ===== *)
(** * Trees in bytes ([imported/onet/tree.go])

    [Tree.Marshal], [NewTreeFromMarshal], [BinaryMarshaler] and
    [BinaryUnmarshaler]: a tree is copied into a [TreeMarshal], encoded by the
    protobuf library through the registry of messages, decoded and made again.
    What reflection sees of [TreeMarshal], a type that contains itself, is its
    unfolding to a depth. *)
From S2P Require Import Prelude Suite Tree Wire Protobuf ProtobufScalars ProtobufRoundtrip ProtobufTotal ProtobufExample NetEncoding.
Local Open Scope Z_scope.

(** Points as reflection sees them: the type behind the interface and its values. *)
Class PointReflect (S : Suite) := {
  point_type : gtype;
  point_value : Point → gvalue;
  of_point : gvalue → option Point;
}.
(** They are registered as interfaces that marshal themselves. *)
Class PointReflectLaws {S : Suite} {M : Methods} (gens : gmap bytes (gtype * gvalue)) (P : PointReflect S) := {
  of_point_value p : of_point (point_value p) = Some p;
  point_marshals p : marshals gens "abstract.Point" point_type (point_value p);
}.

(** The same for scalars. *)
Class ScalarReflect (S : Suite) := {
  scalar_type : gtype;
  scalar_value : Scalar → gvalue;
  of_scalar : gvalue → option Scalar;
}.
Class ScalarReflectLaws {S : Suite} {M : Methods} (gens : gmap bytes (gtype * gvalue)) (P : ScalarReflect S) := {
  of_scalar_value x : of_scalar (scalar_value x) = Some x;
  scalar_marshals x : marshals gens "abstract.Scalar" scalar_type (scalar_value x);
}.

Module TreeCodec.
Import Trees Encoding.

(** ** The types *)
Definition field (n : string) : StructField := {| Name := n; exported := true; Anonymous := false; Tag := "" |}.
Definition TId (n : string) : gtype := TNamed n (TArray 16 TUint8).

Fixpoint TTreeMarshal (d : nat) : gtype :=
  TNamed "onet.TreeMarshal" (TStruct
    [(field "TreeNodeID", TId "onet.TreeNodeID"); (field "TreeID", TId "onet.TreeID");
     (field "ServerIdentityID", TId "network.ServerIdentityID"); (field "RosterID", TId "onet.RosterID");
     (field "Children", TSlice (TPtr match d with O => TOther "onet.TreeMarshal" | Datatypes.S d => TTreeMarshal d end))]).
Definition TServerIdentity : gtype :=
  TNamed "network.ServerIdentity" (TStruct
    [(field "Public", TInterface "abstract.Point"); (field "ID", TId "network.ServerIdentityID");
     (field "Address", TNamed "network.Address" TString); (field "Description", TString)]).
Definition TRoster : gtype :=
  TNamed "onet.Roster" (TStruct
    [(field "ID", TId "onet.RosterID"); (field "List", TSlice (TPtr TServerIdentity)); (field "Aggregate", TInterface "abstract.Point")]).
Definition TTbm : gtype := TNamed "onet.tbmStruct" (TStruct [(field "T", TSlice TUint8); (field "EL", TPtr TRoster)]).

(** ** The values *)
Definition slice_value {A} (f : A → gvalue) (l : list A) : gvalue :=
  match l with [] => VNil | _ => VSeq (map (λ a, VPtr (f a)) l) end.
Fixpoint tm_value (tm : TreeMarshal) : gvalue :=
  match tm with
  | MkTreeMarshal n t s r cs => VStruct [VBytes n; VBytes t; VBytes s; VBytes r; slice_value tm_value cs]
  end.

Definition opt_map {A B} (f : A → option B) := fix go (l : list A) : option (list B) :=
  match l with
  | [] => Some []
  | a :: l => match f a, go l with Some b, Some bs => Some (b :: bs) | _, _ => None end
  end.
Definition of_slice {A} (f : gvalue → option A) (v : gvalue) : option (list A) :=
  match v with
  | VNil => Some []
  | VSeq l => opt_map (λ x, match x with VPtr x => f x | _ => None end) l
  | _ => None
  end.
Fixpoint tm_of (v : gvalue) : option TreeMarshal :=
  match v with
  | VStruct [VBytes n; VBytes t; VBytes s; VBytes r; cs] =>
      match of_slice tm_of cs with Some cs => Some (MkTreeMarshal n t s r cs) | None => None end
  | _ => None
  end.

Section codec.
Context {S : Suite} {U : UuidLib} {M : Methods} (gens : gmap bytes (gtype * gvalue)) {PR : PointReflect S}.

Definition point_iface (p : Point) : gvalue := VIface point_type (point_value p).
Definition of_iface (v : gvalue) : option Point := match v with VIface _ x => of_point x | _ => None end.
Definition si_value (si : ServerIdentity) : gvalue :=
  VStruct [point_iface (Network.Public si); VBytes (Network.ID si); VString (Network.Address si); VString (Network.Description si)].
Definition si_of (v : gvalue) : option ServerIdentity :=
  match v with
  | VStruct [p; VBytes i; VString a; VString d] =>
      match of_iface p with
      | Some p => Some {| Network.Public := p; Network.ID := i; Network.Address := a; Network.Description := d |}
      | None => None
      end
  | _ => None
  end.
Definition roster_value (el : Roster) : gvalue :=
  VStruct [VBytes (Rosters.ID el); slice_value si_value (Rosters.List el); point_iface (Rosters.Aggregate el)].
Definition roster_of (v : gvalue) : option Roster :=
  match v with
  | VStruct [VBytes i; l; a] =>
      match of_slice si_of l, of_iface a with
      | Some l, Some a => Some {| Rosters.ID := i; Rosters.List := l; Rosters.Aggregate := a |}
      | _, _ => None
      end
  | _ => None
  end.

(** [tbmStruct]. *)
Record tbmStruct := { T : bytes; EL : option Roster }.
Definition tbm_value (t : tbmStruct) : gvalue :=
  VStruct [VBytes (T t); match EL t with Some el => VPtr (roster_value el) | None => VNil end].
Definition tbm_of (v : gvalue) : option tbmStruct :=
  match v with
  | VStruct [VBytes t; VNil] => Some {| T := t; EL := None |}
  | VStruct [VBytes t; VPtr r] => match roster_of r with Some el => Some {| T := t; EL := Some el |} | None => None end
  | _ => None
  end.

(** ** The functions *)
Context (type_string : gtype → bytes) (constructors : gmap string (gtype * gvalue)) (tr : gmap UUID gtype).
(** The depth of the unfolding. *)
Context (d : nat).

Definition TreeMarshalTypeID : UUID := type_id type_string (TTreeMarshal d).

Definition Tree_Marshal (fuel : nat) (t : Tree) : outcome error bytes :=
  let! m := MakeTreeMarshal t in
  Encoding.Marshal gens type_string fuel tr (Some (TPtr (TTreeMarshal d), VPtr (tm_value m))).

(** A pointer to a struct of a type, as an assertion on the interface gives it. *)
Definition assert_ptr {A} (t : gtype) (conv : gvalue → option A) (m : gtype * gvalue) : option A :=
  if decide (m.1 = TPtr t) then match m.2 with VPtr v => conv v | _ => None end else None.

(** The aggregates are computed before the error is looked at. *)
Definition NewTreeFromMarshal (fuel : nat) (buf : bytes) (el : option Roster) : outcome error Tree :=
  let! (tp, pm) := Encoding.Unmarshal gens fuel tr constructors buf in
  if negb (uuid_Equal tp TreeMarshalTypeID) then Err "Didn't receive TreeMarshal-struct"
  else
    match assert_ptr (TTreeMarshal d) tm_of pm with
    | None => Panic "interface conversion"
    | Some tm =>
        let! el := deref el in
        match MakeTree tm el with
        | Err _ => Panic "nil dereference"
        | t =>
            let! t := t in
            let! root := deref (t_Root t) in
            let! (root, _) := computeSubtreeAggregate root in
            Ret {| t_ID := t_ID t; t_Roster := t_Roster t; t_Root := Some root |}
        end
    end.

Definition BinaryMarshaler (fuel : nat) (t : Tree) : outcome error bytes :=
  let! bt := Tree_Marshal fuel t in
  Encoding.Marshal gens type_string fuel tr (Some (TPtr TTbm, VPtr (tbm_value {| T := bt; EL := t_Roster t |}))).

(** [BinaryUnmarshaler]: the tree it stores. *)
Definition BinaryUnmarshaler (fuel : nat) (b : bytes) : outcome error Tree :=
  let tbm m := match assert_ptr TTbm tbm_of m with Some t => Ret t | None => Err "Didn't find TBMstruct" end in
  let! t := match Encoding.Unmarshal gens fuel tr constructors b with
            | Ret (_, m) => tbm m
            | Err _ => Err "Didn't find TBMstruct"
            | Panic w => Panic w
            | OutOfFuel => OutOfFuel
            end in
  let! tree := NewTreeFromMarshal fuel (T t) (EL t) in
  Ret {| t_ID := t_ID tree; t_Roster := EL t; t_Root := t_Root tree |}.

(** ** Values there and back *)
Lemma of_slice_value {A} (f : A → gvalue) (g : gvalue → option A) l : Forall (λ a, g (f a) = Some a) l → of_slice g (slice_value f l) = Some l.
Proof.
  intros H. destruct l as [|a l]; [done|]. cbn [slice_value of_slice].
  induction H as [|b k Hb _ IH]; [done|]. cbn [map opt_map]. rewrite Hb. change (opt_map _ _) with (opt_map (λ x, match x with VPtr x => g x | _ => None end) (map (λ a, VPtr (f a)) k)).
  by rewrite IH.
Qed.

Section TreeMarshal_ind.
Context (Q : TreeMarshal → Prop) (H : ∀ n t s r cs, Forall Q cs → Q (MkTreeMarshal n t s r cs)).
Fixpoint TreeMarshal_ind' (tm : TreeMarshal) : Q tm :=
  match tm with
  | MkTreeMarshal n t s r cs => H n t s r cs ((fix go cs : Forall Q cs := match cs with [] => Forall_nil_2 _ | c :: cs => Forall_cons_2 _ c cs (TreeMarshal_ind' c) (go cs) end) cs)
  end.
End TreeMarshal_ind.

Lemma tm_of_value tm : tm_of (tm_value tm) = Some tm.
Proof.
  induction tm as [n t s r cs IH] using TreeMarshal_ind'. cbn [tm_value tm_of]. by rewrite of_slice_value.
Qed.

Fixpoint tm_height (tm : TreeMarshal) : nat := match tm with MkTreeMarshal _ _ _ _ cs => list_max (map (λ c, Datatypes.S (tm_height c)) cs) end.
Fixpoint tm_ids (tm : TreeMarshal) : list UUID :=
  match tm with MkTreeMarshal n t s r cs => [n; t; s; r] ++ concat (map tm_ids cs) end.
Definition sized (l : list UUID) : Prop := Forall (λ i, length i = 16%nat) l.

Lemma repeatable_ptr t : scalar (TPtr t) = None → wire t = 2 → repeatable (TPtr t).
Proof. intros Hs Hw. split; [done|]. split; [done|]. split; [by cbn [wire]; rewrite Hs|]. by intros [?|?]. Qed.

Lemma wf_slice_value {A} (f : A → gvalue) t l : wire t = 2 → kind t ≠ Interface → Forall (λ a, wf gens true true t (f a)) l →
  wf gens false true (TSlice (TPtr t)) (slice_value f l).
Proof.
  intros Hw Hk Hl. assert (repeatable (TPtr t)) as Hr by by apply repeatable_ptr.
  destruct l as [|a l]; cbn [slice_value wf scalar]; [by right|]. right. split; [done|]. split; [done|].
  change (VPtr (f a) :: map (λ a, VPtr (f a)) l) with ((λ a, VPtr (f a)) <$> (a :: l)).
  apply Forall_fmap. eapply Forall_impl; [exact Hl|]. intros x Hx. by split.
Qed.
Lemma norm_slice {A} (f : A → gvalue) t l : Forall (λ a, norm t (f a) = f a) l → norm (TSlice (TPtr t)) (slice_value f l) = slice_value f l.
Proof.
  intros Hl. destruct l as [|a l]; [done|]. cbn [slice_value norm scalar kind]. rewrite decide_False by done.
  f_equal. rewrite map_map. apply map_ext_Forall. eapply Forall_impl; [exact Hl|]. intros x Hx. cbn. by rewrite Hx.
Qed.

Lemma wf_id n i : length i = 16%nat → wf gens false true (TId n) (VBytes i).
Proof. done. Qed.

Lemma wire_TM k : wire (TTreeMarshal k) = 2. Proof. by destruct k. Qed.
Lemma kind_TM k : kind (TTreeMarshal k) = Struct. Proof. by destruct k. Qed.

Lemma tm_wf k tm : (tm_height tm <= k)%nat → sized (tm_ids tm) →
  wf gens true true (TTreeMarshal k) (tm_value tm) ∧ norm (TTreeMarshal k) (tm_value tm) = tm_value tm.
Proof.
  induction tm as [n t s r cs IH] using TreeMarshal_ind' in k |- *. intros Hk Hids.
  unfold sized in Hids. cbn [tm_ids] in Hids. apply Forall_app in Hids as [Hids Hcs].
  apply Forall_cons in Hids as [Hn Hids]. apply Forall_cons in Hids as [Ht Hids]. apply Forall_cons in Hids as [Hs Hids].
  apply Forall_cons in Hids as [Hr _].
  assert (Forall (λ c, wf gens true true (match k with O => TOther "onet.TreeMarshal" | Datatypes.S d => TTreeMarshal d end) (tm_value c) ∧
    norm (match k with O => TOther "onet.TreeMarshal" | Datatypes.S d => TTreeMarshal d end) (tm_value c) = tm_value c) cs) as Hall.
  { apply Forall_forall. intros c Hc. rewrite Forall_forall in IH. cbn [tm_height] in Hk.
    assert (Datatypes.S (tm_height c) <= k)%nat as Hck.
    { etrans; [|exact Hk]. pose proof (proj1 (list_max_le _ _) (Nat.le_refl (list_max (map (λ c, Datatypes.S (tm_height c)) cs)))) as Hm.
      rewrite Forall_forall in Hm. apply Hm. by apply list_elem_of_In, in_map_iff; exists c; rewrite <-list_elem_of_In. }
    destruct k as [|k]; [lia|]. apply IH; [done|lia|].
    apply Forall_forall. intros i Hi. rewrite Forall_forall in Hcs. apply Hcs.
    apply list_elem_of_In, in_concat. exists (tm_ids c). split; [apply in_map|]; by apply list_elem_of_In. }
  apply Forall_and in Hall as [Hwf Hnorm]. set (child := match k with O => _ | Datatypes.S d => _ end) in *.
  assert (wire child = 2) as Hwire by (destruct k; [done|apply wire_TM]).
  assert (kind child ≠ Interface) as Hkind by (unfold child; destruct k; [done|by rewrite kind_TM]).
  assert (TTreeMarshal k = TNamed "onet.TreeMarshal" (TStruct
    [(field "TreeNodeID", TId "onet.TreeNodeID"); (field "TreeID", TId "onet.TreeID");
     (field "ServerIdentityID", TId "network.ServerIdentityID"); (field "RosterID", TId "onet.RosterID");
     (field "Children", TSlice (TPtr child))])) as -> by by destruct k.
  pose proof (wf_slice_value tm_value child cs Hwire Hkind Hwf) as Hw. pose proof (norm_slice tm_value child cs Hnorm) as Hnm.
  clearbody child. cbn [tm_value]. generalize dependent (slice_value tm_value cs). intros v Hw Hnm. split.
  - split; [done|]. split; [done|]. split; [done|]. by repeat split.
  - change (VStruct [VBytes n; VBytes t; VBytes s; VBytes r; norm (TSlice (TPtr child)) v] = VStruct [VBytes n; VBytes t; VBytes s; VBytes r; v]).
    by rewrite Hnm.
Qed.

(** A pointer field. *)
Lemma wf_ptr t v : kind t ≠ Interface → wf gens true true t v → wf gens false true (TPtr t) (VPtr v).
Proof. by split. Qed.

Context {PL : PointReflectLaws gens PR}.

Lemma iface_wf one addr p : wf gens one addr (TInterface "abstract.Point") (point_iface p).
Proof. apply point_marshals. Qed.
Lemma of_point_iface p : of_iface (point_iface p) = Some p.
Proof. apply of_point_value. Qed.

Lemma si_wf si : length (Network.ID si) = 16%nat →
  wf gens true true TServerIdentity (si_value si) ∧ norm TServerIdentity (si_value si) = si_value si ∧
  si_of (si_value si) = Some si.
Proof.
  intros Hi. split; [|split; [done|]].
  - split; [done|]. split; [done|]. split; [done|].
    split; [intros _; apply iface_wf|]. by repeat split.
  - cbn [si_value si_of]. rewrite of_point_iface. by destruct si.
Qed.

Definition ids_sized (el : Roster) : Prop :=
  length (Rosters.ID el) = 16%nat ∧ Forall (λ e, length (Network.ID e) = 16%nat) (Rosters.List el).

Lemma roster_wf el : ids_sized el →
  wf gens true true TRoster (roster_value el) ∧ norm TRoster (roster_value el) = roster_value el ∧
  roster_of (roster_value el) = Some el.
Proof.
  intros [Hi Hl].
  assert (Forall (λ e, wf gens true true TServerIdentity (si_value e) ∧
    norm TServerIdentity (si_value e) = si_value e ∧ si_of (si_value e) = Some e) (Rosters.List el)) as Hall
    by (eapply Forall_impl; [exact Hl|]; apply si_wf).
  apply Forall_and in Hall as [Hwf Hall]. apply Forall_and in Hall as [Hnorm Hof].
  pose proof (wf_slice_value si_value TServerIdentity _ eq_refl ltac:(done) Hwf) as Hw.
  pose proof (norm_slice si_value TServerIdentity _ Hnorm) as Hn.
  split; [|split].
  - split; [done|]. split; [done|]. split; [done|]. split; [done|].
    split; [by intros _|]. split; [intros _; apply iface_wf|done].
  - change (VStruct [VBytes (Rosters.ID el); norm (TSlice (TPtr TServerIdentity)) (slice_value si_value (Rosters.List el));
      point_iface (Rosters.Aggregate el)] = roster_value el). by rewrite Hn.
  - cbn [roster_value roster_of]. rewrite of_slice_value, of_point_iface by done. by destruct el.
Qed.

Lemma tbm_wf t : (∀ el, EL t = Some el → ids_sized el) →
  wf gens true true TTbm (tbm_value t) ∧ norm TTbm (tbm_value t) = tbm_value t ∧ tbm_of (tbm_value t) = Some t.
Proof.
  intros Hel. destruct t as [b [el|]]; [|by repeat split].
  destruct (roster_wf el (Hel el eq_refl)) as (Hw & Hn & Ho). split; [|split].
  - split; [done|]. split; [done|]. split; [done|]. split; [done|].
    split; [intros _; by apply wf_ptr|done].
  - change (VStruct [VBytes b; VPtr (norm TRoster (roster_value el))] = tbm_value {| T := b; EL := Some el |}). by rewrite Hn.
  - cbn [tbm_value tbm_of EL T]. by rewrite Ho.
Qed.

(** ** Trees there and back *)

Fixpoint height (t : TreeNode) : nat :=
  match t with MkTreeNode _ _ _ cs _ => list_max (map (λ c, Datatypes.S (height c)) cs) end.

(** Identifiers have 16 bytes. *)
Definition node_sized (nd : TreeNode) : Prop :=
  length (tn_ID nd) = 16%nat ∧ ∀ e, tn_ServerIdentity nd = Some e → length (Network.ID e) = 16%nat.

Lemma copy_sized t : ∀ m, TreeMarshalCopyTree t = Ret m → Forall node_sized (preorder t) →
  sized (tm_ids m) ∧ tm_height m = height t.
Proof.
  induction t as [id si i cs agg IH] using TreeNode_ind. intros m. cbn [TreeMarshalCopyTree].
  rewrite preorder_unfold. intros H [[Hid Hsi] Hcs]%Forall_cons. cbn [tn_ID tn_ServerIdentity tn_Children] in *.
  apply obind_ret_inv in H as (e & He & H). apply obind_ret_inv in H as (ms & Hms & [= <-]).
  destruct si as [e'|]; [injection He as ->|done].
  assert (sized (concat (map tm_ids ms)) ∧ map (λ c, Datatypes.S (tm_height c)) ms = map (λ c, Datatypes.S (height c)) cs) as [Hall Hh].
  { clear Hid Hsi. revert ms Hms. induction IH as [|c cs Hc _ IHcs]; intros ms Hms.
    - injection Hms as <-. by split; [apply Forall_nil_2|].
    - cbn [omapM] in Hms. apply obind_ret_inv in Hms as (m & Hm & Hms). apply obind_ret_inv in Hms as (ms' & Hms & [= <-]).
      cbn [mbind list_bind] in Hcs. apply Forall_app in Hcs as [H1 H2].
      destruct (Hc m Hm H1) as [Hs Hh], (IHcs H2 ms' Hms) as [Hs' Hh']. cbn [map concat]. split.
      + by apply Forall_app.
      + by rewrite Hh, Hh'. }
  cbn [tm_ids tm_height height]. split; [|by rewrite Hh].
  apply Forall_app. split; [|exact Hall]. repeat constructor; [exact Hid|by apply Hsi].
Qed.

Lemma made_sized t el root m :
  t_Root t = Some root → t_Roster t = Some el → MakeTreeMarshal t = Ret m →
  length (t_ID t) = 16%nat → length (Rosters.ID el) = 16%nat → Forall node_sized (preorder root) →
  sized (tm_ids m) ∧ tm_height m = Datatypes.S (height root).
Proof.
  intros Hroot Hel Hm Hid Hrid Hn. unfold MakeTreeMarshal in Hm. rewrite Hel, Hroot in Hm. cbn [deref obind] in Hm.
  apply obind_ret_inv in Hm as (c & Hc & [= <-]). destruct (copy_sized root c Hc Hn) as [Hs Hh].
  cbn [tm_ids tm_height map concat list_max foldr]. rewrite Hh, app_nil_r, Nat.max_0_r. split; [|done].
  apply Forall_app. split; [|exact Hs]. repeat constructor; done.
Qed.

(** A struct type whose pointers go over the network as the library encodes them. *)
Definition registered_struct (t : gtype) : Prop :=
  Encoding.get tr (type_id type_string t) = Some t ∧ type_id type_string t ≠ ErrorType ∧ UnmarshalBinary (TPtr t) = None.

Context {UL : UuidLaws U}.

(** The value, encoded and decoded. *)
Lemma struct_codec t v :
  registered_struct t → kind t = Struct → t ≠ TTime → wf gens true true t v → norm t v = v →
  ∃ b, yields (λ f, Encoding.Marshal gens type_string f tr (Some (TPtr t, VPtr v))) (Ret b) ∧
    (Z.of_nat (length b) < 2 ^ 64 →
     yields (λ f, Encoding.Unmarshal gens f tr constructors b) (Ret (type_id type_string t, (TPtr t, VPtr v)))).
Proof.
  intros (Hr & He & Hu) Hk Ht Hw Hn.
  destruct (marshal_unmarshal_registered gens type_string tr t v Hr He Hk Ht Hu Hw) as (b & Hm & _ & Hd).
  exists b. split; [exact Hm|]. intros Hl. specialize (Hd Hl constructors). by rewrite Hn in Hd.
Qed.

Lemma new_tree_yields t el root p m bt :
  t_Root t = Some root → t_Roster t = Some el → computeSubtreeAggregate root = Ret (root, p) →
  MakeTree m el = Ret t →
  yields (λ f, Encoding.Unmarshal gens f tr constructors bt) (Ret (TreeMarshalTypeID, (TPtr (TTreeMarshal d), VPtr (tm_value m)))) →
  yields (λ f, NewTreeFromMarshal f bt (Some el)) (Ret t).
Proof.
  intros Hroot Hel Hagg Hmake Hd. unfold NewTreeFromMarshal. eapply yields_bind; [exact Hd|].
  unfold uuid_Equal. rewrite bool_decide_true by done. cbn [negb]. unfold assert_ptr. cbn [fst snd].
  rewrite decide_True by done. rewrite tm_of_value. cbn [deref obind]. rewrite Hmake. cbn [obind].
  rewrite Hroot. cbn [deref obind]. rewrite Hagg. cbn [obind].
  replace {| t_ID := t_ID t; t_Roster := t_Roster t; t_Root := Some root |} with t by (destruct t; cbn in *; congruence).
  apply yields_const.
Qed.

(** C35: a tree whose nodes are servers of its roster, with its aggregate keys, goes
    through bytes: [Marshal] and [BinaryMarshaler] encode it, [NewTreeFromMarshal]
    with its roster and [BinaryUnmarshaler] give back the tree, with its roster,
    identifiers, indices and keys, for every height below the unfolding. *)
Theorem tree_binary_roundtrip t el root p :
  registered_struct (TTreeMarshal d) → registered_struct TTbm →
  t_Root t = Some root → t_Roster t = Some el → Forall (in_roster el) (preorder root) →
  computeSubtreeAggregate root = Ret (root, p) →
  length (t_ID t) = 16%nat → ids_sized el → Forall node_sized (preorder root) → (height root < d)%nat →
  ∃ bt b, yields (λ f, Tree_Marshal f t) (Ret bt) ∧ yields (λ f, BinaryMarshaler f t) (Ret b) ∧
    (Z.of_nat (length bt) < 2 ^ 64 → yields (λ f, NewTreeFromMarshal f bt (Some el)) (Ret t) ∧
       (Z.of_nat (length b) < 2 ^ 64 → yields (λ f, BinaryUnmarshaler f b) (Ret t))).
Proof.
  intros Hrt Hrb Hroot Hel Hin Hagg Hid Hels Hnodes Hd.
  destruct (marshal_same el t root p Hroot Hel Hin Hagg) as (m & Hm & Hmake & _).
  destruct (made_sized t el root m Hroot Hel Hm Hid (proj1 Hels) Hnodes) as [Hs Hh].
  destruct (tm_wf d m) as [Hw Hn]; [lia|done|].
  destruct (struct_codec (TTreeMarshal d) (tm_value m) Hrt (kind_TM d) ltac:(by destruct d) Hw Hn) as (bt & Hbt & Hdt).
  destruct (tbm_wf {| T := bt; EL := Some el |}) as (Hwb & Hnb & Hob); [by intros ? [= <-]|].
  destruct (struct_codec TTbm _ Hrb eq_refl ltac:(done) Hwb Hnb) as (b & Hb & Hdb).
  assert (yields (λ f, Tree_Marshal f t) (Ret bt)) as Hmt.
  { unfold Tree_Marshal. rewrite Hm. exact Hbt. }
  exists bt, b. split; [exact Hmt|]. split.
  { unfold BinaryMarshaler. eapply yields_bind; [exact Hmt|]. by rewrite Hel. }
  intros Hlt. specialize (Hdt Hlt). pose proof (new_tree_yields t el root p m bt Hroot Hel Hagg Hmake Hdt) as Hnew.
  split; [exact Hnew|]. intros Hlb. specialize (Hdb Hlb). unfold BinaryUnmarshaler.
  assert (assert_ptr TTbm tbm_of (TPtr TTbm, VPtr (tbm_value {| T := bt; EL := Some el |})) = Some {| T := bt; EL := Some el |}) as Ha
    by (unfold assert_ptr; cbn [fst snd]; by rewrite decide_True).
  eapply (yields_bind _ _ {| T := bt; EL := Some el |}).
  - eapply yields_map with (g := λ r, match r with Ret (_, m) => _ | Err _ => _ | Panic w => _ | OutOfFuel => _ end) in Hdb.
    match type of Hdb with yields _ ?r => assert (r = Ret {| T := bt; EL := Some el |}) as E end.
    { etrans; [|exact (f_equal (λ o, match o with Some t => Ret t | None => Err "Didn't find TBMstruct" end) Ha)]. reflexivity. }
    rewrite E in Hdb. exact Hdb.
  - cbn [T EL]. eapply yields_bind; [exact Hnew|]. cbn.
    replace {| t_ID := t_ID t; t_Roster := Some el; t_Root := t_Root t |} with t by (destruct t; cbn in *; congruence).
    apply yields_const.
Qed.

End codec.
End TreeCodec.

(** ** Witnesses *)
Module TreeCodecExample.
Import ZSuite TreeExample NetExample Encoding Trees TreeCodec.

(** Points and scalars that are numbers behind pointers, and marshal themselves. *)
Definition TZPoint : gtype := TPtr (TNamed "edwards.point" TString).
Definition TZScalar : gtype := TPtr (TNamed "nist.Int" TString).
Definition point_tag : bytes := [x65; x64; x2e; x70; x6f; x69; x6e; x74].
Definition scalar_tag : bytes := [x65; x64; x2e; x73; x63; x61; x6c; x61].
Definition tag_of (t : gtype) : option bytes :=
  match t with
  | TPtr (TNamed "edwards.point" _) => Some point_tag
  | TPtr (TNamed "nist.Int" _) => Some scalar_tag
  | _ => None
  end.
#[export] Instance z_methods : Methods := {|
  implements t name :=
    match tag_of t with
    | Some tag => bool_decide (tag = point_tag ∧ name = "abstract.Point"%string) ||
                  bool_decide (tag = scalar_tag ∧ name = "abstract.Scalar"%string)
    | None => false
    end;
  MarshalBinary t := (λ _ v, match v with VPtr (VString b) => Ret b | _ => Err "nil" end) <$> tag_of t;
  MarshalID t := (λ tag _, tag) <$> tag_of t;
  UnmarshalBinary t := (λ _ b _, Ret (VPtr (VString b))) <$> tag_of t;
|}.
Definition z_gens : gmap bytes (gtype * gvalue) :=
  {[ point_tag := (TZPoint, VPtr (VString [])); scalar_tag := (TZScalar, VPtr (VString [])) ]}.

Definition number_value (z : Z) : gvalue := VPtr (VString (Z_bytes z)).
Definition of_number (v : gvalue) : option Z :=
  match v with VPtr (VString b) => fst <$> bytes_Z b | _ => None end.
Lemma of_number_value z : of_number (number_value z) = Some z.
Proof. cbn. rewrite <-(app_nil_r (Z_bytes z)), bytes_Z_bytes. done. Qed.
Lemma Z_bytes_not_nil z : Z_bytes z ≠ [].
Proof. by destruct z. Qed.

#[export] Instance z_points : PointReflect Zsuite :=
  {| point_type := TZPoint; point_value := number_value; of_point := of_number |}.
#[export] Instance z_points_laws : PointReflectLaws z_gens z_points.
Proof.
  split; [exact of_number_value|]. intros p. eexists _, _, _, (Z_bytes p), _.
  repeat split; first [apply Z_bytes_not_nil | reflexivity].
Qed.
#[export] Instance z_scalars : ScalarReflect Zsuite :=
  {| scalar_type := TZScalar; scalar_value := number_value; of_scalar := of_number |}.
#[export] Instance z_scalars_laws : ScalarReflectLaws z_gens z_scalars.
Proof.
  split; [exact of_number_value|]. intros p. eexists _, _, _, (Z_bytes p), _.
  repeat split; first [apply Z_bytes_not_nil | reflexivity].
Qed.

#[export] Existing Instances uuid16 uuid16_laws.

(** A root with two children. *)
Definition si (k : Z) : Network.ServerIdentity := NewServerIdentity (S := Zsuite) k (String.list_byte_of_string "tcp://h:1").
Definition ros : Roster := Rosters.NewRoster (si <$> [3; 5; 7]) 0.
Definition leaf (i : Z) (k : Z) : TreeNode := MkTreeNode (NewV4 0) (Some (si k)) i [] (Some k).
Definition root : TreeNode := MkTreeNode (NewV4 0) (Some (si 3)) 0 [leaf 1 5; leaf 2 7] (Some 15).
Definition tree : Tree := MkTree (NewV4 0) (Some ros) (Some root).

Definition reg (d : nat) : gmap UUID gtype :=
  {[ type_id type_string (TTreeMarshal d) := TTreeMarshal d; type_id type_string TTbm := TTbm ]}.

Lemma tree_binary_roundtrip_witness :
  ∃ bt b, yields (λ f, Tree_Marshal z_gens type_string (reg 4) 4 f tree) (Ret bt) ∧
    yields (λ f, BinaryMarshaler z_gens type_string (reg 4) 4 f tree) (Ret b) ∧
    (Z.of_nat (length bt) < 2 ^ 64 → yields (λ f, NewTreeFromMarshal z_gens type_string ∅ (reg 4) 4 f bt (Some ros)) (Ret tree) ∧
       (Z.of_nat (length b) < 2 ^ 64 → yields (λ f, BinaryUnmarshaler z_gens type_string ∅ (reg 4) 4 f b) (Ret tree))).
Proof.
  apply (tree_binary_roundtrip z_gens type_string ∅ (reg 4) 4 tree ros root 15).
  - split; [by_vm|]. split; [by apply (bool_decide_unpack _); vm_compute|done].
  - split; [by_vm|]. split; [by apply (bool_decide_unpack _); vm_compute|done].
  - done.
  - done.
  - repeat constructor; (eexists; split; [reflexivity|by_vm]).
  - by_vm.
  - done.
  - split; [done|]. repeat constructor.
  - repeat constructor; by intros e [= <-].
  - vm_compute. lia.
Defined.

(** The same by evaluation. *)
Example tree_bytes :
  (let! b := BinaryMarshaler z_gens type_string (reg 4) 4 12 tree in
   BinaryUnmarshaler z_gens type_string ∅ (reg 4) 4 12 b) = Ret tree.
Proof. by_vm. Qed.
End TreeCodecExample.
