(* ===== verification/Router.v ===== *)
(** * The router ([imported/onet/network/router.go])

    The router keeps the connections to other servers, opens one when a message
    is sent and none is there, and has a goroutine per connection that reads
    packets and hands them to the dispatcher.  Sockets are a parameter: [HostLib]
    says what connecting and sending return, the result of receiving is an
    argument of the step of the goroutine.  The steps are as fine as the locks of
    the router: opening and registering a connection, starting its goroutine,
    writing to it, the goroutine's look at [Closed] after it received, what it
    then does, its end, and the removal of its connection are separate steps that
    interleave with those of others; so are the moves of a connection's counters
    of the bytes sent and received. *)
From S2P Require Import Prelude Suite Tree NetEncoding.
Local Open Scope Z_scope.

Module Routers.
Section router.
Context {S : Suite} {U : UuidLib}.

(** Messages: the one with the own identity, and what the other side sent as its
    identity. *)
Context {Msg : Type} (identity : ServerIdentity → Msg) (as_identity : Msg → option ServerIdentity)
  (msg_type : Msg → UUID).

(** [Host.Connect] and [Conn.Send]: their error; the number counts the calls. *)
Class HostLib := {
  host_Connect : nat → ServerIdentity → option error;
  conn_Send : nat → nat → Msg → option error;
}.
Context {H : HostLib}.

(** What [Conn.Receive] returns. *)
Inductive Received :=
  | RPacket (m : Msg)
  | RTimeout
  | RClosed
  | RError (e : error).

(** The connections that were registered and not removed, with the remote server:
    of those [starting] the goroutine is not yet started; of those [handling] it
    runs [handleConn] and is counted by the wait group; of those [ending] it has
    left the loop and the wait group and has not removed its connection yet; of
    those [refused] it was not started because the router was closed.  [checked] is
    what the goroutine of a connection received and has not acted on, after it
    found the router open.  [wire] is what was written on
    which connection; [delivered] what the dispatcher handed to which processor;
    [lost] the calls of the connection error handlers.  [counters] are what the
    connections say of the bytes they sent and received; [traffic] are the two
    counters the router keeps of the connections that are gone. *)
Record Router := {
  own : ServerIdentity;
  procs : gmap UUID nat;
  connectionErrorHandlers : list nat;
  connections : gmap UUID (list nat);
  starting : list (ServerIdentity * nat);
  handling : list (ServerIdentity * nat);
  ending : list (ServerIdentity * nat);
  refused : list (ServerIdentity * nat);
  checked : gmap nat Received;
  isClosed : bool;
  closed_conns : gset nat;
  next_conn : nat;
  calls : nat;
  wire : list (nat * Msg);
  delivered : list (nat * ServerIdentity * Msg);
  lost : list (nat * ServerIdentity);
  counters : gmap nat (Z * Z);
  traffic : Z * Z;
}.
Abbreviation RM := (SM Router error).

Definition NewRouter (si : ServerIdentity) : Router :=
  {| own := si; procs := Dispatch.NewBlockingDispatcher; connectionErrorHandlers := []; connections := ∅;
     starting := []; handling := []; ending := []; refused := []; checked := ∅; isClosed := false; closed_conns := ∅; next_conn := 0;
     calls := 0; wire := []; delivered := []; lost := []; counters := ∅; traffic := (0, 0) |}.

(** Updates of the fields that change together. *)
Definition set_conns (r : Router) (cs : gmap UUID (list nat)) (st hs en : list (ServerIdentity * nat)) : Router :=
  {| own := own r; procs := procs r; connectionErrorHandlers := connectionErrorHandlers r; connections := cs;
     starting := st; handling := hs; ending := en; refused := refused r; checked := checked r; isClosed := isClosed r; closed_conns := closed_conns r;
     next_conn := next_conn r; calls := calls r; wire := wire r; delivered := delivered r; lost := lost r;
     counters := counters r; traffic := traffic r |}.
Definition set_io (r : Router) (n k : nat) (w : list (nat * Msg)) : Router :=
  {| own := own r; procs := procs r; connectionErrorHandlers := connectionErrorHandlers r;
     connections := connections r; starting := starting r; handling := handling r; ending := ending r;
     refused := refused r; checked := checked r;
     isClosed := isClosed r; closed_conns := closed_conns r; next_conn := n; calls := k; wire := w;
     delivered := delivered r; lost := lost r;
     counters := counters r; traffic := traffic r |}.
Definition set_closed (r : Router) (b : bool) (cl : gset nat) : Router :=
  {| own := own r; procs := procs r; connectionErrorHandlers := connectionErrorHandlers r;
     connections := connections r; starting := starting r; handling := handling r; ending := ending r;
     refused := refused r; checked := checked r;
     isClosed := b; closed_conns := cl; next_conn := next_conn r; calls := calls r; wire := wire r;
     delivered := delivered r; lost := lost r;
     counters := counters r; traffic := traffic r |}.
Definition set_results (r : Router) (d : list (nat * ServerIdentity * Msg)) (l : list (nat * ServerIdentity)) : Router :=
  {| own := own r; procs := procs r; connectionErrorHandlers := connectionErrorHandlers r;
     connections := connections r; starting := starting r; handling := handling r; ending := ending r;
     refused := refused r; checked := checked r;
     isClosed := isClosed r; closed_conns := closed_conns r; next_conn := next_conn r; calls := calls r;
     wire := wire r; delivered := d; lost := l; counters := counters r; traffic := traffic r |}.
Definition set_handlers (r : Router) (ps : gmap UUID nat) (es : list nat) : Router :=
  {| own := own r; procs := ps; connectionErrorHandlers := es;
     connections := connections r; starting := starting r; handling := handling r; ending := ending r;
     refused := refused r; checked := checked r;
     isClosed := isClosed r; closed_conns := closed_conns r; next_conn := next_conn r; calls := calls r;
     wire := wire r; delivered := delivered r; lost := lost r;
     counters := counters r; traffic := traffic r |}.

Definition set_goroutines (r : Router) (st rf : list (ServerIdentity * nat)) (ch : gmap nat Received) : Router :=
  {| own := own r; procs := procs r; connectionErrorHandlers := connectionErrorHandlers r;
     connections := connections r; starting := st; handling := handling r; ending := ending r;
     refused := rf; checked := ch;
     isClosed := isClosed r; closed_conns := closed_conns r; next_conn := next_conn r; calls := calls r;
     wire := wire r; delivered := delivered r; lost := lost r;
     counters := counters r; traffic := traffic r |}.
Definition set_traffic (r : Router) (cs : gmap nat (Z * Z)) (t : Z * Z) : Router :=
  {| own := own r; procs := procs r; connectionErrorHandlers := connectionErrorHandlers r;
     connections := connections r; starting := starting r; handling := handling r; ending := ending r;
     refused := refused r; checked := checked r;
     isClosed := isClosed r; closed_conns := closed_conns r; next_conn := next_conn r; calls := calls r;
     wire := wire r; delivered := delivered r; lost := lost r; counters := cs; traffic := t |}.

Definition conns_of (r : Router) (sid : UUID) : list nat := default [] (connections r !! sid).

(** ** Connections *)
Definition connection (r : Router) (sid : UUID) : option nat := head (conns_of r sid).

Definition Closed (r : Router) : bool := isClosed r.

(** [c.Tx()] and [c.Rx()]. *)
Definition conn_Tx (r : Router) (c : nat) : Z := (default (0, 0) (counters r !! c)).1.
Definition conn_Rx (r : Router) (c : nat) : Z := (default (0, 0) (counters r !! c)).2.

(** The connection [c] adds to its counters, which have 64 bits. *)
Definition conn_count (c : nat) (tx rx : Z) (r : Router) : Router :=
  set_traffic r (<[c := ((conn_Tx r c + tx) mod 2 ^ 64, (conn_Rx r c + rx) mod 2 ^ 64)]> (counters r)) (traffic r).

(** [r.traffic.updateRx] and [r.traffic.updateTx]. *)
Definition updateRx (delta : Z) (r : Router) : Router :=
  set_traffic r (counters r) ((traffic r).1, ((traffic r).2 + delta) mod 2 ^ 64).
Definition updateTx (delta : Z) (r : Router) : Router :=
  set_traffic r (counters r) (((traffic r).1 + delta) mod 2 ^ 64, (traffic r).2).

(** [c.Send(msg)]. *)
Definition conn_send (c : nat) (msg : Msg) : RM unit := λ r,
  match conn_Send (calls r) c msg with
  | Some e => (Err e, set_io r (next_conn r) (Datatypes.S (calls r)) (wire r))
  | None => (Ret tt, set_io r (next_conn r) (Datatypes.S (calls r)) (wire r ++ [(c, msg)]))
  end.

(** [r.host.Connect(si)]: a new connection. *)
Definition host_connect (si : ServerIdentity) : RM nat := λ r,
  match host_Connect (calls r) si with
  | Some e => (Err e, set_io r (next_conn r) (Datatypes.S (calls r)) (wire r))
  | None => (Ret (next_conn r), set_io r (Datatypes.S (next_conn r)) (Datatypes.S (calls r)) (wire r))
  end.

Definition registerConnection (remote : ServerIdentity) (c : nat) : RM unit := λ r,
  if isClosed r then (Err "Connection Closed", r)
  else (Ret tt, set_conns r (<[Network.ID remote := conns_of r (Network.ID remote) ++ [c]]> (connections r))
                  (starting r ++ [(remote, c)]) (handling r) (ending r)).

Definition launchHandleRoutine (dst : ServerIdentity) (c : nat) : RM unit := λ r,
  if isClosed r then (Err "Connection Closed",
    set_goroutines r (filter (λ h, h.2 ≠ c) (starting r)) (refused r ++ [(dst, c)]) (checked r))
  else (Ret tt, set_conns r (connections r) (filter (λ h, h.2 ≠ c) (starting r))
                  (handling r ++ [(dst, c)]) (ending r)).

(** [connect]: up to the registration, and the start of the goroutine. *)
Definition open_conn (si : ServerIdentity) : RM nat :=
  do! c := host_connect si in
  do! r := sget in
  do! _ := conn_send c (identity (own r)) in
  do! _ := registerConnection si c in
  sret c.

Definition connect (si : ServerIdentity) : RM nat :=
  do! c := open_conn si in
  do! _ := launchHandleRoutine si c in
  sret c.

(** The error as a value. *)
Definition attempt (c : RM unit) : RM (option error) := λ r,
  match c r with
  | (Ret _, r) => (Ret None, r)
  | (Err e, r) => (Ret (Some e), r)
  | (Panic w, r) => (Panic w, r)
  | (OutOfFuel, r) => (OutOfFuel, r)
  end.

Definition Send (e : ServerIdentity) (msg : option Msg) : RM unit :=
  match msg with
  | None => sthrow "Can't send nil-packet"
  | Some msg =>
      do! r := sget in
      do! c := match connection r (Network.ID e) with Some c => sret c | None => connect e end in
      do! err := attempt (conn_send c msg) in
      match err with
      | None => sret tt
      | Some _ => do! c := connect e in conn_send c msg
      end
  end.

(** The loop of [removeConnection]: the last index at which [c] is. *)
Fixpoint last_index (i : nat) (arr : list nat) (c : nat) (toDelete : option nat) : option nat :=
  match arr with
  | [] => toDelete
  | cc :: arr => last_index (Datatypes.S i) arr c (if decide (c = cc) then Some i else toDelete)
  end.

(** [removeConnection]: the last connection takes the place of the removed one. *)
Definition removeConnection (si : ServerIdentity) (c : nat) (r : Router) : Router :=
  let arr := conns_of r (Network.ID si) in
  match last_index 0 arr c None with
  | None => r
  | Some i =>
      let arr := <[i := List.last arr 0%nat]> arr in
      set_conns r (<[Network.ID si := take (length arr - 1) arr]> (connections r))
        (starting r) (handling r) (ending r)
  end.

(** The deferred end of [handleConn]: the connection is closed, what it counted is
    kept, and the goroutine leaves the wait group; then, under the lock, its
    connection is removed. *)
Definition handle_exit (i : nat) (remote : ServerIdentity) (c : nat) (r : Router) : Router :=
  let r := set_closed r (isClosed r) ({[c]} ∪ closed_conns r) in
  let r := updateRx (conn_Rx r c) r in
  let r := updateTx (conn_Tx r c) r in
  set_conns r (connections r) (starting r) (delete i (handling r)) (ending r ++ [(remote, c)]).

Definition handle_remove (i : nat) (r : Router) : Router :=
  match ending r !! i with
  | None => r
  | Some (remote, c) =>
      removeConnection remote c
        (set_conns r (connections r) (starting r) (handling r) (delete i (ending r)))
  end.

Definition AddErrorHandler (h : nat) (r : Router) : Router :=
  set_handlers r (procs r) (connectionErrorHandlers r ++ [h]).

Definition triggerConnectionErrorHandlers (remote : ServerIdentity) (r : Router) : Router :=
  set_results r (delivered r) (lost r ++ ((., remote) <$> connectionErrorHandlers r)).

(** The processors are known by number; what they are given is recorded. *)
Definition deliver (p : nat) (packet : ServerIdentity * Msg) : RM unit := λ r,
  (Ret tt, set_results r (delivered r ++ [(p, packet.1, packet.2)]) (lost r)).
Definition dispatch (packet : ServerIdentity * Msg) : RM unit := λ r,
  Dispatch.BlockingDispatch (λ packet, msg_type packet.2) deliver (procs r) packet r.

(** The [i]-th goroutine [handleConn] comes back from [Receive] and looks whether
    the router is closed. *)
Definition handleConn (i : nat) (received : Received) (r : Router) : Router :=
  match handling r !! i with
  | None => r
  | Some (remote, c) =>
      match checked r !! c with
      | Some _ => r
      | None =>
          if isClosed r then handle_exit i remote c r
          else set_goroutines r (starting r) (refused r) (<[c := received]> (checked r))
      end
  end.

(** It goes on, whatever happened to the router since: to its end, or to what
    comes before the next [Receive]. *)
Definition handle_received (i : nat) (r : Router) : Router :=
  match handling r !! i with
  | None => r
  | Some (remote, c) =>
      match checked r !! c with
      | None => r
      | Some received =>
          let r := set_goroutines r (starting r) (refused r) (delete c (checked r)) in
          match received with
          | RTimeout | RClosed => handle_exit i remote c (triggerConnectionErrorHandlers remote r)
          | RError _ => r
          | RPacket m => (dispatch (remote, m) r).2
          end
      end
  end.

(** ** Traffic

    The sums over all registered connections, and what is kept of the others. *)
Definition Tx (r : Router) : Z :=
  (map_fold (λ _ arr tx, foldl (λ tx c, (tx + conn_Tx r c) mod 2 ^ 64) tx arr) 0 (connections r)
   + (traffic r).1) mod 2 ^ 64.
Definition Rx (r : Router) : Z :=
  (map_fold (λ _ arr rx, foldl (λ rx c, (rx + conn_Rx r c) mod 2 ^ 64) rx arr) 0 (connections r)
   + (traffic r).2) mod 2 ^ 64.

(** ** Incoming connections *)

(** [receiveServerIdentity]. *)
Definition receiveServerIdentity (received : Received) : outcome error ServerIdentity :=
  match received with
  | RPacket m =>
      match as_identity m with
      | Some dst => Ret dst
      | None => Err "Received wrong type during negotiation"
      end
  | _ => Err "Error while receiving ServerIdentity during negotiation"
  end.

(** The callback of [Start] for an incoming connection, up to the registration,
    and all of it. *)
Definition accept_conn (received : Received) : RM (option (ServerIdentity * nat)) := λ r,
  let c := next_conn r in
  let r := set_io r (Datatypes.S c) (calls r) (wire r) in
  match receiveServerIdentity received with
  | Ret dst =>
      (do! err := attempt (registerConnection dst c) in
       sret (match err with None => Some (dst, c) | Some _ => None end)) r
  | _ => (Ret None, set_closed r (isClosed r) ({[c]} ∪ closed_conns r))
  end.

Definition accept (received : Received) : RM unit :=
  do! o := accept_conn received in
  match o with
  | None => sret tt
  | Some (dst, c) => do! _ := attempt (launchHandleRoutine dst c) in sret tt
  end.

(** [Stop] up to the point where it waits for the goroutines. *)
Definition Stop (r : Router) : Router :=
  set_closed r true (list_to_set (mjoin (map_to_list (connections r)).*2) ∪ closed_conns r).

(** ** Steps *)
Inductive ROp :=
  | RRegisterProcessor (p : nat) (types : list UUID)
  | RAddErrorHandler (h : nat)
  | ROpen (si : ServerIdentity)
  | RAccept (first : Received)
  | RLaunch (i : nat)
  | RWrite (c : nat) (msg : Msg)
  | RReceive (i : nat) (received : Received)
  | RProceed (i : nat)
  | RRemove (i : nat)
  | RCount (c : nat) (tx rx : Z)
  | RStop.

(** The goroutine that registered a connection goes on to [launchHandleRoutine]. *)
Definition launch (i : nat) (r : Router) : Router :=
  match starting r !! i with
  | None => r
  | Some (dst, c) => (launchHandleRoutine dst c r).2
  end.

Definition run_rop (r : Router) (op : ROp) : Router :=
  match op with
  | RRegisterProcessor p types =>
      set_handlers r (Dispatch.RegisterProcessor (procs r) p types) (connectionErrorHandlers r)
  | RAddErrorHandler h => AddErrorHandler h r
  | ROpen si => (open_conn si r).2
  | RAccept first => (accept_conn first r).2
  | RLaunch i => launch i r
  | RWrite c msg => (conn_send c msg r).2
  | RReceive i received => handleConn i received r
  | RProceed i => handle_received i r
  | RRemove i => handle_remove i r
  | RCount c tx rx => conn_count c tx rx r
  | RStop => Stop r
  end.

(** ** Invariant *)

(** All connections whose goroutine is still to be started, runs, or was refused. *)
Definition pool (r : Router) : list (ServerIdentity * nat) :=
  starting r ++ handling r ++ ending r ++ refused r.

(** The connections that are registered for a server are those of the pool, each
    once; none is refused before the router is closed, and then all are closed. *)
Record rinv (r : Router) : Prop := {
  inv_conns id : conns_of r id ≡ₚ (filter (λ h, Network.ID h.1 = id) (pool r)).*2;
  inv_nodup : NoDup (pool r).*2;
  inv_fresh : Forall (λ h, (h.2 < next_conn r)%nat) (pool r);
  inv_closed id c : isClosed r = true → c ∈ conns_of r id → c ∈ closed_conns r;
  inv_refused : isClosed r = false → refused r = [];
}.

(** Steps that move goroutines and keep the connections. *)
Lemma rinv_moved r r' :
  rinv r → connections r' = connections r → pool r' ≡ₚ pool r →
  (next_conn r ≤ next_conn r')%nat → isClosed r' = isClosed r → closed_conns r ⊆ closed_conns r' →
  (isClosed r = true ∨ refused r' = refused r) → rinv r'.
Proof.
  intros [Hcs Hd Hf Hcl Hrf] Hc Hp Hn Hi Hs Hr. split.
  - intros id. unfold conns_of. rewrite Hc, Hp. apply Hcs.
  - by rewrite Hp.
  - rewrite Hp. eapply Forall_impl; [exact Hf|]. intros h. cbn. lia.
  - intros id c. unfold conns_of. rewrite Hc, Hi. intros H1 H2. apply Hs. by eapply Hcl.
  - rewrite Hi. intros H1. destruct Hr as [Hr| ->]; [congruence|auto].
Qed.

(** Steps that leave the goroutines and connections alone. *)
Lemma rinv_same r r' :
  rinv r → connections r' = connections r → starting r' = starting r → handling r' = handling r →
  ending r' = ending r → refused r' = refused r → isClosed r' = isClosed r →
  (next_conn r ≤ next_conn r')%nat → closed_conns r ⊆ closed_conns r' → rinv r'.
Proof.
  intros Hr Hc Hs Hh He Hf Hi Hn Hcl. eapply rinv_moved; [exact Hr|done| |done|done|done|by right].
  unfold pool. by rewrite Hs, Hh, He, Hf.
Qed.

Lemma conns_of_set r r' k l st hs en id :
  conns_of (set_conns r' (<[k := l]> (connections r)) st hs en) id = if decide (k = id) then l else conns_of r id.
Proof.
  unfold conns_of. cbn [connections set_conns]. case_decide as E.
  - subst k. by rewrite lookup_insert_eq.
  - by rewrite lookup_insert_ne.
Qed.

Lemma filter_id_cons id (h : ServerIdentity * nat) l :
  (filter (λ h, Network.ID h.1 = id) (h :: l)).*2 =
  (if decide (Network.ID h.1 = id) then [h.2] else []) ++ (filter (λ h, Network.ID h.1 = id) l).*2.
Proof. rewrite filter_cons. by case_decide. Qed.

Lemma fresh_conn r c : rinv r → (next_conn r <= c)%nat → c ∉ (pool r).*2.
Proof.
  intros [_ _ Hf _ _] Hc (h & -> & Hin)%list_elem_of_fmap. rewrite Forall_forall in Hf.
  specialize (Hf h Hin). cbn in Hf. lia.
Qed.

Lemma rinv_register si c r :
  rinv r → (c < next_conn r)%nat → c ∉ (pool r).*2 → isClosed r = false →
  rinv (set_conns r (<[Network.ID si := conns_of r (Network.ID si) ++ [c]]> (connections r))
          (starting r ++ [(si, c)]) (handling r) (ending r)).
Proof.
  intros [Hcs Hd Hf _ Hrf] Hc Hn Hcl. set (r' := set_conns _ _ _ _ _).
  assert (pool r' ≡ₚ (si, c) :: pool r) as Hp.
  { unfold pool. cbn. by rewrite (Permutation_app_comm (starting r) [(si, c)]). }
  split.
  - intros id. unfold r'. rewrite conns_of_set. fold r'. rewrite Hp, filter_id_cons. cbn [fst snd].
    case_decide as E; [|apply Hcs]. subst id.
    rewrite (Permutation_app_comm _ [c]). f_equiv. apply Hcs.
  - rewrite Hp. by constructor.
  - rewrite Hp. by constructor.
  - intros id c'. cbn. congruence.
  - exact Hrf.
Qed.

(** The search for the index, and the swap with the last element. *)
Lemma last_index_spec arr c : ∀ i d,
  match last_index i arr c d with
  | Some j => ((i ≤ j)%nat ∧ arr !! (j - i)%nat = Some c) ∨ (c ∉ arr ∧ d = Some j)
  | None => c ∉ arr ∧ d = None
  end.
Proof.
  induction arr as [|cc arr IH]; intros i d; cbn.
  { destruct d; [right|]; split; try done; apply not_elem_of_nil. }
  specialize (IH (Datatypes.S i) (if decide (c = cc) then Some i else d)).
  destruct (last_index _ arr c _) as [j|].
  - destruct IH as [[Hj Hl]|[Hn Hd]].
    + left. split; [lia|]. replace (j - i)%nat with (Datatypes.S (j - Datatypes.S i)) by lia. done.
    + case_decide as E; [subst cc; injection Hd as <-|right; split; [|done]].
      * left. split; [lia|]. by rewrite Nat.sub_diag.
      * rewrite not_elem_of_cons. done.
  - destruct IH as [Hn Hd]. case_decide; [done|]. split; [|done]. by rewrite not_elem_of_cons.
Qed.

Lemma swap_remove arr i (c : nat) :
  arr !! i = Some c →
  take (length arr - 1) (<[i := List.last arr 0%nat]> arr) ++ [c] ≡ₚ arr.
Proof.
  intros Hi. assert (arr ≠ []) as Hne by by destruct arr.
  destruct (exists_last Hne) as (l & x & ->). rewrite last_last, length_app.
  replace (length l + length [x] - 1)%nat with (length l) by (cbn; lia).
  destruct (decide (i < length l)%nat) as [Hlt|Hge].
  - rewrite insert_app_l, take_app_length' by (rewrite ?length_insert; lia).
    rewrite lookup_app_l in Hi by done.
    rewrite <-(take_drop_middle _ _ _ Hi) at 2. rewrite insert_take_drop by done.
    rewrite <-!app_assoc. f_equiv. rewrite <-!app_comm_cons.
    rewrite (Permutation_app_comm _ [c]). rewrite (Permutation_app_comm _ [x]). apply Permutation_swap.
  - apply lookup_app_Some in Hi as [Hi|[_ Hi]].
    + apply lookup_lt_Some in Hi. lia.
    + destruct (i - length l)%nat as [|k] eqn:Ek; [|done]. cbn in Hi. injection Hi as ->.
      rewrite insert_app_r_alt by lia. by rewrite take_app_length.
Qed.

Lemma removeConnection_spec si c r :
  c ∈ conns_of r (Network.ID si) → NoDup (conns_of r (Network.ID si)) →
  ∃ arr, removeConnection si c r =
      set_conns r (<[Network.ID si := arr]> (connections r)) (starting r) (handling r) (ending r) ∧
    arr ++ [c] ≡ₚ conns_of r (Network.ID si).
Proof.
  intros Hin Hd. unfold removeConnection.
  pose proof (last_index_spec (conns_of r (Network.ID si)) c 0 None) as H1.
  destruct (last_index _ _ c None) as [i|]; [|by destruct H1].
  destruct H1 as [[_ Hi]|[? _]]; [|done]. rewrite Nat.sub_0_r in Hi. cbn zeta.
  eexists. split; [rewrite length_insert; done|]. by apply swap_remove.
Qed.

(** A goroutine of the invariant has its connection registered, once. *)
Lemma rinv_goroutine r remote c :
  rinv r → (remote, c) ∈ pool r →
  c ∈ conns_of r (Network.ID remote) ∧ NoDup (conns_of r (Network.ID remote)).
Proof.
  intros [Hcs Hd _ _ _] Hin. rewrite (Hcs (Network.ID remote)). split.
  - apply list_elem_of_fmap. exists (remote, c). split; [done|]. by apply list_elem_of_filter.
  - eapply sublist_NoDup; [exact Hd|]. apply fmap_sublist, sublist_filter.
Qed.

Lemma pool_delete_ending r i remote c :
  ending r !! i = Some (remote, c) →
  pool r ≡ₚ (remote, c) :: starting r ++ handling r ++ delete i (ending r) ++ refused r.
Proof.
  intros Hi. unfold pool. rewrite (delete_Permutation (ending r) i (remote, c)) at 1 by done.
  cbn. by rewrite <-!Permutation_middle.
Qed.

(** When a goroutine ends, its connection goes, and no other. *)
Lemma rinv_remove i r : rinv r → rinv (handle_remove i r).
Proof.
  intros Hr. unfold handle_remove. destruct (ending r !! i) as [[remote c]|] eqn:Hi; [|done].
  set (r1 := set_conns r _ _ _ _). pose proof (pool_delete_ending _ _ _ _ Hi) as Hp.
  destruct (rinv_goroutine r remote c Hr) as [Hin Hnd]; [rewrite Hp; by left|].
  destruct (removeConnection_spec remote c r1 Hin Hnd) as (arr & -> & Harr).
  change (conns_of r1 (Network.ID remote)) with (conns_of r (Network.ID remote)) in Harr.
  destruct Hr as [Hcs Hd Hf Hcl Hrf]. rewrite Hp in Hd, Hf.
  apply NoDup_cons in Hd as [_ Hd]. apply Forall_cons in Hf as [_ Hf].
  assert (∀ id, conns_of r id ≡ₚ (if decide (Network.ID remote = id) then [c] else []) ++
            (filter (λ h, Network.ID h.1 = id) (pool r1)).*2) as Hcs'.
  { intros id. rewrite (Hcs id), Hp, filter_id_cons. done. }
  split; [|exact Hd|exact Hf| |exact Hrf].
  - intros id. rewrite conns_of_set. case_decide as E.
    + subst id. rewrite Hcs', decide_True in Harr by done. rewrite Permutation_app_comm in Harr.
      by apply (Permutation_app_inv_l [c]) in Harr.
    + specialize (Hcs' id). rewrite decide_False in Hcs' by done. exact Hcs'.
  - intros id c' Hc. rewrite conns_of_set. case_decide as E; [|by apply Hcl].
    subst id. intros Hc'. apply (Hcl (Network.ID remote)); [done|]. rewrite <-Harr. set_solver.
Qed.

Lemma host_connect_eq si r :
  match host_connect si r with
  | (Ret c, r') => c = next_conn r ∧ r' = set_io r (Datatypes.S c) (Datatypes.S (calls r)) (wire r)
  | (Err _, r') => r' = set_io r (next_conn r) (Datatypes.S (calls r)) (wire r)
  | _ => False
  end.
Proof. unfold host_connect. by destruct (host_Connect _ _). Qed.

Lemma conn_send_eq c m r :
  match conn_send c m r with
  | (Ret _, r') => r' = set_io r (next_conn r) (Datatypes.S (calls r)) (wire r ++ [(c, m)])
  | (Err _, r') => r' = set_io r (next_conn r) (Datatypes.S (calls r)) (wire r)
  | _ => False
  end.
Proof. unfold conn_send. by destruct (conn_Send _ _ _). Qed.

(** What [open_conn] leaves: the counters moved, or a new connection is registered
    after it got our identity. *)
Definition opened (si : ServerIdentity) (r : Router) (res : outcome error nat * Router) : Prop :=
  match res with
  | (Ret c, r') => isClosed r = false ∧ c = next_conn r ∧ ∃ k,
      r' = set_conns (set_io r (Datatypes.S c) k (wire r ++ [(c, identity (own r))]))
             (<[Network.ID si := conns_of r (Network.ID si) ++ [c]]> (connections r))
             (starting r ++ [(si, c)]) (handling r) (ending r)
  | (Err _, r') => ∃ n k w, (next_conn r ≤ n)%nat ∧ r' = set_io r n k w ∧
      (w = wire r ∨ isClosed r = true ∧ w = wire r ++ [(next_conn r, identity (own r))])
  | _ => False
  end.

Lemma open_conn_opened si r : opened si r (open_conn si r).
Proof.
  unfold open_conn, sbind at 1. pose proof (host_connect_eq si r) as H1.
  destruct (host_connect si r) as [[c|e| |] r1];
    [|exists (next_conn r), (Datatypes.S (calls r)), (wire r); auto|done..].
  destruct H1 as [-> ->]. unfold sbind at 1, sget at 1. unfold sbind at 1.
  match goal with |- context [conn_send ?c ?m ?r2] => pose proof (conn_send_eq c m r2) as H2;
    destruct (conn_send c m r2) as [[u|e| |] r3] end;
    [|eexists _, _, _; split; [|split; [exact H2|by left]]; cbn; lia|done..].
  subst r3. cbn [own set_io wire next_conn calls]. unfold sbind at 1, registerConnection.
  cbn [isClosed set_io]. destruct (isClosed r) eqn:Ec.
  - eexists _, _, _. split; [|split; [reflexivity|right; done]]. cbn; lia.
  - split; [done|]. split; [done|]. eexists. done.
Qed.

Lemma rinv_open si r : rinv r → rinv (open_conn si r).2.
Proof.
  intros Hr. pose proof (open_conn_opened si r) as Hc.
  destruct (open_conn si r) as [[c|e| |] r']; cbn in *; [|..|done|done].
  - destruct Hc as (Hcl & -> & k & ->).
    assert (rinv (set_io r (Datatypes.S (next_conn r)) k (wire r ++ [(next_conn r, identity (own r))]))) as Hr1.
    { apply (rinv_same r); [exact Hr|done..| |done]. cbn. lia. }
    apply (rinv_register si (next_conn r) _ Hr1); [cbn; lia| |done].
    by apply (fresh_conn r).
  - destruct Hc as (n & k & w & Hn & -> & _). by apply (rinv_same r).
Qed.

Lemma rinv_write c m r : rinv r → rinv (conn_send c m r).2.
Proof.
  intros Hr. pose proof (conn_send_eq c m r) as Hs.
  destruct (conn_send c m r) as [[u|e| |] r']; cbn in *; [subst r'..|done|done]; by apply (rinv_same r).
Qed.

Lemma rinv_accept first r : rinv r → rinv (accept_conn first r).2.
Proof.
  intros Hr. unfold accept_conn. cbn zeta. set (r1 := set_io r _ _ _).
  assert (rinv r1) as Hr1 by (apply (rinv_same r); [exact Hr|done..|cbn; lia|done]).
  destruct (receiveServerIdentity first) as [dst|e| |]; cbn [snd];
    try (apply (rinv_same r1); [exact Hr1|done..|cbn; set_solver]).
  unfold sbind, attempt, registerConnection. destruct (isClosed r1) eqn:Ec; [done|].
  apply (rinv_register dst (next_conn r) r1 Hr1); [cbn; lia| |done].
  by apply (fresh_conn r).
Qed.

Lemma filter_conn (l : list (ServerIdentity * nat)) c :
  c ∉ l.*2 → filter (λ h, h.2 ≠ c) l = l.
Proof.
  intros Hc. induction l as [|h l IH]; [done|]. cbn in Hc. apply not_elem_of_cons in Hc as [Hh Hc].
  rewrite filter_cons_True by congruence. by rewrite IH.
Qed.

(** The goroutine of a connection that is about to be started is no other's. *)
Lemma starting_filter r i dst c :
  rinv r → starting r !! i = Some (dst, c) →
  starting r ≡ₚ (dst, c) :: filter (λ h, h.2 ≠ c) (starting r).
Proof.
  intros [_ Hd _ _ _] Hi. pose proof (delete_Permutation _ _ _ Hi) as Hp.
  unfold pool in Hd. rewrite fmap_app in Hd. apply NoDup_app in Hd as [Hd _]. rewrite Hp in Hd.
  apply NoDup_cons in Hd as [Hc _]. cbn in Hc. rewrite Hp at 2.
  rewrite filter_cons_False by (cbn; auto). by rewrite filter_conn.
Qed.

Lemma rinv_launch i r : rinv r → rinv (launch i r).
Proof.
  intros Hr. unfold launch. destruct (starting r !! i) as [[dst c]|] eqn:Hi; [|done].
  pose proof (starting_filter r i dst c Hr Hi) as Hp.
  unfold launchHandleRoutine. destruct (isClosed r) eqn:Hc.
  - eapply rinv_moved; [exact Hr|done| |done|done|done|by left]. unfold pool. cbn. rewrite Hp at 2.
    rewrite !(assoc_L (++)), (Permutation_app_comm _ [(dst, c)]). done.
  - eapply rinv_moved; [exact Hr|done| |done|done|done|by right]. unfold pool. cbn. rewrite Hp at 2.
    rewrite <-app_assoc. cbn. by rewrite <-!Permutation_middle.
Qed.

Lemma pool_exit i remote c r :
  handling r !! i = Some (remote, c) → pool (handle_exit i remote c r) ≡ₚ pool r.
Proof.
  intros Hi. unfold pool. cbn. rewrite (delete_Permutation _ _ _ Hi) at 2. f_equiv.
  rewrite <-app_assoc. cbn. by rewrite <-!Permutation_middle.
Qed.

Lemma rinv_exit i remote c r :
  rinv r → handling r !! i = Some (remote, c) → rinv (handle_exit i remote c r).
Proof.
  intros Hr Hi. eapply rinv_moved; [exact Hr|done|by apply pool_exit|done|done|cbn; set_solver|by right].
Qed.

Lemma rinv_handleConn i received r : rinv r → rinv (handleConn i received r).
Proof.
  intros Hr. unfold handleConn. destruct (handling r !! i) as [[remote c]|] eqn:Hi; [|done].
  destruct (checked r !! c); [done|]. destruct (isClosed r) eqn:Hc; [by apply rinv_exit|].
  by apply (rinv_same r).
Qed.

Lemma rinv_received i r : rinv r → rinv (handle_received i r).
Proof.
  intros Hr. unfold handle_received. destruct (handling r !! i) as [[remote c]|] eqn:Hi; [|done].
  destruct (checked r !! c) as [received|]; [|done]. cbn zeta. set (r1 := set_goroutines _ _ _ _).
  assert (rinv r1) as Hr1 by by apply (rinv_same r).
  assert (rinv (handle_exit i remote c (triggerConnectionErrorHandlers remote r1))) as He.
  { apply rinv_exit; [by apply (rinv_same r1)|done]. }
  destruct received as [m| | |e]; [|done..]. unfold dispatch, Dispatch.BlockingDispatch.
  destruct (procs _ !! _); [by apply (rinv_same r1)|done].
Qed.

Lemma stop_closes r id c : c ∈ conns_of r id → c ∈ closed_conns (Stop r).
Proof.
  unfold conns_of. destruct (connections r !! id) as [l|] eqn:El; [|by intros ?%elem_of_nil].
  cbn. intros Hc. apply elem_of_union_l, elem_of_list_to_set, list_elem_of_join.
  exists l. split; [done|]. apply list_elem_of_fmap. exists (id, l).
  split; [done|]. by apply elem_of_map_to_list.
Qed.

Lemma rinv_stop r : rinv r → rinv (Stop r).
Proof.
  intros [Hcs Hd Hf Hcl _]. split; [exact Hcs|exact Hd|exact Hf| |done].
  intros id c _ Hc. by apply (stop_closes r id).
Qed.

Lemma rinv_op r op : rinv r → rinv (run_rop r op).
Proof.
  intros Hr. destruct op; cbn [run_rop];
    [by apply (rinv_same r)|by apply (rinv_same r)|by apply rinv_open|by apply rinv_accept|
     by apply rinv_launch|by apply rinv_write|by apply rinv_handleConn|by apply rinv_received|
     by apply rinv_remove|by apply (rinv_same r)|by apply rinv_stop].
Qed.

Lemma rinv_new si : rinv (NewRouter si).
Proof. split; [done|apply NoDup_nil_2|apply Forall_nil_2|done|done]. Qed.
Lemma rinv_ops ops r : rinv r → rinv (foldl run_rop r ops).
Proof. revert r. induction ops as [|op ops IH]; intros r Hr; [done|]. apply IH, rinv_op, Hr. Qed.

(** ** Methods as sequences of steps *)

Definition steps : relation Router := λ r r', ∃ ops, r' = foldl run_rop r ops.
#[global] Instance steps_preorder : PreOrder steps.
Proof.
  split; [intros r; by exists []|]. intros r1 r2 r3 [l1 ->] [l2 ->].
  exists (l1 ++ l2). by rewrite foldl_app.
Qed.
Lemma steps_op r op : steps r (run_rop r op).
Proof. by exists [op]. Qed.

Lemma steps_attempt c : preserves steps c → preserves steps (attempt c).
Proof. intros Hc r. specialize (Hc r). unfold attempt. by destruct (c r) as [[] ?]. Qed.

(** The registration and the start of the goroutine by the one who registered. *)
Lemma steps_launch dst c r l :
  starting r = l ++ [(dst, c)] → steps r (launchHandleRoutine dst c r).2.
Proof.
  intros Hs. pose proof (steps_op r (RLaunch (length l))) as Hl. cbn [run_rop] in Hl.
  unfold launch in Hl. by rewrite Hs, list_lookup_middle in Hl by done.
Qed.

(** What [connect] leaves. *)
Definition connected (si : ServerIdentity) (r : Router) (res : outcome error nat * Router) : Prop :=
  match res with
  | (Ret c, r') => isClosed r = false ∧ c = next_conn r ∧ ∃ k st,
      r' = set_conns (set_io r (Datatypes.S c) k (wire r ++ [(c, identity (own r))]))
             (<[Network.ID si := conns_of r (Network.ID si) ++ [c]]> (connections r))
             st (handling r ++ [(si, c)]) (ending r)
  | (Err _, r') => ∃ n k w, (next_conn r ≤ n)%nat ∧ r' = set_io r n k w ∧
      (w = wire r ∨ isClosed r = true ∧ w = wire r ++ [(next_conn r, identity (own r))])
  | _ => False
  end.

Lemma connect_connected si r : connected si r (connect si r) ∧ steps r (connect si r).2.
Proof.
  unfold connect, sbind. pose proof (open_conn_opened si r) as Ho.
  pose proof (steps_op r (ROpen si)) as H1. cbn [run_rop] in H1.
  destruct (open_conn si r) as [[c|e| |] r1]; cbn [snd] in *; [|by split|done..].
  destruct Ho as (Hcl & -> & k & ->).
  match goal with |- context [launchHandleRoutine ?d ?c ?r2] =>
    pose proof (steps_launch d c r2 _ eq_refl) as H2 end.
  unfold launchHandleRoutine in *. cbn [isClosed set_conns set_io] in *. rewrite Hcl in *.
  split; [|etrans; [exact H1|exact H2]]. split; [done|]. split; [done|]. by eexists _, _.
Qed.

Lemma steps_Send e msg : preserves steps (Send e msg).
Proof.
  destruct msg as [msg|]; [|apply preserves_throw; apply _].
  assert (∀ c, preserves steps (conn_send c msg)) as Hw by (intros c r; exact (steps_op r (RWrite c msg))).
  assert (preserves steps (connect e)) as Hcon by (intros r; apply connect_connected).
  apply preserves_get_bind. intros r0. refine (preserves_bind steps _ _ _ _ r0).
  - destruct (connection r0 _); [apply preserves_ret; apply _|exact Hcon].
  - intros c. apply preserves_bind; [apply _|by apply steps_attempt|].
    intros [err|]; [|apply preserves_ret; apply _]. by apply preserves_bind; [apply _| |].
Qed.

Lemma steps_accept first : preserves steps (accept first).
Proof.
  intros r. unfold accept, sbind at 1. pose proof (steps_op r (RAccept first)) as H1. cbn [run_rop] in H1.
  destruct (accept_conn first r) as [[[[dst c]|]|e| |] r1] eqn:Ea; cbn [snd] in *; [|done..].
  etrans; [exact H1|]. unfold sbind, attempt.
  assert (∃ l, starting r1 = l ++ [(dst, c)]) as [l Hl].
  { revert Ea. unfold accept_conn. cbn zeta. destruct (receiveServerIdentity first); [|done..].
    unfold sbind, attempt, registerConnection. destruct (isClosed _); [done|].
    intros [= <- <- <-]. by eexists. }
  pose proof (steps_launch dst c r1 l Hl) as H2. by destruct (launchHandleRoutine dst c r1) as [[] ?].
Qed.

(** C21: whatever the clients of the router and its goroutines do, in any
    interleaving of their steps, and whatever comes in, breaks, and whenever the
    router is stopped: the connections registered for a server are, each once,
    those whose goroutine is about to be started, those whose goroutine runs, those
    whose goroutine has left its loop and not removed them yet, and those whose
    goroutine was refused, of which there are none unless the router is closed; the
    goroutine that ends finds its connection registered and takes it, and no other,
    out; a closed router has only closed connections.  [Send] and [accept] are
    sequences of these steps. *)
Theorem router_connections si ops :
  let r := foldl run_rop (NewRouter si) ops in
  (∀ id, conns_of r id ≡ₚ
     (filter (λ h, Network.ID h.1 = id) (starting r ++ handling r ++ ending r ++ refused r)).*2) ∧
  NoDup (starting r ++ handling r ++ ending r ++ refused r).*2 ∧
  (isClosed r = false → refused r = []) ∧
  (∀ i remote c, ending r !! i = Some (remote, c) →
     ∃ arr, removeConnection remote c r =
       set_conns r (<[Network.ID remote := arr]> (connections r)) (starting r) (handling r) (ending r) ∧
       arr ++ [c] ≡ₚ conns_of r (Network.ID remote)) ∧
  (∀ id c, isClosed r = true → c ∈ conns_of r id → c ∈ closed_conns r) ∧
  (∀ e msg, steps r (Send e msg r).2) ∧ (∀ first, steps r (accept first r).2).
Proof.
  cbn zeta. pose proof (rinv_ops ops (NewRouter si) (rinv_new si)) as Hr.
  revert Hr. generalize (foldl run_rop (NewRouter si) ops) as r. intros r Hr.
  split; [apply Hr|]. split; [apply Hr|]. split; [apply Hr|]. split; [|split; [by apply inv_closed|]].
  - intros i remote c Hi. destruct (rinv_goroutine r remote c Hr) as [Hin Hnd].
    { rewrite pool_delete_ending by done. by left. }
    by apply removeConnection_spec.
  - split; [intros e msg; apply steps_Send|intros first; apply steps_accept].
Qed.

(** ** Traffic *)

(** The connections of the map are those of the goroutines. *)
Lemma concat_by_key {A} (f : A → UUID) (g : A → nat) : ∀ (l : list (UUID * list nat)) (p : list A),
  NoDup l.*1 → (∀ k cs, (k, cs) ∈ l → cs ≡ₚ g <$> filter (λ h, f h = k) p) → (∀ h, h ∈ p → f h ∈ l.*1) →
  mjoin l.*2 ≡ₚ g <$> p.
Proof.
  induction l as [|[k cs] l IH]; intros p Hnd Hl Hp; cbn [fmap list_fmap fst snd] in *.
  - destruct p as [|h p]; [done|]. exfalso. apply (not_elem_of_nil (f h)), Hp. by left.
  - apply NoDup_cons in Hnd as [Hk Hnd]. change (mjoin (cs :: l.*2)) with (cs ++ mjoin l.*2).
    assert (filter (λ h, f h = k) p ++ filter (λ h, f h ≠ k) p ≡ₚ p) as Hs.
    { clear. induction p as [|h p IH]; [done|]. rewrite !filter_cons. destruct (decide (f h = k)) as [E|E].
      - rewrite decide_False by auto. cbn. by rewrite IH.
      - rewrite decide_True by done. rewrite <-Permutation_middle. by rewrite IH. }
    rewrite (Hl k cs) by (by left). rewrite <-Hs at 2. rewrite fmap_app. f_equiv. apply IH; [done|..].
    + intros k' cs' Hin. rewrite (Hl k' cs') by (by right). f_equiv. rewrite list_filter_filter.
      apply reflexive_eq, list_filter_iff. intros h. split; [|tauto]. intros ->. split; [done|].
      intros ->. apply Hk. apply list_elem_of_fmap. by exists (k, cs').
    + intros h [Hh Hin]%list_elem_of_filter. specialize (Hp h Hin). by apply elem_of_cons in Hp as [?|?].
Qed.

Lemma registered r : rinv r → mjoin (map_to_list (connections r)).*2 ≡ₚ (pool r).*2.
Proof.
  intros Hr. apply (concat_by_key (λ h, Network.ID h.1)).
  - apply NoDup_fst_map_to_list.
  - intros k cs Hin%elem_of_map_to_list. rewrite <-(inv_conns r Hr k). unfold conns_of. by rewrite Hin.
  - intros [remote c] Hin. destruct (rinv_goroutine r remote c Hr Hin) as [Hc _]. unfold conns_of in Hc. cbn.
    destruct (connections r !! Network.ID remote) as [cs|] eqn:E; [|by apply elem_of_nil in Hc].
    apply list_elem_of_fmap. exists (Network.ID remote, cs). split; [done|]. by apply elem_of_map_to_list.
Qed.

(** Sums in 64 bits. *)
Fixpoint sum_of (f : nat → Z) (l : list nat) : Z :=
  match l with [] => 0 | c :: l => f c + sum_of f l end.
#[global] Instance sum_of_perm f : Proper ((≡ₚ) ==> eq) (sum_of f).
Proof. intros l l' Hp. induction Hp; cbn; [done|lia|lia|congruence]. Qed.
Lemma sum_of_app f l l' : sum_of f (l ++ l') = sum_of f l + sum_of f l'.
Proof. induction l; cbn; [done|lia]. Qed.
Lemma sum_of_ext f g l : (∀ c, c ∈ l → f c = g c) → sum_of f l = sum_of g l.
Proof.
  induction l as [|c l IH]; intros Heq; [done|]. cbn. rewrite (Heq c) by (by left).
  rewrite IH; [done|]. intros c' Hc. apply Heq. by right.
Qed.
Lemma mod64 a b a' : a mod 2 ^ 64 = a' mod 2 ^ 64 → (a + b) mod 2 ^ 64 = (a' + b) mod 2 ^ 64.
Proof. intros Heq. rewrite <-Zplus_mod_idemp_l, Heq. apply Zplus_mod_idemp_l. Qed.

Lemma arr_sum (f : nat → Z) arr : ∀ tx, foldl (λ tx c, (tx + f c) mod 2 ^ 64) tx arr mod 2 ^ 64 = (tx + sum_of f arr) mod 2 ^ 64.
Proof.
  induction arr as [|c arr IH]; intros tx; cbn [foldl sum_of]; [by rewrite Z.add_0_r|].
  rewrite IH, Z.add_assoc. apply mod64, Zmod_mod.
Qed.

Lemma map_sum (f : nat → Z) (m : gmap UUID (list nat)) :
  map_fold (λ _ arr tx, foldl (λ tx c, (tx + f c) mod 2 ^ 64) tx arr) 0 m mod 2 ^ 64 =
  sum_of f (mjoin (map_to_list m).*2) mod 2 ^ 64.
Proof.
  rewrite map_fold_foldr. induction (map_to_list m) as [|[k arr] l IH]; [done|]. cbn [foldr uncurry fmap list_fmap snd].
  rewrite arr_sum. change (mjoin (arr :: l.*2)) with (arr ++ mjoin l.*2). rewrite sum_of_app, (Z.add_comm (sum_of f arr)).
  by apply mod64.
Qed.

Lemma Tx_sum r : rinv r → Tx r = (sum_of (conn_Tx r) (pool r).*2 + (traffic r).1) mod 2 ^ 64.
Proof. intros Hr. unfold Tx. apply mod64. by rewrite map_sum, registered. Qed.
Lemma Rx_sum r : rinv r → Rx r = (sum_of (conn_Rx r) (pool r).*2 + (traffic r).2) mod 2 ^ 64.
Proof. intros Hr. unfold Rx. apply mod64. by rewrite map_sum, registered. Qed.

(** The counters the router keeps are those of the connections that have ended,
    each once; [ended] have been removed. *)
Record accounted (ended : list nat) (r : Router) : Prop := {
  acc_nodup : NoDup (ended ++ (pool r).*2);
  acc_fresh : Forall (λ c, (c < next_conn r)%nat) ended;
  acc_closed c : c ∈ ended ++ (ending r).*2 → c ∈ closed_conns r;
  acc_tx : (traffic r).1 = sum_of (conn_Tx r) (ended ++ (ending r).*2) mod 2 ^ 64;
  acc_rx : (traffic r).2 = sum_of (conn_Rx r) (ended ++ (ending r).*2) mod 2 ^ 64;
}.

(** Steps after which goroutines have moved, or new ones are there. *)
Lemma accounted_moved ended r r' :
  accounted ended r → rinv r' → counters r' = counters r → traffic r' = traffic r → ending r' = ending r →
  closed_conns r ⊆ closed_conns r' → (next_conn r ≤ next_conn r')%nat →
  (∀ c, c ∈ (pool r').*2 → c ∈ (pool r).*2 ∨ (next_conn r ≤ c)%nat) → accounted ended r'.
Proof.
  intros [Hn Hf Hc Ht Hx] Hr Ec Et Ee Hs Hl Hp. apply NoDup_app in Hn as (He & Hd & _). split.
  - apply NoDup_app. split; [done|]. split; [|apply Hr]. intros c Hin Hin'.
    destruct (Hp c Hin') as [Hp'|Hp']; [by apply (Hd c Hin)|].
    rewrite Forall_forall in Hf. specialize (Hf c Hin). cbn in Hf. lia.
  - eapply Forall_impl; [exact Hf|]. cbn. lia.
  - rewrite Ee. intros c Hin. apply Hs. by apply Hc.
  - rewrite Et, Ee, Ht. unfold conn_Tx. by rewrite Ec.
  - rewrite Et, Ee, Hx. unfold conn_Rx. by rewrite Ec.
Qed.

Lemma sum_kept f l c s : s = sum_of f l mod 2 ^ 64 → (s + f c) mod 2 ^ 64 = sum_of f (l ++ [c]) mod 2 ^ 64.
Proof. intros ->. rewrite sum_of_app. cbn [sum_of]. rewrite Z.add_0_r. apply mod64, Zmod_mod. Qed.

Lemma accounted_exit ended i remote c r :
  rinv r → handling r !! i = Some (remote, c) → accounted ended r → accounted ended (handle_exit i remote c r).
Proof.
  intros Hr Hi [Hn Hf Hc Ht Hx]. split; [|exact Hf|..].
  - by rewrite pool_exit.
  - cbn. rewrite fmap_app. set_solver.
  - cbn [ending handle_exit set_conns]. rewrite fmap_app, app_assoc. exact (sum_kept _ _ _ _ Ht).
  - cbn [ending handle_exit set_conns]. rewrite fmap_app, app_assoc. exact (sum_kept _ _ _ _ Hx).
Qed.

Lemma accounted_remove ended i r :
  rinv r → accounted ended r → ∃ ended', accounted ended' (handle_remove i r).
Proof.
  intros Hr Ha. unfold handle_remove. destruct (ending r !! i) as [[remote c]|] eqn:Hi; [|by exists ended].
  set (r1 := set_conns r _ _ _ _). pose proof (pool_delete_ending _ _ _ _ Hi) as Hp.
  destruct (rinv_goroutine r remote c Hr) as [Hin Hnd]; [rewrite Hp; by left|].
  destruct (removeConnection_spec remote c r1 Hin Hnd) as (arr & -> & _).
  assert (ended ++ (ending r).*2 ≡ₚ (c :: ended) ++ (delete i (ending r)).*2) as Hq.
  { rewrite (delete_Permutation _ _ _ Hi) at 1. cbn. by rewrite <-Permutation_middle. }
  destruct Ha as [Hn Hf Hc Ht Hx]. exists (c :: ended). split.
  - rewrite Hp in Hn. cbn in Hn. by rewrite <-Permutation_middle in Hn.
  - constructor; [|exact Hf]. pose proof (inv_fresh r Hr) as Hl. rewrite Hp in Hl. by apply Forall_cons in Hl as [Hl _].
  - intros c' Hin'. apply Hc. by rewrite Hq.
  - etrans; [exact Ht|]. by rewrite Hq.
  - etrans; [exact Hx|]. by rewrite Hq.
Qed.

Lemma accounted_count ended c tx rx r :
  c ∉ closed_conns r → accounted ended r → accounted ended (conn_count c tx rx r).
Proof.
  intros Hn [Hd Hf Hc Ht Hx].
  assert (∀ c', c' ∈ ended ++ (ending r).*2 → counters (conn_count c tx rx r) !! c' = counters r !! c') as Heq.
  { intros c' Hin. apply lookup_insert_ne. intros ->. by apply Hn, Hc. }
  split; [exact Hd|exact Hf|exact Hc|..]; cbn [ending traffic conn_count set_traffic].
  - rewrite Ht. f_equal. apply sum_of_ext. intros c' Hin. unfold conn_Tx. by rewrite (Heq c' Hin).
  - rewrite Hx. f_equal. apply sum_of_ext. intros c' Hin. unfold conn_Rx. by rewrite (Heq c' Hin).
Qed.

(** Steps that leave connections and counters alone. *)
Lemma accounted_same ended r r' :
  rinv r → accounted ended r → connections r' = connections r → counters r' = counters r →
  traffic r' = traffic r → starting r' = starting r → handling r' = handling r → ending r' = ending r →
  refused r' = refused r → isClosed r' = isClosed r →
  closed_conns r' = closed_conns r → next_conn r' = next_conn r → accounted ended r'.
Proof.
  intros Hr Ha Ecs Ec Et Es Eh Ee Er Ei Ecl En.
  assert (rinv r') as Hr' by (apply (rinv_same r); rewrite ?Ecl, ?En; done).
  eapply accounted_moved; [exact Ha|exact Hr'|done..|by rewrite Ecl|by rewrite En|].
  unfold pool. rewrite Es, Eh, Ee, Er. by left.
Qed.

Lemma accounted_handleConn ended i received r :
  rinv r → accounted ended r → accounted ended (handleConn i received r).
Proof.
  intros Hr Ha. unfold handleConn. destruct (handling r !! i) as [[remote c]|] eqn:Hi; [|done].
  destruct (checked r !! c); [done|]. destruct (isClosed r); [by apply accounted_exit|].
  by apply (accounted_same ended r).
Qed.

Lemma accounted_received ended i r :
  rinv r → accounted ended r → accounted ended (handle_received i r).
Proof.
  intros Hr Ha. unfold handle_received. destruct (handling r !! i) as [[remote c]|] eqn:Hi; [|done].
  destruct (checked r !! c) as [received|]; [|done]. cbn zeta. set (r1 := set_goroutines _ _ _ _).
  assert (accounted ended r1) as Ha1 by by apply (accounted_same ended r).
  assert (rinv r1) as Hr1 by by apply (rinv_same r).
  assert (accounted ended (handle_exit i remote c (triggerConnectionErrorHandlers remote r1))) as He.
  { apply accounted_exit; [by apply (rinv_same r1)|done|by apply (accounted_same ended r1)]. }
  destruct received as [m| | |e]; [|done..]. unfold dispatch, Dispatch.BlockingDispatch.
  destruct (procs _ !! _); [by apply (accounted_same ended r1)|done].
Qed.

(** The new connections of [open_conn] and [accept_conn]. *)
Lemma pool_registered r si n c :
  c ∈ ((starting r ++ [(si, n)]) ++ handling r ++ ending r ++ refused r).*2 → c ∈ (pool r).*2 ∨ (n <= c)%nat.
Proof.
  unfold pool. rewrite !fmap_app, !elem_of_app. cbn. rewrite list_elem_of_singleton.
  intros [[Hin| ->]|Hin]; auto.
Qed.

Lemma accounted_open ended si r : rinv r → accounted ended r → accounted ended (open_conn si r).2.
Proof.
  intros Hr Ha. pose proof (rinv_open si r Hr) as Hr'. pose proof (open_conn_opened si r) as Hc.
  destruct (open_conn si r) as [[c|e| |] r']; cbn [snd opened] in *; [|..|done|done].
  - destruct Hc as (_ & -> & k & ->). eapply accounted_moved; [exact Ha|exact Hr'|done..|cbn; lia|].
    exact (pool_registered r si (next_conn r)).
  - destruct Hc as (n & k & w & Hn & -> & _). eapply accounted_moved; [exact Ha|exact Hr'|done..|]. by left.
Qed.

Lemma accounted_accept ended first r : rinv r → accounted ended r → accounted ended (accept_conn first r).2.
Proof.
  intros Hr Ha. pose proof (rinv_accept first r Hr) as Hr'. revert Hr'. unfold accept_conn. cbn zeta.
  destruct (receiveServerIdentity first) as [dst|e| |]; cbn [snd]; intros Hr';
    try (eapply accounted_moved; [exact Ha|exact Hr'|done..|cbn; set_solver|cbn; lia|by left]).
  revert Hr'. unfold sbind, attempt, registerConnection. destruct (isClosed _) eqn:Ec; cbn [snd]; intros Hr';
    (eapply accounted_moved; [exact Ha|exact Hr'|done..|cbn; lia|]); [by left|].
  exact (pool_registered r dst (next_conn r)).
Qed.

Lemma accounted_op ended op r :
  rinv r → accounted ended r → (∀ c tx rx, op = RCount c tx rx → c ∉ closed_conns r) →
  ∃ ended', accounted ended' (run_rop r op).
Proof.
  intros Hr Ha Hc. pose proof (rinv_op r op Hr) as Hr'.
  destruct op as [q types|h|si|first|i|c msg|i received|i|i|c tx rx|]; cbn [run_rop] in *.
  - exists ended. eapply accounted_moved; [exact Ha|exact Hr'|done..|]. by left.
  - exists ended. eapply accounted_moved; [exact Ha|exact Hr'|done..|]. by left.
  - exists ended. by apply accounted_open.
  - exists ended. by apply accounted_accept.
  - exists ended. revert Hr'. unfold launch. destruct (starting r !! i) as [[dst c]|] eqn:Hi; [|done].
    pose proof (starting_filter r i dst c Hr Hi) as Hp.
    unfold launchHandleRoutine. destruct (isClosed r); intros Hr';
      (eapply accounted_moved; [exact Ha|exact Hr'|done..|]); intros c'; unfold pool; cbn;
      rewrite Hp at 2; rewrite !fmap_app; cbn; set_solver.
  - exists ended. revert Hr'. pose proof (conn_send_eq c msg r) as Hs.
    destruct (conn_send c msg r) as [[u|e| |] r']; cbn in *; [subst r'..|done|done]; intros Hr';
      (eapply accounted_moved; [exact Ha|exact Hr'|done..|]; by left).
  - exists ended. by apply accounted_handleConn.
  - exists ended. by apply accounted_received.
  - by apply (accounted_remove ended).
  - exists ended. by eapply accounted_count, Ha; eauto.
  - exists ended. eapply accounted_moved; [exact Ha|exact Hr'|done..| |done|by left]. cbn. set_solver.
Qed.

(** A connection counts nothing once it is closed. *)
Fixpoint counts_while_open (r : Router) (ops : list ROp) : bool :=
  match ops with
  | [] => true
  | op :: ops =>
      match op with RCount c _ _ => bool_decide (c ∉ closed_conns r) | _ => true end &&
      counts_while_open (run_rop r op) ops
  end.

Lemma accounted_ops ops : ∀ r ended, rinv r → accounted ended r → counts_while_open r ops = true →
  ∃ ended', accounted ended' (foldl run_rop r ops).
Proof.
  induction ops as [|op ops IH]; intros r ended Hr Ha Hc; [by exists ended|].
  cbn [counts_while_open] in Hc. apply andb_true_iff in Hc as [Hop Hc].
  destruct (accounted_op ended op r Hr Ha) as [ended' Ha'].
  { intros c tx rx ->. by apply bool_decide_eq_true in Hop. }
  apply (IH _ ended'); [by apply rinv_op|done|done].
Qed.

(** The traffic of a router, in 64 bits, when connections count nothing after
    they are closed: all that the connections counted whose goroutine has ended,
    [ended], each once, and what the registered ones say.  But a connection whose
    goroutine has left its loop and not removed it yet is counted twice: between
    the two steps the sums are too high, and the removal lowers them. *)
Theorem router_traffic si ops :
  counts_while_open (NewRouter si) ops = true →
  let r := foldl run_rop (NewRouter si) ops in
  ∃ ended, NoDup (ended ++ (pool r).*2) ∧ (∀ c, c ∈ ended → c ∈ closed_conns r) ∧
    Tx r = (sum_of (conn_Tx r) (ended ++ (pool r).*2) + sum_of (conn_Tx r) (ending r).*2) mod 2 ^ 64 ∧
    Rx r = (sum_of (conn_Rx r) (ended ++ (pool r).*2) + sum_of (conn_Rx r) (ending r).*2) mod 2 ^ 64.
Proof.
  intros Hc. cbn zeta. pose proof (rinv_ops ops (NewRouter si) (rinv_new si)) as Hr.
  destruct (accounted_ops ops (NewRouter si) [] (rinv_new si)) as [ended [Hn _ Hcl Ht Hx]]; [|done|].
  { split; [apply NoDup_nil_2|apply Forall_nil_2|by intros c ?%elem_of_nil|done|done]. }
  exists ended. split; [exact Hn|]. split; [intros c Hin; apply Hcl; set_solver|].
  rewrite Tx_sum, Rx_sum by exact Hr. rewrite Ht, Hx, !Zplus_mod_idemp_r, !sum_of_app.
  split; f_equal; lia.
Qed.

(** ** Sending *)

Definition identities (r : Router) (l : list (nat * Msg)) : Prop := Forall (λ x, x.2 = identity (own r)) l.

(** [r'] comes from [r] by new connections; [w] was written. *)
Record extends (r r' : Router) (w : list (nat * Msg)) : Prop := {
  ext_own : own r' = own r;
  ext_closed : isClosed r' = isClosed r;
  ext_wire : wire r' = wire r ++ w;
  ext_conns id : conns_of r id `prefix_of` conns_of r' id;
  ext_stopped : isClosed r = true → connections r' = connections r;
}.

Lemma extends_trans r1 r2 r3 w w' : extends r1 r2 w → extends r2 r3 w' → extends r1 r3 (w ++ w').
Proof.
  intros [] []. split; [congruence|congruence| |intros id; etrans; [apply ext_conns0|apply ext_conns1]|intros Hc; rewrite ext_stopped1; [auto|congruence]].
  rewrite ext_wire1, ext_wire0. by rewrite app_assoc.
Qed.

Lemma extends_connect si r :
  ∃ w, identities r w ∧ extends r (connect si r).2 w ∧
  match (connect si r).1 with
  | Ret c => c ∈ conns_of (connect si r).2 (Network.ID si) ∧ isClosed r = false
  | Err _ => True
  | _ => False
  end.
Proof.
  destruct (connect_connected si r) as [Hc _]. destruct (connect si r) as [[c|e| |] r'];
    cbn in *; [..|done|done].
  - destruct Hc as (Ho & -> & k & st & ->). exists [(next_conn r, identity (own r))].
    split; [by apply Forall_singleton|]. split; [|split; [|done]].
    + split; try done.
      * intros id. rewrite conns_of_set. case_decide as E; [|done].
        subst id. by eexists.
      * intros Hcl. congruence.
    + rewrite conns_of_set, decide_True by done. set_solver.
  - destruct Hc as (n & k & w & Hn & -> & [->|[Ho ->]]).
    + exists []. split; [apply Forall_nil_2|]. split; [|done]. split; try done. by rewrite app_nil_r.
    + exists [(next_conn r, identity (own r))]. split; [by apply Forall_singleton|]. by split.
Qed.

Lemma extends_send c m r :
  match conn_send c m r with
  | (Ret _, r') => extends r r' [(c, m)]
  | (Err _, r') => extends r r' []
  | _ => False
  end.
Proof.
  pose proof (conn_send_eq c m r) as Hs. destruct (conn_send c m r) as [[u|e| |] r']; [subst r'..|done|done];
    split; try done. cbn. by rewrite app_nil_r.
Qed.

(** The message is the last thing written, on a connection to the server; before
    it only our identity on new connections. *)
Definition sent_once (e : ServerIdentity) (msg : Msg) (r : Router) (res : outcome error unit * Router) : Prop :=
  ∃ pre, identities r pre ∧
  match res with
  | (Ret _, r') => ∃ c, c ∈ conns_of r' (Network.ID e) ∧ extends r r' (pre ++ [(c, msg)])
  | (Err _, r') => extends r r' pre
  | _ => False
  end.

Lemma conns_extend r r' w c id : extends r r' w → c ∈ conns_of r id → c ∈ conns_of r' id.
Proof. intros [_ _ _ Hp _] Hc. destruct (Hp id) as [l ->]. set_solver. Qed.

Lemma sent_last e msg r r1 w c :
  identities r w → extends r r1 w → c ∈ conns_of r1 (Network.ID e) →
  sent_once e msg r (conn_send c msg r1).
Proof.
  intros Hw He Hc. exists w. split; [done|]. pose proof (extends_send c msg r1) as Hs.
  destruct (conn_send c msg r1) as [[u|err| |] r']; [|..|done|done].
  - exists c. split; [by eapply conns_extend|]. by eapply extends_trans.
  - rewrite <-(app_nil_r w). by eapply extends_trans.
Qed.

Lemma send_on e msg r r1 w c :
  identities r w → extends r r1 w → c ∈ conns_of r1 (Network.ID e) →
  sent_once e msg r ((do! err := attempt (conn_send c msg) in
    match err with
    | None => sret tt
    | Some _ => do! c := connect e in conn_send c msg
    end) r1).
Proof.
  intros Hw He Hc. unfold sbind at 1, attempt. pose proof (extends_send c msg r1) as Hs.
  destruct (conn_send c msg r1) as [[u|err| |] r2]; [|..|done|done].
  - exists w. split; [done|]. exists c. split; [by eapply conns_extend|]. by eapply extends_trans.
  - unfold sbind. destruct (extends_connect e r2) as (w2 & Hw2 & He2 & Hr).
    pose proof (extends_trans _ _ _ _ _ (extends_trans _ _ _ _ _ He Hs) He2) as He3.
    assert (identities r ((w ++ []) ++ w2)) as Hw3.
    { apply Forall_app. split; [by rewrite app_nil_r|]. unfold identities in *.
      by rewrite (ext_own _ _ _ Hs), (ext_own _ _ _ He) in Hw2. }
    destruct (connect e r2) as [[c'|err'| |] r3]; cbn in *; [|..|done|done].
    + destruct Hr as [Hr _]. exact (sent_last e msg r r3 _ c' Hw3 He3 Hr).
    + by exists ((w ++ []) ++ w2).
Qed.

(** C22: [Send] returns; without an error the message was written exactly once,
    last, on a connection registered for the server it is for, and with an error
    it was not written; besides, only our identity goes out on new connections.
    No connection is lost; a router that is closed registers none, and a send to a
    server it has no connection registered for fails.  Nil is refused. *)
Theorem send_correct e msg r :
  sent_once e msg r (Send e (Some msg) r) ∧
  (isClosed r = true → connections (Send e (Some msg) r).2 = connections r ∧
     (conns_of r (Network.ID e) = [] → is_ret (Send e (Some msg) r).1 = false)) ∧
  Send e None r = (Err "Can't send nil-packet", r).
Proof.
  assert (sent_once e msg r (Send e (Some msg) r)) as Hs.
  { unfold Send. unfold sbind at 1, sget. unfold sbind at 1.
    destruct (connection r (Network.ID e)) as [c|] eqn:Ec.
    - cbn [sret]. apply (send_on e msg r r []); [apply Forall_nil_2|split; try done; by rewrite app_nil_r|].
      unfold connection in Ec. destruct (conns_of r _); [done|]. injection Ec as ->. by left.
    - destruct (extends_connect e r) as (w & Hw & He & Hr).
      destruct (connect e r) as [[c|err| |] r1]; cbn in *; [|..|done|done].
      + destruct Hr as [Hc _]. by eapply send_on.
      + by exists w. }
  split; [exact Hs|]. split; [|done]. intros Hcl. destruct Hs as (pre & _ & Hm).
  destruct (Send e (Some msg) r) as [[u|err| |] r'] eqn:Es; [|..|done|done].
  - destruct Hm as (c & Hc & [_ _ _ _ Hst]). specialize (Hst Hcl). split; [done|]. intros Hnil.
    unfold conns_of in Hc. cbn in Hst. rewrite Hst in Hc. fold (conns_of r (Network.ID e)) in Hc.
    rewrite Hnil in Hc. by apply elem_of_nil in Hc.
  - split; [by apply Hm|done].
Qed.

(** ** Stopping *)

(** The packets goroutines have received and not yet dispatched, after they found
    the router open. *)
Definition packet_in_hand (ch : gmap nat Received) (h : ServerIdentity * nat) : option (ServerIdentity * Msg) :=
  match ch !! h.2 with Some (RPacket m) => Some (h.1, m) | _ => None end.
Definition in_hand (r : Router) : list (ServerIdentity * Msg) :=
  omap (packet_in_hand (checked r)) (handling r).

(** What a processor was given. *)
Definition handed (d : nat * ServerIdentity * Msg) : ServerIdentity * Msg := (d.1.2, d.2).

(** A closed router starts no goroutine, and delivers only what is in hand. *)
Definition closes : relation Router := λ r r', rinv r → isClosed r = true →
  rinv r' ∧ isClosed r' = true ∧ (length (handling r') ≤ length (handling r))%nat ∧
  ∃ l, delivered r' = delivered r ++ l ∧ (handed <$> l) ++ in_hand r' ⊆+ in_hand r.
#[global] Instance closes_preorder : PreOrder closes.
Proof.
  split.
  - intros r Hr Hc. split; [done|]. split; [done|]. split; [done|].
    exists []. by rewrite app_nil_r.
  - intros r1 r2 r3 H1 H2 Hr Hc. destruct (H1 Hr Hc) as (Hr2 & Hc2 & Hl & l & Hd & Hs).
    destruct (H2 Hr2 Hc2) as (Hr3 & Hc3 & Hl3 & l3 & Hd3 & Hs3).
    split; [done|]. split; [done|]. split; [lia|]. exists (l ++ l3).
    rewrite Hd3, Hd, <-app_assoc. split; [done|]. rewrite fmap_app, <-app_assoc.
    etrans; [|exact Hs]. by apply submseteq_skips_l.
Qed.

(** Steps that leave the goroutines and what is delivered alone. *)
Lemma closes_same r r' :
  (rinv r → rinv r') → (isClosed r = true → isClosed r' = true) → handling r' = handling r →
  checked r' = checked r → delivered r' = delivered r → closes r r'.
Proof.
  intros Hr Hc Hh Hk Hd HI HC. split; [auto|]. split; [auto|]. rewrite Hh. split; [done|].
  exists []. rewrite Hd, app_nil_r. split; [done|]. unfold in_hand. by rewrite Hh, Hk.
Qed.

Lemma in_hand_delete r i h : handling r !! i = Some h →
  omap (packet_in_hand (checked r)) (delete i (handling r)) ⊆+ in_hand r.
Proof.
  intros Hi. unfold in_hand. rewrite (delete_Permutation _ _ _ Hi) at 2. cbn.
  destruct (packet_in_hand _ h); [by apply submseteq_cons|done].
Qed.

Lemma closes_exit i remote c r :
  handling r !! i = Some (remote, c) → closes r (handle_exit i remote c r).
Proof.
  intros Hi Hr Hc. split; [by apply rinv_exit|]. split; [done|]. split.
  - cbn. rewrite length_delete by by eexists. lia.
  - exists []. split; [by rewrite app_nil_r|]. by apply (in_hand_delete _ _ _ Hi).
Qed.

(** When a goroutine goes on, it has nothing in hand any more. *)
Lemma in_hand_proceed r i remote c received :
  rinv r → handling r !! i = Some (remote, c) → checked r !! c = Some received →
  in_hand r ≡ₚ (match received with RPacket m => [(remote, m)] | _ => [] end) ++
    in_hand (set_goroutines r (starting r) (refused r) (delete c (checked r))).
Proof.
  intros [_ Hd _ _ _] Hi Hk. unfold in_hand. cbn [checked handling set_goroutines].
  pose proof (delete_Permutation _ _ _ Hi) as Hp.
  assert (c ∉ (delete i (handling r)).*2) as Hn.
  { unfold pool in Hd. rewrite !fmap_app in Hd. apply NoDup_app in Hd as (_ & _ & Hd).
    apply NoDup_app in Hd as [Hd _]. rewrite Hp in Hd. by apply NoDup_cons in Hd as [Hd _]. }
  assert (packet_in_hand (delete c (checked r)) (remote, c) = None) as H0
    by (unfold packet_in_hand; cbn [snd]; by rewrite lookup_delete_eq).
  assert (packet_in_hand (checked r) (remote, c) =
    match received with RPacket m => Some (remote, m) | _ => None end) as H1
    by (unfold packet_in_hand; cbn [fst snd]; by rewrite Hk).
  rewrite Hp. cbn [omap list_omap]. rewrite H0, H1.
  assert (omap (packet_in_hand (delete c (checked r))) (delete i (handling r)) =
          omap (packet_in_hand (checked r)) (delete i (handling r))) as ->; [|by destruct received].
  revert Hn. generalize (delete i (handling r)) as l. induction l as [|h l IH]; [done|].
  intros [Hh Hl]%not_elem_of_cons. cbn. rewrite IH by done.
  unfold packet_in_hand at 1. rewrite lookup_delete_ne by done. done.
Qed.

Lemma closes_received i r : closes r (handle_received i r).
Proof.
  intros Hr Hc. pose proof (rinv_received i r Hr) as Hr'. revert Hr'. unfold handle_received.
  destruct (handling r !! i) as [[remote c]|] eqn:Hi; [|intros; by apply (PreOrder_Reflexive (R := closes))].
  destruct (checked r !! c) as [received|] eqn:Hk; [|intros; by apply (PreOrder_Reflexive (R := closes))].
  cbn zeta. pose proof (in_hand_proceed r i remote c received Hr Hi Hk) as Hp. revert Hp.
  set (r1 := set_goroutines _ _ _ _). intros Hp Hr'. split; [exact Hr'|].
  destruct received as [m| | |e].
  2-3: split; [done|]; split; [cbn; rewrite length_delete by (by eexists); lia|];
    exists []; split; [by rewrite app_nil_r|]; rewrite Hp;
    by apply (in_hand_delete (triggerConnectionErrorHandlers remote r1) i (remote, c)).
  - unfold dispatch, Dispatch.BlockingDispatch. destruct (procs _ !! _) as [q|]; cbn [snd deliver].
    + split; [done|]. split; [done|]. exists [(q, remote, m)]. split; [done|]. cbn. rewrite Hp. done.
    + split; [done|]. split; [done|]. exists []. split; [by rewrite app_nil_r|]. cbn. rewrite Hp.
      by apply submseteq_cons.
  - split; [done|]. split; [done|]. exists []. split; [by rewrite app_nil_r|]. cbn. by rewrite Hp.
Qed.

Lemma closes_open si r : closes r (open_conn si r).2.
Proof.
  intros Hr Hc. pose proof (open_conn_opened si r) as Ho. pose proof (rinv_open si r Hr) as Hr'.
  revert Hr Hc. apply closes_same; [done|..];
    (destruct (open_conn si r) as [[c|e| |] r']; cbn in *;
     [by destruct Ho as (_ & _ & k & ->)|by destruct Ho as (n & k & w & _ & -> & _)|done|done]).
Qed.

Lemma handle_remove_same i r :
  isClosed (handle_remove i r) = isClosed r ∧ delivered (handle_remove i r) = delivered r ∧
  handling (handle_remove i r) = handling r ∧ checked (handle_remove i r) = checked r ∧
  starting (handle_remove i r) = starting r ∧ refused (handle_remove i r) = refused r ∧
  ending (handle_remove i r) = delete i (ending r).
Proof.
  unfold handle_remove. destruct (ending r !! i) as [[remote c]|] eqn:Hi.
  - unfold removeConnection. by destruct (last_index _ _ _ _).
  - apply lookup_ge_None in Hi. repeat split. revert i Hi. induction (ending r) as [|h l IH]; intros [|i] Hi; cbn in *; [done|done|lia|]. f_equal. apply IH. lia.
Qed.

Lemma closes_op r op : closes r (run_rop r op).
Proof.
  pose proof (rinv_op r op) as Hr.
  destruct op as [p types|h|si|first|i|c msg|i received|i|i|c tx rx|]; cbn [run_rop] in *;
    try by apply closes_same.
  - apply closes_open.
  - intros HI Hc. revert HI Hc. revert Hr. unfold accept_conn. cbn zeta.
    destruct (receiveServerIdentity first); [|by intros; apply closes_same..].
    unfold sbind, attempt, registerConnection. destruct (isClosed _) eqn:Ec; [by intros; apply closes_same|].
    intros _ _ Hc. cbn in Ec. congruence.
  - intros HI Hc. revert HI Hc. revert Hr. unfold launch. destruct (starting r !! i) as [[dst c]|]; [|by intros; apply closes_same].
    unfold launchHandleRoutine. destruct (isClosed r) eqn:Ec; [by intros; apply closes_same|].
    intros _ _ Hc. congruence.
  - pose proof (conn_send_eq c msg r) as Hs. revert Hr.
    destruct (conn_send c msg r) as [[u|e| |] r']; cbn in *; [subst r'..|done|done]; intros; by apply closes_same.
  - unfold handleConn in *. destruct (handling r !! i) as [[remote c]|] eqn:Hi; [|by apply closes_same].
    destruct (checked r !! c); [by apply closes_same|].
    destruct (isClosed r) eqn:Ec; [by apply closes_exit|]. intros _ Hc. congruence.
  - apply closes_received.
  - destruct (handle_remove_same i r) as (Hc & Hd & Hh & Hk & _). apply closes_same; [exact Hr|congruence..].
Qed.

Lemma closes_ops ops r : closes r (foldl run_rop r ops).
Proof.
  revert r. induction ops as [|op ops IH]; intros r; [reflexivity|].
  cbn. etrans; [apply closes_op|apply IH].
Qed.

(** One goroutine at least leaves when the first does what it has in hand and
    then comes back from [Receive]. *)
Definition last_round (received : Received) : list ROp := [RProceed 0; RReceive 0 received].

Lemma handleConn_closed remote c hs received r :
  isClosed r = true → handling r = (remote, c) :: hs → checked r !! c = None →
  handling (handleConn 0 received r) = hs.
Proof. intros Hc Hh Hk. unfold handleConn. by rewrite Hh; cbn; rewrite Hk, Hc; cbn; rewrite Hh. Qed.

Lemma handleConn_shorter received r :
  isClosed r = true → (length (handling (handleConn 0 received r)) ≤ length (handling r))%nat.
Proof.
  intros Hc. unfold handleConn. destruct (handling r) as [|[remote c] hs] eqn:Hh; cbn; [by rewrite Hh|].
  destruct (checked r !! c); [by rewrite Hh|]. rewrite Hc. cbn. rewrite Hh. cbn. lia.
Qed.

Lemma last_round_leaves received r :
  isClosed r = true →
  (length (handling (foldl run_rop r (last_round received))) ≤ length (handling r) - 1)%nat.
Proof.
  intros Hc. cbn [last_round foldl run_rop]. unfold handle_received.
  destruct (handling r) as [|[remote c] hs] eqn:Hh; cbn [lookup list_lookup].
  { unfold handleConn. rewrite Hh. cbn. by rewrite Hh. }
  destruct (checked r !! c) as [rec|] eqn:Hk.
  2: { rewrite (handleConn_closed remote c hs) by done. cbn. lia. }
  cbn [length]. rewrite Nat.sub_succ, Nat.sub_0_r. destruct rec as [m| | |e].
  - unfold dispatch, Dispatch.BlockingDispatch. destruct (procs _ !! _); cbn [snd deliver];
      (rewrite (handleConn_closed remote c hs); [done|done|done|apply lookup_delete_eq]).
  - etrans; [by apply handleConn_shorter|]. cbn. by rewrite Hh.
  - etrans; [by apply handleConn_shorter|]. cbn. by rewrite Hh.
  - rewrite (handleConn_closed remote c hs); [done|done|done|apply lookup_delete_eq].
Qed.

Lemma drain_goroutines results : ∀ r, rinv r → isClosed r = true →
  (length (handling r) ≤ length results)%nat →
  let r' := foldl run_rop r (results ≫= last_round) in handling r' = [] ∧ isClosed r' = true ∧ rinv r'.
Proof.
  induction results as [|res results IH]; intros r Hr Hc Hl; cbn zeta.
  - cbn. destruct (handling r); [done|cbn in Hl; lia].
  - rewrite bind_cons, foldl_app. pose proof (last_round_leaves res r Hc) as Hlen.
    destruct (closes_ops (last_round res) r Hr Hc) as (Hr2 & Hc2 & _).
    apply IH; [done|done|]. cbn in Hl. lia.
Qed.

(** The goroutines that have left remove their connections. *)
Lemma drain_ending n : ∀ r, length (ending r) = n →
  let r' := foldl run_rop r (replicate n (RRemove 0)) in
  ending r' = [] ∧ handling r' = handling r.
Proof.
  induction n as [|n IH]; intros r Hl; cbn zeta.
  - split; [by apply nil_length_inv|done].
  - cbn [replicate foldl run_rop]. destruct (handle_remove_same 0 r) as (_ & _ & Hh & _ & _ & _ & He).
    rewrite <-Hh. apply IH. rewrite He. destruct (ending r); [done|]. cbn in *. lia.
Qed.

(** C23: after [Stop], every registered connection is closed and no goroutine is
    started, whatever happens; the only messages that are still delivered are those
    a goroutine had received and not yet dispatched, each at most once.  Each
    goroutine leaves the wait group when it has done what it has in hand and its
    connection has returned from [Receive] once more, whatever that returns: when
    all have, the wait of [Stop] ends; and when the goroutines have removed their
    connections, the ones that are still registered are those whose goroutine was
    never started. *)
Theorem stop_drains si ops ops' :
  let r := foldl run_rop (NewRouter si) ops in
  let r1 := foldl run_rop (Stop r) ops' in
  isClosed r1 = true ∧ (∀ id c, c ∈ conns_of r1 id → c ∈ closed_conns r1) ∧
  (length (handling r1) ≤ length (handling r))%nat ∧
  (∃ l, delivered r1 = delivered r ++ l ∧ (handed <$> l) ++ in_hand r1 ⊆+ in_hand r) ∧
  ∀ results, length results = length (handling r1) →
    let r2 := foldl run_rop r1 (results ≫= last_round) in
    handling r2 = [] ∧
    let r3 := foldl run_rop r2 (replicate (length (ending r2)) (RRemove 0)) in
    ∀ id, conns_of r3 id ≡ₚ (filter (λ h, Network.ID h.1 = id) (starting r3 ++ refused r3)).*2.
Proof.
  cbn zeta. pose proof (rinv_ops ops (NewRouter si) (rinv_new si)) as Hr.
  revert Hr. generalize (foldl run_rop (NewRouter si) ops) as r. intros r Hr.
  destruct (closes_ops ops' (Stop r) (rinv_stop r Hr) eq_refl) as (Hr1 & Hc & Hl & Hd).
  split; [exact Hc|]. split; [intros id c; by apply inv_closed|].
  split; [exact Hl|]. split; [exact Hd|]. intros results Hlen.
  destruct (drain_goroutines results _ Hr1 Hc) as (Hh & _ & Hr2); [by rewrite Hlen|].
  split; [exact Hh|]. revert Hh Hr2. generalize (foldl run_rop (foldl run_rop (Stop r) ops') (results ≫= last_round)).
  intros r2 Hh Hr2 id. destruct (drain_ending _ _ (eq_refl (length (ending r2)))) as (He & Hh3).
  rewrite (inv_conns _ (rinv_ops (replicate (length (ending r2)) (RRemove 0)) _ Hr2) id). unfold pool at 1. by rewrite He, Hh3, Hh.
Qed.
End router.
End Routers.

(** ** Witnesses *)
Module RouterExample.
Import ZSuite TreeExample Routers.

Definition identity (si : Network.ServerIdentity) : bytes := x01 :: Network.Address si.
Definition as_identity (m : bytes) : option Network.ServerIdentity :=
  match m with x01 :: _ => Some (server 1) | _ => None end.
Definition msg_type (m : bytes) : UUID := take 1 m.

(** The third call of the network fails. *)
#[global] Instance toy_host : HostLib (Msg := bytes) :=
  {| host_Connect k _ := if (k =? 3)%nat then Some "connection refused"%string else None;
     conn_Send k _ _ := if (k =? 3)%nat then Some "broken pipe"%string else None |}.

(** We connect to a server, it connects to us, and sends a message. *)
Definition history : list (ROp (Msg := bytes)) :=
  [RRegisterProcessor 7 [[x0a]]; RAddErrorHandler 1; ROpen (server 1); RLaunch 0;
   RAccept (RPacket [x01]); RLaunch 0; RReceive 0 (RPacket [x0a; x0b]); RProceed 0].
Definition connected_twice : Router := foldl (run_rop identity as_identity msg_type) (NewRouter (server 0)) history.

Example history_conns : conns_of connected_twice (Network.ID (server 1)) = [0; 1]%nat.
Proof. by_vm. Qed.

Definition leaving : Router :=
  foldl (run_rop identity as_identity msg_type) (NewRouter (server 0)) (history ++ [RReceive 0 RClosed; RProceed 0]).
Lemma router_connections_witness :
  ∃ arr, removeConnection (server 1) 0 leaving =
      set_conns leaving (<[Network.ID (server 1) := arr]> (connections leaving))
        (starting leaving) (handling leaving) (ending leaving) ∧
    arr ++ [0%nat] ≡ₚ conns_of leaving (Network.ID (server 1)).
Proof.
  destruct (router_connections identity as_identity msg_type (server 0) (history ++ [RReceive 0 RClosed; RProceed 0]))
    as (_ & _ & _ & H & _).
  apply (H 0%nat (server 1) 0%nat). by_vm.
Defined.

Lemma send_correct_witness :
  is_ret (Send identity (server 2) (Some [x0a]) (Stop connected_twice)).1 = false.
Proof.
  destruct (send_correct identity as_identity msg_type (server 2) [x0a] (Stop connected_twice)) as (_ & H & _).
  apply H; by_vm.
Defined.

(** The router is stopped while a packet of the second connection is in hand. *)
Definition busy : list (ROp (Msg := bytes)) := history ++ [RReceive 1 (RPacket [x0a; x0c])].
Definition stopped : Router :=
  foldl (run_rop identity as_identity msg_type)
    (Stop (foldl (run_rop identity as_identity msg_type) (NewRouter (server 0)) busy))
    [RReceive 0 (RPacket [x0a; x0d]); ROpen (server 2); RProceed 0].

Lemma stop_drains_witness :
  delivered stopped = [(7%nat, server 1, [x0a; x0b]); (7%nat, server 1, [x0a; x0c])] ∧
  handling (foldl (run_rop identity as_identity msg_type) stopped (last_round RClosed)) = [].
Proof.
  split; [by_vm|].
  destruct (stop_drains identity as_identity msg_type (server 0) busy
    [RReceive 0 (RPacket [x0a; x0d]); ROpen (server 2); RProceed 0]) as (_ & _ & _ & _ & H).
  apply (H [RClosed]). by_vm.
Defined.

(** Ten bytes sent are counted twice while the connection is taken out. *)
Definition counted : list (ROp (Msg := bytes)) :=
  history ++ [RCount 0 10 3; RReceive 0 RClosed; RProceed 0].
Example counted_twice :
  Tx (foldl (run_rop identity as_identity msg_type) (NewRouter (server 0)) counted) = 20 ∧
  Tx (foldl (run_rop identity as_identity msg_type) (NewRouter (server 0)) (counted ++ [RRemove 0])) = 10.
Proof. split; by_vm. Qed.

Lemma router_traffic_witness :
  let r := foldl (run_rop identity as_identity msg_type) (NewRouter (server 0)) counted in
  ∃ ended, Tx r = (sum_of (conn_Tx r) (ended ++ (pool r).*2) + sum_of (conn_Tx r) (ending r).*2) mod 2 ^ 64.
Proof.
  destruct (router_traffic identity as_identity msg_type (server 0) counted) as (ended & _ & _ & Ht & _); [by_vm|].
  by exists ended.
Defined.
End RouterExample.
