(* ===== verification/Tcp.v ===== *)
(** * TCP connections ([imported/onet/network/tcp.go], counters of [struct.go])

    A message goes over a connection as its size in four bytes, highest first, and
    the bytes of [Marshal].  The socket is what it does: the pieces in which bytes
    arrive, with errors between them, and how much each write takes; [sent] is
    what it has taken.  A socket from which nothing arrives runs into the read
    deadline. *)
From S2P Require Import Prelude GoStrings Address Wire Suite Tree Protobuf ProtobufScalars ProtobufRoundtrip ProtobufExample NetEncoding Router.
Import Strings Addresses.
Local Open Scope Z_scope.

Module Tcp.

(** An error of the socket: its text, whether it is [io.EOF], and its answer to
    [Timeout] when it is a [net.Error]. *)
Record net_error := { text : string; is_EOF : bool; Timeout : option bool }.
Definition io_EOF : net_error := {| text := "EOF"; is_EOF := true; Timeout := None |}.
Definition io_ErrUnexpectedEOF : net_error := {| text := "unexpected EOF"; is_EOF := false; Timeout := None |}.
Definition closed_error : net_error :=
  {| text := "use of closed network connection"; is_EOF := false; Timeout := Some false |}.
Definition deadline_error : net_error := {| text := "i/o timeout"; is_EOF := false; Timeout := Some true |}.

(** The errors of the package. *)
Definition ErrClosed : error := "Connection Closed".
Definition ErrEOF : error := "EOF".
Definition ErrCanceled : error := "Operation Canceled".
Definition ErrTimeout : error := "Timeout Error".
Definition ErrUnknown : error := "Unknown Error".

Definition has (e : net_error) (sub : string) : bool := Contains (str (text e)) (str sub).

Definition handleError (e : net_error) : error :=
  if has e "use of closed" || has e "broken pipe" then ErrClosed
  else if has e "canceled" then ErrCanceled
  else if is_EOF e || has e "EOF" then ErrEOF
  else match Timeout e with
       | None => ErrUnknown
       | Some true => ErrTimeout
       | Some false => ErrUnknown
       end.

(** What arrives, and what becomes of a write. *)
Inductive incoming := IData (b : bytes) | IErr (e : net_error).
Inductive writing := WAll | WSome (n : nat) (e : option net_error).

Record TCPConn := {
  endpoint : bytes;
  arriving : list incoming;
  writes : list writing;
  sent : bytes;
  closed : bool;
  tx : Z;
  rx : Z;
}.
Abbreviation CM := (SM TCPConn error).

Definition set_arriving (c : TCPConn) (l : list incoming) : TCPConn :=
  {| endpoint := endpoint c; arriving := l; writes := writes c; sent := sent c; closed := closed c;
     tx := tx c; rx := rx c |}.
Definition set_sent (c : TCPConn) (ws : list writing) (s : bytes) : TCPConn :=
  {| endpoint := endpoint c; arriving := arriving c; writes := ws; sent := s; closed := closed c;
     tx := tx c; rx := rx c |}.

(** [counterSafe]: 64-bit counters. *)
Definition updateRx (delta : Z) (c : TCPConn) : TCPConn :=
  {| endpoint := endpoint c; arriving := arriving c; writes := writes c; sent := sent c; closed := closed c;
     tx := tx c; rx := (rx c + delta) mod 2 ^ 64 |}.
Definition updateTx (delta : Z) (c : TCPConn) : TCPConn :=
  {| endpoint := endpoint c; arriving := arriving c; writes := writes c; sent := sent c; closed := closed c;
     tx := (tx c + delta) mod 2 ^ 64; rx := rx c |}.

(** ** The socket *)

(** [conn.Read] into a buffer of [n] bytes. *)
Definition conn_Read (n : nat) (c : TCPConn) : bytes * option net_error * TCPConn :=
  if closed c then ([], Some closed_error, c)
  else match arriving c with
       | [] => ([], Some deadline_error, c)
       | IErr e :: l => ([], Some e, set_arriving c l)
       | IData b :: l =>
           if (length b <=? n)%nat then (b, None, set_arriving c l)
           else (take n b, None, set_arriving c (IData (drop n b) :: l))
       end.

(** [conn.Write]: the bytes taken and the error. *)
Definition conn_Write (b : bytes) (c : TCPConn) : nat * option net_error * TCPConn :=
  if closed c then (0%nat, Some closed_error, c)
  else match writes c with
       | [] => (length b, None, set_sent c [] (sent c ++ b))
       | WAll :: l => (length b, None, set_sent c l (sent c ++ b))
       | WSome n e :: l => (min n (length b), e, set_sent c l (sent c ++ take n b))
       end.

(** Reading until [n] bytes are there, as [io.ReadFull] and the loop of
    [receiveRaw] do: what was read, and the error that stopped it. *)
Fixpoint read_loop (fuel : nat) (n : nat) (acc : bytes) (c : TCPConn) : outcome error (bytes * option net_error) * TCPConn :=
  match n with
  | O => (Ret (acc, None), c)
  | _ =>
      match fuel with
      | O => (OutOfFuel, c)
      | S fuel =>
          match conn_Read n c with
          | (b, Some e, c) => (Ret (acc, Some e), c)
          | (b, None, c) => read_loop fuel (n - length b) (acc ++ b) c
          end
      end
  end.

(** Every read but the last takes a whole piece. *)
Definition read_fuel (c : TCPConn) : nat := S (length (arriving c)).

(** ** Messages *)
Definition maxPacketSize : Z := 10 * 1024 * 1024.

(** [binary.Write] and [binary.Read] of a [Size], big endian. *)
Definition be32 (v : Z) : bytes :=
  [byte_of (Z.shiftr v 24); byte_of (Z.shiftr v 16); byte_of (Z.shiftr v 8); byte_of v].
Definition be_word (l : bytes) : Z := Fixed.le_word (reverse l).

Definition binary_Read : SM TCPConn net_error Z := λ c,
  match read_loop (read_fuel c) 4 [] c with
  | (Ret (b, None), c) => (Ret (be_word b), c)
  | (Ret (b, Some e), c) => (Err (if is_EOF e && negb (bool_decide (b = [])) then io_ErrUnexpectedEOF else e), c)
  | (Err e, c) => (Err closed_error, c)
  | (Panic w, c) => (Panic w, c)
  | (OutOfFuel, c) => (OutOfFuel, c)
  end.

Definition receiveRaw : CM bytes := λ c,
  match binary_Read c with
  | (Err e, c) => (Err (handleError e), c)
  | (Panic w, c) => (Panic w, c)
  | (OutOfFuel, c) => (OutOfFuel, c)
  | (Ret total, c) =>
      if maxPacketSize <? total then (Err "sends too big packet", c)
      else
        match read_loop (read_fuel c) (Z.to_nat total) [] c with
        | (Ret (b, None), c) => (Ret b, updateRx total c)
        | (Ret (b, Some e), c) => (Err (handleError e), c)
        | (Err e, c) => (Err e, c)
        | (Panic w, c) => (Panic w, c)
        | (OutOfFuel, c) => (OutOfFuel, c)
        end
  end.

(** The loop of [sendRaw]; [Size] has 32 bits. *)
Fixpoint send_loop (fuel : nat) (packetSize done : Z) (b : bytes) (c : TCPConn) : outcome error unit * TCPConn :=
  match fuel with
  | O => (OutOfFuel, c)
  | S fuel =>
      if done <? packetSize then
        match conn_Write (drop (Z.to_nat done) b) c with
        | (_, Some e, c) => (Err (handleError e), c)
        | (n, None, c) => send_loop fuel packetSize ((done + Z.of_nat n) mod 2 ^ 32) b c
        end
      else (Ret tt, c)
  end.

(** The error of the first write is returned as it is. *)
Definition sendRaw (b : bytes) : CM unit := λ c,
  let packetSize := Z.of_nat (length b) mod 2 ^ 32 in
  match conn_Write (be32 packetSize) c with
  | (_, Some e, c) => (Err (text e), c)
  | (_, None, c) =>
      match send_loop (S (S (length (writes c)))) packetSize 0 b c with
      | (Ret _, c) => (Ret tt, updateTx packetSize c)
      | r => r
      end
  end.

Definition Close : CM unit := λ c,
  if closed c then (Err ErrClosed, c)
  else (Ret tt, {| endpoint := endpoint c; arriving := arriving c; writes := writes c; sent := sent c;
                   closed := true; tx := tx c; rx := rx c |}).

Section messages.
Context {U : UuidLib} {M : Methods} (gens : gmap bytes (gtype * gvalue)) (type_string : gtype → bytes).

Definition Send (fuel : nat) (tr : gmap UUID gtype) (msg : option (gtype * gvalue)) : CM unit :=
  do! b := slift (omap_err (String.append "Error marshaling  message: ")
                    (Encoding.Marshal gens type_string fuel tr msg)) in
  sendRaw b.

(** The envelope, or the error, also of a panic. *)
Definition Receive (fuel : nat) (tr : gmap UUID gtype) (constructors : gmap string (gtype * gvalue))
    : CM (UUID * (gtype * gvalue)) := λ c,
  match (do! buff := receiveRaw in slift (Encoding.Unmarshal gens fuel tr constructors buff)) c with
  | (r, c) => (recover_panic r, c)
  end.
End messages.

(** What [handleConn] of the router makes of the result. *)
Definition as_received {A} (r : outcome error A) : Routers.Received (Msg := A) :=
  match r with
  | Ret m => Routers.RPacket m
  | Err e => if decide (e = ErrTimeout) then Routers.RTimeout
             else if decide (e = ErrClosed ∨ e = ErrEOF) then Routers.RClosed
             else Routers.RError e
  | Panic w => Routers.RError w
  | OutOfFuel => Routers.RError ErrUnknown
  end.

(** ** Framing *)

(** What [sendRaw] puts on the wire. *)
Definition frame (b : bytes) : bytes := be32 (Z.of_nat (length b)) ++ b.
Definition frames (ms : list bytes) : bytes := ms ≫= frame.

Lemma be32_u32 v : be32 v = reverse (Fixed.u32 v).
Proof. done. Qed.
Lemma be_word_be32 v : 0 <= v < 2 ^ 32 → be_word (be32 v) = v.
Proof.
  intros Hv. unfold be_word. rewrite be32_u32, reverse_involutive, Fixed.u32_bytes.
  by apply Fixed.le_word_bytes.
Qed.

(** The bytes [bs] arrive, in pieces that are not empty, then [rest]. *)
Definition arrives (c : TCPConn) (bs : bytes) (rest : list incoming) : Prop :=
  closed c = false ∧ ∃ pieces, Forall (λ b, b ≠ []) pieces ∧ mjoin pieces = bs ∧
    arriving c = (IData <$> pieces) ++ rest.

Lemma set_arriving_twice c l l' : set_arriving (set_arriving c l) l' = set_arriving c l'.
Proof. done. Qed.
Lemma set_arriving_same c : set_arriving c (arriving c) = c.
Proof. by destruct c. Qed.

Lemma tcp_read_loop_all fuel : ∀ n acc c a b rest,
  arrives c (a ++ b) rest → length a = n → (length (arriving c) < fuel)%nat →
  ∃ l, read_loop fuel n acc c = (Ret (acc ++ a, None), set_arriving c l) ∧ arrives (set_arriving c l) b rest.
Proof.
  induction fuel as [|fuel IH]; intros n acc c a b rest Harr Hn Hf; [lia|].
  destruct n as [|n].
  { apply nil_length_inv in Hn as ->. exists (arriving c). rewrite app_nil_r, set_arriving_same. done. }
  destruct Harr as (Hop & pieces & Hne & Hj & Harr). cbn [read_loop]. unfold conn_Read. rewrite Hop.
  destruct pieces as [|p pieces].
  { destruct a; [done|]. discriminate Hj. }
  cbn [fmap list_fmap app] in Harr. rewrite Harr. cbn in Hj.
  apply Forall_cons in Hne as [Hp Hne].
  destruct (Nat.leb_spec (length p) (S n)) as [Hle|Hgt].
  - assert (∃ a', a = p ++ a' ∧ mjoin pieces = a' ++ b) as (a' & -> & Hj').
    { exists (drop (length p) a). assert (p = take (length p) a) as E.
      { apply (f_equal (take (length p))) in Hj. by rewrite take_app_length, take_app_le in Hj by lia. }
      split; [by rewrite E at 1; rewrite take_drop|].
      apply (f_equal (drop (length p))) in Hj. by rewrite drop_app_length, drop_app_le in Hj by lia. }
    destruct (IH (S n - length p)%nat (acc ++ p) (set_arriving c ((IData <$> pieces) ++ rest)) a' b rest) as (l & Hl & Ha).
    + split; [done|]. exists pieces. done.
    + rewrite length_app in Hn. lia.
    + cbn. rewrite Harr in Hf. cbn in Hf. lia.
    + exists l. rewrite Hl, set_arriving_twice, <-app_assoc. split; [done|]. by rewrite set_arriving_twice in Ha.
  - rewrite length_take_le by lia. rewrite Nat.sub_diag.
    assert (take (S n) p = a ∧ drop (S n) p ++ mjoin pieces = b) as [Ht Hd].
    { rewrite <-(take_drop (S n) p), <-app_assoc in Hj. apply app_inj_1 in Hj; [done|].
      rewrite length_take_le by lia. done. }
    exists (IData (drop (S n) p) :: (IData <$> pieces) ++ rest). rewrite Ht. split; [by destruct fuel|].
    split; [done|]. exists (drop (S n) p :: pieces). split; [|done].
    constructor; [|done]. intros E. apply (f_equal length) in E. rewrite length_drop in E. cbn in E. lia.
Qed.

(** The error that breaks a stream off. *)
Definition breaks (rest : list incoming) (e : net_error) : Prop :=
  (rest = [] ∧ e = deadline_error) ∨ ∃ rest', rest = IErr e :: rest'.

Lemma read_loop_short fuel : ∀ n acc c a rest e,
  arrives c a rest → (length a < n)%nat → (length (arriving c) < fuel)%nat → breaks rest e →
  ∃ l, read_loop fuel n acc c = (Ret (acc ++ a, Some e), set_arriving c l).
Proof.
  induction fuel as [|fuel IH]; intros n acc c a rest e Harr Hn Hf Hb; [lia|].
  destruct n as [|n]; [lia|].
  destruct Harr as (Hop & pieces & Hne & Hj & Harr). cbn [read_loop]. unfold conn_Read. rewrite Hop.
  destruct pieces as [|p pieces].
  - cbn in Hj. subst a. rewrite app_nil_r. cbn in Harr. rewrite Harr.
    destruct Hb as [[-> ->]|[rest' ->]]; [|by eexists].
    exists (arriving c). by rewrite set_arriving_same.
  - cbn [fmap list_fmap app] in Harr. rewrite Harr. change (p ++ mjoin pieces = a) in Hj. subst a. rewrite length_app in Hn.
    apply Forall_cons in Hne as [Hp Hne]. rewrite (proj2 (Nat.leb_le _ _)) by lia.
    destruct (IH (S n - length p)%nat (acc ++ p) (set_arriving c ((IData <$> pieces) ++ rest)) (mjoin pieces) rest e)
      as (l & Hl); [split; [done|]; by exists pieces|lia| |done|].
    + cbn. rewrite Harr in Hf. cbn in Hf. lia.
    + exists l. by rewrite Hl, <-app_assoc.
Qed.

Lemma binary_Read_be32 c v bs rest :
  0 <= v < 2 ^ 32 → arrives c (be32 v ++ bs) rest →
  ∃ l, binary_Read c = (Ret v, set_arriving c l) ∧ arrives (set_arriving c l) bs rest.
Proof.
  intros Hv Harr. unfold binary_Read.
  destruct (tcp_read_loop_all (read_fuel c) 4 [] c (be32 v) bs rest Harr) as (l & -> & Ha); [done|unfold read_fuel; lia|].
  exists l. cbn [app]. by rewrite be_word_be32.
Qed.

Lemma receiveRaw_frame c b bs rest :
  Z.of_nat (length b) <= maxPacketSize → arrives c (frame b ++ bs) rest →
  ∃ c', receiveRaw c = (Ret b, c') ∧ arrives c' bs rest ∧ rx c' = (rx c + Z.of_nat (length b)) mod 2 ^ 64.
Proof.
  intros Hb Harr. unfold frame in Harr. rewrite <-app_assoc in Harr. unfold receiveRaw, maxPacketSize in *.
  destruct (binary_Read_be32 c (Z.of_nat (length b)) (b ++ bs) rest) as (l & -> & Ha); [lia|done|].
  rewrite (proj2 (Z.ltb_ge _ _)) by lia.
  destruct (tcp_read_loop_all (read_fuel (set_arriving c l)) (Z.to_nat (Z.of_nat (length b))) [] (set_arriving c l) b bs rest Ha)
    as (l' & -> & Ha'); [by rewrite Nat2Z.id|unfold read_fuel; lia|].
  eexists. split; [done|]. split; [|done]. exact Ha'.
Qed.

Lemma is_closed_loop fuel n acc c : closed c = true → n ≠ 0%nat → fuel ≠ 0%nat →
  read_loop fuel n acc c = (Ret (acc, Some closed_error), c).
Proof. intros Hc Hn Hf. destruct n, fuel; [done..|]. cbn. unfold conn_Read. by rewrite Hc. Qed.

(** ** Sending *)

(** A socket that takes everything, possibly piece by piece: a write returns an
    error if it takes less than it is given, as [net.Conn] promises, or at least
    takes four bytes. *)
Definition takes_all (ws : list writing) : Prop :=
  Forall (λ w, match w with WAll => True | WSome n None => (4 <= n)%nat | WSome _ (Some _) => False end) ws.

Lemma conn_Write_ok b c : closed c = false → takes_all (writes c) →
  ∃ n ws, conn_Write b c = (n, None, set_sent c ws (sent c ++ take n b)) ∧ (n <= length b)%nat ∧ takes_all ws ∧
    (n = length b ∧ (length ws <= length (writes c))%nat ∨ (length ws < length (writes c))%nat).
Proof.
  intros Hop Hws. unfold conn_Write. rewrite Hop. destruct (writes c) as [|[|n e] ws].
  - exists (length b), []. rewrite firstn_all. split; [done|]. split; [lia|]. split; [done|]. left. split; [done|cbn; lia].
  - apply Forall_cons in Hws as [_ Hws]. exists (length b), ws. rewrite firstn_all.
    split; [done|]. split; [lia|]. split; [done|]. right. cbn; lia.
  - apply Forall_cons in Hws as [Hw Hws]. destruct e; [done|]. exists (min n (length b)), ws.
    split; [|split; [lia|split; [done|right; cbn; lia]]]. do 2 f_equal.
    destruct (decide (n <= length b)%nat); [by rewrite Nat.min_l by lia|].
    rewrite Nat.min_r, firstn_all, take_ge by lia. done.
Qed.

Lemma send_loop_all fuel : ∀ k b c,
  closed c = false → takes_all (writes c) → Z.of_nat (length b) < 2 ^ 32 → (k <= length b)%nat →
  (S (length (writes c)) < fuel)%nat →
  ∃ ws, send_loop fuel (Z.of_nat (length b)) (Z.of_nat k) b c =
    (Ret tt, set_sent c ws (sent c ++ drop k b)) ∧ takes_all ws.
Proof.
  induction fuel as [|fuel IH]; intros k b c Hop Hws Hb Hk Hf; [lia|]. cbn [send_loop].
  destruct (Z.ltb_spec (Z.of_nat k) (Z.of_nat (length b))) as [Hlt|Hge].
  - rewrite Nat2Z.id. destruct (conn_Write_ok (drop k b) c Hop Hws) as (n & ws & -> & Hn & Hws' & Hlen).
    rewrite length_drop in Hn, Hlen. rewrite Z.mod_small by lia.
    replace (Z.of_nat k + Z.of_nat n) with (Z.of_nat (k + n)) by lia.
    destruct Hlen as [[-> Hlen]|Hlen].
    + destruct fuel as [|fuel]; [lia|]. cbn [send_loop]. rewrite (proj2 (Z.ltb_ge _ _)) by lia.
      exists ws. rewrite take_ge by (rewrite length_drop; lia). done.
    + destruct (IH (k + n)%nat b (set_sent c ws (sent c ++ take n (drop k b)))) as (ws' & -> & Hws2);
        [done|done|done|lia|cbn; lia|].
      exists ws'. split; [|done]. f_equal. unfold set_sent. cbn. f_equal.
      rewrite <-app_assoc, <-drop_drop. by rewrite take_drop.
  - exists (writes c). split; [|done]. rewrite drop_ge, app_nil_r by lia. by destruct c.
Qed.

Lemma sendRaw_frame b c :
  closed c = false → takes_all (writes c) → Z.of_nat (length b) < 2 ^ 32 →
  ∃ ws, sendRaw b c = (Ret tt, updateTx (Z.of_nat (length b)) (set_sent c ws (sent c ++ frame b))) ∧ takes_all ws.
Proof.
  intros Hop Hws Hb. unfold sendRaw. rewrite Z.mod_small by lia.
  destruct (conn_Write_ok (be32 (Z.of_nat (length b))) c Hop Hws) as (n & ws & Hw & Hn & Hws' & _).
  assert (n = 4%nat) as ->.
  { revert Hw Hws. unfold conn_Write. rewrite Hop. destruct (writes c) as [|[|m [e|]] ws']; [by intros [= <- _]..|done|].
    intros [= <- _] [Hm _]%Forall_cons. cbn [be32 length]. lia. }
  rewrite Hw. destruct (send_loop_all (S (S (length ws))) 0 b (set_sent c ws (sent c ++ be32 (Z.of_nat (length b)))))
    as (ws' & Hs & Hws2); [done|done|done|lia|cbn; lia|].
  change (take 4 (be32 (Z.of_nat (length b)))) with (be32 (Z.of_nat (length b))).
  cbn [writes set_sent]. change (Z.of_nat 0) with 0 in Hs. rewrite Hs. exists ws'. split; [|done].
  f_equal. f_equal. unfold set_sent, frame. cbn [endpoint arriving sent closed tx rx]. f_equal.
  by rewrite <-app_assoc.
Qed.

(** ** Streams of messages *)

Definition send_all (ms : list bytes) : CM unit := sforM (λ _ b, sendRaw b) tt ms.
Fixpoint receive_n (n : nat) : CM (list bytes) :=
  match n with
  | O => sret []
  | S n => do! b := receiveRaw in do! bs := receive_n n in sret (b :: bs)
  end.

Definition small (b : bytes) : Prop := Z.of_nat (length b) <= maxPacketSize.
Lemma small_32 b : small b → Z.of_nat (length b) < 2 ^ 32.
Proof. unfold small, maxPacketSize. lia. Qed.

Lemma send_all_frames ms c :
  closed c = false → takes_all (writes c) → Forall small ms →
  ∃ c', send_all ms c = (Ret tt, c') ∧ sent c' = sent c ++ frames ms ∧ closed c' = false ∧ takes_all (writes c').
Proof.
  revert c. induction ms as [|b ms IH]; intros c Hop Hws Hms.
  - exists c. unfold frames. cbn. rewrite app_nil_r. done.
  - apply Forall_cons in Hms as [Hb Hms].
    destruct (sendRaw_frame b c Hop Hws (small_32 b Hb)) as (ws & Hs & Hws').
    unfold send_all, frames in *. cbn [sforM]. unfold sbind at 1. rewrite Hs.
    edestruct IH as (c' & -> & Hc & Hop' & Hws2); [| |exact Hms|]; [done|done|].
    exists c'. split; [done|]. split; [|done]. rewrite Hc. cbn. by rewrite <-app_assoc.
Qed.

Lemma receive_n_frames ms : ∀ c bs rest,
  Forall small ms → arrives c (frames ms ++ bs) rest →
  ∃ c', receive_n (length ms) c = (Ret ms, c') ∧ arrives c' bs rest.
Proof.
  induction ms as [|b ms IH]; intros c bs rest Hms Harr; [by exists c|].
  apply Forall_cons in Hms as [Hb Hms]. unfold frames in Harr. cbn in Harr. rewrite <-!app_assoc in Harr.
  destruct (receiveRaw_frame c b (frames ms ++ bs) rest Hb) as (c1 & H1 & Ha & _).
  { unfold frame. by rewrite <-app_assoc. }
  cbn [length receive_n]. unfold sbind. rewrite H1.
  destruct (IH c1 bs rest Hms Ha) as (c2 & -> & Ha2). by exists c2.
Qed.

Lemma arrives_nil c rest : arrives c [] rest → arriving c = rest.
Proof.
  intros (_ & pieces & Hne & Hj & ->). destruct pieces as [|p pieces]; [done|].
  apply Forall_cons in Hne as [Hp _]. destruct p; [done|discriminate Hj].
Qed.

(** A stream that breaks off inside a message gives an error. *)
Lemma receiveRaw_broken c m part rest e :
  small m → part `prefix_of` frame m → part ≠ frame m → arrives c part rest → breaks rest e →
  ∃ c' e', receiveRaw c = (Err e', c') ∧ (e' = handleError e ∨ is_EOF e = true ∧ e' = ErrEOF).
Proof.
  intros Hm [k Hk] Hne Harr Hb. unfold receiveRaw, binary_Read.
  destruct (decide (length part < 4)%nat) as [Hlt|Hge].
  - destruct (read_loop_short (read_fuel c) 4 [] c part rest e Harr Hlt) as (l & ->);
      [unfold read_fuel; lia|done|].
    eexists _, _. split; [done|]. destruct (is_EOF e && _) eqn:Ee; [|by left].
    apply andb_prop in Ee as [Ee _]. by right.
  - unfold frame in Hk. assert (∃ p2, part = be32 (Z.of_nat (length m)) ++ p2 ∧ (length p2 < length m)%nat) as (p2 & -> & Hp2).
    { exists (drop 4 part). assert (take 4 part = be32 (Z.of_nat (length m))) as E.
      { apply (f_equal (take 4)) in Hk. rewrite take_app_length' in Hk by done. by rewrite Hk, take_app_le by lia. }
      rewrite <-E, take_drop. split; [done|]. rewrite length_drop.
      pose proof (f_equal length Hk) as Hlen. rewrite !length_app in Hlen. cbn [be32 length] in Hlen.
      destruct k as [|? k]; [|cbn in Hlen; lia]. rewrite app_nil_r in Hk. by destruct Hne. }
    pose proof (small_32 m Hm) as Hm32.
    destruct (binary_Read_be32 c (Z.of_nat (length m)) p2 rest) as (l & H1 & Ha); [lia|done|].
    unfold binary_Read in H1. rewrite H1. unfold small in Hm. rewrite (proj2 (Z.ltb_ge _ _)) by lia.
    destruct (read_loop_short (read_fuel (set_arriving c l)) (Z.to_nat (Z.of_nat (length m))) [] (set_arriving c l) p2 rest e Ha)
      as (l' & ->); [lia|unfold read_fuel; lia|done|].
    eexists _, _. split; [done|]. by left.
Qed.

(** C26: messages of at most 10 MB that are sent one after the other, through any
    writes that take them piece by piece, are received one after the other,
    whatever the pieces are in which their bytes arrive; when the stream breaks
    off inside a message, by an error or the read deadline, the messages before it
    are received and the broken one is an error, never a shorter message. *)
Theorem tcp_stream ms c :
  closed c = false → takes_all (writes c) → Forall small ms →
  ∃ c', send_all ms c = (Ret tt, c') ∧ sent c' = sent c ++ frames ms ∧
  (∀ d rest, arrives d (frames ms) rest →
     ∃ d', receive_n (length ms) d = (Ret ms, d') ∧ arriving d' = rest ∧ closed d' = false) ∧
  (∀ d m part rest e, small m → part `prefix_of` frame m → part ≠ frame m →
     arrives d (frames ms ++ part) rest → breaks rest e →
     ∃ d1 d2 e', receive_n (length ms) d = (Ret ms, d1) ∧ receiveRaw d1 = (Err e', d2) ∧
       (e' = handleError e ∨ is_EOF e = true ∧ e' = ErrEOF)).
Proof.
  intros Hop Hws Hms. destruct (send_all_frames ms c Hop Hws Hms) as (c' & Hs & Hsent & _).
  exists c'. split; [done|]. split; [done|]. split.
  - intros d rest Harr. rewrite <-(app_nil_r (frames ms)) in Harr.
    destruct (receive_n_frames ms d [] rest Hms Harr) as (d' & Hd & Ha). exists d'.
    split; [done|]. split; [by apply arrives_nil|apply Ha].
  - intros d m part rest e Hm Hpre Hne Harr Hb.
    destruct (receive_n_frames ms d part rest Hms Harr) as (d1 & Hd & Ha).
    destruct (receiveRaw_broken d1 m part rest e Hm Hpre Hne Ha Hb) as (d2 & e' & Hr & He). by exists d1, d2, e'.
Qed.

(** A message of more than 10 MB (and less than 4 GB) is sent without error;
    the receiver refuses it, which the router takes for a temporary error, and goes
    on reading inside the message: what the message holds at its start is received
    as a message of its own. *)
Theorem tcp_oversized c b :
  closed c = false → takes_all (writes c) → maxPacketSize < Z.of_nat (length b) < 2 ^ 32 →
  ∃ c', sendRaw b c = (Ret tt, c') ∧ sent c' = sent c ++ frame b ∧
  ∀ d bs rest, arrives d (frame b ++ bs) rest →
  ∃ d1, receiveRaw d = (Err "sends too big packet", d1) ∧
    (∀ {S : Suite} {U : UuidLib} (msg_type : bytes → UUID) i (r : Routers.Router (Msg := bytes)) remote k,
       Routers.isClosed r = false → Routers.handling r !! i = Some (remote, k) → Routers.checked r !! k = None →
       Routers.handle_received msg_type i (Routers.handleConn i (as_received (receiveRaw d).1) r) = r) ∧
    ∀ m tail, small m → b = frame m ++ tail → ∃ d2, receiveRaw d1 = (Ret m, d2).
Proof.
  intros Hop Hws Hb. destruct (sendRaw_frame b c Hop Hws) as (ws & Hs & _); [lia|].
  eexists. split; [exact Hs|]. split; [done|]. intros d bs rest Harr.
  unfold frame in Harr. rewrite <-app_assoc in Harr.
  destruct (binary_Read_be32 d (Z.of_nat (length b)) (b ++ bs) rest) as (l & H1 & Ha); [lia|done|].
  assert (receiveRaw d = (Err "sends too big packet", set_arriving d l)) as Hr.
  { unfold receiveRaw. rewrite H1. by rewrite (proj2 (Z.ltb_lt _ _)) by lia. }
  exists (set_arriving d l). split; [done|]. split.
  - intros S U msg_type i r remote k Hcl Hi Hk. rewrite Hr. unfold Routers.handleConn. cbn [fst]. rewrite Hi, Hk, Hcl.
    unfold Routers.handle_received. cbn [Routers.handling Routers.checked Routers.set_goroutines]. rewrite Hi, lookup_insert_eq.
    destruct r. cbn in *. unfold Routers.set_goroutines. cbn. by rewrite delete_insert_id.
  - intros m tail Hm ->. rewrite <-app_assoc in Ha.
    destruct (receiveRaw_frame (set_arriving d l) m (tail ++ bs) rest Hm Ha) as (d2 & Hd & _). by exists d2.
Qed.

(** [Close] makes everything return an error, [Close] itself too. *)
Lemma tcp_close c c' b :
  Close c = (Ret tt, c') →
  Close c' = (Err ErrClosed, c') ∧ receiveRaw c' = (Err ErrClosed, c') ∧
  sendRaw b c' = (Err (text closed_error), c').
Proof.
  unfold Close. destruct (closed c); [done|]. intros [= <-]. split; [done|].
  split; [|by unfold sendRaw, conn_Write].
  unfold receiveRaw, binary_Read. rewrite is_closed_loop by done. by vm_compute.
Qed.

(** What one side sends the other receives: a registered struct that is sent
    arrives, after whatever is before it in the stream was received, as a pointer
    to its normal form with the identifier of its type, and the rest of the stream
    is left; a router takes it for a packet.  A value of a type that is not
    registered is not sent. *)
Theorem tcp_send_receive {U : UuidLib} {UL : UuidLaws U} {M : Methods} gens type_string tr t v c :
  Encoding.get tr (Encoding.type_id type_string t) = Some t → Encoding.type_id type_string t ≠ Encoding.ErrorType →
  kind t = Struct → t ≠ TTime → UnmarshalBinary (TPtr t) = None → wf gens true true t v →
  closed c = false → takes_all (writes c) →
  (∃ b f0, ∀ f, (f0 <= f)%nat → small b →
    ∃ c', Send gens type_string f tr (Some (TPtr t, VPtr v)) c = (Ret tt, c') ∧ sent c' = sent c ++ frame b ∧
    ∀ d bs rest constructors, arrives d (frame b ++ bs) rest →
      ∃ f1, ∀ f', (f1 <= f')%nat → ∃ d',
        Receive gens f' tr constructors d = (Ret (Encoding.type_id type_string t, (TPtr t, VPtr (norm t v))), d') ∧
        arrives d' bs rest ∧
        as_received (Receive gens f' tr constructors d).1 =
          Routers.RPacket (Encoding.type_id type_string t, (TPtr t, VPtr (norm t v)))) ∧
  (∀ t' v' f, Encoding.get tr (Encoding.type_id type_string t') = None →
     ∃ e, Send gens type_string f tr (Some (TPtr t', VPtr v')) c = (Err e, c)).
Proof.
  intros Hreg Hid Hk Htime Hum Hwf Hop Hws. split.
  - destruct (Encoding.marshal_unmarshal_registered gens type_string tr t v Hreg Hid Hk Htime Hum Hwf)
      as (b & [f0 Hm] & _ & Hu).
    exists b, f0. intros f Hf Hb. pose proof (small_32 b Hb) as Hb32.
    destruct (sendRaw_frame b c Hop Hws Hb32) as (ws & Hs & _). eexists. split.
    { unfold Send, sbind, slift. rewrite Hm by done. exact Hs. }
    split; [done|]. intros d bs rest constructors Harr.
    destruct (receiveRaw_frame d b bs rest Hb Harr) as (d' & Hd & Ha & _).
    destruct (Hu ltac:(lia) constructors) as [f1 Hf1]. exists f1. intros f' Hf'. exists d'.
    assert (Receive gens f' tr constructors d = (Ret (Encoding.type_id type_string t, (TPtr t, VPtr (norm t v))), d')) as Hr.
    { unfold Receive, sbind. rewrite Hd. unfold slift. by rewrite Hf1. }
    rewrite Hr. done.
  - intros t' v' f Hn. unfold Send, sbind, slift, Encoding.Marshal.
    rewrite Encoding.MessageType_ptr, Hn. cbn [obind]. unfold uuid_Equal.
    rewrite bool_decide_true by done. by eexists.
Qed.

(** ** Connecting and listening *)

Definition MaxRetryConnect : nat := 5.

(** The loop of [NewTCPConn]: the error of the last attempt, or the number of the
    attempt that succeeded; [dial] is what [net.Dial] returns at each attempt. *)
Fixpoint dial_loop (dial : nat → option error) (i n : nat) (err : option error) : outcome error nat :=
  match n with
  | O => Err (default ErrTimeout err)
  | S n =>
      match dial i with
      | None => Ret i
      | Some e => dial_loop dial (S i) n (Some e)
      end
  end.
Definition NewTCPConn (dial : bytes → nat → option error) (addr netAddr : bytes) : outcome error TCPConn :=
  let! _ := dial_loop (dial netAddr) 1 MaxRetryConnect None in
  Ret {| endpoint := addr; arriving := []; writes := []; sent := []; closed := false; tx := 0; rx := 0 |}.

Section hosts.
Context (lower_unicode : bytes → bytes).
Context (dial listen : bytes → nat → option error).

(** [TCPHost.Connect]. *)
Definition Connect (addr : bytes) : outcome error TCPConn :=
  let! t := ConnType lower_unicode addr in
  if decide (t = PlainTCP) then
    let! na := NetworkAddress lower_unicode addr in NewTCPConn dial addr na
  else Err "TCPHost can't handle this type of connection".

(** [TCPListener]: [loops] counts the calls of [listen] in their loop; [quitting]
    says that [quit] is closed, [waiting] that [Stop] waits, with the lock, for a
    loop to end. *)
Record TCPListener := {
  bound : bytes;
  sock_open : bool;
  quitting : bool;
  listening : bool;
  l_closed : bool;
  loops : nat;
  waiting : bool;
  accepted : list nat;
}.

(** [NewTCPListener]; the error of [GlobalBind] is dropped, the address is then
    empty. *)
Definition NewTCPListener (addr : bytes) : outcome error TCPListener :=
  let! t := ConnType lower_unicode addr in
  if negb (bool_decide (t = PlainTCP)) then Err "TCPListener can't listen on non-tcp address"
  else
    let! na := NetworkAddress lower_unicode addr in
    let global := match GlobalBind na with Ret g => g | _ => [] end in
    let! _ := omap_err (String.append "Error opening listener: ")
                (dial_loop (listen global) 0 MaxRetryConnect None) in
    Ret {| bound := global; sock_open := true; quitting := false; listening := false; l_closed := false;
           loops := 0; waiting := false; accepted := [] |}.

(** The start of [listen]: [None] while [Stop] holds the lock. *)
Definition listen_start (l : TCPListener) : option TCPListener :=
  if waiting l then None
  else if l_closed l then Some l
  else Some {| bound := bound l; sock_open := sock_open l; quitting := quitting l; listening := true;
               l_closed := false; loops := S (loops l); waiting := false; accepted := accepted l |}.

(** What [Stop] does after the loop has ended, or at once if there is none. *)
Definition stop_done (l : TCPListener) : TCPListener :=
  {| bound := bound l; sock_open := sock_open l; quitting := false; listening := false; l_closed := true;
     loops := loops l; waiting := false; accepted := accepted l |}.

(** One return of [Accept] in a loop of [listen]; a closed socket returns an
    error.  A loop that meets the closed [quit] ends together with [Stop]. *)
Definition accept_round (conn : option nat) (l : TCPListener) : TCPListener :=
  if (loops l =? 0)%nat then l
  else
    match (if sock_open l then conn else None) with
    | Some k => {| bound := bound l; sock_open := sock_open l; quitting := quitting l; listening := listening l;
                   l_closed := l_closed l; loops := loops l; waiting := waiting l; accepted := accepted l ++ [k] |}
    | None =>
        if quitting l && waiting l then
          stop_done {| bound := bound l; sock_open := sock_open l; quitting := quitting l; listening := listening l;
                       l_closed := l_closed l; loops := loops l - 1; waiting := waiting l; accepted := accepted l |}
        else l
    end.

(** [Stop] up to the wait, when the lock is free; [close_err] is the error of
    closing the socket. *)
Definition Stop (close_err : option net_error) (l : TCPListener) : outcome error unit * TCPListener :=
  if waiting l then (OutOfFuel, l)
  else if quitting l then (Panic "close of closed channel", l)
  else
    let l := {| bound := bound l; sock_open := sock_open l; quitting := true; listening := listening l;
                l_closed := l_closed l; loops := loops l; waiting := false; accepted := accepted l |} in
    match (match (if sock_open l then close_err else Some closed_error) with
           | Some e => if decide (handleError e = ErrClosed) then None else Some e
           | None => None
           end) with
    | Some e => (Err (text e), l)
    | None =>
        let l := {| bound := bound l; sock_open := false; quitting := true; listening := listening l;
                    l_closed := l_closed l; loops := loops l; waiting := listening l; accepted := accepted l |} in
        (Ret tt, if listening l then l else stop_done l)
    end.

(** *** A listener is stopped *)

Record listener_ok (l : TCPListener) : Prop := {
  ok_waiting : waiting l = true → quitting l = true ∧ sock_open l = false ∧ (0 < loops l)%nat;
  ok_listening : listening l = true → (0 < loops l)%nat;
}.

(** After [Stop] the next return of [Accept] ends the loop and [Stop]; nothing is
    accepted any more, and a second [Stop] returns without error. *)
Lemma stop_listener l conn :
  listener_ok l → waiting l = false → quitting l = false → sock_open l = true →
  ∃ l1, Stop None l = (Ret tt, l1) ∧
    let l2 := if listening l then accept_round conn l1 else l1 in
    l_closed l2 = true ∧ waiting l2 = false ∧ listening l2 = false ∧ accepted l2 = accepted l ∧
    (loops l2 <= loops l)%nat ∧ listen_start l2 = Some l2 ∧ (Stop None l2).1 = Ret tt.
Proof.
  intros [_ Hl] Hw Hq Ho. unfold Stop at 1. rewrite Hw, Hq. cbn [sock_open]. rewrite Ho. cbn iota.
  eexists. split; [done|]. cbn [listening]. destruct (listening l) eqn:El.
  - specialize (Hl eq_refl). unfold accept_round. cbn [loops sock_open quitting waiting].
    rewrite (proj2 (Nat.eqb_neq _ _)) by lia. cbn. repeat split; lia.
  - cbn. repeat split; lia.
Qed.
End hosts.
End Tcp.

(** ** Examples and witnesses *)
Module TcpExample.
Import Tcp ProtobufExample NetExample.

Definition idle : TCPConn :=
  {| endpoint := str "tcp://127.0.0.1:2000"; arriving := []; writes := [WSome 4 None; WSome 5 None]; sent := [];
     closed := false; tx := 0; rx := 0 |}.
Definition receiving (l : list incoming) : TCPConn := set_arriving idle l.

Lemma idle_takes_all : takes_all (writes idle).
Proof. repeat constructor. Qed.

Example two_messages :
  let '(r, c) := send_all [str "hello"; str "world!"] idle in
  let '(r', d) := receive_n 2 (receiving [IData (take 3 (sent c)); IData (drop 3 (sent c)); IErr io_EOF]) in
  (r, r', (receiveRaw d).1, tx c, rx d) =
  (Ret tt, Ret [str "hello"; str "world!"], Err ErrEOF, 11, 11).
Proof. vm_compute. reflexivity. Qed.

(** An IPv6 address listens on an address that is empty. *)
Example listen_ipv6 :
  (let! l := NewTCPListener (λ s, s) (λ _ _, None) (str "tcp://[::1]:80") in Ret (bound l)) = Ret [].
Proof. vm_compute. reflexivity. Qed.

Lemma tcp_stream_witness :
  ∃ d', receive_n 2 (receiving [IData (frame (str "hello")); IData (frame (str "world!")); IErr io_EOF]) =
    (Ret [str "hello"; str "world!"], d') ∧ arriving d' = [IErr io_EOF] ∧ Tcp.closed d' = false.
Proof.
  destruct (tcp_stream [str "hello"; str "world!"] idle) as (c & _ & _ & H & _).
  - reflexivity.
  - exact idle_takes_all.
  - repeat constructor; unfold small; vm_compute; discriminate.
  - apply (H (receiving [IData (frame (str "hello")); IData (frame (str "world!")); IErr io_EOF]) [IErr io_EOF]).
    split; [reflexivity|]. exists [frame (str "hello"); frame (str "world!")].
    split; [repeat constructor; discriminate|]. by split.
Defined.

Definition padding : bytes := replicate (Z.to_nat maxPacketSize) x00.
Definition oversized : bytes := frame (str "hello") ++ padding.

Lemma tcp_oversized_witness :
  ∃ c', sendRaw oversized idle = (Ret tt, c') ∧
    ∃ d1 d2, receiveRaw (receiving [IData (sent c')]) = (Err "sends too big packet", d1) ∧
      receiveRaw d1 = (Ret (str "hello"), d2).
Proof.
  destruct (tcp_oversized idle oversized) as (c' & Hs & Hc & H).
  - reflexivity.
  - exact idle_takes_all.
  - unfold oversized, padding. rewrite length_app, length_replicate, Nat2Z.inj_add, Z2Nat.id by (vm_compute; discriminate).
    split; vm_compute; reflexivity.
  - exists c'. split; [exact Hs|].
    destruct (H (receiving [IData (sent c')]) [] []) as (d1 & H1 & _ & H2).
    + split; [reflexivity|]. exists [sent c']. rewrite Hc. split; [constructor; [discriminate|constructor]|].
      split; [cbn [mjoin list_join]; reflexivity|reflexivity].
    + destruct (H2 (str "hello") padding) as [d2 Hd2]; [unfold small; vm_compute; discriminate|reflexivity|].
      exists d1, d2. split; [exact H1|exact Hd2].
Defined.

Lemma tcp_send_receive_witness :
  ∃ b f0, ∀ f, (f0 <= f)%nat → small b →
    ∃ c', Send (U := uuid16) ex_gens type_string f registry (Some (TPtr TMessage, VPtr message)) idle = (Ret tt, c') ∧
      ∃ f1, ∀ f', (f1 <= f')%nat → ∃ d',
        Receive ex_gens f' registry ∅ (receiving [IData (sent c')]) =
          (Ret (Encoding.type_id (U := uuid16) type_string TMessage, (TPtr TMessage, VPtr message_back)), d').
Proof.
  destruct (tcp_send_receive (U := uuid16) (UL := uuid16_laws) ex_gens type_string registry TMessage message idle)
    as [(b & f0 & H) _].
  - apply lookup_insert_eq.
  - apply (bool_decide_unpack _). vm_compute. exact I.
  - by_vm.
  - done.
  - by_vm.
  - exact message_wf.
  - reflexivity.
  - exact idle_takes_all.
  - exists b, f0. intros f Hf Hb. destruct (H f Hf Hb) as (c' & Hs & Hc & Hr). exists c'. split; [exact Hs|].
    destruct (Hr (receiving [IData (sent c')]) [] [] ∅) as [f1 Hf1].
    + split; [reflexivity|]. exists [sent c']. rewrite Hc. split; [constructor; [discriminate|constructor]|].
      split; reflexivity.
    + exists f1. intros f' Hf'. destruct (Hf1 f' Hf') as (d' & Hd & _). exists d'. exact Hd.
Defined.
End TcpExample.
