(* ===== verification/LocalNet.v ===== *)
(** * Local connections ([imported/onet/network/local.go])

    A manager keeps the two ends of each connection.  What is sent to an end goes
    into its incoming queue; a goroutine per end moves it to the outgoing queue,
    from which [Receive] takes it.  [send] and [close] hold the lock of the manager
    while they wait, for room in a queue or for the goroutine of an end that is
    closed: [holder] says who has the lock.  [run] is one step of a client or a
    goroutine; [RBlocked] is the result of a call that waits.  The counter of
    connections does not wrap (it has 64 bits). *)
From S2P Require Import Prelude GoStrings Address.
Import Addresses.

Module Local.

Definition endpoint : Type := bytes * nat.
Definition LocalMaxBuffer : nat := 200.

(** [LocalConn]: [held] is the message the goroutine has taken and not yet put
    into the outgoing queue; [running] is false when the goroutine has closed the
    queues and ended; [closing] is true when [closeCh] is closed.  [sent_log] and
    [recv_log] are all messages put into the incoming queue and taken from the
    outgoing one. *)
Record LocalConn := {
  local : endpoint;
  remote : endpoint;
  incomingQueue : list bytes;
  held : option bytes;
  outgoingQueue : list bytes;
  running : bool;
  closing : bool;
  tx : Z;
  rx : Z;
  sent_log : list bytes;
  recv_log : list bytes;
}.

Definition newLocalConn (local remote : endpoint) : LocalConn :=
  {| local := local; remote := remote; incomingQueue := []; held := None; outgoingQueue := [];
     running := true; closing := false; tx := 0; rx := 0; sent_log := []; recv_log := [] |}.

Definition set_queues (c : LocalConn) (inq : list bytes) (h : option bytes) (out sl rl : list bytes) : LocalConn :=
  {| local := local c; remote := remote c; incomingQueue := inq; held := h; outgoingQueue := out;
     running := running c; closing := closing c; tx := tx c; rx := rx c; sent_log := sl; recv_log := rl |}.
Definition set_state (r cl : bool) (c : LocalConn) : LocalConn :=
  {| local := local c; remote := remote c; incomingQueue := incomingQueue c; held := held c;
     outgoingQueue := outgoingQueue c; running := r; closing := cl; tx := tx c; rx := rx c;
     sent_log := sent_log c; recv_log := recv_log c |}.
Definition set_counters (c : LocalConn) (t r : Z) : LocalConn :=
  {| local := local c; remote := remote c; incomingQueue := incomingQueue c; held := held c;
     outgoingQueue := outgoingQueue c; running := running c; closing := closing c; tx := t; rx := r;
     sent_log := sent_log c; recv_log := recv_log c |}.

(** Who has the lock of the manager. *)
Inductive Holder :=
  | Free
  | SendBlocked (k : nat) (msg : bytes)
  | CloseFirst (k : nat)
  | CloseSecond (k : nat).

(** [LocalManager]: the connections are known by number in [heap]; [accepted] are
    the listening functions that were started, with their connection. *)
Record LocalManager := {
  conns : gmap endpoint nat;
  listening : gmap bytes nat;
  counter : nat;
  heap : list LocalConn;
  accepted : list (nat * nat);
  holder : Holder;
}.

Definition NewLocalManager : LocalManager :=
  {| conns := ∅; listening := ∅; counter := 0; heap := []; accepted := []; holder := Free |}.

Definition set_heap (m : LocalManager) (h : list LocalConn) (cs : gmap endpoint nat) (w : Holder) : LocalManager :=
  {| conns := cs; listening := listening m; counter := counter m; heap := h; accepted := accepted m; holder := w |}.
Definition set_listeners (m : LocalManager) (l : gmap bytes nat) : LocalManager :=
  {| conns := conns m; listening := l; counter := counter m; heap := heap m; accepted := accepted m; holder := holder m |}.

Inductive LRes :=
  | ROk
  | RConn (k : nat)
  | RMsg (msg : bytes)
  | RErr (e : error)
  | RBlocked.

Definition ErrClosed : error := "Connection Closed".

(** The calls that take the lock. *)
Definition locked (m : LocalManager) (r : LRes * LocalManager) : LRes * LocalManager :=
  match holder m with Free => r | _ => (RBlocked, m) end.

Definition isListening (remote : bytes) (m : LocalManager) : bool := bool_decide (is_Some (listening m !! remote)).
Definition setListening (addr : bytes) (fn : nat) (m : LocalManager) : LRes * LocalManager :=
  locked m (ROk, set_listeners m (<[addr := fn]> (listening m))).
Definition unsetListening (addr : bytes) (m : LocalManager) : LRes * LocalManager :=
  locked m (ROk, set_listeners m (delete addr (listening m))).

Definition connect (from to : bytes) (m : LocalManager) : LRes * LocalManager :=
  locked m
    match listening m !! to with
    | None => (RErr "can't connect: it's not listening", m)
    | Some fn =>
        let out := (from, counter m) in
        let inc := (to, S (counter m)) in
        let k := length (heap m) in
        (RConn k,
         {| conns := <[inc := S k]> (<[out := k]> (conns m)); listening := listening m;
            counter := S (S (counter m)); heap := heap m ++ [newLocalConn out inc; newLocalConn inc out];
            accepted := accepted m ++ [(fn, S k)]; holder := Free |})
    end.

(** Putting a message into a queue, when there is room. *)
Definition enqueue (k : nat) (msg : bytes) (m : LocalManager) : LRes * LocalManager :=
  match heap m !! k with
  | None => (RBlocked, m)
  | Some c =>
      if (length (incomingQueue c) <? LocalMaxBuffer)%nat then
        (ROk, set_heap m (<[k := set_queues c (incomingQueue c ++ [msg]) (held c) (outgoingQueue c)
                                   (sent_log c ++ [msg]) (recv_log c)]> (heap m)) (conns m) Free)
      else (RBlocked, set_heap m (heap m) (conns m) (SendBlocked k msg))
  end.

(** [LocalManager.send]. *)
Definition send (e : endpoint) (msg : bytes) (m : LocalManager) : LRes * LocalManager :=
  locked m
    match conns m !! e with
    | None => (RErr ErrClosed, m)
    | Some k => enqueue k msg m
    end.

(** [LocalConn.Send] of the bytes of a message: the counter moves in any case. *)
Definition Send (k : nat) (buff : bytes) (m : LocalManager) : LRes * LocalManager :=
  match heap m !! k with
  | None => (RBlocked, m)
  | Some c =>
      let c := set_counters c ((tx c + Z.of_nat (length buff)) mod 2 ^ 64) (rx c) in
      match holder m with
      | Free => send (remote c) buff (set_heap m (<[k := c]> (heap m)) (conns m) (holder m))
      | _ => (RBlocked, m)
      end
  end.

(** A send that waits goes on. *)
Definition resume_send (m : LocalManager) : LRes * LocalManager :=
  match holder m with SendBlocked k msg => enqueue k msg m | _ => (RBlocked, m) end.

(** [LocalConn.start]: taking a message, passing it on, or closing the queues. *)
Definition take_message (k : nat) (m : LocalManager) : LRes * LocalManager :=
  match heap m !! k with
  | Some c =>
      match running c, held c, incomingQueue c with
      | true, None, b :: q =>
          (ROk, set_heap m (<[k := set_queues c q (Some b) (outgoingQueue c) (sent_log c) (recv_log c)]> (heap m))
                  (conns m) (holder m))
      | _, _, _ => (RBlocked, m)
      end
  | None => (RBlocked, m)
  end.
Definition pass_message (k : nat) (m : LocalManager) : LRes * LocalManager :=
  match heap m !! k with
  | Some c =>
      match held c with
      | Some b =>
          if (length (outgoingQueue c) <? LocalMaxBuffer)%nat then
            (ROk, set_heap m (<[k := set_queues c (incomingQueue c) None (outgoingQueue c ++ [b])
                                       (sent_log c) (recv_log c)]> (heap m)) (conns m) (holder m))
          else (RBlocked, m)
      | None => (RBlocked, m)
      end
  | None => (RBlocked, m)
  end.

(** The rest of [LocalManager.close] after the first end has confirmed. *)
Definition close_remote (e : endpoint) (m : LocalManager) : LocalManager :=
  match conns m !! e with
  | None => set_heap m (heap m) (conns m) Free
  | Some k =>
      match heap m !! k with
      | None => set_heap m (heap m) (conns m) Free
      | Some c => set_heap m (<[k := set_state (running c) true c]> (heap m)) (delete e (conns m)) (CloseSecond k)
      end
  end.

(** The goroutine closes the queues and confirms to the one who closes. *)
Definition shut (k : nat) (m : LocalManager) : LRes * LocalManager :=
  match heap m !! k with
  | Some c =>
      if running c && closing c && bool_decide (held c = None) then
        let m' := set_heap m (<[k := set_state false true c]> (heap m)) (conns m) Free in
        match holder m with
        | CloseFirst k' => if decide (k' = k) then (ROk, close_remote (remote c) m') else (RBlocked, m)
        | CloseSecond k' => if decide (k' = k) then (ROk, m') else (RBlocked, m)
        | _ => (RBlocked, m)
        end
      else (RBlocked, m)
  | None => (RBlocked, m)
  end.

(** [LocalConn.Close] and [LocalManager.close] up to the wait for the first end. *)
Definition Close (k : nat) (m : LocalManager) : LRes * LocalManager :=
  match heap m !! k with
  | None => (RBlocked, m)
  | Some c =>
      if closing c then (RErr ErrClosed, m)
      else
        locked m
          match conns m !! local c with
          | None => (RErr ErrClosed, m)
          | Some _ => (RBlocked, set_heap m (<[k := set_state (running c) true c]> (heap m))
                                   (delete (local c) (conns m)) (CloseFirst k))
          end
  end.

(** [LocalConn.Receive]: the bytes it decodes. *)
Definition Receive (k : nat) (m : LocalManager) : LRes * LocalManager :=
  match heap m !! k with
  | None => (RBlocked, m)
  | Some c =>
      match outgoingQueue c with
      | b :: q =>
          let c := set_counters c (tx c) ((rx c + Z.of_nat (length b)) mod 2 ^ 64) in
          (RMsg b, set_heap m (<[k := set_queues c (incomingQueue c) (held c) q (sent_log c) (recv_log c ++ [b])]> (heap m))
                     (conns m) (holder m))
      | [] => if running c then (RBlocked, m) else (RErr ErrClosed, m)
      end
  end.

Definition len (m : LocalManager) : nat := size (conns m).

(** ** Steps *)
Inductive LOp :=
  | LListen (addr : bytes) (fn : nat)
  | LUnlisten (addr : bytes)
  | LConnect (from to : bytes)
  | LSend (k : nat) (buff : bytes)
  | LResume
  | LTake (k : nat)
  | LPass (k : nat)
  | LShut (k : nat)
  | LClose (k : nat)
  | LReceive (k : nat).

Definition run (m : LocalManager) (op : LOp) : LRes * LocalManager :=
  match op with
  | LListen addr fn => setListening addr fn m
  | LUnlisten addr => unsetListening addr m
  | LConnect from to => connect from to m
  | LSend k buff => Send k buff m
  | LResume => resume_send m
  | LTake k => take_message k m
  | LPass k => pass_message k m
  | LShut k => shut k m
  | LClose k => Close k m
  | LReceive k => Receive k m
  end.
Definition runs (m : LocalManager) (ops : list LOp) : LocalManager := foldl (λ m op, (run m op).2) m ops.

(** ** Invariant *)

(** The other end of a connection: ends are made in pairs. *)
Definition partner (k : nat) : nat := if Nat.even k then S k else pred k.

Lemma partner_partner k : partner (partner k) = k.
Proof.
  unfold partner. destruct (Nat.even k) eqn:E.
  - rewrite Nat.even_succ, <-Nat.negb_even, E. done.
  - destruct k as [|k]; [done|]. cbn [pred]. rewrite Nat.even_succ, <-Nat.negb_even in E.
    destruct (Nat.even k); done.
Qed.
Lemma partner_ne k : partner k ≠ k.
Proof. unfold partner. destruct (Nat.even k) eqn:E; [lia|]. destruct k; [done|cbn; lia]. Qed.
Lemma partner_eq j k : partner j = k ↔ j = partner k.
Proof. split; [intros <-|intros ->]; by rewrite partner_partner. Qed.

(** What does not change when messages move. *)
Definition shape (c : LocalConn) : endpoint * endpoint * (bool * bool) :=
  (local c, remote c, (running c, closing c)).
Abbreviation shape_t := (endpoint * endpoint * (bool * bool))%type.

(** The messages of an end: nothing is lost, doubled or reordered while the
    goroutine runs; when it has ended, the incoming queue is lost. *)
Record conn_ok (c : LocalConn) : Prop := {
  ok_fifo : running c = true →
    sent_log c = recv_log c ++ outgoingQueue c ++ option_list (held c) ++ incomingQueue c;
  ok_prefix : recv_log c ++ outgoingQueue c `prefix_of` sent_log c;
  ok_in : (length (incomingQueue c) <= LocalMaxBuffer)%nat;
  ok_out : (length (outgoingQueue c) <= LocalMaxBuffer)%nat;
  ok_ended : running c = false → held c = None;
}.

(** The ends of a connection are open together, except while one is closed. *)
Definition pair_ok (ss : list shape_t) (j : nat) : Prop :=
  (snd <$> ss !! j) = (snd <$> ss !! partner j) ∧
  ∀ r cl, snd <$> ss !! j = Some (r, cl) → r = negb cl.
Definition hold_ok (ss : list shape_t) (w : Holder) : Prop :=
  match w with
  | CloseFirst k =>
      snd <$> ss !! k = Some (true, true) ∧ snd <$> ss !! partner k = Some (true, false) ∧
      ∀ j, j ≠ k → j ≠ partner k → pair_ok ss j
  | CloseSecond k =>
      snd <$> ss !! k = Some (true, true) ∧ snd <$> ss !! partner k = Some (false, true) ∧
      ∀ j, j ≠ k → j ≠ partner k → pair_ok ss j
  | _ => ∀ j, pair_ok ss j
  end.

Record ends_ok (cs : gmap endpoint nat) (n : nat) (ss : list shape_t) : Prop := {
  so_length : length ss = n;
  so_even : Nat.even n = true;
  so_ends k (l r : endpoint) st : ss !! k = Some (l, r, st) →
    l.2 = k ∧ ∃ (r' : endpoint) st', ss !! partner k = Some (r, r', st');
  so_map (e : endpoint) k : cs !! e = Some k ↔ ∃ (r : endpoint) x, ss !! k = Some (e, r, (x, false));
}.

Record linv (m : LocalManager) : Prop := {
  li_ends : ends_ok (conns m) (counter m) (shape <$> heap m);
  li_hold : hold_ok (shape <$> heap m) (holder m);
  li_conns : Forall conn_ok (heap m);
}.

(** *** Steps on shapes *)

Lemma pair_ok_other ss k s s' j :
  j ≠ k → j ≠ partner k → pair_ok (<[k := s]> ss) j ↔ pair_ok (<[k := s']> ss) j.
Proof.
  intros H1 H2. assert (partner j ≠ k) as H3 by (rewrite partner_eq; done).
  unfold pair_ok. by rewrite !list_lookup_insert_ne by done.
Qed.

Lemma ends_lookup cs n ss k l r st :
  ends_ok cs n ss → ss !! k = Some (l, r, st) → ∃ st', ss !! partner k = Some (r, l, st').
Proof.
  intros H Hk. destruct (so_ends _ _ _ H _ _ _ _ Hk) as (_ & r' & st' & Hp).
  destruct (so_ends _ _ _ H _ _ _ _ Hp) as (_ & r2 & st2 & Hk2). rewrite partner_partner in Hk2.
  exists st'. congruence.
Qed.

(** Replacing the state of an end. *)
Lemma ends_set cs n ss k l r st st' cs' :
  ends_ok cs n ss → ss !! k = Some (l, r, st) →
  (∀ e j, cs' !! e = Some j ↔ ∃ r' x, <[k := (l, r, st')]> ss !! j = Some (e, r', (x, false))) →
  ends_ok cs' n (<[k := (l, r, st')]> ss).
Proof.
  intros H Hk Hm. assert (k < length ss)%nat as Hlt by by eapply lookup_lt_Some.
  pose proof (ends_lookup _ _ _ _ _ _ _ H Hk) as [stp Hp]. destruct H as [Hl He Hends _].
  split; [by rewrite length_insert|done| |done].
  intros j lj rj sj Hj. destruct (decide (j = k)) as [->|Hjk].
  - rewrite list_lookup_insert_eq in Hj by done. injection Hj as <- <- <-.
    rewrite list_lookup_insert_ne by (pose proof (partner_ne k); congruence).
    split; [by destruct (Hends _ _ _ _ Hk)|]. eauto.
  - rewrite list_lookup_insert_ne in Hj by congruence. destruct (Hends _ _ _ _ Hj) as (H1 & r' & s' & H2).
    split; [done|]. destruct (decide (partner j = k)) as [Ejk|Hne].
    + rewrite Ejk in *. rewrite list_lookup_insert_eq by done. rewrite Hk in H2. injection H2 as <- <- <-. eauto.
    + rewrite list_lookup_insert_ne by congruence. eauto.
Qed.

Lemma ends_inj cs n ss k k' e r r' st st' :
  ends_ok cs n ss → ss !! k = Some (e, r, st) → ss !! k' = Some (e, r', st') → k = k'.
Proof.
  intros H H1 H2. destruct (so_ends _ _ _ H _ _ _ _ H1) as [<- _].
  by destruct (so_ends _ _ _ H _ _ _ _ H2) as [<- _].
Qed.

(** An end starts to close and leaves the map. *)
Lemma ends_delete cs n ss k l r x y :
  ends_ok cs n ss → ss !! k = Some (l, r, (x, false)) →
  ends_ok (delete l cs) n (<[k := (l, r, (y, true))]> ss).
Proof.
  intros H Hk. eapply ends_set; [exact H|exact Hk|]. intros e j.
  assert (k < length ss)%nat as Hlt by by eapply lookup_lt_Some.
  destruct (decide (e = l)) as [->|Hne].
  - rewrite lookup_delete_eq. split; [done|]. intros (r' & z & Hj). destruct (decide (j = k)) as [->|Hjk].
    + by rewrite list_lookup_insert_eq in Hj by done.
    + rewrite list_lookup_insert_ne in Hj by congruence.
      by rewrite (ends_inj _ _ _ _ _ _ _ _ _ _ H Hj Hk) in Hjk.
  - rewrite lookup_delete_ne by congruence. rewrite (so_map _ _ _ H). destruct (decide (j = k)) as [->|Hjk].
    + rewrite list_lookup_insert_eq by done. split; [|naive_solver]. intros (r' & z & Hj). congruence.
    + by rewrite list_lookup_insert_ne by congruence.
Qed.

(** The goroutine of a closing end ends. *)
Lemma ends_shut cs n ss k l r x y :
  ends_ok cs n ss → ss !! k = Some (l, r, (x, true)) → ends_ok cs n (<[k := (l, r, (y, true))]> ss).
Proof.
  intros H Hk. eapply ends_set; [exact H|exact Hk|]. intros e j.
  assert (k < length ss)%nat as Hlt by by eapply lookup_lt_Some.
  rewrite (so_map _ _ _ H). destruct (decide (j = k)) as [->|Hjk].
  - rewrite list_lookup_insert_eq by done. rewrite Hk. naive_solver.
  - by rewrite list_lookup_insert_ne by congruence.
Qed.

(** The other pairs do not see a change. *)
Lemma pair_ok_insert ss k s j : j ≠ k → j ≠ partner k → pair_ok (<[k := s]> ss) j ↔ pair_ok ss j.
Proof.
  intros H1 H2. assert (partner j ≠ k) as H3 by (rewrite partner_eq; done).
  unfold pair_ok. by rewrite !list_lookup_insert_ne by done.
Qed.
Lemma lookup_partner_insert {A} (l : list A) k x : <[k := x]> l !! partner k = l !! partner k.
Proof. apply list_lookup_insert_ne. pose proof (partner_ne k). congruence. Qed.

Lemma hold_close ss k l r x :
  (∀ j, pair_ok ss j) → ss !! k = Some (l, r, (x, false)) →
  hold_ok (<[k := (l, r, (x, true))]> ss) (CloseFirst k).
Proof.
  intros Hw Hk. assert (k < length ss)%nat as Hlt by by eapply lookup_lt_Some.
  destruct (Hw k) as [Hp Hx]. rewrite Hk in Hp, Hx. cbn in Hp, Hx. specialize (Hx _ _ eq_refl) as ->.
  split; [by rewrite list_lookup_insert_eq by done|]. split; [by rewrite lookup_partner_insert, <-Hp|].
  intros j H1 H2. by apply pair_ok_insert.
Qed.

Lemma hold_shut_second ss k l r :
  hold_ok ss (CloseSecond k) → ss !! k = Some (l, r, (true, true)) →
  hold_ok (<[k := (l, r, (false, true))]> ss) Free.
Proof.
  intros (_ & Hp & Hoth) Hk j. assert (k < length ss)%nat as Hlt by by eapply lookup_lt_Some.
  destruct (decide (j = k)) as [->|H1]; [|destruct (decide (j = partner k)) as [->|H2]].
  - unfold pair_ok. rewrite list_lookup_insert_eq, lookup_partner_insert, Hp by done.
    split; [done|]. by intros ?? [= <- <-].
  - unfold pair_ok. rewrite partner_partner, list_lookup_insert_eq, lookup_partner_insert, Hp by done.
    split; [done|]. by intros ?? [= <- <-].
  - apply pair_ok_insert; auto.
Qed.

Lemma hold_shut_first ss k l r r' :
  hold_ok ss (CloseFirst k) → ss !! k = Some (l, r, (true, true)) →
  ss !! partner k = Some (r, r', (true, false)) →
  hold_ok (<[partner k := (r, r', (true, true))]> (<[k := (l, r, (false, true))]> ss)) (CloseSecond (partner k)).
Proof.
  intros (_ & _ & Hoth) Hk Hp. assert (k < length ss)%nat as Hlt by by eapply lookup_lt_Some.
  assert (partner k < length ss)%nat as Hltp by by eapply lookup_lt_Some. pose proof (partner_ne k) as Hne.
  split; [by rewrite list_lookup_insert_eq by (rewrite length_insert; done)|]. rewrite partner_partner. split.
  - rewrite list_lookup_insert_ne by done. by rewrite list_lookup_insert_eq by done.
  - intros j H1 H2. apply pair_ok_insert; [done|by rewrite partner_partner|]. apply pair_ok_insert; auto.
Qed.

(** *** Steps on connections *)

(** Messages move within an end. *)
Lemma linv_moved m k c c' w :
  linv m → heap m !! k = Some c → shape c' = shape c → conn_ok c' →
  hold_ok (shape <$> heap m) w → linv (set_heap m (<[k := c']> (heap m)) (conns m) w).
Proof.
  intros [He Hw Hc] Hk Hs Hok Hw'.
  assert (shape <$> <[k := c']> (heap m) = shape <$> heap m) as Hsh.
  { rewrite list_fmap_insert, Hs. apply list_insert_id. by rewrite list_lookup_fmap, Hk. }
  split; cbn [conns counter heap holder set_heap]; [by rewrite Hsh|by rewrite Hsh|by apply Forall_insert].
Qed.

Lemma linv_conn m k c : linv m → heap m !! k = Some c → conn_ok c.
Proof. intros [_ _ Hc] Hk. rewrite Forall_lookup in Hc. by eapply Hc. Qed.

Definition calm (w : Holder) : Prop := match w with Free | SendBlocked _ _ => True | _ => False end.
Lemma hold_calm ss w w' : hold_ok ss w → calm w → calm w' → hold_ok ss w'.
Proof. by destruct w, w'. Qed.

Lemma linv_enqueue m k msg : linv m → calm (holder m) → linv (enqueue k msg m).2.
Proof.
  intros Hi Hw. unfold enqueue. destruct (heap m !! k) as [c|] eqn:Hk; [|done].
  pose proof (linv_conn m k c Hi Hk) as [Hf Hp Hin Hout He].
  destruct (Nat.ltb_spec (length (incomingQueue c)) LocalMaxBuffer) as [Hlt|Hge]; cbn [snd].
  - apply (linv_moved m k c); [done|done|done| |by eapply hold_calm; [apply Hi| |]].
    split; cbn; [|by apply prefix_app_r|rewrite length_app; cbn; lia|done|done].
    intros Hr. rewrite (Hf Hr). by rewrite <-!app_assoc.
  - destruct Hi as [Hs Hh Hc]. split; [exact Hs| |exact Hc]. by eapply hold_calm.
Qed.

Lemma locked_free m r : linv m → (holder m = Free → linv r.2) → linv (locked m r).2.
Proof. intros Hi Hr. unfold locked. destruct (holder m) eqn:E; auto. Qed.

Lemma linv_Send m k buff : linv m → linv (Send k buff m).2.
Proof.
  intros Hi. unfold Send. destruct (heap m !! k) as [c|] eqn:Hk; [|done].
  destruct (holder m) eqn:Ew; [|done..].
  match goal with |- linv (send ?e ?b ?m').2 => assert (linv m') as Hi' end.
  { apply (linv_moved m k c); [done|done|done| |rewrite <-Ew; apply Hi].
    by destruct (linv_conn m k c Hi Hk). }
  unfold send. apply locked_free; [done|]. intros _.
  destruct (conns _ !! _); [|done]. by apply linv_enqueue.
Qed.

Lemma linv_take m k : linv m → linv (take_message k m).2.
Proof.
  intros Hi. unfold take_message. destruct (heap m !! k) as [c|] eqn:Hk; [|done].
  pose proof (linv_conn m k c Hi Hk) as [Hf Hp Hin Hout He].
  destruct (running c) eqn:Er; [|done]. destruct (held c) eqn:Eh; [done|].
  destruct (incomingQueue c) as [|b q] eqn:Eq; [done|].
  apply (linv_moved m k c); [done|done|done| |apply Hi].
  split; cbn; [by rewrite Hf|done|cbn in Hin; lia|done|congruence].
Qed.

Lemma linv_pass m k : linv m → linv (pass_message k m).2.
Proof.
  intros Hi. unfold pass_message. destruct (heap m !! k) as [c|] eqn:Hk; [|done].
  pose proof (linv_conn m k c Hi Hk) as [Hf Hp Hin Hout He].
  destruct (held c) as [b|] eqn:Eh; [|done].
  destruct (running c) eqn:Er; [|by specialize (He eq_refl)].
  destruct (Nat.ltb_spec (length (outgoingQueue c)) LocalMaxBuffer) as [Hlt|Hge]; [|done].
  apply (linv_moved m k c); [done|done|done| |apply Hi].
  split; cbn; [rewrite Hf by done; intros _; by rewrite <-!app_assoc| |done|rewrite length_app; cbn; lia|done].
  exists (incomingQueue c). rewrite Hf by done. by rewrite <-!app_assoc.
Qed.

Lemma linv_Receive m k : linv m → linv (Receive k m).2.
Proof.
  intros Hi. unfold Receive. destruct (heap m !! k) as [c|] eqn:Hk; [|done].
  pose proof (linv_conn m k c Hi Hk) as [Hf Hp Hin Hout He].
  destruct (outgoingQueue c) as [|b q] eqn:Eq; [by destruct (running c)|].
  apply (linv_moved m k c); [done|done|done| |apply Hi].
  split; cbn; [intros Hr; rewrite Hf by done; by rewrite <-!app_assoc|by rewrite <-app_assoc|done|cbn in Hout; lia|done].
Qed.

(** *** New connections *)
Section new_pair.
Context (cs : gmap endpoint nat) (n : nat) (ss : list shape_t) (from to : bytes).
Context (Hends : ends_ok cs n ss).
Definition out_end : endpoint := (from, n).
Definition inc_end : endpoint := (to, S n).
Definition with_pair : list shape_t :=
  ss ++ [(out_end, inc_end, (true, false)); (inc_end, out_end, (true, false))].

Lemma pair_out : with_pair !! n = Some (out_end, inc_end, (true, false)).
Proof. apply list_lookup_middle. by rewrite (so_length _ _ _ Hends). Qed.
Lemma pair_inc : with_pair !! S n = Some (inc_end, out_end, (true, false)).
Proof.
  unfold with_pair. rewrite lookup_app_r by (rewrite (so_length _ _ _ Hends); lia).
  by replace (S n - length ss) with 1 by (rewrite (so_length _ _ _ Hends); lia).
Qed.
Lemma pair_old j : j ≠ n → j ≠ S n → with_pair !! j = ss !! j.
Proof.
  intros H1 H2. pose proof (so_length _ _ _ Hends). unfold with_pair.
  destruct (decide (j < n)); [by rewrite lookup_app_l by lia|].
  rewrite (proj2 (lookup_ge_None _ _)) by (rewrite length_app; cbn; lia). symmetry. apply lookup_ge_None. lia.
Qed.
Lemma partner_new : partner n = S n ∧ partner (S n) = n.
Proof.
  assert (partner n = S n) as E by (unfold partner; by rewrite (so_even _ _ _ Hends)).
  split; [done|]. rewrite <-E at 1. apply partner_partner.
Qed.
Lemma old_end e r st j : ss !! j = Some (e, r, st) → e ≠ inc_end ∧ e ≠ out_end ∧ j ≠ n ∧ j ≠ S n.
Proof.
  intros Hj. destruct (so_ends _ _ _ Hends _ _ _ _ Hj) as [He _]. apply lookup_lt_Some in Hj.
  rewrite (so_length _ _ _ Hends) in Hj. repeat split; try lia; intros ->; cbn in He; lia.
Qed.

Lemma ends_ne : out_end ≠ inc_end.
Proof. unfold out_end, inc_end. intros [= _ H]. lia. Qed.

Lemma ends_connect : ends_ok (<[inc_end := S n]> (<[out_end := n]> cs)) (S (S n)) with_pair.
Proof.
  destruct partner_new as [Hp1 Hp2]. pose proof (so_length _ _ _ Hends) as Hl. split.
  - unfold with_pair. rewrite length_app, Hl. cbn. lia.
  - apply Hends.
  - intros j l r st Hj. destruct (decide (j = n)) as [->|Hjn]; [|destruct (decide (j = S n)) as [->|Hjs]].
    + rewrite pair_out in Hj. injection Hj as <- <- <-. rewrite Hp1, pair_inc. eauto.
    + rewrite pair_inc in Hj. injection Hj as <- <- <-. rewrite Hp2, pair_out. eauto.
    + rewrite pair_old in Hj by done. destruct (so_ends _ _ _ Hends _ _ _ _ Hj) as (H1 & r' & st' & H2).
      split; [done|]. destruct (old_end _ _ _ _ H2) as (_ & _ & H3 & H4). rewrite pair_old by done. eauto.
  - intros e j. destruct (decide (e = inc_end)) as [->|Hi]; [|destruct (decide (e = out_end)) as [->|Ho]].
    + rewrite lookup_insert_eq. split; [intros [= <-]; rewrite pair_inc; eauto|].
      intros (r & x & Hj). destruct (decide (j = S n)) as [->|Hjs]; [done|]. destruct (decide (j = n)) as [->|Hjn].
      * rewrite pair_out in Hj. pose proof ends_ne. congruence.
      * rewrite pair_old in Hj by done. by destruct (old_end _ _ _ _ Hj).
    + rewrite lookup_insert_ne, lookup_insert_eq by done. split; [intros [= <-]; rewrite pair_out; eauto|].
      intros (r & x & Hj). destruct (decide (j = n)) as [->|Hjn]; [done|]. destruct (decide (j = S n)) as [->|Hjs].
      * rewrite pair_inc in Hj. congruence.
      * rewrite pair_old in Hj by done. by destruct (old_end _ _ _ _ Hj) as (_ & ? & _).
    + rewrite !lookup_insert_ne by done. rewrite (so_map _ _ _ Hends). split.
      * intros (r & x & Hj). destruct (old_end _ _ _ _ Hj) as (_ & _ & H1 & H2). rewrite pair_old by done. eauto.
      * intros (r & x & Hj). destruct (decide (j = n)) as [->|Hjn]; [rewrite pair_out in Hj; congruence|].
        destruct (decide (j = S n)) as [->|Hjs]; [rewrite pair_inc in Hj; congruence|].
        rewrite pair_old in Hj by done. eauto.
Qed.

Lemma hold_connect : (∀ j, pair_ok ss j) → ∀ j, pair_ok with_pair j.
Proof.
  intros Hh j. destruct partner_new as [Hp1 Hp2]. unfold pair_ok.
  destruct (decide (j = n)) as [->|Hjn]; [|destruct (decide (j = S n)) as [->|Hjs]].
  - rewrite Hp1, pair_out, pair_inc. split; [done|]. by intros ?? [= <- <-].
  - rewrite Hp2, pair_out, pair_inc. split; [done|]. by intros ?? [= <- <-].
  - assert (partner j ≠ n) by (rewrite partner_eq, Hp1; done).
    assert (partner j ≠ S n) by (rewrite partner_eq, Hp2; done).
    rewrite !pair_old by done. apply Hh.
Qed.
End new_pair.

Lemma linv_connect m from to : linv m → linv (connect from to m).2.
Proof.
  intros Hi. unfold connect. apply locked_free; [done|]. intros Ew.
  destruct (listening m !! to) as [fn|]; [|done]. destruct Hi as [He Hh Hc].
  assert (length (heap m) = counter m) as Hl by (rewrite <-(so_length _ _ _ He), length_fmap; done).
  rewrite Hl. split; cbn [conns counter heap holder snd].
  - rewrite fmap_app. by apply (ends_connect (conns m) (counter m)).
  - rewrite Ew in Hh. rewrite fmap_app. intros j. exact (hold_connect _ _ _ from to He Hh j).
  - apply Forall_app. split; [done|].
    assert (∀ l r, conn_ok (newLocalConn l r)) as Hnew by (intros; split; cbn; unfold LocalMaxBuffer; done || lia).
    repeat constructor; apply Hnew.
Qed.

(** *** Closing *)

Lemma conn_ok_state c r cl : conn_ok c → (r = true → running c = true) → (r = false → held c = None) →
  conn_ok (set_state r cl c).
Proof. intros [Hf Hp Hi Ho He] Hr Hh. split; cbn; auto. Qed.

Lemma linv_Close m k : linv m → linv (Close k m).2.
Proof.
  intros Hi. unfold Close. destruct (heap m !! k) as [c|] eqn:Hk; [|done].
  destruct (closing c) eqn:Ec; [done|]. apply locked_free; [done|]. intros Ew.
  destruct (conns m !! local c); [|done]. cbn [snd]. pose proof (linv_conn m k c Hi Hk) as Hok.
  destruct Hi as [He Hh Hc].
  assert ((shape <$> heap m) !! k = Some (local c, remote c, (running c, false))) as Hs.
  { rewrite list_lookup_fmap, Hk. cbn. unfold shape. by rewrite Ec. }
  rewrite Ew in Hh. split; cbn [conns counter heap holder set_heap]; rewrite ?list_fmap_insert.
  - exact (ends_delete _ _ _ _ _ _ _ (running c) He Hs).
  - by apply hold_close.
  - apply Forall_insert; [done|]. apply conn_ok_state; [done|done|]. intros Hr. by apply Hok.
Qed.

Lemma linv_shut m k : linv m → linv (shut k m).2.
Proof.
  intros Hi. unfold shut. destruct (heap m !! k) as [c|] eqn:Hk; [|done].
  destruct (running c && closing c && bool_decide (held c = None)) eqn:Ecl; [|done].
  apply andb_prop in Ecl as [[Er Ec]%andb_prop Eh%bool_decide_eq_true].
  pose proof (linv_conn m k c Hi Hk) as Hok. pose proof Hi as [He Hh Hc].
  assert ((shape <$> heap m) !! k = Some (local c, remote c, (true, true))) as Hs.
  { rewrite list_lookup_fmap, Hk. cbn. unfold shape. by rewrite Er, Ec. }
  assert (Forall conn_ok (<[k := set_state false true c]> (heap m))) as Hc'.
  { apply Forall_insert; [done|]. by apply conn_ok_state. }
  destruct (holder m) as [| |k'|k'] eqn:Ew; [done|done|..]; (destruct (decide (k' = k)) as [->|]; [|done]); cbn [snd].
  - pose proof Hh as (_ & Hpst & _). destruct (ends_lookup _ _ _ _ _ _ _ He Hs) as [st Hp].
    rewrite Hp in Hpst. injection Hpst as ->.
    assert (conns m !! remote c = Some (partner k)) as Hm by (apply (so_map _ _ _ He); eauto).
    rewrite list_lookup_fmap in Hp. destruct (heap m !! partner k) as [c'|] eqn:Hk'; [|done]. injection Hp as H1 H2 H3 H4.
    assert (shape c' = (remote c, local c, (true, false))) as Hsh by (unfold shape; congruence).
    unfold close_remote. cbn [conns heap set_heap]. rewrite Hm, lookup_partner_insert, Hk'.
    assert (shape (set_state (running c') true c') = (remote c, local c, (true, true))) as Hsh'.
    { unfold shape in *. cbn. congruence. }
    assert ((shape <$> heap m) !! partner k = Some (remote c, local c, (true, false))) as Hp.
    { by rewrite list_lookup_fmap, Hk', <-Hsh. }
    split; cbn [conns counter heap holder set_heap]; rewrite ?list_fmap_insert, ?Hsh'.
    + eapply ends_delete; [exact (ends_shut _ _ _ _ _ _ true false He Hs)|].
      rewrite lookup_partner_insert. exact Hp.
    + by apply hold_shut_first.
    + apply Forall_insert; [done|]. assert (conn_ok c') as Hok' by by eapply linv_conn.
      apply conn_ok_state; [done|done|apply Hok'].
  - split; cbn [conns counter heap holder set_heap]; rewrite ?list_fmap_insert.
    + exact (ends_shut _ _ _ _ _ _ true false He Hs).
    + by apply hold_shut_second.
    + done.
Qed.

Lemma linv_run m op : linv m → linv (run m op).2.
Proof.
  intros Hi. destruct op as [addr fn|addr|from to|k buff| |k|k|k|k|k]; cbn [run].
  - apply locked_free; [done|]. intros _. by destruct Hi.
  - apply locked_free; [done|]. intros _. by destruct Hi.
  - by apply linv_connect.
  - by apply linv_Send.
  - unfold resume_send. destruct (holder m) eqn:E; try done. apply linv_enqueue; [done|by rewrite E].
  - by apply linv_take.
  - by apply linv_pass.
  - by apply linv_shut.
  - by apply linv_Close.
  - by apply linv_Receive.
Qed.

Lemma linv_new : linv NewLocalManager.
Proof.
  split; [|done|apply Forall_nil_2]. split; [done|done|by intros ????|].
  intros e k. cbn [conns NewLocalManager]. rewrite lookup_empty. split; [done|]. by intros (? & ? & ?).
Qed.
Lemma linv_runs ops m : linv m → linv (runs m ops).
Proof. revert m. induction ops as [|op ops IH]; intros m Hi; [done|]. apply IH, linv_run, Hi. Qed.

(** C27: in every interleaving of listening, connecting, sending, receiving,
    closing and the goroutines of the connections: an end has received, in order
    and once each, a prefix of the messages sent to it, and while its goroutine
    runs all others are in its queues, which hold at most 200 each; a connection is
    in the map exactly while it is not closed; and when nobody closes a connection,
    its two ends are open together or have both ended. *)
Theorem local_fifo ops k c :
  let m := runs NewLocalManager ops in
  heap m !! k = Some c →
  recv_log c ++ outgoingQueue c `prefix_of` sent_log c ∧
  (running c = true → sent_log c = recv_log c ++ outgoingQueue c ++ option_list (held c) ++ incomingQueue c) ∧
  (length (incomingQueue c) <= LocalMaxBuffer)%nat ∧ (length (outgoingQueue c) <= LocalMaxBuffer)%nat ∧
  (conns m !! local c = Some k ↔ closing c = false) ∧
  ∃ c', heap m !! partner k = Some c' ∧ remote c = local c' ∧ remote c' = local c ∧
    (calm (holder m) → closing c = closing c' ∧ running c = negb (closing c) ∧ running c' = negb (closing c')).
Proof.
  intros m Hk. pose proof (linv_runs ops _ linv_new) as Hi. fold m in Hi. clearbody m.
  destruct (linv_conn m k c Hi Hk) as [Hf Hp Hin Hout _]. destruct Hi as [He Hh _].
  assert ((shape <$> heap m) !! k = Some (shape c)) as Hs by by rewrite list_lookup_fmap, Hk.
  do 4 (split; [done|]). split.
  - rewrite (so_map _ _ _ He). split.
    + intros (r & x & H). rewrite Hs in H. by injection H.
    + intros Hc. exists (remote c), (running c). rewrite Hs. unfold shape. by rewrite Hc.
  - destruct (ends_lookup _ _ _ _ _ _ _ He Hs) as [st Hpk]. rewrite list_lookup_fmap in Hpk.
    destruct (heap m !! partner k) as [c'|] eqn:Hk'; [|done]. injection Hpk as H1 H2 H3.
    exists c'. do 3 (split; [done|]). intros Hw.
    assert (∀ j, pair_ok (shape <$> heap m) j) as Hpair by by destruct (holder m).
    destruct (Hpair k) as [Hab Hx]. destruct (Hpair (partner k)) as [_ Hy].
    rewrite !list_lookup_fmap, Hk, Hk' in Hab. rewrite list_lookup_fmap, Hk in Hx. rewrite list_lookup_fmap, Hk' in Hy.
    cbn in Hab, Hx, Hy. injection Hab as _ Hab. split; [done|]. split; [by apply Hx|by apply Hy].
Qed.

(** ** Delivery *)

(** Reading everything that is in the outgoing queue. *)
Lemma receive_outgoing q : ∀ m k c, heap m !! k = Some c → outgoingQueue c = q →
  ∃ c', heap (runs m (replicate (length q) (LReceive k))) !! k = Some c' ∧
    outgoingQueue c' = [] ∧ recv_log c' = recv_log c ++ q ∧ held c' = held c ∧
    incomingQueue c' = incomingQueue c ∧ running c' = running c ∧ sent_log c' = sent_log c.
Proof.
  induction q as [|b q IH]; intros m k c Hk Hq.
  - exists c. cbn. rewrite app_nil_r. done.
  - cbn [length replicate runs foldl run]. unfold Receive. rewrite Hk, Hq. cbn [snd].
    match goal with |- context [set_heap m (<[k := ?c1]> _) _ _] => destruct (IH
      (set_heap m (<[k := c1]> (heap m)) (conns m) (holder m)) k c1) as (c' & Hc' & H1 & H2 & H3) end.
    + cbn. apply list_lookup_insert_eq. by eapply lookup_lt_Some.
    + done.
    + exists c'. split; [exact Hc'|]. split; [done|]. split; [|exact H3]. rewrite H2. cbn. by rewrite <-app_assoc.
Qed.

(** One message through the goroutine. *)
Lemma deliver_held m k c b :
  heap m !! k = Some c → held c = Some b → outgoingQueue c = [] →
  ∃ c', heap (runs m [LPass k; LReceive k]) !! k = Some c' ∧
    outgoingQueue c' = [] ∧ recv_log c' = recv_log c ++ [b] ∧ held c' = None ∧
    incomingQueue c' = incomingQueue c ∧ running c' = running c ∧ sent_log c' = sent_log c.
Proof.
  intros Hk Hh Hq. assert (k < length (heap m))%nat as Hlt by by eapply lookup_lt_Some.
  cbn [runs foldl run]. unfold pass_message. rewrite Hk, Hh, Hq. cbn [length].
  change (0 <? LocalMaxBuffer)%nat with true. cbn [snd]. unfold Receive.
  cbn [heap set_heap]. rewrite list_lookup_insert_eq by done. cbn [outgoingQueue set_queues app snd].
  cbn [heap set_heap]. rewrite list_insert_insert_eq, list_lookup_insert_eq by done. by eexists.
Qed.

Lemma deliver_incoming q : ∀ m k c,
  heap m !! k = Some c → incomingQueue c = q → held c = None → outgoingQueue c = [] → running c = true →
  ∃ c', heap (runs m (concat (replicate (length q) [LTake k; LPass k; LReceive k]))) !! k = Some c' ∧
    outgoingQueue c' = [] ∧ incomingQueue c' = [] ∧ held c' = None ∧ recv_log c' = recv_log c ++ q ∧
    sent_log c' = sent_log c.
Proof.
  induction q as [|b q IH]; intros m k c Hk Hq Hh Ho Hr.
  - exists c. cbn. rewrite app_nil_r. done.
  - assert (k < length (heap m))%nat as Hlt by by eapply lookup_lt_Some.
    cbn [length replicate concat app]. unfold runs. cbn [foldl].
    assert ((run m (LTake k)).2 = set_heap m (<[k := set_queues c q (Some b) [] (sent_log c) (recv_log c)]> (heap m))
      (conns m) (holder m)) as ->.
    { cbn [run]. unfold take_message. by rewrite Hk, Hr, Hh, Hq, Ho. }
    set (c1 := set_queues c q (Some b) [] (sent_log c) (recv_log c)). set (m1 := set_heap m _ _ _).
    destruct (deliver_held m1 k c1 b) as (c2 & Hk2 & H1 & H2 & H3 & H4 & H5 & H6); [|done|done|].
    { cbn. by apply list_lookup_insert_eq. }
    destruct (IH (runs m1 [LPass k; LReceive k]) k c2) as (c' & Hc' & ? & ? & ? & Hrec & Hs); [done|by rewrite H4|done|done|by rewrite H5|].
    exists c'. split; [exact Hc'|]. do 3 (split; [done|]). split; [|by rewrite Hs, H6].
    rewrite Hrec, H2. cbn. by rewrite <-app_assoc.
Qed.

(** From every reachable state, whoever holds the lock, an end whose goroutine
    runs comes to receive everything that was sent to it, in order, by steps of
    its own goroutine and of its reader. *)
Theorem local_delivers ops k c :
  let m := runs NewLocalManager ops in
  heap m !! k = Some c → running c = true →
  ∃ steps, Forall (λ op, op = LTake k ∨ op = LPass k ∨ op = LReceive k) steps ∧
  ∃ c', heap (runs m steps) !! k = Some c' ∧ recv_log c' = sent_log c ∧ sent_log c' = sent_log c ∧
    incomingQueue c' = [] ∧ held c' = None ∧ outgoingQueue c' = [].
Proof.
  intros m Hk Hr. pose proof (linv_conn m k c (linv_runs ops _ linv_new) Hk) as [Hf _ _ _ _]. clearbody m.
  specialize (Hf Hr).
  destruct (receive_outgoing (outgoingQueue c) m k c Hk eq_refl) as (c1 & Hk1 & Ho1 & Hr1 & Hh1 & Hi1 & Hn1 & Hs1).
  set (l1 := replicate (length (outgoingQueue c)) (LReceive k)) in *.
  assert (Forall (λ op, op = LTake k ∨ op = LPass k ∨ op = LReceive k) l1) as Hl1 by (apply Forall_replicate; auto).
  assert (∃ l2 c2, Forall (λ op, op = LTake k ∨ op = LPass k ∨ op = LReceive k) l2 ∧
    heap (runs m (l1 ++ l2)) !! k = Some c2 ∧ outgoingQueue c2 = [] ∧ held c2 = None ∧
    recv_log c2 = recv_log c ++ outgoingQueue c ++ option_list (held c) ∧
    incomingQueue c2 = incomingQueue c ∧ running c2 = true ∧ sent_log c2 = sent_log c)
    as (l2 & c2 & Hl2 & Hk2 & Ho2 & Hh2 & Hr2 & Hi2 & Hn2 & Hs2).
  { destruct (held c) as [b|] eqn:Eh.
    - destruct (deliver_held (runs m l1) k c1 b Hk1 Hh1 Ho1) as (c2 & Hk2 & H1 & H2 & H3 & H4 & H5 & H6).
      exists [LPass k; LReceive k], c2. split; [repeat (apply Forall_cons; split; [auto|]); done|].
      split; [by unfold runs in *; rewrite foldl_app|]. split; [done|]. split; [done|].
      split; [by rewrite H2, Hr1, <-app_assoc|]. split; [congruence|]. split; congruence.
    - exists [], c1. split; [done|]. split; [by rewrite app_nil_r|]. split; [done|]. split; [done|].
      split; [by rewrite Hr1, app_nil_r|]. split; [done|]. split; congruence. }
  destruct (deliver_incoming (incomingQueue c) (runs m (l1 ++ l2)) k c2 Hk2 Hi2 Hh2 Ho2 Hn2)
    as (c3 & Hk3 & H1 & H2 & H3 & H4 & H5).
  exists ((l1 ++ l2) ++ concat (replicate (length (incomingQueue c)) [LTake k; LPass k; LReceive k])). split.
  - rewrite !Forall_app. split; [done|]. apply Forall_concat, Forall_replicate.
    repeat (apply Forall_cons; split; [auto|]). done.
  - exists c3. split; [by unfold runs in *; rewrite foldl_app|]. split; [|split; [congruence|done]].
    rewrite H4, Hr2, Hf, <-!app_assoc. done.
Qed.

(** ** Waiting with the lock *)

(** An end that nobody reads: its goroutine waits for room. *)
Definition full (c : LocalConn) : Prop :=
  is_Some (held c) ∧ length (outgoingQueue c) = LocalMaxBuffer.
Definition waits_for (k : nat) (c : LocalConn) (w : Holder) : Prop :=
  match w with
  | Free => False
  | SendBlocked k' _ => k' = k ∧ length (incomingQueue c) = LocalMaxBuffer
  | CloseFirst k' | CloseSecond k' => k' = k
  end.
Definition stuck (k : nat) (w : Holder) (m : LocalManager) : Prop :=
  holder m = w ∧ ∃ c, heap m !! k = Some c ∧ full c ∧ waits_for k c w.

Lemma stuck_insert k w m j c' :
  stuck k w m → j ≠ k → stuck k w (set_heap m (<[j := c']> (heap m)) (conns m) (holder m)).
Proof.
  intros (Hw & c & Hk & Hf & Hwait) Hj. split; [done|]. exists c. cbn. by rewrite list_lookup_insert_ne by congruence.
Qed.

Lemma stuck_locked k w m r : stuck k w m → locked m r = (RBlocked, m).
Proof. intros (Hw & c & _ & _ & Hwait). unfold locked. by destruct (holder m); subst. Qed.

Lemma stuck_Send k w m j b : stuck k w m → Send j b m = (RBlocked, m).
Proof.
  intros (Hw & c & _ & _ & Hwait). unfold Send. destruct (heap m !! j); [|done].
  by destruct (holder m); subst.
Qed.

Lemma stuck_run k w m op : stuck k w m → op ≠ LReceive k → stuck k w (run m op).2.
Proof.
  intros Hs Hop. pose proof Hs as (Hw & c & Hk & [[b Hh] Ho] & Hwait).
  destruct op as [addr fn|addr|from to|j buff| |j|j|j|j|j]; cbn [run].
  - unfold setListening. by rewrite (stuck_locked k w).
  - unfold unsetListening. by rewrite (stuck_locked k w).
  - unfold connect. by rewrite (stuck_locked k w).
  - by rewrite (stuck_Send k w).
  - unfold resume_send. destruct (holder m) as [|k' msg|k'|k'] eqn:Ew; [done| |done|done].
    subst w. destruct Hwait as [-> Hin]. unfold enqueue. rewrite Hk, Hin. split; [done|]. by exists c.
  - unfold take_message. destruct (heap m !! j) as [cj|] eqn:Hj; [|done].
    destruct (decide (j = k)) as [->|Hne].
    + replace cj with c by congruence. rewrite Hh. by destruct (running c).
    + destruct (running cj), (held cj), (incomingQueue cj); try done. by apply stuck_insert.
  - unfold pass_message. destruct (heap m !! j) as [cj|] eqn:Hj; [|done].
    destruct (decide (j = k)) as [->|Hne].
    + replace cj with c by congruence. rewrite Hh, Ho. done.
    + destruct (held cj); [|done]. destruct (_ <? _)%nat; [|done]. by apply stuck_insert.
  - unfold shut. destruct (heap m !! j) as [cj|] eqn:Hj; [|done].
    destruct (decide (j = k)) as [->|Hne].
    + replace cj with c by congruence. rewrite Hh, (bool_decide_false (Some b = None)) by done. by rewrite andb_false_r.
    + destruct (_ && _); [|done]. destruct (holder m) as [| |k'|k'] eqn:Ew; [done|done|..];
        subst w; cbn in Hwait; subst k'; by rewrite decide_False by done.
  - unfold Close. destruct (heap m !! j); [|done]. destruct (closing _); [done|]. by rewrite (stuck_locked k w).
  - unfold Receive. destruct (heap m !! j) as [cj|] eqn:Hj; [|done].
    assert (j ≠ k) by congruence. destruct (outgoingQueue cj); [by destruct (running cj)|]. by apply stuck_insert.
Qed.

(** A send to an end whose queues are full, or the closing of an end whose
    goroutine waits for room, keeps the lock of the manager until somebody reads
    from that end: until then no other call returns, for no connection of the
    manager: no connection is made, nothing is sent, nothing open is closed and
    no listener starts or stops. *)
Theorem local_lock_stuck k w m ops :
  stuck k w m → Forall (λ op, op ≠ LReceive k) ops →
  let m' := runs m ops in
  holder m' = w ∧
  (∀ from to, connect from to m' = (RBlocked, m')) ∧
  (∀ j buff, Send j buff m' = (RBlocked, m')) ∧
  (∀ addr fn, setListening addr fn m' = (RBlocked, m') ∧ unsetListening addr m' = (RBlocked, m')) ∧
  (∀ j c, heap m' !! j = Some c → closing c = false → Close j m' = (RBlocked, m')).
Proof.
  intros Hs Hops m'. assert (stuck k w m') as Hs'.
  { unfold m'. clear m'. revert m Hs. induction Hops as [|op ops Hop Hops IH]; intros m Hs; [done|].
    apply IH. by apply stuck_run. }
  clearbody m'. split; [apply Hs'|].
  split; [intros; unfold connect; by rewrite (stuck_locked k w)|].
  split; [intros; by rewrite (stuck_Send k w)|].
  split; [intros; unfold setListening, unsetListening; by rewrite !(stuck_locked k w)|].
  intros j c Hj Hc. unfold Close. rewrite Hj, Hc. by rewrite (stuck_locked k w).
Qed.

(** ** Listeners and hosts *)
Section hosts.
Context (lower_unicode : bytes → bytes).

(** [LocalListener]; the function that is called for connections is known by
    number. *)
Record LocalListener := { ll_addr : bytes; ll_listening : bool }.

Definition NewLocalListenerWithManager (m : LocalManager) (addr : bytes) : outcome error LocalListener :=
  let! t := ConnType lower_unicode addr in
  if negb (bool_decide (t = Addresses.Local)) then Err "Wrong address type for local listener"
  else if isListening addr m then Err "already listening: can't listen again"
  else Ret {| ll_addr := addr; ll_listening := false |}.

(** [Listen] up to the wait, [Stop]; they wait for the lock of the manager. *)
Definition Listen (fn : nat) (l : LocalListener) (m : LocalManager) : LRes * (LocalListener * LocalManager) :=
  if ll_listening l then (RErr "Already listening", (l, m))
  else match setListening (ll_addr l) fn m with
       | (ROk, m) => (ROk, ({| ll_addr := ll_addr l; ll_listening := true |}, m))
       | (r, m) => (r, (l, m))
       end.
Definition Stop (l : LocalListener) (m : LocalManager) : LRes * (LocalListener * LocalManager) :=
  if negb (ll_listening l) then (ROk, (l, m))
  else match unsetListening (ll_addr l) m with
       | (ROk, m) => (ROk, ({| ll_addr := ll_addr l; ll_listening := false |}, m))
       | (r, m) => (r, (l, m))
       end.

Definition MaxRetryConnect : nat := 5.

(** The loops of [NewLocalConnWithManager] and [LocalHost.Connect]: [attempt] is
    what the [i]-th call of [connect] returns. *)
Fixpoint conn_loop (attempt : nat → LRes) (i n : nat) : outcome error nat :=
  match n with
  | O => Err "Could not connect"
  | S n =>
      match attempt i with
      | RConn k => Ret k
      | RErr e => if decide (n = 0) then Err e else conn_loop attempt (S i) n
      | _ => OutOfFuel
      end
  end.
Definition NewLocalConnWithManager (attempt : nat → LRes) : outcome error nat :=
  conn_loop attempt 0 MaxRetryConnect.

Fixpoint host_loop (attempt : nat → nat → LRes) (i n : nat) (finalErr : error) : outcome error nat :=
  match n with
  | O => Err finalErr
  | S n =>
      match NewLocalConnWithManager (attempt i) with
      | Err e => host_loop attempt (S i) n e
      | r => r
      end
  end.
Definition Host_Connect (attempt : nat → nat → LRes) (addr : bytes) : outcome error nat :=
  let! t := ConnType lower_unicode addr in
  if negb (bool_decide (t = Addresses.Local)) then Err "Can't connect to non-Local address"
  else host_loop attempt 0 MaxRetryConnect EmptyString.
End hosts.
End Local.

(** ** Examples and witnesses *)
Module LocalExample.
Import Local.

Definition a : bytes := str "local://127.0.0.1:2000".
Definition b : bytes := str "local://127.0.0.1:2001".
Definition setup : list LOp := [LListen b 7; LConnect a b].

(** Two ends; the messages of the first arrive in order at the second. *)
Definition exchange : list LOp :=
  setup ++ [LSend 0 (str "x"); LSend 0 (str "y"); LTake 1; LPass 1; LReceive 1; LSend 1 (str "z"); LTake 1].
Definition after (ops : list LOp) : LocalManager := runs NewLocalManager ops.

Example results :
  (λ ops, (run (after ops) (LReceive 1)).1) <$>
    [setup; setup ++ [LSend 0 (str "x"); LTake 1; LPass 1];
     setup ++ [LSend 0 (str "x"); LTake 1; LPass 1; LClose 0; LShut 0; LShut 1];
     setup ++ [LSend 0 (str "x"); LClose 0; LShut 0; LShut 1]] =
  [RBlocked; RMsg (str "x"); RMsg (str "x"); RErr ErrClosed].
Proof. vm_compute. reflexivity. Qed.

(** Of two listeners made before either listens, both listen; stopping one stops
    both. *)
Example two_listeners :
  let m := NewLocalManager in
  match NewLocalListenerWithManager (λ s, s) m a, NewLocalListenerWithManager (λ s, s) m a with
  | Ret l1, Ret l2 =>
      let '(r1, (l1, m)) := Listen 1 l1 m in
      let '(r2, (l2, m)) := Listen 2 l2 m in
      let '(_, (l1, m')) := Stop l1 m in
      (r1, r2, isListening a m, ll_listening l2, isListening a m') = (ROk, ROk, true, true, false)
  | _, _ => False
  end.
Proof. vm_compute. reflexivity. Qed.

Definition end1 : LocalConn :=
  {| local := (b, 1); remote := (a, 0); incomingQueue := []; held := Some (str "y"); outgoingQueue := [];
     running := true; closing := false; tx := 1; rx := 1; sent_log := [str "x"; str "y"]; recv_log := [str "x"] |}.
Lemma exchange_end : heap (runs NewLocalManager exchange) !! 1 = Some end1.
Proof. by_vm. Qed.

Lemma local_fifo_witness :
  sent_log end1 = recv_log end1 ++ outgoingQueue end1 ++ option_list (held end1) ++ incomingQueue end1 ∧
  conns (runs NewLocalManager exchange) !! local end1 = Some 1.
Proof.
  destruct (local_fifo exchange 1 end1 exchange_end) as (_ & H & _ & _ & Hm & _).
  split; [exact (H eq_refl)|exact (proj2 Hm eq_refl)].
Defined.

Lemma local_delivers_witness :
  ∃ steps c', heap (runs (runs NewLocalManager exchange) steps) !! 1 = Some c' ∧ recv_log c' = [str "x"; str "y"].
Proof.
  destruct (local_delivers exchange 1 end1 exchange_end eq_refl) as (steps & _ & c' & Hc & Hr & _).
  exists steps, c'. split; [exact Hc|exact Hr].
Defined.

(** 401 messages that nobody reads fill an end; the next one takes the lock. *)
Definition flood : list LOp :=
  setup ++ concat (replicate 201 [LSend 0 [x00]; LTake 1; LPass 1]) ++ replicate 201 (LSend 0 [x00]).

Definition end0 : LocalConn :=
  {| local := (a, 0); remote := (b, 1); incomingQueue := []; held := None; outgoingQueue := [];
     running := true; closing := false; tx := 402; rx := 0; sent_log := []; recv_log := [] |}.
Lemma flood_stuck : stuck 1 (SendBlocked 1 [x00]) (after flood).
Proof.
  split; [by vm_compute|]. eexists. split; [vm_compute; reflexivity|].
  split; [split; [by eexists|by vm_compute]|]. split; [done|by vm_compute].
Qed.

Lemma local_lock_stuck_witness :
  Close 0 (runs (after flood) [LClose 0; LConnect a b]) = (RBlocked, runs (after flood) [LClose 0; LConnect a b]).
Proof.
  destruct (local_lock_stuck 1 (SendBlocked 1 [x00]) (after flood) [LClose 0; LConnect a b]) as (_ & _ & _ & _ & H).
  - exact flood_stuck.
  - repeat constructor; discriminate.
  - apply (H 0 end0); by_vm.
Defined.
End LocalExample.
