(* ===== verification/ClientError.v ===== *)
(** * Errors for clients ([imported/onet/websocket.go])

    [onet.ClientError]: an error code and a message, sent over a websocket as
    the text of a close message and parsed back on the other side. *)
From Stdlib Require Import Ascii DecimalString DecimalPos DecimalZ.
From S2P Require Import Prelude.
Local Open Scope Z_scope.

Record ClientError := NewClientErrorCode { ErrorCode : Z; ErrorMsg : string }.

#[local] Arguments Ascii.eqb : simpl never.

Definition wsPrefix : string := "websocket: close ".

(** [strconv.Itoa] and [strconv.Atoi] with its error ignored: 0 for what is not a
    number, the nearest [int] for one that is too large. *)
Definition Itoa (z : Z) : string := NilZero.string_of_int (Z.to_int z).
Definition Atoi (s : string) : Z :=
  match (match s with
         | String "+"%char s => Decimal.Pos <$> NilZero.uint_of_string s
         | _ => NilZero.int_of_string s
         end) with
  | Some d => Z.max (- 2 ^ 63) (Z.min (2 ^ 63 - 1) (Z.of_int d))
  | None => 0
  end.

(** [strings.SplitN(s, ":", 2)]: what follows the first colon, if any. *)
Fixpoint split_colon (s : string) : string * option string :=
  match s with
  | EmptyString => (EmptyString, None)
  | String c s =>
      if Ascii.eqb c ":"%char then (EmptyString, Some s)
      else let '(a, b) := split_colon s in (String c a, b)
  end.

(** [str[len(prefix):]] when [str] has the prefix. *)
Fixpoint cut_prefix (prefix s : string) : option string :=
  match prefix, s with
  | EmptyString, _ => Some s
  | String a prefix, String b s => if Ascii.eqb a b then cut_prefix prefix s else None
  | _, EmptyString => None
  end.

(** [NewClientError] of the text of an error. *)
Definition NewClientError (e : string) : ClientError :=
  match cut_prefix wsPrefix e with
  | Some str =>
      let '(code, msg) := split_colon str in
      let msg := match msg with Some (String _ msg) => msg | _ => EmptyString end in
      NewClientErrorCode (Atoi code) msg
  | None => NewClientErrorCode 0 e
  end.

(** [Error]; a nil error has no text. *)
Definition Error (ce : option ClientError) : string :=
  match ce with
  | None => EmptyString
  | Some ce =>
      if 0 <? ErrorCode ce
      then String.append wsPrefix (String.append (Itoa (ErrorCode ce)) (String.append ": " (ErrorMsg ce)))
      else ErrorMsg ce
  end.

Lemma append_cons a s t : String.append (String a s) t = String a (String.append s t).
Proof. done. Qed.

Lemma cut_prefix_append p s : cut_prefix p (String.append p s) = Some s.
Proof. induction p as [|a p IH]; [by destruct s|]. cbn.
  change (String a p +:+ s) with (String a (p +:+ s)). cbn iota. by rewrite Ascii.eqb_refl. Qed.

(** A decimal number has no colon. *)
Lemma split_colon_digits d s :
  split_colon (String.append (NilEmpty.string_of_uint d) (String ":" s))
  = (NilEmpty.string_of_uint d, Some s).
Proof. induction d as [|d IH|d IH|d IH|d IH|d IH|d IH|d IH|d IH|d IH|d IH]; cbn;
    [done|rewrite append_cons; cbn; by rewrite IH..]. Qed.

Lemma split_colon_none d : split_colon (NilEmpty.string_of_uint d) = (NilEmpty.string_of_uint d, None).
Proof. induction d as [|d IH|d IH|d IH|d IH|d IH|d IH|d IH|d IH|d IH|d IH]; cbn; [done|by rewrite IH..]. Qed.

(** The text of a positive number is a digit followed by digits. *)
Lemma Itoa_pos z : 0 < z → ∃ d, d ≠ Decimal.Nil ∧ Z.to_int z = Decimal.Pos d ∧
  Itoa z = NilEmpty.string_of_uint d.
Proof.
  intros Hz. destruct z as [|p|p]; [lia| |lia]. exists (Pos.to_uint p).
  assert (Pos.to_uint p ≠ Decimal.Nil) as Hne by apply DecimalPos.Unsigned.to_uint_nonnil.
  split; [done|]. split; [done|]. unfold Itoa. cbn. unfold NilZero.string_of_uint.
  by destruct (Pos.to_uint p).
Qed.

Lemma Atoi_Itoa_code z : 0 < z < 2 ^ 63 → Atoi (Itoa z) = z.
Proof.
  intros [Hz Hmax]. destruct (Itoa_pos z Hz) as (d & Hne & Hd & Hs). unfold Atoi.
  assert (NilZero.int_of_string (Itoa z) = Some (Z.to_int z)) as H
    by (unfold Itoa; apply NilZero.isi; rewrite Hd; congruence).
  rewrite Hs in *. rewrite H. cbn [fmap option_fmap option_map].
  assert (Z.of_int (Decimal.Pos d) = z) as Hv by (rewrite <-Hd; apply DecimalZ.of_to).
  destruct d; try done; cbn [NilEmpty.string_of_uint]; rewrite Hd, Hv; lia.
Qed.

(** The text of a close frame, which has no colon without a message. *)
Lemma close_text_parsed code msg : 0 < code < 2 ^ 63 →
  NewClientError (String.append wsPrefix (String.append (Itoa code)
    (match msg with EmptyString => EmptyString | _ => String.append ": " msg end))) = NewClientErrorCode code msg.
Proof.
  intros Hc. unfold NewClientError. rewrite cut_prefix_append.
  destruct (Itoa_pos code (proj1 Hc)) as (d & _ & _ & Hs). pose proof (Atoi_Itoa_code code Hc) as HA.
  rewrite Hs in *. destruct msg as [|a msg].
  - assert (∀ s, String.append s "" = s) as -> by (induction s as [|? s IH]; [done|]; by rewrite append_cons, IH).
    rewrite split_colon_none. by rewrite HA.
  - rewrite (append_cons _ _ (String a msg)), split_colon_digits. by rewrite HA.
Qed.

(** An error for a client survives the websocket: the text of an error with
    a positive code parses back to the same code and message, whatever the
    message holds; an error without code keeps its text unless that text looks
    like a close message. *)
Theorem client_error_roundtrip ce :
  (0 < ErrorCode ce < 2 ^ 63 → NewClientError (Error (Some ce)) = ce) ∧
  (ErrorCode ce = 0 → cut_prefix wsPrefix (ErrorMsg ce) = None →
   NewClientError (Error (Some ce)) = ce).
Proof.
  destruct ce as [code msg]. unfold Error, NewClientError. cbn [ErrorCode ErrorMsg]. split.
  - intros Hc. rewrite (proj2 (Z.ltb_lt _ _)) by lia. rewrite cut_prefix_append.
    destruct (Itoa_pos code (proj1 Hc)) as (d & _ & _ & Hs). pose proof (Atoi_Itoa_code code Hc) as HA.
    rewrite Hs in *. rewrite (append_cons _ _ msg), split_colon_digits. by rewrite HA.
  - intros -> Hp. change (0 <? 0) with false. cbn iota. by rewrite Hp.
Qed.

(** ** Witness *)

Lemma client_error_roundtrip_witness :
  NewClientError "websocket: close 4001: a: b" = NewClientErrorCode 4001 "a: b".
Proof. apply (proj1 (client_error_roundtrip (NewClientErrorCode 4001 "a: b"))). split; reflexivity. Defined.
