(* ===== verification/Websocket.v ===== *)
(** * Clients and services over websockets ([imported/onet/processor.go], [websocket.go])

    [Processor] is the table of handlers of a service: registration checks the
    type of a function by reflection, a request is decoded, handled and the reply
    encoded.  [Websocket] is both ends of the websockets: the server's loop over
    the requests of a connection and the client with its connections.  The
    websocket library is third-party: a connection is a pair of queues of frames
    and the text of the error a close frame is read as is a parameter. *)
From S2P Require Import Prelude GoStrings Address Wire Protobuf ProtobufScalars ProtobufRoundtrip ProtobufTotal ProtobufExample ProtobufTyped Tcp ClientError.
Import Strings.
Local Open Scope Z_scope.

Definition WebSocketErrorPathNotFound : Z := 4000.
Definition WebSocketErrorProtobufDecode : Z := 4001.
Definition WebSocketErrorProtobufEncode : Z := 4002.
Definition WebSocketErrorInvalidErrorCode : Z := 4003.
Definition WebSocketErrorRead : Z := 4004.

(** ** Handlers *)
Module Processor.
Section processor.
Context {M : Methods} (gens : gmap bytes (gtype * gvalue)).
(** [reflect.Type.String]. *)
Context (type_string : gtype → bytes).
(** What the handlers of a service work on. *)
Context {St : Type}.

(** A returned value: an interface, or an error for the client. *)
Inductive result :=
  | RValue (v : option (gtype * gvalue))
  | RError (e : option ClientError).

(** A function and its type; it returns or panics. *)
Record func := {
  In : list gtype;
  Out : list gtype;
  body : list gvalue → SM St Empty_set (list result);
}.

(** What is given to [RegisterHandler]. *)
Inductive goiface := Func (f : func) | NoFunc (t : gtype).

Definition ClientErrorType : gtype := TInterface "onet.ClientError".

Record serviceHandler := { handler : func; msgType : gtype }.
Abbreviation handlers := (gmap bytes serviceHandler).
Definition NewServiceProcessor : handlers := ∅.

Definition RegisterHandler (p : handlers) (f : goiface) : outcome error handlers :=
  match f with
  | NoFunc _ => Err "Input is not a function"
  | Func f =>
      if negb (length (In f) =? 1)%nat then Err "Need one argument: *struct"
      else
        let! cr := index (In f) 0 in
        if negb (bool_decide (kind cr = Ptr)) then Err "Argument must be a *pointer* to a struct"
        else if negb (bool_decide (kind (Elem cr) = Struct)) then Err "Argument must be a pointer to *struct*"
        else if negb (length (Out f) =? 2)%nat then Err "Need 2 return values: network.Body and ClientError"
        else
          let! ret := index (Out f) 0 in
          if negb (bool_decide (kind ret = Interface)) && negb (bool_decide (kind ret = Ptr))
          then Err "1st return value must be a *pointer* to a struct or an interface"
          else if negb (bool_decide (kind ret = Interface)) && negb (bool_decide (kind (Elem ret) = Struct))
          then Err "1st return value must be a pointer to a *struct* or an interface"
          else
            let! out1 := index (Out f) 1 in
            if negb (bool_decide (out1 = ClientErrorType)) then Err "2nd return value has to be: ClientError"
            else
              let! pm := index (Split (type_string (Elem cr)) (str ".")) 1 in
              Ret (<[pm := {| handler := f; msgType := Elem cr |}]> p)
  end.

(** The first error ends the loop; what was registered before stays. *)
Definition RegisterHandlers (procs : list goiface) : SM handlers error unit :=
  sforM (λ _ pr p, match RegisterHandler p pr with
                   | Ret p => (Ret tt, p)
                   | Err e => (Err e, p)
                   | Panic w => (Panic w, p)
                   | OutOfFuel => (OutOfFuel, p)
                   end) tt procs.

(** [reflect]: assignability, as between types that are no interfaces, and
    [Value.Call]. *)
Definition type_literal (t : gtype) : bool :=
  match t with TStruct _ | TPtr _ | TSlice _ | TArray _ _ | TMap _ _ => true | _ => false end.
Definition AssignableTo (t u : gtype) : bool :=
  bool_decide (t = u) ||
  (bool_decide (strip t = strip u) && (type_literal t || type_literal u)).

Definition Call (f : func) (args : list (gtype * gvalue)) : SM St ClientError (list result) :=
  if negb (length args =? length (In f))%nat then slift (Panic "reflect: Call with the wrong number of input arguments")
  else if forallb (λ a, AssignableTo a.1.1 a.2) (zip args (In f)) then
    λ s, let '(r, s) := body f (snd <$> args) s in (omap_err (λ e : Empty_set, match e with end) r, s)
  else slift (Panic "reflect: Call using a value of another type").

(** [Value.Interface] of the error that a handler returned. *)
Definition returned_error (r : result) : outcome ClientError (option ClientError) :=
  match r with
  | RError ce => Ret ce
  | RValue None => Ret None
  | RValue (Some _) => Panic "interface conversion: missing method ErrorCode"
  end.
Definition returned_value (r : result) : option (gtype * gvalue) :=
  match r with
  | RValue v => v
  | RError None => None
  | RError (Some _) => Some (TOther "ClientError", VNil)
  end.

Definition ProcessClientRequest (fuel : nat) (constructors : gmap string (gtype * gvalue)) (p : handlers)
    (path buf : bytes) : SM St ClientError bytes :=
  do! reply :=
    match p !! path with
    | None => sthrow (NewClientErrorCode WebSocketErrorPathNotFound "Path not found")
    | Some mh =>
        do! msg := slift (omap_err (NewClientErrorCode WebSocketErrorProtobufDecode)
                     (Decoder.DecodeWithConstructors (Decoder.putvalue gens fuel) constructors buf
                        (Some (TPtr (msgType mh), VPtr (zero (msgType mh)))))) in
        do! to := slift (index (In (handler mh)) 0) in
        do! x := slift (match msg with
                        | VPtr x => Ret x
                        | _ => Panic "reflect: call of reflect.Value.Set on zero Value"
                        end) in
        if negb (AssignableTo (msgType mh) (Elem to)) then
          slift (Panic "reflect.Set: value is not assignable to type")
        else
          do! ret := Call (handler mh) [(TPtr (Elem to), VPtr x)] in
          do! r1 := slift (index ret 1) in
          do! cerr := slift (returned_error r1) in
          match cerr with
          | Some ce => sthrow ce
          | None => do! r0 := slift (index ret 0) in sret (returned_value r0)
          end
    end in
  match Encoder.Encode gens fuel reply with
  | Ret buf => sret buf
  | Err _ => sthrow (NewClientErrorCode WebSocketErrorProtobufEncode "")
  | Panic w => slift (Panic w)
  | OutOfFuel => slift OutOfFuel
  end.

(** *** What registration guarantees *)

Record handler_ok (mh : serviceHandler) : Prop := {
  ok_in : ∃ cr, In (handler mh) = [cr] ∧ kind cr = Ptr ∧ msgType mh = Elem cr;
  ok_struct : kind (msgType mh) = Struct;
  ok_out : ∃ ret, Out (handler mh) = [ret; ClientErrorType] ∧
    (kind ret = Interface ∨ (kind ret = Ptr ∧ kind (Elem ret) = Struct));
}.

Lemma RegisterHandler_ok p f p' : RegisterHandler p f = Ret p' →
  ∃ h pm, f = Func h ∧ handler_ok {| handler := h; msgType := Elem (default (TOther "") (head (In h))) |} ∧
    p' = <[pm := {| handler := h; msgType := Elem (default (TOther "") (head (In h))) |}]> p.
Proof.
  destruct f as [h|]; [|done]. unfold RegisterHandler. intros H.
  destruct (length (In h) =? 1)%nat eqn:Hin; [|done]. apply Nat.eqb_eq in Hin.
  destruct (In h) as [|cr [|? ?]] eqn:Ein; try done. rewrite index_0 in H. cbn [negb obind] in H.
  destruct (bool_decide_reflect (kind cr = Ptr)) as [Hk|]; [|done].
  destruct (bool_decide_reflect (kind (Elem cr) = Struct)) as [He|]; [|done].
  destruct (length (Out h) =? 2)%nat eqn:Hout; [|done]. apply Nat.eqb_eq in Hout.
  destruct (Out h) as [|ret [|o1 [|? ?]]] eqn:Eout; try done. rewrite index_0 in H. cbn [negb obind] in H.
  destruct (negb (bool_decide (kind ret = Interface)) && negb (bool_decide (kind ret = Ptr))) eqn:E1; [done|].
  destruct (negb (bool_decide (kind ret = Interface)) && negb (bool_decide (kind (Elem ret) = Struct))) eqn:E2; [done|].
  change (index [ret; o1] 1) with (Ret (E := error) o1) in H. cbn [obind] in H.
  destruct (bool_decide_reflect (o1 = ClientErrorType)) as [->|]; [|done].
  apply obind_ret_inv in H as (pm & _ & [= <-]). exists h, pm. split; [done|]. rewrite Ein. split; [|done].
  constructor; cbn; [by eexists|done|]. exists ret. split; [done|].
  destruct (bool_decide_reflect (kind ret = Interface)), (bool_decide_reflect (kind ret = Ptr)),
    (bool_decide_reflect (kind (Elem ret) = Struct)); cbn in E1, E2; auto; done.
Qed.

Definition table_ok (P : func → Prop) (p : handlers) : Prop :=
  map_Forall (λ _ mh, handler_ok mh ∧ P (handler mh)) p.

Lemma RegisterHandlers_ok P procs : (∀ h, Func h ∈ procs → P h) →
  ∀ p, table_ok P p → table_ok P (RegisterHandlers procs p).2.
Proof.
  induction procs as [|f procs IH]; intros HP p Hp; [done|].
  unfold RegisterHandlers. cbn [sforM]. unfold sbind at 1.
  destruct (RegisterHandler p f) as [p'|e|w|] eqn:E; [|done..].
  apply IH; [set_solver|]. apply RegisterHandler_ok in E as (h & pm & -> & Hok & ->).
  apply map_Forall_insert_2; [|done]. split; [done|]. apply HP. set_solver.
Qed.

Lemma assignable_pointer cr : kind cr = Ptr → AssignableTo (TPtr (Elem cr)) cr = true.
Proof.
  intros Hk. unfold AssignableTo. cbn [type_literal].
  assert (strip cr = TPtr (Elem cr)) as ->.
  { rewrite <-kind_strip in Hk. rewrite <-Elem_strip. pose proof (strip_unnamed cr). by destruct (strip cr). }
  apply orb_true_iff. right. apply andb_true_iff. split; [by apply bool_decide_eq_true|done].
Qed.

Lemma assignable_refl t : AssignableTo t t = true.
Proof. unfold AssignableTo. by rewrite bool_decide_true. Qed.

Lemma sbind_lift {T E A B} (a : A) (k : A → SM T E B) s : sbind (slift (Ret a)) k s = k a s.
Proof. done. Qed.

(** What is done with what a handler returned. *)
Definition answer (fuel : nat) (r : outcome Empty_set (list result)) : outcome ClientError bytes :=
  match r with
  | Ret [r0; r1] =>
      let! cerr := returned_error r1 in
      match cerr with
      | Some ce => Err ce
      | None => omap_err (λ _, NewClientErrorCode WebSocketErrorProtobufEncode "")
                  (Encoder.Encode gens fuel (returned_value r0))
      end
  | Ret _ => Panic "index out of range"
  | Err e => match e with end
  | Panic w => Panic w
  | OutOfFuel => OutOfFuel
  end.

(** The result lists of functions have the length of their type. *)
Definition conforms (h : func) : Prop :=
  ∀ args s r s', body h args s = (Ret r, s') → length r = length (Out h).

(** A decoded request goes to its handler. *)
Lemma process_decoded fuel nm p path buf s mh x : handler_ok mh → conforms (handler mh) →
  p !! path = Some mh →
  Decoder.DecodeWithConstructors (Decoder.putvalue gens fuel) nm buf
    (Some (TPtr (msgType mh), VPtr (zero (msgType mh)))) = Ret (VPtr x) →
  ProcessClientRequest fuel nm p path buf s =
  let '(r, s') := body (handler mh) [VPtr x] s in (answer fuel r, s').
Proof.
  intros [(cr & Hin & Hk & Hm) _ (ret & Hout & _)] Hconf Hp Hd.
  unfold ProcessClientRequest. rewrite Hp, Hd, Hin. cbn [omap_err]. rewrite index_0.
  unfold sbind at 1. rewrite !sbind_lift, <-Hm, assignable_refl. cbn [negb]. rewrite Hm.
  unfold sbind at 1, Call. rewrite Hin. cbn [length Nat.eqb negb zip zip_with forallb fst snd].
  rewrite assignable_pointer by done. cbn [andb fmap list_fmap snd].
  destruct (body (handler mh) [VPtr x] s) as [r s'] eqn:E.
  destruct r as [l|[]|w|]; cbn [omap_err answer]; [|done..].
  apply Hconf in E. rewrite Hout in E. destruct l as [|r0 [|r1 [|? ?]]]; try done.
  change (index (E := ClientError) [r0; r1] 1) with (Ret (E := ClientError) r1). rewrite sbind_lift.
  destruct (returned_error r1) as [[ce|]| | |]; [done| |done..].
  rewrite sbind_lift. cbn [obind]. change (index (E := ClientError) [r0; r1] 0) with (Ret (E := ClientError) r0).
  rewrite sbind_lift. unfold sret. by destruct (Encoder.Encode gens fuel (returned_value r0)).
Qed.

(** *** Requests *)
Section requests.
(** The methods of the user's types end, keep types and set their receiver. *)
Context (Hends : ∀ t unmarshal b v, UnmarshalBinary t = Some unmarshal → unmarshal b v ≠ OutOfFuel).
Context (Hkeeps : ∀ t unmarshal b v v', UnmarshalBinary t = Some unmarshal → typed t v →
  unmarshal b v = Ret v' → typed t v').
Context (Hsets : ∀ t unmarshal b x v', UnmarshalBinary t = Some unmarshal → unmarshal b (VPtr x) = Ret v' →
  ∃ y, v' = VPtr y).
Context (Hgens : ∀ k g, gens !! k = Some g → typed g.1 g.2).

Lemma decode_pointer fuel nm buf t v : constructors_typed nm →
  Decoder.DecodeWithConstructors (Decoder.putvalue gens fuel) nm buf (Some (TPtr t, VPtr (zero t))) = Ret v →
  ∃ x, v = VPtr x ∧ typed t x.
Proof.
  intros Hnm Hd.
  assert (typed (TPtr t) v) as Hv.
  { eapply (decode_with_typed gens Hgens Hkeeps); [done| |exact Hd]. constructor; [done|apply zero_typed]. }
  assert (∃ x, v = VPtr x) as [x ->].
  { cbn in Hd. destruct (UnmarshalBinary (TPtr t)) as [um|] eqn:Hu.
    - eapply (Hsets _ um buf (zero t)); [done|]. by destruct (um buf (VPtr (zero t))).
    - unfold recover_panic, obind in Hd. repeat case_match; simplify_eq; eauto. }
  exists x. split; [done|]. typed_inv Hv. done.
Qed.

(** C12: requests are type safe.  Whatever functions were offered for registration,
    and whatever bytes a client sends to whatever path: an unknown path and bytes
    that do not decode are answered with their error codes and touch nothing;
    otherwise the function registered for the path is called, once, with one
    argument, a pointer to a struct of the type the function declares, all of whose
    fields hold values of their types; the reply or the error is what the function
    returned.  No conversion by reflection panics. *)
Theorem request_is_typed procs nm path buf s :
  (∀ h, Func h ∈ procs → conforms h) → constructors_typed nm →
  let p := (RegisterHandlers procs NewServiceProcessor).2 in
  (p !! path = None → ∀ fuel, ProcessClientRequest fuel nm p path buf s =
     (Err (NewClientErrorCode WebSocketErrorPathNotFound "Path not found"), s)) ∧
  (∀ mh, p !! path = Some mh →
   (∃ e, ∃ f0, ∀ fuel, (f0 <= fuel)%nat → ProcessClientRequest fuel nm p path buf s =
      (Err (NewClientErrorCode WebSocketErrorProtobufDecode e), s)) ∨
   (∃ t x, In (handler mh) = [t] ∧ kind t = Ptr ∧ kind (Elem t) = Struct ∧ typed (Elem t) x ∧
      ∃ f0, ∀ fuel, (f0 <= fuel)%nat → ProcessClientRequest fuel nm p path buf s =
        let '(r, s') := body (handler mh) [VPtr x] s in (answer fuel r, s'))).
Proof.
  intros Hconf Hnm p. split.
  { intros Hp fuel. unfold ProcessClientRequest. by rewrite Hp. }
  intros mh Hp. assert (table_ok conforms p) as Hok by (by apply RegisterHandlers_ok).
  apply Hok in Hp as Hmh. destruct Hmh as [Hmh Hc].
  destruct (decode_with_total gens Hends nm buf (Some (TPtr (msgType mh), VPtr (zero (msgType mh)))))
    as (r & Hr & f0 & Hf). destruct r as [v|e|w|]; [|left|done..].
  - right. destruct (decode_pointer f0 nm buf (msgType mh) v) as (x & -> & Hx); [done|by apply Hf|].
    pose proof Hmh as [(cr & Hin & Hk & Hm) Hs _]. rewrite Hm in Hs, Hx. exists cr, x.
    do 4 (split; [done|]). exists f0. intros fuel Hle. by apply process_decoded; [| | |apply Hf].
  - exists e, f0. intros fuel Hle. unfold ProcessClientRequest. rewrite Hp, Hf by done. done.
Qed.
End requests.
End processor.
End Processor.

(** ** Connections *)
Module Websockets.
Import Processor.
Section websockets.
Context {St : Type}.
Context (lower_unicode : bytes → bytes).

(** [ProcessClientRequest] of a service. *)
Abbreviation Service := (bytes → bytes → SM St ClientError bytes).

(** [getWebAddress], of an address. *)
Definition getWebAddress (addr : bytes) (global : bool) : outcome error bytes :=
  let! port := Addresses.Port lower_unicode addr in
  match Numbers.Atoi port with
  | None => Err "strconv.Atoi: parsing failed"
  | Some p =>
      let! host := Addresses.Host lower_unicode addr in
      let host := if global then str "0.0.0.0" else host in
      Ret (host ++ str ":" ++ Numbers.Itoa (p + 1))
  end.

(** *** The server *)

(** [wsHandler] and [http.ServeMux]: the longest pattern, ending in a slash, that
    the path starts with. *)
Record wsHandler := { serviceName : bytes; service : Service }.
Abbreviation ServeMux := (list (bytes * wsHandler)).

Definition Handle (mux : ServeMux) (pattern : bytes) (h : wsHandler) : outcome error ServeMux :=
  if decide (pattern ∈ mux.*1) then Panic "http: multiple registrations"
  else Ret (mux ++ [(pattern, h)]).

Fixpoint match_path (mux : ServeMux) (path : bytes) (best : option (bytes * wsHandler)) : option (bytes * wsHandler) :=
  match mux with
  | [] => best
  | (pattern, h) :: mux =>
      match_path mux path
        (if has_prefix pattern path &&
            match best with Some (p, _) => (length p <? length pattern)%nat | None => true end
         then Some (pattern, h) else best)
  end.

(** [WebSocket]; [starting] counts the calls of [start] that wait for a [stop]. *)
Record WebSocket := {
  services : gmap bytes Service;
  mux : ServeMux;
  web_addr : bytes;
  serving_http : bool;
  starting : nat;
  started : bool;
}.

Definition NewWebSocket (addr : bytes) : outcome error WebSocket :=
  match getWebAddress addr true with
  | Ret webHost => Ret {| services := ∅; mux := []; web_addr := webHost; serving_http := false; starting := 0; started := false |}
  | Err e => Panic e
  | Panic w => Panic w
  | OutOfFuel => OutOfFuel
  end.

Definition slash : bytes := str "/".
Definition service_path (name : bytes) : bytes := slash ++ name ++ slash.

Definition registerService (name : bytes) (s : Service) (w : WebSocket) : outcome error WebSocket :=
  let! mux := Handle (mux w) (service_path name) {| serviceName := name; service := s |} in
  Ret {| services := <[name := s]> (services w); mux := mux; web_addr := web_addr w;
         serving_http := serving_http w; starting := starting w; started := started w |}.

(** [start] up to its wait, and [stop], which waits for a [start]. *)
Definition start (w : WebSocket) : WebSocket :=
  {| services := services w; mux := mux w; web_addr := web_addr w; serving_http := true;
     starting := S (starting w); started := true |}.
Definition stop (w : WebSocket) : outcome error unit * WebSocket :=
  if negb (started w) then (Ret tt, w)
  else
    let stopped := {| services := services w; mux := mux w; web_addr := web_addr w; serving_http := false;
                      starting := pred (starting w); started := negb (0 <? starting w)%nat |} in
    if (0 <? starting w)%nat then (Ret tt, stopped) else (OutOfFuel, stopped).

(** A connection: the frames on the way in both directions, whether the server's
    loop runs, and the permanent error of the client's end. *)
Inductive frame :=
  | Message (mt : Z) (b : bytes)
  | CloseMessage (payload : option (Z * string)).
Definition BinaryMessage : Z := 2.

Record Link := {
  target : wsHandler;
  url_path : bytes;
  to_server : list frame;
  to_client : list frame;
  serving : bool;
  failed : option error;
  client_open : bool;
}.

Definition set_frames (l : Link) (ts tc : list frame) (sv : bool) (f : option error) (op : bool) : Link :=
  {| target := target l; url_path := url_path l; to_server := ts; to_client := tc; serving := sv; failed := f;
     client_open := op |}.

(** [strings.TrimPrefix]. *)
Definition TrimPrefix (s prefix : bytes) : bytes :=
  if has_prefix prefix s then drop (length prefix) s else s.

(** The end of [ServeHTTP] on an error: the code is put in its range, and the
    close frame, of 125 bytes at most, is sent. *)
Definition closing_error (ce : ClientError) : ClientError :=
  if (ErrorCode ce <? 4000) || (5000 <=? ErrorCode ce)
  then NewClientErrorCode WebSocketErrorInvalidErrorCode (Error (Some ce)) else ce.
Definition maxControlFramePayload : nat := 125.
Definition serve_end (ce : ClientError) (l : Link) : Link :=
  let ce := closing_error ce in
  set_frames l (to_server l)
    (to_client l ++ if (2 + String.length (ErrorMsg ce) <=? maxControlFramePayload)%nat
                    then [CloseMessage (Some (ErrorCode ce, ErrorMsg ce))] else [])
    false (failed l) (client_open l).

(** One round of the loop of [ServeHTTP]; a panic of the service ends the
    connection, the deferred close runs. *)
Definition serve_round (l : Link) (s : St) : outcome error unit * (Link * St) :=
  match to_server l with
  | [] => (OutOfFuel, (l, s))
  | CloseMessage _ :: rest => (Ret tt, (set_frames l rest (to_client l) false (failed l) (client_open l), s))
  | Message mt buf :: rest =>
      let l := set_frames l rest (to_client l) (serving l) (failed l) (client_open l) in
      let path := TrimPrefix (url_path l) (service_path (serviceName (target l))) in
      match service (target l) path buf s with
      | (Ret reply, s) =>
          (Ret tt, (if client_open l
                    then set_frames l rest (to_client l ++ [Message mt reply]) (serving l) (failed l) true
                    else set_frames l rest (to_client l) false (failed l) false, s))
      | (Err ce, s) => (Ret tt, (serve_end ce l, s))
      | (Panic _, s) => (Ret tt, (set_frames l rest (to_client l) false (failed l) (client_open l), s))
      | (OutOfFuel, s) => (OutOfFuel, (l, s))
      end
  end.

Fixpoint ServeHTTP (fuel : nat) (l : Link) (s : St) : outcome error unit * (Link * St) :=
  if negb (serving l) then (Ret tt, (l, s))
  else
    match fuel with
    | O => (OutOfFuel, (l, s))
    | S fuel =>
        match serve_round l s with
        | (Ret _, (l, s)) => ServeHTTP fuel l s
        | r => r
        end
    end.

(** *** The client *)

(** What connects and what reading a broken connection says: the error of each
    attempt to reach a host, the texts of the errors of the websocket library, and the error of writing to a connection whose end was
    read. *)
Context (dial_err : bytes → nat → option error).
Context (close_text : Z → string → error) (no_status : error) (eof_text : error) (after_close : option error).

(** The address of a [*ServerIdentity]. *)
Context (Address : nat → bytes).

(** The connections, the state of the service, and the servers by their address. *)
Record World := { links : list Link; state : St; server_at : bytes → option WebSocket }.
Definition set_link (k : nat) (l : Link) (s : St) (w : World) : World :=
  {| links := <[k := l]> (links w); state := s; server_at := server_at w |}.

Abbreviation destination := (nat * bytes)%type.
Record Client := {
  c_service : bytes;
  connections : gmap destination nat;
  keep : bool;
  rx : Z;
  tx : Z;
}.
Definition NewClient (s : bytes) : Client :=
  {| c_service := s; connections := ∅; keep := false; rx := 0; tx := 0 |}.
Definition NewClientKeep (s : bytes) : Client :=
  {| c_service := s; connections := ∅; keep := true; rx := 0; tx := 0 |}.
Definition set_client (c : Client) (cs : gmap destination nat) (r t : Z) : Client :=
  {| c_service := c_service c; connections := cs; keep := keep c; rx := r; tx := t |}.

(** [Dial] of the library: the handshake fails when no handler has the path. *)
Definition new_link (h : wsHandler) (path : bytes) : Link :=
  {| target := h; url_path := path; to_server := []; to_client := []; serving := true; failed := None; client_open := true |}.
Definition Dial (host path : bytes) (w : World) : outcome error (nat * World) :=
  match server_at w host with
  | None => Err "connection refused"
  | Some ws =>
      match match_path (mux ws) path None with
      | None => Err "websocket: bad handshake"
      | Some (_, h) => Ret (length (links w), {| links := links w ++ [new_link h path]; state := state w; server_at := server_at w |})
      end
  end.
Fixpoint dial_retry (host path : bytes) (i n : nat) (err : error) (w : World) : outcome error (nat * World) :=
  match n with
  | O => Err err
  | Datatypes.S n =>
      match (match dial_err host i with Some e => Err e | None => Dial host path w end) with
      | Err e => dial_retry host path (Datatypes.S i) n e w
      | r => r
      end
  end.

(** [WriteMessage] and [ReadMessage]; the server's loop takes a round while the
    client waits. *)
Definition WriteMessage (k : nat) (f : frame) (w : World) : outcome error World :=
  match links w !! k with
  | None => Err eof_text
  | Some l =>
      match failed l, after_close with
      | Some _, Some e => Err e
      | _, _ => Ret (set_link k (set_frames l (to_server l ++ [f]) (to_client l) (serving l) (failed l) (client_open l)) (state w) w)
      end
  end.
Definition take_frame (l : Link) : outcome error bytes * Link :=
  match to_client l with
  | Message _ b :: rest => (Ret b, set_frames l (to_server l) rest (serving l) None (client_open l))
  | CloseMessage p :: rest =>
      let e := match p with Some (code, msg) => close_text code msg | None => no_status end in
      (Err e, set_frames l (to_server l) rest (serving l) (Some e) (client_open l))
  | [] =>
      if serving l then (OutOfFuel, l)
      else (Err eof_text, set_frames l (to_server l) [] false (Some eof_text) (client_open l))
  end.
Definition ReadMessage (k : nat) (w : World) : outcome error bytes * World :=
  match links w !! k with
  | None => (Err eof_text, w)
  | Some l =>
      match failed l with
      | Some e => (Err e, w)
      | None =>
          let '(_, (l, s)) :=
            if serving l && bool_decide (to_client l = []) then serve_round l (state w) else (Ret tt, (l, state w)) in
          let '(r, l) := take_frame l in
          (r, set_link k l s w)
      end
  end.
Definition conn_Close (k : nat) (w : World) : World :=
  match links w !! k with
  | None => w
  | Some l => set_link k (set_frames l (to_server l) (to_client l) (serving l) (failed l) false) (state w) w
  end.

Abbreviation CM := (SM (Client * World) ClientError).

Definition closeConn (dst : destination) (cw : Client * World) : Client * World :=
  let '(c, w) := cw in
  match connections c !! dst with
  | None => (c, w)
  | Some k =>
      let w := match WriteMessage k (CloseMessage None) w with Ret w => w | _ => w end in
      (set_client c (delete dst (connections c)) (rx c) (tx c), conn_Close k w)
  end.

(** An error of another library, for a client. *)
Definition client_result {A} (r : outcome error A) : outcome ClientError A := omap_err NewClientError r.

Definition MaxRetryConnect : nat := 5.

(** The connection to a destination, opened if there is none. *)
Definition connection_to (dst : destination) : CM nat := λ '(c, w),
  match connections c !! dst with
  | Some k => (Ret k, (c, w))
  | None =>
      match client_result (
        let! url := getWebAddress (Address dst.1) false in
        dial_retry url (slash ++ c_service c ++ slash ++ dst.2) 0 MaxRetryConnect "" w) with
      | Ret (k, w) => (Ret k, (set_client c (<[dst := k]> (connections c)) (rx c) (tx c), w))
      | Err e => (Err e, (c, w))
      | Panic why => (Panic why, (c, w))
      | OutOfFuel => (OutOfFuel, (c, w))
      end
  end.

(** The exchange on a connection. *)
Definition exchange (k : nat) (buf : bytes) : CM bytes := λ '(c, w),
  match WriteMessage k (Message BinaryMessage buf) w with
  | Ret w =>
      let c := set_client c (connections c) (rx c) (wrapU 64 (tx c + Z.of_nat (length buf))) in
      match ReadMessage k w with
      | (Ret rcv, w) => (Ret rcv, (set_client c (connections c) (wrapU 64 (rx c + Z.of_nat (length rcv))) (tx c), w))
      | (r, w) => (client_result r, (c, w))
      end
  | Err e => (Err (NewClientError e), (c, w))
  | Panic why => (Panic why, (c, w))
  | OutOfFuel => (OutOfFuel, (c, w))
  end.

(** [Send]; the deferred call closes the connection unless it is kept. *)
Definition Send (dst : nat) (path buf : bytes) : CM bytes :=
  do! k := connection_to (dst, path) in
  λ cw, let '(r, (c, w)) := exchange k buf cw in
        (r, if keep c then (c, w) else closeConn (dst, path) (c, w)).

Section protobuf.
Context {M : Methods} (gens : gmap bytes (gtype * gvalue)) (type_string : gtype → bytes).

(** [SendProtobuf]: what [ret] points to afterwards. *)
Definition SendProtobuf (fuel : nat) (constructors : gmap string (gtype * gvalue)) (dst : nat)
    (msg ret : option (gtype * gvalue)) : CM (option gvalue) :=
  do! buf := slift (client_result (Encoder.Encode gens fuel msg)) in
  do! t := slift (deref (fst <$> msg)) in
  do! path := slift (index (Split (type_string t) (str ".")) 1) in
  do! reply := Send dst path buf in
  match ret with
  | None => sret None
  | Some (rt, rv) =>
      slift (client_result (
        let! v := Decoder.DecodeWithConstructors (Decoder.putvalue gens fuel) constructors reply (Some (rt, rv)) in
        Ret (Some v)))
  end.
End protobuf.

(** [SendToAll]: the replies, and all errors in one; a reply is empty where the
    server failed. *)
Definition join_errors (errstrs : list string) : option ClientError :=
  match errstrs with
  | [] => None
  | e :: es => Some (NewClientError (foldl (λ a b, String.append a (String (Ascii.ascii_of_nat 10) b)) e es))
  end.
Definition SendToAll (dst : list nat) (path buf : bytes) (cw : Client * World)
    : outcome ClientError (list bytes * option ClientError) * (Client * World) :=
  let '(r, cw) :=
    sforM (λ '(msgs, errstrs) e cw,
             match Send e path buf cw with
             | (Ret b, cw) => (Ret (msgs ++ [b], errstrs), cw)
             | (Err ce, cw) =>
                 (Ret (msgs ++ [[]], errstrs ++ [String.append (String.string_of_list_byte (Address e)) (Error (Some ce))]), cw)
             | (Panic why, cw) => (Panic why, cw)
             | (OutOfFuel, cw) => (OutOfFuel, cw)
             end) ([], []) dst cw in
  (let! (msgs, errstrs) := r in Ret (msgs, join_errors errstrs), cw).

(** [Close]: the connections are closed in the order [order] of the map's
    iteration. *)
Definition Close (order : list destination) (cw : Client * World) : Client * World :=
  foldl (λ cw dst, closeConn dst cw) cw order.

(** *** A request and its answer *)

Lemma insert_last {A} (l : list A) (x y : A) : <[length l := x]> (l ++ [y]) = l ++ [x].
Proof. rewrite <-(Nat.add_0_r (length l)). by rewrite insert_app_r. Qed.

(** The service behind the path of a destination. *)
Record serves (w : World) (c : Client) (dst : nat) (path : bytes) (svc : Service) : Prop := {
  serves_fresh : connections c !! (dst, path) = None;
  serves_addr : ∃ url ws pat, getWebAddress (Address dst) false = Ret url ∧ server_at w url = Some ws ∧
    match_path (mux ws) (slash ++ c_service c ++ slash ++ path) None =
      Some (pat, {| serviceName := c_service c; service := svc |}) ∧
    ∃ i, (i < MaxRetryConnect)%nat ∧ dial_err url i = None;
}.

Lemma dial_retry_ok host path w k w' : Dial host path w = Ret (k, w') → ∀ n i err,
  (∃ j, (i <= j < i + n)%nat ∧ dial_err host j = None) → dial_retry host path i n err w = Ret (k, w').
Proof.
  intros Hd. induction n as [|n IH]; intros i err (j & Hj & Hok); [lia|]. cbn [dial_retry].
  destruct (dial_err host i) as [e|] eqn:E; [|by rewrite Hd].
  apply IH. exists j. split; [|done]. destruct (decide (j = i)) as [->|]; [congruence|lia].
Qed.

Lemma connection_opened c w dst path svc : serves w c dst path svc →
  connection_to (dst, path) (c, w) =
  (Ret (length (links w)),
   (set_client c (<[(dst, path) := length (links w)]> (connections c)) (rx c) (tx c),
    {| links := links w ++ [new_link {| serviceName := c_service c; service := svc |}
                              (slash ++ c_service c ++ slash ++ path)]; state := state w; server_at := server_at w |})).
Proof.
  intros [Hfresh (url & ws & pat & Haddr & Hat & Hm & i & Hi & Hok)]. unfold connection_to. rewrite Hfresh.
  cbn [fst snd]. rewrite Haddr. cbn [obind].
  rewrite (dial_retry_ok _ _ w (length (links w)) {| links := links w ++ [new_link
    {| serviceName := c_service c; service := svc |} (slash ++ c_service c ++ slash ++ path)]; state := state w; server_at := server_at w |});
    [done| |].
  - unfold Dial. by rewrite Hat, Hm.
  - exists i. split; [lia|done].
Qed.

Lemma trim_path name path : TrimPrefix (slash ++ name ++ slash ++ path) (service_path name) = path.
Proof.
  unfold TrimPrefix. assert (slash ++ name ++ slash ++ path = service_path name ++ path) as ->.
  { unfold service_path. by rewrite <-!app_assoc. }
  by rewrite has_prefix_app, drop_app_length.
Qed.

(** The first exchange on a new connection reaches the service. *)
Lemma exchange_new c ls s sa path svc r s' buf : svc path buf s = (r, s') → r ≠ OutOfFuel →
  ∃ l, exchange (length ls) buf
         (c, {| links := ls ++ [new_link {| serviceName := c_service c; service := svc |}
                                  (slash ++ c_service c ++ slash ++ path)]; state := s; server_at := sa |}) =
    (match r with
     | Ret reply => Ret reply
     | Err ce => Err (NewClientError
         (if (2 + String.length (ErrorMsg (closing_error ce)) <=? maxControlFramePayload)%nat
          then close_text (ErrorCode (closing_error ce)) (ErrorMsg (closing_error ce)) else eof_text))
     | _ => Err (NewClientError eof_text)
     end,
     (set_client c (connections c)
        (match r with Ret reply => wrapU 64 (rx c + Z.of_nat (length reply)) | _ => rx c end)
        (wrapU 64 (tx c + Z.of_nat (length buf))),
      {| links := ls ++ [l]; state := s'; server_at := sa |})) ∧
    (match r with Ret _ => failed l = None | _ => is_Some (failed l) end).
Proof.
  intros Hs Hr. unfold exchange, WriteMessage, set_link. cbn [links state].
  rewrite list_lookup_middle by done. cbn [failed new_link links state].
  rewrite insert_last. unfold ReadMessage. cbn [links state]. rewrite list_lookup_middle by done.
  cbn [failed set_frames serving to_client to_server new_link app].
  rewrite bool_decide_true by done. cbn [andb]. unfold serve_round. cbn [to_server set_frames service target url_path serviceName new_link].
  rewrite trim_path, Hs. unfold set_link. destruct r as [reply|ce|why|]; [| | |done].
  - eexists. cbn. split; [by rewrite insert_last|done].
  - unfold serve_end. destruct (_ <=? _)%nat; eexists; cbn; (split; [by rewrite insert_last|by eexists]).
  - eexists. cbn. split; [by rewrite insert_last|by eexists].
Qed.

(** After the deferred call the connection is kept or gone. *)
Lemma after_send c dst path k w : connections c !! (dst, path) = None →
  let c1 := set_client c (<[(dst, path) := k]> (connections c)) (rx c) (tx c) in
  ∀ r t, let c2 := set_client c1 (connections c1) r t in
  ∃ c' w', (if keep c2 then (c2, w) else closeConn (dst, path) (c2, w)) = (c', w') ∧ state w' = state w ∧
    connections c' = (if keep c then <[(dst, path) := k]> (connections c) else connections c) ∧ rx c' = r ∧ tx c' = t ∧
    (keep c = true → w' = w).
Proof.
  intros Hfresh c1 r t c2. subst c1 c2. cbn [keep set_client]. destruct (keep c); [by eexists _, _|].
  unfold closeConn. cbn [connections set_client]. rewrite lookup_insert_eq. eexists _, _. split; [done|].
  cbn [connections set_client rx tx]. rewrite delete_insert_id by done. split; [|done].
  unfold conn_Close. destruct (WriteMessage _ _ w) as [w1| | |] eqn:E;
    [|by destruct (links w !! k)..].
  assert (state w1 = state w) as <-; [|by destruct (links w1 !! k)].
  unfold WriteMessage in E. repeat case_match; simplify_eq; done.
Qed.

Lemma send_new c w dst path svc buf r s' : serves w c dst path svc →
  svc path buf (state w) = (r, s') → r ≠ OutOfFuel →
  ∃ c' w', Send dst path buf (c, w) =
    (match r with
     | Ret reply => Ret reply
     | Err ce => Err (NewClientError
         (if (2 + String.length (ErrorMsg (closing_error ce)) <=? maxControlFramePayload)%nat
          then close_text (ErrorCode (closing_error ce)) (ErrorMsg (closing_error ce)) else eof_text))
     | _ => Err (NewClientError eof_text)
     end, (c', w')) ∧ state w' = s' ∧
    connections c' = (if keep c then <[(dst, path) := length (links w)]> (connections c) else connections c) ∧
    (keep c = true → ∃ l, links w' !! length (links w) = Some l ∧
       match r with Ret _ => failed l = None | _ => is_Some (failed l) end).
Proof.
  intros Hserves Hs Hr. unfold Send, sbind. rewrite (connection_opened c w dst path svc) by done.
  set (c1 := set_client c _ _ _).
  destruct (exchange_new c1 (links w) (state w) (server_at w) path svc r s' buf Hs Hr) as (l & Hx & Hl).
  change (c_service c1) with (c_service c) in Hx. rewrite Hx.
  destruct (after_send c dst path (length (links w)) {| links := links w ++ [l]; state := s'; server_at := server_at w |}
    (serves_fresh _ _ _ _ _ Hserves)
    (match r with Ret reply => wrapU 64 (rx c1 + Z.of_nat (length reply)) | _ => rx c1 end)
    (wrapU 64 (tx c1 + Z.of_nat (length buf)))) as (c' & w' & Hc & Hst & Hcs & _ & _ & Hk).
  exists c', w'. fold c1 in Hc. rewrite Hc. split; [done|]. split; [done|]. split; [done|].
  intros Hkeep. rewrite Hk by done. exists l. split; [by apply list_lookup_middle|done].
Qed.

Lemma closing_range ce : 4000 <= ErrorCode (closing_error ce) < 5000.
Proof.
  unfold closing_error. destruct (ErrorCode ce <? 4000) eqn:E1; [done|]. destruct (5000 <=? ErrorCode ce) eqn:E2; [done|].
  cbn. lia.
Qed.

(** *** End to end *)
Section request.
Context {M : Methods} (gens : gmap bytes (gtype * gvalue)) (type_string : gtype → bytes).
(** A pointer is written with a star; the texts of the websocket library for the
    codes that applications use. *)
Context (Hstar : ∀ t, type_string (TPtr t) = str "*" ++ type_string t).
Context (Hclose : ∀ code msg, 4000 <= code < 5000 →
  close_text code msg = String.append wsPrefix (String.append (ClientError.Itoa code)
    (match msg with EmptyString => EmptyString | _ => String.append ": " msg end))).

Lemma pointer_path t pm : Split (type_string t) (str ".") !! 1%nat = Some pm →
  Split (type_string (TPtr t)) (str ".") !! 1%nat = Some pm.
Proof.
  rewrite Hstar. unfold Split. cbn. intros H.
  destruct (split_from_acc (str ".") (type_string t) 0) as (hd & tl & Hs).
  rewrite bool_decide_false by done. cbn [andb]. change [x2e] with (str ".") in *.
  rewrite Hs in H. rewrite Hs. done.
Qed.

(** The message arrives at its handler. *)
Lemma request_handled (nm : gmap string (gtype * gvalue)) (p : gmap bytes (serviceHandler (St := St)))
    t v (pm : bytes) mh (s : St) res s' : p !! pm = Some mh → handler_ok mh → conforms (handler mh) →
  msgType mh = t → kind t = Struct → t ≠ TTime → UnmarshalBinary (TPtr t) = None → wf gens true true t v →
  (∀ b, yields (λ f, Encoder.Encode gens f (Some (TPtr t, VPtr v))) (Ret b) → Z.of_nat (length b) < 2 ^ 64) →
  body (handler mh) [VPtr (norm t v)] s = (Ret res, s') →
  ∃ b f0, ∀ f, (f0 <= f)%nat → Encoder.Encode gens f (Some (TPtr t, VPtr v)) = Ret b ∧
    ProcessClientRequest gens f nm p pm b s = (answer gens f (Ret res), s').
Proof.
  intros Hp Hok Hc Hm Hk Ht Hu Hwf Hb Hbody. subst t.
  destruct (decode_encode_with gens _ _ Hk Ht Hu Hwf) as (b & [f1 He] & Hd).
  destruct (Hd (Hb b (ex_intro _ f1 He)) nm) as [f2 Hf2].
  exists b, (f1 + f2)%nat. intros f Hf. split; [apply He; lia|].
  erewrite process_decoded by (try done; apply Hf2; lia). by rewrite Hbody.
Qed.

Lemma SendProtobuf_Send f nm dst t v ret b pm cw : Encoder.Encode gens f (Some (TPtr t, VPtr v)) = Ret b →
  Split (type_string t) (str ".") !! 1%nat = Some pm →
  SendProtobuf gens type_string f nm dst (Some (TPtr t, VPtr v)) ret cw =
  (do! reply := Send dst pm b in
   match ret with
   | None => sret None
   | Some (rt, rv) =>
       slift (client_result (
         let! v := Decoder.DecodeWithConstructors (Decoder.putvalue gens f) nm reply (Some (rt, rv)) in
         Ret (Some v)))
   end) cw.
Proof.
  intros He Hpm%pointer_path. unfold SendProtobuf. rewrite He. cbn [client_result omap_err].
  rewrite sbind_lift. cbn [fmap option_fmap option_map fst deref]. rewrite sbind_lift.
  rewrite (index_Ret _ 1%nat pm Hpm). by rewrite sbind_lift.
Qed.

(** C11: a client's request, end to end.  When the service at the destination was
    built by registering functions, and one is registered for the name of the type
    of the message: [SendProtobuf] of a struct calls that function with a pointer
    to the (normal form of the) struct, on the state the service has; a reply
    arrives as the (normal form of the) struct the function returned; an error
    arrives with its code and message when the code is between 4000 and 4999, with
    code 4003 and the whole text otherwise, and as a broken connection when the
    message does not fit a close frame.  The connection is kept or closed as the
    client was made. *)
Theorem client_request (procs : list (goiface (St := St))) (nm nm' : gmap string (gtype * gvalue))
    t v (pm : bytes) mh (s : St) res s' :
  (∀ h, Func h ∈ procs → conforms h) →
  let p := (RegisterHandlers type_string procs NewServiceProcessor).2 in
  p !! pm = Some mh → msgType mh = t → Split (type_string t) (str ".") !! 1%nat = Some pm →
  kind t = Struct → t ≠ TTime → UnmarshalBinary (TPtr t) = None → wf gens true true t v →
  (∀ b, yields (λ f, Encoder.Encode gens f (Some (TPtr t, VPtr v))) (Ret b) → Z.of_nat (length b) < 2 ^ 64) →
  body (handler mh) [VPtr (norm t v)] s = (Ret res, s') →
  let after c c' w w' dst :=
    state w' = s' ∧
    connections c' = if keep c then <[(dst, pm) := length (links w)]> (connections c) else connections c in
  (∀ rt x, res = [RValue (Some (TPtr rt, VPtr x)); RError None] →
     kind rt = Struct → rt ≠ TTime → UnmarshalBinary (TPtr rt) = None → wf gens true true rt x →
     (∀ b, yields (λ f, Encoder.Encode gens f (Some (TPtr rt, VPtr x))) (Ret b) → Z.of_nat (length b) < 2 ^ 64) →
     ∃ f0, ∀ f, (f0 <= f)%nat → ∀ c w dst, state w = s →
       serves w c dst pm (ProcessClientRequest gens f nm p) →
       ∃ c' w', SendProtobuf gens type_string f nm' dst (Some (TPtr t, VPtr v)) (Some (TPtr rt, VPtr (zero rt))) (c, w) =
         (Ret (Some (VPtr (norm rt x))), (c', w')) ∧ after c c' w w' dst) ∧
  (∀ r0 ce, res = [r0; RError (Some ce)] →
     ∃ f0, ∀ f, (f0 <= f)%nat → ∀ c w dst ret, state w = s →
       serves w c dst pm (ProcessClientRequest gens f nm p) →
       ∃ c' w', SendProtobuf gens type_string f nm' dst (Some (TPtr t, VPtr v)) ret (c, w) =
         (Err (if (2 + String.length (ErrorMsg (closing_error ce)) <=? 125)%nat
               then closing_error ce else NewClientError eof_text), (c', w')) ∧ after c c' w w' dst).
Proof.
  intros Hconf p Hp Hm Hpm Hk Ht Hu Hwf Hb Hbody after.
  assert (table_ok conforms p) as Htab by (by apply RegisterHandlers_ok).
  apply Htab in Hp as Hmh. destruct Hmh as [Hok Hc].
  destruct (request_handled nm p t v pm mh s res s') as (b & f0 & H); [done..|].
  split.
  - intros rt x -> Hk' Ht' Hu' Hwf' Hb'.
    destruct (decode_encode_with gens _ _ Hk' Ht' Hu' Hwf') as (b' & [f1 He] & Hd).
    destruct (Hd (Hb' b' (ex_intro _ f1 He)) nm') as [f2 Hf2].
    exists (f0 + f1 + f2)%nat. intros f Hf c w dst Hst Hserves.
    destruct (H f ltac:(lia)) as [Henc Hproc].
    rewrite (SendProtobuf_Send f nm' dst t v _ b pm) by done.
    cbn [answer returned_error obind returned_value] in Hproc. rewrite He in Hproc by lia. cbn [omap_err] in Hproc.
    rewrite <-Hst in Hproc.
    destruct (send_new c w dst pm _ b _ _ Hserves Hproc) as (c' & w' & Hsend & Hs' & Hcs & _); [done|].
    exists c', w'. split; [|done]. unfold sbind. rewrite Hsend. unfold slift. by rewrite Hf2 by lia.
  - intros r0 ce ->. exists f0. intros f Hf c w dst ret Hst Hserves.
    destruct (H f ltac:(lia)) as [Henc Hproc].
    rewrite (SendProtobuf_Send f nm' dst t v _ b pm) by done. rewrite <-Hst in Hproc.
    destruct (send_new c w dst pm _ b _ _ Hserves Hproc) as (c' & w' & Hsend & Hs' & Hcs & _); [done|].
    exists c', w'. split; [|done]. unfold sbind. rewrite Hsend. cbn. f_equal. f_equal.
    destruct (_ <=? _)%nat; [|done]. pose proof (closing_range ce) as Hr.
    rewrite Hclose by done. rewrite close_text_parsed by lia. by destruct (closing_error ce).
Qed.
End request.

(** A connection that is kept after an error is of no use.  A client made with
    [NewClientKeep] keeps the connection on which the service returned an error,
    and which the service closed: every later [Send] to the destination fails,
    until [Close], without reaching the service and without trying to connect. *)
Theorem kept_connection_dead c w dst path svc buf ce s' : serves w c dst path svc → keep c = true →
  svc path buf (state w) = (Err ce, s') →
  let cw' := (Send dst path buf (c, w)).2 in
  connections cw'.1 !! (dst, path) = Some (length (links w)) ∧
  ∀ buf', ∃ e c2 w2, Send dst path buf' cw' = (Err e, (c2, w2)) ∧ state w2 = s' ∧ connections c2 = connections cw'.1.
Proof.
  intros Hserves Hkeep Hs cw'.
  destruct (send_new c w dst path svc buf _ s' Hserves Hs) as (c' & w' & Hsend & Hst & Hcs & Hl); [done|].
  assert (cw' = (c', w')) as -> by (unfold cw'; by rewrite Hsend). cbn [fst].
  rewrite Hkeep in Hcs. destruct (Hl Hkeep) as (l & Hl1 & e & He).
  assert (connections c' !! (dst, path) = Some (length (links w))) as Hc by (rewrite Hcs; apply lookup_insert_eq).
  split; [done|]. intros buf'. unfold Send, sbind, connection_to. rewrite Hc.
  assert (keep c' = true) as Hk'.
  { assert (keep c' = keep c) as ->; [|done]. unfold Send, sbind in Hsend.
    rewrite (connection_opened c w dst path svc) in Hsend by done. revert Hsend. unfold exchange.
    destruct (WriteMessage _ _ _) as [w1| | |]; [|cbn; rewrite Hkeep; intros; by simplify_eq..].
    destruct (ReadMessage _ w1) as [[]]; cbn; rewrite Hkeep; intros; by simplify_eq. }
  unfold exchange, WriteMessage. rewrite Hl1, He.
  destruct after_close as [e'|]; [cbn; rewrite Hk'; by eexists _, _, _|].
  unfold ReadMessage, set_link. cbn [links state]. rewrite list_lookup_insert_eq by (by eapply lookup_lt_Some).
  cbn. rewrite Hk'. by eexists _, _, _.
Qed.
End websockets.
End Websockets.

(** ** Examples and witnesses *)
Module WebExample.
Import Processor Websockets ProtobufExample.

(** A service that counts: [Add] returns the new count, or an error for a negative
    number. *)
#[local] Instance no_methods : Methods :=
  {| implements _ _ := false; MarshalBinary _ := None; MarshalID _ := None; UnmarshalBinary _ := None |}.

Definition Add : gtype := TNamed "count.Add" (TStruct [(fld "N" true "", TInt64)]).
Definition Total : gtype := TNamed "count.Total" (TStruct [(fld "N" true "", TInt64)]).
Definition num (n : Z) : gvalue := VStruct [VInt n].

Fixpoint type_string (t : gtype) : bytes :=
  match t with
  | TNamed n _ => str n
  | TPtr t => str "*" ++ type_string t
  | _ => str "?"
  end.

Definition add : func (St := Z) := {|
  In := [TPtr Add]; Out := [TPtr Total; ClientErrorType];
  body args s :=
    match args with
    | [VPtr (VStruct [VInt n])] =>
        if n <? 0 then (Ret [RValue (Some (TPtr Total, VNil)); RError (Some (NewClientErrorCode 4100 "negative"))], s)
        else (Ret [RValue (Some (TPtr Total, VPtr (num (s + n)))); RError None], s + n)
    | _ => (Panic "nil pointer dereference", s)
    end;
|}.
Definition procs : list (goiface (St := Z)) := [Func add].
Definition table : gmap bytes (serviceHandler (St := Z)) := (RegisterHandlers type_string procs NewServiceProcessor).2.

Lemma procs_conform h : Func h ∈ procs → conforms h.
Proof.
  intros [= ->]%list_elem_of_singleton args s r s'. cbn.
  destruct args as [|[| | | | | | | |[| | | | | |[|[|n| | | | | | | | | | |] [|]]| | | | | |]| | | |] [|]]; try done.
  destruct (n <? 0); intros [= <- _]; done.
Qed.

Definition address (k : nat) : bytes := str "tcp://127.0.0.1:7770".
Definition server (f : nat) (host : bytes) : option (WebSocket (St := Z)) :=
  if decide (host = str "127.0.0.1:7771") then
    match (let! w := NewWebSocket (λ s, s) (address 0) in
           registerService (str "Count") (ProcessClientRequest ∅ f ∅ table) w) with
    | Ret w => Some w
    | _ => None
    end
  else None.
Definition close_text (code : Z) (msg : string) : string :=
  String.append wsPrefix (String.append (ClientError.Itoa code)
    (match msg with EmptyString => EmptyString | _ => String.append ": " msg end)).
Definition request (f : nat) (n : Z) (cw : Client * World (St := Z)) :=
  SendProtobuf (λ s, s) (λ _ i, if (i =? 0)%nat then Some "connection refused"%string else None)
    close_text "" "unexpected EOF" None address ∅ type_string f ∅ 0
    (Some (TPtr Add, VPtr (num n))) (Some (TPtr Total, VPtr (zero Total))) cw.
Definition world (f : nat) (s : Z) : World (St := Z) := {| links := []; state := s; server_at := server f |}.

Example count_to_seven :
  let '(r, (c, w)) := request 20 4 (NewClient (str "Count"), world 20 3) in
  (r, state w, rx c, tx c, size (connections c)) = (Ret (Some (VPtr (num 7))), 7, 2, 2, 0%nat).
Proof. vm_compute. reflexivity. Qed.

(** The port of the websocket is one more than the port of the server, also for the
    last port; an IPv6 host is not put in brackets. *)
Example web_addresses :
  (getWebAddress (λ s, s) (str "tcp://10.1.1.1:65535") false, getWebAddress (λ s, s) (str "tcp://[::1]:80") false,
   getWebAddress (λ s, s) (str "tcp://10.1.1.1:7770") true) =
  (Ret (str "10.1.1.1:65536"), Ret (str "::1:81"), Ret (str "0.0.0.0:7771")).
Proof. vm_compute. reflexivity. Qed.

Lemma add_wf : wf ∅ true true Add (num 4).
Proof. wf_now. Qed.
Lemma total_wf : wf ∅ true true Total (num 7).
Proof. wf_now. Qed.

Lemma encoded t b x b' : yields (λ f, Encoder.Encode (M := no_methods) ∅ f (Some (TPtr t, VPtr x))) (Ret b) →
  (∀ f, Encoder.Encode (M := no_methods) ∅ (S (S f)) (Some (TPtr t, VPtr x)) = Ret b') → Z.of_nat (length b') < 2 ^ 64 →
  Z.of_nat (length b) < 2 ^ 64.
Proof.
  intros Hb Hb' Hl. assert (b = b') as ->; [|done].
  enough (Ret (E := error) b = Ret b') as [= ->] by done. eapply yields_fun; [exact Hb|].
  exists 2%nat. intros [|[|f]] Hf; [lia..|]. apply Hb'.
Qed.

Lemma world_serves f s : serves (λ s, s) (λ _ i, if (i =? 0)%nat then Some "connection refused"%string else None) address
  (world f s) (NewClient (str "Count")) 0 (str "Add") (ProcessClientRequest ∅ f ∅ table).
Proof.
  constructor; [done|]. eexists (str "127.0.0.1:7771"), _, _. split; [by_vm|]. split; [reflexivity|]. split; [reflexivity|].
  exists 1%nat. split; [unfold MaxRetryConnect; lia|done].
Qed.

Lemma client_request_witness : ∃ f0, ∀ f, (f0 <= f)%nat → ∃ c' w',
  request f 4 (NewClient (str "Count"), world f 3) = (Ret (Some (VPtr (num 7))), (c', w')) ∧ state w' = 7.
Proof.
  destruct (client_request (λ s, s) (λ _ i, if (i =? 0)%nat then Some "connection refused"%string else None)
    close_text "" "unexpected EOF" None address ∅ type_string (λ t, eq_refl) (λ code msg _, eq_refl) procs ∅ ∅ Add (num 4) (str "Add")
    {| handler := add; msgType := Add |} 3 [RValue (Some (TPtr Total, VPtr (num 7))); RError None] 7) as [H _].
  - exact procs_conform.
  - by_vm.
  - reflexivity.
  - by_vm.
  - reflexivity.
  - discriminate.
  - reflexivity.
  - exact add_wf.
  - intros b Hb. apply (encoded Add b (num 4) [x08; x08] Hb); [intros f; reflexivity|reflexivity].
  - reflexivity.
  - destruct (H Total (num 7) eq_refl eq_refl ltac:(discriminate) eq_refl total_wf) as [f0 Hf].
    + intros b Hb. apply (encoded Total b (num 7) [x08; x0e] Hb); [intros f; reflexivity|reflexivity].
    + exists f0. intros f Hle. destruct (Hf f Hle (NewClient (str "Count")) (world f 3) 0%nat eq_refl (world_serves f 3))
        as (c' & w' & Hs & Hst & _). exists c', w'. split; [exact Hs|exact Hst].
Defined.

Lemma no_unmarshal {t u} : UnmarshalBinary (Methods := no_methods) t = Some u → ∀ P : Prop, P.
Proof. done. Qed.
Lemma no_generator {k : bytes} {g : gtype * gvalue} : (∅ : gmap bytes (gtype * gvalue)) !! k = Some g → ∀ P : Prop, P.
Proof. by rewrite lookup_empty. Qed.

Lemma request_is_typed_witness : ∃ mh, table !! str "Add" = Some mh ∧
  ((∃ e f0, ∀ fuel, (f0 <= fuel)%nat → ProcessClientRequest ∅ fuel ∅ table (str "Add") [x08; x09] 3 =
      (Err (NewClientErrorCode WebSocketErrorProtobufDecode e), 3)) ∨
   (∃ t x, In (handler mh) = [t] ∧ typed (Elem t) x)).
Proof.
  destruct (request_is_typed (M := no_methods) ∅ type_string (λ t u b v E, no_unmarshal E _) (λ t u b v v' E, no_unmarshal E _)
    (λ t u b x v' E, no_unmarshal E _) (λ k g E, no_generator E _) procs ∅ (str "Add") [x08; x09] 3) as [_ H].
  - exact procs_conform.
  - apply no_constructors.
  - exists {| handler := add; msgType := Add |}. split; [by_vm|].
    destruct (H {| handler := add; msgType := Add |}) as [(e & f0 & He)|(t & x & Hin & _ & _ & Hx & _)].
    + by_vm.
    + left. exists e, f0. exact He.
    + right. exists t, x. split; [exact Hin|exact Hx].
Defined.

(** The service refuses a negative number; the client that keeps its connections
    gets no further. *)
Definition keeping : Client := NewClientKeep (str "Count").
Definition refused : Client * World (St := Z) :=
  (Send (λ s, s) (λ _ _, None) close_text "" "unexpected EOF" None address 0 (str "Add") [x08; x09] (keeping, world 20 3)).2.

Lemma kept_connection_dead_witness :
  ∀ buf, ∃ e c w, Send (λ s, s) (λ _ _, None) close_text "" "unexpected EOF" None address 0 (str "Add") buf refused =
    (Err e, (c, w)) ∧ state w = 3.
Proof.
  destruct (kept_connection_dead (λ s, s) (λ _ _, None) close_text "" "unexpected EOF" None address keeping (world 20 3) 0
    (str "Add") (ProcessClientRequest ∅ 20 ∅ table) [x08; x09] (NewClientErrorCode 4100 "negative") 3) as [_ H].
  - constructor; [done|]. eexists (str "127.0.0.1:7771"), _, _. split; [by_vm|]. split; [reflexivity|]. split; [reflexivity|].
    exists 1%nat. split; [unfold MaxRetryConnect; lia|done].
  - reflexivity.
  - by_vm.
  - intros buf. destruct (H buf) as (e & c & w & Hs & Hst & _). exists e, c, w. split; [exact Hs|exact Hst].
Defined.
End WebExample.
