(* ===== verification/Services.v ===== *)
(** * Services of a server ([imported/onet/service.go], [context.go], [status.go])

    [Factory] is the global table of the services that can be started, with the
    identifiers derived from their names; [Manager] starts them on a server and
    passes them the messages they asked for; [Contexts] is what a service sees of
    its server, above all the storage of its data; [Statuses] the status reports. *)
From S2P Require Import Prelude GoStrings Suite Tree Wire Protobuf ProtobufScalars ProtobufRoundtrip ProtobufTotal ProtobufExample NetEncoding.
Import Strings Path.

(** ** The registered services *)
Module Factory.
Section factory.
Context {U : UuidLib} {Constructor : Type}.

Definition NilServiceID : UUID := uuid_Nil.

Record serviceEntry := {
  constructor : Constructor;
  serviceID : UUID;
  name : bytes;
}.
Abbreviation serviceFactory := (list serviceEntry).

(** The loops over the entries. *)
Fixpoint find_entry (P : serviceEntry → bool) (s : serviceFactory) : option (nat * serviceEntry) :=
  match s with
  | [] => None
  | c :: s => if P c then Some (O, c) else prod_map Datatypes.S id <$> find_entry P s
  end.
Definition named (n : bytes) (c : serviceEntry) : bool := bool_decide (name c = n).

Definition ServiceID (s : serviceFactory) (n : bytes) : UUID :=
  match find_entry (named n) s with Some (_, c) => serviceID c | None => NilServiceID end.

Definition Name (s : serviceFactory) (i : UUID) : bytes :=
  match find_entry (λ c, uuid_Equal i (serviceID c)) s with Some (_, c) => name c | None => [] end.

Definition service_id (n : bytes) : UUID := NewV5 NamespaceURL_uuid n.

Definition Register (n : bytes) (fn : Constructor) : SM serviceFactory error UUID := λ s,
  if negb (uuid_Equal (ServiceID s n) NilServiceID) then (Err "service already registered", s)
  else
    let i := service_id n in
    (Ret i, s ++ [{| constructor := fn; serviceID := i; name := n |}]).

Definition Unregister (n : bytes) : SM serviceFactory error unit := λ s,
  match find_entry (named n) s with
  | None => (Err "Didn't find service", s)
  | Some (index, _) => (Ret tt, take index s ++ drop (Datatypes.S index) s)
  end.

Definition registeredServiceIDs (s : serviceFactory) : list UUID := serviceID <$> s.
Definition RegisteredServiceNames (s : serviceFactory) : list bytes := name <$> s.

(** The constructor that [start] calls. *)
Definition start (s : serviceFactory) (n : bytes) : outcome error Constructor :=
  match find_entry (named n) s with
  | None => Err "Didn't find service"
  | Some (_, c) => Ret (constructor c)
  end.

(** *** The table is a map *)

Inductive FOp := FRegister (n : bytes) (fn : Constructor) | FUnregister (n : bytes).
Definition run (s : serviceFactory) (op : FOp) : serviceFactory :=
  match op with
  | FRegister n fn => (Register n fn s).2
  | FUnregister n => (Unregister n s).2
  end.
Definition runs (ops : list FOp) : serviceFactory := foldl run [] ops.

(** The specification: a map from names. *)
Definition abstract (m : gmap bytes Constructor) (op : FOp) : gmap bytes Constructor :=
  match op with
  | FRegister n fn => match m !! n with Some _ => m | None => <[n := fn]> m end
  | FUnregister n => delete n m
  end.
Definition abstracts (ops : list FOp) : gmap bytes Constructor := foldl abstract ∅ ops.

(** A UUID made from a name says so in its bits: it is not nil. *)
Context (Hnil : ∀ n, service_id n ≠ NilServiceID).

Record frep (s : serviceFactory) (m : gmap bytes Constructor) : Prop := {
  rep_nodup : NoDup (name <$> s);
  rep_ids : Forall (λ c, serviceID c = service_id (name c)) s;
  rep_map : ∀ n fn, m !! n = Some fn ↔ ∃ c, c ∈ s ∧ name c = n ∧ constructor c = fn;
}.

Lemma find_entry_Some P s i c : find_entry P s = Some (i, c) → s !! i = Some c ∧ P c = true.
Proof.
  revert i. induction s as [|d s IH]; intros i; cbn; [done|]. destruct (P d) eqn:E; [by intros [= <- <-]|].
  destruct (find_entry P s) as [[j d']|]; [|done]. intros [= <- <-]. by apply IH.
Qed.
Lemma find_entry_None P s : find_entry P s = None → ∀ c, c ∈ s → P c = false.
Proof.
  induction s as [|d s IH]; cbn; [by intros _ c ?%elem_of_nil|]. destruct (P d) eqn:E; [done|].
  destruct (find_entry P s) as [[]|]; [done|]. intros _ c [->|Hc]%elem_of_cons; auto.
Qed.

Lemma find_named s m n : frep s m →
  match find_entry (named n) s with
  | Some (i, c) => s !! i = Some c ∧ name c = n ∧ m !! n = Some (constructor c) ∧ serviceID c = service_id n
  | None => m !! n = None
  end.
Proof.
  intros [_ Hids Hm]. destruct (find_entry (named n) s) as [[i c]|] eqn:E.
  - apply find_entry_Some in E as [Hi Hn%bool_decide_eq_true].
    split; [done|]. split; [done|]. apply list_elem_of_lookup_2 in Hi as Hin. split; [apply Hm; by exists c|].
    rewrite Forall_forall in Hids. rewrite (Hids c Hin). by rewrite Hn.
  - destruct (m !! n) as [fn|] eqn:Hn; [|done]. apply Hm in Hn as (c & Hc & Hcn & _).
    apply (find_entry_None _ _ E) in Hc. unfold named in Hc. by rewrite bool_decide_true in Hc.
Qed.

Lemma ServiceID_spec s m n : frep s m → ServiceID s n = match m !! n with Some _ => service_id n | None => NilServiceID end.
Proof.
  intros H. unfold ServiceID. pose proof (find_named s m n H) as Hf.
  destruct (find_entry (named n) s) as [[i c]|]; [|by rewrite Hf]. destruct Hf as (_ & _ & -> & ->). done.
Qed.

Lemma ServiceID_Some s m n fn : frep s m → m !! n = Some fn → ServiceID s n = service_id n.
Proof. intros H Hn. by rewrite (ServiceID_spec s m n H), Hn. Qed.
Lemma ServiceID_None s m n : frep s m → m !! n = None → ServiceID s n = NilServiceID.
Proof. intros H Hn. by rewrite (ServiceID_spec s m n H), Hn. Qed.

Lemma frep_run s m op : frep s m → frep (run s op) (abstract m op).
Proof.
  intros H. destruct op as [n fn|n]; cbn [run abstract].
  - unfold Register. rewrite (ServiceID_spec s m n H). unfold uuid_Equal.
    destruct (m !! n) as [fn'|] eqn:Hn; [by rewrite bool_decide_false|].
    rewrite bool_decide_true by done. cbn. destruct H as [Hd Hi Hm]. split.
    + rewrite fmap_app. apply NoDup_app. split; [done|]. split; [|by apply NoDup_singleton].
      intros n' Hin ->%list_elem_of_singleton. apply list_elem_of_fmap in Hin as (c & Hc & Hin).
      assert (m !! n = Some (constructor c)) by (apply Hm; exists c; done). congruence.
    + apply Forall_app. split; [done|]. by constructor.
    + intros n' fn'. destruct (decide (n' = n)) as [->|Hne].
      * rewrite lookup_insert_eq. split.
        -- intros [= <-]. eexists. split; [apply elem_of_app; right; by left|done].
        -- intros (c & [Hin|Hin]%elem_of_app & Hcn & <-).
           ++ assert (m !! n = Some (constructor c)) by (apply Hm; exists c; done). congruence.
           ++ apply list_elem_of_singleton in Hin as ->. done.
      * rewrite lookup_insert_ne by done. rewrite Hm. split; intros (c & Hin & Hcn & Hfn); exists c.
        -- split; [by apply elem_of_app; left|done].
        -- apply elem_of_app in Hin as [Hin|Hin]; [done|]. apply list_elem_of_singleton in Hin as ->. by cbn in Hcn.
  - unfold Unregister. pose proof (find_named s m n H) as Hf.
    destruct (find_entry (named n) s) as [[i c]|]; [|by rewrite delete_id].
    destruct Hf as (Hi & Hcn & _). destruct H as [Hd Hids Hm]. cbn [snd].
    pose proof (take_drop_middle s i c Hi) as Hs. rewrite <-Hs in Hd, Hids.
    rewrite fmap_app, fmap_cons in Hd. apply NoDup_app in Hd as (Hd1 & Hd12 & [Hc Hd2]%NoDup_cons).
    apply Forall_app in Hids as [Hi1 [_ Hi2]%Forall_cons_1]. split.
    + rewrite fmap_app. apply NoDup_app. split; [done|]. split; [|done]. intros x Hx Hx'.
      apply (Hd12 x Hx). by right.
    + by apply Forall_app.
    + intros n' fn. rewrite lookup_delete_Some, Hm. split.
      * intros [Hne (d & Hin & Hdn & Hfn)]. exists d. split; [|done]. rewrite <-Hs in Hin.
        apply elem_of_app in Hin as [Hin|[->|Hin]%elem_of_cons]; [by apply elem_of_app; left|congruence|by apply elem_of_app; right].
      * intros (d & Hin & Hdn & Hfn). split.
        -- intros ->. apply elem_of_app in Hin as [Hin|Hin]; apply (list_elem_of_fmap_2 name) in Hin.
           ++ rewrite Hdn, <-Hcn in Hin. apply (Hd12 _ Hin). by left.
           ++ apply Hc. by rewrite Hcn, <-Hdn.
        -- exists d. split; [|done]. rewrite <-Hs. apply elem_of_app in Hin as [Hin|Hin]; apply elem_of_app; [by left|right; by right].
Qed.

Lemma frep_runs ops : frep (runs ops) (abstracts ops).
Proof.
  unfold runs, abstracts. assert (frep [] ∅) as H.
  { split; [constructor|constructor|]. intros n fn. rewrite lookup_empty. split; [done|]. by intros (c & ?%elem_of_nil & _). }
  revert H. generalize ([] : serviceFactory) (∅ : gmap bytes Constructor).
  induction ops as [|op ops IH]; intros s m H; [done|]. apply IH. by apply frep_run.
Qed.

Lemma Name_spec s m n : frep s m → is_Some (m !! n) →
  (∀ n', is_Some (m !! n') → service_id n' = service_id n → n' = n) → Name s (service_id n) = n.
Proof.
  intros H [fn Hn] Hinj. pose proof (find_named s m n H) as Hf. unfold Name.
  destruct (find_entry (λ c, uuid_Equal (service_id n) (serviceID c)) s) as [[i c]|] eqn:E.
  - apply find_entry_Some in E as [Hi Hid%bool_decide_eq_true]. apply list_elem_of_lookup_2 in Hi.
    apply Hinj.
    + exists (constructor c). apply (rep_map _ _ H). by exists c.
    + pose proof (rep_ids _ _ H) as Hids. rewrite Forall_forall in Hids. by rewrite <-(Hids c Hi).
  - destruct (find_entry (named n) s) as [[i c]|]; [|congruence]. destruct Hf as (Hi & _ & _ & Hid).
    apply list_elem_of_lookup_2 in Hi. apply (find_entry_None _ _ E) in Hi. unfold uuid_Equal in Hi.
    by rewrite bool_decide_true in Hi.
Qed.

(** The table of services implements a map from names to constructors, for
    every sequence of registrations and removals: a name is registered once, until
    it is removed; looking up the identifier, the constructor and the list of names
    agree with the map; and the name of an identifier is found again when no other
    registered name has it. *)
Theorem factory_refines_map ops n :
  let s := runs ops in let m := abstracts ops in
  (∀ fn, (Register n fn s).1 = (match m !! n with Some _ => Err "service already registered" | None => Ret (service_id n) end) ∧
     runs (ops ++ [FRegister n fn]) = (Register n fn s).2) ∧
  ((Unregister n s).1 = (match m !! n with Some _ => Ret tt | None => Err "Didn't find service" end) ∧
     runs (ops ++ [FUnregister n]) = (Unregister n s).2) ∧
  start s n = (match m !! n with Some fn => Ret fn | None => Err "Didn't find service" end) ∧
  ServiceID s n = (match m !! n with Some _ => service_id n | None => NilServiceID end) ∧
  RegisteredServiceNames s ≡ₚ elements (dom m) ∧ registeredServiceIDs s = service_id <$> RegisteredServiceNames s ∧
  (is_Some (m !! n) → (∀ n', is_Some (m !! n') → service_id n' = service_id n → n' = n) → Name s (service_id n) = n).
Proof.
  intros s m. pose proof (frep_runs ops) as H. fold s in H. fold m in H.
  pose proof (find_named s m n H) as Hf. pose proof (ServiceID_spec s m n H) as Hid.
  split; [|split; [|split; [|split; [done|split; [|split]]]]].
  - intros fn. split; [|unfold runs; by rewrite foldl_app]. unfold Register. rewrite Hid. unfold uuid_Equal.
    destruct (m !! n); [by rewrite bool_decide_false|by rewrite bool_decide_true].
  - split; [|unfold runs; by rewrite foldl_app]. unfold Unregister.
    destruct (find_entry (named n) s) as [[i c]|]; [|by rewrite Hf]. by destruct Hf as (_ & _ & -> & _).
  - unfold start. destruct (find_entry (named n) s) as [[i c]|]; [|by rewrite Hf]. by destruct Hf as (_ & _ & -> & _).
  - apply NoDup_Permutation; [apply (rep_nodup _ _ H)|apply NoDup_elements|]. intros x.
    unfold RegisteredServiceNames. rewrite list_elem_of_fmap, elem_of_elements, elem_of_dom. split.
    + intros (c & -> & Hc). exists (constructor c). apply (rep_map _ _ H). by exists c.
    + intros [fn Hfn]. apply (rep_map _ _ H) in Hfn as (c & Hc & <- & _). by exists c.
  - unfold registeredServiceIDs, RegisteredServiceNames. rewrite <-list_fmap_compose.
    pose proof (rep_ids _ _ H) as Hids. clear -Hids. induction Hids as [|c l Hc _ IH]; cbn; [done|]. by f_equal.
  - by apply Name_spec.
Qed.
End factory.
End Factory.

(** ** The services of a server *)
Module Manager.
Import Factory.
Section manager.
Context {U : UuidLib} {Svc Processor Env R : Type} (msg_type : Env → UUID).

(** Where the dispatcher of the server sends a message. *)
Inductive receiver := ToManager | ToOther (p : Processor).

(** The dispatcher of the server; the dispatcher and the services of the manager;
    the paths of the websocket; and the other parts of the server that services
    reach. *)
Record Server := {
  dispatcher : gmap UUID receiver;
  m_dispatcher : gmap UUID Processor;
  services : gmap UUID (option Svc);
  web : list bytes;
  other : R;
}.
Definition set_dispatchers (srv : Server) (d : gmap UUID receiver) (m : gmap UUID Processor) : Server :=
  {| dispatcher := d; m_dispatcher := m; services := services srv; web := web srv; other := other srv |}.

(** A [NewServiceFunc], of a context: the identifier in it and the server. *)
Abbreviation NewServiceFunc := (UUID → SM Server Empty_set Svc).
Abbreviation factory := (list (serviceEntry (Constructor := NewServiceFunc))).

(** [registerProcessor]: the server passes the type to the manager, the manager to
    the processor. *)
Definition registerProcessor (p : Processor) (msgType : UUID) (srv : Server) : Server :=
  set_dispatchers srv (Dispatch.RegisterProcessor (dispatcher srv) ToManager [msgType])
    (Dispatch.RegisterProcessor (m_dispatcher srv) p [msgType]).

(** [Process] of the manager: the processor that is started. *)
Definition Process (env : Env) (srv : Server) : outcome error Processor :=
  Dispatch.RoutineDispatch msg_type (m_dispatcher srv) env.

(** [WebSocket.registerService]: a path is registered once. *)
Definition registerService (n : bytes) (srv : Server) : outcome error Server :=
  if decide (n ∈ web srv) then Panic "http: multiple registrations"
  else Ret {| dispatcher := dispatcher srv; m_dispatcher := m_dispatcher srv; services := services srv; web := web srv ++ [n];
             other := other srv |}.

(** The round of the loop of [newServiceManager]: an error of [start] is logged and
    the service is nil. *)
Definition start_service (s : factory) (i : UUID) : SM Server error unit := λ srv,
  let n := Name s i in
  let '(r, srv) :=
    match start s n with
    | Ret fn => let '(r, srv) := fn i srv in (let! svc := omap_err (λ e : Empty_set, match e with end) r in Ret (Some svc), srv)
    | Err _ => (Ret None, srv)
    | Panic w => (Panic w, srv)
    | OutOfFuel => (OutOfFuel, srv)
    end in
  match r with
  | Ret svc =>
      let srv := {| dispatcher := dispatcher srv; m_dispatcher := m_dispatcher srv;
                    services := <[i := svc]> (services srv); web := web srv; other := other srv |} in
      match registerService n srv with
      | Ret srv => (Ret tt, srv)
      | Err e => (Err e, srv)
      | Panic w => (Panic w, srv)
      | OutOfFuel => (OutOfFuel, srv)
      end
  | Err e => (Err e, srv)
  | Panic w => (Panic w, srv)
  | OutOfFuel => (OutOfFuel, srv)
  end.
Definition newServiceManager (s : factory) : SM Server error unit :=
  sforM (λ _ i, start_service s i) tt (registeredServiceIDs s).

Definition service (s : factory) (n : bytes) (srv : Server) : option Svc :=
  let i := ServiceID s n in
  if uuid_Equal i NilServiceID then None else mjoin (services srv !! i).
Definition serviceByID (i : UUID) (srv : Server) : option (option Svc) := services srv !! i.
Definition availableServices (s : factory) (srv : Server) : list bytes := Name s <$> (map_to_list (services srv)).*1.

(** A message goes to the processor that was registered last for its type. *)
Lemma registered_processor p t env srv :
  let srv' := registerProcessor p t srv in
  (msg_type env = t → dispatcher srv' !! msg_type env = Some ToManager ∧ Process env srv' = Ret p) ∧
  (msg_type env ≠ t → dispatcher srv' !! msg_type env = dispatcher srv !! msg_type env ∧ Process env srv' = Process env srv).
Proof.
  unfold registerProcessor, Process, Dispatch.RoutineDispatch. cbn [dispatcher m_dispatcher set_dispatchers].
  rewrite !Dispatch.RegisterProcessor_lookup.
  split; intros Ht.
  - rewrite !(decide_True (P := msg_type env ∈ [t])) by (rewrite Ht; by left). done.
  - rewrite !(decide_False (P := msg_type env ∈ [t])) by (by intros ?%list_elem_of_singleton). done.
Qed.

(** *** Starting the services *)
Context (Hnil : ∀ n, service_id n ≠ NilServiceID).

(** Constructors return, and touch the dispatchers only. *)
Definition constructs (fn : NewServiceFunc) : Prop :=
  ∀ i srv, ∃ svc srv', fn i srv = (Ret svc, srv') ∧ services srv' = services srv ∧ web srv' = web srv.

Lemma start_service_spec s m n fn srv : frep s m → m !! n = Some fn → constructs fn → n ∉ web srv →
  (∀ n', is_Some (m !! n') → service_id n' = service_id n → n' = n) →
  ∃ svc srv1 srv2, fn (service_id n) srv = (Ret svc, srv1) ∧ start_service s (service_id n) srv = (Ret tt, srv2) ∧
    services srv2 = <[service_id n := Some svc]> (services srv) ∧ web srv2 = web srv ++ [n].
Proof.
  intros H Hn Hfn Hw Hinj. destruct (Hfn (service_id n) srv) as (svc & srv1 & Hc & Hs & Hwe).
  eexists svc, srv1, _. split; [done|]. unfold start_service. rewrite (Name_spec s m n H) by (done || by eexists).
  pose proof (find_named s m n H) as Hf. unfold start.
  destruct (find_entry (named n) s) as [[j c]|]; [|congruence].
  destruct Hf as (_ & _ & Hm & _). rewrite Hn in Hm. injection Hm as <-. rewrite Hc. cbn [omap_err obind].
  unfold registerService. cbn [web]. rewrite decide_False by (by rewrite Hwe). split; [done|]. cbn [services web].
  by rewrite Hs, Hwe.
Qed.

Lemma start_all s m : frep s m → (∀ n fn, m !! n = Some fn → constructs fn) →
  (∀ n n', is_Some (m !! n) → is_Some (m !! n') → service_id n' = service_id n → n' = n) →
  ∀ names srv, NoDup names → (∀ n, n ∈ names → is_Some (m !! n) ∧ n ∉ web srv) →
  ∃ srv', sforM (λ _ i, start_service s i) tt (service_id <$> names) srv = (Ret tt, srv') ∧
    (∀ n, n ∈ names → ∃ fn svc srv0 srv1, m !! n = Some fn ∧ fn (service_id n) srv0 = (Ret svc, srv1) ∧
       services srv' !! service_id n = Some (Some svc)) ∧
    (∀ i, (∀ n, n ∈ names → service_id n ≠ i) → services srv' !! i = services srv !! i) ∧
    web srv' = web srv ++ names.
Proof.
  intros H Hcon Hinj names. induction names as [|n names IH]; intros srv Hd Hin.
  { exists srv. split; [done|]. split; [by intros n ?%elem_of_nil|]. split; [done|]. by rewrite app_nil_r. }
  apply NoDup_cons in Hd as [Hn Hd]. destruct (Hin n ltac:(by left)) as [[fn Hfn] Hw].
  destruct (start_service_spec s m n fn srv H Hfn) as (svc & srv1 & srv2 & Hc & Hst & Hs & Hwe);
    [by eapply Hcon|done|intros n' Hn'; apply Hinj; [by eexists|done]|].
  destruct (IH srv2 Hd) as (srv' & Hrun & Hall & Hrest & Hweb).
  { intros n' Hn'. destruct (Hin n' ltac:(by right)) as [Hm' Hw']. split; [done|]. rewrite Hwe.
    intros [Hx|Hx]%elem_of_app; [done|]. apply list_elem_of_singleton in Hx as ->. done. }
  exists srv'. split; [|split; [|split]].
  - cbn [fmap list_fmap sforM]. unfold sbind at 1. by rewrite Hst.
  - intros n' [->|Hn']%elem_of_cons; [|by apply Hall]. exists fn, svc, srv, srv1. split; [done|]. split; [done|].
    rewrite Hrest, Hs; [apply lookup_insert_eq|]. intros n' Hn' Heq.
    destruct (Hin n' ltac:(by right)) as [Hm' _]. apply Hn. by rewrite <-(Hinj n n' ltac:(by eexists) Hm' Heq).
  - intros i Hi. rewrite Hrest by (intros n' Hn'; apply Hi; by right). rewrite Hs.
    apply lookup_insert_ne. apply Hi. by left.
  - rewrite Hweb, Hwe, <-app_assoc. done.
Qed.

Definition fresh_server (srv : Server) : Prop := services srv = ∅ ∧ web srv = [].

(** The identifiers of the names that are registered. *)
Lemma registered_names (ops : list (FOp (Constructor := NewServiceFunc))) :
  registeredServiceIDs (runs ops) = service_id <$> RegisteredServiceNames (runs ops) ∧
  NoDup (RegisteredServiceNames (runs ops)) ∧
  (∀ n, n ∈ RegisteredServiceNames (runs ops) ↔ is_Some (abstracts ops !! n)).
Proof.
  pose proof (frep_runs Hnil ops) as H. split; [|split; [apply (rep_nodup _ _ H)|]].
  - unfold registeredServiceIDs, RegisteredServiceNames. rewrite <-list_fmap_compose.
    pose proof (rep_ids _ _ H) as Hi. clear -Hi. induction Hi as [|c l Hc _ IH]; cbn; [done|]. by f_equal.
  - intros n. unfold RegisteredServiceNames. rewrite list_elem_of_fmap. split.
    + intros (c & -> & Hc). exists (constructor c). apply (rep_map _ _ H). by exists c.
    + intros [fn Hfn]. apply (rep_map _ _ H) in Hfn as (c & Hc & <- & _). by exists c.
Qed.

(** What [newServiceManager] leaves. *)
Definition started (ops : list (FOp (Constructor := NewServiceFunc))) (srv srv' : Server) : Prop :=
  newServiceManager (runs ops) srv = (Ret tt, srv') ∧ web srv' = RegisteredServiceNames (runs ops) ∧
  (∀ n fn, abstracts ops !! n = Some fn → ∃ svc srv0 srv1, fn (service_id n) srv0 = (Ret svc, srv1) ∧
     service (runs ops) n srv' = Some svc ∧ serviceByID (service_id n) srv' = Some (Some svc)) ∧
  (∀ n, abstracts ops !! n = None → service (runs ops) n srv' = None) ∧
  (∀ i, (∀ n, is_Some (abstracts ops !! n) → service_id n ≠ i) → services srv' !! i = None).

Definition distinct_ids (m : gmap bytes NewServiceFunc) : Prop :=
  ∀ n n', is_Some (m !! n) → is_Some (m !! n') → service_id n' = service_id n → n' = n.

Lemma manager_started (ops : list (FOp (Constructor := NewServiceFunc))) srv :
  (∀ n fn, abstracts ops !! n = Some fn → constructs fn) → distinct_ids (abstracts ops) → fresh_server srv →
  ∃ srv', started ops srv srv'.
Proof.
  intros Hcon Hinj [Hs0 Hw0]. pose proof (frep_runs Hnil ops) as H.
  destruct (registered_names ops) as (Hids & Hd & Hnames).
  destruct (start_all (runs ops) (abstracts ops) H Hcon Hinj _ srv Hd) as (srv' & Hrun & Hall & Hrest & Hweb).
  { intros n Hn. split; [by apply Hnames|]. rewrite Hw0. apply not_elem_of_nil. }
  exists srv'. unfold started, newServiceManager. rewrite Hids. split; [done|]. split; [by rewrite Hweb, Hw0|].
  split; [|split].
  - intros n fn Hn. destruct (Hall n) as (fn' & svc & srv0 & srv1 & Hn' & Hc & Hsvc); [apply Hnames; by eexists|].
    rewrite Hn in Hn'. injection Hn' as <-. exists svc, srv0, srv1. split; [done|]. split; [|done].
    unfold service. assert (ServiceID (runs ops) n = service_id n) as -> by exact (ServiceID_Some _ _ n fn H Hn).
    unfold uuid_Equal. rewrite bool_decide_false by done. by rewrite Hsvc.
  - intros n Hn. unfold service.
    assert (ServiceID (runs ops) n = NilServiceID) as -> by exact (ServiceID_None _ _ n H Hn).
    unfold uuid_Equal. by rewrite bool_decide_true.
  - intros i Hi. rewrite Hrest, Hs0; [done|]. intros n Hn. apply Hi. by apply Hnames.
Qed.

(** The identifiers of the running services are those of the registered ones. *)
Lemma available_names ops srv srv' :
  distinct_ids (abstracts ops) → started ops srv srv' →
  availableServices (runs ops) srv' ≡ₚ RegisteredServiceNames (runs ops).
Proof.
  intros Hinj (_ & _ & Hall & _ & Hrest). destruct (registered_names ops) as (_ & Hd & Hnames).
  pose proof (frep_runs Hnil ops) as H. unfold availableServices.
  assert ((map_to_list (services srv')).*1 ≡ₚ service_id <$> RegisteredServiceNames (runs ops)) as ->.
  { apply NoDup_Permutation; [apply NoDup_fst_map_to_list| |].
    - apply NoDup_fmap_2_strong; [|done]. intros n n' Hn%Hnames Hn'%Hnames E. symmetry. by apply Hinj.
    - intros i. rewrite !list_elem_of_fmap. split.
      + intros ([i' svc] & -> & Hi%elem_of_map_to_list). cbn. destruct (decide (i' ∈ service_id <$> RegisteredServiceNames (runs ops)))
          as [(n & -> & Hn)%list_elem_of_fmap|Hno]; [by exists n|]. rewrite Hrest in Hi; [done|].
        intros n Hn E. apply Hno. apply list_elem_of_fmap. exists n. split; [done|by apply Hnames].
      + intros (n & -> & Hn). apply Hnames in Hn as [fn Hn]. destruct (Hall n fn Hn) as (svc & _ & _ & _ & _ & Hsvc).
        exists (service_id n, Some svc). split; [done|]. by apply elem_of_map_to_list. }
  apply reflexive_eq. rewrite <-list_fmap_compose. rewrite <-(list_fmap_id (RegisteredServiceNames _)) at 2.
  apply list_fmap_ext. intros j n Hj. apply list_elem_of_lookup_2, Hnames in Hj. cbn.
  apply (Name_spec _ _ n H Hj). intros n' Hn' E. by apply Hinj.
Qed.

(** What every constructor keeps of the other parts, starting the services keeps. *)
Lemma start_service_other (P : R → Prop) s i srv :
  (∀ c, c ∈ s → ∀ i srv, P (other srv) → P (other (constructor c i srv).2)) →
  P (other srv) → P (other (start_service s i srv).2).
Proof.
  intros Hc H0. unfold start_service, start. destruct (find_entry (named (Name s i)) s) as [[j c]|] eqn:E.
  - apply find_entry_Some in E as [Hj%list_elem_of_lookup_2 _]. specialize (Hc c Hj i srv H0).
    destruct (constructor c i srv) as [[svc|e|w|] srv1] eqn:Er; [|destruct e|..];
      pose proof (eq_ind _ (λ x, P (other x.2)) Hc _ Er) as H1; cbn [omap_err obind snd] in *; [|done..].
    unfold registerService. by case_decide.
  - unfold registerService. by case_decide.
Qed.

Lemma newServiceManager_other (P : R → Prop) s srv :
  (∀ c, c ∈ s → ∀ i srv, P (other srv) → P (other (constructor c i srv).2)) →
  P (other srv) → P (other (newServiceManager s srv).2).
Proof.
  intros Hc. unfold newServiceManager. generalize (registeredServiceIDs s) as ids. intros ids. revert srv.
  induction ids as [|i ids IH]; intros srv H0; [done|]. cbn [sforM]. unfold sbind at 1.
  pose proof (start_service_other P s i srv Hc H0) as H1.
  destruct (start_service s i srv) as [[[]|e|w|] srv1]; cbn [snd] in *; [by apply IH|done..].
Qed.

(** A server starts every registered service, and finds each by its name.
    After any sequence of registrations and removals, when identifiers of
    different names differ and constructors return: [newServiceManager] starts the
    services in the order of their registration, each once and with its own
    identifier in its context; [service] of a registered name is what the
    constructor registered for this name made, the websocket has its path, and
    [service] of any other name is nil. *)
Theorem manager_starts_services (ops : list (FOp (Constructor := NewServiceFunc))) srv :
  let s := runs ops in let m := abstracts ops in
  (∀ n fn, m !! n = Some fn → constructs fn) →
  (∀ n n', is_Some (m !! n) → is_Some (m !! n') → service_id n' = service_id n → n' = n) →
  fresh_server srv →
  ∃ srv', newServiceManager s srv = (Ret tt, srv') ∧ web srv' = RegisteredServiceNames s ∧
    (∀ n fn, m !! n = Some fn → ∃ svc srv0 srv1, fn (service_id n) srv0 = (Ret svc, srv1) ∧
       service s n srv' = Some svc ∧ serviceByID (service_id n) srv' = Some (Some svc)) ∧
    (∀ n, m !! n = None → service s n srv' = None).
Proof.
  intros s m Hcon Hinj Hf. destruct (manager_started ops srv Hcon Hinj Hf) as (srv' & Hrun & Hweb & Hall & Hnone & _).
  by exists srv'.
Qed.
End manager.
End Manager.

(** ** What a service sees *)
Module Contexts.
Import Factory.
Section contexts.
Context {S : Suite} {U : UuidLib} {M : Methods} (gens : gmap bytes (gtype * gvalue)) (type_string : gtype → bytes).
Context {Constructor : Type} (factory : list (serviceEntry (Constructor := Constructor))).

(** The public key of the server and the identifier of the service. *)
Record Context := { public : Point; ServiceID : UUID }.

(** Where data is stored: the files, or the map of the tests when there is no path
    ([contextDataPath] empty).  Writing a file can fail and leave a part of the
    data in it; reading can be refused. *)
Record Disk := { contextDataPath : bytes; testContextData : gmap bytes bytes; files : gmap bytes bytes }.
Context (write_fails : bytes → option (error * option bytes)) (read_fails : bytes → option error).

Definition absFilename (c : Context) (id : bytes) (d : Disk) : bytes :=
  let pub := match point_marshal (public c) with Ret b => b | _ => [] end in
  path_Join [contextDataPath d; hex_encode pub ++ str "_" ++ Name factory (ServiceID c) ++ str "_" ++ id ++ str ".bin"].

Definition Save (fuel : nat) (tr : gmap UUID gtype) (c : Context) (id : bytes) (data : option (gtype * gvalue))
    : SM Disk error unit :=
  do! buf := slift (Encoding.Marshal gens type_string fuel tr data) in
  λ d,
    let fname := absFilename c id d in
    if decide (contextDataPath d = []) then
      (Ret tt, {| contextDataPath := contextDataPath d; testContextData := <[fname := buf]> (testContextData d); files := files d |})
    else
      match write_fails fname with
      | None => (Ret tt, {| contextDataPath := contextDataPath d; testContextData := testContextData d;
                            files := <[fname := buf]> (files d) |})
      | Some (e, None) => (Err e, d)
      | Some (e, Some part) => (Err e, {| contextDataPath := contextDataPath d; testContextData := testContextData d;
                                          files := <[fname := part]> (files d) |})
      end.

(** The bytes that [Load] finds. *)
Definition stored (c : Context) (id : bytes) (d : Disk) : outcome error bytes :=
  let fname := absFilename c id d in
  if decide (contextDataPath d = []) then
    match testContextData d !! fname with Some buf => Ret buf | None => Err "this entry doesn't exist" end
  else
    match read_fails fname with
    | Some e => Err e
    | None => match files d !! fname with Some buf => Ret buf | None => Err "no such file or directory" end
    end.
Definition Load (fuel : nat) (tr : gmap UUID gtype) (constructors : gmap string (gtype * gvalue)) (c : Context) (id : bytes)
    (d : Disk) : outcome error (gtype * gvalue) :=
  let! buf := stored c id d in
  let! (_, ret) := Encoding.Unmarshal gens fuel tr constructors buf in
  Ret ret.

Definition DataAvailable (c : Context) (id : bytes) (d : Disk) : bool :=
  let fname := absFilename c id d in
  if decide (contextDataPath d = []) then bool_decide (is_Some (testContextData d !! fname))
  else bool_decide (is_Some (files d !! fname)).

(** *** Names of files *)

Lemma hex_no_slash b : x2f ∉ hex_encode b.
Proof.
  unfold hex_encode. intros (x & Hx & _)%list_elem_of_bind.
  assert (∀ n, (0 <= n < 16)%Z → hex_digit n ≠ x2f) as Hd.
  { intros n Hn E. unfold hex_digit in E. pose proof (f_equal byte_val E) as Ev. change (byte_val x2f) with 47%Z in Ev.
    destruct (n <? 10)%Z eqn:En; rewrite byte_val_of, Z.mod_small in Ev by lia; lia. }
  pose proof (byte_val_range x) as Hr.
  rewrite !elem_of_cons in Hx. destruct Hx as [Hx|[Hx|Hx%elem_of_nil]]; [..|done]; symmetry in Hx; revert Hx; apply Hd.
  - split; [apply Z.div_pos; lia|apply Z.div_lt_upper_bound; lia].
  - apply Z.mod_pos_bound. lia.
Qed.

(** The name of a file ends with the identifier and determines it. *)
Lemma absFilename_id c d : x2f ∉ Name factory (ServiceID c) →
  ∃ pre, ∀ id, x2f ∉ id → absFilename c id d = pre ++ id ++ str ".bin".
Proof.
  intros Hn. destruct (path_Join_file (contextDataPath d)) as [pre Hpre].
  set (h := hex_encode (match point_marshal (public c) with Ret b => b | _ => [] end)).
  exists (pre ++ h ++ str "_" ++ Name factory (ServiceID c) ++ str "_"). intros id Hid.
  unfold absFilename. fold h. rewrite Hpre; [by rewrite <-!app_assoc|..].
  - pose proof (hex_no_slash (match point_marshal (public c) with Ret b => b | _ => [] end)) as Hh. fold h in Hh.
    rewrite !elem_of_app. intros [?|[Hx|[?|[Hx|[?|Hx]]]]]; [done| |done| |done|];
      repeat (apply elem_of_cons in Hx as [Hx|Hx]; [done|]); by apply elem_of_nil in Hx.
  - intros E. apply app_eq_nil in E as [_ E]. done.
  - intros E. assert (x5f ∈ str ".") as Hx by (rewrite <-E; apply elem_of_app; right; by left).
    by apply list_elem_of_singleton in Hx.
  - intros E. assert (x5f ∈ str "..") as Hx by (rewrite <-E; apply elem_of_app; right; by left).
    repeat (apply elem_of_cons in Hx as [Hx|Hx]; [done|]). by apply elem_of_nil in Hx.
Qed.

Lemma absFilename_inj c d id id' : x2f ∉ Name factory (ServiceID c) → x2f ∉ id → x2f ∉ id' →
  absFilename c id d = absFilename c id' d → id = id'.
Proof.
  intros Hn Hi Hi' E. destruct (absFilename_id c d Hn) as [pre Hpre]. rewrite !Hpre in E by done.
  by apply app_inv_head, app_inv_tail in E.
Qed.

(** What a successful save does to the stored bytes. *)
Lemma save_stored fuel tr c id data buf d : Encoding.Marshal gens type_string fuel tr data = Ret buf →
  x2f ∉ Name factory (ServiceID c) → x2f ∉ id →
  (contextDataPath d = [] ∨ write_fails (absFilename c id d) = None ∧ read_fails (absFilename c id d) = None) →
  ∃ d', Save fuel tr c id data d = (Ret tt, d') ∧ stored c id d' = Ret buf ∧ DataAvailable c id d' = true ∧
    ∀ id', x2f ∉ id' → id' ≠ id → stored c id' d' = stored c id' d ∧ DataAvailable c id' d' = DataAvailable c id' d.
Proof.
  intros Hm Hn Hi Hok. unfold Save. rewrite Hm. unfold sbind, slift.
  assert (∀ id', x2f ∉ id' → id' ≠ id → absFilename c id d ≠ absFilename c id' d) as Hne.
  { intros id' Hi' Hd E. apply Hd. symmetry. by eapply absFilename_inj. }
  destruct (decide (contextDataPath d = [])) as [Hp|Hp].
  - eexists. split; [done|]. unfold stored, DataAvailable, absFilename. cbn [contextDataPath testContextData files].
    rewrite !decide_True by done. rewrite !lookup_insert_eq. split; [done|]. split; [done|].
    intros id' Hi' Hd. rewrite !decide_True by done. rewrite !lookup_insert_ne by (by apply Hne). done.
  - destruct Hok as [|[Hw Hr]]; [done|]. rewrite Hw. eexists. split; [done|].
    unfold stored, DataAvailable, absFilename in *. cbn [contextDataPath testContextData files].
    rewrite !decide_False by done. rewrite Hr, !lookup_insert_eq. split; [done|]. split; [done|].
    intros id' Hi' Hd. rewrite !decide_False by done. rewrite !lookup_insert_ne by (by apply Hne). done.
Qed.

(** What a service saves it loads.  A registered struct that is saved under an
    identifier (without slash, nor in the name of the service), to the map or to a
    file that can be written, is loaded as a pointer to its normal form, and data is
    available; every other identifier loads what it loaded before. *)
Theorem save_load {UL : UuidLaws U} tr t v c id d :
  Encoding.get tr (Encoding.type_id type_string t) = Some t → Encoding.type_id type_string t ≠ Encoding.ErrorType →
  kind t = Struct → t ≠ TTime → UnmarshalBinary (TPtr t) = None → wf gens true true t v →
  x2f ∉ Name factory (ServiceID c) → x2f ∉ id →
  (contextDataPath d = [] ∨ write_fails (absFilename c id d) = None ∧ read_fails (absFilename c id d) = None) →
  ∃ (b : bytes) f0, ∀ f, f0 ≤ f → (Z.of_nat (length b) < 2 ^ 64)%Z →
    ∃ d', Save f tr c id (Some (TPtr t, VPtr v)) d = (Ret tt, d') ∧ DataAvailable c id d' = true ∧
      (∀ constructors, yields (λ f, Load f tr constructors c id d') (Ret (TPtr t, VPtr (norm t v)))) ∧
      (∀ id', x2f ∉ id' → id' ≠ id → DataAvailable c id' d' = DataAvailable c id' d ∧
         ∀ f constructors, Load f tr constructors c id' d' = Load f tr constructors c id' d).
Proof.
  intros Hreg Hid Hk Ht Hu Hwf Hn Hi Hok.
  destruct (Encoding.marshal_unmarshal_registered gens type_string tr t v Hreg Hid Hk Ht Hu Hwf)
    as (b & [f0 Hm] & _ & Hun).
  exists b, f0. intros f Hf Hb.
  destruct (save_stored f tr c id (Some (TPtr t, VPtr v)) b d) as (d' & Hs & Hst & Hav & Hother); [by apply Hm|done..|].
  exists d'. split; [done|]. split; [done|]. split.
  - intros constructors. unfold Load. rewrite Hst. cbn [obind]. eapply yields_bind; [by apply Hun|]. apply yields_const.
  - intros id' Hi' Hne. destruct (Hother id' Hi' Hne) as [Hst' Hav']. split; [done|].
    intros f' constructors. unfold Load. by rewrite Hst'.
Qed.

(** The files of two services are not always different.  Where the name of one
    service is the name of another with an underscore and more, the data of the one
    under an identifier is the data of the other under a longer identifier. *)
Theorem files_shared c1 c2 n x id d :
  public c1 = public c2 → Name factory (ServiceID c2) = n → Name factory (ServiceID c1) = n ++ str "_" ++ x →
  absFilename c1 id d = absFilename c2 (x ++ str "_" ++ id) d ∧
  (∀ f tr nm, Load f tr nm c1 id d = Load f tr nm c2 (x ++ str "_" ++ id) d) ∧
  (∀ f tr data, Save f tr c1 id data d = Save f tr c2 (x ++ str "_" ++ id) data d).
Proof.
  intros Hp H2 H1.
  assert (absFilename c1 id d = absFilename c2 (x ++ str "_" ++ id) d) as E.
  { unfold absFilename. by rewrite Hp, H1, H2, <-!app_assoc. }
  split; [done|]. split.
  - intros f tr nm. unfold Load, stored. by rewrite E.
  - intros f tr data. unfold Save, sbind, slift. destruct (Encoding.Marshal _ _ _ _ _); [|done..]. by rewrite E.
Qed.
End contexts.
End Contexts.

(** ** Status reports *)
Module Statuses.
(** [Status]. *)
Abbreviation Status := (gmap bytes bytes).
Section statuses.
(** The values that report: [GetStatus] of each. *)
Context {StatusReporter : Type}.

(** The reporters by name. *)
Abbreviation statusReporterStruct := (gmap bytes StatusReporter).
Definition newStatusReporterStruct : statusReporterStruct := ∅.
Definition RegisterStatusReporter (n : bytes) (sr : StatusReporter) (s : statusReporterStruct) : statusReporterStruct :=
  <[n := sr]> s.
Definition ReportStatus (GetStatus : StatusReporter → Status) (s : statusReporterStruct) : gmap bytes Status :=
  GetStatus <$> s.

(** [Merge]: the fields of [s2] replace those of [s]. *)
Definition Merge (s s2 : Status) : Status := map_fold (λ k v s, <[k := v]> s) s s2.

Lemma Merge_union s s2 : Merge s s2 = s2 ∪ s.
Proof.
  unfold Merge. induction s2 as [|k v s2 Hk _ IH] using map_first_key_ind; [by rewrite map_fold_empty, (left_id_L ∅ (∪))|].
  rewrite map_fold_insert_L; [by rewrite IH, insert_union_l| |done].
  intros j1 j2 z1 z2 y Hne _ _. by apply insert_insert_ne.
Qed.
End statuses.
End Statuses.

(** ** Witnesses *)
Module ServiceExample.
Import Factory Manager Contexts ProtobufExample NetExample.

(** Identifiers that are never nil. *)
Definition uuid5 : UuidLib := {|
  NewV4 u := repeat x00 16;
  NewV5 ns s := x50 :: take 15 (reverse s ++ repeat x00 15);
  NamespaceURL_uuid := [x10];
  uuid_string u := u;
|}.
Lemma uuid5_not_nil n : service_id (U := uuid5) n ≠ NilServiceID.
Proof. done. Qed.

(** A service that is its identifier, and asks for the messages of type 7. *)
Definition mk : UUID → SM (Server (Svc := bytes) (Processor := nat) (R := unit)) Empty_set bytes :=
  λ i srv, (Ret i, registerProcessor 7 [x07] srv).
Definition ops : list (FOp (Constructor := UUID → SM (Server (Svc := bytes) (Processor := nat) (R := unit)) Empty_set bytes)) :=
  [FRegister (str "OCS") mk; FRegister (str "Test") mk; FRegister (str "OTSSMC") mk; FUnregister (str "Test")].

Lemma ops_map : abstracts ops = {[str "OCS" := mk; str "OTSSMC" := mk]}.
Proof. by_vm. Qed.
Lemma ops_names n fn : abstracts ops !! n = Some fn → fn = mk ∧ (n = str "OCS" ∨ n = str "OTSSMC").
Proof.
  rewrite ops_map. intros [[<- <-]|[_ [<- <-]%lookup_singleton_Some]]%lookup_insert_Some; auto.
Qed.

Lemma factory_refines_map_witness : Factory.ServiceID (runs (U := uuid5) ops) (str "OTSSMC") = service_id (U := uuid5) (str "OTSSMC").
Proof. apply (factory_refines_map (U := uuid5) uuid5_not_nil ops (str "OTSSMC")). Defined.

Definition fresh : Server (Svc := bytes) (Processor := nat) (R := unit) :=
  {| dispatcher := ∅; m_dispatcher := ∅; Manager.services := ∅; web := []; other := tt |}.

Lemma manager_starts_services_witness :
  ∃ srv', newServiceManager (runs (U := uuid5) ops) fresh = (Ret tt, srv') ∧ web srv' = [str "OCS"; str "OTSSMC"] ∧
    service (runs (U := uuid5) ops) (str "Test") srv' = None.
Proof.
  destruct (manager_starts_services (U := uuid5) uuid5_not_nil ops fresh) as (srv' & Hrun & Hweb & _ & Hnone).
  - intros n fn [-> _]%ops_names i srv. eexists _, _. split; [reflexivity|]. split; reflexivity.
  - intros n n' [fn [_ Hn]%ops_names] [fn' [_ Hn']%ops_names].
    destruct Hn as [-> | ->], Hn' as [-> | ->]; intros E; first [reflexivity | discriminate E].
  - split; reflexivity.
  - exists srv'. split; [exact Hrun|]. split; [exact Hweb|]. apply Hnone. rewrite ops_map. reflexivity.
Defined.

Definition entries : list (serviceEntry (Constructor := unit)) :=
  [{| constructor := tt; serviceID := [x01]; name := str "OCS" |}; {| constructor := tt; serviceID := [x02]; name := str "OCS_backup" |}].
Definition ctx (i : UUID) : Contexts.Context (S := ZSuite.Zsuite) := {| public := point_base; Contexts.ServiceID := i |}.
Definition disk (dir : bytes) : Disk := {| contextDataPath := dir; testContextData := ∅; files := ∅ |}.

Lemma save_load_witness :
  ∃ (b : bytes) f0, ∀ f, f0 ≤ f → (Z.of_nat (length b) < 2 ^ 64)%Z →
    ∃ d', Save (U := uuid16) ex_gens type_string entries (λ _, None) f registry (ctx [x01]) (str "storage")
            (Some (TPtr TMessage, VPtr message)) (disk (str "/var/conode")) = (Ret tt, d') ∧
      yields (λ f, Load ex_gens entries (λ _, None) f registry ∅ (ctx [x01]) (str "storage") d') (Ret (TPtr TMessage, VPtr message_back)).
Proof.
  destruct (save_load (U := uuid16) (UL := uuid16_laws) ex_gens type_string entries (λ _, None) (λ _, None) registry TMessage message
    (ctx [x01]) (str "storage") (disk (str "/var/conode"))) as (b & f0 & H).
  - apply lookup_insert_eq.
  - apply (bool_decide_unpack _). vm_compute. exact I.
  - by_vm.
  - done.
  - by_vm.
  - exact message_wf.
  - apply (bool_decide_unpack _). vm_compute. exact I.
  - apply (bool_decide_unpack _). vm_compute. exact I.
  - right. split; reflexivity.
  - exists b, f0. intros f Hf Hb. destruct (H f Hf Hb) as (d' & Hs & _ & Hl & _). exists d'. split; [exact Hs|exact (Hl ∅)].
Defined.

Lemma files_shared_witness :
  absFilename entries (ctx [x02]) (str "db") (disk []) = absFilename entries (ctx [x01]) (str "backup_db") (disk []).
Proof. apply (files_shared ∅ (λ _, []) entries (λ _, None) (λ _, None) (ctx [x02]) (ctx [x01]) (str "OCS") (str "backup")
  (str "db") (disk []) eq_refl); reflexivity. Defined.
End ServiceExample.
