(* ===== verification/Server.v ===== *)
(** * A server and its parts ([imported/onet/server.go], [context.go])

    [Durations] is the text of a [time.Duration]; [Servers] is a server with its
    dispatcher, services, protocols and status reporters, how [NewServer] puts
    them together, what its services do through their context, and the status it
    reports; [DataPath] is the choice of the directory for the services' data. *)
From stdpp Require Import sorting.
From S2P Require Import Prelude GoStrings Address Suite Tree NetEncoding Protocol Services.
Import Strings Numbers Path Sorting.
Local Open Scope Z_scope.

(** ** [time.Duration] *)
Module Durations.

(** [fmtFrac]: the fraction of [prec] digits without trailing zeros, before [acc],
    and the rest of the number. *)
Fixpoint fmtFrac (prec : nat) (v : Z) (print : bool) (acc : bytes) : bytes * Z :=
  match prec with
  | O => (if print then x2e :: acc else acc, v)
  | Datatypes.S prec =>
      let digit := v mod 10 in
      let print := print || negb (digit =? 0) in
      fmtFrac prec (v / 10) print (if print then byte_of (48 + digit) :: acc else acc)
  end.

(** [Duration.String] of nanoseconds. *)
Definition Duration_String (d : Z) : bytes :=
  let u := Z.abs d in
  let sign := if d <? 0 then str "-" else [] in
  if u =? 0 then str "0s"
  else if u <? 10 ^ 9 then
    let '(prec, unit) :=
      if u <? 10 ^ 3 then (0%nat, str "ns")
      else if u <? 10 ^ 6 then (3%nat, [xc2; xb5; x73])
      else (6%nat, str "ms") in
    let '(frac, v) := fmtFrac prec u false unit in
    sign ++ Itoa v ++ frac
  else
    let '(frac, v) := fmtFrac 9 u false (str "s") in
    let secs := Itoa (v mod 60) ++ frac in
    let m := v / 60 in
    if m =? 0 then sign ++ secs
    else
      let mins := Itoa (m mod 60) ++ str "m" ++ secs in
      let h := m / 60 in
      if h =? 0 then sign ++ mins else sign ++ Itoa h ++ str "h" ++ mins.

Example durations :
  Duration_String <$> [0; 15; 1500; 2000000; 1500000000; 60 * 10 ^ 9; 3723 * 10 ^ 9 + 40; - 10 ^ 9] =
  [str "0s"; str "15ns"; [x31; x2e; x35; xc2; xb5; x73]; str "2ms"; str "1.5s"; str "1m0s"; str "1h2m3.00000004s";
   str "-1s"].
Proof. by_vm. Qed.
End Durations.

(** ** The server *)
Module Servers.
Import Factory Manager Statuses Protocols.
Section servers.
Context {S : Suite} {U : UuidLib} {U3 : UuidV3Lib}.
Context {Svc Processor Env NewProtocol ServiceReporter : Type}.

(** A reporter of the status: the server itself, or one of a service. *)
Inductive Reporter := RServer | RService (r : ServiceReporter).

(** What services reach of the server besides its dispatcher. *)
Record Parts := {
  statusReporters : gmap bytes Reporter;
  protocols : list (bytes * NewProtocol);
}.
Abbreviation Managed := (Manager.Server (Svc := Svc) (Processor := Processor) (R := Parts)).
Abbreviation NewServiceFunc := (UUID → SM Managed Empty_set Svc).

Record Server := {
  serverIdentity : ServerIdentity;
  managed : Managed;
  started : Z;
}.

Definition set_parts (srv : Managed) (p : Parts) : Managed :=
  {| dispatcher := dispatcher srv; m_dispatcher := m_dispatcher srv; Manager.services := Manager.services srv;
     web := web srv; other := p |}.

(** [Server.ProtocolRegister]. *)
Definition ProtocolRegister (n : bytes) (protocol : NewProtocol) : SM Managed error UUID := λ srv,
  match Register (protocols (other srv)) n protocol with
  | Ret (id, ps) => (Ret id, set_parts srv {| statusReporters := statusReporters (other srv); protocols := ps |})
  | Err e => (Err e, srv)
  | Panic w => (Panic w, srv)
  | OutOfFuel => (OutOfFuel, srv)
  end.

(** [Context.RegisterStatusReporter]. *)
Definition register_reporter (n : bytes) (sr : Reporter) (srv : Managed) : Managed :=
  set_parts srv {| statusReporters := RegisterStatusReporter n sr (statusReporters (other srv));
                   protocols := protocols (other srv) |}.

(** [protocolInstantiate] up to the call of the constructor. *)
Definition protocolInstantiate (protoID : UUID) (srv : Server) : outcome error NewProtocol :=
  let ps := protocols (other (managed srv)) in
  match instantiator ps (ProtocolIDToName ps protoID) with
  | None => Err "No protocol constructor with this ID"
  | Some fn => Ret fn
  end.

(** The overlay as a processor, and the types of the message proxies. *)
Context (overlay : Processor) (proxy_types : list UUID).

(** The types [NewOverlay] registers the overlay for. *)
Definition overlay_types : list UUID :=
  [Messages.ProtocolMsgID; Messages.RequestTreeMsgID; Messages.SendTreeMsgID; Messages.RequestRosterMsgID;
   Messages.SendRosterMsgID; Messages.ConfigMsgID].
Definition register_overlay (d : gmap UUID (receiver (Processor := Processor))) : gmap UUID receiver :=
  Dispatch.RegisterProcessor (Dispatch.RegisterProcessor d (ToOther overlay) proxy_types) (ToOther overlay) overlay_types.

(** The table of the services, and the global protocols, in iteration order. *)
Context (factory : list (serviceEntry (Constructor := NewServiceFunc))) (globals : list (bytes * NewProtocol)).

(** The loop over the global protocols: the error is not looked at. *)
Definition register_globals (srv : Managed) : Managed :=
  foldl (λ srv np, (ProtocolRegister np.1 np.2 srv).2) srv globals.

(** The server before its services start. *)
Definition bare (d : gmap UUID receiver) : Managed :=
  {| dispatcher := register_overlay d; m_dispatcher := Dispatch.NewBlockingDispatcher; Manager.services := ∅; web := [];
     other := {| statusReporters := newStatusReporterStruct; protocols := [] |} |}.

(** [NewServer] with a router of dispatcher [d]. *)
Definition NewServer (si : ServerIdentity) (d : gmap UUID receiver) (now : Z) : outcome error Server :=
  match newServiceManager factory (bare d) with
  | (Ret _, srv) =>
      let srv := register_reporter (str "Status") RServer srv in
      Ret {| serverIdentity := si; managed := register_globals srv; started := now |}
  | (Err e, _) => Err e
  | (Panic w, _) => Panic w
  | (OutOfFuel, _) => OutOfFuel
  end.

(** [Server.Service]. *)
Definition Service (n : bytes) (srv : Server) : option Svc := service factory n (managed srv).

(** [Time.Sub] stays within the numbers of 64 bits. *)
Definition time_sub (t u : Z) : Z := Z.max (- 2 ^ 63) (Z.min (t - u) (2 ^ 63 - 1)).

(** [strings.ToLower] of a string that is not ASCII; [runtime.GOOS], [runtime.GOARCH] and [runtime.Version()]. *)
Context (lower_unicode : bytes → bytes) (GOOS GOARCH go_version : bytes).
Definition Version : bytes := str "1.2".

(** [Server.GetStatus] at the time [now], with the counters of the router. *)
Definition GetStatus (now tx rx : Z) (srv : Server) : outcome error Status :=
  let a := sort_strings (availableServices factory (managed srv)) in
  let address := Network.Address (serverIdentity srv) in
  let! host := Addresses.Host lower_unicode address in
  let! port := Addresses.Port lower_unicode address in
  let! conn := Addresses.ConnType lower_unicode address in
  Ret (list_to_map [
    (str "Available_Services", Join (str ",") a);
    (str "TX_bytes", Itoa tx);
    (str "RX_bytes", Itoa rx);
    (str "Uptime", Durations.Duration_String (time_sub now (started srv)));
    (str "System", Join (str "/") [GOOS; GOARCH; go_version]);
    (str "Version", Version);
    (str "Host", host);
    (str "Port", port);
    (str "Description", Network.Description (serverIdentity srv));
    (str "ConnType", conn)]).

(** [Context.ReportStatus]: the reports of the services are a parameter. *)
Definition server_reports (report : ServiceReporter → Status) (own : Status) (srv : Server) : gmap bytes Status :=
  ReportStatus (λ r, match r with RServer => own | RService r => report r end) (statusReporters (other (managed srv))).

(** *** Lemmas *)

Lemma instantiator_app ps1 ps2 n :
  instantiator (ps1 ++ ps2) n = match instantiator (NewProtocol := NewProtocol) ps1 n with Some p => Some p | None => instantiator ps2 n end.
Proof. induction ps1 as [|[n' p] ps1 IH]; [done|]. cbn. by case_decide. Qed.

Lemma register_globals_spec srv :
  let srv' := register_globals srv in
  Manager.services srv' = Manager.services srv ∧ statusReporters (other srv') = statusReporters (other srv) ∧
  ∀ n, instantiator (protocols (other srv')) n =
    match instantiator (protocols (other srv)) n with Some p => Some p | None => instantiator globals n end.
Proof.
  cbn zeta. unfold register_globals. revert srv. induction globals as [|[n p] l IH]; intros srv; cbn [foldl].
  - split; [done|]. split; [done|]. intros n. by destruct (instantiator _ n).
  - destruct (IH (ProtocolRegister n p srv).2) as (H1 & H2 & Hl).
    split; [etrans; [exact H1|]|split; [etrans; [exact H2|]|intros n'; etrans; [exact (Hl n')|]]];
      clear H1 H2 Hl; unfold ProtocolRegister, Register; cbn [fst snd];
      destruct (instantiator (protocols (other srv)) n) as [q|] eqn:En; cbn [snd set_parts other protocols instantiator]; try done.
    + destruct (decide (n = n')) as [<-|]; [by rewrite En|done].
    + rewrite instantiator_app. cbn [instantiator].
      destruct (instantiator (protocols (other srv)) n') as [q|]; [done|]. by case_decide.
Qed.

Lemma instantiator_in ps n p : instantiator (NewProtocol := NewProtocol) ps n = Some p → n ∈ ps.*1.
Proof.
  induction ps as [|[n' q] ps IH]; [done|]. cbn. case_decide as E; [subst; by left|]. intros H. right. by apply IH.
Qed.

Lemma ProtocolIDToName_found ps n :
  (∀ n1 n2, n1 ∈ ps.*1 → n2 ∈ ps.*1 → ProtocolNameToID n1 = ProtocolNameToID n2 → n1 = n2) →
  n ∈ ps.*1 → ProtocolIDToName (NewProtocol := NewProtocol) ps (ProtocolNameToID n) = n.
Proof.
  intros Hinj Hn.
  assert (∀ l, (∀ x, x ∈ l.*1 → x ∈ ps.*1) → n ∈ l.*1 → ProtocolIDToName (NewProtocol := NewProtocol) l (ProtocolNameToID n) = n)
    as H; [|by apply H].
  induction l as [|[n' q] l IH]; intros Hl Hin; [by apply elem_of_nil in Hin|]. cbn [ProtocolIDToName].
  unfold uuid_Equal. destruct (decide (ProtocolNameToID n = ProtocolNameToID n')) as [E|E].
  - rewrite bool_decide_true by done. symmetry. apply Hinj; [done| |done]. apply Hl. by left.
  - rewrite bool_decide_false by done. apply IH; [intros x Hx; apply Hl; by right|].
    cbn in Hin. apply elem_of_cons in Hin as [->|Hin]; [done|done].
Qed.

Lemma protocolInstantiate_found (srv : Server) n p :
  (∀ n1 n2, n1 ∈ (protocols (other (managed srv))).*1 → n2 ∈ (protocols (other (managed srv))).*1 →
     ProtocolNameToID n1 = ProtocolNameToID n2 → n1 = n2) →
  instantiator (protocols (other (managed srv))) n = Some p → protocolInstantiate (ProtocolNameToID n) srv = Ret p.
Proof.
  intros Hinj Hn. unfold protocolInstantiate.
  rewrite (ProtocolIDToName_found _ n Hinj (instantiator_in _ _ _ Hn)). by rewrite Hn.
Qed.
End servers.

(** A field of the status. *)
#[local] Ltac field_at :=
  cbn [list_to_map foldr uncurry fst snd]; rewrite ?lookup_insert_ne by done; apply lookup_insert_eq.

(** ** Putting a server together *)
Section assembled.
Context {S : Suite} {U : UuidLib} {U3 : UuidV3Lib}.
Context {Svc Processor NewProtocol ServiceReporter : Type} (overlay : Processor) (proxy_types : list UUID).
Abbreviation Managed := (Manager.Server (Svc := Svc) (Processor := Processor)
  (R := Parts (NewProtocol := NewProtocol) (ServiceReporter := ServiceReporter))).
Abbreviation NewServiceFunc := (UUID → SM Managed Empty_set Svc).
Context (globals : list (bytes * NewProtocol)) (Hnil : ∀ n, service_id n ≠ NilServiceID).
Context (lower_unicode : bytes → bytes) (GOOS GOARCH go_version : bytes).

Abbreviation Server := (Server (Svc := Svc) (Processor := Processor) (NewProtocol := NewProtocol)
  (ServiceReporter := ServiceReporter)).

(** The protocols of a server, with different identifiers. *)
Definition has_protocol (srv : Managed) (n : bytes) : option NewProtocol := instantiator (protocols (other srv)) n.
Definition distinct_protocols (srv : Server) : Prop :=
  ∀ n1 n2 : bytes, n1 ∈ (protocols (other (managed srv))).*1 → n2 ∈ (protocols (other (managed srv))).*1 →
    ProtocolNameToID n1 = ProtocolNameToID n2 → n1 = n2.

(** The constructors of the services leave the protocol [n] to others. *)
Definition not_by_services (ops : list (FOp (Constructor := NewServiceFunc))) (n : bytes) : Prop :=
  ∀ c, c ∈ runs ops → ∀ i srv, has_protocol srv n = None → has_protocol (constructor c i srv).2 n = None.

Abbreviation NewServer ops si d now := (NewServer overlay proxy_types (runs ops) globals si d now).
Abbreviation GetStatus ops := (GetStatus (runs ops) lower_unicode GOOS GOARCH go_version).

(** What [NewServer] makes of the server after its services have started. *)
Lemma new_server_runs (ops : list (FOp (Constructor := NewServiceFunc))) si d now :
  (∀ n fn, abstracts ops !! n = Some fn → constructs fn) → distinct_ids (abstracts ops) →
  ∃ srv1, Manager.started ops (bare overlay proxy_types d) srv1 ∧
    NewServer ops si d now =
      Ret {| serverIdentity := si; managed := register_globals globals (register_reporter (str "Status") RServer srv1);
             started := now |}.
Proof.
  intros Hcon Hinj.
  destruct (manager_started Hnil ops (bare overlay proxy_types d) Hcon Hinj) as [srv1 Hst]; [done|].
  exists srv1. split; [done|]. unfold Servers.NewServer. by rewrite (proj1 Hst).
Qed.

(** A protocol that the services leave alone is not registered when they have
    started. *)
Lemma left_to_others (ops : list (FOp (Constructor := NewServiceFunc))) d srv1 n :
  Manager.started ops (bare overlay proxy_types d) srv1 → not_by_services ops n → has_protocol srv1 n = None.
Proof.
  intros [Hrun _] Hnot.
  pose proof (newServiceManager_other (λ o, instantiator (protocols o) n = None) (runs ops)
    (bare overlay proxy_types d) Hnot eq_refl) as Hnone.
  exact (eq_ind _ (λ x, has_protocol x.2 n = None) Hnone _ Hrun).
Qed.

(** C24: [NewServer], when the constructors of the registered services return and
    identifiers of different names differ.  All services are started, before any
    global protocol is there, and found by their names.  When no service registers
    a protocol under the name of a global one, all global protocols are there, and
    besides exactly those of the services; each is found by its identifier.  The
    report ["Status"] is the server's own, also when a service has registered one of
    this name. *)
Theorem new_server_correct (ops : list (FOp (Constructor := NewServiceFunc))) si d now :
  (∀ n fn, abstracts ops !! n = Some fn → constructs fn) → distinct_ids (abstracts ops) →
  ∃ srv1 (srv : Server), Manager.started ops (bare overlay proxy_types d) srv1 ∧ NewServer ops si d now = Ret srv ∧
    (∀ n, Service (runs ops) n srv = service (runs ops) n srv1) ∧
    ((∀ n, is_Some (instantiator globals n) → not_by_services ops n) →
       ∀ n, has_protocol (managed srv) n =
         match instantiator globals n with Some p => Some p | None => has_protocol srv1 n end) ∧
    (distinct_protocols srv → ∀ n p,
       has_protocol (managed srv) n = Some p → protocolInstantiate (ProtocolNameToID n) srv = Ret p) ∧
    (∀ report own, server_reports report own srv !! str "Status" = Some own).
Proof.
  intros Hcon Hinj. destruct (new_server_runs ops si d now Hcon Hinj) as (srv1 & Hst & ->).
  exists srv1. set (srv2 := register_reporter (str "Status") RServer srv1).
  destruct (register_globals_spec globals srv2) as (Hsv & Hsr & Hps). eexists. split; [done|]. split; [reflexivity|].
  assert (∀ n, has_protocol (register_globals globals srv2) n =
    match has_protocol srv1 n with Some p => Some p | None => instantiator globals n end) as Hlk by exact Hps.
  split; [|split; [|split]].
  - intros n. unfold Service, service. cbn [managed]. by rewrite Hsv.
  - intros Hnot n. cbn [managed]. rewrite Hlk. destruct (instantiator globals n) as [p|] eqn:Hg.
    + rewrite (left_to_others ops d srv1 n Hst); [done|]. apply Hnot. by rewrite Hg.
    + by destruct (has_protocol srv1 n).
  - intros Hd n p Hp. by apply protocolInstantiate_found.
  - intros report own. unfold server_reports, ReportStatus. cbn [managed]. rewrite Hsr, lookup_fmap.
    unfold srv2. cbn [register_reporter set_parts other statusReporters]. unfold RegisterStatusReporter.
    by rewrite lookup_insert_eq.
Qed.

(** The status of a new server, when its address is a valid one: ten fields, with
    the names of the registered services, sorted; without commas in the names they
    are the parts of the field.  Host, port and type are those of the address, and
    the counters of the router can be read off the text. *)
Theorem get_status_correct (ops : list (FOp (Constructor := NewServiceFunc))) si d now srv t host p now' tx rx :
  (∀ n fn, abstracts ops !! n = Some fn → constructs fn) → distinct_ids (abstracts ops) →
  NewServer ops si d now = Ret srv →
  Network.Address si = Addresses.NewAddress t (Net.JoinHostPort host (Itoa p)) →
  t ∈ Addresses.known_types → Addresses.host_ok lower_unicode host → 0 <= p <= 65535 →
  0 <= tx < 2 ^ 63 → 0 <= rx < 2 ^ 63 →
  ∃ st, GetStatus ops now' tx rx srv = Ret st ∧ size st = 10%nat ∧
    (∃ l, st !! str "Available_Services" = Some (Join (str ",") l) ∧ l ≡ₚ RegisteredServiceNames (runs ops) ∧
       StronglySorted bytes_le l ∧ (l ≠ [] → Forall (λ n, x2c ∉ n) l → Split (Join (str ",") l) (str ",") = l)) ∧
    st !! str "Host" = Some (if decide (host = str "::") then str "[::]" else host) ∧
    st !! str "Port" = Some (Itoa p) ∧ st !! str "ConnType" = Some t ∧
    (∃ a b, st !! str "TX_bytes" = Some a ∧ Atoi a = Some tx ∧ st !! str "RX_bytes" = Some b ∧ Atoi b = Some rx) ∧
    st !! str "Uptime" = Some (Durations.Duration_String (time_sub now' now)).
Proof.
  intros Hcon Hinj Hsrv Ha Ht Hh Hp Htx Hrx. destruct (new_server_runs ops si d now Hcon Hinj) as (srv1 & Hst & Hrun).
  rewrite Hsrv in Hrun. injection Hrun as ->.
  set (srv2 := register_reporter (str "Status") RServer srv1).
  destruct (register_globals_spec globals srv2) as (Hsv & _ & _).
  destruct (Addresses.address_roundtrip (λ _, Err "no host") lower_unicode t host p Ht Hh Hp) as (_ & Hct & _ & Hho & Hpo & _).
  unfold Servers.GetStatus. cbn [serverIdentity managed]. rewrite Ha, Hho, Hpo, Hct. cbn [obind].
  eexists. split; [reflexivity|]. split; [|split; [|split; [|split; [|split; [|split]]]]].
  - cbn [list_to_map foldr uncurry fst snd]. rewrite !map_size_insert_None; [done|..];
      rewrite ?lookup_insert_ne by done; done.
  - eexists. split; [apply lookup_insert_eq|]. split; [|split; [apply sort_strings_sorted|]].
    + rewrite sort_strings_perm. rewrite <-(available_names Hnil ops _ _ Hinj Hst). unfold availableServices.
      by rewrite Hsv.
    + intros Hne Hcomma. by apply (Split_Join x2c).
  - field_at.
  - field_at.
  - field_at.
  - exists (Itoa tx), (Itoa rx). rewrite !Atoi_Itoa by done. split; [field_at|]. split; [done|]. split; [field_at|done].
  - field_at.
Qed.
End assembled.
End Servers.

(** ** The directory of the data ([context.go]) *)
Module DataPath.

(** [initContextDataPath]: the directory of the environment, else one in the home
    directory of the user, by the operating system; it is made.  An error there
    ends the process. *)
Definition initContextDataPath (env : bytes) (home : outcome error bytes) (goos : bytes)
    (MkdirAll : bytes → option error) : outcome error bytes :=
  let! p :=
    if decide (env ≠ []) then Ret env
    else
      match home with
      | Ret h =>
          if decide (goos = str "darwin") then Ret (path_Join [h; str "Library"; str "Conode"; str "Services"])
          else if decide (goos ∈ [str "freebsd"; str "linux"; str "netbsd"; str "openbsd"; str "plan9"; str "solaris"]) then
            Ret (path_Join [h; str ".local"; str "share"; str "conode"])
          else if decide (goos = str "windows") then Ret (path_Join [h; str "AppData"; str "Local"; str "Conode"])
          else Panic "Couldn't find OS"
      | _ => Panic "Couldn't get current user's environment"
      end in
  match MkdirAll p with
  | Some e => Panic e
  | None => Ret p
  end.

Example data_paths :
  initContextDataPath [] (Ret (str "/home/conode")) (str "linux") (λ _, None) = Ret (str "/home/conode/.local/share/conode") ∧
  initContextDataPath (str "/data") (Err "no user"%string) (str "linux") (λ _, None) = Ret (str "/data") ∧
  initContextDataPath [] (Ret (str "/home/conode")) (str "dragonfly") (λ _, None) = Panic "Couldn't find OS".
Proof. repeat split; by_vm. Qed.
End DataPath.

(** ** Witnesses *)
Module ServerExample.
Import Factory Manager Protocols Servers ServiceExample ProtocolExample.
Abbreviation Managed := (Manager.Server (Svc := bytes) (Processor := nat)
  (R := Parts (NewProtocol := nat) (ServiceReporter := nat))).

(** A service that registers a protocol, a report and a processor, and one that
    registers a report under the name of the server's. *)
Definition mk_ocs : UUID → SM Managed Empty_set bytes := λ i srv,
  (Ret i, registerProcessor 7%nat [x07] (register_reporter (str "OCS") (RService 5%nat)
            (ProtocolRegister (str "ocs") 1%nat srv).2)).
Definition mk_other : UUID → SM Managed Empty_set bytes := λ i srv,
  (Ret i, register_reporter (str "Status") (RService 6%nat) srv).
Definition ops : list (FOp (Constructor := UUID → SM Managed Empty_set bytes)) :=
  [FRegister (str "OTSSMC") mk_other; FRegister (str "OCS") mk_ocs].
Definition globals : list (bytes * nat) := [(str "dkg", 2%nat); (str "count", 3%nat)].
Definition si : Network.ServerIdentity (S := ZSuite.Zsuite) :=
  {| Network.Public := point_base; Network.ID := [x01]; Network.Address := str "tls://10.1.1.7:2000";
     Network.Description := str "first" |}.

Lemma register_keeps n p (srv : Managed) :
  Manager.services (ProtocolRegister n p srv).2 = Manager.services srv ∧ web (ProtocolRegister n p srv).2 = web srv.
Proof. unfold ProtocolRegister. by destruct (Register _ _ _) as [[]|e|w|]. Qed.

Lemma server_ops_map : abstracts ops = {[str "OCS" := mk_ocs; str "OTSSMC" := mk_other]}.
Proof. by_vm. Qed.
Lemma server_ops_names n fn : abstracts ops !! n = Some fn → constructs fn ∧ (n = str "OCS" ∨ n = str "OTSSMC").
Proof.
  rewrite server_ops_map. intros [[<- <-]|[_ [<- <-]%lookup_singleton_Some]]%lookup_insert_Some; (split; [|auto]);
    intros i srv; eexists _, _; (split; [reflexivity|]); split; first [reflexivity | apply register_keeps].
Qed.
Lemma server_ops_ids : distinct_ids (U := uuid5) (abstracts ops).
Proof.
  intros n n' [fn [_ Hn]%server_ops_names] [fn' [_ Hn']%server_ops_names].
  destruct Hn as [-> | ->], Hn' as [-> | ->]; intros E; first [reflexivity | discriminate E].
Qed.

Definition server : outcome error (Servers.Server (S := ZSuite.Zsuite) (Svc := bytes) (Processor := nat) (NewProtocol := nat)
    (ServiceReporter := nat)) :=
  NewServer (U := uuid5) 0%nat [] (runs (U := uuid5) ops) globals si ∅ 100.

(** The services of the example register one protocol, [ocs], which is no global
    one. *)
Lemma register_leaves n m p (srv : Managed) :
  n ≠ m → has_protocol (ProtocolRegister m p srv).2 n = has_protocol srv n.
Proof.
  intros Hn. unfold ProtocolRegister, Register.
  destruct (instantiator (protocols (other srv)) m); [done|]. cbn [snd].
  unfold has_protocol. cbn. rewrite instantiator_app.
  destruct (instantiator (protocols (other srv)) n); [done|]. unfold instantiator. cbn.
  by rewrite decide_False by auto.
Qed.

Lemma services_leave n : is_Some (instantiator globals n) → not_by_services (U := uuid5) ops n.
Proof.
  intros [p Hp]. assert (n ≠ str "ocs") as Hn by (intros ->; discriminate Hp).
  assert (Forall (λ c, ∀ i srv, has_protocol srv n = None → has_protocol (constructor c i srv).2 n = None)
    (runs (U := uuid5) ops)) as Hall.
  { repeat constructor; intros i srv Hnone; cbn; [exact Hnone|]. etrans; [by apply register_leaves|exact Hnone]. }
  intros c Hc. exact (proj1 (Forall_forall _ _) Hall c Hc).
Qed.

Lemma new_server_correct_witness :
  ∃ srv, server = Ret srv ∧ has_protocol (managed srv) (str "dkg") = Some 2%nat ∧
    has_protocol (managed srv) (str "ocs") = Some 1%nat ∧
    ∀ report own, server_reports report own srv !! str "Status" = Some own.
Proof.
  destruct (new_server_correct (U := uuid5) 0%nat [] globals uuid5_not_nil ops si ∅ 100) as (srv1 & srv & Hst & Hrun & _ & Hps & _ & Hrep);
    [intros n fn Hn; by apply (server_ops_names n fn)|exact server_ops_ids|].
  exists srv. split; [exact Hrun|]. specialize (Hps services_leave). split; [exact (Hps (str "dkg"))|]. split; [|exact Hrep].
  assert (∃ s, server = Ret s ∧ has_protocol (managed s) (str "ocs") = Some 1%nat) as (s & Hs & Hp).
  { eexists. split; [reflexivity|]. by_vm. }
  unfold server in Hs. rewrite Hrun in Hs. injection Hs as <-. exact Hp.
Defined.

(** A global protocol of the same name as a service's is left out. *)
Example global_left_out :
  (let! s := NewServer (U := uuid5) 0%nat [] (runs (U := uuid5) ops) [(str "ocs", 3%nat)] si ∅ 100 in
   Ret (has_protocol (managed (Svc := bytes) (Processor := nat) (NewProtocol := nat) (ServiceReporter := nat) s) (str "ocs"))) =
  Ret (Some 1%nat).
Proof. by_vm. Qed.

Lemma get_status_correct_witness :
  ∃ srv st, server = Ret srv ∧
    GetStatus (runs (U := uuid5) ops) id (str "linux") (str "amd64") (str "go1.8") (100 + 61 * 10 ^ 9) 12 34 srv = Ret st ∧
    st !! str "Port" = Some (str "2000") ∧ st !! str "Uptime" = Some (str "1m1s").
Proof.
  assert (∃ srv, server = Ret srv) as [srv Hsrv] by (eexists; reflexivity).
  destruct (get_status_correct (U := uuid5) 0%nat [] globals uuid5_not_nil id (str "linux") (str "amd64") (str "go1.8")
    ops si ∅ 100 srv (str "tls") (str "10.1.1.7") 2000 (100 + 61 * 10 ^ 9) 12 34) as (st & Hst & _ & _ & _ & Hport & _ & _ & Hup);
    [intros n fn Hn; by apply (server_ops_names n fn)|exact server_ops_ids|exact Hsrv|by_vm|by right; left|left; by_vm|lia..|].
  exists srv, st. split; [exact Hsrv|]. split; [exact Hst|]. split; [exact Hport|].
  rewrite Hup. done.
Defined.
End ServerExample.
