(* ===== verification/Monitor.v ===== *)
(** * Statistics of simulations ([imported/onet/simul/monitor])

    [Float64] is Go's [float64], executable as in the IEEE standard.  [Statistics]
    is [stats.go]: values with their streaming mean and deviation, the filter, the
    table of measurements and its text, the average of several runs with the
    locks it takes.  [Measures] is the counter of [measure.go], and [Monitors] is
    [monitor.go]: the connections that send measures, as programs over what they
    decode, and the loop that collects them, as a step relation. *)
From Stdlib Require Import Floats.SpecFloat.
From stdpp Require Import sorting.
From S2P Require Import Prelude GoStrings.
Import Strings Numbers.
Local Open Scope Z_scope.

(** ** [float64] *)
Module Float64.
Definition float64 : Type := spec_float.
Definition f0 : float64 := S754_zero false.
Definition fadd : float64 → float64 → float64 := SFadd 53 1024.
Definition fsub : float64 → float64 → float64 := SFsub 53 1024.
Definition fmul : float64 → float64 → float64 := SFmul 53 1024.
Definition fdiv : float64 → float64 → float64 := SFdiv 53 1024.
Definition fsqrt : float64 → float64 := SFsqrt 53 1024.
(** [float64(n)] of an integer. *)
Definition of_int (n : Z) : float64 := binary_normalize 53 1024 n 0 false.
(** [a < b]: false when one is not a number. *)
Definition flt : float64 → float64 → bool := SFltb.

Lemma flt_trans x y z : flt x y = true → flt y z = true → flt x z = true.
Proof.
  unfold flt, SFltb. destruct x as [sx|sx| |sx mx ex], y as [sy|sy| |sy my ey], z as [sz|sz| |sz mz ez]; cbn [SFcompare]; try done;
    try destruct sx; try destruct sy; try destruct sz; try done.
  all: change (Pos.compare_cont Eq) with Pos.compare;
    destruct (Z.compare_spec ex ey), (Z.compare_spec ey ez), (Z.compare_spec ex ez); try lia; try done; subst;
    destruct (Pos.compare_spec mx my), (Pos.compare_spec my mz), (Pos.compare_spec mx mz);
    cbn [CompOpp]; intros; try done; subst; lia.
Qed.

Lemma flt_irrefl x : flt x x = false.
Proof.
  unfold flt, SFltb. destruct x as [s|s| |s m e]; cbn [SFcompare]; try done; [by destruct s|].
  rewrite Z.compare_refl. change (Pos.compare_cont Eq m m) with (Pos.compare m m). rewrite Pos.compare_refl. by destruct s.
Qed.

Definition is_nan (x : float64) : bool := match x with S754_nan => true | _ => false end.
End Float64.

(** ** [stats.go] *)
Module Statistics.
Import Float64 Sorting.
Section statistics.
(** [strconv.ParseFloat], [fmt.Sprintf] with [%f], and
    [stats.PercentileNearestRank] of a third-party package. *)
Context (ParseFloat : bytes → option float64) (format_f : float64 → bytes)
  (PercentileNearestRank : list float64 → float64 → option float64).

(** *** Values *)
Record Value := {
  name : bytes;
  min : float64;
  max : float64;
  sum : float64;
  n : Z;
  oldM : float64;
  newM : float64;
  oldS : float64;
  newS : float64;
  dev : float64;
  store : list float64;
}.

Definition zeroValue : Value :=
  {| name := []; min := f0; max := f0; sum := f0; n := 0; oldM := f0; newM := f0; oldS := f0; newS := f0;
     dev := f0; store := [] |}.

Definition set_store (t : Value) (l : list float64) : Value :=
  {| name := name t; min := min t; max := max t; sum := sum t; n := n t; oldM := oldM t; newM := newM t;
     oldS := oldS t; newS := newS t; dev := dev t; store := l |}.

Definition NewValue (nm : bytes) : Value :=
  {| name := nm; min := f0; max := f0; sum := f0; n := 0; oldM := f0; newM := f0; oldS := f0; newS := f0;
     dev := f0; store := [] |}.

Definition Store (t : Value) (newTime : float64) : Value := set_store t (store t ++ [newTime]).

(** One round of the loop of [Collect]. *)
Definition collect_one (t : Value) (newTime : float64) : Value :=
  let n' := n t + 1 in
  let '(oldM', newM', oldS', newS') :=
    if n' =? 1 then (newTime, newTime, f0, newS t)
    else
      let m := fadd (oldM t) (fdiv (fsub newTime (oldM t)) (of_int n')) in
      let s := fadd (oldS t) (fmul (fsub newTime (oldM t)) (fsub newTime m)) in
      (m, m, s, s) in
  {| name := name t;
     min := if flt newTime (min t) || (n t =? 0) then newTime else min t;
     max := if flt (max t) newTime then newTime else max t;
     sum := fadd (sum t) newTime; n := n'; oldM := oldM'; newM := newM'; oldS := oldS'; newS := newS';
     dev := fsqrt (fdiv newS' (of_int (n' - 1))); store := store t |}.

Definition set_sum (t : Value) (x : float64) : Value :=
  {| name := name t; min := min t; max := max t; sum := x; n := n t; oldM := oldM t; newM := newM t;
     oldS := oldS t; newS := newS t; dev := dev t; store := store t |}.

Definition Value_Collect (t : Value) : Value := foldl collect_one (set_sum t f0) (store t).

(** [AverageValue]: values of another name give the zero value. *)
Definition AverageValue (st : list Value) : Value :=
  match st with
  | [] => zeroValue
  | s :: _ =>
      if forallb (λ v, bool_decide (name v = name s)) st then set_store (NewValue (name s)) (st ≫= store)
      else zeroValue
  end.

Definition underscored (nm : bytes) (s : string) : bytes := nm ++ str s.
Definition HeaderFields (t : Value) : list bytes :=
  underscored (name t) <$> ["_min"; "_max"; "_avg"; "_sum"; "_dev"]%string.
Definition Values (t : Value) : list bytes := format_f <$> [min t; max t; newM t; sum t; dev t].

(** [SingleValues]: the first entry when there is none at [i]. *)
Definition SingleValues (t : Value) (i : nat) : outcome error (list bytes) :=
  let! first := index (store t) 0 in
  let v := format_f (default first (store t !! i)) in
  Ret [v; v; v; v; str "NaN"].

(** *** The filter *)
Abbreviation DataFilter := (gmap bytes float64).

Definition is_word (b : byte) : bool := is_lower b || is_upper b || is_digit b || bool_decide (b = x5f).
Fixpoint word_prefix (s : bytes) : bytes :=
  match s with [] => [] | b :: s => if is_word b then b :: word_prefix s else [] end.

(** [regexp.FindString] of [filter_(\w+)]. *)
Fixpoint find_measure (s : bytes) : bytes :=
  match s with
  | [] => []
  | b :: t =>
      let w := word_prefix (drop 7 s) in
      if has_prefix (str "filter_") s && negb (bool_decide (w = [])) then str "filter_" ++ w else find_measure t
  end.

(** [NewDataFilter]; [config] in the order of the loop over the map. *)
Definition NewDataFilter (config : list (bytes * bytes)) : DataFilter :=
  foldl (λ df '(k, v),
    let measure := find_measure k in
    if decide (measure = []) then df
    else match ParseFloat v with
         | None => df
         | Some perc => <[concat (Split measure (str "filter_")) := perc]> df
         end) ∅ config.

(** The index of the last value above [top]. *)
Definition last_above (top : float64) (values : list float64) : option nat :=
  foldl (λ r '(i, v), if flt top v then Some i else r) None (imap pair values).

Definition Filter (df : DataFilter) (measure : bytes) (values : list float64) : list float64 :=
  match df !! measure with
  | None => values
  | Some p =>
      match PercentileNearestRank values p with
      | None => values
      | Some top => match last_above top values with None => values | Some i => take i values end
      end
  end.

Definition Value_Filter (df : DataFilter) (t : Value) : Value := set_store t (Filter df (name t) (store t)).

(** *** Statistics *)

(** [made] is false for [new(Stats)], whose maps are nil. *)
Record Stats := {
  made : bool;
  static : gmap bytes Z;
  staticKeys : list bytes;
  values : gmap bytes Value;
  keys : list bytes;
  filter : DataFilter;
}.

Definition newStats : Stats :=
  {| made := false; static := ∅; staticKeys := []; values := ∅; keys := []; filter := ∅ |}.

Definition set_values (s : Stats) (vs : gmap bytes Value) (ks : list bytes) : Stats :=
  {| made := made s; static := static s; staticKeys := staticKeys s; values := vs; keys := ks; filter := filter s |}.

(** [readRunConfig]: the defaults have to be there and numbers; the other
    numbers follow, sorted.  [order] is the order of the loops over the map. *)
Definition readRunConfig (rc : gmap bytes bytes) (order : list (bytes * bytes)) (defaults : list bytes)
    : outcome error Stats :=
  let! st := ofoldM (λ st d,
    match rc !! d with
    | None => Panic "log.Fatal: Could not find the default value"
    | Some v => match Atoi v with
                | None => Panic "log.Fatal: Could not parse to integer value"
                | Some i => Ret (<[d := i]> st)
                end
    end) ∅ defaults in
  let others := base.filter (λ kv : bytes * bytes, kv.1 ∉ defaults) order in
  let '(st, statics) := foldl (λ '(st, ks) '(k, v),
    match Atoi v with None => (st, ks) | Some i => (<[k := i]> st, ks ++ [k]) end) (st, []) others in
  Ret {| made := true; static := st; staticKeys := defaults ++ sort_strings statics; values := ∅; keys := [];
         filter := NewDataFilter order |}.

Definition NewStats := readRunConfig.

Definition Update (s : Stats) (m : bytes * float64) : outcome error Stats :=
  match values s !! m.1 with
  | Some v => Ret (set_values s (<[m.1 := Store v m.2]> (values s)) (keys s))
  | None =>
      if made s then
        Ret (set_values s (<[m.1 := Store (NewValue m.1) m.2]> (values s)) (sort_strings (keys s ++ [m.1])))
      else Panic "assignment to entry in nil map"
  end.

Definition Collect (s : Stats) : Stats :=
  set_values s ((λ v, Value_Collect (Value_Filter (filter s) v)) <$> values s) (keys s).

Definition value_of (s : Stats) (k : bytes) : outcome error Value := deref (values s !! k).

Definition line (fields : list bytes) : bytes := Join (str ",") fields ++ [x0a].

Definition static_keys (s : Stats) : list bytes := base.filter (λ k, is_Some (static s !! k)) (staticKeys s).
Definition static_values (s : Stats) : list bytes := Itoa <$> omap (λ k, static s !! k) (staticKeys s).

Definition header_fields (s : Stats) : outcome error (list bytes) :=
  let! vs := omapM (value_of s) (keys s) in Ret (static_keys s ++ (vs ≫= HeaderFields)).
Definition WriteHeader (s : Stats) : outcome error bytes := let! f := header_fields s in Ret (line f).

Definition value_fields (s : Stats) : outcome error (list bytes) :=
  let! vs := omapM (value_of s) (keys s) in Ret (static_values s ++ (vs ≫= Values)).
Definition WriteValues (s : Stats) : outcome error bytes * Stats :=
  let s := Collect s in ((let! f := value_fields s in Ret (line f)), s).

(** How many rows there are: all values with several entries have as many. *)
Definition entries (s : Stats) : outcome error nat :=
  ofoldM (λ n k, let! v := value_of s k in
    let newN := length (store v) in
    if decide (1 < newN)%nat then
      if decide (n = 1)%nat then Ret newN
      else if decide (n = newN) then Ret n else Err "Found inconsistencies in values"
    else Ret n) 1%nat (keys s).

Definition row (s : Stats) (entry : nat) : outcome error (list bytes) :=
  let! vs := omapM (λ k, let! v := value_of s k in SingleValues v entry) (keys s) in
  Ret (static_values s ++ concat vs).

Definition WriteIndividualStats (s : Stats) : outcome error bytes :=
  let! n := entries s in
  let! rows := omapM (row s) (seq 0 n) in
  Ret (concat (line <$> rows)).

(** *** [AverageStats]

    Each run comes with the state of its lock. *)
Abbreviation Shared := (bool * Stats)%type.

(** The loop over the runs for one key: a run without the key keeps its lock. *)
Fixpoint take_values (k : bytes) (runs : list Shared) : outcome error (list Value * list Shared) :=
  match runs with
  | [] => Ret ([], [])
  | (locked, s) :: runs =>
      if locked : bool then OutOfFuel
      else
        let! (vs, runs) := take_values k runs in
        match values s !! k with
        | None => Ret (vs, (true, s) :: runs)
        | Some v => Ret (v :: vs, (false, s) :: runs)
        end
  end.

Definition AverageStats (stats : list Shared) : outcome error (Stats * list Shared) :=
  match stats with
  | [] => Ret (newStats, [])
  | (locked, s0) :: _ =>
      if locked : bool then OutOfFuel
      else
        let! (vs, stats) := ofoldM (λ '(vs, stats) k,
          let! (st, stats) := take_values k stats in
          Ret (<[k := AverageValue st]> vs, stats)) (∅, stats) (keys s0) in
        Ret ({| made := true; static := static s0; staticKeys := staticKeys s0; values := vs; keys := keys s0;
                filter := filter s0 |}, stats)
  end.

(** *** Minimum and maximum *)
Definition bounded (t : Value) (seen : list float64) : Prop :=
  n t = Z.of_nat (length seen) ∧ (seen ≠ [] → min t ∈ seen) ∧ (max t = f0 ∨ max t ∈ seen) ∧
  ∀ x, x ∈ seen → flt x (min t) = false ∧ flt (max t) x = false.

Lemma collect_one_bounded t seen x : bounded t seen → bounded (collect_one t x) (seen ++ [x]).
Proof.
  intros (Hn & Hmin & Hmax & Hb). unfold collect_one. destruct (if n t + 1 =? 1 then _ else _) as [[[a b] c] d].
  unfold bounded. cbn [n min max]. rewrite length_app. cbn [length]. split; [lia|].
  destruct (Z.eqb_spec (n t) 0) as [Hz|Hz].
  { destruct seen; [|cbn in Hn; lia]. rewrite orb_true_r. split; [by left|]. split; [destruct (flt _ _); [right; by left|destruct Hmax as [|?%elem_of_nil]; [by left|done]]|].
    intros y ->%list_elem_of_singleton. rewrite flt_irrefl. destruct (flt (max t) x) eqn:E; [by rewrite flt_irrefl|done]. }
  assert (seen ≠ []) as Hne by (intros ->; cbn in Hn; lia). rewrite orb_false_r. split; [|split].
  - intros _. apply elem_of_app. destruct (flt x (min t)); [right; by left|left; auto].
  - destruct (flt (max t) x); [right; apply elem_of_app; right; by left|]. destruct Hmax; [by left|right; apply elem_of_app; by left].
  - intros y [Hy| ->%list_elem_of_singleton]%elem_of_app.
    + destruct (Hb y Hy) as [H1 H2]. split; [destruct (flt x (min t)) eqn:E|destruct (flt (max t) x) eqn:E]; try done.
      * destruct (flt y x) eqn:E'; [|done]. by rewrite (flt_trans _ _ _ E' E) in H1.
      * destruct (flt x y) eqn:E'; [|done]. by rewrite (flt_trans _ _ _ E E') in H2.
    + split; [destruct (flt x (min t)) eqn:E|destruct (flt (max t) x) eqn:E]; by rewrite ?flt_irrefl.
Qed.

Lemma collect_bounded l : ∀ t seen, bounded t seen → bounded (foldl collect_one t l) (seen ++ l).
Proof.
  induction l as [|x l IH]; intros t seen H; cbn; [by rewrite app_nil_r|].
  change (x :: l) with ([x] ++ l). rewrite app_assoc. by apply IH, collect_one_bounded.
Qed.

Lemma collect_fixed l : ∀ t, name (foldl collect_one t l) = name t ∧ store (foldl collect_one t l) = store t ∧
  n (foldl collect_one t l) = n t + Z.of_nat (length l).
Proof.
  induction l as [|x l IH]; intros t; [cbn; split_and!; done || lia|]. cbn [foldl length].
  destruct (IH (collect_one t x)) as (-> & -> & ->). unfold collect_one.
  destruct (if n t + 1 =? 1 then _ else _) as [[[a b] c] d]. cbn. split_and!; done || lia.
Qed.

(** [Collect] of values that were not collected before: the number, one of the
    values as minimum below which there is none, and a maximum above which there
    is none, which is one of the values or, when none is above it, zero. *)
Theorem collect_extremes nm l :
  let t := Value_Collect (set_store (NewValue nm) l) in
  n t = Z.of_nat (length l) ∧ (l ≠ [] → min t ∈ l) ∧ (max t = f0 ∨ max t ∈ l) ∧
  (∀ x, x ∈ l → flt x (min t) = false ∧ flt (max t) x = false) ∧
  n (Value_Collect t) = 2 * Z.of_nat (length l).
Proof.
  cbv zeta. destruct (collect_bounded l (set_sum (set_store (NewValue nm) l) f0) []) as (H1 & H2 & H3 & H4).
  { split; [done|]. split; [done|]. split; [by left|]. by intros x ?%elem_of_nil. }
  split; [exact H1|]. split; [exact H2|]. split; [exact H3|]. split; [exact H4|].
  unfold Value_Collect at 1. destruct (collect_fixed (store (Value_Collect (set_store (NewValue nm) l)))
    (set_sum (Value_Collect (set_store (NewValue nm) l)) f0)) as (_ & _ & ->).
  unfold Value_Collect. destruct (collect_fixed l (set_sum (set_store (NewValue nm) l) f0)) as (_ & Hs & Hn).
  cbn [set_sum store set_store n] in *. rewrite Hs, Hn. cbn. lia.
Qed.

(** *** The filter *)
Lemma last_above_app top l x : last_above top (l ++ [x]) = if flt top x then Some (length l) else last_above top l.
Proof. unfold last_above. rewrite imap_app, foldl_app. cbn. by rewrite Nat.add_0_r. Qed.

Lemma last_above_spec top l :
  match last_above top l with
  | None => ∀ x, x ∈ l → flt top x = false
  | Some i => ∃ y, l !! i = Some y ∧ flt top y = true ∧ ∀ x, x ∈ drop (S i) l → flt top x = false
  end.
Proof.
  induction l as [|x l IH] using rev_ind; [by intros x ?%elem_of_nil|]. rewrite last_above_app.
  destruct (flt top x) eqn:E.
  - exists x. rewrite list_lookup_middle by done. split; [done|]. split; [done|].
    rewrite drop_ge by (rewrite length_app; cbn; lia). by intros y ?%elem_of_nil.
  - destruct (last_above top l) as [i|].
    + destruct IH as (y & Hy & Ha & Hb). exists y. pose proof (lookup_lt_Some _ _ _ Hy).
      rewrite lookup_app_l, drop_app_le by lia. split; [done|]. split; [done|].
      intros z [Hz| ->%list_elem_of_singleton]%elem_of_app; auto.
    + intros z [Hz| ->%list_elem_of_singleton]%elem_of_app; auto.
Qed.

(** [Filter] does not take out the values above the percentile: it cuts the list
    before the last of them, so earlier ones stay and what came later is lost. *)
Theorem filter_cuts df measure l p top :
  df !! measure = Some p → PercentileNearestRank l p = Some top →
  (Filter df measure l = l ∧ ∀ x, x ∈ l → flt top x = false) ∨
  (∃ k y r, l = k ++ y :: r ∧ Filter df measure l = k ∧ flt top y = true ∧ ∀ x, x ∈ r → flt top x = false).
Proof.
  intros Hp Ht. unfold Filter. rewrite Hp, Ht. pose proof (last_above_spec top l) as H.
  destruct (last_above top l) as [i|]; [|by left]. right. destruct H as (y & Hy & Ha & Hb).
  exists (take i l), y, (drop (S i) l). split; [by rewrite take_drop_middle|]. done.
Qed.

(** *** The table *)
Record stats_ok (s : Stats) : Prop := {
  ok_made : made s = true;
  ok_sorted : StronglySorted bytes_le (keys s);
  ok_nodup : NoDup (keys s);
  ok_keys k : k ∈ keys s ↔ is_Some (values s !! k);
  ok_names k v : values s !! k = Some v → name v = k;
}.

(** What was measured under a name. *)
Definition measured (ms : list (bytes * float64)) (k : bytes) : list float64 :=
  snd <$> base.filter (λ m : bytes * float64, m.1 = k) ms.

Lemma measured_snoc ms m k : measured (ms ++ [m]) k = measured ms k ++ (if decide (m.1 = k) then [m.2] else []).
Proof. unfold measured. rewrite filter_app, fmap_app, filter_cons. f_equal. by case_decide. Qed.

Definition fresh (s : Stats) : Prop := made s = true ∧ values s = ∅ ∧ keys s = [].

Definition collected (s s' : Stats) (ms : list (bytes * float64)) : Prop :=
  stats_ok s' ∧ static s' = static s ∧ staticKeys s' = staticKeys s ∧ filter s' = filter s ∧
  ∀ k, values s' !! k = if decide (measured ms k = []) then None else Some (set_store (NewValue k) (measured ms k)).

Lemma Update_ok s s1 ms m : collected s s1 ms → ∃ s2, Update s1 m = Ret s2 ∧ collected s s2 (ms ++ [m]).
Proof.
  intros (Hok & Hst & Hsk & Hf & Hv). destruct m as [k x]. unfold Update. cbn [fst snd].
  assert (∀ k', measured (ms ++ [(k, x)]) k' = measured ms k' ++ (if decide (k = k') then [x] else [])) as Hm by (intros; apply measured_snoc).
  pose proof (Hv k) as Hk. destruct (values s1 !! k) as [v|] eqn:Ek.
  - eexists. split; [done|]. split; [split|]; cbn [set_values made keys values static staticKeys filter].
    + apply Hok. + apply Hok. + apply Hok.
    + intros k'. rewrite (ok_keys _ Hok). destruct (decide (k = k')) as [<-|Hne]; [rewrite lookup_insert_eq, Ek|by rewrite lookup_insert_ne].
      split; eauto.
    + intros k' v'. destruct (decide (k = k')) as [<-|Hne]; [rewrite lookup_insert_eq; intros [= <-]; cbn; by apply (ok_names _ Hok)|].
      rewrite lookup_insert_ne by done. apply (ok_names _ Hok).
    + do 3 (split; [done|]). intros k'. rewrite Hm. destruct (decide (k = k')) as [<-|Hne].
      * rewrite lookup_insert_eq, decide_False by (by intros [_ ?]%app_nil). case_decide; [done|]. by simplify_eq.
      * by rewrite lookup_insert_ne, app_nil_r by done.
  - rewrite (ok_made _ Hok). assert (k ∉ keys s1) as Hnk by (rewrite (ok_keys _ Hok), Ek; by intros []).
    eexists. split; [done|]. split; [split|]; cbn [set_values made keys values static staticKeys filter].
    + apply Hok. + apply sort_strings_sorted.
    + rewrite sort_strings_perm. apply NoDup_app. split; [apply Hok|]. split; [|apply NoDup_singleton].
      by intros k' Hk' ->%list_elem_of_singleton.
    + intros k'. rewrite sort_strings_perm, elem_of_app, list_elem_of_singleton, (ok_keys _ Hok).
      destruct (decide (k = k')) as [<-|Hne]; [rewrite lookup_insert_eq; split; [by eexists|by right]|].
      rewrite lookup_insert_ne by done. split; [by intros [|]|by left].
    + intros k' v'. destruct (decide (k = k')) as [<-|Hne]; [rewrite lookup_insert_eq; by intros [= <-]|].
      rewrite lookup_insert_ne by done. apply (ok_names _ Hok).
    + do 3 (split; [done|]). intros k'. rewrite Hm. destruct (decide (k = k')) as [<-|Hne].
      * rewrite lookup_insert_eq, decide_False by (by intros [_ ?]%app_nil). case_decide as Hd; [by rewrite Hd|done].
      * by rewrite lookup_insert_ne, app_nil_r by done.
Qed.

Lemma updates_ok s ms : fresh s → ∃ s', ofoldM Update s ms = Ret s' ∧ collected s s' ms.
Proof.
  intros (Hmade & Hv & Hk). induction ms as [|m ms IH] using rev_ind.
  - exists s. split; [done|]. split; [|by rewrite Hv].
    split; rewrite ?Hk, ?Hv; [done|constructor|constructor| |done]. intros k. rewrite lookup_empty. split; [by intros ?%elem_of_nil|by intros []].
  - destruct IH as (s1 & Hrun & Hc). destruct (Update_ok s s1 ms m Hc) as (s2 & Hu & Hc2).
    exists s2. by rewrite ofoldM_app, Hrun; cbn; rewrite Hu.
Qed.

Lemma omapM_values s : stats_ok s →
  ∃ vs, omapM (value_of s) (keys s) = Ret vs ∧ Forall2 (λ k v, values s !! k = Some v) (keys s) vs.
Proof.
  intros Hok. assert (∀ k, k ∈ keys s → is_Some (values s !! k)) as Hin by (intros k; apply (ok_keys _ Hok)). revert Hin.
  induction (keys s) as [|k ks IH]; intros Hin; [by exists []; split|].
  destruct (Hin k ltac:(by left)) as [v Hv], IH as (vs & Hvs & Hf); [intros k' Hk'; apply Hin; by right|].
  exists (v :: vs). cbn. unfold value_of at 1. rewrite Hv. cbn. rewrite Hvs. split; [done|by constructor].
Qed.

Lemma Collect_ok s : stats_ok s → stats_ok (Collect s).
Proof.
  intros Hok. split; [apply Hok..| |]; cbn [Collect set_values keys values].
  - intros k. rewrite lookup_fmap, fmap_is_Some. apply (ok_keys _ Hok).
  - intros k v. rewrite lookup_fmap. intros (v0 & Hv & ->)%fmap_Some. unfold Value_Collect.
    destruct (collect_fixed (store (Value_Filter (filter s) v0)) (set_sum (Value_Filter (filter s) v0) f0)) as (-> & _).
    exact (ok_names _ Hok _ _ Hv).
Qed.

Lemma static_columns s : length (static_values s) = length (static_keys s).
Proof.
  unfold static_values, static_keys. rewrite length_fmap. induction (staticKeys s) as [|k ks IH]; [done|].
  rewrite filter_cons. cbn [omap list_omap]. destruct (static s !! k) as [z|] eqn:E; case_decide as Hd.
  - cbn. by rewrite IH.
  - by destruct Hd.
  - by destruct Hd.
  - done.
Qed.

Lemma measured_nil ms k : measured ms k = [] ↔ k ∉ ms.*1.
Proof.
  unfold measured. split.
  - intros E%fmap_nil_inv (m & -> & Hm)%list_elem_of_fmap. assert (m ∈ base.filter (λ m' : bytes * float64, m'.1 = m.1) ms) as Hin by (by apply list_elem_of_filter).
    rewrite E in Hin. by apply elem_of_nil in Hin.
  - intros Hk. destruct (base.filter _ ms) as [|m l] eqn:E; [done|]. destruct Hk.
    assert (m ∈ base.filter (λ m : bytes * float64, m.1 = k) ms) as [<- Hin]%list_elem_of_filter by (rewrite E; by left).
    by apply list_elem_of_fmap_2.
Qed.

Lemma collected_keys s s' ms : collected s s' ms → keys s' = sort_strings (remove_dups ms.*1).
Proof.
  intros (Hok & _ & _ & _ & Hv). apply (StronglySorted_unique bytes_le); [apply Hok|apply sort_strings_sorted|].
  rewrite sort_strings_perm. apply NoDup_Permutation; [apply Hok|apply NoDup_remove_dups|].
  intros k. rewrite elem_of_remove_dups, (ok_keys _ Hok), Hv. case_decide as Hd.
  - apply measured_nil in Hd. split; [by intros []|done].
  - rewrite measured_nil in Hd. split; [intros _; by apply dec_stable|by eexists].
Qed.

Lemma bind_Forall2 {A B C} (f : A → list C) (g : B → list C) ks vs :
  Forall2 (λ k v, f v = g k) ks vs → vs ≫= f = ks ≫= g.
Proof. induction 1 as [|k v ks vs H _ IH]; [done|]. cbn [mbind list_bind]. by rewrite H, IH. Qed.

(** The table of the statistics of any run: the header names the static fields
    and five columns for each measurement, sorted by name, and the values follow
    in the same columns, each measurement computed from what was measured under
    its name; measurements of different names may come in any order. *)
Theorem stats_table s ms : fresh s →
  ∃ s' hs vs, ofoldM Update s ms = Ret s' ∧ header_fields s' = Ret hs ∧ value_fields (Collect s') = Ret vs ∧
    keys s' = sort_strings (remove_dups ms.*1) ∧
    hs = static_keys s ++ (keys s' ≫= λ k, HeaderFields (NewValue k)) ∧
    vs = static_values s ++ (keys s' ≫= λ k,
           Values (Value_Collect (Value_Filter (filter s) (set_store (NewValue k) (measured ms k))))) ∧
    length vs = length hs.
Proof.
  intros Hfresh. destruct (updates_ok s ms Hfresh) as (s' & Hrun & Hok & Hst & Hsk & Hf & Hv). exists s'.
  destruct (omapM_values s' Hok) as (ws & Hws & Hfw), (omapM_values (Collect s') (Collect_ok _ Hok)) as (cs & Hcs & Hfc).
  change (keys (Collect s')) with (keys s') in *. eexists _, _. split; [done|].
  unfold header_fields, value_fields. change (keys (Collect s')) with (keys s'). rewrite Hws, Hcs. cbn [obind].
  split; [done|]. split; [done|].
  assert (∀ k v, values s' !! k = Some v → v = set_store (NewValue k) (measured ms k)) as Hval.
  { intros k v. rewrite Hv. case_decide; [done|]. by intros [= <-]. }
  split; [by eapply collected_keys|].
  assert ((ws ≫= HeaderFields) = (keys s' ≫= λ k, HeaderFields (NewValue k))) as ->.
  { apply bind_Forall2. eapply Forall2_impl; [exact Hfw|]. intros k v Hkv. unfold HeaderFields. by rewrite (ok_names _ Hok _ _ Hkv). }
  assert ((cs ≫= Values) = (keys s' ≫= λ k,
           Values (Value_Collect (Value_Filter (filter s) (set_store (NewValue k) (measured ms k)))))) as ->.
  { apply bind_Forall2. eapply Forall2_impl; [exact Hfc|]. intros k v Hkv. f_equal.
    cbn [Collect set_values values] in Hkv. rewrite lookup_fmap in Hkv. apply fmap_Some in Hkv as (v0 & Hv0 & ->).
    by rewrite (Hval _ _ Hv0), Hf. }
  unfold static_keys, static_values. cbn [Collect set_values static staticKeys]. rewrite Hst, Hsk. split; [done|]. split; [done|].
  rewrite !length_app. f_equal; [apply static_columns|]. clear. induction (keys s') as [|k ks IH]; [done|].
  cbn [mbind list_bind]. rewrite !length_app, IH. done.
Qed.

(** *** The rows of the individual measurements *)
Definition entry_loop (s : Stats) (n : nat) (ks : list bytes) : outcome error nat :=
  ofoldM (λ n k, let! v := value_of s k in
    let newN := length (store v) in
    if decide (1 < newN)%nat then
      if decide (n = 1)%nat then Ret newN
      else if decide (n = newN) then Ret n else Err "Found inconsistencies in values"
    else Ret n) n ks.

Lemma entry_loop_spec s N : (1 < N)%nat → ∀ ks n, (n = 1 ∨ n = N)%nat →
  (∀ k, k ∈ ks → ∃ v, values s !! k = Some v ∧ (length (store v) <= 1 ∨ length (store v) = N)%nat) →
  ∃ n', entry_loop s n ks = Ret n' ∧ (n' = 1 ∨ n' = N)%nat ∧ (n <= n')%nat ∧
        ∀ k v, k ∈ ks → values s !! k = Some v → (length (store v) <= 1 ∨ length (store v) = n')%nat.
Proof.
  intros HN. induction ks as [|k ks IH]; intros n Hn Hks.
  { exists n. split_and!; [done|done|done|by intros k v ?%elem_of_nil]. }
  destruct (Hks k ltac:(by left)) as (v & Hv & Hl). unfold entry_loop. cbn [ofoldM]. unfold value_of at 1. rewrite Hv. cbn [deref obind].
  set (n1 := if decide (1 < length (store v))%nat then N else n).
  assert ((if decide (1 < length (store v))%nat then
      if decide (n = 1)%nat then Ret (length (store v))
      else if decide (n = length (store v)) then Ret n else Err "Found inconsistencies in values"
    else Ret n) = (Ret n1 : outcome error nat)) as ->.
  { unfold n1. repeat case_decide; try done; f_equal; lia. }
  assert ((1 < length (store v) → n1 = N) ∧ n <= n1 ∧ (n1 = 1 ∨ n1 = N))%nat as (Hn1 & Hn2 & Hn3) by (unfold n1; case_decide; lia).
  clearbody n1. cbn [obind]. destruct (IH n1) as (n' & Hrun & Hn' & Hle & Hall); [done|intros k' Hk'; apply Hks; by right|].
  exists n'. split; [exact Hrun|]. split; [done|]. split; [lia|].
  intros k' v' [->|Hk']%elem_of_cons Hv'; [|by eapply Hall]. simplify_eq.
  destruct (decide (1 < length (store v))%nat) as [Hlt|Hge]; [|lia]. right. rewrite Hn1 in * by done. lia.
Qed.

Lemma row_spec s entry : stats_ok s → (∀ k v, values s !! k = Some v → store v ≠ []) →
  ∃ r, row s entry = Ret r ∧ length r = (length (static_keys s) + 5 * length (keys s))%nat.
Proof.
  intros Hok Hne. assert (∀ k, k ∈ keys s → is_Some (values s !! k)) as Hin by (intros k; apply (ok_keys _ Hok)).
  assert (∀ ks, (∀ k, k ∈ ks → is_Some (values s !! k)) →
    ∃ vs, omapM (λ k, let! v := value_of s k in SingleValues v entry) ks = Ret vs ∧ length (concat vs) = (5 * length ks)%nat) as H.
  { induction ks as [|k ks IH]; intros Hks; [by exists []|]. destruct (Hks k ltac:(by left)) as [v Hv].
    destruct IH as (vs & Hvs & Hl); [intros k' Hk'; apply Hks; by right|]. pose proof (Hne k v Hv) as Hst.
    destruct (store v) as [|x l] eqn:El; [done|]. eexists (_ :: vs). cbn [omapM]. unfold value_of at 1. rewrite Hv. cbn [deref obind].
    unfold SingleValues at 1. rewrite El, index_0. cbn [obind]. rewrite Hvs. split; [done|].
    cbn [concat length]. rewrite length_app, Hl. cbn. lia. }
  destruct (H (keys s) Hin) as (vs & Hvs & Hl). eexists. unfold row. rewrite Hvs. split; [done|].
  by rewrite length_app, static_columns, Hl.
Qed.

(** [WriteIndividualStats] of measurements that were each made once or [N] times
    writes one row per entry, each with as many columns as the header; a
    measurement that is there only once is repeated in all rows. *)
Theorem individual_rows s N : stats_ok s → (1 < N)%nat →
  (∀ k v, values s !! k = Some v → length (store v) = 1 ∨ length (store v) = N)%nat →
  ∃ n rows, WriteIndividualStats s = Ret (concat (line <$> rows)) ∧ length rows = n ∧
    Forall (λ r, length r = (length (static_keys s) + 5 * length (keys s))%nat) rows ∧
    (∀ k v, values s !! k = Some v → length (store v) = 1 ∨ length (store v) = n)%nat.
Proof.
  intros Hok HN Hl. destruct (entry_loop_spec s N HN (keys s) 1) as (n & Hrun & _ & Hn1 & Hall); [by left| |].
  { intros k Hk. apply (ok_keys _ Hok) in Hk as [v Hv]. exists v. split; [done|]. destruct (Hl k v Hv); lia. }
  assert (∀ k v, values s !! k = Some v → store v ≠ []) as Hne.
  { intros k v Hv E. destruct (Hl k v Hv) as [H|H]; rewrite E in H; cbn in H; lia. }
  assert (∀ i, ∃ rows, omapM (row s) (seq i n) = Ret rows ∧ length rows = n ∧
    Forall (λ r, length r = (length (static_keys s) + 5 * length (keys s))%nat) rows) as Hrows.
  { clear Hrun Hn1 Hall. induction n as [|n IH]; intros i; [exists []; split_and!; [done|done|constructor]|].
    destruct (row_spec s i Hok Hne) as (r & Hr & Hlr), (IH (S i)) as (rows & Hrows & Hlen & Hf).
    exists (r :: rows). cbn [seq omapM]. rewrite Hr. cbn [obind]. rewrite Hrows.
    split; [done|]. split; [cbn; by rewrite Hlen|by constructor]. }
  destruct (Hrows 0%nat) as (rows & Hrows0 & Hlen & Hf).
  exists n, rows. split; [|split; [done|]; split; [done|]].
  - unfold WriteIndividualStats. change (entries s) with (entry_loop s 1 (keys s)). rewrite Hrun. cbn [obind]. by rewrite Hrows0.
  - intros k v Hv. destruct (Hall k v) as [H|H]; [apply (ok_keys _ Hok); by eexists|done| |by right].
    destruct (Hl k v Hv); lia.
Qed.

(** *** Averages *)

(** The average of runs without a lock taken. *)
Lemma take_values_all k runs : (∀ b s, (b, s) ∈ runs → b = false ∧ is_Some (values s !! k)) →
  ∃ vs, take_values k runs = Ret (vs, runs) ∧ Forall2 (λ r v, values r.2 !! k = Some v) runs vs.
Proof.
  induction runs as [|[b s] runs IH]; intros H; [by exists []; split|].
  destruct (H b s ltac:(by left)) as [-> [v Hv]], IH as (vs & Hvs & Hf); [intros b' s' Hin; apply (H b' s'); by right|].
  exists (v :: vs). cbn. rewrite Hvs. cbn. rewrite Hv. split; [done|by constructor].
Qed.

(** A run whose lock is taken blocks the loop. *)
Lemma take_values_blocked k runs s : (true, s) ∈ runs → take_values k runs = OutOfFuel.
Proof.
  induction runs as [|[b s'] runs IH]; [by intros ?%elem_of_nil|]. intros [[= <- <-]|Hin]%elem_of_cons; [done|].
  cbn. destruct b; [done|]. by rewrite IH.
Qed.

(** The loop keeps the lock of every run that lacks the key. *)
Lemma take_values_kept k runs vs runs' s : take_values k runs = Ret (vs, runs') →
  (false, s) ∈ runs → values s !! k = None → (true, s) ∈ runs'.
Proof.
  revert vs runs'. induction runs as [|[b s'] runs IH]; intros vs runs' H Hin Hk; [by apply elem_of_nil in Hin|].
  cbn in H. destruct b; [done|]. apply obind_ret_inv in H as ([vs1 runs1] & Hrec & H).
  apply elem_of_cons in Hin as [[= <-]|Hin].
  - rewrite Hk in H. injection H as _ <-. by left.
  - destruct (values s' !! k); injection H as _ <-; right; by eapply IH.
Qed.

Lemma take_values_runs k runs vs runs' b s : take_values k runs = Ret (vs, runs') → (b, s) ∈ runs → ∃ b', (b', s) ∈ runs'.
Proof.
  revert vs runs'. induction runs as [|[b' s'] runs IH]; intros vs runs' H Hin; [by apply elem_of_nil in Hin|].
  cbn in H. destruct b'; [done|]. apply obind_ret_inv in H as ([vs1 runs1] & Hrec & H).
  apply elem_of_cons in Hin as [[= -> ->]|Hin].
  - destruct (values s' !! k); injection H as _ <-; eexists; by left.
  - destruct (IH _ _ Hrec Hin) as [b1 Hb1]. destruct (values s' !! k); injection H as _ <-; eexists; right; done.
Qed.

Definition average_loop (stats : list Shared) (vs : gmap bytes Value) (ks : list bytes)
    : outcome error (gmap bytes Value * list Shared) :=
  ofoldM (λ '(vs, stats) k,
    let! (st, stats) := take_values k stats in Ret (<[k := AverageValue st]> vs, stats)) (vs, stats) ks.

Lemma average_loop_all runs ks : (∀ k b s, k ∈ ks → (b, s) ∈ runs → b = false ∧ is_Some (values s !! k)) →
  ∀ vs, ∃ vs', average_loop runs vs ks = Ret (vs', runs) ∧
    (∀ k, k ∈ ks → ∃ st, Forall2 (λ r v, values r.2 !! k = Some v) runs st ∧ vs' !! k = Some (AverageValue st)) ∧
    (∀ k, k ∉ ks → vs' !! k = vs !! k).
Proof.
  induction ks as [|k ks IH]; intros H vs; [exists vs; split; [done|]; split; [by intros k ?%elem_of_nil|done]|].
  destruct (take_values_all k runs) as (st & Hst & Hf); [intros b s Hin; apply (H k); [by left|done]|].
  destruct (IH (λ k' b s Hk', H k' b s (list_elem_of_further _ _ _ Hk')) (<[k := AverageValue st]> vs)) as (vs' & Hrun & Hin & Hout).
  exists vs'. unfold average_loop. cbn [ofoldM]. rewrite Hst. cbn [obind]. split; [exact Hrun|]. split.
  - intros k' Hk'. destruct (decide (k' ∈ ks)) as [Hin'|Hnin]; [by apply Hin|].
    apply elem_of_cons in Hk' as [->|]; [|done]. exists st. split; [done|]. by rewrite Hout, lookup_insert_eq.
  - intros k' [Hne Hnin]%not_elem_of_cons. by rewrite Hout, lookup_insert_ne.
Qed.

Lemma average_loop_blocked ks : ∀ runs vs s, (true, s) ∈ runs → ks ≠ [] → average_loop runs vs ks = OutOfFuel.
Proof.
  intros runs vs s Hin Hne. destruct ks as [|k ks]; [done|]. unfold average_loop. cbn [ofoldM].
  by rewrite (take_values_blocked _ _ _ Hin).
Qed.

Lemma take_values_total k runs : take_values k runs = OutOfFuel ∨ ∃ r, take_values k runs = Ret r.
Proof.
  induction runs as [|[b s] runs IH]; [right; by eexists|]. cbn. destruct b; [by left|].
  destruct IH as [->|[[vs runs'] ->]]; cbn; [by left|]. right. destruct (values s !! k); by eexists.
Qed.

Lemma average_loop_hangs k r s : r ≠ [] → values s !! k = None → ∀ l runs vs b, (b, s) ∈ runs →
  average_loop runs vs (l ++ k :: r) = OutOfFuel.
Proof.
  intros Hr Hk. induction l as [|x l IH]; intros runs vs b Hin; unfold average_loop; cbn [app ofoldM].
  - destruct (take_values_total k runs) as [->|[[st runs'] E]]; [done|]. rewrite E. cbn [obind].
    destruct b; [by rewrite (take_values_blocked _ _ _ Hin) in E|].
    eapply average_loop_blocked; [|done]. by eapply take_values_kept.
  - destruct (take_values_total x runs) as [->|[[st runs'] E]]; [done|]. rewrite E. cbn [obind].
    destruct (take_values_runs _ _ _ _ _ _ E Hin) as [b' Hin']. by apply (IH runs' _ b').
Qed.

(** [AverageStats] of runs that all have the measurements of the first gives,
    for each, the values of all runs in their order, and leaves no lock taken;
    when a run lacks a measurement of the first that is not the last of its
    names, it never returns. *)
Theorem average_stats (runs : list Shared) s0 :
  (∀ b s, (b, s) ∈ (false, s0) :: runs → b = false ∧ stats_ok s) →
  ((∀ b s k, (b, s) ∈ runs → k ∈ keys s0 → is_Some (values s !! k)) →
     ∃ s, AverageStats ((false, s0) :: runs) = Ret (s, (false, s0) :: runs) ∧ keys s = keys s0 ∧ static s = static s0 ∧
       ∀ k, k ∈ keys s0 → ∃ vs, Forall2 (λ r v, values r.2 !! k = Some v) ((false, s0) :: runs) vs ∧
         values s !! k = Some (set_store (NewValue k) (vs ≫= store))) ∧
  ((∃ b s l k r, (b, s) ∈ runs ∧ keys s0 = l ++ k :: r ∧ r ≠ [] ∧ values s !! k = None) →
     AverageStats ((false, s0) :: runs) = OutOfFuel).
Proof.
  intros Hruns. destruct (Hruns false s0 ltac:(left)) as [_ Hok0]. split.
  - intros Hhas. destruct (average_loop_all ((false, s0) :: runs) (keys s0)) with (vs := (∅ : gmap bytes Value)) as (vs & Hrun & Hin & _).
    { intros k b s Hk Hbs. split; [by eapply Hruns|]. apply elem_of_cons in Hbs as [[= -> ->]|Hbs]; [|by eapply Hhas].
      by apply (ok_keys s0 Hok0). }
    eexists. split; [unfold AverageStats; fold (average_loop ((false, s0) :: runs) ∅ (keys s0)); by rewrite Hrun|].
    split; [done|]. split; [done|]. intros k Hk. destruct (Hin k Hk) as (st & Hst & Hv). exists st. split; [done|].
    cbn [values]. rewrite Hv. f_equal. inversion Hst as [|r v rs vs' Hr Hrest E1 E2]; subst. cbn in Hr.
    unfold AverageValue. rewrite (ok_names _ Hok0 _ _ Hr). rewrite (proj2 (forallb_forall _ _)); [done|].
    intros w [i Hi]%list_elem_of_In%list_elem_of_lookup. apply bool_decide_eq_true.
    destruct (Forall2_lookup_r _ _ _ _ _ Hst Hi) as ([b s] & Hs & Hw). cbn in Hw.
    apply (ok_names s); [|done]. by eapply Hruns, list_elem_of_lookup_2.
  - intros (b & s & l & k & r & Hin & Hkeys & Hr & Hk). unfold AverageStats.
    fold (average_loop ((false, s0) :: runs) ∅ (keys s0)). rewrite Hkeys.
    rewrite (average_loop_hangs k r s Hr Hk l _ _ b); [done|by right].
Qed.
End statistics.
End Statistics.

(** ** [measure.go] *)
Module Measures.
Import Float64.

Definition singleMeasure : Type := bytes * float64.

(** [CounterIOMeasure]; what its counter says are arguments. *)
Record CounterIOMeasure := { name : bytes; baseTx : Z; baseRx : Z }.
Definition NewCounterIOMeasure (nm : bytes) (tx rx : Z) : CounterIOMeasure :=
  {| name := nm; baseTx := tx; baseRx := rx |}.

(** [uint64] subtraction. *)
Definition since (a b : Z) : Z := (a - b) mod 2 ^ 64.

(** [Record]: the two measures it sends. *)
Definition Record_counter (cm : CounterIOMeasure) (bRx bTx : Z) : list singleMeasure * CounterIOMeasure :=
  ([ (name cm ++ str "_rx", of_int (since bRx (baseRx cm))); (name cm ++ str "_tx", of_int (since bTx (baseTx cm))) ],
   {| name := name cm; baseTx := bTx; baseRx := bRx |}).

(** What is recorded over a sequence of readings adds up to what was counted. *)
Fixpoint recorded_rx (cm : CounterIOMeasure) (readings : list (Z * Z)) : list Z * CounterIOMeasure :=
  match readings with
  | [] => ([], cm)
  | (rx, tx) :: readings =>
      let '(l, cm') := recorded_rx (Record_counter cm rx tx).2 readings in (since rx (baseRx cm) :: l, cm')
  end.

Lemma recorded_total readings : ∀ cm, 
  foldr Z.add 0 (recorded_rx cm readings).1 mod 2 ^ 64 = (default (baseRx cm) (fst <$> last readings) - baseRx cm) mod 2 ^ 64.
Proof.
  induction readings as [|[rx tx] readings IH]; intros cm; [cbn; by rewrite Z.sub_diag|].
  assert (default (baseRx cm) (fst <$> last ((rx, tx) :: readings)) = default rx (fst <$> last readings)) as ->.
  { destruct readings as [|r readings]; [done|]. cbn [last]. by destruct (last (r :: readings)) eqn:E; [|apply last_None in E]. }
  cbn [recorded_rx Record_counter snd]. specialize (IH {| name := name cm; baseTx := tx; baseRx := rx |}). cbn [baseRx] in IH.
  destruct (recorded_rx _ readings) as [l cm'] eqn:E. cbn [fst foldr] in *. unfold since.
  rewrite Zplus_mod_idemp_l, <-Zplus_mod_idemp_r, IH, Zplus_mod_idemp_r. f_equal. lia.
Qed.

(** [TimeMeasure]: the CPU times and the clock are arguments. *)
Record TimeMeasure := { tm_name : bytes; cpu : float64; user : float64; lastWallTime : Z }.
Definition reset (nm : bytes) (now : Z) (rtime : float64 * float64) : TimeMeasure :=
  {| tm_name := nm; cpu := rtime.1; user := rtime.2; lastWallTime := now |}.
Definition NewTimeMeasure := reset.
Definition getDiffRTime (tSys tUsr : float64) (now : float64 * float64) : float64 * float64 :=
  (fsub now.1 tSys, fsub now.2 tUsr).
Definition Record_time (tm : TimeMeasure) (now : Z) (rtime : float64 * float64) (now' : Z) (rtime' : float64 * float64)
    : list singleMeasure * TimeMeasure :=
  let wall := fdiv (of_int (now - lastWallTime tm)) (of_int 1000000000) in
  let '(c, u) := getDiffRTime (cpu tm) (user tm) rtime in
  ([ (tm_name tm ++ str "_wall", wall); (tm_name tm ++ str "_system", c); (tm_name tm ++ str "_user", u) ],
   reset (tm_name tm) now' rtime').

(** The connection to the monitor: what was sent over it, if there is one. *)
Definition sink : Type := option (list singleMeasure).

Definition ConnectSink (dial : outcome error unit) : SM sink error unit := λ g,
  match g with
  | Some _ => (Err "Already connected to an endpoint", g)
  | None => match dial with Ret _ => (Ret tt, Some []) | Err e => (Err e, g) | Panic w => (Panic w, g) | OutOfFuel => (OutOfFuel, g) end
  end.

(** [send]: up to five attempts; [tries] says which of them succeed. *)
Definition send (tries : nat → bool) (m : singleMeasure) : SM sink error unit := λ g,
  match g with
  | None => (Err "monitor's sink connection not initialized", g)
  | Some l =>
      if existsb tries (seq 0 5) then (Ret tt, Some (l ++ [m])) else (Err "Could not send any measures", g)
  end.

(** [EndAndCleanup]: closing without a connection is a nil dereference. *)
Definition EndAndCleanup (tries : nat → bool) : SM sink error unit := λ g,
  let g := (send tries (str "end", f0) g).2 in
  match g with None => (Panic "nil pointer dereference", g) | Some _ => (Ret tt, None) end.
End Measures.

(** ** [monitor.go] *)
Module Monitors.
Import Float64 Statistics Measures.

(** What [dec.Decode] gives: a measure, the end of the connection ([io.EOF] or an
    error that says closed), or another error with what it left in the measure. *)
Inductive decoded :=
  | Measured (m : singleMeasure)
  | Ended
  | Failed (m : singleMeasure).

(** What a round of the goroutine of a connection comes to. *)
Inductive action := Skip | Offer (m : singleMeasure) | Done.

(** One round of the loop of [handleConnection]: the first error that is not the
    end goes on with the measure as it is. *)
Definition round (nerr : nat) (d : decoded) : nat * action :=
  let pass (m : singleMeasure) := if decide (lower <$> m.1 = str "end") then Skip else Offer m in
  match d with
  | Measured m => (nerr, pass m)
  | Ended => (nerr, Done)
  | Failed m => let nerr := S nerr in (nerr, if (1 <? nerr)%nat then Done else pass m)
  end.

(** The goroutine: what it will decode, its errors, and what it wants to put into
    a channel; [left_] when [done] took its address.  For the statements, [past] is
    what it decoded and [sends] all that comes over the connection. *)
Record handler := { script : list decoded; nerr : nat; wants : action; left_ : bool; past : list decoded; sends : list decoded }.

(** Addresses of connections are not used again.  [log] is what was taken from
    the channel of measures, with the connection it came from, and [stopped] that
    [Stop] was called, both for the statements. *)
Record Monitor := {
  conns : gset bytes;
  handlers : gmap bytes handler;
  pending : option (bytes * list decoded);
  listening : bool;
  finished : bool;
  stats : Stats;
  log : list (bytes * singleMeasure);
  stopped : bool;
}.

Definition NewMonitor (s : Stats) : Monitor :=
  {| conns := ∅; handlers := ∅; pending := None; listening := true; finished := false; stats := s; log := []; stopped := false |}.

Definition set_handler (m : Monitor) (a : bytes) (h : handler) : Monitor :=
  {| conns := conns m; handlers := <[a := h]> (handlers m); pending := pending m; listening := listening m;
     finished := finished m; stats := stats m; log := log m; stopped := stopped m |}.

(** [Accept] returns a connection. *)
Definition accept (m : Monitor) (a : bytes) (l : list decoded) : Monitor :=
  {| conns := conns m; handlers := handlers m; pending := Some (a, l); listening := listening m;
     finished := finished m; stats := stats m; log := log m; stopped := stopped m |}.

(** It is registered and its goroutine starts. *)
Definition register (m : Monitor) (a : bytes) (l : list decoded) : Monitor :=
  {| conns := {[a]} ∪ conns m;
     handlers := <[a := {| script := l; nerr := 0; wants := Skip; left_ := false; past := []; sends := l |}]> (handlers m);
     pending := None; listening := listening m; finished := finished m; stats := stats m; log := log m; stopped := stopped m |}.

Definition decode (h : handler) (d : decoded) (l : list decoded) : handler :=
  let '(e, act) := round (nerr h) d in
  {| script := l; nerr := e; wants := act; left_ := false; past := past h ++ [d]; sends := sends h |}.

(** The loop of [Listen] takes a measure. *)
Definition update (m : Monitor) (a : bytes) (h : handler) (x : singleMeasure) (s : Stats) : Monitor :=
  {| conns := conns m; handlers := <[a := {| script := script h; nerr := nerr h; wants := Skip; left_ := false; past := past h; sends := sends h |}]> (handlers m);
     pending := pending m; listening := listening m; finished := finished m; stats := s; log := log m ++ [(a, x)]; stopped := stopped m |}.

(** It takes the end of a connection; with the last one it finishes. *)
Definition peer_done (m : Monitor) (a : bytes) (h : handler) : Monitor :=
  let conns := conns m ∖ {[a]} in
  let last := bool_decide (conns = ∅) in
  {| conns := conns;
     handlers := <[a := {| script := script h; nerr := nerr h; wants := Done; left_ := true; past := past h; sends := sends h |}]> (handlers m);
     pending := pending m; listening := listening m && negb last; finished := last; stats := stats m; log := log m; stopped := stopped m |}.

(** [Stop]: the listener and all connections are closed; [buffered] of what a
    connection sent is in its decoder already, and still decoded. *)
Definition Stop (buffered : bytes → nat) (m : Monitor) : Monitor :=
  {| conns := conns m;
     handlers := map_imap (λ a h, Some (if decide (a ∈ conns m) then
                   {| script := take (buffered a) (script h) ++ [Ended]; nerr := nerr h; wants := wants h; left_ := left_ h; past := past h; sends := sends h |} else h)) (handlers m);
     pending := pending m; listening := false; finished := finished m; stats := stats m; log := log m; stopped := true |}.

Inductive step : Monitor → Monitor → Prop :=
  | step_accept m a l : listening m = true → pending m = None → handlers m !! a = None → step m (accept m a l)
  | step_register m a l : pending m = Some (a, l) → step m (register m a l)
  | step_decode m a h d l : handlers m !! a = Some h → wants h = Skip → script h = d :: l →
      step m (set_handler m a (decode h d l))
  | step_measure m a h x s : finished m = false → handlers m !! a = Some h → wants h = Offer x →
      Update (stats m) x = Ret s → step m (update m a h x s)
  | step_done m a h : finished m = false → handlers m !! a = Some h → wants h = Done → left_ h = false →
      step m (peer_done m a h)
  | step_stop m buffered : step m (Stop buffered m)
  | step_leave m : finished m = true →
      step m {| conns := ∅; handlers := handlers m; pending := pending m; listening := listening m;
                finished := true; stats := stats m; log := log m; stopped := stopped m |}.

(** What is offered of what a connection decoded, up to its end. *)
Fixpoint measures (nerr : nat) (ds : list decoded) : list singleMeasure :=
  match ds with
  | [] => []
  | d :: ds =>
      match round nerr d with
      | (e, Skip) => measures e ds
      | (e, Offer m) => m :: measures e ds
      | (_, Done) => []
      end
  end.
Fixpoint errors (nerr : nat) (ds : list decoded) : nat :=
  match ds with [] => nerr | d :: ds => errors (round nerr d).1 ds end.

Definition logged (m : Monitor) (a : bytes) : list singleMeasure :=
  snd <$> base.filter (λ x : bytes * singleMeasure, x.1 = a) (log m).

(** No end of the connection among these. *)
Fixpoint running (nerr : nat) (ds : list decoded) : Prop :=
  match ds with [] => True | d :: ds => (round nerr d).2 ≠ Done ∧ running (round nerr d).1 ds end.

(** The log of a connection is what it sent but for the measure it still offers. *)
Definition handler_ok (h : handler) (l : list singleMeasure) : Prop :=
  nerr h = errors 0 (past h) ∧ measures 0 (past h) = l ++ match wants h with Offer x => [x] | _ => [] end ∧
  (wants h ≠ Done → running 0 (past h) ∧ left_ h = false) ∧
  (wants h = Done → ∃ k d, past h = k ++ [d] ∧ (round (errors 0 k) d).2 = Done).

(** What a connection decoded and will decode is the start of what it sends, cut off
    by [Stop] only. *)
Definition feed_ok (st : bool) (h : handler) : Prop :=
  (st = false → past h ++ script h = sends h) ∧
  ∃ k j, k `prefix_of` sends h ∧ past h ++ script h = k ++ repeat Ended j.

Lemma errors_app ds e d : errors e (ds ++ [d]) = (round (errors e ds) d).1.
Proof. revert e. induction ds as [|x ds IH]; intros e; [done|]. cbn. apply IH. Qed.

Lemma measures_app ds d : ∀ e, running e ds →
  measures e (ds ++ [d]) = measures e ds ++ match (round (errors e ds) d).2 with Offer x => [x] | _ => [] end.
Proof.
  induction ds as [|x ds IH]; intros e; cbn.
  - intros _. destruct (round e d) as [e' []]; done.
  - intros [Hx Hr]. destruct (round e x) as [e' [| |]] eqn:E; cbn in *; [by apply IH| |done]. by rewrite IH.
Qed.

Lemma running_app ds d : ∀ e, running e ds → (round (errors e ds) d).2 ≠ Done → running e (ds ++ [d]).
Proof. induction ds as [|x ds IH]; intros e; cbn; [done|]. intros [Hx Hr] Hd. split; [done|]. by apply IH. Qed.

Lemma decode_ok h d l k : handler_ok h k → wants h = Skip → handler_ok (decode h d l) k.
Proof.
  intros (Hn & Hm & Hr & _) Hw. rewrite Hw in Hm, Hr. destruct (Hr ltac:(done)) as [Hrun Hl]. rewrite app_nil_r in Hm.
  unfold decode, handler_ok. destruct (round (nerr h) d) as [e act] eqn:E. cbn [nerr past wants left_].
  rewrite errors_app, measures_app by done. rewrite <-Hn, E. cbn [fst snd]. split; [done|]. split; [by rewrite Hm|].
  split; [intros Hd; split; [|done]; apply running_app; [done|]; by rewrite <-Hn, E|].
  intros ->. exists (past h), d. split; [done|]. by rewrite <-Hn, E.
Qed.

Record monitor_ok (s0 : Stats) (m : Monitor) : Prop := {
  mo_stats : ofoldM Update s0 (snd <$> log m) = Ret (stats m);
  mo_handlers a h : handlers m !! a = Some h → handler_ok h (logged m a) ∧ (left_ h = true → wants h = Done);
  mo_feed a h : handlers m !! a = Some h → feed_ok (stopped m) h;
  mo_unknown a : handlers m !! a = None → logged m a = [];
  mo_conns : finished m = false → ∀ a, a ∈ conns m ↔ ∃ h, handlers m !! a = Some h ∧ left_ h = false;
  mo_pending a l : pending m = Some (a, l) → handlers m !! a = None;
  mo_late : finished m = true → ∀ a h, handlers m !! a = Some h → left_ h = true ∨ logged m a = [];
}.

Lemma register_ok s0 m a l : monitor_ok s0 m → pending m = Some (a, l) → monitor_ok s0 (register m a l).
Proof.
  intros Hok Hp. pose proof (mo_pending _ _ Hok _ _ Hp) as Ha. pose proof (mo_unknown _ _ Hok _ Ha) as Hl.
  split; cbn [register log stats handlers conns finished pending stopped]; [apply Hok|..].
  - intros b h. destruct (decide (a = b)) as [<-|Hne]; [rewrite lookup_insert_eq|rewrite lookup_insert_ne by done; apply (mo_handlers _ _ Hok)].
    intros [= <-]. split; [|done]. split; [done|]. change (logged (register m a l) a) with (logged m a). by rewrite Hl.
  - intros b h. destruct (decide (a = b)) as [<-|Hne]; [rewrite lookup_insert_eq|rewrite lookup_insert_ne by done; apply (mo_feed _ _ Hok)].
    intros [= <-]. split; [done|]. exists l, 0%nat. cbn. by rewrite app_nil_r.
  - intros b [Hb _]%lookup_insert_None. by apply (mo_unknown _ _ Hok).
  - intros Hf b. rewrite elem_of_union, elem_of_singleton, (mo_conns _ _ Hok Hf b). destruct (decide (a = b)) as [<-|Hne].
    + rewrite lookup_insert_eq. split; [eauto|by left].
    + rewrite lookup_insert_ne by done. split; [by intros [->|]|by right].
  - done.
  - intros Hf b h. destruct (decide (a = b)) as [<-|Hne]; [intros _; right; exact Hl|].
    rewrite lookup_insert_ne by done. apply (mo_late _ _ Hok Hf).
Qed.

Lemma decode_step_ok s0 m a h d l : monitor_ok s0 m → handlers m !! a = Some h → wants h = Skip → script h = d :: l →
  monitor_ok s0 (set_handler m a (decode h d l)).
Proof.
  intros Hok Ha Hw Hscr. destruct (mo_handlers _ _ Hok _ _ Ha) as [Hh Hl].
  assert (left_ h = false) as Hlf by (destruct (left_ h); [by rewrite Hl in Hw|done]).
  assert (left_ (decode h d l) = false) as Hld by (unfold decode; by destruct (round _ _)).
  split; cbn [set_handler log stats handlers conns finished pending stopped]; [apply Hok|..].
  - intros b h'. destruct (decide (a = b)) as [<-|Hne]; [rewrite lookup_insert_eq|rewrite lookup_insert_ne by done; apply (mo_handlers _ _ Hok)].
    intros [= <-]. split; [by apply decode_ok|by rewrite Hld].
  - intros b h'. destruct (decide (a = b)) as [<-|Hne]; [rewrite lookup_insert_eq|rewrite lookup_insert_ne by done; apply (mo_feed _ _ Hok)].
    intros [= <-]. pose proof (mo_feed _ _ Hok _ _ Ha) as Hf. unfold decode, feed_ok in *. rewrite Hscr in Hf.
    destruct (round _ _). cbn [past script sends]. by rewrite <-app_assoc.
  - intros b [Hb _]%lookup_insert_None. by apply (mo_unknown _ _ Hok).
  - intros Hf b. rewrite (mo_conns _ _ Hok Hf b). destruct (decide (a = b)) as [<-|Hne]; [|by rewrite lookup_insert_ne].
    rewrite lookup_insert_eq, Ha. split; intros _; eauto.
  - intros b k Hp. pose proof (mo_pending _ _ Hok _ _ Hp). rewrite lookup_insert_ne; [done|congruence].
  - intros Hf b h'. destruct (decide (a = b)) as [<-|Hne]; [|rewrite lookup_insert_ne by done; apply (mo_late _ _ Hok Hf)].
    intros _. right. destruct (mo_late _ _ Hok Hf a h Ha) as [H|H]; [by rewrite Hlf in H|exact H].
Qed.

Lemma update_step_ok s0 m a h x s : monitor_ok s0 m → finished m = false → handlers m !! a = Some h →
  wants h = Offer x → Update (stats m) x = Ret s → monitor_ok s0 (update m a h x s).
Proof.
  intros Hok Hf Ha Hw Hu. destruct (mo_handlers _ _ Hok _ _ Ha) as [(Hn & Hm & Hr & Hx) Hl].
  assert (∀ b, logged (update m a h x s) b = logged m b ++ if decide (a = b) then [x] else []) as Hlog.
  { intros b. unfold logged. cbn [update log]. rewrite filter_app, fmap_app, filter_cons. f_equal. cbn. by case_decide. }
  split; cbn [update log stats handlers conns finished pending stopped].
  - by rewrite fmap_app, ofoldM_app, (mo_stats _ _ Hok); cbn; rewrite Hu.
  - intros b h'. rewrite Hlog. destruct (decide (a = b)) as [<-|Hne].
    + rewrite lookup_insert_eq. intros [= <-]. split; [|done]. unfold handler_ok. cbn [nerr past wants left_].
      rewrite Hw in Hm, Hr. split; [done|]. split; [by rewrite app_nil_r|]. split; [|done]. intros _. split; [by apply Hr|done].
    + rewrite lookup_insert_ne, app_nil_r by done. apply (mo_handlers _ _ Hok).
  - intros b h'. destruct (decide (a = b)) as [<-|Hne]; [rewrite lookup_insert_eq|rewrite lookup_insert_ne by done; apply (mo_feed _ _ Hok)].
    intros [= <-]. exact (mo_feed _ _ Hok _ _ Ha).
  - intros b [Hb Hne]%lookup_insert_None. rewrite Hlog, decide_False, app_nil_r by done. by apply (mo_unknown _ _ Hok).
  - intros _ b. rewrite (mo_conns _ _ Hok Hf b). destruct (decide (a = b)) as [<-|Hne]; [|by rewrite lookup_insert_ne].
    rewrite lookup_insert_eq, Ha. split; [intros _; by eexists|]. intros _. exists h. split; [done|].
    destruct (left_ h); [|done]. by rewrite Hl in Hw.
  - intros b k Hp. pose proof (mo_pending _ _ Hok _ _ Hp). rewrite lookup_insert_ne; [done|congruence].
  - intros Hf'. congruence.
Qed.

Lemma done_step_ok s0 m a h : monitor_ok s0 m → finished m = false → handlers m !! a = Some h →
  wants h = Done → monitor_ok s0 (peer_done m a h).
Proof.
  intros Hok Hf Ha Hw. destruct (mo_handlers _ _ Hok _ _ Ha) as [(Hn & Hm & Hr & Hx) Hl].
  assert (∀ b, b ∈ conns m ∖ {[a]} ↔ ∃ h', handlers (peer_done m a h) !! b = Some h' ∧ left_ h' = false) as Hc.
  { intros b. cbn [peer_done handlers]. rewrite elem_of_difference, elem_of_singleton, (mo_conns _ _ Hok Hf b).
    destruct (decide (a = b)) as [<-|Hne].
    - rewrite lookup_insert_eq. split; [by intros [_ []]|]. by intros (h' & [= <-] & ?).
    - rewrite lookup_insert_ne by done. split; [by intros [? _]|]. intros H. by split; [|intros ->]. }
  split; [apply Hok|..].
  - intros b h'. cbn [peer_done handlers]. destruct (decide (a = b)) as [<-|Hne].
    + rewrite lookup_insert_eq. intros [= <-]. rewrite Hw in Hm. split; [|done]. split_and!; [done..|intros _; by apply Hx].
    + rewrite lookup_insert_ne by done. apply (mo_handlers _ _ Hok).
  - intros b h'. cbn [peer_done handlers stopped]. destruct (decide (a = b)) as [<-|Hne]; [rewrite lookup_insert_eq|rewrite lookup_insert_ne by done; apply (mo_feed _ _ Hok)].
    intros [= <-]. exact (mo_feed _ _ Hok _ _ Ha).
  - cbn [peer_done handlers]. intros b [Hb _]%lookup_insert_None. by apply (mo_unknown _ _ Hok).
  - intros _ b. apply Hc.
  - cbn [peer_done handlers pending]. intros b k Hp. pose proof (mo_pending _ _ Hok _ _ Hp). rewrite lookup_insert_ne; [done|congruence].
  - intros Hlast b h' Hb. cbn [peer_done finished] in Hlast. apply bool_decide_eq_true in Hlast. left.
    destruct (left_ h') eqn:E; [done|]. assert (b ∈ conns m ∖ {[a]}) as Hin by (apply Hc; eauto). rewrite Hlast in Hin. by apply elem_of_empty in Hin.
Qed.

Lemma take_Ended n : ∀ j, ∃ i, take n (repeat Ended j) = repeat Ended i.
Proof.
  induction n as [|n IH]; intros j; [by exists 0%nat|]. destruct j as [|j]; [by exists 0%nat|].
  destruct (IH j) as [i Hi]. exists (S i). cbn. by rewrite Hi.
Qed.

Lemma feed_cut n h k j : k `prefix_of` sends h → past h ++ script h = k ++ repeat Ended j →
  ∃ k j, k `prefix_of` sends h ∧ past h ++ (take n (script h) ++ [Ended]) = k ++ repeat Ended j.
Proof.
  intros Hk E. apply (f_equal (take (length (past h) + n))) in E. rewrite take_app_add, take_app in E.
  destruct (take_Ended (length (past h) + n - length k) j) as [i Hi]. rewrite Hi in E.
  exists (take (length (past h) + n) k), (S i). split; [etrans; [apply prefix_take|exact Hk]|].
  by rewrite app_assoc, E, <-app_assoc, <-repeat_cons.
Qed.

Lemma Stop_ok s0 buffered m : monitor_ok s0 m → monitor_ok s0 (Stop buffered m).
Proof.
  intros Hok. assert (∀ b, handlers (Stop buffered m) !! b = (λ h, if decide (b ∈ conns m) then
     {| script := take (buffered b) (script h) ++ [Ended]; nerr := nerr h; wants := wants h; left_ := left_ h; past := past h; sends := sends h |} else h) <$> handlers m !! b) as Hh.
  { intros b. cbn [Stop handlers]. rewrite map_lookup_imap. by destruct (handlers m !! b). }
  split; [apply Hok|..].
  - intros b h'. rewrite Hh. intros (h & Hb & ->)%fmap_Some. destruct (mo_handlers _ _ Hok _ _ Hb) as [H1 H2].
    case_decide; [by split|done].
  - intros b h'. rewrite Hh. intros (h & Hb & ->)%fmap_Some. pose proof (mo_feed _ _ Hok _ _ Hb) as [_ Hf].
    split; [done|]. case_decide; [|exact Hf]. destruct Hf as (k & j & Hk & E). by apply (feed_cut _ h k j).
  - intros b. rewrite Hh. intros Hb%fmap_None. by apply (mo_unknown _ _ Hok).
  - intros Hf b. cbn [Stop conns finished] in *. rewrite (mo_conns _ _ Hok Hf b), Hh. split.
    + intros (h & Hb & Hl). rewrite Hb. cbn. case_decide; eauto.
    + intros (h' & (h & Hb & ->)%fmap_Some & Hl). exists h. split; [done|]. by case_decide.
  - intros b k Hp. rewrite Hh. by rewrite (mo_pending _ _ Hok _ _ Hp).
  - intros Hf b h'. rewrite Hh. intros (h & Hb & ->)%fmap_Some. destruct (mo_late _ _ Hok Hf b h Hb); [left; by case_decide|by right].
Qed.

Lemma step_ok s0 m m' : monitor_ok s0 m → step m m' → monitor_ok s0 m'.
Proof.
  intros Hok Hs. inversion Hs; subst; [|by apply register_ok|by eapply decode_step_ok|by eapply update_step_ok|by apply done_step_ok|by apply Stop_ok|].
  - split; [apply (mo_stats _ _ Hok)|apply (mo_handlers _ _ Hok)|apply (mo_feed _ _ Hok)|apply (mo_unknown _ _ Hok)|apply (mo_conns _ _ Hok)| |apply (mo_late _ _ Hok)].
    by intros b k [= <- <-].
  - split; [apply (mo_stats _ _ Hok)|apply (mo_handlers _ _ Hok)|apply (mo_feed _ _ Hok)|apply (mo_unknown _ _ Hok)|done|apply (mo_pending _ _ Hok)|].
    intros _. by apply (mo_late _ _ Hok).
Qed.

(** *** What is recorded of what is sent *)

(** Every measure that is sent before the end of the connection, but for those that
    say "end". *)
Fixpoint recorded (ds : list decoded) : list singleMeasure :=
  match ds with
  | Measured x :: ds => if decide (lower <$> x.1 = str "end") then recorded ds else x :: recorded ds
  | Failed _ :: ds => recorded ds
  | Ended :: _ | [] => []
  end.

(** A connection all of whose texts are measures. *)
Definition readable (ds : list decoded) : Prop := Forall (λ d, ∀ x, d ≠ Failed x) ds.

Lemma measures_recorded ds : readable ds → measures 0 ds = recorded ds ∧ errors 0 ds = 0%nat.
Proof.
  induction 1 as [|d ds Hd _ [IH1 IH2]]; [done|]. destruct d as [x| |x]; cbn; [|done|by destruct (Hd x)].
  case_decide; by rewrite ?IH1.
Qed.

Lemma recorded_prefix ds1 ds2 : recorded ds1 `prefix_of` recorded (ds1 ++ ds2).
Proof.
  induction ds1 as [|d ds1 IH]; [apply prefix_nil|]. destruct d; cbn; [|done|done]. case_decide; [done|by apply prefix_cons].
Qed.

Lemma recorded_mono ds1 ds2 : ds1 `prefix_of` ds2 → recorded ds1 `prefix_of` recorded ds2.
Proof. intros [k ->]. apply recorded_prefix. Qed.

Lemma recorded_Ended k ds : recorded (k ++ Ended :: ds) = recorded k.
Proof. induction k as [|d k IH]; [done|]. destruct d; cbn; [|done|done]. by rewrite IH. Qed.

(** What is logged of a readable connection. *)
Lemma logged_recorded h l (st : bool) : handler_ok h l → (left_ h = true → wants h = Done) → feed_ok st h → readable (sends h) →
  l `prefix_of` recorded (sends h) ∧ (left_ h = true → st = false → l = recorded (sends h)).
Proof.
  intros (_ & Hm & _ & Hd) Hl (Hst & k & j & Hk & E) Hr.
  assert (readable (k ++ repeat Ended j)) as Hr'.
  { apply Forall_app. split; [destruct Hk as [z Hz]; rewrite Hz in Hr; by apply Forall_app in Hr as [? _]|]. apply Forall_forall. intros d Hd' x ->.
    by apply list_elem_of_In, repeat_spec in Hd'. }
  rewrite <-E in Hr'. apply Forall_app in Hr' as [Hr' _]. destruct (measures_recorded _ Hr') as [Hp _]. rewrite Hp in Hm.
  assert (recorded (past h) `prefix_of` recorded k) as Hk'.
  { etrans; [apply (recorded_prefix _ (script h))|]. rewrite E. destruct j; cbn [repeat]; [by rewrite app_nil_r|by rewrite recorded_Ended]. }
  split; [etrans; [|by apply recorded_mono]; etrans; [|exact Hk']; rewrite Hm; by eexists|].
  intros Hleft Hs. rewrite (Hl Hleft), app_nil_r in Hm. rewrite <-Hm, <-(Hst Hs).
  destruct (Hd (Hl Hleft)) as (k' & d & Hpast & Hdone). rewrite Hpast in Hr' |- *. apply Forall_app in Hr' as [_ Hr']. apply Forall_cons in Hr' as [Hr' _].
  rewrite <-app_assoc. cbn [app]. destruct d as [x| |x]; [|by rewrite !recorded_Ended|by destruct (Hr' x)].
  exfalso. revert Hdone. cbn. by case_decide.
Qed.

(** C40: in every interleaving of its connections the monitor's statistics are those
    of the measures that it took.  Of a connection all of whose texts can be decoded
    it took, in order, the measures that were sent before the end of the connection,
    those named "end" left out, up to some point; all of them when the end of the
    connection was taken and [Stop] was not called.  After it finished, the end of
    every connection was taken, or nothing of the connection was. *)
Theorem monitor_records s0 m : fresh s0 → rtc step (NewMonitor s0) m →
  ofoldM Update s0 (snd <$> log m) = Ret (stats m) ∧
  (∀ a h, handlers m !! a = Some h → readable (sends h) →
     logged m a `prefix_of` recorded (sends h) ∧
     (left_ h = true → stopped m = false → logged m a = recorded (sends h))) ∧
  (finished m = true → ∀ a h, handlers m !! a = Some h → left_ h = true ∨ logged m a = []).
Proof.
  intros Hf Hr. assert (monitor_ok s0 (NewMonitor s0)) as Hok.
  { split; try done. cbn. intros _ a. split; [by intros ?%elem_of_empty|]. by intros (h & ?%lookup_empty_Some & _). }
  clear Hf. revert Hok. remember (NewMonitor s0) as m0. clear Heqm0. induction Hr as [m|m0 m1 m Hs Hr IH]; intros Hok;
    [|apply IH; by eapply step_ok].
  split; [apply Hok|]. split; [|apply Hok]. intros a h Ha. destruct (mo_handlers _ _ Hok _ _ Ha) as [Hh Hl].
  apply logged_recorded; [done..|by apply (mo_feed _ _ Hok a)].
Qed.
End Monitors.

(** ** Examples and witnesses *)
Module MonitorExample.
Import Float64 Statistics Measures Monitors.

Definition floats (l : list Z) : list float64 := of_int <$> l.

(** Minimum, maximum, mean, sum and deviation; only negative values have the
    maximum zero, and a second [Collect] counts the values again. *)
Example collect_examples :
  (let t := Value_Collect (set_store (NewValue (str "t")) (floats [5; 10; 15])) in
   (min t, max t, newM t, sum t, dev t, n t) = (of_int 5, of_int 15, of_int 10, of_int 30, of_int 5, 3)) ∧
  max (Value_Collect (set_store (NewValue (str "t")) (floats [-5; -10]))) = f0 ∧
  n (Value_Collect (Value_Collect (set_store (NewValue (str "t")) (floats [5; 10])))) = 4.
Proof. split_and!; cbv zeta; by_vm. Qed.

(** The 75th percentile of 15, 20, 35, 40, 50 is 40. *)
Definition rank40 (_ : list float64) (_ : float64) : option float64 := Some (of_int 40).
Definition filter75 : gmap bytes float64 := {[ str "round" := of_int 75 ]}.

(** In the order of the test one value is cut; the same values in another order
    keep 50 and lose 15. *)
Example filter_examples :
  Filter rank40 filter75 (str "round") (floats [35; 20; 15; 40; 50]) = floats [35; 20; 15; 40] ∧
  Filter rank40 filter75 (str "round") (floats [50; 35; 60; 15]) = floats [50; 35].
Proof. split; by_vm. Qed.

Lemma filter_cuts_witness :
  ∃ k y r, floats [50; 35; 60; 15] = k ++ y :: r ∧ Filter rank40 filter75 (str "round") (floats [50; 35; 60; 15]) = k.
Proof.
  destruct (filter_cuts rank40 filter75 (str "round") (floats [50; 35; 60; 15]) (of_int 75) (of_int 40)) as [[_ H]|(k & y & r & H & Hk & _)];
    [by_vm|done| |by exists k, y, r].
  exfalso. assert (flt (of_int 40) (of_int 50) = false) as E by (apply H; left). revert E. by vm_compute.
Defined.

Definition run1 : Stats :=
  {| made := true; static := {[ str "hosts" := 2 ]}; staticKeys := [str "hosts"]; values := ∅; keys := []; filter := ∅ |}.
Definition m1 : singleMeasure := (str "setup", of_int 5).
Definition m2 : singleMeasure := (str "round", of_int 10).

Lemma run1_fresh : fresh run1. Proof. done. Qed.

Lemma stats_table_witness :
  ∃ s' hs vs, ofoldM Update run1 [m1; m2; m1] = Ret s' ∧ header_fields s' = Ret hs ∧
    value_fields (λ x, [byte_of (if flt x (of_int 7) then 60 else 62)]) (Collect rank40 s') = Ret vs ∧
    keys s' = [str "round"; str "setup"] ∧ length vs = length hs.
Proof.
  destruct (stats_table (λ x, [byte_of (if flt x (of_int 7) then 60 else 62)]) rank40 run1 [m1; m2; m1] run1_fresh)
    as (s' & hs & vs & Hrun & Hh & Hv & Hk & _ & _ & Hl).
  exists s', hs, vs. do 3 (split; [done|]). split; [|done]. rewrite Hk. by_vm.
Defined.

Definition after (ms : list singleMeasure) : Stats := match ofoldM Update run1 ms with Ret s => s | _ => run1 end.

Lemma after_collected ms : collected run1 (after ms) ms.
Proof. destruct (updates_ok run1 ms run1_fresh) as (s & Hs & Hc). unfold after. by rewrite Hs. Qed.
Lemma after_ok ms : stats_ok (after ms).
Proof. apply after_collected. Qed.

Definition ms2 : list singleMeasure := [(str "round", of_int 1); (str "setup", of_int 3); (str "round", of_int 2)].
Definition run2 : Stats := after ms2.
(** A run that lacks the first of the names. *)
Definition run3 : Stats := after [(str "setup", of_int 3)].

Lemma individual_rows_witness :
  ∃ n rows, WriteIndividualStats (λ _, []) run2 = Ret (concat (line <$> rows)) ∧ length rows = n ∧ n = 2%nat.
Proof.
  destruct (individual_rows (λ _, []) run2 2 (after_ok ms2)) as (n & rows & Hw & Hl & _ & Hn); [lia| |].
  - intros k v. destruct (after_collected ms2) as (_ & _ & _ & _ & Hv). unfold run2. rewrite Hv. case_decide as Hd; [done|].
    intros [= <-]. cbn [store set_store]. rewrite measured_nil in Hd. apply dec_stable in Hd. revert Hd.
    change (ms2.*1) with [str "round"; str "setup"; str "round"]. rewrite !elem_of_cons, elem_of_nil.
    intros [->|[->|[->|[]]]]; [by right|by left|by right].
  - exists n, rows. do 2 (split; [done|]). destruct (values run2 !! str "round") as [v|] eqn:E.
    + destruct (Hn (str "round") v E) as [H|H]; revert E; rewrite <-?H; vm_compute; [|].
      * intros [= <-]. discriminate H.
      * intros [= <-]. done.
    + exfalso. revert E. by vm_compute.
Defined.

Lemma average_stats_witness :
  (∃ s, AverageStats [(false, run2); (false, run2)] = Ret (s, [(false, run2); (false, run2)])) ∧
  AverageStats [(false, run2); (false, run3)] = OutOfFuel.
Proof.
  split.
  - destruct (average_stats [(false, run2)] run2) as [H _].
    { intros b s [[= -> ->]|[= -> ->]%list_elem_of_singleton]%elem_of_cons; (split; [done|apply after_ok]). }
    destruct H as (s & Hs & _); [|by exists s].
    intros b s k [= -> ->]%list_elem_of_singleton. apply (ok_keys _ (after_ok ms2)).
  - destruct (average_stats [(false, run3)] run2) as [_ H].
    { intros b s [[= -> ->]|[= -> ->]%list_elem_of_singleton]%elem_of_cons; (split; [done|apply after_ok]). }
    apply H. exists false, run3, [], (str "round"), [str "setup"]. split; [by left|]. split; [done|]. split; [done|by_vm].
Defined.

(** A connection sends two measures and ends; then the monitor has finished. *)
Definition sent : list decoded := [Measured m1; Measured m2; Measured (str "End", f0); Ended; Measured m1].
Definition peer : bytes := str "10.0.0.1:4000".

Definition at_peer (f : handler → option Monitor) (m : Monitor) : option Monitor := handlers m !! peer ≫= f.
Definition arrive (m : Monitor) : option Monitor :=
  if listening m then match pending m, handlers m !! peer with None, None => Some (accept m peer sent) | _, _ => None end else None.
Definition enter (m : Monitor) : option Monitor := match pending m with Some (a, l) => Some (register m a l) | None => None end.
Definition read_one (m : Monitor) : option Monitor :=
  at_peer (λ h, match wants h, script h with Skip, d :: l => Some (set_handler m peer (decode h d l)) | _, _ => None end) m.
Definition take_one (m : Monitor) : option Monitor :=
  at_peer (λ h, match wants h, finished m with
                | Offer x, false => match Update (stats m) x with Ret s => Some (update m peer h x s) | _ => None end
                | Done, false => if left_ h then None else Some (peer_done m peer h)
                | _, _ => None end) m.

Lemma arrive_step m m' : arrive m = Some m' → step m m'.
Proof.
  unfold arrive. destruct (listening m) eqn:E1, (pending m) eqn:E2, (handlers m !! peer) eqn:E3; try done.
  intros [= <-]. by constructor.
Qed.
Lemma enter_step m m' : enter m = Some m' → step m m'.
Proof. unfold enter. destruct (pending m) as [[a l]|] eqn:E; [|done]. intros [= <-]. by constructor. Qed.
Lemma read_one_step m m' : read_one m = Some m' → step m m'.
Proof.
  unfold read_one, at_peer. destruct (handlers m !! peer) as [h|] eqn:E; [|done]. cbn.
  destruct (wants h) eqn:Ew; try done. destruct (script h) as [|d l] eqn:Es; [done|]. intros [= <-]. by eapply step_decode.
Qed.
Lemma take_one_step m m' : take_one m = Some m' → step m m'.
Proof.
  unfold take_one, at_peer. destruct (handlers m !! peer) as [h|] eqn:E; [|done]. cbn.
  destruct (wants h) as [|x|] eqn:Ew; [done|..]; destruct (finished m) eqn:Ef; try done.
  - destruct (Update (stats m) x) eqn:Eu; try done. intros [= <-]. by eapply step_measure.
  - destruct (left_ h) eqn:El; [done|]. intros [= <-]. by eapply step_done.
Qed.

Definition session : list (Monitor → option Monitor) :=
  [arrive; enter; read_one; take_one; read_one; take_one; read_one; read_one; take_one].

Definition play (fs : list (Monitor → option Monitor)) (m : Monitor) : option Monitor := foldl (λ o f, o ≫= f) (Some m) fs.

Lemma session_step f m m' : f ∈ session → f m = Some m' → step m m'.
Proof.
  unfold session. rewrite !elem_of_cons, elem_of_nil.
  intros [->|[->|[->|[->|[->|[->|[->|[->|[->|[]]]]]]]]]];
    (apply arrive_step || apply enter_step || apply read_one_step || apply take_one_step).
Qed.

Lemma play_steps fs : ∀ m m', (∀ f, f ∈ fs → f ∈ session) → play fs m = Some m' → rtc step m m'.
Proof.
  induction fs as [|f fs IH] using rev_ind; intros m m' Hin H; [injection H as <-; done|].
  unfold play in H. rewrite foldl_app in H. cbn in H. fold (play fs m) in H. destruct (play fs m) as [m1'|] eqn:E; [|done].
  eapply rtc_r; [apply (IH m m1'); [|done]|]; [intros g Hg; apply Hin; apply elem_of_app; by left|].
  apply (session_step f); [apply Hin, elem_of_app; right; by left|done].
Qed.

Definition ended : Monitor := default (NewMonitor run1) (play session (NewMonitor run1)).

Lemma session_reaches : rtc step (NewMonitor run1) ended.
Proof.
  apply (play_steps session); [done|]. unfold ended.
  assert (is_Some (play session (NewMonitor run1))) as [m' ->]; [|done]. apply (bool_decide_unpack _). by vm_compute.
Qed.

Lemma monitor_records_witness :
  finished ended = true ∧ ofoldM Update run1 (snd <$> log ended) = Ret (stats ended) ∧ logged ended peer = [m1; m2] ∧
  recorded sent = [m1; m2].
Proof.
  destruct (monitor_records run1 ended run1_fresh session_reaches) as (Hs & Hl & _).
  split; [by_vm|]. split; [exact Hs|]. assert (recorded sent = [m1; m2]) as Hrec by by_vm. split; [|exact Hrec].
  destruct (handlers ended !! peer) as [h|] eqn:E; [|exfalso; revert E; by vm_compute].
  assert (sends h = sent) as Hsent by (apply (f_equal (fmap sends)) in E; cbn in E; revert E; vm_compute; by intros [= <-]).
  assert (left_ h = true) as Hleft by (apply (f_equal (fmap left_)) in E; cbn in E; revert E; vm_compute; by intros [= <-]).
  rewrite <-Hrec, <-Hsent. apply (Hl peer h E); [|exact Hleft|by_vm].
  rewrite Hsent. repeat constructor; by intros x.
Defined.
End MonitorExample.
