(* ===== verification/Count.v ===== *)
(** * Counting the servers of a simulation ([imported/onet/simul/manage/count.go])

    [Positions] gives the nodes of a tree as paths to the root.  [Counting] is the
    count protocol, run by all nodes of a tree over a network that delivers in any
    order and loses messages: the root asks down the tree, every node says that
    it is up, and the counts come back up; the root's timeout may strike at any
    time.  The nodes' states and the messages on their way are one state, and
    [perform] runs one step of it. *)
From stdpp Require Import functions.
From S2P Require Import Prelude Suite Tree.
Local Open Scope Z_scope.

(** ** Positions in a tree *)
Module Positions.
Import Trees.
Section positions.
Context {S : Suite}.

(** A node is the path from it to the root: its place among its parent's
    children, its parent's place, and so on; the root is the empty path. *)
Abbreviation path := (list nat).

Fixpoint node_at (root : TreeNode) (k : path) : option TreeNode :=
  match k with [] => Some root | i :: k => node_at root k ≫= λ n, tn_Children n !! i end.

Fixpoint positions (k : path) (t : TreeNode) {struct t} : list path :=
  match t with
  | MkTreeNode _ _ _ cs _ =>
      k :: (fix go (i : nat) (cs : list TreeNode) : list path :=
              match cs with [] => [] | c :: cs => positions (i :: k) c ++ go (Datatypes.S i) cs end) 0%nat cs
  end.

Definition size (t : TreeNode) : nat := length (preorder t).
Definition children (root : TreeNode) (k : path) : nat :=
  match node_at root k with Some n => length (tn_Children n) | None => 0 end.

Lemma positions_unfold k t : positions k t = k :: concat (imap (λ i c, positions (i :: k) c) (tn_Children t)).
Proof.
  destruct t as [id si x cs agg]. cbn. f_equal.
  assert (∀ n, (fix go (i : nat) (cs : list TreeNode) : list path :=
    match cs with [] => [] | c :: cs => positions (i :: k) c ++ go (Datatypes.S i) cs end) n cs
    = concat (imap (λ i c, positions ((n + i)%nat :: k) c) cs)) as H; [|apply (H 0%nat)].
  induction cs as [|c cs IH]; intros n; cbn; [done|]. rewrite Nat.add_0_r. f_equal. rewrite IH.
  f_equal. apply imap_ext. intros i c' _. cbn. do 2 f_equal. lia.
Qed.

Lemma in_positions k t p : p ∈ positions k t ↔
  p = k ∨ ∃ i c, tn_Children t !! i = Some c ∧ p ∈ positions (i :: k) c.
Proof.
  rewrite positions_unfold, elem_of_cons, list_elem_of_In, in_concat. apply or_iff_compat_l. split.
  - intros (l & Hl & Hp). apply list_elem_of_In, elem_of_lookup_imap in Hl as (i & c & -> & Hc).
    exists i, c. split; [done|]. by apply list_elem_of_In.
  - intros (i & c & Hc & Hp). exists (positions (i :: k) c). split; [|by apply list_elem_of_In].
    apply list_elem_of_In, elem_of_lookup_imap. eauto.
Qed.

Lemma positions_suffix t : ∀ k p, p ∈ positions k t → ∃ l, p = l ++ k.
Proof.
  induction t as [nid si x cs agg IH] using TreeNode_ind. intros k p [->|(i & c & Hc & Hp)]%in_positions; [by exists []|].
  cbn in Hc. rewrite Forall_forall in IH. destruct (IH c (list_elem_of_lookup_2 _ _ _ Hc) (i :: k) p Hp) as [l ->].
  exists (l ++ [i]). by rewrite <-app_assoc.
Qed.

Lemma positions_NoDup t : ∀ k, NoDup (positions k t).
Proof.
  induction t as [nid si x cs agg IH] using TreeNode_ind. intros k. rewrite positions_unfold. cbn [tn_Children]. constructor.
  - intros H. apply list_elem_of_In, in_concat in H as (l & Hl & Hk). apply list_elem_of_In in Hl, Hk.
    apply elem_of_lookup_imap in Hl as (i & c & -> & Hc). apply positions_suffix in Hk as [l Hk].
    apply (f_equal length) in Hk. rewrite length_app in Hk. cbn in Hk. lia.
  - assert (∀ f : nat → nat, (∀ a b, f a = f b → a = b) → NoDup (concat (imap (λ i c, positions (f i :: k) c) cs))) as H; [|by apply (H id)].
    induction cs as [|c cs IHcs]; intros f Hf; [constructor|]. apply Forall_cons in IH as [IHc IH]. cbn.
    apply NoDup_app. split; [apply IHc|]. split; [|apply (IHcs IH (f ∘ Datatypes.S)); intros a b E; apply Hf in E; lia].
    intros p Hp Hq. apply list_elem_of_In, in_concat in Hq as (l & Hl & Hq). apply list_elem_of_In in Hl, Hq.
    apply elem_of_lookup_imap in Hl as (i & c' & -> & _). apply positions_suffix in Hp as [l1 ->], Hq as [l2 Hq].
    apply app_inj_2 in Hq as [_ [= E]]; [|done]. apply Hf in E. lia.
Qed.

Lemma positions_length t : ∀ k, length (positions k t) = size t.
Proof.
  unfold size. induction t as [nid si x cs agg IH] using TreeNode_ind. intros k. rewrite positions_unfold, preorder_unfold. cbn. f_equal.
  assert (∀ f : nat → nat, length (concat (imap (λ i c, positions (f i :: k) c) cs)) = length (cs ≫= preorder)) as H; [|by apply (H id)].
  induction IH as [|c cs Hc _ IHcs]; intros f; [done|]. cbn. rewrite !length_app, Hc. f_equal. apply (IHcs (f ∘ Datatypes.S)).
Qed.

Context (root : TreeNode).
Abbreviation nodes := (positions [] root).

Lemma nodes_below p : ∀ n, node_at root p = Some n → positions p n ⊆ nodes.
Proof.
  induction p as [|i p IH]; intros n; cbn; [by intros [= ->]|].
  intros (m & Hm & Hc)%bind_Some. etrans; [|by apply IH]. intros q Hq. apply in_positions. right. eauto.
Qed.

Lemma positions_at p n q : node_at root p = Some n → q ∈ positions p n → is_Some (node_at root q).
Proof.
  revert p. induction n as [nid si x cs agg IH] using TreeNode_ind. intros p Hn [->|(i & c & Hc & Hq)]%in_positions; [eauto|].
  cbn in Hc. rewrite Forall_forall in IH. apply (IH c (list_elem_of_lookup_2 _ _ _ Hc) (i :: p)); [|done]. cbn. by rewrite Hn.
Qed.

(** The positions are those of the nodes, each once. *)
Lemma elem_of_nodes p : p ∈ nodes ↔ is_Some (node_at root p).
Proof.
  split; [by apply (positions_at [] root)|]. intros [n Hn]. apply (nodes_below p n Hn). apply in_positions. by left.
Qed.

Lemma child_node i k : (i < children root k)%nat ↔ i :: k ∈ nodes.
Proof.
  rewrite elem_of_nodes. unfold children. cbn. destruct (node_at root k) as [n|]; cbn; [by rewrite lookup_lt_is_Some|].
  split; [lia|by intros []].
Qed.

Lemma parent_node i k : i :: k ∈ nodes → k ∈ nodes.
Proof. rewrite !elem_of_nodes. cbn. destruct (node_at root k); [eauto|by intros []]. Qed.

Lemma root_node : [] ∈ nodes.
Proof. apply elem_of_nodes. by eexists. Qed.

(** The size of a subtree. *)
Definition size_at (k : path) : nat := match node_at root k with Some n => size n | None => 0 end.

Lemma size_at_children k : k ∈ nodes → size_at k = Datatypes.S (sum_list_with (λ i, size_at (i :: k)) (seq 0 (children root k))).
Proof.
  rewrite elem_of_nodes. intros [n Hn]. unfold size_at, children. cbn. rewrite Hn. cbn. unfold size at 1. rewrite preorder_unfold. cbn. f_equal.
  generalize (tn_Children n) as cs. intros cs. clear Hn n.
  assert (∀ l, length (l ≫= preorder) = sum_list_with (λ i, match l !! i with Some n => size n | None => 0%nat end) (seq 0 (length l))) as H; [|apply H].
  induction l as [|c l IH] using rev_ind; [done|]. rewrite bind_app, length_app, IH, length_app, Nat.add_1_r, seq_S, sum_list_with_app. cbn.
  rewrite list_lookup_middle, app_nil_r by done. unfold size at 3. rewrite Nat.add_0_r. f_equal.
  assert (∀ f g (m : list nat), (∀ i, i ∈ m → f i = g i) → sum_list_with f m = sum_list_with g m) as Hext.
  { intros f g m Hm. induction m as [|x m IHm]; [done|]. cbn. rewrite Hm, IHm; [done|set_solver|set_solver]. }
  apply Hext. intros i Hi%elem_of_seq. by rewrite lookup_app_l by lia.
Qed.
End positions.
Abbreviation path := (list nat).
End Positions.

(** ** The count protocol *)
Module Counting.
Import Trees Positions.

Inductive Msg := PrepareCount (Timeout : Z) | NodeIsUp | CountUp (Children : Z).

(** [ProtocolCount] with its channels, which hold what was delivered and not
    received; [waiting] are the counts of children that the node's instance keeps
    until it has all of them.  [asked] and [counted] record that [FuncPC] and
    [FuncC] ran, for the statements only. *)
Record ProtocolCount := {
  Replies : Z;
  Count : list Z;
  timeout : Z;
  PrepareCountChan : list Z;
  CountChan : list (list (path * Z));
  NodeIsUpChan : list path;
  waiting : list (path * Z);
  running : bool;
  asked : bool;
  counted : bool;
}.

Definition NewCount : ProtocolCount :=
  {| Replies := 0; Count := []; timeout := 1024; PrepareCountChan := []; CountChan := []; NodeIsUpChan := [];
     waiting := []; running := true; asked := false; counted := false |}.

Definition SetTimeout (t : Z) (p : ProtocolCount) : ProtocolCount :=
  {| Replies := Replies p; Count := Count p; timeout := t; PrepareCountChan := PrepareCountChan p;
     CountChan := CountChan p; NodeIsUpChan := NodeIsUpChan p; waiting := waiting p; running := running p;
     asked := asked p; counted := counted p |}.

Definition set_chans (p : ProtocolCount) (pc : list Z) (cc : list (list (path * Z))) (up : list path)
    (w : list (path * Z)) : ProtocolCount :=
  {| Replies := Replies p; Count := Count p; timeout := timeout p; PrepareCountChan := pc; CountChan := cc;
     NodeIsUpChan := up; waiting := w; running := running p; asked := asked p; counted := counted p |}.

(** A message on its way: from, to, and what. *)
Definition envelope : Type := path * path * Msg.

Section counting.
Context {S : Suite} (root : TreeNode).
Abbreviation children := (children root).

Definition IsRoot (k : path) : bool := bool_decide (k = []).

(** [FuncPC]: tells the parent, and asks the children; a leaf counts at once. *)
Definition FuncPC (k : path) (p : ProtocolCount) : ProtocolCount * list envelope :=
  let up := if IsRoot k then [] else [(k, tail k, NodeIsUp)] in
  let down := (λ i, (k, i :: k, PrepareCount (timeout p))) <$> seq 0 (children k) in
  ({| Replies := Replies p; Count := Count p; timeout := timeout p; PrepareCountChan := PrepareCountChan p;
      CountChan := if decide (children k = 0%nat) then CountChan p ++ [[]] else CountChan p;
      NodeIsUpChan := NodeIsUpChan p; waiting := waiting p; running := running p; asked := true; counted := counted p |},
   up ++ down).

(** [FuncC]: one more than the counts of the children; [Dispatch] ends. *)
Definition FuncC (k : path) (p : ProtocolCount) (cc : list (path * Z)) : ProtocolCount * list envelope :=
  let count := foldl (λ count c, count + c.2) 1 cc in
  ({| Replies := Replies p; Count := if IsRoot k then Count p ++ [count] else Count p; timeout := timeout p;
      PrepareCountChan := PrepareCountChan p; CountChan := CountChan p; NodeIsUpChan := NodeIsUpChan p;
      waiting := waiting p; running := false; asked := asked p; counted := true |},
   if IsRoot k then [] else [(k, tail k, CountUp count)]).

(** A message comes to a node: counts are kept until all children sent one. *)
Definition receive (k src : path) (m : Msg) (p : ProtocolCount) : ProtocolCount :=
  match m with
  | PrepareCount t => set_chans p (PrepareCountChan p ++ [t]) (CountChan p) (NodeIsUpChan p) (waiting p)
  | NodeIsUp => set_chans p (PrepareCountChan p) (CountChan p) (NodeIsUpChan p ++ [src]) (waiting p)
  | CountUp c =>
      let w := waiting p ++ [(src, c)] in
      if decide (length w = children k) then set_chans p (PrepareCountChan p) (CountChan p ++ [w]) (NodeIsUpChan p) []
      else set_chans p (PrepareCountChan p) (CountChan p) (NodeIsUpChan p) w
  end.

(** The case [NodeIsUpChan] of [Dispatch]: passed on, or counted by the root. *)
Definition node_is_up (k : path) (p : ProtocolCount) : ProtocolCount * list envelope :=
  if IsRoot k then
    ({| Replies := Replies p + 1; Count := Count p; timeout := timeout p; PrepareCountChan := PrepareCountChan p;
        CountChan := CountChan p; NodeIsUpChan := NodeIsUpChan p; waiting := waiting p; running := running p;
        asked := asked p; counted := counted p |}, [])
  else (p, [(k, tail k, NodeIsUp)]).

(** The timeout of [Dispatch] at the root. *)
Definition time_out (p : ProtocolCount) : ProtocolCount :=
  {| Replies := Replies p; Count := Count p ++ [Replies p]; timeout := timeout p; PrepareCountChan := PrepareCountChan p;
     CountChan := CountChan p; NodeIsUpChan := NodeIsUpChan p; waiting := waiting p; running := false;
     asked := asked p; counted := counted p |}.

(** All nodes, the messages on their way, and those that were lost. *)
Record State := { procs : path → ProtocolCount; net : list envelope; lost : list envelope }.

(** [Start] at the root. *)
Definition Start (t : Z) : State :=
  let '(p, es) := FuncPC [] (SetTimeout t NewCount) in
  {| procs := <[[] := p]> (λ _, NewCount); net := es; lost := [] |}.

(** What can happen next: a message comes or is lost; a case of the [select] of a
    node's [Dispatch]. *)
Inductive choice := Deliver (n : nat) | Lose (n : nat) | Prepare (k : path) | Counts (k : path) | Up (k : path) | TimedOut.

Definition set_proc (s : State) (k : path) (r : ProtocolCount * list envelope) : State :=
  {| procs := <[k := r.1]> (procs s); net := net s ++ r.2; lost := lost s |}.

Definition perform (c : choice) (s : State) : option State :=
  match c with
  | Deliver n =>
      match net s !! n with
      | None => None
      | Some (src, dst, m) =>
          let p := procs s dst in
          Some (if running p then {| procs := <[dst := receive dst src m p]> (procs s); net := delete n (net s); lost := lost s |}
                else {| procs := procs s; net := delete n (net s); lost := (src, dst, m) :: lost s |})
      end
  | Lose n =>
      match net s !! n with
      | None => None
      | Some e => Some {| procs := procs s; net := delete n (net s); lost := e :: lost s |}
      end
  | Prepare k =>
      let p := procs s k in
      match PrepareCountChan p with
      | t :: q => if running p then Some (set_proc s k (FuncPC k (SetTimeout t (set_chans p q (CountChan p) (NodeIsUpChan p) (waiting p))))) else None
      | [] => None
      end
  | Counts k =>
      let p := procs s k in
      match CountChan p with
      | cc :: q => if running p then Some (set_proc s k (FuncC k (set_chans p (PrepareCountChan p) q (NodeIsUpChan p) (waiting p)) cc)) else None
      | [] => None
      end
  | Up k =>
      let p := procs s k in
      match NodeIsUpChan p with
      | _ :: q => if running p then Some (set_proc s k (node_is_up k (set_chans p (PrepareCountChan p) (CountChan p) q (waiting p)))) else None
      | [] => None
      end
  | TimedOut => if running (procs s []) then Some (set_proc s [] (time_out (procs s []), [])) else None
  end.


(** Without losses and without the timeout. *)
Definition reliable (c : choice) : bool := match c with Lose _ | TimedOut => false | _ => true end.
Definition rstep (s s' : State) : Prop := ∃ c, reliable c = true ∧ perform c s = Some s'.

(** *** The invariant *)
Abbreviation nodes := (positions [] root).
Abbreviation size_at := (size_at root).

Definition is_prep (c : path) (e : envelope) : nat :=
  match e with (_, dst, PrepareCount _) => if decide (dst = c) then 1 else 0 | _ => 0 end%nat.
Definition is_count (c : path) (e : envelope) : nat :=
  match e with (src, _, CountUp _) => if decide (src = c) then 1 else 0 | _ => 0 end%nat.
Definition is_up (e : envelope) : nat := match e with (_, _, NodeIsUp) => 1 | _ => 0 end%nat.
Definition from (c : path) (x : path * Z) : nat := if decide (x.1 = c) then 1%nat else 0%nat.

Definition sent (s : State) : list envelope := net s ++ lost s.

(** Where the one [PrepareCount] for a node is, and the one count of it. *)
Definition preps (s : State) (c : path) : nat :=
  (sum_list_with (is_prep c) (sent s) + length (PrepareCountChan (procs s c)) + Nat.b2n (asked (procs s c)))%nat.
Definition held (p : ProtocolCount) : list (path * Z) := waiting p ++ concat (CountChan p).
Definition counts (s : State) (c : path) : nat :=
  (sum_list_with (is_count c) (sent s) + sum_list_with (from c) (held (procs s (tail c))) + Nat.b2n (counted (procs s (tail c))))%nat.
Definition ups (s : State) : Z :=
  Z.of_nat (sum_list_with is_up (sent s) + sum_list_with (λ k, length (NodeIsUpChan (procs s k))) nodes) + Replies (procs s []).

Definition good_msg (e : envelope) : Prop :=
  match e with
  | (src, dst, PrepareCount _) => dst ∈ nodes ∧ dst ≠ [] ∧ src = tail dst
  | (src, dst, NodeIsUp) => src ∈ nodes ∧ src ≠ [] ∧ dst = tail src
  | (src, dst, CountUp v) => src ∈ nodes ∧ src ≠ [] ∧ dst = tail src ∧ v = Z.of_nat (size_at src)
  end.

Record node_ok (k : path) (p : ProtocolCount) : Prop := {
  n_outside : k ∉ nodes → PrepareCountChan p = [] ∧ NodeIsUpChan p = [] ∧ asked p = false;
  n_counted : counted p = true → asked p = true;
  n_running : k ≠ [] → running p = negb (counted p);
  n_root : k = [] → PrepareCountChan p = [] ∧ asked p = true ∧
    if running p then counted p = false ∧ Count p = []
    else Count p = [if counted p then Z.of_nat (size_at []) else Replies p];
  n_leaf : children k = 0%nat → waiting p = [] ∧ Forall (.= []) (CountChan p) ∧
    (length (CountChan p) + Nat.b2n (counted p) = Nat.b2n (asked p))%nat;
  n_inner : children k ≠ 0%nat → (length (waiting p) < children k)%nat ∧ Forall (λ b, length b = children k) (CountChan p);
  n_held : ∀ c v, (c, v) ∈ held p → c ∈ nodes ∧ c ≠ [] ∧ tail c = k ∧ v = Z.of_nat (size_at c);
  n_replies : 0 <= Replies p;
}.

Record ok (s : State) : Prop := {
  ok_sent : ∀ e, e ∈ sent s → good_msg e;
  ok_preps : ∀ c, c ∈ nodes → c ≠ [] → preps s c = Nat.b2n (asked (procs s (tail c)));
  ok_counts : ∀ c, c ∈ nodes → c ≠ [] → counts s c = Nat.b2n (counted (procs s c));
  ok_ups : ups s + 1 = Z.of_nat (sum_list_with (λ k, Nat.b2n (asked (procs s k))) nodes);
  ok_node : ∀ k, node_ok k (procs s k);
}.

(** *** Sums *)
Lemma insert_same {B} (f : ProtocolCount → B) k p (g : path → ProtocolCount) c :
  f p = f (g k) → f (<[k := p]> g c) = f (g c).
Proof. intros H. destruct (decide (k = c)) as [<-|Hne]; [by rewrite fn_lookup_insert|by rewrite fn_lookup_insert_ne]. Qed.

Lemma sum_ext {A} (f g : A → nat) l : (∀ x, x ∈ l → f x = g x) → sum_list_with f l = sum_list_with g l.
Proof.
  induction l as [|x l IH]; intros H; [done|]. cbn. rewrite (H x), IH; [done| |by left]. intros y Hy. apply H. by right.
Qed.

Lemma sum_insert_at (f : path → ProtocolCount → nat) k p (g : path → ProtocolCount) l : NoDup l → k ∈ l →
  (sum_list_with (λ c, f c (<[k := p]> g c)) l + f k (g k) = sum_list_with (λ c, f c (g c)) l + f k p)%nat.
Proof.
  induction 1 as [|c l Hc Hl IH]; [by intros ?%elem_of_nil|]. cbn. intros [->|Hk]%elem_of_cons.
  - rewrite fn_lookup_insert, (sum_ext _ (λ c, f c (g c)) l); [lia|]. intros x Hx. rewrite fn_lookup_insert_ne; [done|congruence].
  - rewrite fn_lookup_insert_ne by congruence. specialize (IH Hk). lia.
Qed.

Lemma sum_insert (f : ProtocolCount → nat) k p (g : path → ProtocolCount) l : NoDup l → k ∈ l →
  (sum_list_with (λ c, f (<[k := p]> g c)) l + f (g k) = sum_list_with (λ c, f (g c)) l + f p)%nat.
Proof. apply (sum_insert_at (λ _, f)). Qed.

Lemma sum_insert_same (f : ProtocolCount → nat) k p (g : path → ProtocolCount) l :
  f p = f (g k) → sum_list_with (λ c, f (<[k := p]> g c)) l = sum_list_with (λ c, f (g c)) l.
Proof. intros H. apply sum_ext. intros c _. by apply insert_same. Qed.

Lemma sum_delete {A} (f : A → nat) n l x : l !! n = Some x → (f x + sum_list_with f (delete n l) = sum_list_with f l)%nat.
Proof. intros H. rewrite (delete_Permutation l n x H) at 2. done. Qed.

(** Sums over what children sent. *)
Lemma sum_by_child k n (cc : list (path * Z)) (g : path → nat) :
  (∀ x, x ∈ cc → ∃ i, (i < n)%nat ∧ x.1 = i :: k) →
  sum_list_with (λ x, g x.1) cc = sum_list_with (λ i, sum_list_with (from (i :: k)) cc * g (i :: k))%nat (seq 0 n).
Proof.
  induction cc as [|x cc IH]; intros H.
  - cbn. induction (seq 0 n); cbn; auto.
  - cbn. rewrite IH by (intros y Hy; apply H; by right). destruct (H x ltac:(by left)) as (i & Hi & Hx).
    assert (∀ l, NoDup l → sum_list_with (λ j, (from (j :: k) x + sum_list_with (from (j :: k)) cc) * g (j :: k))%nat l
      = ((if decide (i ∈ l) then g x.1 else 0) + sum_list_with (λ j, sum_list_with (from (j :: k)) cc * g (j :: k))%nat l)%nat) as Hs.
    { induction 1 as [|j l Hj Hl IHl]; [done|]. cbn. rewrite IHl. unfold from at 1. rewrite Hx.
      destruct (decide (i :: k = j :: k)) as [[= ->]|Hne]; [rewrite (decide_False (P := j ∈ l)), decide_True by (done || by left); lia|].
      destruct (decide (i ∈ l)), (decide (i ∈ j :: l)) as [Hm|Hm]; [lia| | |lia].
      - exfalso. apply Hm. by right.
      - apply elem_of_cons in Hm as [->|?]; [by destruct Hne|done]. }
    rewrite Hs by apply NoDup_seq. rewrite decide_True; [done|]. apply elem_of_seq. lia.
Qed.

Lemma sum_all_one (f : nat → nat) l : (∀ i, i ∈ l → f i <= 1)%nat → sum_list_with f l = length l → ∀ i, i ∈ l → f i = 1%nat.
Proof.
  assert (∀ l, (∀ i, i ∈ l → f i <= 1)%nat → (sum_list_with f l <= length l)%nat) as Hle.
  { induction l0 as [|x l0 IH]; intros H; [done|]. cbn. pose proof (H x ltac:(by left)).
    pose proof (IH ltac:(intros; apply H; by right)). lia. }
  induction l as [|x l IH]; intros H Hs; [by intros i ?%elem_of_nil|]. cbn in Hs. pose proof (H x ltac:(by left)).
  assert (∀ i, i ∈ l → f i <= 1)%nat as H' by (intros; apply H; by right). pose proof (Hle l H').
  intros i [->|Hi]%elem_of_cons; [lia|]. apply IH; [done|lia|done].
Qed.

Lemma tail_ne (c : path) : c ≠ [] → tail c ≠ c.
Proof. destruct c as [|i c]; [done|]. cbn. intros _ H. apply (f_equal length) in H. cbn in H. lia. Qed.

Lemma tail_node c : c ∈ nodes → tail c ∈ nodes.
Proof. destruct c as [|i c]; [done|]. apply parent_node. Qed.

Lemma inner_node c : c ∈ nodes → c ≠ [] → children (tail c) ≠ 0%nat.
Proof. destruct c as [|i c]; [done|]. cbn. intros H%child_node _. lia. Qed.

(** *** Every step keeps the invariant *)
Lemma sent_moved s s' : ok s → sent s' ≡ₚ sent s → (∀ k, procs s' k = procs s k) → ok s'.
Proof.
  intros Hok He Hp. assert (∀ f, sum_list_with f (sent s') = sum_list_with f (sent s)) as Hs by (intros f; by rewrite He).
  split.
  - intros e Hin. apply (ok_sent _ Hok). by rewrite <-He.
  - intros c. unfold preps. rewrite Hs, !Hp. apply (ok_preps _ Hok).
  - intros c. unfold counts. rewrite Hs, !Hp. apply (ok_counts _ Hok).
  - pose proof (ok_ups _ Hok) as H. unfold ups in *. rewrite Hs, Hp.
    rewrite (sum_ext (λ k, length (NodeIsUpChan (procs s' k))) (λ k, length (NodeIsUpChan (procs s k)))) by (intros; by rewrite Hp).
    rewrite (sum_ext (λ k, Nat.b2n (asked (procs s' k))) (λ k, Nat.b2n (asked (procs s k)))) by (intros; by rewrite Hp). exact H.
  - intros k. rewrite Hp. apply (ok_node _ Hok).
Qed.

Lemma held_receive (f : path * Z → nat) k src v p :
  sum_list_with f (held (receive k src (CountUp v) p)) = (sum_list_with f (held p) + f (src, v))%nat.
Proof.
  cbn [receive]. unfold held. destruct (decide _); cbn [waiting CountChan set_chans].
  - rewrite concat_app, !sum_list_with_app. cbn. rewrite app_nil_r, sum_list_with_app. cbn. lia.
  - rewrite !sum_list_with_app. cbn. lia.
Qed.

Lemma elem_held_receive x k src v p :
  x ∈ held (receive k src (CountUp v) p) ↔ x ∈ held p ∨ x = (src, v).
Proof.
  cbn [receive]. unfold held. destruct (decide _); cbn [waiting CountChan set_chans].
  - rewrite concat_app. cbn. rewrite app_nil_r, !elem_of_app, list_elem_of_singleton. tauto.
  - rewrite !elem_of_app, list_elem_of_singleton. tauto.
Qed.

Lemma node_receive k src m p : good_msg (src, k, m) → node_ok k p → running p = true → node_ok k (receive k src m p).
Proof.
  intros Hg [H1 H2 H3 H4 H5 H6 H7 H8] Hr. destruct m as [t| |v]; cbn [good_msg] in Hg.
  - destruct Hg as (Hk & Hne & _). split; try assumption; [done|]. intros ->. done.
  - destruct Hg as (Hk%tail_node & Hne & ->). split; try assumption. done.
  - destruct Hg as (Hsrc & Hne & -> & ->). pose proof (tail_node _ Hsrc). pose proof (inner_node _ Hsrc Hne) as Hc.
    destruct (H6 Hc) as [Hw Hb]. split; [done|..|].
    1-2: by (cbn [receive]; destruct (decide _)).
    + intros Hk. cbn [receive]. by destruct (H4 Hk) as (? & ? & ?); destruct (decide _).
    + done.
    + intros _. cbn [receive]. destruct (decide _) as [E|E]; cbn [waiting CountChan set_chans].
      * split; [cbn; lia|]. apply Forall_app. by split; [|constructor].
      * rewrite length_app in E |- *. cbn in *. split; [lia|done].
    + intros c v [Hin|[= -> ->]]%elem_held_receive; [by apply H7|done].
    + by cbn [receive]; destruct (decide _).
Qed.

Lemma deliver_ok s n src dst m : ok s → net s !! n = Some (src, dst, m) → running (procs s dst) = true →
  ok {| procs := <[dst := receive dst src m (procs s dst)]> (procs s); net := delete n (net s); lost := lost s |}.
Proof.
  intros Hok Hn Hr. pose proof (ok_sent _ Hok (src, dst, m)) as Hg.
  assert (good_msg (src, dst, m)) as Hm by (apply Hg, elem_of_app; left; by eapply list_elem_of_lookup_2). clear Hg.
  set (s' := {| procs := _ |}).
  assert (∀ f, sum_list_with f (sent s) = f (src, dst, m) + sum_list_with f (sent s'))%nat as Hs.
  { intros f. unfold sent. cbn [s' net lost]. rewrite !sum_list_with_app, <-(sum_delete f n (net s) _ Hn). lia. }
  assert (∀ k, asked (procs s' k) = asked (procs s k) ∧ counted (procs s' k) = counted (procs s k) ∧ Replies (procs s' k) = Replies (procs s k)) as Hsame.
  { intros k. cbn [s' procs]. split_and!; apply insert_same; destruct m; try done; cbn [receive]; by destruct (decide _). }
  split.
  - intros e He. apply (ok_sent _ Hok). revert He. unfold sent. cbn [s' net lost]. rewrite !elem_of_app. intros [He|He]; [left|by right].
    by apply list_elem_of_delete_inv in He.
  - intros c Hc Hne. destruct (Hsame c) as (Ha & _), (Hsame (tail c)) as (Ha' & _). rewrite Ha', <-(ok_preps _ Hok c Hc Hne). unfold preps. rewrite Ha, (Hs (is_prep c)).
    cbn [s' procs]. destruct (decide (dst = c)) as [<-|Hd].
    + rewrite fn_lookup_insert. destruct m; cbn [receive set_chans PrepareCountChan is_prep];
        [rewrite length_app, decide_True by done; cbn; lia|lia|by destruct (decide (length _ = _)); cbn; lia].
    + rewrite fn_lookup_insert_ne by done. destruct m; cbn [is_prep]; rewrite ?decide_False by done; lia.
  - intros c Hc Hne. destruct (Hsame c) as (_ & Hb & _), (Hsame (tail c)) as (_ & Hb' & _). rewrite Hb, <-(ok_counts _ Hok c Hc Hne). unfold counts. rewrite Hb', (Hs (is_count c)).
    cbn [s' procs]. destruct m as [t| |v]; [by rewrite (insert_same held) by done|by rewrite (insert_same held) by done|]. cbn [is_count].
    destruct (decide (dst = tail c)) as [->|Hd].
    + rewrite fn_lookup_insert, held_receive. unfold from at 2. cbn [fst]. lia.
    + rewrite fn_lookup_insert_ne by done. destruct (decide (src = c)) as [->|]; [|lia]. by destruct Hm as (_ & _ & -> & _).
  - pose proof (ok_ups _ Hok) as Hu.
    rewrite (sum_ext (λ k, Nat.b2n (asked (procs s' k))) (λ k, Nat.b2n (asked (procs s k)))) by (intros k _; by rewrite (proj1 (Hsame k))).
    rewrite <-Hu. unfold ups. rewrite (proj2 (proj2 (Hsame []))), (Hs is_up). cbn [s' procs]. f_equal. f_equal.
    destruct m as [t| |v]; [by rewrite (sum_insert_same (λ p, length (NodeIsUpChan p)))| |].
    + pose proof (sum_insert (λ p, length (NodeIsUpChan p)) dst (receive dst src NodeIsUp (procs s dst)) (procs s) nodes (positions_NoDup _ _)) as H.
      cbn [receive set_chans NodeIsUpChan] in H. rewrite length_app in H. cbn [length] in H. cbn [is_up receive]. cbn [good_msg] in Hm.
      destruct Hm as (Hk%tail_node & _ & ->). specialize (H Hk). lia.
    + rewrite (sum_insert_same (λ p, length (NodeIsUpChan p))); [done|]. cbn [receive]. by destruct (decide _).
  - intros k. cbn [s' procs]. destruct (decide (dst = k)) as [<-|Hd]; [rewrite fn_lookup_insert|rewrite fn_lookup_insert_ne by done; apply Hok].
    apply node_receive; [done|apply Hok|done].
Qed.

Lemma sum_sent_set f s k r : sum_list_with f (sent (set_proc s k r)) = (sum_list_with f (sent s) + sum_list_with f r.2)%nat.
Proof. unfold sent. cbn [set_proc net lost]. rewrite !sum_list_with_app. lia. Qed.

Lemma elem_sent_set e s k r : e ∈ sent (set_proc s k r) → e ∈ sent s ∨ e ∈ r.2.
Proof. unfold sent. cbn [set_proc net lost]. rewrite !elem_of_app. tauto. Qed.

(** The messages to the children: one for each. *)
Lemma asks_once k t c n : sum_list_with (is_prep c) ((λ i, (k, i :: k, PrepareCount t)) <$> seq 0 n) =
  if decide (tail c = k ∧ c ≠ [] ∧ (hd 0%nat c < n)%nat) then 1%nat else 0%nat.
Proof.
  induction n as [|n IH]; [cbn; rewrite decide_False; [done|lia]|]. rewrite seq_S, fmap_app, sum_list_with_app, IH. cbn.
  destruct c as [|i c]; cbn; [rewrite !decide_False by naive_solver; done|].
  destruct (decide (n :: k = i :: c)) as [[= <- <-]|Hne].
  - rewrite decide_False, decide_True by (try split_and!; done || lia). done.
  - destruct (decide (c = k ∧ _ ∧ (i < n)%nat)) as [(-> & _ & Hi)|Hn]; [rewrite decide_True by (split_and!; done || lia); done|].
    rewrite decide_False; [done|]. intros (-> & Hc & Hi). destruct (decide (i = n)) as [->|]; [done|]. apply Hn. split_and!; [done..|lia].
Qed.

Lemma asks_none (g : envelope → nat) k t l :
  (∀ i, g (k, i :: k, PrepareCount t) = 0%nat) → sum_list_with g ((λ i, (k, i :: k, PrepareCount t)) <$> l) = 0%nat.
Proof. intros H. induction l as [|i l IH]; [done|]. cbn. by rewrite H, IH. Qed.

Lemma prepare_facts s k t q : ok s → PrepareCountChan (procs s k) = t :: q →
  k ∈ nodes ∧ k ≠ [] ∧ q = [] ∧ asked (procs s k) = false ∧ counted (procs s k) = false ∧ asked (procs s (tail k)) = true ∧
  sum_list_with (is_prep k) (sent s) = 0%nat.
Proof.
  intros Hok E. pose proof (ok_node _ Hok k) as [H1 H2 _ H4 _ _ _ _].
  assert (k ≠ []) as Hne by (intros Hk; destruct (H4 Hk) as [E' _]; congruence).
  assert (k ∈ nodes) as Hk. { destruct (decide (k ∈ nodes)) as [|Hn]; [done|]. destruct (H1 Hn) as [E' _]. congruence. }
  pose proof (ok_preps _ Hok k Hk Hne) as Hp. unfold preps in Hp. rewrite E in Hp. cbn in Hp.
  destruct (asked (procs s k)) eqn:Ea, (asked (procs s (tail k))) eqn:Eb; cbn in Hp; try lia.
  split_and!; [done|done|destruct q; [done|cbn in Hp; lia]|done| |done|lia].
  destruct (counted (procs s k)) eqn:Ec; [|done]. specialize (H2 eq_refl). congruence.
Qed.

Lemma prepare_ok s k t q : ok s → PrepareCountChan (procs s k) = t :: q → running (procs s k) = true →
  ok (set_proc s k (FuncPC k (SetTimeout t (set_chans (procs s k) q (CountChan (procs s k)) (NodeIsUpChan (procs s k)) (waiting (procs s k)))))).
Proof.
  intros Hok E Hr. destruct (prepare_facts s k t q Hok E) as (Hk & Hne & -> & Ha & Hc & Hpa & Hs). set (r := FuncPC _ _).
  assert (IsRoot k = false) as Hroot by (by apply bool_decide_eq_false).
  assert (r.2 = (k, tail k, NodeIsUp) :: ((λ i, (k, i :: k, PrepareCount t)) <$> seq 0 (children k))) as Hes by (unfold r, FuncPC; by rewrite Hroot).
  assert (∀ f, sum_list_with f (held r.1) = sum_list_with f (held (procs s k))) as Hh.
  { intros f. unfold held. cbn. destruct (decide _); [|done]. by rewrite concat_app, app_nil_r. }
  pose proof (ok_node _ Hok k) as [H1 H2 H3 H4 H5 H6 H7 H8]. split.
  - intros e [He|He]%elem_sent_set; [by apply (ok_sent _ Hok)|]. rewrite Hes in He. apply elem_of_cons in He as [->|He]; [done|].
    apply list_elem_of_fmap in He as (i & -> & Hi%elem_of_seq). cbn. split; [|done]. apply child_node. lia.
  - intros c Hcn Hcr. unfold preps. rewrite sum_sent_set, Hes. cbn [sum_list_with is_prep]. rewrite asks_once. cbn [set_proc procs].
    pose proof (ok_preps _ Hok c Hcn Hcr) as Hp. unfold preps in Hp. destruct (decide (k = c)) as [<-|Hkc].
    + rewrite fn_lookup_insert, fn_lookup_insert_ne by (intros Hx; by apply (tail_ne k)). rewrite decide_False; [|intros (Hx & _); by apply (tail_ne k)].
      cbn. rewrite Hs, Hpa. done.
    + rewrite (fn_lookup_insert_ne _ k c) by done. destruct (decide (k = tail c)) as [->|Hkt].
      * rewrite fn_lookup_insert, decide_True; [cbn [asked r FuncPC fst]; rewrite Ha in Hp; cbn in Hp |- *; lia|].
        split_and!; [done|done|]. destruct c as [|i c]; [done|]. by apply child_node.
      * rewrite fn_lookup_insert_ne, decide_False by naive_solver. lia.
  - intros c Hcn Hcr. unfold counts. rewrite sum_sent_set, Hes. cbn [sum_list_with is_count]. rewrite asks_none by done. cbn [set_proc procs].
    rewrite !(insert_same counted) by done. rewrite (insert_same (λ p, sum_list_with (from c) (held p))) by apply Hh. pose proof (ok_counts _ Hok c Hcn Hcr) as Hp. unfold counts in Hp. lia.
  - pose proof (ok_ups _ Hok) as Hu. unfold ups in *. rewrite sum_sent_set, Hes. cbn [sum_list_with is_up]. rewrite asks_none by done. cbn [set_proc procs].
    rewrite fn_lookup_insert_ne by done. rewrite (sum_insert_same (λ p, length (NodeIsUpChan p))) by done.
    pose proof (sum_insert (λ p, Nat.b2n (asked p)) k r.1 (procs s) nodes (positions_NoDup _ _) Hk) as H. cbn beta in H. rewrite Ha in H. change (asked r.1) with true in H. cbn [Nat.b2n] in H. lia.
  - intros c. cbn [set_proc procs]. destruct (decide (k = c)) as [<-|Hd]; [rewrite fn_lookup_insert|rewrite fn_lookup_insert_ne by done; apply Hok].
    split; try done; cbn [r FuncPC fst PrepareCountChan CountChan waiting counted asked running Count set_chans SetTimeout Replies held].
    + intros Hz. destruct (H5 Hz) as (Hw & Hf & Hl). rewrite decide_True by done. split; [done|]. split; [apply Forall_app; by split; [|constructor]|].
      rewrite length_app. rewrite Ha, Hc in Hl. rewrite Hc. cbn in *. lia.
    + intros Hz. rewrite decide_False by done. by apply H6.
    + intros c v Hin. apply H7. revert Hin. unfold held, r, FuncPC. cbn [fst waiting CountChan set_chans SetTimeout].
      destruct (decide _); [|done]. by rewrite concat_app, app_nil_r.
Qed.

(** When a node has a batch, it is not counted yet, and the batch has one count
    of every child. *)
Lemma batch_facts s k cc q : ok s → CountChan (procs s k) = cc :: q → running (procs s k) = true →
  k ∈ nodes ∧ counted (procs s k) = false ∧ asked (procs s k) = true ∧
  (∀ c, c ∈ nodes → c ≠ [] → tail c = k → sum_list_with (from c) cc = 1%nat) ∧
  sum_list_with (λ x, size_at x.1) cc = sum_list_with (λ i, size_at (i :: k)) (seq 0 (children k)).
Proof.
  intros Hok E Hr. pose proof (ok_node _ Hok k) as [H1 H2 H3 H4 H5 H6 H7 H8].
  assert (counted (procs s k) = false) as Hc.
  { destruct (decide (k = [])) as [Hk|Hk]; [destruct (H4 Hk) as (_ & _ & Hx); rewrite Hr in Hx; apply Hx|].
    rewrite (H3 Hk) in Hr. by apply negb_true_iff in Hr. }
  assert (∀ x, x ∈ cc → x ∈ held (procs s k)) as Hin.
  { intros x Hx. unfold held. rewrite E. cbn. rewrite !elem_of_app. auto. }
  assert (∀ c, c ∈ nodes → c ≠ [] → tail c = k → sum_list_with (from c) cc ≤ Nat.b2n (counted (procs s c)))%nat as Hle.
  { intros c Hcn Hcr Ht. rewrite <-(ok_counts _ Hok c Hcn Hcr). unfold counts, held. rewrite Ht, E. cbn. rewrite !sum_list_with_app. lia. }
  assert (∀ x, x ∈ cc → ∃ i, (i < children k)%nat ∧ x.1 = i :: k) as Hch.
  { intros [c v] Hx. destruct (H7 c v (Hin _ Hx)) as (Hcn & Hcr & Ht & _). destruct c as [|i c]; [done|]. cbn in Ht. subst c.
    exists i. by rewrite child_node. }
  assert (length cc = children k) as Hl.
  { destruct (decide (children k = 0%nat)) as [Hz|Hz].
    - destruct (H5 Hz) as (_ & Hf & _). rewrite E in Hf. apply Forall_cons in Hf as [-> _]. by rewrite Hz.
    - destruct (H6 Hz) as (_ & Hf). rewrite E in Hf. by apply Forall_cons in Hf as [? _]. }
  assert (∀ i, (i < children k)%nat → sum_list_with (from (i :: k)) cc = 1%nat) as Hone.
  { intros i Hi. apply (sum_all_one (λ i, sum_list_with (from (i :: k)) cc) (seq 0 (children k))); [|..|apply elem_of_seq; lia].
    - intros j Hj%elem_of_seq. etrans; [apply Hle; [apply child_node; lia|done..]|]. destruct (counted (procs s (j :: k))); cbn; lia.
    - rewrite length_seq, (sum_ext _ (λ i, sum_list_with (from (i :: k)) cc * 1)%nat) by (intros; lia).
      rewrite <-(sum_by_child k (children k) cc (λ _, 1%nat) Hch), <-Hl. clear. induction cc as [|x l IH]; [done|]. cbn. by rewrite IH. }
  assert (∀ c, c ∈ nodes → c ≠ [] → tail c = k → sum_list_with (from c) cc = 1%nat) as Hone'.
  { intros [|i c] Hcn Hcr Ht; [done|]. cbn in Ht. subst c. apply Hone. by apply child_node. }
  assert (asked (procs s k) = true) as Ha.
  { destruct (decide (children k = 0%nat)) as [Hz|Hz].
    - destruct (H5 Hz) as (_ & _ & Hx). rewrite E in Hx. cbn in Hx. destruct (asked _); [done|cbn in Hx; lia].
    - assert (0%nat :: k ∈ nodes) as Hcn by (apply child_node; lia). pose proof (Hle _ Hcn ltac:(done) eq_refl) as Hx.
      rewrite (Hone' _ Hcn) in Hx by done. destruct (counted (procs s (0%nat :: k))) eqn:Ec; [|cbn in Hx; lia].
      pose proof (n_counted _ _ (ok_node _ Hok (0%nat :: k)) Ec) as Ea. pose proof (ok_preps _ Hok _ Hcn ltac:(done)) as Hp.
      unfold preps in Hp. rewrite Ea in Hp. cbn in Hp. destruct (asked (procs s k)); [done|cbn in Hp; lia]. }
  split. { destruct (decide (k ∈ nodes)) as [|Hn]; [done|]. destruct (H1 Hn) as (_ & _ & Hx). congruence. }
  do 3 (split; [done|]). rewrite (sum_by_child k (children k) cc size_at Hch). apply sum_ext. intros i Hi%elem_of_seq. rewrite Hone by lia. lia.
Qed.

Lemma batch_count s k cc q : ok s → CountChan (procs s k) = cc :: q → running (procs s k) = true →
  foldl (λ count c, count + c.2) 1 cc = Z.of_nat (size_at k).
Proof.
  intros Hok E Hr. destruct (batch_facts s k cc q Hok E Hr) as (Hk & _ & _ & _ & Hs). pose proof (n_held _ _ (ok_node _ Hok k)) as Hh.
  rewrite size_at_children by done. rewrite <-Hs.
  assert (∀ z, foldl (λ count c, count + c.2) z cc = z + Z.of_nat (sum_list_with (λ x, size_at x.1) cc)) as ->; [|lia].
  assert (∀ x, x ∈ cc → x.2 = Z.of_nat (size_at x.1)) as Hv.
  { intros [c v] Hx. apply (Hh c v). unfold held. rewrite E. cbn. rewrite !elem_of_app. auto. }
  clear - Hv. induction cc as [|x cc IH]; intros z; cbn; [lia|]. rewrite IH by (intros; apply Hv; by right). rewrite (Hv x) by left. lia.
Qed.

Lemma counts_ok s k cc q : ok s → CountChan (procs s k) = cc :: q → running (procs s k) = true →
  ok (set_proc s k (FuncC k (set_chans (procs s k) (PrepareCountChan (procs s k)) q (NodeIsUpChan (procs s k)) (waiting (procs s k))) cc)).
Proof.
  intros Hok E Hr. destruct (batch_facts s k cc q Hok E Hr) as (Hk & Hc & Ha & Hone & _). pose proof (batch_count s k cc q Hok E Hr) as Hcount.
  set (r := FuncC _ _ _).
  assert (r.2 = if decide (k = []) then [] else [(k, tail k, CountUp (Z.of_nat (size_at k)))]) as Hes.
  { unfold r, FuncC, IsRoot. cbn [snd]. rewrite Hcount. by case_bool_decide; case_decide. }
  assert (∀ f, sum_list_with f (held (procs s k)) = sum_list_with f cc + sum_list_with f (held r.1))%nat as Hh.
  { intros f. unfold held. rewrite E. cbn. rewrite !sum_list_with_app. cbn. rewrite ?sum_list_with_app. lia. }
  pose proof (ok_node _ Hok k) as [H1 H2 H3 H4 H5 H6 H7 H8]. split.
  - intros e [He|He]%elem_sent_set; [by apply (ok_sent _ Hok)|]. rewrite Hes in He. case_decide; [by apply elem_of_nil in He|].
    apply list_elem_of_singleton in He as ->. done.
  - intros c Hcn Hcr. unfold preps. rewrite sum_sent_set, Hes. cbn [set_proc procs]. rewrite !(insert_same asked) by done.
    rewrite (insert_same (λ p, length (PrepareCountChan p))) by done. rewrite <-(ok_preps _ Hok c Hcn Hcr). unfold preps.
    destruct (decide (k = [])); cbn; lia.
  - intros c Hcn Hcr. unfold counts. rewrite sum_sent_set, Hes. cbn [set_proc procs].
    pose proof (ok_counts _ Hok c Hcn Hcr) as Hp. unfold counts in Hp. destruct (decide (k = c)) as [<-|Hkc].
    + rewrite fn_lookup_insert, fn_lookup_insert_ne by (intros Hx; by apply (tail_ne k)). rewrite decide_False by done.
      cbn [sum_list_with is_count]. rewrite decide_True by done. cbn [counted r FuncC fst]. rewrite Hc in Hp. cbn in Hp |- *. lia.
    + rewrite (fn_lookup_insert_ne _ k c) by done.
      assert (sum_list_with (is_count c) (if decide (k = []) then [] else [(k, tail k, CountUp (Z.of_nat (size_at k)))]) = 0%nat) as ->.
      { case_decide; [done|]. cbn. by rewrite decide_False. }
      destruct (decide (k = tail c)) as [Hkt|Hkt]; [|rewrite fn_lookup_insert_ne by done; lia].
      rewrite <-Hkt in *. rewrite fn_lookup_insert. cbn [counted r FuncC fst]. fold r. rewrite Hh, (Hone c), Hc in Hp by done. cbn in Hp |- *. unfold r in Hp. lia.
  - pose proof (ok_ups _ Hok) as Hu. unfold ups in *. rewrite sum_sent_set, Hes. cbn [set_proc procs].
    rewrite (sum_insert_same (λ p, length (NodeIsUpChan p))), (sum_insert_same (λ p, Nat.b2n (asked p))), (insert_same Replies) by done.
    destruct (decide (k = [])); cbn; lia.
  - intros c. cbn [set_proc procs]. destruct (decide (k = c)) as [<-|Hd]; [rewrite fn_lookup_insert|rewrite fn_lookup_insert_ne by done; apply Hok].
    split; try done.
    + intros ->. destruct (H4 eq_refl) as (? & _ & Hx). rewrite Hr in Hx. destruct Hx as [_ Hx]. split; [done|]. split; [done|].
      unfold r, FuncC. cbn [fst running counted Count set_chans IsRoot]. rewrite Hcount, Hx. done.
    + intros Hz. destruct (H5 Hz) as (Hw & Hf & Hl). rewrite E, Hc, Ha in Hl. rewrite E in Hf. apply Forall_cons in Hf as [_ Hf].
      split; [done|]. split; [done|]. unfold r. cbn [fst FuncC CountChan set_chans counted asked]. rewrite Ha. cbn in *. lia.
    + intros Hz. destruct (H6 Hz) as (Hw & Hf). rewrite E in Hf. apply Forall_cons in Hf as [_ Hf]. done.
    + intros c v Hin. apply H7. revert Hin. unfold held. rewrite E. cbn. rewrite !elem_of_app. tauto.
Qed.

Lemma up_ok s k src q : ok s → NodeIsUpChan (procs s k) = src :: q → running (procs s k) = true →
  ok (set_proc s k (node_is_up k (set_chans (procs s k) (PrepareCountChan (procs s k)) (CountChan (procs s k)) q (waiting (procs s k))))).
Proof.
  intros Hok E Hr. pose proof (ok_node _ Hok k) as [H1 H2 H3 H4 H5 H6 H7 H8].
  assert (k ∈ nodes) as Hk. { destruct (decide (k ∈ nodes)) as [|Hn]; [done|]. destruct (H1 Hn) as (_ & E' & _). congruence. }
  set (r := node_is_up _ _).
  assert (r.2 = if decide (k = []) then [] else [(k, tail k, NodeIsUp)]) as Hes by (unfold r, node_is_up, IsRoot; case_bool_decide; by case_decide).
  assert (PrepareCountChan r.1 = PrepareCountChan (procs s k) ∧ CountChan r.1 = CountChan (procs s k) ∧ NodeIsUpChan r.1 = q ∧
    waiting r.1 = waiting (procs s k) ∧ running r.1 = running (procs s k) ∧ asked r.1 = asked (procs s k) ∧
    counted r.1 = counted (procs s k) ∧ Count r.1 = Count (procs s k) ∧
    Replies r.1 = Replies (procs s k) + if decide (k = []) then 1 else 0) as (R1 & R2 & R3 & R4 & R5 & R6 & R7 & R8 & R9).
  { unfold r, node_is_up, IsRoot. case_bool_decide; case_decide; try done; cbn; split_and!; done || lia. }
  assert (held r.1 = held (procs s k)) as R10 by (unfold held; by rewrite R2, R4). split.
  - intros e [He|He]%elem_sent_set; [by apply (ok_sent _ Hok)|]. rewrite Hes in He. case_decide; [by apply elem_of_nil in He|].
    apply list_elem_of_singleton in He as ->. done.
  - intros c Hcn Hcr. unfold preps. rewrite sum_sent_set, Hes. cbn [set_proc procs]. rewrite !(insert_same asked) by done.
    rewrite (insert_same PrepareCountChan) by done. rewrite <-(ok_preps _ Hok c Hcn Hcr). unfold preps. destruct (decide (k = [])); cbn; lia.
  - intros c Hcn Hcr. unfold counts. rewrite sum_sent_set, Hes. cbn [set_proc procs]. rewrite !(insert_same counted) by done.
    rewrite (insert_same held) by done. rewrite <-(ok_counts _ Hok c Hcn Hcr). unfold counts. destruct (decide (k = [])); cbn; lia.
  - pose proof (ok_ups _ Hok) as Hu. unfold ups in *. rewrite sum_sent_set, Hes. cbn [set_proc procs].
    rewrite (sum_insert_same (λ p, Nat.b2n (asked p))) by (by rewrite R6).
    pose proof (sum_insert (λ p, length (NodeIsUpChan p)) k r.1 (procs s) nodes (positions_NoDup _ _) Hk) as H. cbn beta in H. rewrite R3, E in H. cbn [length] in H.
    destruct (decide (k = [])) as [->|Hne]; [rewrite fn_lookup_insert, R9|rewrite fn_lookup_insert_ne by done]; cbn [sum_list_with is_up]; lia.
  - intros c. cbn [set_proc procs]. destruct (decide (k = c)) as [<-|Hd]; [rewrite fn_lookup_insert|rewrite fn_lookup_insert_ne by done; apply Hok].
    split; rewrite ?R1, ?R2, ?R3, ?R4, ?R5, ?R6, ?R7, ?R8, ?R10; try done.
    + intros Hk0. destruct (H4 Hk0) as (? & ? & Hx). rewrite Hr in *. done.
    + rewrite R9. case_decide; lia.
Qed.

Lemma time_out_ok s : ok s → running (procs s []) = true → ok (set_proc s [] (time_out (procs s []), [])).
Proof.
  intros Hok Hr. pose proof (ok_node _ Hok []) as [H1 H2 H3 H4 H5 H6 H7 H8]. set (r := (_, _) : ProtocolCount * list envelope). split.
  - intros e [He|He]%elem_sent_set; [by apply (ok_sent _ Hok)|by apply elem_of_nil in He].
  - intros c Hcn Hcr. unfold preps. rewrite sum_sent_set. cbn [set_proc procs]. rewrite !(insert_same asked) by done.
    rewrite (insert_same PrepareCountChan) by done. rewrite <-(ok_preps _ Hok c Hcn Hcr). unfold preps. cbn. lia.
  - intros c Hcn Hcr. unfold counts. rewrite sum_sent_set. cbn [set_proc procs]. rewrite !(insert_same counted) by done.
    rewrite (insert_same held) by done. rewrite <-(ok_counts _ Hok c Hcn Hcr). unfold counts. cbn. lia.
  - pose proof (ok_ups _ Hok) as Hu. unfold ups in *. rewrite sum_sent_set. cbn [set_proc procs].
    rewrite (sum_insert_same (λ p, Nat.b2n (asked p))), (sum_insert_same (λ p, length (NodeIsUpChan p))), (insert_same Replies) by done. cbn. lia.
  - intros c. cbn [set_proc procs]. destruct (decide ([] = c)) as [<-|Hd]; [rewrite fn_lookup_insert|rewrite fn_lookup_insert_ne by done; apply Hok].
    split; try done. intros _. destruct (H4 eq_refl) as (? & ? & Hx). rewrite Hr in Hx. destruct Hx as [Hc Hx].
    split; [done|]. split; [done|]. cbn. by rewrite Hc, Hx.
Qed.

Lemma perform_ok c s s' : ok s → perform c s = Some s' → ok s'.
Proof.
  intros Hok. destruct c as [n|n|k|k|k|]; cbn [perform].
  - destruct (net s !! n) as [[[src dst] m]|] eqn:E; [|done]. destruct (running (procs s dst)) eqn:Er; intros [= <-]; [by apply deliver_ok|].
    apply (sent_moved s); [done| |done]. unfold sent. cbn. rewrite (delete_Permutation (net s) n _ E) at 2. by rewrite <-Permutation_middle.
  - destruct (net s !! n) as [e|] eqn:E; [|done]. intros [= <-].
    apply (sent_moved s); [done| |done]. unfold sent. cbn. rewrite (delete_Permutation (net s) n _ E) at 2. by rewrite <-Permutation_middle.
  - destruct (PrepareCountChan _) as [|t q] eqn:E; [done|]. destruct (running _) eqn:Er; [|done]. intros [= <-]. by apply (prepare_ok s k t).
  - destruct (CountChan _) as [|cc q] eqn:E; [done|]. destruct (running _) eqn:Er; [|done]. intros [= <-]. by apply (counts_ok s k cc).
  - destruct (NodeIsUpChan _) as [|src q] eqn:E; [done|]. destruct (running _) eqn:Er; [|done]. intros [= <-]. by apply (up_ok s k src).
  - destruct (running _) eqn:Er; [|done]. intros [= <-]. by apply time_out_ok.
Qed.

Lemma Start_ok t : ok (Start t).
Proof.
  unfold Start. set (p0 := SetTimeout t NewCount). set (r := FuncPC [] p0).
  assert (r.2 = (λ i, ([], [i], PrepareCount t)) <$> seq 0 (children [])) as Hes by done. destruct r as [p es] eqn:Er.
  assert (p = (FuncPC [] p0).1) as -> by (by fold r; rewrite Er). cbn [snd] in Hes. subst es. clear Er r.
  assert (∀ c, sum_list_with (λ k : path, Nat.b2n (asked NewCount)) c = 0%nat) as Hz by (induction c; done).
  assert (∀ c, sum_list_with (λ k : path, length (NodeIsUpChan NewCount)) c = 0%nat) as Hz' by (induction c; done).
  split.
  - intros e. unfold sent. cbn [net lost]. rewrite app_nil_r. intros (i & -> & Hi%elem_of_seq)%list_elem_of_fmap. cbn.
    split; [apply child_node; lia|done].
  - intros c Hcn Hcr. unfold preps, sent. cbn [net lost procs]. rewrite app_nil_r, (asks_once [] t c).
    rewrite (insert_same PrepareCountChan) by done. rewrite (fn_lookup_insert_ne _ [] c) by done. cbn [NewCount PrepareCountChan asked length Nat.b2n].
    destruct (decide ([] = tail c)) as [Ht|Ht].
    + rewrite <-Ht, fn_lookup_insert, decide_True; [done|]. split_and!; [done|done|]. destruct c as [|i c]; [done|]. cbn in Ht. subst c. by apply child_node.
    + rewrite fn_lookup_insert_ne, decide_False; [done| |done]. intros (Hx & _). congruence.
  - intros c Hcn Hcr. unfold counts, sent. cbn [net lost procs]. rewrite app_nil_r, asks_none by done. rewrite !(insert_same counted) by done.
    assert (∀ f, sum_list_with f (held (<[[] := (FuncPC [] p0).1]> (λ _ : path, NewCount) (tail c))) = 0%nat) as ->; [|done].
    intros f. destruct (decide ([] = tail c)) as [<-|Ht]; [|by rewrite fn_lookup_insert_ne]. rewrite fn_lookup_insert. unfold held. cbn.
    by destruct (decide _).
  - unfold ups, sent. cbn [net lost procs]. rewrite app_nil_r, asks_none by done.
    rewrite (sum_insert_same (λ p, length (NodeIsUpChan p))), Hz', (insert_same Replies) by done.
    pose proof (sum_insert (λ p, Nat.b2n (asked p)) [] (FuncPC [] p0).1 (λ _, NewCount) nodes (positions_NoDup _ _) (root_node _)) as H. cbn beta in H.
    rewrite Hz in H. cbn in H |- *. lia.
  - intros c. cbn [procs]. destruct (decide ([] = c)) as [<-|Hd].
    + rewrite fn_lookup_insert. split; try done; cbn.
      * intros H. by destruct (H (root_node _)).
      * intros Hc. rewrite decide_True by done. split_and!; [done|by repeat constructor|done].
      * intros Hc. rewrite decide_False by done. split; [lia|done].
      * intros c v. unfold held. cbn. by destruct (decide _); intros ?%elem_of_nil.
    + rewrite fn_lookup_insert_ne by done. split; try done; cbn.
      * intros Hc. split; [lia|done].
      * intros c' v ?%elem_of_nil. done.
Qed.



(** *** Runs *)
Definition play (cs : list choice) (s : State) : option State := foldl (λ o c, o ≫= perform c) (Some s) cs.

Lemma play_snoc cs c s s' : play (cs ++ [c]) s = Some s' → ∃ s1, play cs s = Some s1 ∧ perform c s1 = Some s'.
Proof. unfold play. rewrite foldl_app. cbn. by intros (s1 & H1 & H2)%bind_Some; eauto. Qed.













(** *** Runs without losses and timeouts *)
Record quiet (s : State) : Prop := {
  q_ok : ok s;
  q_lost : ∀ e, e ∈ lost s → is_up e = 1%nat;
  q_running : ∀ k, running (procs s k) = negb (counted (procs s k));
}.

(** What is on its way to a node that has ended is a [NodeIsUp]. *)
Lemma late_is_up s n src dst m : quiet s → net s !! n = Some (src, dst, m) → running (procs s dst) = false → is_up (src, dst, m) = 1%nat.
Proof.
  intros [Hok _ Hq] Hn Hr. assert ((src, dst, m) ∈ sent s) as Hin by (apply elem_of_app; left; by eapply list_elem_of_lookup_2).
  pose proof (ok_sent _ Hok _ Hin) as Hg. rewrite Hq in Hr. apply negb_false_iff in Hr. destruct m as [t| |v]; [|done|]; cbn [good_msg] in Hg.
  - destruct Hg as (Hd & Hne & _). pose proof (ok_preps _ Hok dst Hd Hne) as Hp. unfold preps in Hp.
    pose proof (sum_list_with_in _ (is_prep dst) _ Hin) as Hle. cbn in Hle. rewrite decide_True in Hle by done.
    rewrite (n_counted _ _ (ok_node _ Hok dst) Hr) in Hp. destruct (asked (procs s (tail dst))); cbn in Hp; lia.
  - destruct Hg as (Hs & Hne & -> & _). pose proof (ok_counts _ Hok src Hs Hne) as Hp. unfold counts in Hp.
    pose proof (sum_list_with_in _ (is_count src) _ Hin) as Hle. cbn in Hle. rewrite decide_True in Hle by done.
    rewrite Hr in Hp. destruct (counted (procs s src)); cbn in Hp; lia.
Qed.

Lemma perform_quiet c s s' : quiet s → reliable c = true → perform c s = Some s' → quiet s'.
Proof.
  intros Hq Hc Hp. pose proof (perform_ok c s s' (q_ok _ Hq) Hp) as Hok. pose proof Hq as [Hok0 Hl Hr].
  assert (∀ k p (g : path → ProtocolCount), (∀ k, running (g k) = negb (counted (g k))) → running p = negb (counted p) →
    ∀ c, running (<[k := p]> g c) = negb (counted (<[k := p]> g c))) as Hins.
  { intros k p g H1 H2 c'. destruct (decide (k = c')) as [<-|Hne]; [by rewrite fn_lookup_insert|by rewrite fn_lookup_insert_ne]. }
  destruct c as [n|n|k|k|k|]; cbn [perform] in Hp; try done.
  - destruct (net s !! n) as [[[src dst] m]|] eqn:E; [|done]. destruct (running (procs s dst)) eqn:Er; injection Hp as <-; split; try done; cbn [procs lost].
    + apply Hins; [done|]. specialize (Hr dst). destruct m; cbn [receive]; try done. by destruct (decide _).
    + intros e [->|He]%elem_of_cons; [|by apply Hl]. by apply (late_is_up s n).
  - destruct (PrepareCountChan _) as [|t q] eqn:E; [done|]. destruct (running _) eqn:Er; [|done]. injection Hp as <-. split; [done|done|].
    cbn [set_proc procs]. apply Hins; [done|]. cbn. by rewrite <-Hr.
  - destruct (CountChan _) as [|cc q] eqn:E; [done|]. destruct (running _) eqn:Er; [|done]. injection Hp as <-. split; [done|done|].
    cbn [set_proc procs]. by apply Hins.
  - destruct (NodeIsUpChan _) as [|src q] eqn:E; [done|]. destruct (running _) eqn:Er; [|done]. injection Hp as <-. split; [done|done|].
    cbn [set_proc procs]. apply Hins; [done|]. unfold node_is_up. destruct (IsRoot k); cbn; by rewrite <-Hr.
Qed.

Lemma Start_quiet t : quiet (Start t).
Proof.
  split; [apply Start_ok|by intros e ?%elem_of_nil|]. intros k. cbn [Start FuncPC procs].
  destruct (decide ([] = k)) as [<-|Hne]; [by rewrite fn_lookup_insert|by rewrite fn_lookup_insert_ne].
Qed.

Lemma reliable_quiet t s : rtc rstep (Start t) s → quiet s.
Proof.
  generalize (Start_quiet t). generalize (Start t) as s0. intros s0 H Hr. induction Hr as [|s0 s1 s2 (c & Hc & Hp) _ IH]; [done|].
  apply IH. by apply (perform_quiet c s0).
Qed.

(** When nothing is left to do, the root has counted. *)
Lemma stuck_empty s : quiet s → (∀ s', ¬ rstep s s') → net s = [] ∧
  ∀ k, counted (procs s k) = false → PrepareCountChan (procs s k) = [] ∧ CountChan (procs s k) = [].
Proof.
  intros Hq Hs. split.
  - destruct (net s) as [|[[src dst] m] l] eqn:E; [done|]. exfalso.
    eapply Hs. exists (Deliver 0). split; [done|]. cbn [perform]. rewrite E. by cbn.
  - intros k Hk. assert (running (procs s k) = true) as Hr by (by rewrite (q_running _ Hq), Hk). split.
    + destruct (PrepareCountChan (procs s k)) as [|t q] eqn:E; [done|]. exfalso.
      eapply Hs. exists (Prepare k). split; [done|]. cbn [perform]. by rewrite E, Hr.
    + destruct (CountChan (procs s k)) as [|t q] eqn:E; [done|]. exfalso.
      eapply Hs. exists (Counts k). split; [done|]. cbn [perform]. by rewrite E, Hr.
Qed.

Lemma sum_lost s (f : envelope → nat) : quiet s → (∀ e, is_up e = 1%nat → f e = 0%nat) → sum_list_with f (lost s) = 0%nat.
Proof.
  intros Hq Hf. pose proof (q_lost _ Hq) as H. induction (lost s) as [|e l IH]; [done|]. cbn.
  rewrite Hf, IH; [done| |apply H; by left]. intros; apply H; by right.
Qed.

Lemma stuck_asked s : quiet s → (∀ s', ¬ rstep s s') → ∀ k, k ∈ nodes → asked (procs s k) = true.
Proof.
  intros Hq Hs. destruct (stuck_empty s Hq Hs) as [He Hc]. pose proof (q_ok _ Hq) as Hok.
  induction k as [|i k IH]; intros Hk; [apply (n_root _ _ (ok_node _ Hok []) eq_refl)|].
  pose proof (IH (parent_node _ _ _ Hk)) as Ha. pose proof (ok_preps _ Hok (i :: k) Hk ltac:(done)) as Hp. unfold preps, sent in Hp. cbn [tail] in Hp.
  rewrite He, Ha in Hp. cbn [app] in Hp. rewrite (sum_lost s) in Hp; [|done|by intros [[? ?] [| |]]].
  destruct (counted (procs s (i :: k))) eqn:Ec; [by apply (n_counted _ _ (ok_node _ Hok (i :: k)))|].
  destruct (Hc _ Ec) as [Hz _]. rewrite Hz in Hp. destruct (asked (procs s (i :: k))); done.
Qed.

Lemma stuck_counted s : quiet s → (∀ s', ¬ rstep s s') → ∀ n k, node_at root k = Some n → counted (procs s k) = true.
Proof.
  intros Hq Hs. destruct (stuck_empty s Hq Hs) as [He Hc]. pose proof (q_ok _ Hq) as Hok.
  induction n as [nid si x cs agg IH] using TreeNode_ind. intros k Hn.
  assert (k ∈ nodes) as Hk by (apply elem_of_nodes; eauto). destruct (counted (procs s k)) eqn:Ec; [done|]. exfalso.
  destruct (Hc k Ec) as [_ Hb]. pose proof (stuck_asked s Hq Hs k Hk) as Ha. pose proof (ok_node _ Hok k) as Hnode.
  assert (children k = length cs) as Hch by (unfold Positions.children; by rewrite Hn).
  destruct (decide (children k = 0%nat)) as [Hz|Hz].
  { destruct (n_leaf _ _ Hnode Hz) as (_ & _ & H). rewrite Hb, Ec, Ha in H. done. }
  destruct (n_inner _ _ Hnode Hz) as [Hw _].
  assert (∀ i, (i < children k)%nat → sum_list_with (from (i :: k)) (waiting (procs s k)) = 1%nat) as Hone.
  { intros i Hi. destruct (lookup_lt_is_Some_2 cs i) as [c Hcs]; [lia|]. rewrite Forall_forall in IH.
    assert (counted (procs s (i :: k)) = true) as Hcc. { apply (IH c (list_elem_of_lookup_2 _ _ _ Hcs)). cbn. rewrite Hn. done. }
    pose proof (ok_counts _ Hok (i :: k) ltac:(by apply child_node) ltac:(done)) as Hp. unfold counts, sent, held in Hp. cbn [tail] in Hp.
    rewrite He, Hcc, Ec, Hb in Hp. cbn [app concat] in Hp. rewrite app_nil_r, (sum_lost s) in Hp; [|done|by intros [[? ?] [| |]]]. cbn in Hp. lia. }
  assert (∀ y, y ∈ waiting (procs s k) → ∃ i, (i < children k)%nat ∧ y.1 = i :: k) as Hby.
  { intros [c v] Hy. destruct (n_held _ _ Hnode c v) as (Hcn & Hcr & Ht & _); [apply elem_of_app; by left|].
    destruct c as [|i c]; [done|]. cbn in Ht. subst c. exists i. by rewrite child_node. }
  pose proof (sum_by_child k (children k) _ (λ _, 1%nat) Hby) as Hsum.
  rewrite (sum_ext (λ i, _ * 1)%nat (λ _, 1%nat)) in Hsum by (intros i Hi%elem_of_seq; rewrite Hone; lia).
  assert (∀ {A} (l : list A), sum_list_with (λ _, 1%nat) l = length l) as Hlen by (intros A l; induction l as [|? ? IHl]; cbn; [done|by rewrite IHl]).
  rewrite !Hlen, length_seq in Hsum. lia.
Qed.

(** *** Termination: nodes that have not asked, nodes that have not counted, and
    how far messages have to go, in this order *)
Definition weight (e : envelope) : nat := match e with (_, dst, NodeIsUp) => 2 * length dst + 2 | _ => 1 end%nat.
Definition to_ask (s : State) : nat := sum_list_with (λ k, Nat.b2n (negb (asked (procs s k)))) nodes.
Definition to_count (s : State) : nat := sum_list_with (λ k, Nat.b2n (negb (counted (procs s k)))) nodes.
Definition to_go (s : State) : nat :=
  (sum_list_with weight (net s) + sum_list_with (λ k, (2 * length k + 1) * length (NodeIsUpChan (procs s k))) nodes)%nat.

Definition decreases (s' s : State) : Prop :=
  (to_ask s' < to_ask s ∨ to_ask s' = to_ask s ∧ (to_count s' < to_count s ∨ to_count s' = to_count s ∧ to_go s' < to_go s))%nat.

Lemma sum_insert_lt (f : ProtocolCount → bool) k p (g : path → ProtocolCount) : k ∈ nodes → f (g k) = false → f p = true →
  (sum_list_with (λ c, Nat.b2n (negb (f (<[k := p]> g c)))) nodes < sum_list_with (λ c, Nat.b2n (negb (f (g c)))) nodes)%nat.
Proof.
  intros Hk H1 H2. pose proof (sum_insert (λ p, Nat.b2n (negb (f p))) k p g nodes (positions_NoDup _ _) Hk) as H.
  cbn beta in H. rewrite H1, H2 in H. cbn in H. lia.
Qed.

Lemma sum_net_set s k r : sum_list_with weight (net (set_proc s k r)) = (sum_list_with weight (net s) + sum_list_with weight r.2)%nat.
Proof. cbn [set_proc net]. apply sum_list_with_app. Qed.

Lemma deliver_decreases s n src dst m : ok s → net s !! n = Some (src, dst, m) →
  decreases {| procs := <[dst := receive dst src m (procs s dst)]> (procs s); net := delete n (net s); lost := lost s |} s.
Proof.
  intros Hok E. assert (good_msg (src, dst, m)) as Hg by (apply (ok_sent _ Hok), elem_of_app; left; by eapply list_elem_of_lookup_2).
  right. unfold to_ask, to_count, to_go. cbn [procs net].
  split; [apply (sum_insert_same (λ p, Nat.b2n (negb (asked p)))); destruct m; try done; cbn [receive]; by destruct (decide _)|].
  right. split; [apply (sum_insert_same (λ p, Nat.b2n (negb (counted p)))); destruct m; try done; cbn [receive]; by destruct (decide _)|].
  pose proof (sum_delete weight n _ _ E) as Hw. destruct m as [t| |v].
  - rewrite (sum_ext (λ k, _ * length (NodeIsUpChan (<[_ := _]> _ k)))%nat (λ k, (2 * length k + 1) * length (NodeIsUpChan (procs s k)))%nat)
      by (intros k _; by rewrite (insert_same NodeIsUpChan)). cbn [weight] in Hw. lia.
  - cbn [good_msg] in Hg. destruct Hg as (Hk%tail_node & _ & ->).
    pose proof (sum_insert_at (λ k p, (2 * length k + 1) * length (NodeIsUpChan p))%nat (tail src) (receive (tail src) src NodeIsUp (procs s (tail src))) (procs s) nodes (positions_NoDup _ _) Hk) as H.
    cbn beta in H. cbn [weight] in Hw.
    assert (length (NodeIsUpChan (receive (tail src) src NodeIsUp (procs s (tail src)))) = length (NodeIsUpChan (procs s (tail src))) + 1)%nat as Hl by apply length_app.
    rewrite Hl in H. lia.
  - rewrite (sum_ext (λ k, _ * length (NodeIsUpChan (<[_ := _]> _ k)))%nat (λ k, (2 * length k + 1) * length (NodeIsUpChan (procs s k)))%nat)
      by (intros k _; rewrite (insert_same NodeIsUpChan); [done|]; cbn [receive]; by destruct (decide _)). cbn [weight] in Hw. lia.
Qed.

Lemma up_decreases s k src q : ok s → NodeIsUpChan (procs s k) = src :: q →
  decreases (set_proc s k (node_is_up k (set_chans (procs s k) (PrepareCountChan (procs s k)) (CountChan (procs s k)) q (waiting (procs s k))))) s.
Proof.
  intros Hok E. set (r := node_is_up _ _).
  assert (k ∈ nodes) as Hk. { destruct (decide (k ∈ nodes)) as [|Hn]; [done|]. destruct (n_outside _ _ (ok_node _ Hok k) Hn) as (_ & E' & _). congruence. }
  assert (asked r.1 = asked (procs s k) ∧ counted r.1 = counted (procs s k) ∧ NodeIsUpChan r.1 = q) as (R1 & R2 & R3)
    by (unfold r, node_is_up; by destruct (IsRoot k)).
  right. unfold to_ask, to_count, to_go. rewrite sum_net_set. cbn [set_proc procs].
  split; [apply (sum_insert_same (λ p, Nat.b2n (negb (asked p)))); by rewrite R1|].
  right. split; [apply (sum_insert_same (λ p, Nat.b2n (negb (counted p)))); by rewrite R2|].
  pose proof (sum_insert_at (λ k p, (2 * length k + 1) * length (NodeIsUpChan p))%nat k r.1 (procs s) nodes (positions_NoDup _ _) Hk) as H.
  cbn beta in H. rewrite R3, E in H. cbn [length] in H.
  assert (sum_list_with weight r.2 ≤ 2 * length k)%nat; [|lia]. unfold r, node_is_up, IsRoot. destruct k as [|i k]; cbn; lia.
Qed.

Lemma rstep_decreases s s' : quiet s → rstep s s' → decreases s' s.
Proof.
  intros Hq (c & Hc & Hp). pose proof (q_ok _ Hq) as Hok. destruct c as [n|n|k|k|k|]; cbn [perform] in Hp; try done.
  - destruct (net s !! n) as [[[src dst] m]|] eqn:E; [|done]. destruct (running (procs s dst)) eqn:Er; injection Hp as <-.
    + by apply deliver_decreases.
    + right. split; [done|]. right. split; [done|]. unfold to_go. cbn [procs net]. pose proof (sum_delete weight n _ _ E) as Hw.
      assert (0 < weight (src, dst, m))%nat by (destruct m; cbn; lia). lia.
  - destruct (PrepareCountChan _) as [|t q] eqn:E; [done|]. destruct (running _) eqn:Er; [|done]. injection Hp as <-.
    destruct (prepare_facts s k t q Hok E) as (Hk & _ & _ & Ha & _). left. unfold to_ask. cbn [set_proc procs]. by apply sum_insert_lt.
  - destruct (CountChan _) as [|cc q] eqn:E; [done|]. destruct (running _) eqn:Er; [|done]. injection Hp as <-.
    destruct (batch_facts s k cc q Hok E Er) as (Hk & Hcf & Ha & _). right. unfold to_ask, to_count. cbn [set_proc procs].
    split; [by apply (sum_insert_same (λ p, Nat.b2n (negb (asked p))))|]. left. by apply sum_insert_lt.
  - destruct (NodeIsUpChan _) as [|src q] eqn:E; [done|]. destruct (running _) eqn:Er; [|done]. injection Hp as <-. by apply (up_decreases s k src).
Qed.

Lemma quiet_terminates s : quiet s → Acc (flip rstep) s.
Proof.
  remember (to_ask s) as a eqn:Ea. remember (to_count s) as b eqn:Eb. remember (to_go s) as w eqn:Ew. revert b w s Ea Eb Ew.
  induction a as [a IHa] using lt_wf_ind. intros b. induction b as [b IHb] using lt_wf_ind. intros w. induction w as [w IHw] using lt_wf_ind.
  intros s -> -> -> Hq. constructor. intros s' Hs. assert (quiet s') as Hq' by (destruct Hs as (c & Hc & Hp); by apply (perform_quiet c s)).
  destruct (rstep_decreases s s' Hq Hs) as [Ha|[Ha [Hb|[Hb Hw]]]].
  - by eapply IHa.
  - by eapply IHb.
  - by eapply IHw.
Qed.

(** C39: on a network that delivers everything, in whatever order, and before any
    timeout, every run of the count protocol ends, and it ends with the size of
    the tree in the root's channel. *)
Theorem count_completes tree t s : t_Root tree = Some root → rtc rstep (Start t) s →
  Acc (flip rstep) s ∧
  ((∀ s', ¬ rstep s s') → ∃ n, Size tree = Ret n ∧ Count (procs s []) = [n]).
Proof.
  intros Ht Hr. pose proof (reliable_quiet t s Hr) as Hq. split; [by apply quiet_terminates|]. intros Hs.
  exists (Z.of_nat (size root)). split; [by apply Size_preorder|].
  pose proof (stuck_counted s Hq Hs root [] eq_refl) as Hc.
  destruct (n_root _ _ (ok_node _ (q_ok _ Hq) []) eq_refl) as (_ & _ & Hx). by rewrite (q_running _ Hq), Hc in Hx.
Qed.
End counting.
End Counting.

(** ** Examples and witnesses *)
Module CountExample.
Import Trees Positions Counting.
Import ZSuite.

Definition leaf (i : Z) : TreeNode :=
  {| tn_ID := []; tn_ServerIdentity := Some (TreeExample.server i); tn_RosterIndex := i; tn_Children := []; tn_PublicAggregateSubTree := None |}.
Definition top : TreeNode := set_children (leaf 0) [leaf 1; set_children (leaf 2) [leaf 3]].
Definition tree : Tree := {| t_ID := []; t_Roster := None; t_Root := Some top |}.

Abbreviation play := (play top).

Lemma play_rsteps cs : ∀ s s', Forall (λ c, reliable c = true) cs → play cs s = Some s' → rtc (rstep top) s s'.
Proof.
  induction cs as [|c cs IH] using rev_ind; intros s s' Hc H; [by injection H as <-|].
  apply Forall_app in Hc as [Hcs Hc]. apply Forall_cons in Hc as [Hc _]. apply play_snoc in H as (s1 & H1 & H2).
  eapply rtc_r; [by apply IH|by exists c].
Qed.

(** A run of four nodes to its end. *)
Definition full : list choice :=
  [Deliver 0; Prepare [0%nat]; Deliver 1; Up []; Deliver 0; Prepare [1%nat]; Deliver 0; Up []; Deliver 0; Prepare [0%nat; 1%nat];
   Counts [0%nat]; Counts [0%nat; 1%nat]; Deliver 0; Up [1%nat]; Deliver 0; Deliver 0; Counts [1%nat]; Deliver 0; Up []; Deliver 0; Counts []].

Definition after (cs : list choice) : State := default (Start top 1000) (play cs (Start top 1000)).
Definition observe (s : State) : list Z * Z * nat := (Count (procs s []), Replies (procs s []), length (net s)).

(** Everybody is counted; when the last count is late the root, which is up, is
    not in the number. *)
Example count_examples :
  observe (after full) = ([4], 3, 0%nat) ∧
  observe (after (take 20 full ++ [TimedOut])) = ([3], 3, 0%nat).
Proof. split; by_vm. Qed.



Lemma count_completes_witness :
  Count (procs (after full) []) = [4] ∧ Acc (flip (rstep top)) (after full).
Proof.
  split; [by_vm|].
  assert (rtc (rstep top) (Start top 1000) (after full)) as Hr; [|apply (count_completes top tree 1000 (after full) eq_refl Hr)].
  apply (play_rsteps full); [by repeat constructor|]. unfold after. assert (is_Some (play full (Start top 1000))) as [s ->]; [|done].
  apply (bool_decide_unpack _). by vm_compute.
Defined.
End CountExample.
