(* ===== verification/Simul.v ===== *)
(** * Simulations ([imported/onet/simulation.go], [imported/onet/simul])

    [RunConfigs] is the configuration of a run and the file it is read from
    ([simul/platform/platform.go]).  [Builds] is what [simul/build.go] does with it:
    completing the numbers of hosts, their branching and depth, choosing the runs,
    and the table of results.  [Simulations] is [simulation.go]: the roster, the
    keys and the tree of a simulation, the file they are saved in, in bytes, and
    what a machine makes of it. *)
From S2P Require Import Prelude GoStrings Address Wire Suite Tree TreeGen Monitor.
From S2P Require Import Protobuf ProtobufScalars ProtobufRoundtrip NetEncoding TreeCodec.
Import Strings Numbers.
Local Open Scope Z_scope.

(** ** [simul/platform/platform.go] *)
Module RunConfigs.
Section runconfig.
(** [strings.ToLower] and [strings.TrimSpace] of texts that are not ASCII. *)
Context (lower_unicode trim_unicode : bytes → bytes).

Definition is_space (b : byte) : bool := between 9 13 b || bool_decide (b = x20).

Fixpoint trim_left (s : bytes) : bytes :=
  match s with [] => [] | b :: t => if is_space b then trim_left t else s end.

(** [strings.TrimSpace]. *)
Definition TrimSpace (s : bytes) : bytes :=
  if forallb is_ascii s then reverse (trim_left (reverse (trim_left s))) else trim_unicode s.

Abbreviation ToLower := (Addresses.ToLower lower_unicode).

(** [RunConfig]: the map of its fields. *)
Abbreviation RunConfig := (gmap bytes bytes).
Definition NewRunConfig : RunConfig := ∅.

(** [replacer]: quotes are dropped. *)
Definition replacer (s : bytes) : bytes := base.filter (λ b, b ≠ x22 ∧ b ≠ x27) s.

Definition Get (r : RunConfig) (field : bytes) : bytes := replacer (default [] (r !! ToLower field)).
Definition Delete (r : RunConfig) (field : bytes) : RunConfig := base.delete field r.
Definition Put (r : RunConfig) (field value : bytes) : RunConfig := <[ToLower field := value]> r.

(** [GetInt]: a number also comes with the error of a text that is none. *)
Definition GetInt (r : RunConfig) (field : bytes) : Z * bool :=
  let val := Get r field in
  if decide (val = []) then (0, false) else Atoi_full val.

(** [Map]. *)
Definition to_map (r : RunConfig) : gmap bytes bytes := map_imap (λ k _, Some (Get r k)) r.

(** [Clone]: the fields are copied. *)
Definition Clone (r : RunConfig) : RunConfig := r.

(** *** [ReadRunFile]

    The file is the lines that the scanner gives; what the platform takes from
    them by itself is not part of the result. *)
Definition read_setting (rc : RunConfig) (text : bytes) : outcome error RunConfig :=
  match Split text (str "=") with
  | [k; v] => Ret (Put rc (TrimSpace k) (TrimSpace v))
  | _ => Panic "log.Fatal: not properly formatted ( key = value )"
  end.

(** The first part, to the first empty line. *)
Fixpoint read_master (rc : RunConfig) (lines : list bytes) : outcome error (RunConfig * list bytes) :=
  match lines with
  | [] => Ret (rc, [])
  | [] :: lines => Ret (rc, lines)
  | (b :: t) :: lines =>
      if decide (b = x23) then read_master rc lines
      else let! rc := read_setting rc (b :: t) in read_master rc lines
  end.

(** The next line that is not empty, and what is left; the scanner's text is
    empty at the end. *)
Fixpoint skip_empty (lines : list bytes) : bytes * list bytes :=
  match lines with
  | [] => ([], [])
  | [] :: lines => skip_empty lines
  | text :: lines => (text, lines)
  end.

(** One line of the table: a value without a name is out of range. *)
Definition read_row (master : RunConfig) (args : list bytes) (text : bytes) : outcome error RunConfig :=
  ofoldM (λ rc '(i, value),
    let! a := index args (Z.of_nat i) in Ret (Put rc (TrimSpace a) (TrimSpace value)))
    (Clone master) (imap pair (Split text (str ","))).

Definition ReadRunFile (lines : list bytes) : outcome error (list RunConfig) :=
  let! (master, lines) := read_master NewRunConfig lines in
  let '(text, lines) := skip_empty lines in
  let args := Split text (str ",") in
  omapM (read_row master args) lines.

(** *** What is read back of a file that is written *)

(** A name or a value: ASCII, no space around it, none of the separators. *)
Definition plain (s : bytes) : Prop :=
  forallb is_ascii s = true ∧ TrimSpace s = s ∧ x3d ∉ s ∧ x2c ∉ s.

#[global] Instance plain_dec s : Decision (plain s).
Proof. unfold plain. apply _. Defined.

Definition setting (kv : bytes * bytes) : bytes := kv.1 ++ str " = " ++ kv.2.
Definition table_line (l : list bytes) : bytes := Join (str ", ") l.
Definition run_file (ms : list (bytes * bytes)) (names : list bytes) (rows : list (list bytes)) : list bytes :=
  (setting <$> ms) ++ [[]] ++ [table_line names] ++ (table_line <$> rows).

Definition put_all (rc : RunConfig) (l : list (bytes * bytes)) : RunConfig :=
  foldl (λ rc kv, Put rc kv.1 kv.2) rc l.

Lemma trim_left_spaces l s : forallb is_space l = true → trim_left (l ++ s) = trim_left s.
Proof. induction l as [|b l IH]; [done|]. cbn. intros [Hb Hl]%andb_prop. rewrite Hb. auto. Qed.

Lemma trim_left_hd s b t : trim_left s = b :: t → is_space b = false.
Proof. induction s as [|c s IH]; cbn; [done|]. destruct (is_space c) eqn:E; [done|]. by intros [= <- _]. Qed.

Lemma trim_left_suffix s : ∃ l, s = l ++ trim_left s ∧ forallb is_space l = true.
Proof.
  induction s as [|b s (l & Hl & Hs)]; [by exists []|]. cbn. destruct (is_space b) eqn:E; [|by exists []].
  exists (b :: l). cbn. rewrite E, Hs. split; [|done]. by rewrite <-Hl.
Qed.

Lemma forallb_space_ascii l : forallb is_space l = true → forallb is_ascii l = true.
Proof.
  rewrite !forallb_forall. intros H b Hb. specialize (H b Hb). revert H. by destruct b.
Qed.

(** Spaces around a plain text are taken away. *)
Lemma TrimSpace_around l s r : forallb is_space l = true → forallb is_space r = true → plain s → TrimSpace (l ++ s ++ r) = s.
Proof.
  intros Hl Hr (Ha & Ht & _ & _). unfold TrimSpace in Ht |- *. rewrite Ha in Ht.
  rewrite !forallb_app, Ha, (forallb_space_ascii l), (forallb_space_ascii r) by done. cbn [andb].
  rewrite trim_left_spaces by done. destruct s as [|b t].
  { cbn [app]. rewrite <-(app_nil_r r), trim_left_spaces by done. done. }
  assert (is_space b = false) as Hb.
  { destruct (is_space b) eqn:E; [|done]. exfalso. destruct (trim_left_suffix (reverse (trim_left (b :: t)))) as (q & Hq & _).
    apply (f_equal length) in Hq. rewrite length_app, length_reverse in Hq. cbn [trim_left] in Hq. rewrite E in Hq.
    apply (f_equal length) in Ht. rewrite length_reverse in Ht. cbn [trim_left] in Ht. rewrite E in Ht.
    destruct (trim_left_suffix t) as (q' & Hq' & _). apply (f_equal length) in Hq'. rewrite length_app in Hq'. cbn in Ht. lia. }
  cbn [app trim_left] in Ht |- *. rewrite Hb in Ht |- *. change (b :: t ++ r) with ((b :: t) ++ r).
  rewrite reverse_app, trim_left_spaces; [done|]. rewrite forallb_forall in Hr |- *. intros c Hc. apply Hr, list_elem_of_In, elem_of_reverse. by apply list_elem_of_In.
Qed.

Lemma Split_pieces (c : byte) (s1 s2 : bytes) : c ∉ s1 → Split (s1 ++ c :: s2) [c] = s1 :: Split s2 [c].
Proof. intros H. unfold Split. by apply (split_cut [c] c [] s1 s2). Qed.
Lemma Split_whole (c : byte) (s : bytes) : c ∉ s → Split s [c] = [s].
Proof. intros H. unfold Split. by apply (split_none [c] c [] s). Qed.

Lemma plain_space_l s : plain s → TrimSpace (x20 :: s) = s.
Proof. intros H. pose proof (TrimSpace_around [x20] s [] eq_refl eq_refl H) as E. by rewrite app_nil_r in E. Qed.
Lemma plain_space_r s : plain s → TrimSpace (s ++ [x20]) = s.
Proof. intros H. apply (TrimSpace_around [] s [x20] eq_refl eq_refl H). Qed.

Definition good_setting (kv : bytes * bytes) : Prop := plain kv.1 ∧ plain kv.2 ∧ kv.1 ≠ [] ∧ head kv.1 ≠ Some x23.

#[global] Instance good_setting_dec kv : Decision (good_setting kv).
Proof. unfold good_setting. apply _. Defined.

Lemma read_setting_plain rc kv : good_setting kv → read_setting rc (setting kv) = Ret (Put rc kv.1 kv.2).
Proof.
  intros (Hk & Hv & _ & _). unfold read_setting, setting. change (str " = ") with ([x20] ++ [x3d] ++ [x20]).
  cbn [app].
  replace (kv.1 ++ x20 :: x3d :: x20 :: kv.2) with ((kv.1 ++ [x20]) ++ x3d :: x20 :: kv.2) by (by rewrite <-app_assoc).
  change (str "=") with [x3d]. rewrite Split_pieces, Split_whole.
  - by rewrite plain_space_l, plain_space_r.
  - destruct Hv as (_ & _ & Hv & _). by apply not_elem_of_cons.
  - destruct Hk as (_ & _ & Hk & _). apply not_elem_of_app. split; [done|]. by apply not_elem_of_cons; split; [|apply not_elem_of_nil].
Qed.

Lemma read_master_settings ms : Forall good_setting ms → ∀ rc rest,
  read_master rc ((setting <$> ms) ++ [] :: rest) = Ret (put_all rc ms, rest).
Proof.
  induction 1 as [|kv ms Hkv Hms IH]; intros rc rest; [done|]. cbn [fmap list_fmap app].
  destruct (setting kv) as [|b t] eqn:E.
  { unfold setting in E. apply app_nil in E as [E _]. by destruct Hkv as (_ & _ & Hne & _). }
  cbn [read_master]. rewrite decide_False.
  - rewrite <-E, read_setting_plain by done. cbn [obind]. rewrite IH. done.
  - intros ->. destruct Hkv as (_ & _ & Hne & Hh). unfold setting in E. destruct kv.1 as [|c k]; [done|]. injection E as -> _. done.
Qed.

Lemma Split_table l : l ≠ [] → Forall plain l → TrimSpace <$> Split (table_line l) (str ",") = l.
Proof.
  assert (∀ l w a, x2c ∉ w → plain a → Forall plain l →
    ∃ t, Split (w ++ table_line (a :: l)) [x2c] = (w ++ a) :: t ∧ TrimSpace <$> t = l) as H.
  { clear. intros l w a Hw Ha Hl. revert w a Hw Ha. induction Hl as [|b l Hb Hl IH]; intros w a Hw Ha.
    - exists []. split; [|done]. apply Split_whole, not_elem_of_app. split; [done|apply Ha].
    - unfold table_line in *. rewrite Join_cons by done. change (str ", ") with [x2c; x20] at 1. cbn [app].
      rewrite app_assoc, Split_pieces by (apply not_elem_of_app; split; [done|apply Ha]).
      destruct (IH [x20] b) as (t & Ht & Hr); [by apply not_elem_of_cons; split; [|apply not_elem_of_nil]|done|]. cbn [app] in Ht.
      rewrite Ht. exists ((x20 :: b) :: t). split; [done|]. cbn. by rewrite plain_space_l, Hr. }
  intros Hne Hl. destruct l as [|a l]; [done|]. apply Forall_cons in Hl as [Ha Hl].
  destruct (H l [] a ltac:(apply not_elem_of_nil) Ha Hl) as (t & Ht & Hr). cbn [app] in Ht. change (str ",") with [x2c]. rewrite Ht.
  cbn. rewrite Hr. f_equal. apply Ha.
Qed.

Lemma read_row_spec master args text :
  (length (Split text (str ",")) ≤ length args)%nat →
  read_row master args text = Ret (put_all master (zip (TrimSpace <$> args) (TrimSpace <$> Split text (str ",")))).
Proof.
  unfold read_row, Clone. generalize (Split text (str ",")) as ps. intros ps.
  assert (∀ pre args rc, (length ps ≤ length args)%nat →
    ofoldM (λ rc '(i, value), let! a := index (pre ++ args) (Z.of_nat i) in Ret (Put rc (TrimSpace a) (TrimSpace value)))
      rc (imap (λ i, pair (length pre + i)%nat) ps) = Ret (E := error) (put_all rc (zip (TrimSpace <$> args) (TrimSpace <$> ps)))) as H.
  { clear. induction ps as [|p ps IH]; intros pre args rc Hl; [by destruct args|]. destruct args as [|a args]; [cbn in Hl; lia|].
    cbn [imap ofoldM]. rewrite Nat.add_0_r, (index_Ret _ _ a) by (by rewrite list_lookup_middle). cbn [obind].
    specialize (IH (pre ++ [a]) args (Put rc (TrimSpace a) (TrimSpace p)) ltac:(cbn in Hl; lia)).
    rewrite <-app_assoc in IH. cbn [app] in IH. etrans; [|exact IH]. f_equal. apply imap_ext. intros i x _. cbn. f_equal.
    rewrite length_app. cbn. lia. }
  intros Hl. apply (H [] args master Hl).
Qed.

(** A file that is written with settings, names and rows of plain texts is read
    back: each row gives a run of its own with the settings, overlaid with the
    row's values under the names, and names in lower case. *)
Theorem read_run_file_correct ms names rows :
  Forall good_setting ms → Forall plain names → (∃ n, head names = Some n ∧ n ≠ []) →
  Forall (λ row, row ≠ [] ∧ (length row ≤ length names)%nat ∧ Forall plain row) rows →
  ReadRunFile (run_file ms names rows) = Ret ((λ row, put_all (put_all NewRunConfig ms) (zip names row)) <$> rows).
Proof.
  intros Hms Hnames (n & Hn & Hne) Hrows. unfold ReadRunFile, run_file. cbn [app]. rewrite read_master_settings by done. cbn [obind].
  assert (names ≠ []) as Hnn by (by intros ->). assert (skip_empty (table_line names :: (table_line <$> rows)) = (table_line names, table_line <$> rows)) as ->.
  { unfold table_line at 1 3. destruct names as [|a names]; [done|]. injection Hn as ->. destruct names as [|b names]; cbn [Join]; destruct n; done. }
  rewrite (omapM_ret _ (λ text, put_all (put_all NewRunConfig ms) (zip names (TrimSpace <$> Split text (str ","))))).
  - f_equal. rewrite <-list_fmap_compose. apply list_fmap_ext. intros i row Hr. cbn. rewrite Forall_forall in Hrows.
    destruct (Hrows row) as (H1 & _ & H2); [by eapply list_elem_of_lookup_2|]. by rewrite Split_table.
  - intros text (row & -> & Hr)%list_elem_of_fmap. rewrite Forall_forall in Hrows. destruct (Hrows row Hr) as (H1 & H3 & H2).
    pose proof (Split_table names Hnn Hnames) as En. pose proof (Split_table row H1 H2) as Er.
    rewrite read_row_spec; [by rewrite En|]. apply (f_equal length) in En, Er. rewrite !length_fmap in *. lia.
Qed.
End runconfig.
Abbreviation RunConfig := (gmap bytes bytes).
End RunConfigs.

(** ** [simul/build.go] *)
Module Builds.
Import RunConfigs.
Section builds.
Context (lower_unicode : bytes → bytes).
Abbreviation GetInt := (GetInt lower_unicode).
Abbreviation Put := (Put lower_unicode).

(** [calcHosts]: the geometric sum.  The code computes it with [float64], which
    is exact, as here, while the power is below 2^53. *)
Definition calcHosts (bf depth : Z) : outcome error Z :=
  if bf <=? 0 then Panic "log.Fatal: illegal branching-factor"
  else if depth <=? 0 then Panic "log.Fatal: illegal depth"
  else if bf =? 1 then Ret (depth + 1)
  else Ret (Z.quot (1 - bf ^ (depth + 1)) (1 - bf)).

(** [for calcHosts(bf, depth) < hosts { bf++ }], and the one for the depth. *)
Fixpoint grow_bf (fuel : nat) (bf depth hosts : Z) : outcome error Z :=
  match fuel with
  | O => OutOfFuel
  | S fuel => let! c := calcHosts bf depth in if c <? hosts then grow_bf fuel (bf + 1) depth hosts else Ret bf
  end.
Fixpoint grow_depth (fuel : nat) (bf depth hosts : Z) : outcome error Z :=
  match fuel with
  | O => OutOfFuel
  | S fuel => let! c := calcHosts bf depth in if c <? hosts then grow_depth fuel bf (depth + 1) hosts else Ret depth
  end.

(** [CheckHosts]: what is not a number counts as it is read, mostly as zero. *)
Definition CheckHosts (fuel : nat) (rc : RunConfig) : outcome error RunConfig :=
  let hosts := (GetInt rc (str "hosts")).1 in
  let bf := (GetInt rc (str "bf")).1 in
  let depth := (GetInt rc (str "depth")).1 in
  let! (hosts, rc) :=
    if hosts =? 0 then
      if (depth =? 0) || (bf =? 0) then Panic "log.Fatal: No Hosts and no Depth or BF given - stopping"
      else let! hosts := calcHosts bf depth in Ret (hosts, Put rc (str "hosts") (Itoa hosts))
    else Ret (hosts, rc) in
  let! (bf, rc) :=
    if bf =? 0 then
      if (depth =? 0) || (hosts =? 0) then Panic "log.Fatal: No BF and no Depth or hosts given - stopping"
      else let! bf := grow_bf fuel 1 depth hosts in Ret (bf, Put rc (str "bf") (Itoa bf))
    else Ret (bf, rc) in
  if depth =? 0 then
    let! depth := grow_depth fuel bf 1 hosts in Ret (Put rc (str "depth") (Itoa depth))
  else Ret rc.

(** [getStartStop]: the text that gives the range, and the number of runs. *)
Definition getStartStop (simRange : bytes) (rcs : Z) : outcome error (Z * Z) :=
  let ssStr := Split simRange (str ":") in
  let! first := index ssStr 0 in
  match Atoi_full first with
  | (start, true) =>
      if (1 <? length ssStr)%nat then
        let! second := index ssStr 1 in
        match Atoi_full second with
        | (stop, true) => Ret (start, stop)
        | (_, false) => Ret (start, rcs)
        end
      else Ret (start, start)
  | (start, false) => Ret (start, rcs - 1)
  end.

Definition getRunWait (runWait : Z) (rc : RunConfig) : Z :=
  match GetInt rc (str "runwait") with (w, true) => w | _ => runWait end.

Definition getExperimentWait (experimentWait runWait : Z) (rcs : list RunConfig) : outcome error Z :=
  if 0 <? experimentWait then Ret experimentWait
  else
    let! rc0 := index rcs 0 in
    match GetInt rc0 (str "experimentwait") with
    | (rcExp, true) => Ret rcExp
    | _ => Ret (foldl (λ wait rc, wrapS 64 (wait + getRunWait runWait rc)) 0 rcs)
    end.

(** *** [RunTests]: the table of results

    [results] is what [RunTest] returns for each run, and [individual] whether
    the run asks for individual statistics. *)
Section tests.
Import Statistics.
Context (format_f : Float64.float64 → bytes) (PercentileNearestRank : list Float64.float64 → Float64.float64 → option Float64.float64).

(** [log.ErrFatal]. *)
Definition fatal {A} (c : outcome error A) : outcome error A :=
  match c with Err e => Panic e | _ => c end.

Definition write_result (i : nat) (individual : bool) (s : Stats) : outcome error bytes :=
  let! header := if (i =? 0)%nat then WriteHeader s else Ret [] in
  let! body := if individual then fatal (WriteIndividualStats format_f s) else (WriteValues format_f PercentileNearestRank s).1 in
  Ret (header ++ body).

Fixpoint run_tests (start stop : Z) (i : nat) (results : list (bool * option Stats)) : outcome error bytes :=
  match results with
  | [] => Ret []
  | (individual, r) :: results =>
      let! text :=
        if (Z.of_nat i <? start) || (stop <? Z.of_nat i) then Ret []
        else match r with
             | None => Ret []
             | Some s => write_result i individual s
             end in
      let! rest := run_tests start stop (S i) results in Ret (text ++ rest)
  end.

(** What the file holds afterwards: it is appended to only with a range. *)
Definition RunTests (simRange old : bytes) (results : list (bool * option Stats)) : outcome error bytes :=
  let! (start, stop) := getStartStop simRange (Z.of_nat (length results)) in
  let! text := run_tests start stop 0 results in
  Ret ((if decide (simRange = []) then [] else old) ++ text).

(** When no run asks for individual statistics the file is one line for every
    run that succeeded, in their order, after the header, which is there exactly
    when the first run succeeded. *)
Theorem results_table old (results : list (option Stats)) :
  (∀ s, Some s ∈ results → stats_ok s) →
  ∃ h rows, RunTests [] old (pair false <$> results) = Ret (h ++ concat (line <$> rows)) ∧
    Forall2 (λ s row, value_fields format_f (Collect PercentileNearestRank s) = Ret row) (omap id results) rows ∧
    match results with
    | Some s :: _ => ∃ hs, header_fields s = Ret hs ∧ h = line hs
    | _ => h = []
    end.
Proof.
  intros Hok. set (n := Z.of_nat (length results)).
  assert (∀ s, stats_ok s → (∃ hs, header_fields s = Ret hs) ∧ ∃ row, value_fields format_f (Collect PercentileNearestRank s) = Ret row) as Hs.
  { intros s Hs. destruct (omapM_values s Hs) as (vs & Hvs & _), (omapM_values _ (Collect_ok PercentileNearestRank s Hs)) as (cs & Hcs & _).
    unfold header_fields, value_fields. rewrite Hvs, Hcs. split; eexists; reflexivity. }
  assert (∀ l i, (∀ s, Some s ∈ l → stats_ok s) → (0 < i)%nat → (Z.of_nat i + Z.of_nat (length l) <= n) →
    ∃ rows, run_tests 0 (n - 1) i (pair false <$> l) = Ret (concat (line <$> rows)) ∧
      Forall2 (λ s row, value_fields format_f (Collect PercentileNearestRank s) = Ret row) (omap id l) rows) as Hrest.
  { induction l as [|r l IH]; intros i Hl Hi Hn; [by exists []|]. cbn [length] in Hn.
    destruct (IH (S i)) as (rows & Hr & Hf); [intros s ?; apply Hl; by right|lia|lia|]. cbn [fmap list_fmap run_tests].
    rewrite (proj2 (Z.ltb_ge _ _)), (proj2 (Z.ltb_ge _ _)) by lia. cbn [orb]. destruct r as [s|]; cbn [obind omap list_omap id].
    - destruct (Hs s (Hl s ltac:(by left))) as (_ & row & Hrow). exists (row :: rows). unfold write_result, WriteValues.
      rewrite (proj2 (Nat.eqb_neq i 0)) by lia. cbn [obind fst]. rewrite Hrow. cbn [obind]. rewrite Hr. split; [done|by constructor].
    - exists rows. by rewrite Hr. }
  assert (getStartStop [] n = Ret (0, n - 1)) as Hg by done.
  unfold RunTests. rewrite length_fmap. fold n. rewrite Hg. cbn [obind]. rewrite decide_True by done. cbn [app].
  destruct results as [|r l]; [by exists [], []|].
  destruct (Hrest l 1%nat) as (rows & Hr & Hf); [intros s ?; apply Hok; by right|lia|unfold n; cbn [length]; lia|].
  cbn [fmap list_fmap run_tests]. rewrite (proj2 (Z.ltb_ge _ _)), (proj2 (Z.ltb_ge _ _)) by (unfold n; cbn [length]; lia). cbn [orb].
  destruct r as [s|]; cbn [obind omap list_omap id].
  - destruct (Hs s (Hok s ltac:(by left))) as ((hs & Hhs) & row & Hrow). exists (line hs), (row :: rows).
    unfold write_result, WriteHeader, WriteValues. cbn [Nat.eqb]. rewrite Hhs. cbn [obind fst]. rewrite Hrow. cbn [obind]. rewrite Hr. cbn [obind].
    rewrite <-app_assoc. split; [done|]. split; [by constructor|]. by exists hs.
  - exists [], rows. rewrite Hr. done.
Qed.
End tests.

(** *** The numbers of hosts *)
Definition ToLower_fixed (k : bytes) : Prop := Addresses.ToLower lower_unicode k = k.

Fixpoint geo (bf : Z) (depth : nat) : Z := match depth with O => 1 | S d => geo bf d + bf ^ Z.of_nat depth end.

Lemma geo_closed bf d : (bf - 1) * geo bf d = bf ^ (Z.of_nat d + 1) - 1.
Proof.
  induction d as [|d IH]; [cbn [geo]; rewrite Z.pow_1_r; lia|]. cbn [geo]. rewrite Z.mul_add_distr_l, IH.
  replace (Z.of_nat d + 1) with (Z.of_nat (S d)) by lia.
  rewrite Z.pow_add_r, Z.pow_1_r by lia. ring.
Qed.

Lemma geo_lower bf d : 1 <= bf → Z.of_nat d + 1 <= geo bf d.
Proof.
  intros Hb. induction d as [|d IH]; [done|]. cbn [geo]. pose proof (Z.pow_pos_nonneg bf (Z.of_nat (S d))). lia.
Qed.

Lemma geo_lower_bf bf d : 1 <= bf → (0 < d)%nat → bf + 1 <= geo bf d.
Proof.
  intros Hb Hd. destruct d as [|d]; [lia|]. clear Hd. induction d as [|d IH]; [cbn [geo]; rewrite Z.pow_1_r; lia|].
  cbn [geo] in *. pose proof (Z.pow_pos_nonneg bf (Z.of_nat (S (S d)))). lia.
Qed.

(** [calcHosts] is the number of nodes of a full tree. *)
Lemma calcHosts_geo bf depth : 1 <= bf → 1 <= depth → calcHosts bf depth = Ret (geo bf (Z.to_nat depth)).
Proof.
  intros Hb Hd. unfold calcHosts. destruct (Z.leb_spec bf 0), (Z.leb_spec depth 0), (Z.eqb_spec bf 1) as [->|Hne]; try lia.
  - f_equal. rewrite <-(Z2Nat.id depth) at 1 by lia. induction (Z.to_nat depth) as [|d IH]; [done|]. cbn [geo]. rewrite Z.pow_1_l by lia. lia.
  - pose proof (geo_closed bf (Z.to_nat depth)) as Hg. rewrite Z2Nat.id in Hg by lia. f_equal.
    replace (1 - bf ^ (depth + 1)) with ((1 - bf) * geo bf (Z.to_nat depth)) by lia. rewrite Z.mul_comm, Z.quot_mul; [done|lia].
Qed.

Lemma grow_bf_spec fuel d h : 1 <= d → ∀ bf, 1 <= bf → (Z.to_nat (h - bf) < fuel)%nat →
  (∀ b, 1 <= b < bf → geo b (Z.to_nat d) < h) →
  ∃ r, grow_bf fuel bf d h = Ret r ∧ 1 <= r ∧ r <= Z.max bf h ∧ h <= geo r (Z.to_nat d) ∧ ∀ b, 1 <= b < r → geo b (Z.to_nat d) < h.
Proof.
  intros Hd. induction fuel as [|fuel IH]; intros bf Hb Hf Hl; [lia|]. cbn [grow_bf]. rewrite calcHosts_geo by done. cbn [obind].
  destruct (Z.ltb_spec (geo bf (Z.to_nat d)) h) as [Hlt|Hge].
  - pose proof (geo_lower_bf bf (Z.to_nat d) Hb ltac:(lia)). destruct (IH (bf + 1)) as (r & Hr & H1 & H2 & H3 & H4); [lia|lia| |].
    + intros b Hbb. destruct (decide (b = bf)) as [->|]; [done|]. apply Hl. lia.
    + exists r. split; [done|]. split; [lia|]. split; [lia|]. done.
  - exists bf. split; [done|]. split; [done|]. split; [lia|]. done.
Qed.

Lemma grow_depth_spec fuel bf h : 1 <= bf → ∀ d, 1 <= d → (Z.to_nat (h - d) < fuel)%nat →
  (∀ x, 1 <= x < d → geo bf (Z.to_nat x) < h) →
  ∃ r, grow_depth fuel bf d h = Ret r ∧ 1 <= r ∧ r <= Z.max d h ∧ h <= geo bf (Z.to_nat r) ∧ ∀ x, 1 <= x < r → geo bf (Z.to_nat x) < h.
Proof.
  intros Hb. induction fuel as [|fuel IH]; intros d Hd Hf Hl; [lia|]. cbn [grow_depth]. rewrite calcHosts_geo by done. cbn [obind].
  destruct (Z.ltb_spec (geo bf (Z.to_nat d)) h) as [Hlt|Hge].
  - pose proof (geo_lower bf (Z.to_nat d) Hb). destruct (IH (d + 1)) as (r & Hr & H1 & H2 & H3 & H4); [lia|lia| |].
    + intros x Hx. destruct (decide (x = d)) as [->|]; [done|]. apply Hl. lia.
    + exists r. split; [done|]. split; [lia|]. split; [lia|]. done.
  - exists d. split; [done|]. split; [done|]. split; [lia|]. done.
Qed.

Lemma Atoi_full_Itoa z : 0 <= z < 2 ^ 63 → Atoi_full (Itoa z) = (z, true).
Proof. intros Hz. pose proof (Atoi_Itoa z Hz) as Ha. unfold Atoi in Ha. destruct (Atoi_full (Itoa z)) as [y [|]]; congruence. Qed.

(** A number that is put is read. *)
Lemma GetInt_Put rc k z : ToLower_fixed k → 0 <= z < 2 ^ 63 → GetInt (Put rc k (Itoa z)) k = (z, true).
Proof.
  intros Hk Hz. unfold GetInt, Get, Put. rewrite Hk, lookup_insert_eq. change (default [] (Some (Itoa z))) with (Itoa z). destruct (Itoa_digits z Hz) as [Hd Hne].
  assert (replacer (Itoa z) = Itoa z) as ->.
  { unfold replacer. clear Hne. induction (Itoa z) as [|b l IH]; [done|]. apply Forall_cons in Hd as [Hb Hd].
    rewrite filter_cons_True by (by split; intros ->). by rewrite IH. }
  rewrite decide_False by done. by apply Atoi_full_Itoa.
Qed.

Lemma GetInt_Put_ne rc k k' v : ToLower_fixed k → ToLower_fixed k' → k ≠ k' → GetInt (Put rc k v) k' = GetInt rc k'.
Proof. intros Hk Hk' Hne. unfold GetInt, Get, Put. rewrite Hk, Hk'. by rewrite lookup_insert_ne. Qed.

(** [CheckHosts] completes any two of the three numbers: the hosts are those of
    the full tree, and the branching or the depth is the least whose full tree has
    room for the hosts; numbers that are given and all other fields stay. *)
Theorem check_hosts_correct fuel rc :
  let h0 := (GetInt rc (str "hosts")).1 in let b0 := (GetInt rc (str "bf")).1 in let d0 := (GetInt rc (str "depth")).1 in
  0 <= h0 < 2 ^ 53 → 0 <= b0 → 0 <= d0 →
  (h0 = 0 → 1 <= b0 ∧ 1 <= d0 ∧ geo b0 (Z.to_nat d0) < 2 ^ 53) → (b0 = 0 → 1 <= d0) →
  (Z.to_nat h0 < fuel)%nat →
  ∃ rc' h b d, CheckHosts fuel rc = Ret rc' ∧
    (GetInt rc' (str "hosts")).1 = h ∧ (GetInt rc' (str "bf")).1 = b ∧ (GetInt rc' (str "depth")).1 = d ∧
    1 <= h ∧ 1 <= b ∧ 1 <= d ∧
    (h = if h0 =? 0 then geo b0 (Z.to_nat d0) else h0) ∧ (b0 ≠ 0 → b = b0) ∧ (d0 ≠ 0 → d = d0) ∧
    (b0 = 0 ∨ d0 = 0 → h <= geo b (Z.to_nat d)) ∧
    (b0 = 0 → ∀ b', 1 <= b' < b → geo b' (Z.to_nat d) < h) ∧
    (d0 = 0 → ∀ d', 1 <= d' < d → geo b (Z.to_nat d') < h) ∧
    ∀ k, k ∉ [str "hosts"; str "bf"; str "depth"] → rc' !! k = rc !! k.
Proof.
  intros h0 b0 d0 Hh Hb Hd H1 H2 Hf. unfold CheckHosts. fold h0 b0 d0.
  assert (ToLower_fixed (str "hosts") ∧ ToLower_fixed (str "bf") ∧ ToLower_fixed (str "depth")) as (Lh & Lb & Ld) by done.
  assert (∀ (rc : RunConfig) k k' v, ToLower_fixed k → k ∈ [str "hosts"; str "bf"; str "depth"] →
    k' ∉ [str "hosts"; str "bf"; str "depth"] → Put rc k v !! k' = rc !! k') as Hout.
  { intros r k k' v Hk Hin Hn. unfold Put. rewrite Hk. apply lookup_insert_ne. by intros ->. }
  destruct (Z.eqb_spec h0 0) as [Hh0|Hh0].
  - destruct (H1 Hh0) as (Hb1 & Hd1 & Hg). pose proof (geo_lower b0 (Z.to_nat d0) Hb1).
    rewrite (proj2 (Z.eqb_neq d0 0)), (proj2 (Z.eqb_neq b0 0)) by lia. cbn [orb]. rewrite calcHosts_geo by done. cbn [obind].
    eexists _, _, _, _. split; [done|]. rewrite GetInt_Put by (done || lia). rewrite !GetInt_Put_ne by done.
    fold b0 d0. cbn [fst]. do 3 (split; [done|]). split_and!; try done; try lia. intros k Hk. apply Hout; [done|by left|done].
  - cbn [obind]. destruct (Z.eqb_spec b0 0) as [Hb0|Hb0].
    + specialize (H2 Hb0). rewrite (proj2 (Z.eqb_neq d0 0)), (proj2 (Z.eqb_neq h0 0)) by lia. cbn [orb].
      destruct (grow_bf_spec fuel d0 h0 H2 1) as (r & -> & Hr1 & Hr2 & Hr3 & Hr4); [done|lia|lia|]. cbn [obind].
      eexists _, _, _, _. split; [done|]. rewrite GetInt_Put by (done || lia). rewrite !GetInt_Put_ne by done.
      fold h0 d0. cbn [fst]. do 3 (split; [done|]). split_and!; try done; try lia. intros k Hk. apply Hout; [done|right; by left|done].
    + cbn [obind]. destruct (Z.eqb_spec d0 0) as [Hd0|Hd0].
      * destruct (grow_depth_spec fuel b0 h0 ltac:(lia) 1) as (r & -> & Hr1 & Hr2 & Hr3 & Hr4); [done|lia|lia|]. cbn [obind].
        eexists _, _, _, _. split; [done|]. rewrite GetInt_Put by (done || lia). rewrite !GetInt_Put_ne by done.
        fold h0 b0. cbn [fst]. do 3 (split; [done|]). split_and!; try done; try lia. intros k Hk. apply Hout; [done|do 2 right; by left|done].
      * eexists _, _, _, _. split; [done|]. fold h0 b0 d0. do 3 (split; [done|]). split_and!; try done; try lia.
Qed.

(** *** The range of runs *)
Lemma Itoa_no_colon z : 0 <= z < 2 ^ 63 → x3a ∉ Itoa z.
Proof. intros Hz Hin. destruct (Itoa_digits z Hz) as [Hall _]. rewrite Forall_forall in Hall. by specialize (Hall _ Hin). Qed.

(** A range [a], [a:b], [a:] selects what it says; [:b] selects all runs. *)
Theorem start_stop_correct a b rcs : 0 <= a < 2 ^ 63 → 0 <= b < 2 ^ 63 →
  getStartStop (Itoa a) rcs = Ret (a, a) ∧
  getStartStop (Itoa a ++ str ":" ++ Itoa b) rcs = Ret (a, b) ∧
  getStartStop (Itoa a ++ str ":") rcs = Ret (a, rcs) ∧
  getStartStop (str ":" ++ Itoa b) rcs = Ret (0, rcs - 1) ∧
  getStartStop [] rcs = Ret (0, rcs - 1).
Proof.
  intros Ha Hb. unfold getStartStop. change (str ":") with [x3a].
  pose proof (Itoa_no_colon a Ha) as Na. pose proof (Itoa_no_colon b Hb) as Nb. cbn [app].
  assert (Split (x3a :: Itoa b) [x3a] = [[]; Itoa b]) as ->.
  { etrans; [apply (Split_pieces x3a [] (Itoa b)), not_elem_of_nil|]. by rewrite Split_whole. }
  rewrite !(Split_pieces x3a (Itoa a)), (Split_whole x3a (Itoa b)), (Split_whole x3a (Itoa a)) by done.
  rewrite !index_0. cbn [obind]. rewrite !Atoi_full_Itoa by done. cbn [length]. split_and!; try done.
  rewrite (index_Ret [Itoa a; Itoa b] 1 (Itoa b) eq_refl : index _ 1 = _). cbn [obind]. by rewrite Atoi_full_Itoa.
Qed.
End builds.
End Builds.

(** ** [simulation.go] *)
Module Simulations.
Import Trees TreeCodec.
Section simulations.
Context {S : Suite} {U : UuidLib} (lower_unicode : bytes → bytes).

Record SimulationConfig := {
  sc_Tree : option Tree;
  sc_Roster : option Roster;
  PrivateKeys : gmap bytes Scalar;
  Config : bytes;
}.

Record SimulationBFTree := { BF : Z; Hosts : Z; SingleHost : bool }.

(** The search for a free port on this machine: what [Listen] gives, and whether
    the port after it is free too. *)
Fixpoint find_port (probes : list (Z * bool)) : outcome error (Z * list (Z * bool)) :=
  match probes with
  | [] => OutOfFuel
  | (port, next_free) :: probes => if next_free && negb (port =? 0) then Ret (port, probes) else find_port probes
  end.

Definition localhost (address : bytes) : bool := Contains address (str "127.0.0.").

(** The variables of the loop of [CreateRoster]. *)
Record creation := {
  key : Scalar * Point;
  probes : list (Z * bool);
  entities : list ServerIdentity;
  keys : gmap bytes Scalar;
}.

(** The port of the [c]-th server, and one round of the loop. *)
Definition port_of (nbrAddr port c : Z) : Z := port + Z.quot c nbrAddr * 2.

Definition create_one (addresses : list bytes) (port : Z) (localhosts : bool) (st : creation) (c : nat)
    : outcome error creation :=
  let nbrAddr := Z.of_nat (length addresses) in
  let secret := scalar_add (key st).1 scalar_one in
  let public := point_add (key st).2 point_base in
  let! a := index addresses (Z.rem (Z.of_nat c) nbrAddr) in
  let address := a ++ str ":" in
  let! (p, probes) :=
    if localhosts then find_port (probes st) else Ret (port_of nbrAddr port (Z.of_nat c), probes st) in
  let add := Addresses.NewAddress Addresses.PlainTCP (address ++ Itoa p) in
  Ret {| key := (secret, public); probes := probes;
         entities := entities st ++ [Network.NewServerIdentity public add];
         keys := <[add := secret]> (keys st) |}.

(** [CreateRoster]; [k] is the key pair that is drawn, [u] numbers the roster. *)
Definition CreateRoster (s : SimulationBFTree) (sc : SimulationConfig) (addresses : list bytes) (port : Z)
    (k : Scalar * Point) (probes : list (Z * bool)) (u : nat) : outcome error SimulationConfig :=
  if SingleHost s then Panic "log.Fatal: Not supported yet"
  else if Hosts s <? 0 then Panic "makeslice: len out of range"
  else
    let! first := index addresses 0 in
    let! st := ofoldM (create_one addresses port (localhost first))
      {| key := k; probes := probes; entities := []; keys := PrivateKeys sc |} (seq 0 (Z.to_nat (Hosts s))) in
    Ret {| sc_Tree := sc_Tree sc; sc_Roster := Some (Rosters.NewRoster (entities st) u); PrivateKeys := keys st; Config := Config sc |}.

(** [CreateTree]; [fuel] is for the generation of the tree. *)
Definition CreateTree (fuel : nat) (s : SimulationBFTree) (sc : SimulationConfig) (u : nat)
    : outcome error (SimulationConfig * nat) :=
  match sc_Roster sc with
  | None => Err "Empty Roster"
  | Some el =>
      let! (t, u) := BigTree.GenerateBigNaryTree lower_unicode fuel el (BF s) (Hosts s) u in
      Ret ({| sc_Tree := Some t; sc_Roster := sc_Roster sc; PrivateKeys := PrivateKeys sc; Config := Config sc |}, u)
  end.

(** *** The saved file *)
Record SimulationConfigFile := {
  f_TreeMarshal : option TreeMarshal;
  f_Roster : option Roster;
  f_PrivateKeys : gmap bytes Scalar;
  f_Config : bytes;
}.

(** What [Save] encodes. *)
Definition config_file (sc : SimulationConfig) : outcome error SimulationConfigFile :=
  let! t := deref (sc_Tree sc) in
  let! m := MakeTreeMarshal t in
  Ret {| f_TreeMarshal := Some m; f_Roster := sc_Roster sc; f_PrivateKeys := PrivateKeys sc; f_Config := Config sc |}.

Context {M : Methods} (gens : gmap bytes (gtype * gvalue)) {PR : PointReflect S} {SR : ScalarReflect S}.
Context (type_string : gtype → bytes) (constructors : gmap string (gtype * gvalue)).
(** The depth of the unfolding of [TreeMarshal]. *)
Context (depth : nat).

Definition TFile : gtype :=
  TNamed "onet.SimulationConfigFile" (TStruct
    [(field "TreeMarshal", TPtr (TTreeMarshal depth)); (field "Roster", TPtr TRoster);
     (field "PrivateKeys", TMap (TNamed "network.Address" TString) (TInterface "abstract.Scalar"));
     (field "Config", TString)]).

Definition key_value (e : bytes * Scalar) : gvalue * gvalue := (VString e.1, VIface scalar_type (scalar_value e.2)).
Definition ptr_value {A} (f : A → gvalue) (o : option A) : gvalue :=
  match o with Some a => VPtr (f a) | None => VNil end.

(** A file as reflection sees it; [order] is the order in which the map is visited. *)
Definition file_value (order : list (bytes * Scalar)) (f : SimulationConfigFile) : gvalue :=
  VStruct [ptr_value tm_value (f_TreeMarshal f); ptr_value roster_value (f_Roster f);
           match order with [] => VNil | _ => VMap (key_value <$> order) end; VString (f_Config f)].

Definition of_key_value (e : gvalue * gvalue) : option (bytes * Scalar) :=
  match e with
  | (VString a, VIface _ x) => match of_scalar x with Some x => Some (a, x) | None => None end
  | _ => None
  end.
Definition keys_of (v : gvalue) : option (gmap bytes Scalar) :=
  match v with
  | VNil => Some ∅
  | VMap l => match opt_map of_key_value l with Some l => Some (list_to_map l) | None => None end
  | _ => None
  end.
Definition ptr_of {A} (f : gvalue → option A) (v : gvalue) : option (option A) :=
  match v with
  | VNil => Some None
  | VPtr x => match f x with Some a => Some (Some a) | None => None end
  | _ => None
  end.
Definition file_of (v : gvalue) : option SimulationConfigFile :=
  match v with
  | VStruct [m; r; k; VString c] =>
      match ptr_of tm_of m, ptr_of roster_of r, keys_of k with
      | Some m, Some r, Some k => Some {| f_TreeMarshal := m; f_Roster := r; f_PrivateKeys := k; f_Config := c |}
      | _, _, _ => None
      end
  | _ => None
  end.

(** The registry with the type of the file. *)
Definition register_file (tr : gmap UUID gtype) : outcome error (gmap UUID gtype) :=
  let! (_, tr) := Encoding.RegisterMessage type_string tr (Some (TFile, zero TFile)) in Ret tr.

(** [log.Fatal]. *)
Definition fatal {A} (r : outcome error A) : outcome error A := match r with Err e => Panic e | r => r end.

(** [Save]: the bytes of the file; an error ends the program. *)
Definition Save (fuel : nat) (tr : gmap UUID gtype) (order : list (bytes * Scalar)) (sc : SimulationConfig)
    : outcome error bytes :=
  let! tr := register_file tr in
  let! f := config_file sc in
  fatal (Encoding.Marshal gens type_string fuel tr (Some (TPtr TFile, VPtr (file_value order f)))).

(** *** [LoadSimulationConfig] *)

(** The servers of a machine: their places in the roster and their keys. *)
Definition with_colon (ca : bytes) : bytes := if Contains ca (str ":") then ca else ca ++ str ":".

Definition own_servers (ca : bytes) (el : Roster) (ks : gmap bytes Scalar) : list (nat * option Scalar) :=
  omap (λ '(i, e), if Contains (Network.Address e) (with_colon ca) then Some (i, ks !! Network.Address e) else None)
    (imap pair (Rosters.List el)).

Definition set_address (a : bytes) (e : ServerIdentity) : ServerIdentity :=
  {| Network.Public := Network.Public e; Network.ID := Network.ID e; Network.Address := a;
     Network.Description := Network.Description e |}.

(** All addresses of this machine become [127.0.0.1]; errors of the splitting are
    not looked at. *)
Definition strip (e : ServerIdentity) : outcome error ServerIdentity :=
  let! na := Addresses.NetworkAddress lower_unicode (Network.Address e) in
  let port := match Net.SplitHostPort na with Some (_, p) => p | None => [] end in
  Ret (set_address (Addresses.NewAddress Addresses.PlainTCP (str "127.0.0.1:" ++ port)) e).

(** The nodes of a tree that was made for a roster share their servers with it:
    a node has the server at its index. *)
Fixpoint relocate (l : list ServerIdentity) (t : TreeNode) : TreeNode :=
  match t with
  | MkTreeNode id si i cs agg =>
      MkTreeNode id (match si with Some _ => l !! Z.to_nat i | None => None end) i (relocate l <$> cs) agg
  end.
Definition set_list (l : list ServerIdentity) (el : Roster) : Roster :=
  {| Rosters.ID := Rosters.ID el; Rosters.List := l; Rosters.Aggregate := Rosters.Aggregate el |}.
Definition relocate_tree (l : list ServerIdentity) (t : Tree) : Tree :=
  {| t_ID := t_ID t; t_Roster := set_list l <$> t_Roster t; t_Root := relocate l <$> t_Root t |}.

(** The configurations share all but the server: its place in the roster and its
    key.  Without a machine there is one configuration, without a server. *)
Record Loaded := {
  l_Tree : Tree;
  l_Roster : Roster;
  l_PrivateKeys : gmap bytes Scalar;
  l_Config : bytes;
  l_Servers : list (nat * option Scalar);
}.

(** From the decoded file on. *)
Definition load_config (f : SimulationConfigFile) (ca : bytes) : outcome error Loaded :=
  let! m := deref (f_TreeMarshal f) in
  let! el := deref (f_Roster f) in
  let! t := MakeTree m el in
  let! own :=
    if decide (ca = []) then Ret []
    else match own_servers ca el (f_PrivateKeys f) with
         | [] => Err "Address not used in simulation"
         | own => Ret own
         end in
  let! first := index (Rosters.List el) 0 in
  let loaded t el := {| l_Tree := t; l_Roster := el; l_PrivateKeys := f_PrivateKeys f; l_Config := f_Config f; l_Servers := own |} in
  if localhost (Network.Address first) then
    let! l := omapM strip (Rosters.List el) in
    Ret (loaded (relocate_tree l t) (set_list l el))
  else Ret (loaded t el).

Definition LoadSimulationConfig (fuel : nat) (tr : gmap UUID gtype) (file : outcome error bytes) (ca : bytes)
    : outcome error Loaded :=
  let! tr := register_file tr in
  let! bin := file in
  let! (_, msg) := Encoding.Unmarshal gens fuel tr constructors bin in
  match assert_ptr TFile file_of msg with
  | None => Panic "interface conversion"
  | Some f => load_config f ca
  end.

(** *** The roster that is made *)

Lemma last_sep_inj (x : byte) (s1 s2 d1 d2 : bytes) : x ∉ d1 → x ∉ d2 → s1 ++ x :: d1 = s2 ++ x :: d2 → s1 = s2 ∧ d1 = d2.
Proof.
  intros H1 H2 E. pose proof (LastIndexByte_app s1 x d1 H1) as L1. rewrite E, (LastIndexByte_app s2 x d2 H2) in L1. injection L1 as L.
  apply app_inj_1 in E as [-> [= ->]]; done.
Qed.

Section creation.
Context {SL : SuiteLaws S} (addresses : list bytes) (port : Z).
Context (Hport : 0 <= port) (Hdup : NoDup addresses) (Hne : addresses ≠ []).
Abbreviation n := (length addresses).

(** The host and the port of a server, and its address. *)
Definition host_of (c : nat) : option bytes := addresses !! (c mod n)%nat.
Definition address_of (a : bytes) (c : nat) : bytes :=
  Addresses.NewAddress Addresses.PlainTCP ((a ++ str ":") ++ Itoa (port_of (Z.of_nat n) port (Z.of_nat c))).

Lemma n_pos : (0 < n)%nat.
Proof. destruct addresses; [done|cbn; lia]. Qed.

Lemma port_of_nat c : port_of (Z.of_nat n) port (Z.of_nat c) = port + 2 * Z.of_nat (c / n).
Proof. pose proof n_pos. unfold port_of. rewrite Z.quot_div_nonneg, <-Nat2Z.inj_div by lia. lia. Qed.

Lemma address_inj a b c d : host_of c = Some a → host_of d = Some b →
  port_of (Z.of_nat n) port (Z.of_nat c) < 2 ^ 63 → port_of (Z.of_nat n) port (Z.of_nat d) < 2 ^ 63 →
  address_of a c = address_of b d → c = d.
Proof.
  pose proof n_pos as Hn. unfold host_of, address_of, Addresses.NewAddress. rewrite !port_of_nat. intros Ha Hb Hc Hd E.
  apply app_inv_head, app_inv_head in E. change (str ":") with [x3a] in E. rewrite <-!app_assoc in E. cbn [app] in E.
  apply last_sep_inj in E as [<- E]; [|apply Builds.Itoa_no_colon; lia..].
  pose proof (NoDup_lookup _ _ _ _ Hdup Ha Hb) as Hm.
  assert (c / n = d / n)%nat as Hq. { apply (f_equal Atoi) in E. rewrite !Atoi_Itoa in E by lia. injection E as E. lia. }
  rewrite (Nat.div_mod_eq c n), (Nat.div_mod_eq d n), Hq, Hm. done.
Qed.

Definition creation_inv (i : nat) (st : creation) : Prop :=
  (key st).2 ≡ point_mul None (key st).1 ∧ length (entities st) = i ∧
  ∀ c, (c < i)%nat → ∃ a e x, host_of c = Some a ∧ entities st !! c = Some e ∧ Network.Address e = address_of a c ∧
    keys st !! Network.Address e = Some x ∧ Network.Public e ≡ point_mul None x ∧
    e = Network.NewServerIdentity (Network.Public e) (Network.Address e).

Context (Hone : point_mul None scalar_one ≡ point_base).

Lemma create_one_inv i st : port_of (Z.of_nat n) port (Z.of_nat i) < 2 ^ 63 → creation_inv i st →
  ∃ st', create_one addresses port false st i = Ret st' ∧ creation_inv (Datatypes.S i) st'.
Proof.
  intros Hi (Hk & Hl & Hs). pose proof n_pos as Hn. unfold create_one.
  destruct (lookup_in_range addresses (i mod n)) as [a Ha]; [apply Nat.mod_upper_bound; lia|].
  rewrite Z.rem_mod_nonneg, <-Nat2Z.inj_mod, (index_Ret _ _ _ Ha) by lia. cbn [obind].
  set (add := Addresses.NewAddress _ _). eexists. split; [done|]. assert (add = address_of a i) as Eadd by done.
  assert (point_add (key st).2 point_base ≡ point_mul None (scalar_add (key st).1 scalar_one)) as Hk'.
  { rewrite Hk, !point_mul_nil, point_mul_add. rewrite <-Hone at 2. by rewrite !point_mul_nil. }
  split; [exact Hk'|]. cbn [entities keys]. split; [rewrite length_app; cbn; lia|]. intros c Hc. destruct (decide (c = i)) as [->|Hci].
  - exists a, (Network.NewServerIdentity (point_add (key st).2 point_base) add), (scalar_add (key st).1 scalar_one).
    split; [exact Ha|]. split; [by apply list_lookup_middle|]. split; [done|]. split; [apply lookup_insert_eq|]. by split.
  - destruct (Hs c ltac:(lia)) as (b & e & x & Hb & He & Hadd & Hx & Hp). exists b, e, x. split; [done|].
    split; [rewrite lookup_app_l by lia; done|]. split; [done|]. split; [|done]. rewrite lookup_insert_ne; [done|].
    rewrite Eadd, Hadd. intros E. apply Hci. symmetry. apply (address_inj a b i c); try done.
    rewrite port_of_nat in Hi |- *. pose proof (Nat.Div0.div_le_mono c i n ltac:(lia)). lia.
Qed.

(** [CreateRoster] makes as many servers as asked, server by server on the
    addresses in turn, two ports further on each round, so that no two have the
    same address or the port next to the other's; each has the private key of its
    public key under its address. *)
Lemma create_roster_correct s sc k ps u first :
  SingleHost s = false → 0 <= Hosts s → addresses !! 0%nat = Some first → localhost first = false →
  k.2 ≡ point_mul None k.1 → port + 2 * Hosts s < 2 ^ 63 →
  ∃ sc' el, CreateRoster s sc addresses port k ps u = Ret sc' ∧ sc_Roster sc' = Some el ∧ Config sc' = Config sc ∧ sc_Tree sc' = sc_Tree sc ∧
    Z.of_nat (length (Rosters.List el)) = Hosts s ∧
    (∀ c, (c < length (Rosters.List el))%nat → ∃ a e x, addresses !! (c mod n)%nat = Some a ∧ Rosters.List el !! c = Some e ∧
       Network.Address e = Addresses.NewAddress Addresses.PlainTCP (a ++ str ":" ++ Itoa (port + 2 * Z.of_nat (c / n))) ∧
       PrivateKeys sc' !! Network.Address e = Some x ∧ Network.Public e ≡ point_mul None x ∧
       e = Network.NewServerIdentity (Network.Public e) (Network.Address e)) ∧
    NoDup (Network.Address <$> Rosters.List el) ∧ Rosters.ID el = NewV4 u.
Proof.
  intros Hs Hh H0 Hloc Hk Hb. unfold CreateRoster. rewrite Hs. destruct (Z.ltb_spec (Hosts s) 0); [lia|].
  rewrite (index_Ret _ 0 first H0 : index _ 0 = _). cbn [obind]. rewrite Hloc. pose proof n_pos as Hn.
  assert (∀ c, (c < Z.to_nat (Hosts s))%nat → port_of (Z.of_nat n) port (Z.of_nat c) < 2 ^ 63) as Hp.
  { intros c Hc. rewrite port_of_nat. pose proof (Nat.Div0.div_le_upper_bound c n c ltac:(nia)). lia. }
  destruct (ofoldM_seq_inv (create_one addresses port false) creation_inv (Z.to_nat (Hosts s))
    {| key := k; probes := ps; entities := []; keys := PrivateKeys sc |}) as (st & -> & Hst).
  { split; [done|]. split; [done|]. intros c Hc. lia. }
  { intros i b Hi Hinv. apply create_one_inv; [by apply Hp|done]. }
  cbn [obind]. destruct Hst as (_ & Hl & Hst). eexists _, _. split; [done|]. split; [done|]. split; [done|]. split; [done|].
  cbn [Rosters.NewRoster Rosters.List PrivateKeys]. rewrite Hl. split; [lia|]. split.
  - intros c Hc. destruct (Hst c Hc) as (a & e & x & Ha & He & Hadd & Hx & Hpub). exists a, e, x. split; [exact Ha|].
    split; [done|]. split; [|done]. rewrite Hadd. unfold address_of. by rewrite port_of_nat, <-app_assoc.
  - split; [|done]. apply NoDup_alt. intros i j y Hi Hj. rewrite list_lookup_fmap in Hi, Hj.
    apply fmap_Some in Hi as (e1 & He1 & ->), Hj as (e2 & He2 & E).
    pose proof (lookup_lt_Some _ _ _ He1) as L1. pose proof (lookup_lt_Some _ _ _ He2) as L2. rewrite Hl in L1, L2.
    destruct (Hst i L1) as (a & e & x & Ha & He & Hadd & _), (Hst j L2) as (b & e' & x' & Hb' & He' & Hadd' & _).
    rewrite He1 in He. rewrite He2 in He'. injection He as <-. injection He' as <-.
    apply (address_inj a b i j Ha Hb'); [exact (Hp i L1)|exact (Hp j L2)|]. by rewrite <-Hadd, <-Hadd', E.
Qed.

(** *** From the roster to the servers of a machine *)
Lemma made_hosts_ok (l : list ServerIdentity) :
  (∀ c, (c < length l)%nat → ∃ a e x, addresses !! (c mod n)%nat = Some a ∧ l !! c = Some e ∧
     Network.Address e = Addresses.NewAddress Addresses.PlainTCP (a ++ str ":" ++ Itoa (port + 2 * Z.of_nat (c / n))) ∧ x = (c / n)%nat) →
  Forall (λ a, Addresses.host_ok lower_unicode a ∧ x3a ∉ a) addresses → port + 2 * Z.of_nat (length l) <= 65535 →
  BigTree.hosts_ok lower_unicode l.
Proof.
  intros Hl Ha Hp. pose proof n_pos as Hn. apply Forall_forall. intros e [c Hc]%list_elem_of_lookup. pose proof (lookup_lt_Some _ _ _ Hc) as Hlt.
  destruct (Hl c Hlt) as (a & e' & _ & Haa & He & Hadd & _). rewrite Hc in He. injection He as <-. rewrite Hadd.
  rewrite Forall_forall in Ha. destruct (Ha a) as [Hok Hcol]; [by eapply list_elem_of_lookup_2|].
  pose proof (Nat.Div0.div_le_upper_bound c n c ltac:(nia)) as Hq.
  assert (a ++ str ":" ++ Itoa (port + 2 * Z.of_nat (c / n)) = Net.JoinHostPort a (Itoa (port + 2 * Z.of_nat (c / n)))) as ->.
  { unfold Net.JoinHostPort. by rewrite (proj2 (IndexByte_None a x3a) Hcol). }
  destruct (Addresses.address_roundtrip (λ _, Err "no such host") lower_unicode Addresses.PlainTCP a (port + 2 * Z.of_nat (c / n))) as (_ & _ & _ & Hh & _);
    [by left|done|lia|]. by rewrite Hh.
Qed.


Lemma Contains_byte s c : c ∉ s → Contains s [c] = false.
Proof.
  induction s as [|b s IH]; [done|]. intros [Hb Hs]%not_elem_of_cons. cbn [Contains has_prefix].
  rewrite bool_decide_false by done. by rewrite IH.
Qed.

Lemma prefix_sep sub s c r : c ∉ sub → has_prefix sub (s ++ c :: r) = has_prefix sub s.
Proof.
  revert s. induction sub as [|a sub IH]; intros s; [done|]. intros [Ha Hs]%not_elem_of_cons. destruct s as [|b s]; cbn [app has_prefix].
  - by rewrite bool_decide_false.
  - by rewrite IH.
Qed.

Lemma Contains_sep sub s c r : c ∉ sub → Contains (s ++ c :: r) sub = Contains s sub || Contains r sub.
Proof.
  intros Hc. induction s as [|b s IH]; cbn [app Contains].
  - pose proof (prefix_sep sub [] c r Hc) as E. cbn [app] in E. rewrite E. destruct sub; [done|]. cbn. done.
  - rewrite IH. change (b :: s ++ c :: r) with ((b :: s) ++ c :: r). by rewrite prefix_sep, orb_assoc.
Qed.

Lemma Contains_in s sub b : b ∈ sub → Contains s sub = true → b ∈ s.
Proof.
  intros Hb. induction s as [|c s IH]; cbn [Contains].
  - rewrite orb_false_r. intros (k & Hk)%has_prefix_spec. destruct sub; [by apply elem_of_nil in Hb|done].
  - intros [(k & ->)%has_prefix_spec|H]%orb_prop; [apply elem_of_app; by left|right; auto].
Qed.

(** Only the host decides whether an address is one of this machine. *)
Lemma localhost_address a p : localhost a = false → 0 <= p < 2 ^ 63 →
  localhost (Addresses.NewAddress Addresses.PlainTCP (a ++ str ":" ++ Itoa p)) = false.
Proof.
  intros Ha Hp. unfold localhost, Addresses.NewAddress in *.
  change (Addresses.PlainTCP ++ Addresses.typeAddressSep ++ a ++ str ":" ++ Itoa p) with ((str "tcp" ++ x3a :: (str "/" ++ x2f :: (a ++ x3a :: Itoa p)))).
  assert (x3a ∉ str "127.0.0." ∧ x2f ∉ str "127.0.0.") as [H1 H2] by (split; by apply (bool_decide_unpack _)).
  rewrite Contains_sep, Contains_sep, Contains_sep, Ha by done. destruct (Contains (Itoa p) _) eqn:E; [|done].
  exfalso. apply (Contains_in _ _ x2e) in E; [|by apply (bool_decide_unpack _)].
  destruct (Itoa_digits p Hp) as [Hd _]. rewrite Forall_forall in Hd. by specialize (Hd _ E).
Qed.

Lemma own_server ca (el : Roster) ks c e : Rosters.List el !! c = Some e →
  Contains (Network.Address e) (with_colon ca) = true → (c, ks !! Network.Address e) ∈ own_servers ca el ks.
Proof.
  intros Hc Hm. unfold own_servers. apply list_elem_of_omap. exists (c, e). split; [|by rewrite Hm].
  apply list_elem_of_lookup. exists c. rewrite list_lookup_imap, Hc. done.
Qed.

Lemma own_servers_inv ca (el : Roster) ks c k : (c, k) ∈ own_servers ca el ks →
  ∃ e, Rosters.List el !! c = Some e ∧ k = ks !! Network.Address e.
Proof.
  unfold own_servers. intros ([i e] & Hin & Hk)%list_elem_of_omap. apply list_elem_of_lookup in Hin as [j Hj].
  rewrite list_lookup_imap in Hj. destruct (Rosters.List el !! j) as [e'|] eqn:E; [|done]. injection Hj as <- <-.
  destruct (Contains _ _); [|done]. injection Hk as <- <-. by exists e'.
Qed.

Lemma big_in_roster (el : Roster) N root : Rosters.distinct el →
  Forall (BigTree.node_ok (Rosters.List el) N) (preorder root) → Forall (in_roster el) (preorder root).
Proof.
  intros Hd Hf. eapply Forall_impl; [exact Hf|]. intros m (_ & Hi & si & Hsi & Hl). exists si. split; [done|].
  rewrite (Rosters.Search_lookup el _ _ Hd Hl). by rewrite Z2Nat.id.
Qed.

(** *** The file, there and back *)
Context {PL : PointReflectLaws gens PR} {SCL : ScalarReflectLaws gens SR} {UL : UuidLaws U}.

Lemma distinct_strings (l : list bytes) : NoDup l → distinct (VString <$> l) = true.
Proof.
  induction 1 as [|x l Hx _ IH]; [done|]. cbn [fmap list_fmap distinct]. apply andb_true_iff. split; [|exact IH].
  apply forallb_forall. intros v Hv. apply list_elem_of_In, list_elem_of_fmap in Hv as (y & -> & Hy).
  apply negb_true_iff. cbn. apply bool_decide_eq_false. intros ->. done.
Qed.

Lemma keys_wf (order : list (bytes * Scalar)) :
  NoDup order.*1 →
  let v := match order with [] => VNil | _ => VMap (key_value <$> order) end in
  let t := TMap (TNamed "network.Address" TString) (TInterface "abstract.Scalar") in
  wf gens false true t v ∧ norm t v = v ∧ keys_of v = Some (list_to_map order).
Proof.
  intros Hnd. destruct order as [|e order]; [done|]. cbv zeta. assert (e :: order ≠ []) as Hne' by done.
  revert Hnd Hne'. generalize (e :: order) as l. intros l Hnd Hne'.
  assert (opt_map of_key_value (key_value <$> l) = Some l) as Hof.
  { clear Hnd Hne'. induction l as [|[a x] l IH]; [done|]. cbn [fmap list_fmap opt_map]. cbn [key_value of_key_value fst snd].
    rewrite of_scalar_value. change (opt_map of_key_value (key_value <$> l)) with (opt_map of_key_value (key_value <$> l)) in IH.
    cbn [opt_map] in IH. by rewrite IH. }
  split; [|split].
  - cbn [wf scalar]. split; [done|]. split; [by eexists|]. split; [by intros [?|?]|]. split; [|split].
    + apply Forall_fmap, Forall_true. done.
    + apply Forall_fmap, Forall_true. intros [a x]. apply scalar_marshals.
    + assert ((λ e, scalar_norm (TNamed "network.Address" TString) e.1) <$> (key_value <$> l) = VString <$> l.*1) as ->
        by (clear; induction l as [|e l IH]; [done|]; cbn [fmap list_fmap]; f_equal; exact IH).
      by apply distinct_strings.
  - cbn [norm scalar]. case_decide as E; [by destruct l|]. f_equal. rewrite map_map. by apply map_ext.
  - cbn [keys_of]. by rewrite Hof.
Qed.

Lemma file_wf order m el ks c :
  order ≡ₚ map_to_list ks → (tm_height m <= depth)%nat → sized (tm_ids m) → ids_sized el →
  let f := {| f_TreeMarshal := Some m; f_Roster := Some el; f_PrivateKeys := ks; f_Config := c |} in
  wf gens true true TFile (file_value order f) ∧ norm TFile (file_value order f) = file_value order f ∧
  file_of (file_value order f) = Some f.
Proof.
  intros Ho Hm Hs Hel f. destruct (tm_wf gens depth m Hm Hs) as [Hw1 Hn1].
  destruct (roster_wf gens el Hel) as (Hw2 & Hn2 & Hof2).
  assert (NoDup order.*1) as Hnd by (rewrite Ho; apply NoDup_fst_map_to_list).
  destruct (keys_wf order Hnd) as (Hw3 & Hn3 & Hof3). unfold file_value. cbn [f_TreeMarshal f_Roster f_PrivateKeys f_Config f ptr_value].
  revert Hw3 Hn3 Hof3. generalize (match order with [] => VNil | _ => VMap (key_value <$> order) end). intros kv Hw3 Hn3 Hof3.
  split; [|split].
  - split; [done|]. split; [done|]. split; [done|]. split; [intros _; apply wf_ptr; [by rewrite kind_TM|done]|].
    split; [intros _; by apply wf_ptr|]. split; [intros _; exact Hw3|]. by split.
  - change (VStruct [VPtr (norm (TTreeMarshal depth) (tm_value m)); VPtr (norm TRoster (roster_value el));
      norm (TMap (TNamed "network.Address" TString) (TInterface "abstract.Scalar")) kv; VString c] =
      VStruct [VPtr (tm_value m); VPtr (roster_value el); kv; VString c]). by rewrite Hn1, Hn2, Hn3.
  - cbn [file_of ptr_of]. rewrite tm_of_value, Hof2, Hof3. unfold f. do 2 f_equal.
    rewrite <-(list_to_map_to_list ks). by apply list_to_map_proper.
Qed.

Context (tr : gmap UUID gtype) (Htid : Encoding.type_id type_string TFile ≠ Encoding.ErrorType) (Hub : UnmarshalBinary (TPtr TFile) = None).

(** What is saved of a tree with its servers is loaded. *)
Lemma file_save_load order sc t el root p m :
  sc_Tree sc = Some t → sc_Roster sc = Some el → order ≡ₚ map_to_list (PrivateKeys sc) →
  t_Root t = Some root → t_Roster t = Some el → MakeTreeMarshal t = Ret m →
  computeSubtreeAggregate root = Ret (root, p) →
  length (t_ID t) = 16%nat → ids_sized el → Forall node_sized (preorder root) → (height root < depth)%nat →
  ∃ b, yields (λ f, Save f tr order sc) (Ret b) ∧
    (Z.of_nat (length b) < 2 ^ 64 → ∀ ca l,
       load_config {| f_TreeMarshal := Some m; f_Roster := Some el; f_PrivateKeys := PrivateKeys sc; f_Config := Config sc |} ca = l →
       yields (λ f, LoadSimulationConfig f tr (Ret b) ca) l).
Proof using Htid Hub PL SCL UL.
  intros Ht Hel Ho Hroot Hros Hm Hagg Hid Hels Hnodes Hd.
  destruct (made_sized t el root m Hroot Hros Hm Hid (proj1 Hels) Hnodes) as [Hs Hh].
  destruct (file_wf order m el (PrivateKeys sc) (Config sc) Ho ltac:(lia) Hs Hels) as (Hw & Hn & Hof).
  assert (∃ tr', register_file tr = Ret tr' ∧ registered_struct type_string tr' TFile) as (tr' & Hreg & Hrs).
  { eexists. split; [done|]. split; [apply lookup_insert_eq|done]. }
  destruct (struct_codec gens type_string constructors tr' TFile _ Hrs eq_refl ltac:(done) Hw Hn) as (b & Hb & Hdec).
  exists b. split.
  - unfold Save. rewrite Hreg. cbn [obind]. unfold config_file. rewrite Ht, Hel. cbn [deref obind]. rewrite Hm. cbn [obind].
    exact (yields_map fatal _ _ Hb).
  - intros Hlb ca l Hl. specialize (Hdec Hlb). unfold LoadSimulationConfig. rewrite Hreg. cbn [obind].
    eapply yields_bind; [exact Hdec|]. unfold assert_ptr. cbn [fst snd]. rewrite decide_True by done. rewrite Hof, Hl.
    apply yields_const.
Qed.
Lemma height_size (t : TreeNode) : (height t < length (preorder t))%nat.
Proof.
  induction t as [id si i cs agg IH] using TreeNode_ind. rewrite preorder_unfold. cbn [height tn_Children length].
  apply Nat.lt_succ_r.
  induction IH as [|c cs Hc _ IHcs]; [done|]. cbn. rewrite length_app. fold (list_max (map (λ c : TreeNode, Datatypes.S (height c)) cs)). change (mbind preorder cs) with (cs ≫= preorder). lia.
Qed.

(** What [CreateRoster] and [CreateTree] make has identifiers of 16 bytes. *)
Lemma made_ids_sized el u :
  Rosters.ID el = NewV4 u →
  (∀ c, (c < length (Rosters.List el))%nat → ∃ e, Rosters.List el !! c = Some e ∧
     e = Network.NewServerIdentity (Network.Public e) (Network.Address e)) → ids_sized el.
Proof using UL.
  intros Hid Hall. split; [rewrite Hid; apply NewV4_length|]. apply Forall_forall. intros e [c Hc]%list_elem_of_lookup.
  destruct (Hall c ltac:(by eapply lookup_lt_Some)) as (e' & He' & E). rewrite Hc in He'. injection He' as <-.
  rewrite E. apply NewV5_length.
Qed.

Lemma made_nodes_sized (el : Roster) N (l : list TreeNode) :
  ids_sized el → Forall (BigTree.node_ok (Rosters.List el) N) l → Forall (λ m, ∃ q, tn_ID m = NewV4 q) l →
  Forall node_sized l.
Proof using UL.
  intros [_ Hel] Hok Hids. apply Forall_forall. intros m Hm.
  destruct (proj1 (Forall_forall _ _) Hids m Hm) as [q Hq], (proj1 (Forall_forall _ _) Hok m Hm) as (_ & _ & si & Hsi & Hl).
  split; [rewrite Hq; apply NewV4_length|].
  rewrite Hsi. intros e [= <-]. apply (proj1 (Forall_forall _ _) Hel). by eapply list_elem_of_lookup_2.
Qed.

(** A machine of one of the addresses loads the file: its servers, by their places
    in the roster, with their keys. *)
Lemma load_machine (f : SimulationConfigFile) m el t c a :
  f_TreeMarshal f = Some m → f_Roster f = Some el → MakeTree m el = Ret t →
  (∀ e0, Rosters.List el !! 0%nat = Some e0 → localhost (Network.Address e0) = false) →
  (c < length (Rosters.List el))%nat → a ≠ [] → x3a ∉ a →
  (∃ e x q, Rosters.List el !! c = Some e ∧ Network.Address e = Addresses.NewAddress Addresses.PlainTCP (a ++ str ":" ++ q) ∧
     f_PrivateKeys f !! Network.Address e = Some x) →
  let own := own_servers a el (f_PrivateKeys f) in
  load_config f a = Ret {| l_Tree := t; l_Roster := el; l_PrivateKeys := f_PrivateKeys f; l_Config := f_Config f; l_Servers := own |} ∧
  c ∈ own.*1.
Proof.
  intros Hm Hel Hmake Hloc Hc Hane Hcol (e & x & q & He & Hadd & Hx) own.
  pose proof (own_server a el (f_PrivateKeys f) c e He) as Hown. unfold with_colon in Hown. change (str ":") with [x3a] in *.
  rewrite (Contains_byte a x3a Hcol), Hadd in Hown. unfold Addresses.NewAddress in Hown.
  rewrite !app_assoc, <-(app_assoc _ a), <-(app_assoc _ (a ++ [x3a])), Contains_app in Hown. specialize (Hown eq_refl).
  split; [|apply list_elem_of_fmap; by eexists (c, _)].
  unfold load_config. rewrite Hm, Hel. cbn [deref obind]. rewrite Hmake. cbn [obind]. rewrite decide_False by done.
  fold own. fold own in Hown. destruct own as [|o own']; [by apply elem_of_nil in Hown|]. cbn [obind].
  destruct (lookup_in_range (Rosters.List el) 0) as [e0 He0]; [lia|].
  rewrite (index_Ret _ 0 e0 He0 : index _ 0 = _). cbn [obind]. by rewrite (Hloc e0 He0).
Qed.

(** C34: the set-up of a simulation on hosts that are names or addresses other than
    [127.0.0.x].  [CreateRoster] and [CreateTree] give a tree of as many nodes as
    asked that uses every server once; what [Save] writes, whatever the order in
    which it visits the keys, [LoadSimulationConfig] reads on each machine as the
    same tree, roster, keys and settings, and starts there every server on its
    host, each with the private key of its public key. *)
Theorem simulation_setup fuel s sc k ps u first :
  SingleHost s = false → 1 <= Hosts s → BigTree.fits (BF s) (Hosts s) → addresses !! 0%nat = Some first → localhost first = false →
  Forall (λ a, Addresses.host_ok lower_unicode a ∧ x3a ∉ a ∧ a ≠ []) addresses →
  k.2 ≡ point_mul None k.1 → port + 2 * Hosts s <= 65535 → (2 * Z.to_nat (Hosts s) < fuel)%nat → (Z.to_nat (Hosts s) <= depth)%nat →
  ∃ sc1 el sc2 u2 t root,
    CreateRoster s sc addresses port k ps u = Ret sc1 ∧ sc_Roster sc1 = Some el ∧
    CreateTree fuel s sc1 (Datatypes.S u) = Ret (sc2, u2) ∧ sc_Roster sc2 = Some el ∧ sc_Tree sc2 = Some t ∧ t_Root t = Some root ∧ Size t = Ret (Hosts s) ∧
    tn_ServerIdentity <$> preorder root ≡ₚ Some <$> Rosters.List el ∧
    (Rosters.distinct el → ∀ order, order ≡ₚ map_to_list (PrivateKeys sc2) →
       ∃ b, yields (λ f, Save f tr order sc2) (Ret b) ∧
       (Z.of_nat (length b) < 2 ^ 64 → ∀ c a, (c < length (Rosters.List el))%nat → addresses !! (c mod n)%nat = Some a →
         ∃ own, yields (λ f, LoadSimulationConfig f tr (Ret b) a)
           (Ret {| l_Tree := t; l_Roster := el; l_PrivateKeys := PrivateKeys sc2; l_Config := Config sc; l_Servers := own |}) ∧
           c ∈ own.*1 ∧
           ∀ i x, (i, x) ∈ own → ∃ e y, Rosters.List el !! i = Some e ∧ x = Some y ∧ Network.Public e ≡ point_mul None y)).
Proof using All.
  intros Hs Hh1 Hfits H0 Hloc Hhosts Hk Hp Hf Hdepth. pose proof n_pos as Hn.
  destruct (create_roster_correct s sc k ps u first) as (sc1 & el & Hc & Hel & Hconf & _ & Hlen & Hall & Hnd & Hrid); [done..|lia|done|done|done|lia|].
  destruct (BigTree.big_tree_generated lower_unicode fuel el (BF s) (Hosts s) (Datatypes.S u))
    as (t & root & Ht & Hroot & Hros & (p & Hagg) & Hsize & Hok & _ & Hnids & (url & Htid') & Hperm & _); [done| | |lia|lia|].
  { apply made_hosts_ok; [|eapply Forall_impl; [exact Hhosts|]; by intros a (? & ? & ?)|lia].
    intros c Hlt. destruct (Hall c Hlt) as (a & e & x & Ha & He & Hadd & _). exists a, e, (c / n)%nat. done. }
  { intros E. rewrite E in Hlen. cbn in Hlen. lia. }
  exists sc1, el, {| sc_Tree := Some t; sc_Roster := Some el; PrivateKeys := PrivateKeys sc1; Config := Config sc |},
    (Datatypes.S u + Z.to_nat (Hosts s))%nat, t, root.
  split; [done|]. split; [done|]. split. { unfold CreateTree. by rewrite Hel, Ht, Hconf. } split; [done|]. split; [done|]. split; [done|]. split; [done|]. split; [by apply Hperm|].
  intros Hd order Horder. destruct (marshal_same el t root p Hroot Hros (big_in_roster _ _ _ Hd Hok) Hagg) as (m & Hm & Hmake & _).
  assert (ids_sized el) as Hsized.
  { apply (made_ids_sized el u Hrid). intros c Hlt. destruct (Hall c Hlt) as (_ & e & _ & _ & He & _ & _ & _ & Heq). by exists e. }
  assert (Z.of_nat (length (preorder root)) = Hosts s) as Hsz.
  { rewrite (Size_preorder t root Hroot) in Hsize. by injection Hsize. }
  destruct (file_save_load order {| sc_Tree := Some t; sc_Roster := Some el; PrivateKeys := PrivateKeys sc1; Config := Config sc |} t el root p m)
    as (b & Hb & Hload); [done..|by rewrite Htid'; apply NewV5_length|done|by eapply made_nodes_sized|pose proof (height_size root); lia|].
  exists b. split; [exact Hb|]. intros Hlb c a Hlt Ha. specialize (Hload Hlb a).
  destruct (Hall c Hlt) as (a' & e & x & Ha' & He & Hadd & Hx & _). rewrite Ha in Ha'. injection Ha' as <-.
  rewrite Forall_forall in Hhosts. destruct (Hhosts a) as (_ & Hcol & Hane); [by eapply list_elem_of_lookup_2|].
  edestruct (λ f, load_machine f m el t c a) as [Hl Hown]; [..|exists (own_servers a el (PrivateKeys sc1)); split; [exact (Hload _ Hl)|split; [exact Hown|]]];
    [done..| |done|done|done|by eexists e, x, _|].
  - intros e0 He0. destruct (Hall 0%nat ltac:(lia)) as (a0 & e0' & _ & Ha0 & He0' & Hadd0 & _). rewrite Nat.Div0.mod_0_l, H0 in Ha0. injection Ha0 as <-.
    rewrite He0 in He0'. injection He0' as <-. rewrite Hadd0. apply localhost_address; [done|]. rewrite Nat.Div0.div_0_l. lia.
  - intros i y Hin. destruct (own_servers_inv _ _ _ _ _ Hin) as (ei & Hei & ->). pose proof (lookup_lt_Some _ _ _ Hei) as Hli.
    destruct (Hall i Hli) as (_ & e' & y & _ & He' & _ & Hy & Hpy & _). rewrite Hei in He'. injection He' as <-. exists ei, y. done.
Qed.
End creation.
End simulations.
End Simulations.

(** ** Examples and witnesses *)
Module SimulExample.
Import ZSuite TreeExample NetExample Encoding Trees TreeCodec TreeCodecExample RunConfigs Builds Simulations.

Abbreviation same := (λ s : bytes, s).

Definition settings : list (bytes * bytes) := [(str "Simulation", str "Count"); (str "BF", str "2")].
Definition columns : list bytes := [str "Hosts"; str "Depth"].
Definition table : list (list bytes) := [[str "5"; str "3"]; [str "7"]].
Definition observe (rc : RunConfig) : bytes * (Z * bool) * (Z * bool) * (Z * bool) :=
  (Get same rc (str "simulation"), GetInt same rc (str "hosts"), GetInt same rc (str "bf"), GetInt same rc (str "depth")).

Lemma read_run_file_correct_witness : ∃ rcs, ReadRunFile same same (run_file settings columns table) = Ret rcs ∧
  observe <$> rcs = [(str "Count", (5, true), (2, true), (3, true)); (str "Count", (7, true), (2, true), (0, false))].
Proof.
  eexists. split; [apply (read_run_file_correct same same settings columns table)|by_vm].
  - apply (bool_decide_unpack _). by vm_compute.
  - apply (bool_decide_unpack _). by vm_compute.
  - by exists (str "Hosts").
  - apply (bool_decide_unpack _). by vm_compute.
Defined.

(** An empty line at the end is one more run, with an empty first value; a row that
    is longer than the names panics. *)
Example read_run_file_examples :
  (match ReadRunFile same same (run_file settings columns table ++ [[]]) with Ret rcs => length rcs | _ => 0%nat end) = 3%nat ∧
  ReadRunFile same same [[]; str "Hosts"; str "1, 2"] = Panic "index out of range".
Proof. split; by_vm. Qed.

Definition asked : RunConfig := put_all same NewRunConfig [(str "hosts", str "20"); (str "bf", str "2")].

Definition checked : RunConfig := match CheckHosts same 21 asked with Ret rc => rc | _ => ∅ end.

Lemma check_hosts_correct_witness : ∃ rc', CheckHosts same 21 asked = Ret rc' ∧ GetInt same rc' (str "depth") = (4, true).
Proof.
  destruct (check_hosts_correct same 21 asked) as (rc' & h & b & d & Hc & _); [vm_compute; split; done|by vm_compute|by vm_compute|..].
  - intros H. exfalso. revert H. by vm_compute.
  - intros H. exfalso. revert H. by vm_compute.
  - apply Nat.ltb_lt. by vm_compute.
  - exists rc'. split; [exact Hc|]. assert (rc' = checked) as -> by (unfold checked; by rewrite Hc). by_vm.
Defined.

(** The range [:4] selects all of ten runs. *)
Lemma start_stop_correct_witness : getStartStop (Itoa 3 ++ str ":" ++ Itoa 4) 10 = Ret (3, 4) ∧ getStartStop (str ":4") 10 = Ret (0, 9).
Proof.
  destruct (start_stop_correct 3 4 10) as (_ & H1 & _ & H2 & _); [lia|lia|]. split; [exact H1|exact H2].
Defined.

Definition report : bytes :=
  match RunTests (λ _, str "1.0") (λ _ _, None) [] (str "old") [(false, None); (false, Some MonitorExample.run2)] with Ret t => t | _ => [] end.

(** When the first run fails there is no header. *)
Lemma results_table_witness :
  ∃ text, RunTests (λ _, str "1.0") (λ _ _, None) [] (str "old") [(false, None); (false, Some MonitorExample.run2)] = Ret text ∧
    text ≠ [] ∧ Contains text (str "_min") = false.
Proof.
  destruct (results_table (λ _, str "1.0") (λ _ _, None) (str "old") [None; Some MonitorExample.run2]) as (h & rows & H & _ & _).
  - intros s Hs. rewrite !elem_of_cons, elem_of_nil in Hs. destruct Hs as [?|[[= ->]|[]]]; [done|]. apply MonitorExample.after_ok.
  - exists (h ++ concat (Statistics.line <$> rows)). split; [exact H|]. revert H. generalize (h ++ concat (Statistics.line <$> rows)).
    intros t H. assert (t = report) as -> by (unfold report; cbn [fmap list_fmap] in H; by rewrite H). split; [by vm_compute|by_vm].
Defined.

Definition hosts : list bytes := [str "10.0.0.1"; str "10.0.0.2"].
Definition four : SimulationBFTree := {| BF := 2; Hosts := 4; SingleHost := false |}.
Definition empty : SimulationConfig := {| sc_Tree := None; sc_Roster := None; PrivateKeys := ∅; Config := str "Hosts = 4" |}.
Abbreviation save := (λ f, Save z_gens type_string 4 f ∅).
Abbreviation load := (λ f, LoadSimulationConfig same z_gens type_string ∅ 4 f ∅).

(** What is made on these hosts. *)
Definition made (addresses : list bytes) (ps : list (Z * bool)) : outcome error SimulationConfig :=
  let! sc := CreateRoster four empty addresses 2000 (5, 5) ps 7 in
  let! (sc, _) := CreateTree same 20 four sc 8 in Ret sc.

Definition made_config : SimulationConfig := match made hosts [] with Ret sc => sc | _ => empty end.
Definition made_roster : Roster := default ros (sc_Roster made_config).
Definition made_tree : Tree := default tree (sc_Tree made_config).
Definition file_bytes : bytes :=
  match save 20%nat (map_to_list (PrivateKeys made_config)) made_config with Ret b => b | _ => [] end.

Lemma saved : yields (λ f, save f (map_to_list (PrivateKeys made_config)) made_config) (Ret file_bytes).
Proof. exists 20%nat. intros f Hf. replace f with (20 + (f - 20))%nat by lia. generalize (f - 20)%nat. intros k. by_vm. Qed.

Lemma Ret_inj {A} (a b : A) : Ret (E := error) a = Ret b → a = b.
Proof. by intros [= ->]. Qed.

(** The second machine loads what is saved and starts its servers, with the places 1 and 3. *)
Lemma simulation_setup_witness :
  made hosts [] = Ret made_config ∧ file_bytes ≠ [] ∧
  ∃ own, yields (λ f, load f (Ret file_bytes) (str "10.0.0.2"))
    (Ret {| l_Tree := made_tree; l_Roster := made_roster; l_PrivateKeys := PrivateKeys made_config;
            l_Config := str "Hosts = 4"; l_Servers := own |}) ∧ 1%nat ∈ own.*1 ∧ 3%nat ∈ own.*1.
Proof.
  destruct (simulation_setup same z_gens type_string ∅ 4 hosts 2000 ltac:(done) ltac:(by apply (bool_decide_unpack _)) ltac:(done) ltac:(done)
      ∅ ltac:(by vm_compute) ltac:(done)
      20 four empty (5, 5) [] 7 (str "10.0.0.1"))
    as (sc1 & el & sc2 & u2 & t & root & H1 & H2 & H3 & H4 & H5 & _ & _ & _ & H6).
  1-5, 7-8: by vm_compute.
  1: repeat constructor; first [by left | by apply (bool_decide_unpack _)].
  1-2: vm_compute; lia.
  assert (made hosts [] = Ret sc2) as Hmade by (unfold made; by rewrite H1; cbn [obind]; rewrite H3).
  assert (made_config = sc2) as <- by (unfold made_config; by rewrite Hmade).
  assert (made_roster = el) as <- by (unfold made_roster; by rewrite H4).
  assert (made_tree = t) as <- by (unfold made_tree; by rewrite H5).
  split; [exact Hmade|]. split; [by vm_compute|].
  destruct (H6 ltac:(apply (bool_decide_unpack _); by vm_compute) _ (Permutation_refl _)) as (b & Hb & Hload).
  rewrite (Ret_inj _ _ (yields_fun _ _ _ Hb saved)) in Hload.
  destruct (Hload ltac:(by apply Z.ltb_lt; vm_compute) 1%nat (str "10.0.0.2")) as (own & Hl & Hin & _); [vm_compute; lia|done|].
  destruct (Hload ltac:(by apply Z.ltb_lt; vm_compute) 3%nat (str "10.0.0.2")) as (own' & Hl' & Hin' & _); [vm_compute; lia|done|].
  pose proof (f_equal l_Servers (Ret_inj _ _ (yields_fun _ _ _ Hl Hl'))) as E. cbn [l_Servers] in E. subst own'.
  exists own. split; [exact Hl|]. split; [exact Hin|exact Hin'].
Defined.

(** On addresses of this machine the loaded roster and tree have the addresses that
    were stripped, other ones than the tree that was saved, and the keys are still
    filed under the old ones. *)
Definition local_config : SimulationConfig :=
  match made [str "127.0.0.1"; str "127.0.0.2"] [(2000, true); (2002, true); (2004, false); (2006, true); (2008, true)] with
  | Ret sc => sc
  | _ => empty
  end.
Definition loaded_local : outcome error Loaded :=
  let! b := save 20%nat (map_to_list (PrivateKeys local_config)) local_config in load 20%nat (Ret b) (str "127.0.0.2").
Definition stripped (ports : list bytes) : list bytes := (λ p, str "tcp://127.0.0.1:" ++ p) <$> ports.
Definition in_roster_order : list bytes := [str "2000"; str "2002"; str "2006"; str "2008"].
Definition in_preorder : list bytes := [str "2000"; str "2002"; str "2008"; str "2006"].
Definition tree_addresses (t : option Tree) : list bytes :=
  match t with
  | Some t => match t_Root t with Some r => Network.Address <$> omap tn_ServerIdentity (preorder r) | None => [] end
  | None => []
  end.
Definition has_key (ks : gmap bytes Scalar) (a : bytes) : bool := match ks !! a with Some _ => true | None => false end.
Definition observe_loaded (l : Loaded) : list bytes * list bytes * list nat * list bool :=
  (Network.Address <$> Rosters.List (l_Roster l), tree_addresses (Some (l_Tree l)), fst <$> l_Servers l,
   has_key (l_PrivateKeys l) <$> stripped in_roster_order).

Example local_addresses :
  (match loaded_local with Ret l => Some (observe_loaded l) | _ => None end)
    = Some (stripped in_roster_order, stripped in_preorder, [1; 3]%nat, [true; false; true; false]) ∧
  tree_addresses (sc_Tree local_config) !! 1%nat = Some (str "tcp://127.0.0.2:2002").
Proof. split; by_vm. Qed.

(** The machine [10.0.0.1] also starts the servers of [110.0.0.1]. *)
Example own_servers_example :
  (match CreateRoster (S := Zsuite) {| BF := 2; Hosts := 2; SingleHost := false |} empty [str "10.0.0.1"; str "110.0.0.1"] 2000 (5, 5) [] 7 with
   | Ret sc => match sc_Roster sc with Some el => (own_servers (str "10.0.0.1") el (PrivateKeys sc)).*1 | None => [] end
   | _ => []
   end) = [0%nat; 1%nat].
Proof. by_vm. Qed.
End SimulExample.
