(* ===== verification/Skipchain.v ===== *)
(** * The skipchain library ([gopkg.in/dedis/cothority.v1/skipchain])

    Third-party code: the record fields are the ones the source reads, the
    methods it calls are the operations of [SkipchainLib], and [SkipchainLaws]
    is their documented behaviour.  [ToySkipchain] is a concrete library for
    closed computations. *)
From S2P Require Import Prelude Suite Schnorr Tree.
Local Open Scope Z_scope.

Abbreviation SkipBlockID := bytes.

Record BlockLink := {
  bl_Hash : SkipBlockID;
  bl_Signature : bytes;
}.

Section blocks.
Context {S : Suite}.

(** The part of a block that is hashed; [fix_rest] stands for the fields the
    source never touches (heights, verifiers). *)
Record SkipBlockFix := {
  Index : Z;
  BackLinkIDs : list SkipBlockID;
  ParentBlockID : SkipBlockID;
  GenesisID : SkipBlockID;
  Data : bytes;
  sb_Roster : option Roster;
  fix_rest : bytes;
}.

Record SkipBlock := {
  sb_Fix : SkipBlockFix;
  Hash : SkipBlockID;
  ForwardLink : list BlockLink;
  ChildSL : list SkipBlockID;
}.

Definition set_ForwardLink (sb : SkipBlock) (l : list BlockLink) : SkipBlock :=
  {| sb_Fix := sb_Fix sb; Hash := Hash sb; ForwardLink := l; ChildSL := ChildSL sb |}.
Definition set_ChildSL (sb : SkipBlock) (l : list SkipBlockID) : SkipBlock :=
  {| sb_Fix := sb_Fix sb; Hash := Hash sb; ForwardLink := ForwardLink sb; ChildSL := l |}.

Class SkipchainLib := {
  SkipChainID : SkipBlock → SkipBlockID;
  IsNull : SkipBlockID → bool;
  id_Equal : SkipBlockID → SkipBlockID → bool;
  GetForwardLen : SkipBlock → Z;
  GetForward : SkipBlock → Z → option BlockLink;
  AddForward : SkipBlock → BlockLink → SkipBlock;
  VerifyForwardSignatures : SkipBlock → outcome error unit;
  VerifySignature : BlockLink → list Point → outcome error unit;
  CalculateHash : SkipBlockFix → SkipBlockID;
}.

Class SkipchainLaws (L : SkipchainLib) : Prop := {
  SkipChainID_spec sb :
    SkipChainID sb = if Index (sb_Fix sb) =? 0 then Hash sb else GenesisID (sb_Fix sb);
  id_Equal_spec a b : id_Equal a b = bool_decide (a = b);
  GetForwardLen_spec sb : GetForwardLen sb = Z.of_nat (length (ForwardLink sb));
  GetForward_spec sb i : 0 <= i → GetForward sb i = ForwardLink sb !! Z.to_nat i;
  AddForward_spec sb fl : AddForward sb fl = set_ForwardLink sb (ForwardLink sb ++ [fl]);
}.
End blocks.
Arguments SkipBlockFix : clear implicits. Arguments SkipBlockFix {S}.
Arguments SkipBlock : clear implicits. Arguments SkipBlock {S}.
Arguments SkipchainLib : clear implicits. Arguments SkipchainLib {S}.
Arguments SkipchainLaws : clear implicits. Arguments SkipchainLaws {S} L.

(** ** Growing blocks

    Known blocks only ever gain forward and child links. *)
Section grows.
Context {S : Suite}.

Definition grows (sb sb' : SkipBlock) : Prop :=
  sb_Fix sb' = sb_Fix sb ∧ Hash sb' = Hash sb ∧
  ForwardLink sb `prefix_of` ForwardLink sb' ∧ ChildSL sb `prefix_of` ChildSL sb'.

#[global] Instance grows_preorder : PreOrder grows.
Proof.
  split.
  - intros sb. done.
  - intros a b c (F1 & H1 & L1 & C1) (F2 & H2 & L2 & C2).
    split; [congruence|]. split; [congruence|]. split; etrans; done.
Qed.

(** Blocks are shared through pointers: a heap of blocks. *)
Abbreviation ptr := nat.
Abbreviation Heap := (gmap ptr SkipBlock).

Definition heap_grows (h h' : Heap) : Prop :=
  ∀ p sb, h !! p = Some sb → ∃ sb', h' !! p = Some sb' ∧ grows sb sb'.

#[global] Instance heap_grows_preorder : PreOrder heap_grows.
Proof.
  split.
  - intros h p sb Hp. exists sb. split; [done|reflexivity].
  - intros h1 h2 h3 H1 H2 p sb Hp.
    destruct (H1 p sb Hp) as (sb1 & Hp1 & G1). destruct (H2 p sb1 Hp1) as (sb2 & Hp2 & G2).
    exists sb2. split; [done|]. by etrans.
Qed.

Lemma heap_grows_insert h p sb sb' :
  h !! p = Some sb → grows sb sb' → heap_grows h (<[p := sb']> h).
Proof.
  intros Hp G q sbq Hq. destruct (decide (p = q)) as [<-|Hne].
  - rewrite lookup_insert_eq. simplify_eq. eauto.
  - rewrite lookup_insert_ne by done. exists sbq. split; [done|reflexivity].
Qed.

End grows.
Abbreviation Heap := (gmap nat SkipBlock).
Abbreviation ptr := nat.

(** ** A concrete library *)

Module ToySkipchain.
Section toy.
Context {S : Suite}.

(** A link is well signed when its signature repeats the hash it points to. *)
Definition toy_verify (fl : BlockLink) (publics : list Point) : outcome error unit :=
  if decide (bl_Signature fl = bl_Hash fl) then Ret tt else Err "wrong signature".

#[global] Instance toy_skipchain : SkipchainLib := {|
  SkipChainID sb := if Index (sb_Fix sb) =? 0 then Hash sb else GenesisID (sb_Fix sb);
  IsNull id := bool_decide (id = []);
  id_Equal a b := bool_decide (a = b);
  GetForwardLen sb := Z.of_nat (length (ForwardLink sb));
  GetForward sb i := if i <? 0 then None else ForwardLink sb !! Z.to_nat i;
  AddForward sb fl := set_ForwardLink sb (ForwardLink sb ++ [fl]);
  VerifyForwardSignatures sb :=
    let! _ := omapM (λ fl, toy_verify fl []) (ForwardLink sb) in Ret tt;
  VerifySignature := toy_verify;
  CalculateHash f := byte_of (Index f) :: Data f;
|}.

#[global] Instance toy_skipchain_laws : SkipchainLaws toy_skipchain.
Proof.
  split; try done. intros sb i Hi. cbn. by rewrite (proj2 (Z.ltb_ge _ _)) by lia.
Qed.
End toy.
End ToySkipchain.
