(* ===== verification/Bunch.v ===== *)
(** * Skipblock storage ([onchain-secrets/bunch.go])

    [Bunch] models [SkipBlockBunch]: the blocks of one skipchain, indexed by
    hash, as pointers into a heap of blocks, with [Latest] an alias of one of
    them.  [Storage] models [SBBStorage].  Ranging over a Go map visits the
    entries in an unspecified order, given here as an argument. *)
From S2P Require Import Prelude Suite Schnorr Tree Skipchain.
Local Open Scope Z_scope.

Module Bunch.
Section bunch.
Context {S : Suite} {L : SkipchainLib}.

Record SkipBlockBunch := {
  bunch_GenesisID : SkipBlockID;
  Latest : ptr;
  SkipBlocks : gmap bytes ptr;
}.

Definition NewSkipBlockBunch (h : Heap) (sb : ptr) : outcome error SkipBlockBunch :=
  let! b := deref (h !! sb) in
  Ret {| bunch_GenesisID := SkipChainID b; Latest := sb;
         SkipBlocks := {[ Hash b := sb ]} |}.

Definition GetByID (sbb : SkipBlockBunch) (sbID : SkipBlockID) : option ptr :=
  SkipBlocks sbb !! sbID.

(** The forward-link loop of [Store]: the links are appended one by one to the
    known block until a signature does not verify. *)
Fixpoint add_forward (publics : list Point) (sbOld : SkipBlock) (fls : list BlockLink)
    : outcome error (SkipBlock * bool) :=
  match fls with
  | [] => Ret (sbOld, true)
  | fl :: fls =>
      match VerifySignature fl publics with
      | Ret _ => add_forward publics (AddForward sbOld fl) fls
      | Err _ => Ret (sbOld, false)
      | Panic w => Panic w
      | OutOfFuel => OutOfFuel
      end
  end.

(** [Store]: the result is the hash, or [None] for nil when a new forward link
    of a known block is not well signed. *)
Definition Store (h : Heap) (sbb : SkipBlockBunch) (sb : ptr)
    : outcome error (Heap * SkipBlockBunch * option SkipBlockID) :=
  let! b := deref (h !! sb) in
  match SkipBlocks sbb !! Hash b with
  | Some old =>
      let! sbOld := deref (h !! old) in
      let! (sbOld, ok) :=
        if GetForwardLen sbOld <? GetForwardLen b then
          let! r := deref (sb_Roster (sb_Fix sbOld)) in
          add_forward (Rosters.Publics r) sbOld
                      (drop (length (ForwardLink sbOld)) (ForwardLink b))
        else Ret (sbOld, true) in
      let h := <[old := sbOld]> h in
      if negb ok then Ret (h, sbb, None)
      else
        let! b := deref (h !! sb) in
        let sbOld :=
          if (length (ChildSL sbOld) <? length (ChildSL b))%nat
          then set_ChildSL sbOld
                 (ChildSL sbOld ++ drop (length (ChildSL sbOld)) (ChildSL b))
          else sbOld in
        Ret (<[old := sbOld]> h, sbb, Some (Hash b))
  | None =>
      let! latest := deref (h !! Latest sbb) in
      Ret (h,
           {| bunch_GenesisID := bunch_GenesisID sbb;
              Latest := if Index (sb_Fix latest) <? Index (sb_Fix b) then sb
                        else Latest sbb;
              SkipBlocks := <[Hash b := sb]> (SkipBlocks sbb) |},
           Some (Hash b))
  end.

Definition Length (sbb : SkipBlockBunch) : Z := Z.of_nat (size (SkipBlocks sbb)).

(** [GetResponsible]: a nil block is a panic. *)
Definition GetResponsible (h : Heap) (sbb : SkipBlockBunch) (sb : option ptr)
    : outcome error ptr :=
  let! p := deref sb in
  let! b := deref (h !! p) in
  if Index (sb_Fix b) =? 0 then
    if IsNull (ParentBlockID (sb_Fix b)) then Ret p
    else match GetByID sbb (ParentBlockID (sb_Fix b)) with
         | None => Err "No Roster and no parent"
         | Some ret => Ret ret
         end
  else
    match BackLinkIDs (sb_Fix b) with
    | [] => Err "Invalid block: no backlink"
    | back :: _ => match GetByID sbb back with
                   | None => Err "Didn't find responsible"
                   | Some prev => Ret prev
                   end
    end.

(** [VerifyLinks]. *)
Definition VerifyLinks (h : Heap) (sbb : SkipBlockBunch) (sb : SkipBlock)
    : outcome error unit :=
  match BackLinkIDs (sb_Fix sb) with
  | [] => Err "need at least one backlink"
  | back :: _ =>
      let! _ := omap_err (λ e, String.append "Wrong signatures: " e)
                  (VerifyForwardSignatures sb) in
      let! _ :=
        if negb (IsNull (ParentBlockID (sb_Fix sb))) then
          match GetByID sbb (ParentBlockID (sb_Fix sb)) with
          | None => Err "Didn't find parent"
          | Some p =>
              let! parent := deref (h !! p) in
              let! _ := VerifyForwardSignatures parent in
              if existsb (λ child, id_Equal child (Hash sb)) (ChildSL parent) then Ret tt
              else Err "parent doesn't know about us"
          end
        else Ret tt in
      if Index (sb_Fix sb) =? 0 then Ret tt
      else
        match GetByID sbb back with
        | None => if 0 <? GetForwardLen sb then Ret tt
                  else Err "Didn't find height-0 skipblock in sbm"
        | Some p =>
            let! sbBack := deref (h !! p) in
            let! _ := VerifyForwardSignatures sbBack in
            let! fl := deref (GetForward sbBack 0) in
            if negb (id_Equal (bl_Hash fl) (Hash sb))
            then Err "didn't find our block in forward-links"
            else Ret tt
        end
  end.

(** [strings.HasPrefix], [HasSuffix] and [Contains]. *)
Definition HasPrefix (s pre : bytes) : bool := bool_decide (take (length pre) s = pre).
Definition HasSuffix (s suf : bytes) : bool :=
  bool_decide (length suf ≤ length s)%nat
  && bool_decide (drop (length s - length suf) s = suf).
Fixpoint Contains (s sub : bytes) : bool :=
  HasPrefix s sub || match s with [] => false | _ :: s => Contains s sub end.

Fixpoint first_match (h : Heap) (f : bytes → bool) (range : list ptr) : option ptr :=
  match range with
  | [] => None
  | p :: range =>
      match h !! p with
      | Some sb => if f (hex_encode (Hash sb)) then Some p else first_match h f range
      | None => first_match h f range
      end
  end.

(** [GetFuzzy]: three loops over the map, each in its own order. *)
Definition GetFuzzy (h : Heap) (range1 range2 range3 : list ptr) (id : bytes) : option ptr :=
  match first_match h (λ s, HasPrefix s id) range1 with
  | Some p => Some p
  | None =>
      match first_match h (λ s, HasSuffix s id) range2 with
      | Some p => Some p
      | None => first_match h (λ s, Contains s id) range3
      end
  end.

(** ** Invariant *)

(** Every entry is stored under its hash; [Latest] is one of the entries and
    none has a higher index. *)
Record BunchInv (h : Heap) (sbb : SkipBlockBunch) : Prop := {
  inv_keyed : ∀ k p, SkipBlocks sbb !! k = Some p → ∃ sb, h !! p = Some sb ∧ Hash sb = k;
  inv_latest : ∃ l, h !! Latest sbb = Some l ∧ SkipBlocks sbb !! Hash l = Some (Latest sbb)
                    ∧ ∀ k p sb, SkipBlocks sbb !! k = Some p → h !! p = Some sb →
                                Index (sb_Fix sb) <= Index (sb_Fix l);
}.

Lemma BunchInv_grows h h' sbb : heap_grows h h' → BunchInv h sbb → BunchInv h' sbb.
Proof.
  intros G [Hk (l & Hl & Hin & Hmax)]. split.
  - intros k p Hp. destruct (Hk k p Hp) as (sb & Hsb & <-).
    destruct (G p sb Hsb) as (sb' & Hsb' & _ & HH & _). eauto.
  - destruct (G _ _ Hl) as (l' & Hl' & HF & HH & _). exists l'.
    split; [done|]. split; [by rewrite HH|]. intros k p sb' Hp Hsb'.
    destruct (Hk k p Hp) as (sb & Hsb & _).
    destruct (G p sb Hsb) as (sb'' & Hsb'' & HF' & _). simplify_eq.
    rewrite HF, HF'. eauto.
Qed.

Section laws.
Context {LL : SkipchainLaws L}.

Lemma NewSkipBlockBunch_inv h p sbb :
  NewSkipBlockBunch h p = Ret sbb → BunchInv h sbb ∧ Latest sbb = p.
Proof.
  unfold NewSkipBlockBunch. destruct (h !! p) as [b|] eqn:E; [|done]. cbn.
  intros [= <-]. split; [|done]. split; cbn.
  - intros k q [<- <-]%lookup_singleton_Some. eauto.
  - exists b. rewrite lookup_singleton_eq. do 2 (split; [done|]).
    intros k q sb [<- <-]%lookup_singleton_Some Hsb. simplify_eq. lia.
Qed.

(** The links [add_forward] appends are the well signed ones before the first
    that is not. *)
Definition signed (publics : list Point) (fl : BlockLink) : Prop :=
  VerifySignature fl publics = Ret tt.

Lemma add_forward_spec publics sbOld fls sb' ok :
  add_forward publics sbOld fls = Ret (sb', ok) →
  ∃ n, sb' = set_ForwardLink sbOld (ForwardLink sbOld ++ take n fls) ∧
       Forall (signed publics) (take n fls) ∧
       if ok : bool then take n fls = fls
       else ∃ fl e, fls !! n = Some fl ∧ VerifySignature fl publics = Err e.
Proof.
  revert sbOld. induction fls as [|fl fls IH]; intros sbOld; cbn.
  { intros [= <- <-]. exists 0%nat. rewrite app_nil_r. by destruct sbOld. }
  destruct (VerifySignature fl publics) as [[]|e| |] eqn:E; [| |done..].
  - intros (n & -> & Hs & Hok)%IH. exists (Datatypes.S n). rewrite AddForward_spec. cbn.
    rewrite <-app_assoc. split; [done|]. split; [by constructor|].
    destruct ok; [by rewrite Hok|done].
  - intros [= <- <-]. exists 0%nat. cbn. rewrite app_nil_r.
    split; [by destruct sbOld|]. split; [constructor|]. eauto.
Qed.

Lemma grows_forward sb l : grows sb (set_ForwardLink sb (ForwardLink sb ++ l)).
Proof. do 2 (split; [done|]). split; [by apply prefix_app_r|done]. Qed.

Lemma grows_child sb l : grows sb (set_ChildSL sb (ChildSL sb ++ l)).
Proof. do 3 (split; [done|]). by apply prefix_app_r. Qed.

(** The links of [b] the known block [o] has not, and the links of a list
    being well signed for the roster of [o]. *)
Definition fresh (o b : SkipBlock) : list BlockLink :=
  drop (length (ForwardLink o)) (ForwardLink b).

Definition good (o : SkipBlock) (l : list BlockLink) : Prop :=
  l = [] ∨ ∃ ros, sb_Roster (sb_Fix o) = Some ros ∧ Forall (signed (Rosters.Publics ros)) l.

(** The update of a known block [o] by a received block [b]. *)
Definition merged (o b o' : SkipBlock) (r : option SkipBlockID) : Prop :=
  match r with
  | Some id =>
      id = Hash b ∧ good o (fresh o b) ∧
      o' = set_ChildSL (set_ForwardLink o (ForwardLink o ++ fresh o b))
             (ChildSL o ++ drop (length (ChildSL o)) (ChildSL b))
  | None =>
      ∃ n ros fl e, good o (take n (fresh o b)) ∧
        o' = set_ForwardLink o (ForwardLink o ++ take n (fresh o b)) ∧
        sb_Roster (sb_Fix o) = Some ros ∧ fresh o b !! n = Some fl ∧
        VerifySignature fl (Rosters.Publics ros) = Err e
  end.

Lemma merged_grows o b o' r : merged o b o' r → grows o o'.
Proof.
  destruct r as [id|].
  - intros (_ & _ & ->). etrans; [apply grows_forward|].
    apply (grows_child (set_ForwardLink o _)).
  - intros (n & ros & fl & e & _ & -> & _). apply grows_forward.
Qed.

Lemma merge_children o cs :
  (if (length (ChildSL o) <? length cs)%nat
   then set_ChildSL o (ChildSL o ++ drop (length (ChildSL o)) cs) else o)
  = set_ChildSL o (ChildSL o ++ drop (length (ChildSL o)) cs).
Proof.
  destruct (Nat.ltb_spec (length (ChildSL o)) (length cs)); [done|].
  rewrite drop_ge, app_nil_r by lia. by destruct o.
Qed.

Lemma forward_stage o b sbOld ok :
  (if GetForwardLen o <? GetForwardLen b then
     let! r := deref (sb_Roster (sb_Fix o)) in
     add_forward (Rosters.Publics r) o (fresh o b)
   else Ret (o, true)) = Ret (sbOld, ok) →
  if ok : bool then sbOld = set_ForwardLink o (ForwardLink o ++ fresh o b) ∧ good o (fresh o b)
  else merged o b sbOld None.
Proof.
  rewrite !GetForwardLen_spec. destruct (Z.ltb_spec
    (Z.of_nat (length (ForwardLink o))) (Z.of_nat (length (ForwardLink b)))) as [Hlt|Hge].
  - destruct (sb_Roster (sb_Fix o)) as [ros|] eqn:E; [|done]. cbn.
    intros (n & -> & Hs & Hok)%add_forward_spec. destruct ok.
    + rewrite Hok in *. split; [done|]. right. eauto.
    + destruct Hok as (fl & e & Hfl & He). exists n, ros, fl, e.
      split; [right; eauto|]. done.
  - intros [= <- <-]. unfold fresh. rewrite drop_ge, app_nil_r by lia.
    split; [by destruct o|by left].
Qed.

Lemma Store_known h sbb p b old o h' sbb' r :
  h !! p = Some b → SkipBlocks sbb !! Hash b = Some old → h !! old = Some o →
  Store h sbb p = Ret (h', sbb', r) →
  sbb' = sbb ∧ ∃ o', h' = <[old := o']> h ∧ merged o b o' r.
Proof.
  intros Hp Hold Ho. unfold Store. rewrite Hp. cbn. rewrite Hold, Ho. cbn.
  intros ([sbOld ok] & Hfw & Hrest)%obind_ret_inv. apply forward_stage in Hfw.
  destruct ok; cbn [negb] in Hrest; [|naive_solver].
  destruct Hfw as [-> Hgood]. rewrite lookup_insert in Hrest.
  case_decide as Heq; [subst old; rewrite Ho in Hp; injection Hp as <-|rewrite Hp in Hrest];
    cbn [obind deref] in Hrest; rewrite merge_children in Hrest;
    injection Hrest as <- <- <-; rewrite insert_insert_eq; (split; [done|]);
    (eexists; split; [done|]); [|done].
  split; [done|]. split; [done|]. cbn. by rewrite !drop_all.
Qed.

Lemma Store_new h sbb p b :
  h !! p = Some b → SkipBlocks sbb !! Hash b = None →
  is_Some (h !! Latest sbb) →
  ∃ sbb', Store h sbb p = Ret (h, sbb', Some (Hash b)) ∧
    SkipBlocks sbb' = <[Hash b := p]> (SkipBlocks sbb) ∧
    bunch_GenesisID sbb' = bunch_GenesisID sbb ∧
    (Latest sbb' = Latest sbb ∨ Latest sbb' = p).
Proof.
  intros Hp Hnew [l Hl]. unfold Store. rewrite Hp. cbn. rewrite Hnew, Hl. cbn.
  eexists. split; [done|]. cbn. do 2 (split; [done|]). destruct (_ <? _); auto.
Qed.

Lemma BunchInv_insert h sbb p b l :
  BunchInv h sbb → h !! p = Some b → h !! Latest sbb = Some l →
  SkipBlocks sbb !! Hash b = None →
  BunchInv h {| bunch_GenesisID := bunch_GenesisID sbb;
                Latest := if Index (sb_Fix l) <? Index (sb_Fix b) then p else Latest sbb;
                SkipBlocks := <[Hash b := p]> (SkipBlocks sbb) |}.
Proof.
  intros [Hk (l' & Hl' & Hin & Hmax)] Hp Hl Hnew.
  assert (l' = l) as -> by congruence. split; cbn.
  - intros k q [[<- <-]|[_ Hq]]%lookup_insert_Some; eauto.
  - destruct (Z.ltb_spec (Index (sb_Fix l)) (Index (sb_Fix b))) as [Hlt|Hge].
    + exists b. rewrite lookup_insert_eq. do 2 (split; [done|]).
      intros k q sb [[<- <-]|[_ Hq]]%lookup_insert_Some Hsb; simplify_eq; [lia|].
      specialize (Hmax k q sb Hq Hsb). lia.
    + exists l. rewrite lookup_insert_ne by congruence. do 2 (split; [done|]).
      intros k q sb [[<- <-]|[_ Hq]]%lookup_insert_Some Hsb; simplify_eq; [lia|eauto].
Qed.

Lemma Store_inv h sbb p h' sbb' r :
  BunchInv h sbb → Store h sbb p = Ret (h', sbb', r) →
  BunchInv h' sbb' ∧ heap_grows h h' ∧ bunch_GenesisID sbb' = bunch_GenesisID sbb ∧
  SkipBlocks sbb ⊆ SkipBlocks sbb'.
Proof.
  intros HI Hst. destruct (h !! p) as [b|] eqn:Hp.
  2: { unfold Store in Hst. by rewrite Hp in Hst. }
  destruct (SkipBlocks sbb !! Hash b) as [old|] eqn:Hold.
  - destruct (inv_keyed _ _ HI _ _ Hold) as (o & Ho & _).
    destruct (Store_known _ _ _ _ _ _ _ _ _ Hp Hold Ho Hst) as (-> & o' & -> & Hm).
    pose proof (heap_grows_insert h old o o' Ho (merged_grows _ _ _ _ Hm)) as G.
    split; [by eapply BunchInv_grows|done].
  - destruct (inv_latest _ _ HI) as (l & Hl & _). unfold Store in Hst.
    rewrite Hp in Hst. cbn in Hst. rewrite Hold, Hl in Hst. cbn in Hst.
    injection Hst as <- <- <-. split; [by apply BunchInv_insert|].
    split; [reflexivity|]. split; [done|]. by apply insert_subseteq.
Qed.

(** ** Searching *)

Lemma first_match_spec h f range :
  match first_match h f range with
  | Some p => p ∈ range ∧ ∃ sb, h !! p = Some sb ∧ f (hex_encode (Hash sb)) = true
  | None => ∀ p sb, p ∈ range → h !! p = Some sb → f (hex_encode (Hash sb)) = false
  end.
Proof.
  induction range as [|p range IH]; cbn; [set_solver|].
  destruct (h !! p) as [sb|] eqn:E.
  - destruct (f (hex_encode (Hash sb))) eqn:F; [set_solver|].
    destruct (first_match h f range); [set_solver|].
    intros q sb' [->|Hq]%elem_of_cons ?; naive_solver.
  - destruct (first_match h f range); [set_solver|].
    intros q sb' [->|Hq]%elem_of_cons ?; naive_solver.
Qed.

(** The blocks of a bunch, in some iteration order of the Go map. *)
Definition range_of (sbb : SkipBlockBunch) (range : list ptr) : Prop :=
  range ≡ₚ (map_to_list (SkipBlocks sbb)).*2.

(** The block [p] is stored and its printed hash satisfies [f]. *)
Definition stored_with (h : Heap) (sbb : SkipBlockBunch) (f : bytes → bool) (p : ptr) : Prop :=
  ∃ k sb, SkipBlocks sbb !! k = Some p ∧ h !! p = Some sb ∧ f (hex_encode (Hash sb)) = true.

Lemma first_match_range h sbb f range :
  range_of sbb range →
  match first_match h f range with
  | Some p => stored_with h sbb f p
  | None => ∀ p, ¬ stored_with h sbb f p
  end.
Proof.
  intros Hr. pose proof (first_match_spec h f range) as H.
  assert (∀ p, p ∈ range ↔ ∃ k, SkipBlocks sbb !! k = Some p) as Hin.
  { intros p. rewrite Hr, list_elem_of_fmap. split.
    - intros ([k q] & -> & Hk%elem_of_map_to_list). eauto.
    - intros [k Hk]. exists (k, p). split; [done|]. by apply elem_of_map_to_list. }
  destruct (first_match h f range) as [p|].
  - destruct H as (Hp%Hin & sb & Hsb & Hf). destruct Hp as [k Hk]. by exists k, sb.
  - intros p (k & sb & Hk & Hsb & Hf). rewrite (H p sb) in Hf; [done| |done].
    apply Hin. eauto.
Qed.
End laws.
End bunch.
End Bunch.
Export Bunch (inv_keyed, inv_latest, SkipBlockBunch, bunch_GenesisID, Latest, SkipBlocks, BunchInv, stored_with, range_of).

(** [SBBStorage]: the bunches by genesis ID.  The source maps to pointers that
    are never replaced, so the key identifies the bunch. *)
Abbreviation SBBStorage := (gmap bytes SkipBlockBunch).

Module Storage.
Section storage.
Context {S : Suite} {L : SkipchainLib}.


Definition NewSBBStorage : SBBStorage := ∅.

(** [AddBunch]: nil when the bunch exists already. *)
Definition AddBunch (h : Heap) (s : SBBStorage) (sb : ptr)
    : outcome error (SBBStorage * option SkipBlockBunch) :=
  let! b := deref (h !! sb) in
  match s !! SkipChainID b with
  | Some _ => Ret (s, None)
  | None =>
      let! bunch := Bunch.NewSkipBlockBunch h sb in
      Ret (<[SkipChainID b := bunch]> s, Some bunch)
  end.

Definition Store (h : Heap) (s : SBBStorage) (sb : ptr) : outcome error (Heap * SBBStorage) :=
  let! b := deref (h !! sb) in
  let! bunch := match s !! SkipChainID b with
                | Some bunch => Ret bunch
                | None => Bunch.NewSkipBlockBunch h sb
                end in
  let! (h, bunch, _) := Bunch.Store h bunch sb in
  Ret (h, <[SkipChainID b := bunch]> s).

(** [GetByID]: the bunches in iteration order [range]. *)
Fixpoint GetByID (range : list SkipBlockBunch) (id : SkipBlockID) : option ptr :=
  match range with
  | [] => None
  | b :: range =>
      match Bunch.GetByID b id with Some sb => Some sb | None => GetByID range id end
  end.

Definition GetBunch (s : SBBStorage) (genesis : SkipBlockID) : option SkipBlockBunch :=
  s !! genesis.

Definition GetFromGenesisByID (s : SBBStorage) (genesis id : SkipBlockID) : option ptr :=
  match GetBunch s genesis with
  | None => None
  | Some sbc => Bunch.GetByID sbc id
  end.

Definition GetLatest (s : SBBStorage) (genesis : SkipBlockID) : option ptr :=
  match s !! genesis with Some b => Some (Latest b) | None => None end.

(** [GetReg]: [Compile] is [regexp.Compile]; the blocks of all bunches in
    iteration order. *)
Definition GetReg (Compile : bytes → option (bytes → bool)) (h : Heap)
    (range : list ptr) (idRe : bytes) : option ptr :=
  match Compile idRe with
  | None => None
  | Some re => Bunch.first_match h re range
  end.

Definition GetFuzzy (Compile : bytes → option (bytes → bool)) (h : Heap)
    (range : list ptr) (id : bytes) : option ptr :=
  match GetReg Compile h range (String.list_byte_of_string "^" ++ id) with
  | Some sb => Some sb
  | None =>
      match GetReg Compile h range (id ++ String.list_byte_of_string "$") with
      | Some sb => Some sb
      | None => GetReg Compile h range id
      end
  end.

(** Every bunch is well formed and filed under its genesis ID. *)
Definition StorageInv (h : Heap) (s : SBBStorage) : Prop :=
  map_Forall (λ g b, BunchInv h b ∧ bunch_GenesisID b = g) s.

Context {LL : SkipchainLaws L}.

Lemma StorageInv_new h : StorageInv h NewSBBStorage.
Proof. apply map_Forall_empty. Qed.

Lemma StorageInv_grows h h' s : heap_grows h h' → StorageInv h s → StorageInv h' s.
Proof. intros G HI g b Hb. destruct (HI g b Hb). eauto using Bunch.BunchInv_grows. Qed.

Lemma StorageInv_insert h s g b :
  StorageInv h s → BunchInv h b → bunch_GenesisID b = g → StorageInv h (<[g := b]> s).
Proof. intros HI Hb Hg. by apply map_Forall_insert_2. Qed.

Lemma NewSkipBlockBunch_genesis h p b sb :
  h !! p = Some sb → Bunch.NewSkipBlockBunch h p = Ret b →
  bunch_GenesisID b = SkipChainID sb ∧ SkipBlocks b = {[ Hash sb := p ]}.
Proof. intros E. unfold Bunch.NewSkipBlockBunch. rewrite E. cbn. by intros [= <-]. Qed.

Lemma bunch_or_new h s p b sb :
  StorageInv h s → h !! p = Some sb →
  match s !! SkipChainID sb with
  | Some bunch => Ret bunch
  | None => Bunch.NewSkipBlockBunch h p
  end = Ret b → BunchInv h b ∧ bunch_GenesisID b = SkipChainID sb.
Proof.
  intros HI Hp. destruct (s !! SkipChainID sb) as [bunch|] eqn:E.
  - intros [= <-]. exact (HI _ _ E).
  - intros H. split; [by eapply Bunch.NewSkipBlockBunch_inv|].
    by eapply NewSkipBlockBunch_genesis.
Qed.

Lemma Storage_Store_inv h s p h' s' :
  StorageInv h s → Store h s p = Ret (h', s') → StorageInv h' s' ∧ heap_grows h h'.
Proof.
  intros HI. unfold Store. destruct (h !! p) as [sb|] eqn:Hp; [|done]. cbn.
  intros (b & Hb & ([[h1 b1] r] & Hst & [= <- <-])%obind_ret_inv)%obind_ret_inv.
  destruct (bunch_or_new _ _ _ _ _ HI Hp Hb) as [HB Hg].
  destruct (Bunch.Store_inv _ _ _ _ _ _ HB Hst) as (HB1 & G & Hg1 & _).
  split; [|done]. apply StorageInv_insert; [by eapply StorageInv_grows|done|congruence].
Qed.

End storage.
End Storage.
Export Storage (StorageInv).

(** ** Properties *)

Section props.
Context {S : Suite} {L : SkipchainLib} {LL : SkipchainLaws L}.

(** What a call of [Storage.Store] promises. *)
Definition store_promise (h : Heap) (s : SBBStorage) (sb : SkipBlock) (h' : Heap)
    (s' : SBBStorage) : Prop :=
  StorageInv h' s' ∧ heap_grows h h' ∧
  (∀ g id p, Storage.GetFromGenesisByID s g id = Some p →
             Storage.GetFromGenesisByID s' g id = Some p) ∧
  ∃ p' sb', Storage.GetFromGenesisByID s' (SkipChainID sb) (Hash sb) = Some p' ∧
            h' !! p' = Some sb' ∧ Hash sb' = Hash sb.

Lemma Store_finds (h : Heap) b p b' r h' sb :
  BunchInv h b → h !! p = Some sb → Bunch.Store h b p = Ret (h', b', r) →
  is_Some (SkipBlocks b' !! Hash sb).
Proof.
  intros HI Hp Hst. destruct (SkipBlocks b !! Hash sb) as [old|] eqn:Hold.
  - destruct (inv_keyed _ _ HI _ _ Hold) as (o & Ho & _).
    destruct (Bunch.Store_known _ _ _ _ _ _ _ _ _ Hp Hold Ho Hst) as (-> & _). eauto.
  - destruct (inv_latest _ _ HI) as (l & Hl & _).
    destruct (Bunch.Store_new h b p sb Hp Hold) as (b1 & Hst1 & Hsb & _); [eauto|].
    rewrite Hst in Hst1. injection Hst1 as _ -> _. rewrite Hsb, lookup_insert_eq. eauto.
Qed.

Lemma GetBunch_insert (s : SBBStorage) g b id p g' :
  (∀ b0 p, s !! g = Some b0 → SkipBlocks b0 !! id = Some p → SkipBlocks b !! id = Some p) →
  Storage.GetFromGenesisByID s g' id = Some p →
  Storage.GetFromGenesisByID (<[g := b]> s) g' id = Some p.
Proof.
  unfold Storage.GetFromGenesisByID, Storage.GetBunch, Bunch.GetByID. intros Hb.
  destruct (decide (g = g')) as [<-|Hne].
  - rewrite lookup_insert_eq. destruct (s !! g) as [b0|]; [|done]. eauto.
  - rewrite lookup_insert_ne by done. done.
Qed.

Lemma storage_store_keeps h s p h' s' :
  StorageInv h s → Storage.Store h s p = Ret (h', s') →
  (∀ g id q, Storage.GetFromGenesisByID s g id = Some q →
             Storage.GetFromGenesisByID s' g id = Some q) ∧
  (∀ g, is_Some (s !! g) → is_Some (s' !! g)).
Proof.
  intros HI Hst. unfold Storage.Store in Hst.
  apply obind_ret_inv in Hst as (sb & Hsb & Hst).
  destruct (h !! p) as [sb'|] eqn:Hp; [|done]. injection Hsb as ->.
  apply obind_ret_inv in Hst as (b & Hb & ([[h1 b1] r] & Hst & [= <- <-])%obind_ret_inv).
  destruct (Storage.bunch_or_new _ _ _ _ _ HI Hp Hb) as [HB _].
  destruct (Bunch.Store_inv _ _ _ _ _ _ HB Hst) as (HB1 & _ & _ & Hsub).
  split.
  - intros g id q. apply GetBunch_insert. intros b0 q0 Hb0 Hq0.
    rewrite Hb0 in Hb. injection Hb as ->. by eapply lookup_weaken.
  - intros g Hg. destruct (decide (SkipChainID sb = g)) as [<-|Hne].
    + rewrite lookup_insert_eq. eauto.
    + by rewrite lookup_insert_ne.
Qed.

(** C31: storing a block keeps the storage well formed (blocks filed under
    their hash, bunches under their genesis ID, [Latest] an alias of a stored
    block of maximal index), loses no block and no link, and a block with the
    hash of the stored one is found afterwards under its chain; a nil pointer
    is a panic. *)
Theorem storage_store_invariant h s p :
  StorageInv h s →
  match h !! p, Storage.Store h s p with
  | None, r => r = Panic "nil pointer dereference"
  | Some sb, Ret (h', s') => store_promise h s sb h' s'
  | Some sb, _ => True
  end.
Proof.
  intros HI. destruct (h !! p) as [sb|] eqn:Hp.
  2: { unfold Storage.Store. by rewrite Hp. }
  destruct (Storage.Store h s p) as [[h' s']| | |] eqn:Hst; [|done..].
  destruct (Storage.Storage_Store_inv _ _ _ _ _ HI Hst) as [HI' G].
  split; [done|]. split; [done|].
  pose proof (storage_store_keeps _ _ _ _ _ HI Hst) as [Hkeep _].
  unfold Storage.Store in Hst. rewrite Hp in Hst. cbn in Hst.
  apply obind_ret_inv in Hst as (b & Hb & ([[h1 b1] r] & Hst & [= <- <-])%obind_ret_inv).
  destruct (Storage.bunch_or_new _ _ _ _ _ HI Hp Hb) as [HB _].
  destruct (Bunch.Store_inv _ _ _ _ _ _ HB Hst) as (HB1 & _ & _ & Hsub).
  split; [done|].
  - destruct (Store_finds _ _ _ _ _ _ _ HB Hp Hst) as [p' Hp'].
    destruct (inv_keyed _ _ HB1 _ _ Hp') as (sb' & Hsb' & HH). exists p', sb'.
    unfold Storage.GetFromGenesisByID, Storage.GetBunch, Bunch.GetByID.
    rewrite lookup_insert_eq. done.
Qed.

(** C30: a received copy [b] of a known block [o] adds to the stored block
    exactly the forward links it lacks, each of them signed by the roster of
    the stored block, and the children it lacks; at the first badly signed
    link nil is returned, the links before it stay, and nothing else of the
    stored block changes. *)
Theorem bunch_store_merges_links h sbb p b old o h' sbb' r :
  h !! p = Some b → SkipBlocks sbb !! Hash b = Some old → h !! old = Some o →
  Bunch.Store h sbb p = Ret (h', sbb', r) →
  sbb' = sbb ∧ ∃ o', h' = <[old := o']> h ∧
    sb_Fix o' = sb_Fix o ∧ Hash o' = Hash o ∧
    match r with
    | Some id =>
        id = Hash b ∧
        ForwardLink o' = ForwardLink o ++ Bunch.fresh o b ∧
        Bunch.good o (Bunch.fresh o b) ∧
        ChildSL o' = ChildSL o ++ drop (length (ChildSL o)) (ChildSL b)
    | None =>
        ∃ n fl, Bunch.fresh o b !! n = Some fl ∧
          ForwardLink o' = ForwardLink o ++ take n (Bunch.fresh o b) ∧
          Bunch.good o (take n (Bunch.fresh o b)) ∧ ¬ Bunch.good o [fl] ∧
          ChildSL o' = ChildSL o
    end.
Proof.
  intros Hp Hold Ho Hst.
  destruct (Bunch.Store_known _ _ _ _ _ _ _ _ _ Hp Hold Ho Hst) as (-> & o' & -> & Hm).
  split; [done|]. exists o'. split; [done|].
  destruct (Bunch.merged_grows _ _ _ _ Hm) as (HF & HH & _). do 2 (split; [done|]).
  destruct r as [id|].
  - destruct Hm as (-> & Hg & ->). done.
  - destruct Hm as (n & ros & fl & e & Hg & -> & Hros & Hfl & He). exists n, fl.
    do 3 (split; [done|]). split; [|done].
    intros [|(ros' & Hros' & [Hs _]%Forall_cons)]; [done|].
    unfold Bunch.signed in Hs. congruence.
Qed.

(** What [VerifyLinks] accepts. *)
Definition links_ok (h : Heap) (sbb : SkipBlockBunch) (sb : SkipBlock) : Prop :=
  ∃ back backs, BackLinkIDs (sb_Fix sb) = back :: backs ∧
  VerifyForwardSignatures sb = Ret tt ∧
  (IsNull (ParentBlockID (sb_Fix sb)) = false →
   ∃ p parent, SkipBlocks sbb !! ParentBlockID (sb_Fix sb) = Some p ∧
     h !! p = Some parent ∧ VerifyForwardSignatures parent = Ret tt ∧
     Hash sb ∈ ChildSL parent) ∧
  (Index (sb_Fix sb) ≠ 0 →
   match SkipBlocks sbb !! back with
   | None => ForwardLink sb ≠ []
   | Some p => ∃ prev fl, h !! p = Some prev ∧ VerifyForwardSignatures prev = Ret tt ∧
                 head (ForwardLink prev) = Some fl ∧ bl_Hash fl = Hash sb
   end).

Lemma id_Equal_true a b : id_Equal a b = true ↔ a = b.
Proof. rewrite id_Equal_spec. apply bool_decide_eq_true. Qed.

Lemma knows_child (cs : list SkipBlockID) id :
  existsb (λ c, id_Equal c id) cs = true ↔ id ∈ cs.
Proof.
  rewrite existsb_exists. setoid_rewrite id_Equal_true.
  setoid_rewrite <-list_elem_of_In. naive_solver.
Qed.

Lemma GetForward_head (sb : SkipBlock) : GetForward sb 0 = head (ForwardLink sb).
Proof. rewrite GetForward_spec by done. by destruct (ForwardLink sb). Qed.

Lemma verify_parent (h : Heap) (sbb : SkipBlockBunch) (sb : SkipBlock) :
  (if negb (IsNull (ParentBlockID (sb_Fix sb))) then
     match Bunch.GetByID sbb (ParentBlockID (sb_Fix sb)) with
     | None => Err "Didn't find parent"
     | Some p =>
         let! parent := deref (h !! p) in
         let! _ := VerifyForwardSignatures parent in
         if existsb (λ child, id_Equal child (Hash sb)) (ChildSL parent) then Ret tt
         else Err "parent doesn't know about us"
     end
   else Ret tt) = Ret tt ↔
  (IsNull (ParentBlockID (sb_Fix sb)) = false →
   ∃ p parent, SkipBlocks sbb !! ParentBlockID (sb_Fix sb) = Some p ∧
     h !! p = Some parent ∧ VerifyForwardSignatures parent = Ret tt ∧
     Hash sb ∈ ChildSL parent).
Proof.
  destruct (IsNull _); cbn [negb]; [done|]. unfold Bunch.GetByID.
  assert (∀ P Q R : Prop, (P ↔ Q) → (P ↔ (false = false → Q))) as Himp by tauto.
  apply (Himp _ _ True). clear Himp.
  destruct (SkipBlocks sbb !! _) as [p|]; [|split; [done|by intros (? & ? & ? & _)]].
  transitivity (∃ parent, h !! p = Some parent ∧
    VerifyForwardSignatures parent = Ret tt ∧ Hash sb ∈ ChildSL parent); [|naive_solver].
  destruct (h !! p) as [parent|]; cbn [obind deref]; [|naive_solver].
  transitivity (VerifyForwardSignatures parent = Ret tt ∧ Hash sb ∈ ChildSL parent);
    [|naive_solver].
  rewrite <-knows_child.
  destruct (VerifyForwardSignatures parent) as [[]| | |]; cbn [obind]; [|naive_solver..].
  destruct (existsb _ _); naive_solver.
Qed.

(** C32: [VerifyLinks] succeeds exactly on the blocks whose own forward links
    are signed, that their parent lists as a child, and to which the previous
    block points (when the previous block is unknown, a forward link of their
    own is enough). *)
Theorem verify_links_correct h sbb sb :
  Bunch.VerifyLinks h sbb sb = Ret tt ↔ links_ok h sbb sb.
Proof.
  unfold Bunch.VerifyLinks, links_ok.
  destruct (BackLinkIDs (sb_Fix sb)) as [|back backs]; [naive_solver|].
  destruct (VerifyForwardSignatures sb) as [[]| | |] eqn:Hv; cbn [omap_err obind];
    [|naive_solver..].
  pose proof (verify_parent h sbb sb) as Hpar. revert Hpar.
  match goal with |- (?c = _ ↔ _) → _ => destruct c as [[]| | |] end;
    intros Hpar; cbn [obind]; [|split; [done|]; intros (? & ? & _ & _ & H & _);
      apply Hpar in H; done..].
  assert (Index (sb_Fix sb) = 0 ∨ Index (sb_Fix sb) ≠ 0) as [Hz|Hz] by lia.
  { rewrite Hz. cbn. naive_solver. }
  rewrite (proj2 (Z.eqb_neq _ _) Hz). unfold Bunch.GetByID.
  transitivity (match SkipBlocks sbb !! back with
     | None => ForwardLink sb ≠ []
     | Some p => ∃ prev fl, h !! p = Some prev ∧ VerifyForwardSignatures prev = Ret tt ∧
                   head (ForwardLink prev) = Some fl ∧ bl_Hash fl = Hash sb
     end); [|naive_solver].
  destruct (SkipBlocks sbb !! back) as [p|].
  - destruct (h !! p) as [prev|]; cbn [obind deref]; [|naive_solver].
    transitivity (VerifyForwardSignatures prev = Ret tt ∧
      ∃ fl, head (ForwardLink prev) = Some fl ∧ bl_Hash fl = Hash sb); [|naive_solver].
    destruct (VerifyForwardSignatures prev) as [[]| | |]; cbn [obind]; [|naive_solver..].
    rewrite GetForward_head. destruct (head _) as [fl|]; cbn [obind deref]; [|naive_solver].
    pose proof (id_Equal_true (bl_Hash fl) (Hash sb)).
    destruct (id_Equal _ _); cbn [negb]; naive_solver.
  - rewrite GetForwardLen_spec. destruct (ForwardLink sb); cbn; naive_solver.
Qed.

(** A previous block that is known and signed but has no forward link yet
    makes [VerifyLinks] dereference nil. *)
Theorem verify_links_nil_forward h sbb sb back backs p prev :
  BackLinkIDs (sb_Fix sb) = back :: backs →
  VerifyForwardSignatures sb = Ret tt →
  IsNull (ParentBlockID (sb_Fix sb)) = true → Index (sb_Fix sb) ≠ 0 →
  SkipBlocks sbb !! back = Some p → h !! p = Some prev →
  VerifyForwardSignatures prev = Ret tt → ForwardLink prev = [] →
  Bunch.VerifyLinks h sbb sb = Panic "nil pointer dereference".
Proof.
  intros Hb Hv Hn Hz Hp Hprev Hv' Hf. unfold Bunch.VerifyLinks, Bunch.GetByID.
  rewrite Hb, Hv, Hn. cbn [omap_err obind negb].
  rewrite (proj2 (Z.eqb_neq _ _) Hz), Hp, Hprev. cbn [obind deref].
  rewrite Hv'. cbn [obind]. rewrite GetForward_head, Hf. done.
Qed.

(** Whatever the iteration orders of the three loops, [GetFuzzy] returns
    nil only when no stored hash contains the pattern, and otherwise a stored
    block that matches as a prefix, as a suffix if none matches as a prefix,
    anywhere if none matches as either. *)
Theorem get_fuzzy_correct h sbb r1 r2 r3 id :
  range_of sbb r1 → range_of sbb r2 → range_of sbb r3 →
  let pre := stored_with h sbb (λ s, Bunch.HasPrefix s id) in
  let suf := stored_with h sbb (λ s, Bunch.HasSuffix s id) in
  let any := stored_with h sbb (λ s, Bunch.Contains s id) in
  match Bunch.GetFuzzy h r1 r2 r3 id with
  | None => (∀ p, ¬ pre p) ∧ (∀ p, ¬ suf p) ∧ (∀ p, ¬ any p)
  | Some p => pre p ∨ (∀ q, ¬ pre q) ∧ (suf p ∨ (∀ q, ¬ suf q) ∧ any p)
  end.
Proof.
  intros H1 H2 H3 pre suf any. unfold Bunch.GetFuzzy.
  pose proof (Bunch.first_match_range h sbb (λ s, Bunch.HasPrefix s id) r1 H1) as P1.
  destruct (Bunch.first_match _ _ r1) as [p|]; [by left|].
  pose proof (Bunch.first_match_range h sbb (λ s, Bunch.HasSuffix s id) r2 H2) as P2.
  destruct (Bunch.first_match _ _ r2) as [p|]; [by right; split; [|left]|].
  pose proof (Bunch.first_match_range h sbb (λ s, Bunch.Contains s id) r3 H3) as P3.
  destruct (Bunch.first_match _ _ r3) as [p|]; [|done]. right. split; [done|]. right. done.
Qed.
End props.



(** ** Witnesses *)

Module BunchExample.
Import ZSuite ToySkipchain.

Definition blk (i : Z) (hash : bytes) (back : list bytes) (fl : list BlockLink) : SkipBlock := {|
  sb_Fix := {| Index := i; BackLinkIDs := back; ParentBlockID := []; GenesisID := [x01];
               Data := []; sb_Roster := Some {| Rosters.ID := []; Rosters.List := [];
                                                Rosters.Aggregate := 0 |};
               fix_rest := [] |};
  Hash := hash; ForwardLink := fl; ChildSL := [] |}.

Definition link (h : bytes) : BlockLink := {| bl_Hash := h; bl_Signature := h |}.
Definition bad_link (h : bytes) : BlockLink := {| bl_Hash := h; bl_Signature := [] |}.

Definition b0 := blk 0 [x01] [[x00]] [].
Definition b0' := blk 0 [x01] [[x00]] [link [x02]; bad_link [x03]].
Definition b1 := blk 1 [x02] [[x01]] [].
Definition heap : Heap := {[ 0%nat := b0; 1%nat := b0'; 2%nat := b1 ]}.
Definition bunch0 : SkipBlockBunch :=
  {| bunch_GenesisID := [x01]; Latest := 0%nat; SkipBlocks := {[ [x01] := 0%nat ]} |}.

Lemma storage_store_invariant_witness :
  ∃ h' s', Storage.Store heap Storage.NewSBBStorage 2 = Ret (h', s') ∧
           store_promise heap Storage.NewSBBStorage b1 h' s'.
Proof.
  eexists _, _. split; [reflexivity|].
  exact (storage_store_invariant heap Storage.NewSBBStorage 2%nat (Storage.StorageInv_new _)).
Defined.

(** The copy [b0'] brings one good and one badly signed link. *)
Lemma bunch_store_merges_links_witness :
  ∃ o', Bunch.Store heap bunch0 1 = Ret (<[0%nat := o']> heap, bunch0, None) ∧
        ForwardLink o' = [link [x02]].
Proof.
  destruct (bunch_store_merges_links heap bunch0 1 b0' 0 b0
              (<[0%nat := set_ForwardLink b0 [link [x02]]]> heap) bunch0 None)
    as (_ & o' & Hh & _ & _ & n & fl & Hfl & Ho' & _); [reflexivity..|].
  exists (set_ForwardLink b0 [link [x02]]). split; reflexivity.
Defined.

(** The block [b1] is accepted once the genesis block points to it. *)
Lemma verify_links_correct_witness :
  Bunch.VerifyLinks (<[0%nat := set_ForwardLink b0 [link [x02]]]> heap) bunch0 b1 = Ret tt ∧
  ¬ links_ok heap bunch0 b1.
Proof.
  split.
  - apply (verify_links_correct (<[0%nat := set_ForwardLink b0 [link [x02]]]> heap) bunch0 b1).
    exists [x01], []. split; [done|]. split; [reflexivity|]. split; [discriminate|].
    intros _. exists (set_ForwardLink b0 [link [x02]]), (link [x02]).
    split; [reflexivity|]. split; [reflexivity|]. split; reflexivity.
  - intros H. apply (verify_links_correct heap bunch0 b1) in H. discriminate H.
Defined.

Lemma verify_links_nil_forward_witness :
  Bunch.VerifyLinks heap bunch0 b1 = Panic "nil pointer dereference".
Proof.
  apply (verify_links_nil_forward heap bunch0 b1 [x01] [] 0 b0); (reflexivity || discriminate).
Defined.

Lemma get_fuzzy_correct_witness :
  Bunch.GetFuzzy heap [0%nat] [0%nat] [0%nat] (hex_encode [x01]) = Some 0%nat ∧
  stored_with heap bunch0 (λ s, Bunch.HasPrefix s (hex_encode [x01])) 0%nat.
Proof.
  assert (range_of bunch0 [0%nat]) as Hr by (unfold range_of; reflexivity).
  split; [reflexivity|].
  destruct (get_fuzzy_correct heap bunch0 [0%nat] [0%nat] [0%nat] (hex_encode [x01]) Hr Hr Hr)
    as [H|[H _]]; [exact H|].
  exfalso. apply (H 0%nat). exists [x01], b0. split; [reflexivity|]. split; reflexivity.
Defined.

End BunchExample.
