(* ===== verification/Messages.v ===== *)
(** * Messages ([onchain-secrets/struct.go], [otssmc/struct.go])

    The data the services exchange and store on the skipchain; pointers that
    may be nil are options.  [PvssLib] is the publicly verifiable secret sharing
    library ([gopkg.in/dedis/crypto.v0/share/pvss] and [share]) with its
    documented behaviour in [PvssLaws]; [Codec] is what the services use of
    [network.Marshal] and [network.Unmarshal]. *)
From S2P Require Import Prelude Suite Schnorr Tree Skipchain.
Local Open Scope Z_scope.

(** ** The secret-sharing library *)

Class PvssLib {S : Suite} := {
  PubVerShare : Type;
  CommitPoly : Type;
  share_equiv :: Equiv PubVerShare;
  (** [sh.S.I]. *)
  share_I : PubVerShare → Z;
  (** [commitPoly.Eval(i).V]. *)
  poly_Eval : CommitPoly → Z → Point;
  EncShares : Point → list Point → Scalar → Z → Stream →
              outcome error (list PubVerShare * CommitPoly * Stream);
  (** The keys and shares that verify. *)
  VerifyEncShareBatch : Point → list Point → list Point → list PubVerShare →
              outcome error (list Point * list PubVerShare);
  DecShare : Point → Point → Point → Scalar → PubVerShare → Stream →
             outcome error (PubVerShare * Stream);
  RecoverSecret : Point → list Point → list PubVerShare → list (option PubVerShare) →
             Z → Z → outcome error Point;
}.
Arguments PvssLib : clear implicits.

(** ** Skipchain data *)

Module Ocs.
Section ocs.
Context {S : Suite} {P : PvssLib S}.

Record SkipChainURL := {
  url_Roster : option Roster;
  url_Genesis : SkipBlockID;
}.

Definition NewSkipChainURL {L : SkipchainLib} (sb : SkipBlock) : SkipChainURL :=
  {| url_Roster := sb_Roster (sb_Fix sb); url_Genesis := SkipChainID sb |}.

Record OTSWrite := {
  ow_G : Point;
  ow_SCPublicKeys : list Point;
  ow_EncShares : list PubVerShare;
  ow_EncProofs : list Point;
  ow_HashEnc : bytes;
  ow_ReaderPk : Point;
}.

Record DataOTSWrite := {
  dow_Data : option OTSWrite;
  dow_Signature : option SchnorrSig;
}.

Record DataOCSWrite := {
  dw_Data : bytes;
  dw_U : option Point;
  dw_Cs : list Point;
  dw_Readers : bytes;
}.

Record DataOCSReaders := {
  dr_ID : bytes;
  dr_Readers : list Point;
  dr_Admins : list Point;
  dr_Threshold : Z;
  dr_Signature : option SchnorrSig;
}.

Record DataOCSRead := {
  rd_DataID : SkipBlockID;
  rd_Public : Point;
  rd_Signature : option SchnorrSig;
}.

Record DataOCS := {
  d_Write : option DataOCSWrite;
  d_Read : option DataOCSRead;
  d_Readers : option DataOCSReaders;
  d_OTSWrite : option DataOTSWrite;
}.

Record ReadDoc := {
  doc_Reader : Point;
  doc_ReadID : SkipBlockID;
  doc_DataID : SkipBlockID;
}.

Record WriteRequest := {
  wr_Write : option DataOCSWrite;
  wr_Readers : option DataOCSReaders;
  wr_OCS : SkipBlockID;
}.

Record OTSWriteRequest := {
  owr_Write : option DataOTSWrite;
  owr_Readers : option DataOCSReaders;
  owr_OCS : SkipBlockID;
}.

Record ReadRequest := {
  rr_Read : option DataOCSRead;
  rr_OCS : SkipBlockID;
}.

Record GetReadRequests := {
  grr_Start : SkipBlockID;
  grr_Count : Z;
}.

Record DecryptKeyReply := {
  dk_Cs : list Point;
  dk_XhatEnc : Point;
  dk_X : Point;
}.

End ocs.
End Ocs.

Module Smc.
Section smc.
Context {S : Suite}.

(** [otssmc/struct.go]. *)
Record DecryptRequestData := {
  WriteSBF : option SkipBlockFix;
  ReadSBF : option SkipBlockFix;
  InclusionProof : option BlockLink;
  ACPublicKeys : list Point;
}.

Record DecryptedShare := {
  ds_K : option Point;
  ds_Cs : list Point;
}.

Record DecryptRequest := {
  RootIndex : Z;
  req_Roster : option Roster;
  req_Data : option DecryptRequestData;
  req_Signature : option SchnorrSig;
}.

End smc.
End Smc.

(** ** Encoding

    [network.Message] is any registered type; these are the ones the services
    put into byte slices themselves. *)
Section codec.
Context {S : Suite} {P : PvssLib S}.

Inductive Message :=
  | MDataOCS (d : Ocs.DataOCS)
  | MOTSWrite (w : Ocs.OTSWrite)
  | MDecryptRequestData (d : Smc.DecryptRequestData)
  | MPubVerShare (s : PubVerShare)
  | MOther (type : bytes).

Class Codec := {
  Marshal : Message → outcome error bytes;
  Unmarshal : bytes → outcome error Message;
}.

(** What the decryption path relies on: decoding returns, with a message or an
    error; a share can be marshalled, to something not empty that unmarshals to
    an equal share. *)
Class CodecLaws (C : Codec) : Prop := {
  unmarshal_returns b : returns (Unmarshal b);
  marshal_share s :
    ∃ b, Marshal (MPubVerShare s) = Ret b ∧ b ≠ [] ∧
         ∃ s', Unmarshal b = Ret (MPubVerShare s') ∧ s' ≡ s;
}.

(** [NewDataOCS]: nil when the bytes are no [DataOCS]. *)
Definition NewDataOCS {C : Codec} (b : bytes) : outcome error (option Ocs.DataOCS) :=
  match Unmarshal b with
  | Ret (MDataOCS dw) => Ret (Some dw)
  | Ret _ | Err _ => Ret None
  | Panic w => Panic w
  | OutOfFuel => OutOfFuel
  end.

Lemma NewDataOCS_Ret {C : Codec} {CL : CodecLaws C} b : ∃ r, NewDataOCS b = Ret r.
Proof.
  unfold NewDataOCS. pose proof (unmarshal_returns b) as H.
  destruct (Unmarshal b) as [[]| | |]; cbn in H; eauto; done.
Qed.

(** The documented behaviour of the library on the shares it makes. *)
Class PvssLaws : Prop := {
  share_equivalence :: Equivalence (≡@{PubVerShare});
  share_I_proper s s' : s ≡ s' → share_I s = share_I s';
  (** The [i]-th share is for the [i]-th key, and all of them verify. *)
  EncShares_shares h X secret t rnd sh poly rnd' :
    EncShares h X secret t rnd = Ret (sh, poly, rnd') →
    length sh = length X ∧ (∀ i s, sh !! i = Some s → share_I s = Z.of_nat i) ∧
    VerifyEncShareBatch h X ((λ s, poly_Eval poly (share_I s)) <$> sh) sh = Ret (X, sh);
  (** A trustee decrypts its own share, which keeps its index. *)
  DecShare_own h X secret t rnd sh poly rnd' i s Xi x r :
    EncShares h X secret t rnd = Ret (sh, poly, rnd') →
    sh !! i = Some s → X !! i = Some Xi → Xi ≡ point_mul None x →
    ∃ ds r', DecShare h Xi (poly_Eval poly (share_I s)) x s r = Ret (ds, r') ∧
             share_I ds = share_I s;
  (** [t] decrypted shares, each in the place of its encrypted share, recover
      the commitment to the secret. *)
  RecoverSecret_correct h X secret t rnd sh poly rnd' decs :
    EncShares h X secret t rnd = Ret (sh, poly, rnd') →
    length decs = length sh →
    (∀ i d, decs !! i = Some (Some d) →
       ∃ s Xi x ds r r', sh !! i = Some s ∧ X !! i = Some Xi ∧ Xi ≡ point_mul None x ∧
         DecShare h Xi (poly_Eval poly (share_I s)) x s r = Ret (ds, r') ∧ d ≡ ds) →
    0 < t <= Z.of_nat (length (omap id decs)) →
    ∃ q, RecoverSecret point_base X sh decs t (Z.of_nat (length sh)) = Ret q ∧
         q ≡ point_mul None secret;
}.
End codec.
Arguments Message : clear implicits. Arguments Message {S P}.
Arguments Codec : clear implicits. Arguments Codec {S} P.
Arguments CodecLaws : clear implicits. Arguments CodecLaws {S P} C.
Arguments PvssLaws : clear implicits. Arguments PvssLaws {S} P.

(** ** Concrete libraries *)

Module ToyMessages.
Import ZSuite.

(** A sharing in which every share is the committed secret. *)
#[global] Instance toy_pvss : PvssLib Zsuite := {|
  PubVerShare := Z * Z;
  CommitPoly := Z;
  share_equiv := (=);
  share_I := fst;
  poly_Eval p i := p;
  EncShares h X secret t rnd :=
    Ret ((λ i, (Z.of_nat i, secret)) <$> seq 0 (length X), secret, rnd + 1);
  VerifyEncShareBatch h X proofs sh := Ret (X, sh);
  DecShare h X proof x s rnd := Ret (s, rnd + 1);
  RecoverSecret G X sh decs t n :=
    match omap id decs with
    | d :: ds => if Z.of_nat (length (d :: ds)) <? t then Err "not enough shares" else Ret (G * snd d)
    | [] => Err "not enough shares"
    end;
|}.

(** Shares are written out; the other messages are looked up in [table]. *)
Definition toy_codec (table : list (bytes * Message)) : Codec toy_pvss := {|
  Marshal m :=
    match m with
    | MPubVerShare (i, v) => Ret (xff :: Z_bytes i ++ Z_bytes v)
    | MDecryptRequestData _ => Ret [x05]
    | MOTSWrite _ => Ret [x06]
    | _ => Err "not supported"
    end;
  Unmarshal b :=
    match b with
    | xff :: r =>
        match bytes_Z r with
        | Some (i, r) => match bytes_Z r with
                         | Some (v, _) => Ret (MPubVerShare (i, v))
                         | None => Err "truncated"
                         end
        | None => Err "truncated"
        end
    | _ => match list_find (λ e, e.1 = b) table with
           | Some (_, e) => Ret e.2
           | None => Err "unknown type"
           end
    end;
|}.

Lemma toy_codec_laws table : CodecLaws (toy_codec table).
Proof.
  split.
  - intros b. cbn. destruct b as [|x r]; [by destruct (list_find _ _) as [[? ?]|]|].
    destruct x; try (by destruct (list_find _ _) as [[? ?]|]).
    destruct (bytes_Z r) as [[i r']|]; [|done]. by destruct (bytes_Z r') as [[v ?]|].
  - intros [i v]. eexists. split; [done|]. split; [done|]. exists (i, v). split; [|done].
    cbn. rewrite bytes_Z_bytes. rewrite <-(app_nil_r (Z_bytes v)), bytes_Z_bytes. done.
Qed.

#[global] Instance toy_pvss_laws : PvssLaws toy_pvss.
Proof.
  split.
  - apply _.
  - by intros s s' ->.
  - intros h X secret t rnd sh poly rnd' [= <- <- <-]. split; [by rewrite length_fmap, length_seq|].
    split; [|done]. intros i s Hi. apply list_lookup_fmap_Some in Hi as (j & -> & Hj).
    apply lookup_seq in Hj as [-> _]. done.
  - intros h X secret t rnd sh poly rnd' i s Xi x r _ _ _ _. by eexists _, _.
  - intros h X secret t rnd sh poly rnd' decs [= <- <- <-] Hl Hd Ht.
    assert (∀ d, d ∈ omap id decs → snd d = secret) as Hs.
    { intros d (o & [i Hi]%list_elem_of_lookup & Ho)%list_elem_of_omap. cbn in Ho. subst o.
      destruct (Hd i d Hi) as (s & Xi & x & ds & r & r' & Hs & _ & _ & [= <- _] & ->).
      apply list_lookup_fmap_Some in Hs as (j & -> & _). done. }
    destruct (omap id decs) as [|d ds] eqn:E; cbn [length] in Ht; [lia|].
    cbn [RecoverSecret toy_pvss]. unfold PubVerShare, toy_pvss in *. rewrite E.
    rewrite (proj2 (Z.ltb_ge _ t)) by (cbn [length]; lia). eexists. split; [done|].
    rewrite <-(Hs d) by set_solver. done.
Qed.
End ToyMessages.
