(* ===== verification/Reencrypt.v ===== *)
(** * Key encoding and re-encryption ([protocol/onchain.go], [protocol/ocs.go])

    [KeyEncoding] models [EncodeKey] and [DecodeKey]; [OcsProtocol] the
    re-encryption protocol: its handlers, and [run], which composes them the way
    the tree protocol does (the root broadcasts, every child answers, the root
    handles the collected answers).  The secret-sharing library
    ([crypto.v0/share]) is the class [ShareLib]. *)
From S2P Require Import Prelude Suite Schnorr.
Local Open Scope Z_scope.

Section share.
Context {S : Suite}.

(** [share.PubShare]. *)
Record PubShare := { sh_I : Z; sh_V : Point }.

Class ShareLib := {
  (** [RecoverCommit(suite, shares, t, n)]; nil shares are skipped. *)
  RecoverCommit : list (option PubShare) → Z → Z → outcome error Point;
}.

(** A polynomial over the scalars, low coefficients first, and the value the
    share with index [i] is taken at. *)
Fixpoint poly_eval (p : list Scalar) (x : Scalar) : Scalar :=
  match p with
  | [] => scalar_zero
  | c :: p => scalar_add c (scalar_mul x (poly_eval p x))
  end.

Fixpoint scalar_of_nat (n : nat) : Scalar :=
  match n with O => scalar_zero | Datatypes.S n => scalar_add scalar_one (scalar_of_nat n) end.

Definition share_at (p : list Scalar) (i : Z) : Scalar :=
  poly_eval p (scalar_of_nat (Datatypes.S (Z.to_nat i))).
Definition share_secret (p : list Scalar) : Scalar := poly_eval p scalar_zero.

(** The non-nil shares lie on [p] in the exponent of [B], with distinct
    indices below [n]. *)
Definition consistent (p : list Scalar) (B : Point) (n : Z) (shares : list (option PubShare)) : Prop :=
  (∀ s, Some s ∈ shares →
        0 <= sh_I s < n ∧ sh_V s ≡ point_mul (Some B) (share_at p (sh_I s))) ∧
  NoDup (sh_I <$> omap id shares).

(** The documented behaviour: [t] consistent shares of a polynomial with at
    most [t] coefficients recover the commitment to the secret. *)
Class RecoverLaw {SL : ShareLib} (t : Z) : Prop :=
  RecoverCommit_correct p B n shares :
    Z.of_nat (length p) <= t → consistent p B n shares →
    t <= Z.of_nat (length (omap id shares)) →
    ∃ q, RecoverCommit shares t n = Ret q ∧ q ≡ point_mul (Some B) (share_secret p).

End share.
Arguments PubShare : clear implicits. Arguments PubShare {S}.
Arguments ShareLib : clear implicits.

Module KeyEncoding.
Section key.
Context {S : Suite}.

(** The loop of [EncodeKey]: one point per piece of the key. *)
Fixpoint encode_loop (fuel : nat) (X : Point) (r : Scalar) (rem : bytes) (random : Stream)
    : outcome error (list Point * Stream) :=
  match rem with
  | [] => Ret ([], random)
  | _ =>
      match fuel with
      | O => OutOfFuel
      | Datatypes.S fuel =>
          let '(kp, rem, random) := point_pick rem random in
          let C := point_mul (Some X) r in
          let! (Cs, random) := encode_loop fuel X r rem random in
          Ret (point_add C kp :: Cs, random)
      end
  end.

(** A key of [n] bytes takes at most [n] iterations: each embeds a byte. *)
Definition EncodeKey (X : Point) (key : bytes) (random : Stream)
    : outcome error (Point * list Point * Stream) :=
  let '(r, random) := scalar_pick random in
  let U := point_mul None r in
  let! (Cs, random) := encode_loop (length key) X r key random in
  Ret (U, Cs, random).

Definition DecodeKey (X : Point) (Cs : list Point) (XhatEnc : Point) (xc : Scalar)
    : outcome error bytes :=
  let xcInv := scalar_neg xc in
  let XhatDec := point_mul (Some X) xcInv in
  let Xhat := point_add XhatEnc XhatDec in
  let XhatInv := point_neg Xhat in
  ofoldM (λ key C,
    let keyPointHat := point_add C XhatInv in
    let! keyPart := point_data keyPointHat in
    Ret (key ++ keyPart)) [] Cs.

Context {SL : SuiteLaws S}.

Lemma encode_loop_total fuel X r rem rnd :
  (length rem <= fuel)%nat → ∃ Cs rnd', encode_loop fuel X r rem rnd = Ret (Cs, rnd').
Proof.
  revert rem rnd. induction fuel as [|fuel IH]; intros rem rnd Hf.
  - destruct rem; [cbn; eauto|cbn in Hf; lia].
  - destruct rem as [|b rem]; [cbn; eauto|]. cbn [encode_loop].
    pose proof (point_pick_shorter (b :: rem) rnd) as Hs.
    destruct (point_pick (b :: rem) rnd) as [[kp rem'] rnd'] eqn:E.
    destruct (IH rem' rnd') as (Cs & rnd2 & ->).
    { cbn [fst snd] in Hs. specialize (Hs ltac:(done)). cbn [length] in *. lia. }
    cbn. eauto.
Qed.

Lemma encode_loop_length fuel X r rem rnd Cs rnd' :
  encode_loop fuel X r rem rnd = Ret (Cs, rnd') → (length Cs <= length rem)%nat.
Proof.
  revert rem rnd Cs rnd'. induction fuel as [|fuel IH]; intros rem rnd Cs rnd'.
  { destruct rem; [|done]. intros [= <- <-]. done. }
  destruct rem as [|b rem]; [intros [= <- <-]; done|]. cbn [encode_loop].
  pose proof (point_pick_shorter (b :: rem) rnd ltac:(done)) as Hs.
  destruct (point_pick (b :: rem) rnd) as [[kp rem'] rnd1]. cbn [fst snd] in Hs.
  intros ([Cs' rnd2] & Hloop%IH & [= <- <-])%obind_ret_inv. cbn [length] in *. lia.
Qed.

Lemma encode_loop_nil fuel X r rem rnd Cs rnd' :
  encode_loop fuel X r rem rnd = Ret (Cs, rnd') → (rem = [] ↔ Cs = []).
Proof.
  destruct rem as [|b rem]; [destruct fuel; intros [= <- <-]; done|].
  destruct fuel as [|fuel]; [done|]. cbn [encode_loop].
  destruct (point_pick (b :: rem) rnd) as [[kp rem'] rnd1].
  intros ([Cs' rnd2] & _ & [= <- <-])%obind_ret_inv. done.
Qed.

(** Removing the mask [r·X] from every point gives the key back. *)
Lemma decode_encoded fuel X r rem rnd Cs rnd' M acc :
  M ≡ point_neg (point_mul (Some X) r) →
  encode_loop fuel X r rem rnd = Ret (Cs, rnd') →
  ofoldM (λ key C, let! keyPart := point_data (point_add C M) in Ret (key ++ keyPart)) acc Cs
  = Ret (E := error) (acc ++ rem).
Proof.
  intros HM. revert rem rnd Cs acc. induction fuel as [|fuel IH]; intros rem rnd Cs acc.
  { destruct rem; [|done]. intros [= <- <-]. cbn. by rewrite app_nil_r. }
  destruct rem as [|b rem]; [intros [= <- <-]; cbn; by rewrite app_nil_r|].
  cbn [encode_loop].
  pose proof (point_pick_data (b :: rem) rnd ltac:(done)) as Hd.
  pose proof (point_pick_rem (b :: rem) rnd) as Hr.
  destruct (point_pick (b :: rem) rnd) as [[kp rem'] rnd1]. cbn [fst snd] in *.
  intros ([Cs' rnd2] & Hloop & [= <- <-])%obind_ret_inv. cbn [ofoldM].
  rewrite (point_data_proper _ kp).
  2: { rewrite HM, point_add_comm, point_add_assoc, (point_add_comm (point_neg _)).
       rewrite point_add_neg. apply point_add_null. }
  rewrite Hd. cbn [obind]. rewrite (IH _ _ _ _ Hloop), <-app_assoc, Hr, take_drop. done.
Qed.

(** Decoding needs [XhatEnc = x·(U + Xc)] for the collective secret [x]. *)
Lemma DecodeKey_EncodeKey X x xc Xc key rnd U Cs rnd' XhatEnc :
  X ≡ point_mul None x → Xc ≡ point_mul None xc →
  EncodeKey X key rnd = Ret (U, Cs, rnd') →
  XhatEnc ≡ point_mul (Some (point_add U Xc)) x →
  DecodeKey X Cs XhatEnc xc = Ret key.
Proof.
  intros HX HXc HE HXhat. unfold EncodeKey in HE.
  destruct (scalar_pick rnd) as [r rnd1].
  apply obind_ret_inv in HE as ([Cs' rnd2] & Hloop & [= <- <- <-]).
  refine (decode_encoded _ _ _ _ _ _ _ _ [] _ Hloop).
  apply point_neg_proper. rewrite HXhat, point_mul_point_add, point_mul_neg.
  rewrite (point_mul_proper _ _ x HXc), (point_mul_proper _ _ xc HX).
  rewrite (point_mul_proper _ _ r HX).
  rewrite (diffie_hellman r x), (diffie_hellman xc x).
  rewrite <-point_add_assoc, point_add_neg. apply point_add_null_r.
Qed.
End key.
End KeyEncoding.
Export KeyEncoding (EncodeKey, DecodeKey).

Module OcsProtocol.
Section ocs.
Context {S : Suite}.

(** [SharedSecret] ([dkg_struct.go]). *)
Record SharedSecret := { ss_Index : Z; ss_V : Scalar; ss_X : Point }.

(** The fields of the protocol instance [OCS]; nil points are options. *)
Record OCS := {
  o_Shared : option SharedSecret;
  o_U : option Point;
  o_Xc : option Point;
  o_Uis : list (option PubShare);
}.

(** [Reencrypt] and [ReencryptReply]. *)
Record Reencrypt := { re_U : option Point; re_Xc : option Point }.
Record ReencryptReply := { rep_Ui : option PubShare }.

(** [getUi]: a nil point stands for the base point in [Mul]. *)
Definition getUi (o : OCS) (U Xc : option Point) : outcome error PubShare :=
  let! sh := deref (o_Shared o) in
  let v := point_add (point_mul U (ss_V sh)) (point_mul Xc (ss_V sh)) in
  Ret {| sh_I := ss_Index sh; sh_V := v |}.

(** [Start] returns the message that is broadcast. *)
Definition Start (o : OCS) : outcome error Reencrypt :=
  match o_Shared o with
  | None => Err "please initialize Shared first"
  | Some _ =>
      match o_U o with
      | None => Err "please initialize U first"
      | Some _ => Ret {| re_U := o_U o; re_Xc := o_Xc o |}
      end
  end.

(** [reencrypt]: the reply to the parent, if any. *)
Definition reencrypt (o : OCS) (r : Reencrypt) : outcome error (option ReencryptReply) :=
  match getUi o (re_U r) (re_Xc r) with
  | Ret ui => Ret (Some {| rep_Ui := Some ui |})
  | Err _ => Ret None
  | Panic w => Panic w
  | OutOfFuel => OutOfFuel
  end.

(** [reencryptReply] on a tree of [nodes] nodes: the root's own share goes to
    slot 0, every other share to the slot of its index. *)
Definition reencryptReply (o : OCS) (nodes : nat) (rr : list ReencryptReply)
    : outcome error OCS :=
  let Uis := repeat None nodes in
  let! own := getUi o (o_U o) (o_Xc o) in
  let! Uis := set_index Uis 0 (Some own) in
  let! Uis := ofoldM (λ Uis r,
      let! ui := deref (rep_Ui r) in set_index Uis (sh_I ui) (Some ui)) Uis rr in
  Ret {| o_Shared := o_Shared o; o_U := o_U o; o_Xc := o_Xc o; o_Uis := Uis |}.

(** A protocol run: [None] when a child does not answer, as the root's handler
    is only called with the answers of all its children. *)
Definition run (root : OCS) (children : list OCS) : outcome error (option OCS) :=
  let! msg := Start root in
  let! replies := omapM (λ c, reencrypt c msg) children in
  match mapM id replies with
  | None => Ret None
  | Some rr => let! o := reencryptReply root (Datatypes.S (length children)) rr in Ret (Some o)
  end.

(** A child's instance: [NewProtocol] of the service sets its secret only. *)
Definition child (sh : SharedSecret) : OCS :=
  {| o_Shared := Some sh; o_U := None; o_Xc := None; o_Uis := [] |}.

Definition ui_of (U Xc : Point) (sh : SharedSecret) : PubShare :=
  {| sh_I := ss_Index sh;
     sh_V := point_add (point_mul (Some U) (ss_V sh)) (point_mul (Some Xc) (ss_V sh)) |}.

Lemma run_children sh U Xc uis kids :
  let root := {| o_Shared := Some sh; o_U := Some U; o_Xc := Some Xc; o_Uis := uis |} in
  run root (child <$> kids) =
    let! o := reencryptReply root (Datatypes.S (length kids))
                ((λ c, {| rep_Ui := Some (ui_of U Xc c) |}) <$> kids) in
    Ret (Some o).
Proof.
  intros root. unfold run. cbn [Start root o_Shared o_U o_Xc obind].
  rewrite (omapM_ret _ (λ c, Some {| rep_Ui := ui_of U Xc <$> o_Shared c |})).
  2: { intros c (k & -> & _)%list_elem_of_fmap. done. }
  cbn [obind]. rewrite <-list_fmap_compose, length_fmap.
  assert (∀ l : list SharedSecret,
    mapM id (((λ c, Some {| rep_Ui := ui_of U Xc <$> o_Shared c |}) ∘ child) <$> l)
    = Some ((λ c, {| rep_Ui := Some (ui_of U Xc c) |}) <$> l)) as ->; [|done].
  induction l as [|k l IH]; cbn in *; [done|]. by rewrite IH.
Qed.

(** Filling slots by index. *)
Lemma fill_slots U Xc kids (Uis : list (option PubShare)) :
  (∀ k, k ∈ kids → 0 <= ss_Index k < Z.of_nat (length Uis)) →
  NoDup (ss_Index <$> kids) →
  ∃ r, ofoldM (λ Uis m, let! ui := deref (rep_Ui m) in set_index Uis (sh_I ui) (Some ui)) Uis
         ((λ c, {| rep_Ui := Some (ui_of U Xc c) |}) <$> kids) = Ret (E := error) r ∧
    length r = length Uis ∧
    ∀ i, r !! i = match list_find (λ k, ss_Index k = Z.of_nat i) kids with
                  | Some (_, k) => if decide (i < length Uis)%nat
                                   then Some (Some (ui_of U Xc k)) else None
                  | None => Uis !! i
                  end.
Proof.
  revert Uis. induction kids as [|k kids IH]; intros Uis Hin Hd; cbn; [eauto|].
  apply NoDup_cons in Hd as [Hk Hd].
  pose proof (Hin k ltac:(set_solver)) as Hkr.
  rewrite set_index_Ret by done. cbn.
  set (Uis1 := <[Z.to_nat (ss_Index k) := Some (ui_of U Xc k)]> Uis).
  assert (length Uis1 = length Uis) as Hl1 by apply length_insert.
  destruct (IH Uis1) as (r & -> & Hl & Hr).
  { rewrite Hl1. set_solver. } { done. }
  exists r. split; [done|]. split; [congruence|]. intros i. rewrite Hr, Hl1.
  destruct (decide (ss_Index k = Z.of_nat i)) as [Hki|Hki].
  - destruct (list_find _ kids) as [[j k']|] eqn:Ef; cbn.
    + apply list_find_Some in Ef as (Hj & Hk' & _). exfalso. apply Hk.
      replace (ss_Index k) with (ss_Index k') by (rewrite Hk'; lia). apply list_elem_of_fmap_2. by eapply list_elem_of_lookup_2.
    + unfold Uis1. replace i with (Z.to_nat (ss_Index k)) by lia.
      rewrite decide_True by lia. apply list_lookup_insert_eq. lia.
  - destruct (list_find _ kids) as [[j k']|]; cbn; [done|].
    unfold Uis1. apply list_lookup_insert_ne. lia.
Qed.

(** A slot of the root's table holds the share with the index of the slot, or
    is slot 0 with the root's own share. *)
Definition slots_ok (own : PubShare) (kids : list PubShare) (Uis : list (option PubShare)) : Prop :=
  (∀ i s, Uis !! i = Some (Some s) →
     (s ∈ kids ∧ sh_I s = Z.of_nat i) ∨
     (i = O ∧ s = own ∧ ∀ k, k ∈ kids → sh_I k ≠ 0)) ∧
  (∀ k, k ∈ kids → Uis !! Z.to_nat (sh_I k) = Some (Some k)).

Lemma reencryptReply_slots sh U Xc uis kids :
  let root := {| o_Shared := Some sh; o_U := Some U; o_Xc := Some Xc; o_Uis := uis |} in
  (∀ k, k ∈ kids → 0 <= ss_Index k < Z.of_nat (Datatypes.S (length kids))) →
  NoDup (ss_Index <$> kids) →
  ∃ Uis, reencryptReply root (Datatypes.S (length kids))
           ((λ c, {| rep_Ui := Some (ui_of U Xc c) |}) <$> kids)
         = Ret {| o_Shared := Some sh; o_U := Some U; o_Xc := Some Xc; o_Uis := Uis |} ∧
    slots_ok (ui_of U Xc sh) (ui_of U Xc <$> kids) Uis.
Proof.
  intros root Hin Hd. unfold reencryptReply. cbn [root getUi o_Shared o_U o_Xc deref obind].
  rewrite set_index_Ret by (rewrite repeat_length; lia). cbn [obind].
  fold (ui_of U Xc sh).
  set (Uis0 := <[Z.to_nat 0 := Some (ui_of U Xc sh)]> (repeat None (Datatypes.S (length kids)))).
  assert (length Uis0 = Datatypes.S (length kids)) as Hl0.
  { unfold Uis0. by rewrite length_insert, repeat_length. }
  destruct (fill_slots U Xc kids Uis0) as (r & Hr & Hl & Hsl).
  { by rewrite Hl0. } { done. }
  rewrite Hr. cbn [obind]. exists r. split; [done|].
  split.
  - intros i s Hi. rewrite Hsl in Hi.
    destruct (list_find _ kids) as [[j k]|] eqn:Ef.
    + apply list_find_Some in Ef as (Hj & Hk & _). case_decide; [|done]. simplify_eq.
      left. split; [|done]. apply list_elem_of_fmap_2. by eapply list_elem_of_lookup_2.
    + right. destruct i as [|i]; cycle 1.
      { unfold Uis0 in Hi. rewrite list_lookup_insert_ne in Hi by done.
        apply list_elem_of_lookup_2, list_elem_of_In, repeat_spec in Hi. discriminate Hi. }
      split; [done|]. split; [by injection Hi as <-|].
      intros k (k' & -> & Hk')%list_elem_of_fmap E. rewrite list_find_None, Forall_forall in Ef.
      by apply (Ef k').
  - intros k (k' & -> & Hk')%list_elem_of_fmap. cbn [ui_of sh_I]. rewrite Hsl.
    pose proof (Hin k' Hk') as Hr'.
    destruct (list_find _ kids) as [[j k2]|] eqn:Ef.
    + apply list_find_Some in Ef as (Hj & Hk2 & _). rewrite decide_True by lia.
      apply list_elem_of_lookup in Hk' as [j' Hj']. rewrite Z2Nat.id in Hk2 by lia.
      assert (j = j') as <-; [|by simplify_eq].
      eapply NoDup_lookup; [exact Hd| |]; rewrite list_lookup_fmap.
      * rewrite Hj. done.
      * rewrite Hj'. cbn. by rewrite Hk2.
    + exfalso. rewrite list_find_None, Forall_forall in Ef. apply (Ef k' Hk'). lia.
Qed.
End ocs.
End OcsProtocol.
Export OcsProtocol.

(** ** Properties *)

Section reencrypt_props.
Context {S : Suite} {SL : SuiteLaws S} {Sh : ShareLib S}.

Lemma NoDup_omap_slots {A} (f : A → Z) (l : list (option A)) :
  (∀ i j a b, l !! i = Some (Some a) → l !! j = Some (Some b) → f a = f b → i = j) →
  NoDup (f <$> omap id l).
Proof.
  induction l as [|[a|] l IH]; intros H; cbn; [constructor|..].
  - apply NoDup_cons. split.
    + intros (b & Hb & Hin)%list_elem_of_fmap.
      apply list_elem_of_omap in Hin as (b' & [j Hj]%list_elem_of_lookup & Hb'). cbn in Hb'. subst b'.
      by specialize (H O (Datatypes.S j) a b eq_refl Hj Hb).
    + apply IH. intros i j b c Hi Hj E.
      pose proof (H (Datatypes.S i) (Datatypes.S j) b c Hi Hj E). lia.
  - apply IH. intros i j b c Hi Hj E.
    pose proof (H (Datatypes.S i) (Datatypes.S j) b c Hi Hj E). lia.
Qed.

(** The root's table after all children answered. *)
Lemma slots_consistent p B own kids Uis n :
  slots_ok own kids Uis →
  (∀ s, s ∈ own :: kids → 0 <= sh_I s < n ∧ sh_V s ≡ point_mul (Some B) (share_at p (sh_I s))) →
  NoDup (sh_I <$> own :: kids) →
  consistent p B n Uis ∧ (length kids <= length (omap id Uis))%nat.
Proof.
  intros [Hslot Hkid] Hs Hd. rewrite fmap_cons in Hd. apply NoDup_cons in Hd as [Hown Hd].
  split; [split|].
  - intros s [i Hi]%list_elem_of_lookup. apply Hs.
    destruct (Hslot i s Hi) as [[Hk _]|(_ & -> & _)]; set_solver.
  - apply NoDup_omap_slots. intros i j a b Hi Hj E.
    destruct (Hslot i a Hi) as [[Ha Hai]|(-> & -> & Hz)],
             (Hslot j b Hj) as [[Hb Hbj]|(-> & -> & Hz')].
    + lia.
    + destruct Hown. rewrite <-E. by apply list_elem_of_fmap_2.
    + destruct Hown. rewrite E. by apply list_elem_of_fmap_2.
    + done.
  - rewrite <-(length_fmap sh_I kids), <-(length_fmap sh_I (omap id Uis)).
    apply submseteq_length, NoDup_submseteq; [done|].
    intros z (k & -> & Hk)%list_elem_of_fmap. apply list_elem_of_fmap_2.
    apply list_elem_of_omap. exists (Some k). split; [|done].
    by apply list_elem_of_lookup_2 with (Z.to_nat (sh_I k)), Hkid.
Qed.

(** A node's answer is its share of the secret in the exponent of [U + Xc]. *)
Lemma ui_of_share p U Xc k :
  ss_V k = share_at p (ss_Index k) →
  sh_V (ui_of U Xc k) ≡ point_mul (Some (point_add U Xc)) (share_at p (sh_I (ui_of U Xc k))).
Proof. intros E. cbn. rewrite E. symmetry. apply point_mul_point_add. Qed.

(** The proof of [reencrypt_decodes], also used for the service. *)
Lemma run_decodes sh kids p uis X x xc Xc key rnd U Cs rnd' :
  let n := Z.of_nat (Datatypes.S (length kids)) in
  RecoverLaw (n - 1) →
  Z.of_nat (length p) <= n - 1 →
  (∀ k, k ∈ sh :: kids → 0 <= ss_Index k < n ∧ ss_V k = share_at p (ss_Index k)) →
  NoDup (ss_Index <$> sh :: kids) →
  x = share_secret p → X ≡ point_mul None x → Xc ≡ point_mul None xc →
  EncodeKey X key rnd = Ret (U, Cs, rnd') →
  ∃ o XhatEnc,
    run {| o_Shared := Some sh; o_U := Some U; o_Xc := Some Xc; o_Uis := uis |}
        (child <$> kids) = Ret (Some o) ∧
    RecoverCommit (o_Uis o) (n - 1) n = Ret XhatEnc ∧
    DecodeKey X Cs XhatEnc xc = Ret key.
Proof.
  intros n HR Hp Hsh Hd -> HX HXc HE.
  pose proof (λ k Hk, Hsh k (list_elem_of_further _ _ _ Hk)) as Hkids.
  destruct (reencryptReply_slots sh U Xc uis kids) as (Uis & HU & Hok).
  { intros k Hk. by apply Hkids. } { apply (NoDup_cons_1_2 _ _ Hd). }
  destruct (slots_consistent p (point_add U Xc) _ _ _ n Hok) as [Hc Hlen].
  { rewrite <-fmap_cons. intros s (k & -> & Hk)%list_elem_of_fmap.
    destruct (Hsh k Hk) as [Hr HV]. split; [done|by apply ui_of_share]. }
  { rewrite <-fmap_cons, <-list_fmap_compose. done. }
  rewrite length_fmap in Hlen.
  destruct (HR p _ n Uis Hp Hc) as (q & Hq & Hqe); [lia|].
  exists {| o_Shared := Some sh; o_U := Some U; o_Xc := Some Xc; o_Uis := Uis |}, q.
  split; [rewrite run_children, HU; done|]. split; [done|].
  by eapply KeyEncoding.DecodeKey_EncodeKey.
Qed.

(** C6: re-encryption end to end.  When the root and its children hold shares
    of one polynomial with distinct indices (in any order; the root's need not
    be 0) and the children all run the protocol, the root ends with shares from
    which a threshold of [n - 1] recovers a point that, with the reader's
    private key, decodes the key that was encoded for the collective key. *)
Theorem reencrypt_decodes sh kids p uis X x xc Xc key rnd U Cs rnd' :
  let n := Z.of_nat (Datatypes.S (length kids)) in
  RecoverLaw (n - 1) →
  Z.of_nat (length p) <= n - 1 →
  (∀ k, k ∈ sh :: kids → 0 <= ss_Index k < n ∧ ss_V k = share_at p (ss_Index k)) →
  NoDup (ss_Index <$> sh :: kids) →
  x = share_secret p → X ≡ point_mul None x → Xc ≡ point_mul None xc →
  EncodeKey X key rnd = Ret (U, Cs, rnd') →
  ∃ o XhatEnc,
    run {| o_Shared := Some sh; o_U := Some U; o_Xc := Some Xc; o_Uis := uis |}
        (child <$> kids) = Ret (Some o) ∧
    RecoverCommit (o_Uis o) (n - 1) n = Ret XhatEnc ∧
    DecodeKey X Cs XhatEnc xc = Ret key.
Proof. apply run_decodes. Qed.

(** Encoding ends for every key and source of randomness, with at most one
    point per byte, and whoever knows the collective secret [x] and the reader's
    key decodes exactly the key: decoding takes [x·(U + Xc)]. *)
Theorem encode_key_roundtrip X x xc Xc key rnd :
  X ≡ point_mul None x → Xc ≡ point_mul None xc →
  ∃ U Cs rnd', EncodeKey X key rnd = Ret (U, Cs, rnd') ∧
    (length Cs <= length key)%nat ∧ (key = [] ↔ Cs = []) ∧
    DecodeKey X Cs (point_mul (Some (point_add U Xc)) x) xc = Ret key.
Proof.
  intros HX HXc.
  destruct (EncodeKey X key rnd) as [[[U Cs] rnd']|e|w|] eqn:HE.
  2-4: unfold EncodeKey in HE; destruct (scalar_pick rnd) as [r rnd1];
    destruct (KeyEncoding.encode_loop_total (length key) X r key rnd1) as (Cs & rnd2 & Hl);
    [done|]; rewrite Hl in HE; discriminate HE.
  exists U, Cs, rnd'. split; [done|]. split; [|split].
  - unfold EncodeKey in HE. destruct (scalar_pick rnd) as [r rnd1].
    apply obind_ret_inv in HE as ([Cs' rnd2] & Hl & [= <- <- <-]).
    by eapply KeyEncoding.encode_loop_length.
  - unfold EncodeKey in HE. destruct (scalar_pick rnd) as [r rnd1].
    apply obind_ret_inv in HE as ([Cs' rnd2] & Hl & [= <- <- <-]).
    by eapply KeyEncoding.encode_loop_nil.
  - by eapply KeyEncoding.DecodeKey_EncodeKey.
Qed.

(** An instance without shared secret or without point [U] does not start,
    with the error that names what is missing; a child without a shared secret
    does not decline but dereferences nil in [getUi]. *)
Theorem reencrypt_starts_initialised o kids :
  (o_Shared o = None → run o kids = Err "please initialize Shared first") ∧
  (is_Some (o_Shared o) → o_U o = None → run o kids = Err "please initialize U first") ∧
  (is_Some (o_Shared o) → is_Some (o_U o) →
   (∃ c, c ∈ kids ∧ o_Shared c = None) → ∃ w, run o kids = Panic w).
Proof.
  unfold run, Start. split; [by intros ->|]. split.
  { intros [s ->] ->. done. }
  intros [s ->] [u ->] (c & Hc & Hn). cbn [obind].
  assert (∀ msg, ∃ w, omapM (λ c, reencrypt c msg) kids = Panic (E := error) w) as Hp.
  { intros msg. induction kids as [|k kids IH]; [set_solver|]. cbn.
    destruct (o_Shared k) as [sk|] eqn:Ek.
    - unfold reencrypt at 1, getUi. rewrite Ek. cbn.
      destruct IH as [w ->]; [set_solver|]. cbn. eauto.
    - unfold reencrypt at 1, getUi. rewrite Ek. cbn. eauto. }
  destruct (Hp {| re_U := Some u; re_Xc := o_Xc o |}) as [w ->]. cbn. eauto.
Qed.
End reencrypt_props.

(** ** Witnesses *)

Module ReencryptExample.
Import ZSuite.

(** Lagrange interpolation at 0 of the first two shares. *)
#[local] Instance two_shares : ShareLib Zsuite := {|
  RecoverCommit shares t n :=
    match omap id shares with
    | a :: b :: _ =>
        Ret ((sh_V a * (sh_I b + 1) - sh_V b * (sh_I a + 1)) / (sh_I b - sh_I a))
    | _ => Err "not enough good public shares to reconstruct secret commitment"
    end
|}.

Lemma scalar_of_nat_Z n : scalar_of_nat (S := Zsuite) n = Z.of_nat n.
Proof.
  induction n as [|n IH]; [done|]. cbn [scalar_of_nat]. rewrite IH.
  cbn [scalar_add scalar_one Zsuite]. lia.
Qed.

Lemma share_at_Z (p : list Z) i : 0 <= i → (length p <= 2)%nat →
  share_at (S := Zsuite) p i
  = share_secret (S := Zsuite) p + (i + 1) * (share_at (S := Zsuite) p 0 - share_secret (S := Zsuite) p).
Proof.
  intros Hi Hp. unfold share_at. rewrite !scalar_of_nat_Z.
  replace (Z.of_nat (Datatypes.S (Z.to_nat i))) with (i + 1) by lia.
  change (Z.of_nat (Datatypes.S (Z.to_nat 0))) with 1.
  destruct p as [|a [|b [|c p]]]; cbn [length] in Hp; [..|lia]; cbn; lia.
Qed.

Lemma lagrange B x y i j : j ≠ i →
  (B * (x + (i + 1) * (y - x)) * (j + 1) - B * (x + (j + 1) * (y - x)) * (i + 1)) / (j - i)
  = B * x.
Proof.
  intros H. rewrite <-(Z.div_mul (B * x) (j - i)) by lia. f_equal. ring.
Qed.

#[local] Instance two_shares_law : RecoverLaw (S := Zsuite) 2.
Proof.
  intros p B n shares Hp [Hin Hd] Ht. cbn [RecoverCommit two_shares].
  assert (length p <= 2)%nat as Hp2 by lia.
  destruct (omap id shares) as [|a [|b l]] eqn:E; cbn [length] in Ht; try lia.
  eexists. split; [reflexivity|].
  assert (∀ s, s ∈ omap id shares → 0 <= sh_I s ∧ sh_V s = B * share_at (S := Zsuite) p (sh_I s)) as Hs.
  { intros s (o & Ho & Ho')%list_elem_of_omap. cbn in Ho'. subst o.
    destruct (Hin s Ho) as [Hr HV]. split; [lia|done]. }
  destruct (Hs a) as [Ha Ha']; [rewrite E; set_solver|].
  destruct (Hs b) as [Hb Hb']; [rewrite E; set_solver|].
  rewrite !fmap_cons in Hd. apply NoDup_cons_1_1 in Hd.
  assert (sh_I b ≠ sh_I a) as Hne by set_solver.
  rewrite Ha', Hb', (share_at_Z p (sh_I a) Ha Hp2), (share_at_Z p (sh_I b) Hb Hp2).
  by apply lagrange.
Qed.

Definition poly : list Z := [77; 5].
Definition secret_of (i : Z) : SharedSecret (S := Zsuite) :=
  {| ss_Index := i; ss_V := share_at (S := Zsuite) poly i; ss_X := 77 |}.
Definition key : bytes := String.list_byte_of_string "sixteen byte key".

(** Three nodes, the root having index 2; the reader's key is 9. *)
Lemma reencrypt_decodes_witness :
  ∃ U Cs rnd' o XhatEnc,
    EncodeKey (S := Zsuite) 77 key 3 = Ret (U, Cs, rnd') ∧
    run {| o_Shared := Some (secret_of 2); o_U := Some U; o_Xc := Some 9; o_Uis := [] |}
        (child <$> [secret_of 0; secret_of 1]) = Ret (Some o) ∧
    RecoverCommit (o_Uis o) 2 3 = Ret XhatEnc ∧
    DecodeKey (S := Zsuite) 77 Cs XhatEnc 9 = Ret key.
Proof.
  destruct (EncodeKey (S := Zsuite) 77 key 3) as [[[U Cs] rnd']|?|?|] eqn:HE;
    [|vm_compute in HE; discriminate HE..].
  destruct (reencrypt_decodes (S := Zsuite) (secret_of 2) [secret_of 0; secret_of 1] poly []
              77 77 9 9 key 3 U Cs rnd' two_shares_law) as (o & q & Hrun & Hq & Hk).
  - cbn. lia.
  - intros k Hk. rewrite !elem_of_cons, elem_of_nil in Hk.
    destruct Hk as [->|[->|[->|[]]]]; cbn; (split; [lia|reflexivity]).
  - by apply (bool_decide_unpack _).
  - reflexivity.
  - reflexivity.
  - reflexivity.
  - exact HE.
  - exists U, Cs, rnd', o, q. done.
Defined.

Lemma encode_key_roundtrip_witness :
  ∃ U Cs rnd', EncodeKey (S := Zsuite) 77 key 3 = Ret (U, Cs, rnd') ∧
    DecodeKey (S := Zsuite) 77 Cs ((U + 9) * 77) 9 = Ret key.
Proof.
  destruct (encode_key_roundtrip (S := Zsuite) 77 77 9 9 key 3 eq_refl eq_refl)
    as (U & Cs & rnd' & HE & _ & _ & HD).
  exists U, Cs, rnd'. done.
Defined.

Lemma reencrypt_starts_initialised_witness :
  ∃ w, run (S := Zsuite)
    {| o_Shared := Some (secret_of 0); o_U := Some 1; o_Xc := None; o_Uis := [] |}
    [child (secret_of 1); {| o_Shared := None; o_U := None; o_Xc := None; o_Uis := [] |}] = Panic w.
Proof.
  apply (proj2 (proj2 (reencrypt_starts_initialised (S := Zsuite)
    {| o_Shared := Some (secret_of 0); o_U := Some 1; o_Xc := None; o_Uis := [] |}
    [child (secret_of 1); {| o_Shared := None; o_U := None; o_Xc := None; o_Uis := [] |}]))).
  - eexists; reflexivity.
  - eexists; reflexivity.
  - eexists. split; [apply list_elem_of_further, list_elem_of_here|reflexivity].
Defined.
End ReencryptExample.
