(* ===== verification/Dkg.v ===== *)
(** * Distributed key generation ([protocol/dkg.go], [protocol/dkg_struct.go])

    The generators of [crypto.v0/share/dkg] are third-party code: [DkgLib] is
    the record of the calls the source makes, [DkgLaws] their documented
    behaviour in terms of what a generator has processed.  [SetupDKG] holds the
    protocol: one definition per handler, [receive] for what a node does with a
    message ([Dispatch] is a program counter over its receive loops), [step] for
    the network, where every message that is in flight and can be read may be
    read next. *)
From S2P Require Import Prelude Suite Tree Reencrypt.
Local Open Scope Z_scope.

Section lib.
Context {S : Suite}.

Class DkgLib := {
  DistKeyGenerator : Type;
  dkg_Deal : Type;
  dkg_Response : Type;
  dkg_Justification : Type;
  dkg_SecretCommits : Type;
  dkg_Complaint : Type;
  (** [config.NewKeyPair]: the secret and the public key. *)
  NewKeyPair : Stream → Scalar * Point * Stream;
  NewDistKeyGenerator : Scalar → list (option Point) → Stream → Z →
                        outcome error DistKeyGenerator * Stream;
  (** [Deals] returns a map from the index of the receiver, here in iteration
      order. *)
  Deals : SM DistKeyGenerator error (list (Z * dkg_Deal));
  ProcessDeal : dkg_Deal → SM DistKeyGenerator error dkg_Response;
  ProcessResponse : dkg_Response → SM DistKeyGenerator error (option dkg_Justification);
  SecretCommits : SM DistKeyGenerator error dkg_SecretCommits;
  ProcessSecretCommits : dkg_SecretCommits → SM DistKeyGenerator error (option dkg_Complaint);
  Finished : DistKeyGenerator → bool;
  dkg_Index : DistKeyGenerator → Z;
  (** [DistKeyShare]: [Share.V] and [Public()]. *)
  DistKeyShare : DistKeyGenerator → outcome error (Scalar * Point);
}.
End lib.
Arguments DkgLib : clear implicits.

Module SetupDKG.
Import Rosters.
Section protocol.
Context {S : Suite} {U : UuidLib} {D : DkgLib S}.

(** ** Messages ([dkg_struct.go])

    A message that is handled by the identity of its sender carries the
    sender's position in the tree. *)
Inductive Msg :=
  | Init (Wait : bool)
  | InitReply (from : nat) (Public : Point)
  | StartDeal (Publics : list (option Point)) (Threshold : Z)
  | Deal (d : dkg_Deal)
  | Response (r : dkg_Response)
  | SecretCommit (c : dkg_SecretCommits)
  | WaitSetup
  | WaitReply (from : nat).

(** Messages to send, with the position of the receiver in the tree. *)
Abbreviation Out := (list (nat * Msg)).

(** [NewSharedSecret]. *)
Definition NewSharedSecret (dkg : option DistKeyGenerator) : outcome error SharedSecret :=
  match dkg with
  | None => Err "no valid dkg given"
  | Some dkg =>
      if negb (Finished dkg) then Err "dkg is not finished yet"
      else
        let! (v, public) := DistKeyShare dkg in
        Ret {| ss_Index := dkg_Index dkg; ss_V := v; ss_X := public |}
  end.

(** ** The protocol instance

    The tree is the one [CreateSkipchains] generates: the root, at position 0,
    has all other nodes as children, in the order of the tree's roster.  The
    instance's [me] is its position and [nodes] the number of nodes of
    [n.List()]; [random] is what is left of the node's randomness. *)
Record SetupDKG := {
  me : nat;
  roster : Roster;
  DKG : option DistKeyGenerator;
  Threshold : Z;
  nodes : nat;
  keypair : Scalar * Point;
  publics : list (option Point);
  commit : bool;
  Wait : bool;
  Done : bool;
  random : Stream;
}.

Definition set_DKG (o : SetupDKG) (g : option DistKeyGenerator) : SetupDKG :=
  {| me := me o; roster := roster o; DKG := g; Threshold := Threshold o; nodes := nodes o;
     keypair := keypair o; publics := publics o; commit := commit o; Wait := Wait o;
     Done := Done o; random := random o |}.
Definition set_publics (o : SetupDKG) (ps : list (option Point)) : SetupDKG :=
  {| me := me o; roster := roster o; DKG := DKG o; Threshold := Threshold o; nodes := nodes o;
     keypair := keypair o; publics := ps; commit := commit o; Wait := Wait o;
     Done := Done o; random := random o |}.
Definition set_commit (o : SetupDKG) : SetupDKG :=
  {| me := me o; roster := roster o; DKG := DKG o; Threshold := Threshold o; nodes := nodes o;
     keypair := keypair o; publics := publics o; commit := true; Wait := Wait o;
     Done := Done o; random := random o |}.
Definition set_Wait (o : SetupDKG) (w : bool) : SetupDKG :=
  {| me := me o; roster := roster o; DKG := DKG o; Threshold := Threshold o; nodes := nodes o;
     keypair := keypair o; publics := publics o; commit := commit o; Wait := w;
     Done := Done o; random := random o |}.
Definition set_Done (o : SetupDKG) : SetupDKG :=
  {| me := me o; roster := roster o; DKG := DKG o; Threshold := Threshold o; nodes := nodes o;
     keypair := keypair o; publics := publics o; commit := commit o; Wait := Wait o;
     Done := true; random := random o |}.
Definition set_random (o : SetupDKG) (rnd : Stream) : SetupDKG :=
  {| me := me o; roster := roster o; DKG := DKG o; Threshold := Threshold o; nodes := nodes o;
     keypair := keypair o; publics := publics o; commit := commit o; Wait := Wait o;
     Done := Done o; random := rnd |}.

(** [NewSetupDKG] for the node at position [k] of the tree. *)
Definition NewSetupDKG (r : Roster) (k : nat) (rnd : Stream) : SetupDKG :=
  let '(sec, pub, rnd) := NewKeyPair rnd in
  let n := length (List r) in
  {| me := k; roster := r; DKG := None; Threshold := 2; nodes := n; keypair := (sec, pub);
     publics := repeat None n; commit := false; Wait := false; Done := false; random := rnd |}.

Definition SharedSecret (o : SetupDKG) : outcome error SharedSecret := NewSharedSecret (DKG o).

(** ** Sending ([treenode.go]) *)

Definition IsRoot (o : SetupDKG) : bool := (me o =? 0)%nat.
Definition children (o : SetupDKG) : list nat := if IsRoot o then seq 1 (nodes o - 1) else [].
Definition Multicast (msg : Msg) (ks : list nat) : Out := (λ k, (k, msg)) <$> ks.
Definition Broadcast (o : SetupDKG) (msg : Msg) : Out :=
  Multicast msg (filter (λ k, k ≠ me o) (seq 0 (nodes o))).
Definition SendToParent (o : SetupDKG) (msg : Msg) : Out :=
  if IsRoot o then [] else [(0%nat, msg)].
Definition SendToChildren (o : SetupDKG) (msg : Msg) : Out := Multicast msg (children o).
Definition fullBroadcast (o : SetupDKG) (msg : Msg) : Out := Multicast msg (seq 0 (nodes o)).

(** ** The handlers: what they send, or an error *)

Abbreviation H := (SM SetupDKG error Out).

(** A call on [o.DKG]; the nil generator is dereferenced. *)
Definition on_dkg {A} (c : SM DistKeyGenerator error A) : SM SetupDKG error A := λ o,
  match DKG o with
  | None => (Panic "nil pointer dereference", o)
  | Some g => let '(r, g') := c g in (r, set_DKG o (Some g'))
  end.

Definition Start : H := do! o := sget in sret (Broadcast o (Init (Wait o))).

Definition childInit (w : bool) : H :=
  do! o := sget in
  do! _ := sput (set_Wait o w) in
  sret (SendToParent o (InitReply (me o) (keypair o).2)).

(** One reply; [r.ServerIdentity] is the identity of the tree node that sent
    it. *)
Definition store_reply (_ : unit) (reply : nat * Point) : SM SetupDKG error unit :=
  let '(from, Public) := reply in
  do! o := sget in
  do! si := slift (index (List (roster o)) (Z.of_nat from)) in
  let '(i, _) := Search (roster o) (Network.ID si) in
  if i <? 0 then sthrow "unknown serverIdentity"
  else
    do! ps := slift (set_index (publics o) i (Some Public)) in
    sput (set_publics o ps).

Definition rootStartDeal (replies : list (nat * Point)) : H :=
  do! o := sget in
  do! ps := slift (set_index (publics o) 0 (Some (keypair o).2)) in
  do! _ := sput (set_publics o ps) in
  do! _ := sforM store_reply tt replies in
  do! o := sget in
  sret (fullBroadcast o (StartDeal (publics o) (Threshold o))).

(** One deal to its receiver. *)
Definition deal_msg (e : Z * dkg_Deal) : nat * Msg := (Z.to_nat e.1, Deal e.2).
Definition send_deal (out : Out) (e : Z * dkg_Deal) : SM SetupDKG error Out :=
  do! o := sget in
  do! _ := slift (index (seq 0 (nodes o)) e.1) in
  sret (out ++ [deal_msg e]).

Definition allStartDeal (Publics : list (option Point)) (thr : Z) : H :=
  do! o := sget in
  let '(r, rnd) := NewDistKeyGenerator (keypair o).1 Publics (random o) thr in
  do! _ := sput (set_random (set_publics (set_DKG o (match r with Ret g => Some g | _ => None end))
                                         Publics) rnd) in
  do! _ := slift r in
  do! deals := on_dkg Deals in
  sforM send_deal [] deals.

Definition allDeal (d : dkg_Deal) : H :=
  do! resp := on_dkg (ProcessDeal d) in
  do! o := sget in
  sret (fullBroadcast o (Response resp)).

Definition allResponse (resp : dkg_Response) : H :=
  do! just := on_dkg (ProcessResponse resp) in
  match just with
  | Some _ => sthrow "Got a justification"
  | None =>
      do! o := sget in
      match DKG o with
      | None => slift (Panic "nil pointer dereference")
      | Some g =>
          let '(r, g) := SecretCommits g in
          do! _ := sput (set_DKG o (Some g)) in
          match commit o, r with
          | false, Ret c =>
              do! o := sget in
              do! _ := sput (set_commit o) in
              sret (fullBroadcast o (SecretCommit c))
          | _, Panic w => slift (Panic w)
          | _, OutOfFuel => slift OutOfFuel
          | _, _ => sthrow "not enough responses yet"
          end
      end
  end.

Definition allSecretCommit (c : dkg_SecretCommits) : H :=
  do! compl := on_dkg (ProcessSecretCommits c) in
  match compl with
  | Some _ => sthrow "got a complaint"
  | None => sret []
  end.

(** ** [Dispatch] as a program counter

    The counter tells which receive the node waits at and how many more
    messages the loop reads. *)
Inductive Pc :=
  | AtStartDeal
  | AtDeal (k : nat)
  | AtResponse (k : nat)
  | AtSecretCommit (k : nat)
  | AtWaitReply
  | AtWaitSetup
  | Returned.

(** A node: the instance, where its [Dispatch] is, and the messages the tree
    node has collected until all children have sent one. *)
Record Node := {
  inst : SetupDKG;
  pc : Pc;
  init_queue : list (nat * Point);
  wait_queue : list nat;
}.

Definition set_inst (nd : Node) (o : SetupDKG) : Node :=
  {| inst := o; pc := pc nd; init_queue := init_queue nd; wait_queue := wait_queue nd |}.
Definition set_pc (nd : Node) (p : Pc) : Node :=
  {| inst := inst nd; pc := p; init_queue := init_queue nd; wait_queue := wait_queue nd |}.
Definition set_init_queue (nd : Node) (q : list (nat * Point)) : Node :=
  {| inst := inst nd; pc := pc nd; init_queue := q; wait_queue := wait_queue nd |}.
Definition set_wait_queue (nd : Node) (q : list nat) : Node :=
  {| inst := inst nd; pc := pc nd; init_queue := init_queue nd; wait_queue := q |}.

Abbreviation N := (SM Node error Out).

(** A handler on the node's instance, whose error is only logged. *)
Definition handle (h : H) : N := λ nd,
  let '(r, o) := h (inst nd) in
  (match r with Err _ => Ret [] | _ => r end, set_inst nd o).

Definition goto (p : Pc) : SM Node error unit := do! nd := sget in sput (set_pc nd p).

(** The end of [Dispatch]. *)
Definition finish : N :=
  do! _ := goto Returned in
  handle (do! o := sget in
          do! g := slift (deref (DKG o)) in
          if Finished g then do! _ := sput (set_Done o) in sret [] else sret []).

(** What follows a loop: the next receive that reads something. *)
Definition wait : N :=
  do! nd := sget in
  if negb (Wait (inst nd)) then finish
  else if IsRoot (inst nd) then
    do! _ := goto AtWaitReply in sret (SendToChildren (inst nd) WaitSetup)
  else do! _ := goto AtWaitSetup in sret [].

Definition loop_commits : N :=
  do! nd := sget in
  match length (publics (inst nd)) with
  | O => wait
  | k => do! _ := goto (AtSecretCommit k) in sret []
  end.

Definition loop_responses : N :=
  do! nd := sget in
  let l := length (publics (inst nd)) in
  match (l * (l - 1))%nat with
  | O => loop_commits
  | k => do! _ := goto (AtResponse k) in sret []
  end.

Definition loop_deals : N :=
  do! nd := sget in
  match publics (inst nd) with
  | [] => slift (Panic "slice bounds out of range")
  | [_] => loop_responses
  | _ :: ps => do! _ := goto (AtDeal (length ps)) in sret []
  end.

(** One more message of a loop was read. *)
Definition next (p : nat → Pc) (k : nat) (after : N) : N :=
  match k with
  | Datatypes.S (Datatypes.S k) => do! _ := goto (p (Datatypes.S k)) in sret []
  | _ => after
  end.

(** Runs both and sends what both send. *)
Definition both (c d : N) : N := do! out1 := c in do! out2 := d in sret (out1 ++ out2).

(** What a node does with a message: [None] while no receive of [Dispatch]
    waits for it.  [aggregate] of the tree node delivers a message that comes
    from the parent or is not collected at once, and the messages of the
    children when as many have come as there are children. *)
Definition receive (m : Msg) (nd : Node) : option (outcome error Out * Node) :=
  let o := inst nd in
  let fromParent from := negb (IsRoot o) && (from =? 0)%nat in
  match m, pc nd with
  | Init w, _ => Some (handle (childInit w) nd)
  | InitReply from Public, _ =>
      if fromParent from then Some (handle (rootStartDeal [(from, Public)]) nd)
      else
        let q := init_queue nd ++ [(from, Public)] in
        if decide (length q = length (children o))
        then Some (handle (rootStartDeal q) (set_init_queue nd []))
        else Some (Ret [], set_init_queue nd q)
  | StartDeal ps thr, AtStartDeal => Some (both (handle (allStartDeal ps thr)) loop_deals nd)
  | Deal d, AtDeal k => Some (both (handle (allDeal d)) (next AtDeal k loop_responses) nd)
  | Response r, AtResponse k =>
      Some (both (handle (allResponse r)) (next AtResponse k loop_commits) nd)
  | SecretCommit c, AtSecretCommit k =>
      Some (both (handle (allSecretCommit c)) (next AtSecretCommit k wait) nd)
  | WaitSetup, AtWaitSetup => Some (both (sret (SendToParent o (WaitReply (me o)))) finish nd)
  | WaitReply from, p =>
      let q := wait_queue nd ++ [from] in
      if fromParent from || bool_decide (length q = length (children o))
      then match p with AtWaitReply => Some (finish (set_wait_queue nd [])) | _ => None end
      else Some (Ret [], set_wait_queue nd q)
  | _, _ => None
  end.

(** ** The network *)

Record Net := { net_nodes : list Node; net_msgs : Out }.

Definition deliver (net : Net) (rest : Out) (k : nat) (nd : Node) (out : Out) : Net :=
  {| net_nodes := <[k := nd]> (net_nodes net); net_msgs := rest ++ out |}.

(** Some message in flight is read. *)
Inductive step : Net → Net → Prop :=
  | step_deliver net l1 l2 k m nd out nd' :
      net_msgs net = l1 ++ (k, m) :: l2 →
      net_nodes net !! k = Some nd →
      receive m nd = Some (Ret out, nd') →
      step net (deliver net (l1 ++ l2) k nd' out).

(** A message in flight makes its receiver panic. *)
Definition panics (net : Net) : Prop :=
  ∃ k m nd nd' w, (k, m) ∈ net_msgs net ∧ net_nodes net !! k = Some nd ∧
    receive m nd = Some (Panic w, nd').

Definition new_node (r : Roster) (k : nat) (rnd : Stream) : Node :=
  {| inst := NewSetupDKG r k rnd; pc := AtStartDeal; init_queue := []; wait_queue := [] |}.

(** [CreateSkipchains]: the root sets [Wait] and starts; the instances of the
    other nodes are made when their first message comes. *)
Definition start (r : Roster) (w : bool) (rnds : list Stream) : outcome error Net :=
  match imap (new_node r) rnds with
  | [] => Err "no nodes"
  | root :: others =>
      let root := set_inst root (set_Wait (inst root) w) in
      let '(out, o) := Start (inst root) in
      let! out := out in
      Ret {| net_nodes := set_inst root o :: others; net_msgs := out |}
  end.
End protocol.
End SetupDKG.

(** ** Documented behaviour of the generators

    [View] is what a generator has processed: its own polynomial, the
    polynomials of the dealers whose deal it has, the responses (of dealer [i]
    by verifier [j]) and the commits it has seen. *)
Record View {S : Suite} := {
  v_publics : list Point;
  v_me : nat;
  v_poly : list Scalar;
  v_deals : gmap nat (list Scalar);
  v_resps : gset (nat * nat);
  v_commits : gset nat;
}.

Section laws.
Context {S : Suite} {D : DkgLib S}.

Fixpoint poly_add (p q : list Scalar) : list Scalar :=
  match p, q with
  | [], _ => q
  | _, [] => p
  | a :: p, b :: q => scalar_add a b :: poly_add p q
  end.

(** The sum of the polynomials of all dealers. *)
Definition poly_total (n : nat) (F : nat → list Scalar) : list Scalar :=
  foldr (λ i p, poly_add (F i) p) [] (seq 0 n).

Definition distinct_keys (pks : list Point) : Prop :=
  ∀ i j p q, pks !! i = Some p → pks !! j = Some q → p ≡ q → i = j.

Definition add_deal (i : nat) (f : list Scalar) (v : View) : View :=
  {| v_publics := v_publics v; v_me := v_me v; v_poly := v_poly v;
     v_deals := <[i := f]> (v_deals v);
     v_resps := {[ (i, i); (i, v_me v) ]} ∪ v_resps v; v_commits := v_commits v |}.
Definition add_resp (i j : nat) (v : View) : View :=
  {| v_publics := v_publics v; v_me := v_me v; v_poly := v_poly v; v_deals := v_deals v;
     v_resps := {[ (i, j) ]} ∪ v_resps v; v_commits := v_commits v |}.
Definition add_commit (i : nat) (v : View) : View :=
  {| v_publics := v_publics v; v_me := v_me v; v_poly := v_poly v; v_deals := v_deals v;
     v_resps := v_resps v; v_commits := {[ i ]} ∪ v_commits v |}.

(** All deals and all responses of other participants are in. *)
Definition certified (v : View) : Prop :=
  let n := length (v_publics v) in
  (∀ i, (i < n)%nat → is_Some (v_deals v !! i)) ∧
  (∀ i j, (i < n)%nat → (j < n)%nat → i ≠ j → (i, j) ∈ v_resps v).

Class DkgLaws := {
  view : DistKeyGenerator → View;
  (** Deal of dealer [i], with polynomial [f], for [j]; approval of the deal of
      [i] by [j]; commits of [i]. *)
  valid_deal : list Point → nat → nat → list Scalar → dkg_Deal → Prop;
  valid_resp : list Point → nat → nat → dkg_Response → Prop;
  valid_commit : list Point → nat → list Scalar → dkg_SecretCommits → Prop;
  NewKeyPair_ok rnd : (NewKeyPair rnd).1.2 ≡ point_mul None (NewKeyPair rnd).1.1;
  NewDistKeyGenerator_ok sec pks me p rnd t :
    distinct_keys pks → pks !! me = Some p → p ≡ point_mul None sec →
    2 <= t <= Z.of_nat (length pks) →
    ∃ g f, (NewDistKeyGenerator sec (Some <$> pks) rnd t).1 = Ret g ∧
      length f = Z.to_nat t ∧
      view g = {| v_publics := pks; v_me := me; v_poly := f; v_deals := ∅; v_resps := ∅;
                  v_commits := ∅ |};
  Deals_ok g :
    v_deals (view g) !! v_me (view g) = None →
    ∃ ds g', Deals g = (Ret ds, g') ∧ view g' = add_deal (v_me (view g)) (v_poly (view g)) (view g) ∧
      ds.*1 ≡ₚ Z.of_nat <$> filter (λ k, k ≠ v_me (view g)) (seq 0 (length (v_publics (view g)))) ∧
      ∀ k d, (Z.of_nat k, d) ∈ ds →
        valid_deal (v_publics (view g)) (v_me (view g)) k (v_poly (view g)) d;
  ProcessDeal_ok g i f d :
    valid_deal (v_publics (view g)) i (v_me (view g)) f d → v_deals (view g) !! i = None →
    ∃ r g', ProcessDeal d g = (Ret r, g') ∧ view g' = add_deal i f (view g) ∧
      valid_resp (v_publics (view g)) i (v_me (view g)) r;
  ProcessResponse_ok g i j r :
    valid_resp (v_publics (view g)) i j r → is_Some (v_deals (view g) !! i) → i ≠ j →
    (i, j) ∉ v_resps (view g) →
    ∃ g', ProcessResponse r g = (Ret None, g') ∧ view g' = add_resp i j (view g);
  (** A response that is known already is an error or ignored. *)
  ProcessResponse_known g i j r :
    valid_resp (v_publics (view g)) i j r → (i, j) ∈ v_resps (view g) →
    ∃ o g', ProcessResponse r g = (o, g') ∧ view g' = view g ∧ (o = Ret None ∨ ∃ e, o = Err e);
  (** The commits are available, or it is an error; they are when all others
      have approved the own deal. *)
  SecretCommits_ok g :
    ∃ o g', SecretCommits g = (o, g') ∧ view g' = view g ∧
      match o with
      | Ret c => valid_commit (v_publics (view g)) (v_me (view g)) (v_poly (view g)) c
      | Err _ => ¬ ∀ j, (j < length (v_publics (view g)))%nat → j ≠ v_me (view g) →
                        (v_me (view g), j) ∈ v_resps (view g)
      | _ => False
      end;
  ProcessSecretCommits_ok g i f c :
    certified (view g) → v_deals (view g) !! i = Some f →
    valid_commit (v_publics (view g)) i f c →
    ∃ g', ProcessSecretCommits c g = (Ret None, g') ∧ view g' = add_commit i (view g);
  Finished_ok g F :
    let n := length (v_publics (view g)) in
    certified (view g) → (∀ i, (i < n)%nat → v_deals (view g) !! i = Some (F i)) →
    (∀ i, (i < n)%nat → i ∈ v_commits (view g)) →
    Finished g = true ∧ dkg_Index g = Z.of_nat (v_me (view g)) ∧
    ∃ X, DistKeyShare g = Ret (share_at (poly_total n F) (Z.of_nat (v_me (view g))), X) ∧
      X ≡ point_mul None (share_secret (poly_total n F));
}.
End laws.
Arguments DkgLaws {S} D.

(** ** The abstract specification: a growing set of messages that were read

    Every message of a run has a name; what is sent and what can be read
    depends only on which messages were read before. *)
Inductive Tag :=
  | TInit (k : nat) | TReply (k : nat) | TStart (k : nat) | TDeal (i k : nat)
  | TResp (i j k : nat) | TCommit (i k : nat) | TWaitS (k : nat) | TWaitR (k : nat).

#[global] Instance Tag_eq_dec : EqDecision Tag.
Proof. solve_decision. Defined.

Section knowledge.
Context {S : Suite} {D : DkgLib S} {DL : DkgLaws D}.
Context (pks : list Point) (F : nat → list Scalar).

(** The generator of [k] has processed the messages to [k] in [C]. *)
Record knows (C : list Tag) (k : nat) (g : DistKeyGenerator) : Prop := {
  k_publics : v_publics (view g) = pks;
  k_me : v_me (view g) = k;
  k_poly : v_poly (view g) = F k;
  k_deals i f : v_deals (view g) !! i = Some f ↔
                (i = k ∧ TStart k ∈ C ∨ TDeal i k ∈ C) ∧ f = F i;
  k_resps i j : i ≠ j → ((i, j) ∈ v_resps (view g) ↔
                         TResp i j k ∈ C ∨ j = k ∧ TDeal i k ∈ C);
  k_commits i : TCommit i k ∈ C → i ∈ v_commits (view g);
}.

Lemma knows_local C C' k g :
  (TStart k ∈ C ↔ TStart k ∈ C') → (∀ i, TDeal i k ∈ C ↔ TDeal i k ∈ C') →
  (∀ i j, TResp i j k ∈ C ↔ TResp i j k ∈ C') → (∀ i, TCommit i k ∈ C' → TCommit i k ∈ C) →
  knows C k g → knows C' k g.
Proof.
  intros Hs Hd Hr Hc [? ? ? Kd Kr Kc]. split; [done..| | |].
  - intros i f. rewrite Kd, Hs, Hd. done.
  - intros i j Hij. rewrite (Kr i j Hij), Hr, Hd. done.
  - auto.
Qed.

(** Only what the generator has processed matters. *)
Lemma knows_view C k g g' : view g' = view g → knows C k g → knows C k g'.
Proof. intros Hv [? ? ? ? ? ?]. split; rewrite ?Hv; done. Qed.

Lemma knows_cons C t k g :
  match t with TStart _ | TDeal _ _ | TResp _ _ _ | TCommit _ _ => False | _ => True end →
  knows C k g → knows (t :: C) k g.
Proof. intros Ht. apply knows_local; intros; rewrite ?elem_of_cons in *; naive_solver. Qed.

Lemma knows_no_deal C k g i :
  knows C k g → (i = k → TStart k ∉ C) → TDeal i k ∉ C → v_deals (view g) !! i = None.
Proof.
  intros HK Hs Hd. apply eq_None_not_Some. intros [f [[[-> ?]|?] _]%(k_deals _ _ _ HK)]; naive_solver.
Qed.

Lemma knows_start C k g :
  knows C k g → TStart k ∉ C → TDeal k k ∉ C →
  ∃ ds g', Deals g = (Ret ds, g') ∧ knows (TStart k :: C) k g' ∧
    ds.*1 ≡ₚ Z.of_nat <$> filter (λ i, i ≠ k) (seq 0 (length pks)) ∧
    ∀ i d, (Z.of_nat i, d) ∈ ds → valid_deal pks k i (F k) d.
Proof.
  intros HK Hs Hd. destruct (Deals_ok g) as (ds & g' & Hg & Hv & Hds & Hval).
  { rewrite (k_me _ _ _ HK). by apply (knows_no_deal C k). }
  rewrite (k_me _ _ _ HK), (k_poly _ _ _ HK), ?(k_publics _ _ _ HK) in *.
  exists ds, g'. split; [done|]. split; [|done]. destruct HK as [Kp Km Kf Kd Kr Kc].
  split; rewrite ?Hv; cbn; [done..| | |].
  - intros i f. rewrite lookup_insert_Some, Kd, !elem_of_cons.
    destruct (decide (i = k)) as [->|Hik]; naive_solver.
  - intros i j Hij. rewrite !elem_of_union, !elem_of_singleton, Kr, !elem_of_cons, Km by done.
    naive_solver.
  - intros i [?|?]%elem_of_cons; [done|auto].
Qed.

Lemma knows_deal C k g i d :
  knows C k g → i ≠ k → TDeal i k ∉ C → valid_deal pks i k (F i) d →
  ∃ r g', ProcessDeal d g = (Ret r, g') ∧ knows (TDeal i k :: C) k g' ∧ valid_resp pks i k r.
Proof.
  intros HK Hik Hd Hval.
  destruct (ProcessDeal_ok g i (F i) d) as (r & g' & Hg & Hv & Hr).
  { by rewrite (k_publics _ _ _ HK), (k_me _ _ _ HK). }
  { apply (knows_no_deal C k); [done|naive_solver|done]. }
  rewrite (k_publics _ _ _ HK), (k_me _ _ _ HK) in Hr. exists r, g'. split; [done|]. split; [|done].
  destruct HK as [Kp Km Kf Kd Kr Kc]. split; rewrite ?Hv; cbn; [done..| | |].
  - intros i' f. rewrite lookup_insert_Some, Kd, !elem_of_cons. naive_solver.
  - intros i' j Hij. rewrite !elem_of_union, !elem_of_singleton, Kr, !elem_of_cons, Km by done.
    naive_solver.
  - intros i' [?|?]%elem_of_cons; [done|auto].
Qed.

(** A response to [k], its own one included, which is known already. *)
Lemma knows_resp C k g i j r :
  knows C k g → i ≠ j → TResp i j k ∉ C → (i = k ∧ TStart k ∈ C ∨ TDeal i k ∈ C) →
  (j = k → TDeal i k ∈ C) → valid_resp pks i j r →
  ∃ o g', ProcessResponse r g = (o, g') ∧ knows (TResp i j k :: C) k g' ∧
    (o = Ret None ∨ j = k ∧ ∃ e, o = Err e).
Proof.
  intros HK Hij Hn Hd Hown Hval. destruct HK as [Kp Km Kf Kd Kr Kc].
  destruct (decide (j = k)) as [->|Hjk].
  - destruct (ProcessResponse_known g i k r) as (o & g' & Hg & Hv & Ho).
    { by rewrite Kp. } { apply Kr; auto. }
    exists o, g'. split; [done|]. split; [|naive_solver].
    split; rewrite ?Hv; [done..| | |].
    + intros i' f. rewrite Kd, !elem_of_cons. naive_solver.
    + intros i' j Hij'. rewrite (Kr _ _ Hij'), !elem_of_cons. naive_solver.
    + intros i' [?|?]%elem_of_cons; [done|auto].
  - destruct (ProcessResponse_ok g i j r) as (g' & Hg & Hv).
    { by rewrite Kp. } { exists (F i). apply Kd. auto. } { done. }
    { rewrite Kr by done. naive_solver. }
    exists (Ret None), g'. split; [done|]. split; [|auto].
    split; rewrite ?Hv; cbn; [done..| | |].
    + intros i' f. rewrite Kd, !elem_of_cons. naive_solver.
    + intros i' j' Hij'. rewrite elem_of_union, elem_of_singleton, (Kr _ _ Hij'), !elem_of_cons.
      naive_solver.
    + intros i' [?|?]%elem_of_cons; [done|auto].
Qed.

Lemma knows_certified C k g :
  knows C k g → TStart k ∈ C → (k < length pks)%nat →
  (∀ i, (i < length pks)%nat → i ≠ k → TDeal i k ∈ C) →
  (∀ i j, (i < length pks)%nat → (j < length pks)%nat → i ≠ j → TResp i j k ∈ C) →
  certified (view g) ∧ ∀ i, (i < length pks)%nat → v_deals (view g) !! i = Some (F i).
Proof.
  intros [Kp Km Kf Kd Kr Kc] Hs Hk Hd Hr.
  assert (∀ i, (i < length pks)%nat → v_deals (view g) !! i = Some (F i)) as Hdeals.
  { intros i Hi. apply Kd. split; [|done]. destruct (decide (i = k)) as [->|Hne]; auto. }
  split; [|done]. unfold certified. rewrite Kp. split; [eauto|].
  intros i j Hi Hj Hij. apply Kr; auto.
Qed.

Lemma knows_commit C k g i c :
  knows C k g → certified (view g) → v_deals (view g) !! i = Some (F i) →
  valid_commit pks i (F i) c →
  ∃ g', ProcessSecretCommits c g = (Ret None, g') ∧ knows (TCommit i k :: C) k g'.
Proof.
  intros [Kp Km Kf Kd Kr Kc] Hc Hd Hval.
  destruct (ProcessSecretCommits_ok g i (F i) c) as (g' & Hg & Hv); [done..|by rewrite Kp|].
  exists g'. split; [done|]. split; rewrite ?Hv; cbn; [done..| | |].
  - intros i' f. rewrite Kd, !elem_of_cons. naive_solver.
  - intros i' j Hij'. rewrite (Kr _ _ Hij'), !elem_of_cons. naive_solver.
  - intros i' [[= ->]|?]%elem_of_cons; set_solver.
Qed.

(** What a generator that has seen everything gives. *)
Lemma knows_finished C k g :
  knows C k g → certified (view g) →
  (∀ i, (i < length pks)%nat → v_deals (view g) !! i = Some (F i)) →
  (∀ i, (i < length pks)%nat → TCommit i k ∈ C) →
  Finished g = true ∧
  ∃ X, SetupDKG.NewSharedSecret (Some g) =
       Ret {| ss_Index := Z.of_nat k; ss_V := share_at (poly_total (length pks) F) (Z.of_nat k);
              ss_X := X |} ∧
    X ≡ point_mul None (share_secret (poly_total (length pks) F)).
Proof.
  intros [Kp Km Kf Kd Kr Kc] Hc Hd Hcom.
  destruct (Finished_ok g F) as (Hf & Hi & X & Hs & HX); rewrite ?Kp; auto.
  split; [done|]. exists X. rewrite ?Kp in *. split; [|done].
  unfold SetupDKG.NewSharedSecret. rewrite Hf. cbn. rewrite Hs. cbn. by rewrite Hi, Km.
Qed.
End knowledge.
