(* ===== verification/DkgRun.v ===== *)
(** * Runs of the distributed key generation

    The network of [SetupDKG] instances ([Dkg.SetupDKG.step]) refines the
    specification of [Dkg.v], a growing set of messages that were read: [sim]
    is the relation, [reads] what one delivery must do, one lemma per kind of
    message.  From it follow that no run panics, that all runs end, and what
    the nodes hold at the end. *)
From S2P Require Import Prelude Suite Tree Reencrypt Dkg.
Local Open Scope Z_scope.

(** ** The protocol refines the specification *)

Section refinement.
Import SetupDKG.
Context {S : Suite} {U : UuidLib} {D : DkgLib S} {DL : DkgLaws D}.
Context (r : Rosters.Roster) (w : bool) (rnds : list Stream).

Definition insts : list SetupDKG := imap (NewSetupDKG r) rnds.
Definition keys : list Point := (λ o, (keypair o).2) <$> insts.

(** The polynomial the generator of node [k] will draw. *)
Definition poly_of (k : nat) : list Scalar :=
  match insts !! k with
  | Some o =>
      match (NewDistKeyGenerator (keypair o).1 (Some <$> keys) (random o) 2).1 with
      | Ret g => v_poly (view g)
      | _ => []
      end
  | None => []
  end.

(** What the whole development of a run needs. *)
Record good_setup : Prop := {
  good_size : (2 <= length rnds)%nat;
  good_roster : length (Rosters.List r) = length rnds;
  good_distinct : Rosters.distinct r;
  good_keys : distinct_keys keys;
}.

Local Abbreviation n := (length rnds).

(** The messages to [k], by kind. *)
Definition others (k : nat) : list nat := filter (λ i, i ≠ k) (seq 0 n).
Definition to_deals (k : nat) : list Tag := (λ i, TDeal i k) <$> others k.
Definition to_resps (k : nat) : list Tag :=
  seq 0 n ≫= λ j, (λ i, TResp i j k) <$> others j.
Definition to_commits (k : nat) : list Tag := (λ i, TCommit i k) <$> seq 0 n.
Definition replies : list Tag := TReply <$> seq 1 (n - 1).
Definition wait_replies : list Tag := TWaitR <$> seq 1 (n - 1).

(** Whether a message was sent, when [C] has been read and the nodes in [K]
    have sent their commits. *)
Definition sent (C : list Tag) (K : list nat) (t : Tag) : Prop :=
  match t with
  | TInit k => (0 < k < n)%nat
  | TReply k => (0 < k < n)%nat ∧ TInit k ∈ C
  | TStart k => (k < n)%nat ∧ ∀ t, t ∈ replies → t ∈ C
  | TDeal i k => (i < n)%nat ∧ (k < n)%nat ∧ i ≠ k ∧ TStart i ∈ C
  | TResp i j k => (k < n)%nat ∧ TDeal i j ∈ C
  | TCommit i k => (k < n)%nat ∧ i ∈ K
  | TWaitS k => w = true ∧ (0 < k < n)%nat ∧ ∀ t, t ∈ to_commits 0 → t ∈ C
  | TWaitR k => TWaitS k ∈ C
  end.

(** Whether the receiver has reached the receive for it. *)
Definition gate (C : list Tag) (t : Tag) : Prop :=
  match t with
  | TDeal i k => TStart k ∈ C
  | TResp i j k => TStart k ∈ C ∧ ∀ t, t ∈ to_deals k → t ∈ C
  | TCommit i k =>
      TStart k ∈ C ∧ (∀ t, t ∈ to_deals k → t ∈ C) ∧ (∀ t, t ∈ to_resps k → t ∈ C)
  | TWaitS k =>
      TStart k ∈ C ∧ (∀ t, t ∈ to_deals k → t ∈ C) ∧ (∀ t, t ∈ to_resps k → t ∈ C) ∧
      (∀ t, t ∈ to_commits k → t ∈ C)
  | _ => True
  end.

Definition dest (t : Tag) : nat :=
  match t with
  | TInit k | TStart k | TDeal _ k | TResp _ _ k | TCommit _ k | TWaitS k => k
  | TReply _ | TWaitR _ => 0
  end.

(** A message in flight bears a name. *)
Definition matches (e : nat * Msg) (t : Tag) : Prop :=
  e.1 = dest t ∧
  match t, e.2 with
  | TInit _, Init w' => w' = w
  | TReply j, InitReply from p => from = j ∧ keys !! j = Some p
  | TStart _, StartDeal ps thr => ps = Some <$> keys ∧ thr = 2
  | TDeal i k, Deal d => valid_deal keys i k (poly_of i) d
  | TResp i j k, Response x => valid_resp keys i j x
  | TCommit i k, SecretCommit c => valid_commit keys i (poly_of i) c
  | TWaitS _, WaitSetup => True
  | TWaitR j, WaitReply from => from = j
  | _, _ => False
  end.

(** Where [Dispatch] of node [k] is. *)
Definition expected_pc (C : list Tag) (k : nat) : Pc :=
  if decide (TStart k ∉ C) then AtStartDeal
  else match remaining C (to_deals k) with
  | Datatypes.S m => AtDeal (Datatypes.S m)
  | O => match remaining C (to_resps k) with
  | Datatypes.S m => AtResponse (Datatypes.S m)
  | O => match remaining C (to_commits k) with
  | Datatypes.S m => AtSecretCommit (Datatypes.S m)
  | O =>
      if negb w then Returned
      else if decide (k = 0%nat)
      then match remaining C wait_replies with O => Returned | _ => AtWaitReply end
      else if decide (TWaitS k ∈ C) then Returned else AtWaitSetup
  end end end.

Record node_ok (C : list Tag) (K : list nat) (k : nat) (o0 : SetupDKG) (nd : Node) : Prop := {
  n_me : me (inst nd) = k;
  n_roster : roster (inst nd) = r;
  n_threshold : Threshold (inst nd) = 2;
  n_nodes : nodes (inst nd) = n;
  n_keypair : keypair (inst nd) = keypair o0;
  n_wait : k = 0%nat ∨ TInit k ∈ C → Wait (inst nd) = w;
  n_start : TStart k ∉ C → random (inst nd) = random o0;
  n_length : TStart k ∉ C → length (publics (inst nd)) = n;
  n_publics : TStart k ∈ C → publics (inst nd) = Some <$> keys;
  n_dkg : TStart k ∈ C → ∃ g, DKG (inst nd) = Some g ∧ knows keys poly_of C k g;
  n_commit : commit (inst nd) = bool_decide (k ∈ K);
  n_pc : pc nd = expected_pc C k;
  n_init_queue : k = 0%nat → remaining C replies ≠ 0%nat →
    (length (init_queue nd) + remaining C replies = n - 1)%nat ∧
    (∀ j p, (j, p) ∈ init_queue nd → TReply j ∈ C ∧ keys !! j = Some p) ∧
    (∀ j, TReply j ∈ C → j ∈ (init_queue nd).*1);
  n_wait_queue : k = 0%nat → remaining C wait_replies ≠ 0%nat →
    (length (wait_queue nd) + remaining C wait_replies = n - 1)%nat;
  n_done : pc nd = Returned → Done (inst nd) = true;
}.

(** Invariants of the specification. *)
Record coherent (C : list Tag) (K : list nat) : Prop := {
  s_closed t : t ∈ C → sent C K t ∧ gate C t;
  s_committed k : k ∈ K → (k < n)%nat ∧ TStart k ∈ C;
  s_commits k : (k < n)%nat → TStart k ∈ C →
    (∀ j, (j < n)%nat → j ≠ k → TResp k j k ∈ C) → k ∈ K;
}.

(** The refinement relation. *)
Record sim (C : list Tag) (K : list nat) (net : Net) : Prop := {
  s_length : length (net_nodes net) = n;
  s_nodes k nd : net_nodes net !! k = Some nd →
    ∃ o0, insts !! k = Some o0 ∧ node_ok C K k o0 nd;
  s_bag : ∃ ts, NoDup ts ∧ Forall2 matches (net_msgs net) ts ∧
    ∀ t, t ∈ ts ↔ sent C K t ∧ t ∉ C;
  s_nodup : NoDup C;
  s_coherent : coherent C K;
}.

(** *** Counting *)

Lemma elem_of_others k i : i ∈ others k ↔ (i < n)%nat ∧ i ≠ k.
Proof. unfold others. rewrite list_elem_of_filter, elem_of_seq. lia. Qed.
Lemma length_others k : (k < n)%nat → length (others k) = (n - 1)%nat.
Proof.
  intros Hk. unfold others.
  replace (seq 0 n) with (seq 0 (k + Datatypes.S (n - k - 1))) by (f_equal; lia).
  rewrite seq_app, filter_app. cbn [seq].
  rewrite filter_cons_False by lia.
  rewrite !filter_all by (intros x Hx%elem_of_seq; lia).
  rewrite length_app, !length_seq. lia.
Qed.
Lemma NoDup_others k : NoDup (others k).
Proof. apply NoDup_filter, NoDup_seq. Qed.

Lemma elem_of_to_deals k t : t ∈ to_deals k ↔ ∃ i, t = TDeal i k ∧ (i < n)%nat ∧ i ≠ k.
Proof.
  unfold to_deals. rewrite list_elem_of_fmap. setoid_rewrite elem_of_others. done.
Qed.
Lemma elem_of_to_resps k t :
  t ∈ to_resps k ↔ ∃ i j, t = TResp i j k ∧ (i < n)%nat ∧ (j < n)%nat ∧ i ≠ j.
Proof.
  unfold to_resps. rewrite list_elem_of_bind. setoid_rewrite list_elem_of_fmap.
  setoid_rewrite elem_of_others. setoid_rewrite elem_of_seq. split.
  - intros (j & (i & -> & Hi & Hij) & Hj). exists i, j. split; [done|lia].
  - intros (i & j & -> & Hi & Hj & Hij). exists j. split; [|lia]. exists i. done.
Qed.
Lemma elem_of_to_commits k t : t ∈ to_commits k ↔ ∃ i, t = TCommit i k ∧ (i < n)%nat.
Proof.
  unfold to_commits. rewrite list_elem_of_fmap. setoid_rewrite elem_of_seq.
  split; intros (i & -> & Hi); exists i; (split; [done|lia]).
Qed.
Lemma elem_of_replies t : t ∈ replies ↔ ∃ i, t = TReply i ∧ (0 < i < n)%nat.
Proof.
  unfold replies. rewrite list_elem_of_fmap. setoid_rewrite elem_of_seq.
  split; intros (i & -> & Hi); exists i; (split; [done|lia]).
Qed.
Lemma elem_of_wait_replies t : t ∈ wait_replies ↔ ∃ i, t = TWaitR i ∧ (0 < i < n)%nat.
Proof.
  unfold wait_replies. rewrite list_elem_of_fmap. setoid_rewrite elem_of_seq.
  split; intros (i & -> & Hi); exists i; (split; [done|lia]).
Qed.

Lemma NoDup_to_deals k : NoDup (to_deals k).
Proof. apply NoDup_fmap_2_strong; [intros ?? _ _ [= ->]; done|apply NoDup_others]. Qed.
Lemma NoDup_to_commits k : NoDup (to_commits k).
Proof. apply NoDup_fmap_2_strong; [intros ?? _ _ [= ->]; done|apply NoDup_seq]. Qed.
Lemma NoDup_replies : NoDup replies.
Proof. apply NoDup_fmap_2_strong; [intros ?? _ _ [= ->]; done|apply NoDup_seq]. Qed.
Lemma NoDup_wait_replies : NoDup wait_replies.
Proof. apply NoDup_fmap_2_strong; [intros ?? _ _ [= ->]; done|apply NoDup_seq]. Qed.

Lemma to_resps_shape k m l :
  NoDup l → (∀ j, j ∈ l → (j < n)%nat) → m = length l →
  let R := l ≫= λ j, (λ i, TResp i j k) <$> others j in
  NoDup R ∧ length R = (m * (n - 1))%nat.
Proof.
  intros Hl Hb ->. induction l as [|j l IH]; cbn; [split; [constructor|done]|].
  apply NoDup_cons in Hl as [Hj Hl]. destruct IH as [IHd IHl]; [done|set_solver|].
  split.
  - apply NoDup_app. split; [|split; [|done]].
    + apply NoDup_fmap_2_strong; [intros ?? _ _ [= ->]; done|apply NoDup_others].
    + intros t (i & -> & _)%list_elem_of_fmap (j' & Ht & Hj')%list_elem_of_bind.
      apply list_elem_of_fmap in Ht as (? & [= _ <-] & _). done.
  - rewrite length_app, length_fmap, length_others, IHl by (apply Hb; set_solver). lia.
Qed.
Lemma NoDup_to_resps k : NoDup (to_resps k).
Proof.
  apply (to_resps_shape k (length (seq 0 n))); [apply NoDup_seq| |done].
  intros j Hj%elem_of_seq. lia.
Qed.
Lemma length_to_resps k : length (to_resps k) = (n * (n - 1))%nat.
Proof.
  rewrite <-(length_seq n 0) at 1. apply to_resps_shape; [apply NoDup_seq| |by rewrite !length_seq].
  intros j Hj%elem_of_seq. lia.
Qed.
Lemma length_to_deals k : (k < n)%nat → length (to_deals k) = (n - 1)%nat.
Proof. intros Hk. unfold to_deals. rewrite length_fmap. by apply length_others. Qed.
Lemma length_to_commits k : length (to_commits k) = n.
Proof. unfold to_commits. by rewrite length_fmap, length_seq. Qed.

Lemma remaining_ext (C C' V : list Tag) :
  (∀ t, t ∈ V → t ∈ C ↔ t ∈ C') → remaining C V = remaining C' V.
Proof. intros HU. unfold remaining. f_equal. apply filter_iff_in. intros t Ht. by rewrite HU. Qed.

Lemma remaining_all (C V : list Tag) : (∀ t, t ∈ V → t ∉ C) → remaining C V = length V.
Proof. intros HU. unfold remaining. by rewrite filter_all. Qed.

(** *** A delivery only concerns its receiver *)

Definition dispatched (t : Tag) : option nat :=
  match t with TInit _ | TReply _ => None | _ => Some (dest t) end.

Lemma expected_pc_local C C' k :
  (∀ t, dispatched t = Some k → t ∈ C ↔ t ∈ C') → expected_pc C k = expected_pc C' k.
Proof.
  intros HC. unfold expected_pc.
  rewrite (decide_ext (TStart k ∉ C) (TStart k ∉ C')) by (by rewrite HC).
  rewrite (remaining_ext C C' (to_deals k)) by (intros t (? & -> & _)%elem_of_to_deals; by apply HC).
  rewrite (remaining_ext C C' (to_resps k))
    by (intros t (? & ? & -> & _)%elem_of_to_resps; by apply HC).
  rewrite (remaining_ext C C' (to_commits k))
    by (intros t (? & -> & _)%elem_of_to_commits; by apply HC).
  rewrite (decide_ext (TWaitS k ∈ C) (TWaitS k ∈ C')) by (by apply HC).
  destruct (decide (k = 0%nat)) as [->|]; [|done].
  rewrite (remaining_ext C C' wait_replies)
    by (intros t (? & -> & _)%elem_of_wait_replies; by apply HC). done.
Qed.

Lemma expected_pc_cons C t k : dispatched t = None → expected_pc (t :: C) k = expected_pc C k.
Proof. intros Ht. apply expected_pc_local. intros t' Ht'. rewrite elem_of_cons. naive_solver. Qed.

Lemma node_ok_local C C' K K' k o0 nd :
  (∀ t, dest t = k → t ∈ C ↔ t ∈ C') → (k ∈ K ↔ k ∈ K') →
  node_ok C K k o0 nd → node_ok C' K' k o0 nd.
Proof.
  intros HC HK [? ? ? ? ? Hw Hs Hl Hp Hg Hc Hpc Hi Hq Hd].
  pose proof (HC (TStart k) eq_refl) as HCs.
  split; try done.
  - intros [->|H%HC]; auto.
  - rewrite <-HCs. auto.
  - rewrite <-HCs. auto.
  - rewrite <-HCs. auto.
  - rewrite <-HCs. intros (g & Hg1 & Hg2)%Hg. exists g. split; [done|].
    apply (knows_local _ _ C); [intros; by apply HC..|done].
  - rewrite Hc. by apply bool_decide_ext.
  - rewrite Hpc. apply expected_pc_local. intros t Ht. apply HC. by destruct t; simplify_eq/=.
  - intros ->. rewrite <-(remaining_ext C C')
      by (intros t (? & -> & _)%elem_of_replies; by apply HC).
    intros Hn. destruct (Hi eq_refl Hn) as (H1 & H2 & H3). split; [done|]. split.
    + intros j q Hj. rewrite <-HC by done. auto.
    + intros j Hj. apply H3, HC; done.
  - intros ->. rewrite <-(remaining_ext C C')
      by (intros t (? & -> & _)%elem_of_wait_replies; by apply HC). auto.
Qed.

Lemma sent_mono C K C' K' t : C ⊆ C' → K ⊆ K' → sent C K t → sent C' K' t.
Proof. intros HC HK. destruct t; cbn; naive_solver. Qed.
Lemma gate_mono C C' t : C ⊆ C' → gate C t → gate C' t.
Proof. intros HC. destruct t; cbn; naive_solver. Qed.

(** The relation after a message was read: its receiver's state fits, and what
    the receiver sends is what the specification says is sent now. *)
Lemma sim_deliver C K K' net l1 l2 k m t ts1 ts2 nd' out news o0 :
  sim C K net → net_msgs net = l1 ++ (k, m) :: l2 →
  Forall2 matches l1 ts1 → Forall2 matches l2 ts2 → matches (k, m) t →
  NoDup (ts1 ++ t :: ts2) → (∀ t', t' ∈ ts1 ++ t :: ts2 ↔ sent C K t' ∧ t' ∉ C) →
  gate C t → insts !! k = Some o0 → node_ok (t :: C) K' k o0 nd' →
  K ⊆ K' → (∀ k', k' ∈ K' → k' ∈ K ∨ k' = k) →
  (k ∈ K' → (k < n)%nat ∧ TStart k ∈ t :: C) →
  ((k < n)%nat → TStart k ∈ t :: C →
   (∀ j, (j < n)%nat → j ≠ k → TResp k j k ∈ t :: C) → k ∈ K') →
  Forall2 matches out news → NoDup news →
  (∀ t', sent (t :: C) K' t' ↔ sent C K t' ∨ t' ∈ news) →
  (∀ t', t' ∈ news → ¬ sent C K t') →
  sim (t :: C) K' (deliver net (l1 ++ l2) k nd' out).
Proof.
  intros [Hlen Hnodes _ Hnd [Hcl Hcom Hcoms]] Hmsgs Hl1 Hl2 Hm Hts Hin Hgate Ho0 Hok HK HK' Hk1 Hk2
    Hout Hnews Hsent Hfresh.
  assert (sent C K t ∧ t ∉ C) as [Hst HtC] by (apply Hin; set_solver).
  assert (dest t = k) as Hdest by (destruct Hm as [Hm _]; done).
  split.
  - cbn. by rewrite length_insert.
  - intros k' nd [(-> & -> & _)|[Hne Hl]]%list_lookup_insert_Some; [eauto|].
    destruct (Hnodes k' nd Hl) as (o & Ho & Hn). exists o. split; [done|].
    revert Hn. apply node_ok_local; [|set_solver].
    intros t' Ht'. rewrite elem_of_cons. naive_solver.
  - exists ((ts1 ++ ts2) ++ news). cbn. split; [|split].
    + apply NoDup_app in Hts as (Hd1 & Hd & [Ht2 Hd2]%NoDup_cons).
      apply NoDup_app. split; [apply NoDup_app; set_solver|]. split; [|done].
      intros t' Ht' Hn. apply (Hfresh t' Hn). apply (Hin t'). set_solver.
    + apply Forall2_app; [by apply Forall2_app|done].
    + intros t'. rewrite Hsent, elem_of_app, not_elem_of_cons.
      assert (t' ∈ ts1 ++ ts2 ↔ sent C K t' ∧ t' ∉ C ∧ t' ≠ t) as ->.
      { apply NoDup_app in Hts as (Hd1 & Hd & [Ht2 Hd2]%NoDup_cons).
        split.
        - intros Ht'. assert (t' ∈ ts1 ++ t :: ts2) as []%Hin by set_solver. split; [done|].
          split; [done|]. intros ->. apply elem_of_app in Ht' as [Ht'|Ht']; [|done].
          apply (Hd _ Ht'). set_solver.
        - intros (H1 & H2 & H3). assert (t' ∈ ts1 ++ t :: ts2) by (apply Hin; done). set_solver. }
      split; [|naive_solver]. intros [H1|H1]; [naive_solver|]. split; [auto|].
      specialize (Hfresh t' H1). split; [|intros Ht'; by apply Hfresh, Hcl].
      intros ->. by apply Hfresh.
  - by constructor.
  - split.
  { intros t' [->|Ht']%elem_of_cons.
    + split; [apply (sent_mono C K); [set_solver..|done]|apply (gate_mono C); [set_solver|done]].
    + destruct (Hcl t' Ht') as [H1 H2].
      split; [apply (sent_mono C K); [set_solver..|done]|apply (gate_mono C); [set_solver|done]]. }
  { intros k' Hk'. destruct (HK' k' Hk') as [HkK| ->]; [|auto].
    destruct (Hcom k' HkK). set_solver. }
    intros k' Hkn. destruct (decide (k' = k)) as [->|Hne]; [auto|].
    intros Hs Hr. apply HK, Hcoms; [done| |].
    + apply elem_of_cons in Hs as [<-|]; [by destruct Hne|done].
    + intros j Hj Hjk. specialize (Hr j Hj Hjk). apply elem_of_cons in Hr as [<-|]; [|done].
      by destruct Hne.
Qed.
(** *** One delivery *)

(** The receiver reads the message named [t] as the specification says. *)
Definition reads (C : list Tag) (K : list nat) (k : nat) (o0 : SetupDKG) (nd : Node) (m : Msg)
    (t : Tag) : Prop :=
  gate C t ∧ ∃ out nd' K' news, receive m nd = Some (Ret out, nd') ∧
  node_ok (t :: C) K' k o0 nd' ∧ K ⊆ K' ∧ (∀ k', k' ∈ K' → k' ∈ K ∨ k' = k) ∧
  (k ∈ K' → TStart k ∈ t :: C) ∧
  (TStart k ∈ t :: C → (∀ j, (j < n)%nat → j ≠ k → TResp k j k ∈ t :: C) → k ∈ K') ∧
  Forall2 matches out news ∧ NoDup news ∧
  (∀ t', sent (t :: C) K' t' ↔ sent C K t' ∨ t' ∈ news) ∧ (∀ t', t' ∈ news → ¬ sent C K t').

Lemma incl_elsewhere (C V : list Tag) t :
  t ∉ V → (∀ x, x ∈ V → x ∈ t :: C) ↔ (∀ x, x ∈ V → x ∈ C).
Proof. intros Ht. split; intros H x Hx; [|set_solver]. specialize (H x Hx). set_solver. Qed.

Lemma reads_sim C K net l1 l2 k m nd o0 ts1 ts2 t :
  sim C K net → net_msgs net = l1 ++ (k, m) :: l2 →
  Forall2 matches l1 ts1 → Forall2 matches l2 ts2 → matches (k, m) t →
  NoDup (ts1 ++ t :: ts2) → (∀ t', t' ∈ ts1 ++ t :: ts2 ↔ sent C K t' ∧ t' ∉ C) →
  insts !! k = Some o0 → reads C K k o0 nd m t →
  ∃ out nd' K', receive m nd = Some (Ret out, nd') ∧
    sim (t :: C) K' (deliver net (l1 ++ l2) k nd' out).
Proof.
  intros Hsim Hmsgs H1 H2 Hm Hts Hin Ho0 (Hg & out & nd' & K' & news & Hr & Hok & HK & HK' & Hk1
    & Hk2 & Hout & Hnews & Hsent & Hfresh).
  exists out, nd', K'. split; [done|].
  eapply sim_deliver; eauto. intros Hk. split; [|auto].
  apply lookup_lt_Some in Ho0. unfold insts in Ho0. by rewrite length_imap in Ho0.
Qed.

Context (good : good_setup).

Lemma inst_fresh k o0 :
  insts !! k = Some o0 → ∃ rnd, (k < n)%nat ∧ o0 = NewSetupDKG r k rnd ∧
    keys !! k = Some (keypair o0).2 ∧ (keypair o0).2 ≡ point_mul None (keypair o0).1.
Proof.
  intros Ho. assert (keys !! k = Some (keypair o0).2) as Hk.
  { unfold keys. by rewrite list_lookup_fmap, Ho. }
  unfold insts in Ho. rewrite list_lookup_imap in Ho.
  destruct (rnds !! k) as [rnd|] eqn:E; [|done]. cbn in Ho. injection Ho as <-.
  exists rnd. split; [by eapply lookup_lt_Some|]. split; [done|]. split; [done|].
  pose proof (NewKeyPair_ok rnd) as H. unfold NewSetupDKG.
  by destruct (NewKeyPair rnd) as [[sec pub] rnd'].
Qed.

Lemma length_keys : length keys = n.
Proof. unfold keys, insts. by rewrite length_fmap, length_imap. Qed.

Lemma new_generator k o0 :
  insts !! k = Some o0 →
  ∃ g, (NewDistKeyGenerator (keypair o0).1 (Some <$> keys) (random o0) 2).1 = Ret g ∧
    length (poly_of k) = 2%nat ∧
    view g = {| v_publics := keys; v_me := k; v_poly := poly_of k; v_deals := ∅; v_resps := ∅;
                v_commits := ∅ |}.
Proof.
  intros Ho. destruct (inst_fresh k o0 Ho) as (rnd & _ & _ & Hk & Hp).
  destruct (NewDistKeyGenerator_ok (keypair o0).1 keys k _ (random o0) 2 (good_keys good) Hk Hp)
    as (g & f & Hg & Hl & Hv).
  { rewrite length_keys. pose proof (good_size good). lia. }
  exists g. unfold poly_of. rewrite Ho, Hg. split; [done|]. rewrite Hv. done.
Qed.

Lemma length_poly_of k : (length (poly_of k) <= 2)%nat.
Proof.
  destruct (insts !! k) as [o0|] eqn:Ho.
  - destruct (new_generator k o0 Ho) as (g & _ & -> & _). done.
  - unfold poly_of. rewrite Ho. cbn. lia.
Qed.

(** Reading [t] may be what makes [t'] sent. *)
Definition causes (t t' : Tag) : Prop :=
  match t, t' with
  | TInit k, TReply k' | TWaitS k, TWaitR k' => k = k'
  | TReply _, TStart _ | TCommit _ _, TWaitS _ => True
  | TStart i, TDeal i' _ => i = i'
  | TDeal i j, TResp i' j' _ => i = i' ∧ j = j'
  | _, _ => False
  end.

Lemma not_caused C K t t' : ¬ causes t t' → sent (t :: C) K t' → sent C K t'.
Proof.
  intros Hn Hs. destruct t'; cbn [sent] in *; try done.
  1, 3, 4, 6: rewrite elem_of_cons in Hs; destruct t; naive_solver.
  - destruct Hs as [Hk Hs]. split; [done|]. intros x Hx. specialize (Hs x Hx).
    apply elem_of_replies in Hx as (i & -> & _). apply elem_of_cons in Hs as [<-|]; [|done].
    by destruct Hn.
  - destruct Hs as (Hw & Hk & Hs). split; [done|]. split; [done|]. intros x Hx.
    specialize (Hs x Hx). apply elem_of_to_commits in Hx as (i & -> & _).
    apply elem_of_cons in Hs as [<-|]; [|done]. by destruct Hn.
Qed.

Lemma sent_news C K t (news : list Tag) :
  (∀ t', t' ∈ news → sent (t :: C) K t') →
  (∀ t', causes t t' → sent (t :: C) K t' → sent C K t' ∨ t' ∈ news) →
  ∀ t', sent (t :: C) K t' ↔ sent C K t' ∨ t' ∈ news.
Proof.
  intros Hin Hout t'. split.
  - intros Hs. assert (Decision (causes t t')) as [Hc|Hn].
    { destruct t, t'; cbn; apply _. }
    + auto.
    + left. by apply (not_caused C K t).
  - intros [Hs|Hs]; [|auto]. revert Hs. apply sent_mono; set_solver.
Qed.

(** The message starts the child. *)
Lemma read_init C K k o0 nd :
  node_ok C K k o0 nd → coherent C K → insts !! k = Some o0 →
  sent C K (TInit k) → TInit k ∉ C → reads C K k o0 nd (Init w) (TInit k).
Proof.
  intros Hok Hco Ho0 Hs HC. destruct (inst_fresh k o0 Ho0) as (rnd & Hk & _ & Hkey & _).
  cbn in Hs. pose proof Hok as [Hme ? ? ? Hkp ? ? ? ? ? ? ? ? ? ?].
  split; [done|]. eexists _, _, K, [TReply k]. split; [reflexivity|].
  assert (IsRoot (inst nd) = false) as Hroot.
  { unfold IsRoot. rewrite Hme. apply Nat.eqb_neq. lia. }
  split; [|split; [|split; [|split; [|split; [|split; [|split; [|split]]]]]]].
  - assert (TStart k ∈ TInit k :: C ↔ TStart k ∈ C) as Hst by set_solver.
    split; cbn; try done.
    + by rewrite Hst.
    + by rewrite Hst.
    + by rewrite Hst.
    + rewrite Hst. intros (g & Hg & Hkn)%n_dkg0. exists g. split; [done|].
      revert Hkn. apply knows_local; set_solver.
    + by rewrite n_pc0, expected_pc_cons.
    + lia.
    + lia.
  - done.
  - auto.
  - intros Hin. destruct (s_committed _ _ Hco k Hin). set_solver.
  - intros [|Hst]%elem_of_cons Hr; [done|]. apply (s_commits _ _ Hco); [done..|].
    intros j Hj Hjk. specialize (Hr j Hj Hjk). set_solver.
  - cbn. unfold SendToParent. cbn. unfold IsRoot in *. cbn. rewrite Hroot.
    constructor; [|constructor]. rewrite Hme, Hkp. done.
  - apply NoDup_singleton.
  - apply sent_news.
    + intros t' ->%list_elem_of_singleton. cbn. set_solver.
    + intros [] Hc _; try done. cbn in Hc. subst. right. by apply list_elem_of_singleton.
  - intros t' ->%list_elem_of_singleton. cbn. tauto.
Qed.

(** *** The root's answer to the replies *)

Lemma length_set_publics (l : list (option Point)) i x l' :
  set_index (E := error) l i x = Ret l' → length l' = length l.
Proof.
  unfold set_index. repeat case_decide || case_match; intros [= <-]; by rewrite ?length_insert.
Qed.

(** The loop of [rootStartDeal] over replies with the senders' keys. *)
Lemma root_loop (q : list (nat * Point)) o :
  roster o = r → length (publics o) = n →
  (∀ j p, (j, p) ∈ q → keys !! j = Some p) →
  ∃ ps, sforM store_reply tt q o = (Ret tt, set_publics o ps) ∧
    length ps = n ∧
    (∀ j, j ∈ q.*1 → ps !! j = Some (keys !! j)) ∧
    (∀ j, j ∉ q.*1 → ps !! j = publics o !! j).
Proof.
  revert o. induction q as [|[j p] q IH]; intros o Hr Hl Hq.
  { exists (publics o). cbn. split; [by destruct o|]. split; [done|]. set_solver. }
  assert (keys !! j = Some p) as Hj by (apply Hq; set_solver).
  assert (j < n)%nat as Hjn by (rewrite <-length_keys; by eapply lookup_lt_Some).
  destruct (lookup_in_range (Rosters.List r) j) as [si Hsi]; [by rewrite (good_roster good)|].
  destruct (IH (set_publics o (<[j := Some p]> (publics o)))) as (ps & Hps & Hlen & Hin & Hout).
  { done. } { cbn. by rewrite length_insert. } { intros j' p' H. apply Hq. set_solver. }
  exists ps. split.
  - cbn [sforM]. unfold store_reply at 1. unfold sbind, sget, slift. rewrite Hr, (index_Ret _ _ _ Hsi).
    rewrite (Rosters.Search_lookup _ _ _ (good_distinct good) Hsi).
    rewrite (proj2 (Z.ltb_ge _ _)) by lia.
    rewrite set_index_Ret, Nat2Z.id by (rewrite Hl; lia).
    exact Hps.
  - split; [done|]. cbn in Hout. split.
    + intros j' Hj'. destruct (decide (j' ∈ q.*1)) as [|Hn]; [auto|].
      rewrite Hout by done. cbn in Hj'. assert (j' = j) as -> by set_solver.
      rewrite list_lookup_insert_eq by lia. by rewrite Hj.
    + intros j' Hj'. rewrite Hout by set_solver. apply list_lookup_insert_ne. set_solver.
Qed.

Lemma rootStartDeal_ok o q :
  me o = 0%nat → roster o = r → nodes o = n → Threshold o = 2 → length (publics o) = n →
  keys !! 0%nat = Some (keypair o).2 →
  (∀ j p, (j, p) ∈ q → keys !! j = Some p) → (∀ j, (0 < j < n)%nat → j ∈ q.*1) →
  rootStartDeal q o = (Ret (Multicast (StartDeal (Some <$> keys) 2) (seq 0 n)),
                       set_publics o (Some <$> keys)).
Proof.
  intros Hme Hr Hn Ht Hl Hk Hq Hall.
  pose proof (good_size good) as H2.
  destruct (root_loop q (set_publics o (<[0%nat := Some (keypair o).2]> (publics o))))
    as (ps & Hps & Hlen & Hin & Hout); [done|cbn; by rewrite length_insert|done|].
  assert (ps = Some <$> keys) as ->.
  { apply list_eq. intros j. rewrite list_lookup_fmap.
    destruct (decide (j < n)%nat) as [Hj|Hj].
    - destruct (lookup_in_range keys j) as [p Hp]; [by rewrite length_keys|]. rewrite Hp. cbn.
      destruct (decide (j ∈ q.*1)) as [Hjq|Hjq]; [by rewrite (Hin j Hjq), Hp|].
      rewrite (Hout j Hjq). cbn. destruct (decide (j = 0%nat)) as [->|Hj0].
      + rewrite list_lookup_insert_eq by lia. by rewrite <-Hk, Hp.
      + destruct Hjq. apply Hall. lia.
    - rewrite !lookup_ge_None_2 by (rewrite ?length_keys; lia). done. }
  unfold rootStartDeal. unfold sbind at 1, sget at 1. unfold sbind at 1, slift at 1.
  rewrite set_index_Ret by (rewrite Hl; lia). unfold sbind at 1, sput at 1.
  change (Z.to_nat 0) with 0%nat. unfold sbind at 1. rewrite Hps. unfold sbind, sget, sret, fullBroadcast. cbn.
  by rewrite Hn, Ht.
Qed.

Lemma length_children o : me o = 0%nat → nodes o = n → length (children o) = (n - 1)%nat.
Proof. intros Hm Hn. unfold children, IsRoot. rewrite Hm, Hn. cbn. by rewrite length_seq. Qed.

Lemma started_replies C K : coherent C K → TStart 0 ∈ C → ∀ t, t ∈ replies → t ∈ C.
Proof. intros Hco Hs. by destruct (s_closed _ _ Hco _ Hs) as [[_ H] _]. Qed.

(** A message read before the generator is there only touches the queue and
    the keys. *)
Lemma node_ok_reply C K j o0 nd inst' q :
  node_ok C K 0 o0 nd → TStart 0 ∉ C →
  inst' = inst nd ∨ inst' = set_publics (inst nd) (Some <$> keys) →
  (remaining (TReply j :: C) replies ≠ 0%nat →
    (length q + remaining (TReply j :: C) replies = n - 1)%nat ∧
    (∀ j' p, (j', p) ∈ q → TReply j' ∈ TReply j :: C ∧ keys !! j' = Some p) ∧
    (∀ j', TReply j' ∈ TReply j :: C → j' ∈ q.*1)) →
  node_ok (TReply j :: C) K 0 o0 (set_inst (set_init_queue nd q) inst').
Proof.
  intros [Hme ? ? ? ? Hw ? ? ? ? ? Hpc ? Hwq Hd] Hs Hinst Hq.
  assert (TStart 0 ∉ TReply j :: C) as Hs' by set_solver.
  destruct Hinst as [-> | ->]; (split; try done; cbn [set_inst set_init_queue pc inst set_publics
    publics me roster Threshold nodes keypair Wait random commit DKG Done wait_queue]).
  - intros _. apply Hw. by left.
  - intros _. auto.
  - intros _. auto.
  - by rewrite Hpc, expected_pc_cons.
  - rewrite remaining_elsewhere; [done|]. by intros (? & ? & _)%elem_of_wait_replies.
  - intros _. apply Hw. by left.
  - intros _. auto.
  - intros _. by rewrite length_fmap, length_keys.
  - by rewrite Hpc, expected_pc_cons.
  - rewrite remaining_elsewhere; [done|]. by intros (? & ? & _)%elem_of_wait_replies.
Qed.

Lemma coherent_commits_cons C K t :
  coherent C K → match t with TStart _ | TResp _ _ _ => False | _ => True end →
  ∀ k, (k < n)%nat → TStart k ∈ t :: C →
       (∀ j, (j < n)%nat → j ≠ k → TResp k j k ∈ t :: C) → k ∈ K.
Proof.
  intros Hco Ht k Hk Hs Hr. apply (s_commits _ _ Hco k Hk).
  - apply elem_of_cons in Hs as [<-|]; done.
  - intros j Hj Hjk. specialize (Hr j Hj Hjk). apply elem_of_cons in Hr as [<-|]; done.
Qed.

Lemma coherent_committed_cons C K t k : coherent C K → k ∈ K → TStart k ∈ t :: C.
Proof. intros Hco Hk. destruct (s_committed _ _ Hco k Hk). set_solver. Qed.

Lemma read_reply C K o0 nd j p :
  node_ok C K 0 o0 nd → coherent C K → insts !! 0%nat = Some o0 →
  sent C K (TReply j) → TReply j ∉ C → keys !! j = Some p →
  reads C K 0 o0 nd (InitReply j p) (TReply j).
Proof.
  intros Hok Hco Ho0 [Hj Hi] HC Hp. pose proof (good_size good) as H2.
  assert (TReply j ∈ replies) as Hjr by (apply elem_of_replies; eauto).
  pose proof (remaining_here C replies _ NoDup_replies Hjr HC) as Hrem.
  pose proof Hok as [Hme Hro Hth Hno Hkp _ _ Hlen _ _ _ _ Hiq _ _].
  destruct (Hiq eq_refl ltac:(lia)) as (Hlq & Hq1 & Hq2).
  assert (TStart 0 ∉ C) as Hs0 by (intros Hs; by apply HC, (started_replies C K)).
  set (q := init_queue nd ++ [(j, p)]).
  assert (length q = Datatypes.S (length (init_queue nd))) as Hlq' by (unfold q; rewrite length_app; cbn; lia).
  assert (∀ j' p', (j', p') ∈ q → TReply j' ∈ TReply j :: C ∧ keys !! j' = Some p') as Hq1'.
  { intros j' p' [Hin|Hin]%elem_of_app; [destruct (Hq1 j' p' Hin); set_solver|].
    apply list_elem_of_singleton in Hin as [= -> ->]. set_solver. }
  assert (∀ j', TReply j' ∈ TReply j :: C → j' ∈ q.*1) as Hq2'.
  { intros j' Hin. unfold q. rewrite fmap_app, elem_of_app.
    apply elem_of_cons in Hin as [[= ->]|Hin]; [right; cbn; set_solver|left; auto]. }
  split; [done|].
  assert (receive (InitReply j p) nd =
    if decide (length q = length (children (inst nd)))
    then Some (handle (rootStartDeal q) (set_init_queue nd []))
    else Some (Ret [], set_init_queue nd q)) as Hrecv.
  { unfold receive. unfold IsRoot. rewrite Hme. cbn. destruct (pc nd); done. }
  rewrite Hrecv. clear Hrecv. rewrite length_children by done.
  destruct (inst_fresh 0 o0 Ho0) as (rnd & Hn & _ & Hk0 & _).
  assert (set_inst (set_init_queue nd q) (inst nd) = set_init_queue nd q) as Hsame by done.
  destruct (decide (length q = n - 1)%nat) as [Hl|Hl].
  - assert (∀ x, x ∈ replies → x ∈ TReply j :: C) as Hall by (apply remaining_0; lia).
    unfold handle. cbn [inst set_init_queue].
    rewrite (rootStartDeal_ok (inst nd) q); try done.
    2: { by apply Hlen. } 2: { by rewrite Hkp. } 2: { intros j' p' Hin. by apply Hq1'. }
    2: { intros j' Hj'. apply Hq2', Hall, elem_of_replies. eauto. }
    eexists _, _, K, (TStart <$> seq 0 n). split; [reflexivity|].
    split; [apply node_ok_reply; [done..|by right|lia]|].
    split; [done|]. split; [auto|]. split; [by apply coherent_committed_cons|].
    split; [apply (coherent_commits_cons C K (TReply j) Hco I); lia|]. split; [|split; [|split]].
    + unfold Multicast. apply Forall2_fmap_2, Forall_Forall2_diag, Forall_forall. done.
    + apply NoDup_fmap_2_strong; [intros ?? _ _ [= ->]; done|apply NoDup_seq].
    + apply sent_news.
      * intros t' (i & -> & Hir%elem_of_seq)%list_elem_of_fmap. split; [lia|done].
      * intros [] []. intros [Hk _]. right. apply list_elem_of_fmap_2, elem_of_seq. lia.
    + intros t' (i & -> & _)%list_elem_of_fmap [_ Hr]. by apply HC, Hr.
  - eexists _, _, K, []. split; [reflexivity|].
    split; [rewrite <-Hsame; apply node_ok_reply; [done..|by left|split; [lia|done]]|].
    split; [done|]. split; [auto|]. split; [by apply coherent_committed_cons|].
    split; [apply (coherent_commits_cons C K (TReply j) Hco I); lia|]. split; [done|]. split; [constructor|].
    split; [|set_solver]. apply sent_news; [set_solver|]. intros [] []. intros [_ Hall].
    assert (remaining (TReply j :: C) replies = 0%nat) by (by apply remaining_0). lia.
Qed.

(** *** Between the loops of [Dispatch] *)

Lemma loop_deals_ok nd :
  (2 <= length (publics (inst nd)))%nat →
  loop_deals nd = (Ret [], set_pc nd (AtDeal (length (publics (inst nd)) - 1))).
Proof.
  intros Hl. unfold loop_deals, sbind, sget, goto, sput, sret.
  destruct (publics (inst nd)) as [|p [|q ps]]; cbn in Hl; [lia..|]. done.
Qed.

Lemma loop_responses_ok nd :
  (2 <= length (publics (inst nd)))%nat →
  loop_responses nd =
    (Ret [], set_pc nd (AtResponse (length (publics (inst nd)) * (length (publics (inst nd)) - 1)))).
Proof.
  intros Hl. unfold loop_responses, sbind, sget, goto, sput, sret.
  destruct (length _ * _)%nat eqn:E; [nia|done].
Qed.

Lemma loop_commits_ok nd :
  (2 <= length (publics (inst nd)))%nat →
  loop_commits nd = (Ret [], set_pc nd (AtSecretCommit (length (publics (inst nd))))).
Proof.
  intros Hl. unfold loop_commits, sbind, sget, goto, sput, sret.
  destruct (length _) eqn:E; [lia|done].
Qed.

Lemma next_more p k after nd :
  next p (Datatypes.S (Datatypes.S k)) after nd = (Ret [], set_pc nd (p (Datatypes.S k))).
Proof. done. Qed.

Lemma finish_ok nd g :
  DKG (inst nd) = Some g → Finished g = true →
  finish nd = (Ret [], set_pc (set_inst nd (set_Done (inst nd))) Returned).
Proof.
  intros Hg Hf. unfold finish, handle, goto, sbind, sget, sput, slift, sret. cbn.
  rewrite Hg. cbn. by rewrite Hf.
Qed.

(** *** The deals *)

Lemma send_deals ds out o :
  nodes o = n → (∀ e, e ∈ ds → 0 <= e.1 < Z.of_nat n) →
  sforM send_deal out ds o = (Ret (out ++ (deal_msg <$> ds)), o).
Proof.
  intros Hn. revert out. induction ds as [|[i d] ds IH]; intros out Hds.
  { cbn. by rewrite app_nil_r. }
  cbn [sforM]. unfold send_deal at 1, sbind, sget, slift.
  destruct (Hds (i, d)) as [H1 H2]; [set_solver|]. cbn in H1, H2.
  assert (index (E := error) (seq 0 (nodes o)) i = Ret (Z.to_nat i)) as Hi.
  { rewrite <-(Z2Nat.id i) at 1 by done. apply index_Ret. rewrite Hn.
    apply lookup_seq. split; [done|lia]. }
  cbn [fst]. rewrite Hi. unfold sret. rewrite IH by (intros; apply Hds; set_solver).
  by rewrite <-app_assoc.
Qed.

Lemma knows_new C K k g :
  coherent C K → TStart k ∉ C →
  view g = {| v_publics := keys; v_me := k; v_poly := poly_of k; v_deals := ∅; v_resps := ∅;
              v_commits := ∅ |} →
  knows keys poly_of C k g.
Proof.
  intros Hco Hs Hv.
  assert (∀ i, TDeal i k ∉ C) as Hd by (intros i [_ H]%(s_closed _ _ Hco); done).
  split; rewrite ?Hv; cbn; [done..| | |].
  - intros i f. rewrite lookup_empty. naive_solver.
  - intros i j Hij. rewrite elem_of_empty.
    split; [done|intros [[_ [H _]]%(s_closed _ _ Hco)|[_ H]]]; [done|by eapply Hd].
  - intros i [_ [H _]]%(s_closed _ _ Hco). done.
Qed.

Lemma allStartDeal_ok C K k o0 o :
  coherent C K → insts !! k = Some o0 → TStart k ∉ C → keypair o = keypair o0 →
  random o = random o0 → nodes o = n →
  ∃ ds g rnd, allStartDeal (Some <$> keys) 2 o
    = (Ret (deal_msg <$> ds),
       set_DKG (set_random (set_publics (set_DKG o (Some g)) (Some <$> keys)) rnd) (Some g)) ∧
    knows keys poly_of (TStart k :: C) k g ∧ ds.*1 ≡ₚ Z.of_nat <$> others k ∧
    ∀ i d, (Z.of_nat i, d) ∈ ds → valid_deal keys k i (poly_of k) d.
Proof.
  intros Hco Ho0 Hs Hkp Hrnd Hn.
  destruct (new_generator k o0 Ho0) as (g & Hg & _ & Hv).
  pose proof (knows_new C K k g Hco Hs Hv) as Hkn.
  destruct (knows_start keys poly_of C k g Hkn Hs) as (ds & g' & Hdeals & Hkn' & Hds & Hval).
  { intros [(_ & _ & H & _) _]%(s_closed _ _ Hco). done. }
  rewrite length_keys in Hds. fold (others k) in Hds.
  unfold allStartDeal. unfold sbind at 1, sget. rewrite Hkp, Hrnd.
  destruct (NewDistKeyGenerator _ _ _ _) as [x rnd] eqn:E. cbn in Hg. subst x.
  exists ds, g', rnd. split; [|done].
  unfold sbind at 1, sput. unfold sbind at 1, slift at 1. unfold sbind at 1.
  unfold on_dkg. cbn [DKG set_DKG set_publics set_random]. rewrite Hdeals.
  rewrite (send_deals ds []); [by destruct o|done|].
  intros e Hin. assert (e.1 ∈ ds.*1) as Hi by (by apply list_elem_of_fmap_2).
  rewrite Hds in Hi. apply list_elem_of_fmap in Hi as (j & -> & [Hj _]%elem_of_others). lia.
Qed.

Lemma read_start C K k o0 nd :
  node_ok C K k o0 nd → coherent C K → insts !! k = Some o0 →
  sent C K (TStart k) → TStart k ∉ C →
  reads C K k o0 nd (StartDeal (Some <$> keys) 2) (TStart k).
Proof.
  intros Hok Hco Ho0 [Hk Hall] HC. pose proof (good_size good) as H2.
  pose proof Hok as [Hme Hro Hth Hno Hkp Hw Hr0 _ _ _ Hcm Hpc Hiq Hwq Hd].
  split; [done|].
  destruct (allStartDeal_ok C K k o0 (inst nd)) as (ds & g & rnd & Hasd & Hkn & Hds & Hval); auto.
  assert (pc nd = AtStartDeal) as Hpc0.
  { rewrite Hpc. unfold expected_pc. by rewrite decide_True. }
  assert (∀ x, x ∈ to_deals k → x ∉ TStart k :: C) as Hnone.
  { intros x (i & -> & _)%elem_of_to_deals [|Hin]%elem_of_cons; [done|].
    by destruct (s_closed _ _ Hco _ Hin). }
  assert (k = 0%nat ∨ TInit k ∈ C) as Hinit.
  { destruct (decide (k = 0%nat)) as [|Hk0]; [by left|right].
    assert (TReply k ∈ C) as [[_ Hin] _]%(s_closed _ _ Hco); [|done].
    apply Hall, elem_of_replies. exists k. split; [done|lia]. }
  unfold receive. rewrite Hpc0. unfold both, sbind, sret. unfold handle at 1. rewrite Hasd.
  rewrite loop_deals_ok by (cbn; rewrite length_fmap, length_keys; lia).
  eexists _, _, K, ((λ e, TDeal k (Z.to_nat e.1)) <$> ds). split; [reflexivity|].
  split; [|split; [done|split; [auto|split; [by left|split; [|split; [|split; [|split]]]]]]].
  - split; cbn [inst set_inst set_pc set_DKG set_publics set_random me roster Threshold nodes
      keypair publics commit Wait Done random DKG pc init_queue wait_queue]; try done.
    + intros _. auto.
    + intros []. by left.
    + intros []. by left.
    + intros _. exists g. done.
    + rewrite length_fmap, length_keys. unfold expected_pc. rewrite decide_False by set_solver.
      rewrite (remaining_all _ (to_deals k) Hnone), length_to_deals by done.
      destruct n as [|[|m]]; [lia..|]. done.
    + intros ->. rewrite remaining_elsewhere by (by intros (? & ? & _)%elem_of_replies).
      by rewrite (proj2 (remaining_0 C replies)).
    + rewrite remaining_elsewhere by (by intros (? & ? & _)%elem_of_wait_replies). done.
  - intros _ Hresp. exfalso.
    assert (∃ j, (j < n)%nat ∧ j ≠ k) as (j & Hj & Hjk).
    { destruct (decide (k = 0%nat)); [exists 1%nat|exists 0%nat]; lia. }
    specialize (Hresp j Hj Hjk). apply elem_of_cons in Hresp as [|Hin]; [done|].
    by destruct (s_closed _ _ Hco _ Hin) as [_ [Hst _]].
  - rewrite app_nil_r. apply Forall2_fmap_2, Forall_Forall2_diag, Forall_forall.
    intros [i d] Hin. assert (i ∈ ds.*1) as Hi by (apply list_elem_of_fmap; exists (i, d); done).
    rewrite Hds in Hi. apply list_elem_of_fmap in Hi as (j & -> & _).
    split; [done|]. cbn. rewrite Nat2Z.id. by apply Hval.
  - change (λ e : Z * dkg_Deal, TDeal k (Z.to_nat e.1)) with ((λ i, TDeal k (Z.to_nat i)) ∘ @fst Z dkg_Deal).
    rewrite list_fmap_compose, Hds, <-list_fmap_compose.
    apply NoDup_fmap_2_strong; [|apply NoDup_others]. cbn. intros x y _ _ [=]. lia.
  - apply sent_news.
    + intros t' ([i d] & -> & Hin)%list_elem_of_fmap.
      assert (i ∈ ds.*1) as Hi by (apply list_elem_of_fmap; exists (i, d); done).
      rewrite Hds in Hi. apply list_elem_of_fmap in Hi as (j & -> & [Hj Hjk]%elem_of_others).
      cbn. rewrite Nat2Z.id. set_solver.
    + intros [] Hc; try done. cbn in Hc. subst. intros (Hi & Hk' & Hne & _). right.
      assert (Z.of_nat k0 ∈ ds.*1) as Hin.
      { rewrite Hds. apply list_elem_of_fmap_2, elem_of_others. done. }
      apply list_elem_of_fmap in Hin as ([i d] & Hi' & Hin). cbn in Hi'. subst i.
      apply list_elem_of_fmap. exists (Z.of_nat k0, d). split; [|done]. cbn. by rewrite Nat2Z.id.
  - intros t' ([i d] & -> & Hin)%list_elem_of_fmap (_ & _ & _ & H). done.
Qed.

(** *** The receive loops *)

Lemma pc_deals C k m :
  TStart k ∈ C → remaining C (to_deals k) = Datatypes.S m → expected_pc C k = AtDeal (Datatypes.S m).
Proof. intros Hs Hm. unfold expected_pc. by rewrite decide_False, Hm by (intros H; by apply H). Qed.
Lemma pc_resps C k m :
  TStart k ∈ C → remaining C (to_deals k) = 0%nat → remaining C (to_resps k) = Datatypes.S m →
  expected_pc C k = AtResponse (Datatypes.S m).
Proof.
  intros Hs Hd Hm. unfold expected_pc. by rewrite decide_False, Hd, Hm by (intros H; by apply H).
Qed.
Lemma pc_commits C k m :
  TStart k ∈ C → remaining C (to_deals k) = 0%nat → remaining C (to_resps k) = 0%nat →
  remaining C (to_commits k) = Datatypes.S m → expected_pc C k = AtSecretCommit (Datatypes.S m).
Proof.
  intros Hs Hd Hr Hm. unfold expected_pc.
  by rewrite decide_False, Hd, Hr, Hm by (intros H; by apply H).
Qed.
Lemma pc_end C k :
  TStart k ∈ C → remaining C (to_deals k) = 0%nat → remaining C (to_resps k) = 0%nat →
  remaining C (to_commits k) = 0%nat →
  expected_pc C k =
    if negb w then Returned
    else if decide (k = 0%nat)
    then match remaining C wait_replies with O => Returned | _ => AtWaitReply end
    else if decide (TWaitS k ∈ C) then Returned else AtWaitSetup.
Proof.
  intros Hs Hd Hr Hm. unfold expected_pc.
  by rewrite decide_False, Hd, Hr, Hm by (intros H; by apply H).
Qed.

(** The fields that the rounds after the start leave alone. *)
Definition same_static (nd nd' : Node) : Prop :=
  me (inst nd') = me (inst nd) ∧ roster (inst nd') = roster (inst nd) ∧
  Threshold (inst nd') = Threshold (inst nd) ∧ nodes (inst nd') = nodes (inst nd) ∧
  keypair (inst nd') = keypair (inst nd) ∧ Wait (inst nd') = Wait (inst nd) ∧
  publics (inst nd') = publics (inst nd) ∧ init_queue nd' = init_queue nd ∧
  wait_queue nd' = wait_queue nd.

Lemma node_ok_with C K K' t k o0 nd nd' g :
  node_ok C K k o0 nd → coherent C K → TStart k ∈ C → same_static nd nd' →
  match t with TInit _ | TReply _ | TWaitR _ => False | _ => True end →
  DKG (inst nd') = Some g → knows keys poly_of (t :: C) k g →
  commit (inst nd') = bool_decide (k ∈ K') → pc nd' = expected_pc (t :: C) k →
  (pc nd' = Returned → Done (inst nd') = true) → node_ok (t :: C) K' k o0 nd'.
Proof.
  intros [Hme Hro Hth Hno Hkp Hw Hr0 Hl Hp _ _ _ Hiq Hwq _] Hco Hs
    (Eme & Ero & Eth & Eno & Ekp & Ew & Ep & Eiq & Ewq) Ht Hg Hkn Hc Hpc Hd.
  split; rewrite ?Eme, ?Ero, ?Eth, ?Eno, ?Ekp, ?Ew, ?Ep, ?Eiq, ?Ewq; try done.
  - intros [Hk|Hi]; apply Hw; [by left|right]. apply elem_of_cons in Hi as [<-|]; done.
  - intros Hn. destruct Hn. set_solver.
  - intros Hn. destruct Hn. set_solver.
  - auto.
  - eauto.
  - intros ->. pose proof (started_replies C K Hco Hs) as Hall.
    rewrite remaining_elsewhere by (intros (? & -> & _)%elem_of_replies; done).
    by rewrite (proj2 (remaining_0 C replies) Hall).
  - intros ->. rewrite remaining_elsewhere by (intros (? & -> & _)%elem_of_wait_replies; done). auto.
Qed.

Lemma other_exists k : ∃ j, (j < n)%nat ∧ j ≠ k.
Proof.
  pose proof (good_size good). destruct (decide (k = 0%nat)); [exists 1%nat|exists 0%nat]; lia.
Qed.

(** No response is read before all deals are in. *)
Lemma no_resps C K k t :
  coherent C K → t ∈ to_deals k → t ∉ C → ∀ x, x ∈ to_resps k → x ∉ C.
Proof.
  intros Hco Ht HtC x (i & j & -> & _)%elem_of_to_resps Hx.
  destruct (s_closed _ _ Hco _ Hx) as [_ [_ H]]. by apply HtC, H.
Qed.
Lemma no_commits C K k t :
  coherent C K → t ∈ to_resps k → t ∉ C → ∀ x, x ∈ to_commits k → x ∉ C.
Proof.
  intros Hco Ht HtC x (i & -> & _)%elem_of_to_commits Hx.
  destruct (s_closed _ _ Hco _ Hx) as [_ (_ & _ & H)]. by apply HtC, H.
Qed.
Lemma no_wait C K k t :
  coherent C K → t ∈ to_commits k → t ∉ C → TWaitS k ∉ C.
Proof. intros Hco Ht HtC Hx. destruct (s_closed _ _ Hco _ Hx) as [_ (_ & _ & _ & H)]. by apply HtC, H. Qed.
Lemma no_wait_replies C K t :
  coherent C K → t ∈ to_commits 0 → t ∉ C → ∀ x, x ∈ wait_replies → x ∉ C.
Proof.
  intros Hco Ht HtC x (j & -> & _)%elem_of_wait_replies [Hx _]%(s_closed _ _ Hco).
  cbn in Hx. destruct (s_closed _ _ Hco _ Hx) as [(_ & _ & H) _]. by apply HtC, H.
Qed.

(** What is sent to all nodes. *)
Lemma multicast_matches (msg : Msg) (f : nat → Tag) :
  (∀ k, matches (k, msg) (f k)) → Forall2 matches (Multicast msg (seq 0 n)) (f <$> seq 0 n).
Proof.
  intros H. unfold Multicast. apply Forall2_fmap_2, Forall_Forall2_diag, Forall_forall. auto.
Qed.
Lemma NoDup_multicast (f : nat → Tag) : (∀ i j, f i = f j → i = j) → NoDup (f <$> seq 0 n).
Proof. intros H. apply NoDup_fmap_2_strong; [auto|apply NoDup_seq]. Qed.

(** Where the receiver is after one more message of a loop. *)
Lemma after_deal C K t k :
  coherent C K → (k < n)%nat → TStart k ∈ C → t ∈ to_deals k → t ∉ C →
  expected_pc (t :: C) k =
    match remaining (t :: C) (to_deals k) with O => AtResponse (n * (n - 1)) | m => AtDeal m end.
Proof.
  intros Hco Hk Hs Hin HC. pose proof (good_size good) as H2.
  destruct (remaining (t :: C) (to_deals k)) as [|m] eqn:Em; [|apply pc_deals; [by right|done]].
  assert (remaining (t :: C) (to_resps k) = n * (n - 1))%nat as Er.
  { apply elem_of_to_deals in Hin as Hin'. destruct Hin' as (i & -> & _).
    rewrite remaining_elsewhere by (intros (? & ? & ? & _)%elem_of_to_resps; done).
    rewrite (remaining_all C _ (no_resps C K k _ Hco Hin HC)). apply length_to_resps. }
  destruct (n * (n - 1))%nat as [|m'] eqn:En; [nia|]. apply pc_resps; [by right|done..].
Qed.

Lemma after_resp C K t k :
  coherent C K → TStart k ∈ C → (∀ x, x ∈ to_deals k → x ∈ C) → t ∈ to_resps k → t ∉ C →
  expected_pc (t :: C) k =
    match remaining (t :: C) (to_resps k) with O => AtSecretCommit n | m => AtResponse m end.
Proof.
  intros Hco Hs Hd Hin HC. pose proof (good_size good) as H2.
  assert (remaining (t :: C) (to_deals k) = 0%nat) as Ed by (apply remaining_0; intros; right; auto).
  destruct (remaining (t :: C) (to_resps k)) as [|m] eqn:Em; [|apply pc_resps; [by right|done..]].
  assert (remaining (t :: C) (to_commits k) = n) as Er.
  { apply elem_of_to_resps in Hin as Hin'. destruct Hin' as (i & j & -> & _).
    rewrite remaining_elsewhere by (intros (? & ? & _)%elem_of_to_commits; done).
    rewrite (remaining_all C _ (no_commits C K k _ Hco Hin HC)). apply length_to_commits. }
  destruct n as [|m'] eqn:En; [lia|]. apply pc_commits; [by right|done..].
Qed.

Lemma read_deal C K i k o0 nd d :
  node_ok C K k o0 nd → coherent C K → insts !! k = Some o0 →
  sent C K (TDeal i k) → gate C (TDeal i k) → TDeal i k ∉ C →
  valid_deal keys i k (poly_of i) d → reads C K k o0 nd (Deal d) (TDeal i k).
Proof.
  intros Hok Hco Ho0 (Hi & Hk & Hik & Hsi) Hs HC Hval. pose proof (good_size good) as H2.
  split; [done|]. cbn in Hs.
  assert (TDeal i k ∈ to_deals k) as Hin by (apply elem_of_to_deals; eauto).
  pose proof (remaining_here C _ _ (NoDup_to_deals k) Hin HC) as Hrem.
  destruct (n_dkg _ _ _ _ _ Hok Hs) as (g & Hg & Hkn).
  destruct (knows_deal keys poly_of C k g i d Hkn Hik HC Hval) as (x & g' & Hpd & Hkn' & Hx).
  pose proof (n_publics _ _ _ _ _ Hok Hs) as Hpub.
  assert (length (publics (inst nd)) = n) as Hlen by (by rewrite Hpub, length_fmap, length_keys).
  set (nd1 := set_inst nd (set_DKG (inst nd) (Some g'))).
  assert (handle (allDeal d) nd = (Ret (Multicast (Response x) (seq 0 n)), nd1)) as Hh.
  { unfold handle, allDeal, on_dkg, sbind, sget, sret, fullBroadcast. rewrite Hg, Hpd. cbn.
    by rewrite (n_nodes _ _ _ _ _ Hok). }
  pose proof (after_deal C K _ k Hco Hk Hs Hin HC) as Hafter.
  assert (next AtDeal (remaining C (to_deals k)) loop_responses nd1
          = (Ret [], set_pc nd1 (expected_pc (TDeal i k :: C) k))) as Hnext.
  { rewrite Hafter, Hrem. destruct (remaining (TDeal i k :: C) (to_deals k)) as [|m].
    - cbn [next]. rewrite loop_responses_ok by (cbn; lia). cbn [nd1 set_inst inst publics set_DKG].
      by rewrite Hlen.
    - by rewrite next_more. }
  unfold receive. rewrite (n_pc _ _ _ _ _ Hok), (pc_deals C k _ Hs Hrem), <-Hrem.
  unfold both, sbind, sret. rewrite Hh, Hnext, app_nil_r.
  eexists _, _, K, ((λ k', TResp i k k') <$> seq 0 n). split; [reflexivity|].
  split; [|split; [done|split; [auto|split; [by right|split; [|split; [|split; [|split]]]]]]].
  - apply (node_ok_with C K _ _ _ _ nd _ g'); try done.
    + exact (n_commit _ _ _ _ _ Hok).
    + cbn. rewrite Hafter. by case_match.
  - intros Hst Hr. by apply (coherent_commits_cons C K (TDeal i k) Hco I).
  - by apply multicast_matches.
  - by apply NoDup_multicast; intros ?? [=].
  - apply sent_news.
    + intros t' (k' & -> & Hk'%elem_of_seq)%list_elem_of_fmap. cbn. split; [lia|by left].
    + intros [] Hc; try done. destruct Hc as [<- <-]. intros [Hk' _]. right.
      apply list_elem_of_fmap. exists k0. split; [done|]. apply elem_of_seq. lia.
  - intros t' (k' & -> & _)%list_elem_of_fmap [_ H]. done.
Qed.

(** What a node does with a response: it may send its commits, once, and does
    when the response is the last one to its own deal. *)
Lemma allResponse_ok C K i j k o0 nd x :
  node_ok C K k o0 nd → coherent C K → (k < n)%nat → TStart k ∈ C →
  (∀ t, t ∈ to_deals k → t ∈ C) → TDeal i j ∈ C → TResp i j k ∉ C → valid_resp keys i j x →
  ∃ g, knows keys poly_of (TResp i j k :: C) k g ∧
   (handle (allResponse x) nd = (Ret [], set_inst nd (set_DKG (inst nd) (Some g))) ∧
     ((∀ j', (j' < n)%nat → j' ≠ k → TResp k j' k ∈ TResp i j k :: C) → k ∈ K) ∨
    k ∉ K ∧ ∃ c, valid_commit keys k (poly_of k) c ∧
     handle (allResponse x) nd = (Ret (Multicast (SecretCommit c) (seq 0 n)),
                                  set_inst nd (set_commit (set_DKG (inst nd) (Some g))))).
Proof.
  intros Hok Hco Hk Hs Hd Hij HC Hval.
  destruct (s_closed _ _ Hco _ Hij) as [(Hi & Hj & Hne & _) _].
  destruct (n_dkg _ _ _ _ _ Hok Hs) as (g & Hg & Hkn).
  assert (i = k ∧ TStart k ∈ C ∨ TDeal i k ∈ C) as Hik.
  { destruct (decide (i = k)); [by left|right]. apply Hd, elem_of_to_deals. eauto. }
  destruct (knows_resp keys poly_of C k g i j x Hkn Hne HC Hik) as (o & g1 & Hpr & Hkn1 & Ho);
    [by intros ->|done|].
  assert (commit (inst nd) = bool_decide (k ∈ K)) as Hc by exact (n_commit _ _ _ _ _ Hok).
  unfold handle, allResponse, on_dkg, sbind, sget, sput, sret, slift, sthrow, fullBroadcast.
  rewrite Hg, Hpr. destruct Ho as [->|(-> & e & ->)].
  2: { exists g1. split; [done|]. left. split; [done|]. intros Hall.
       apply (s_commits _ _ Hco k Hk Hs). intros j' Hj' Hjk. specialize (Hall j' Hj' Hjk).
       apply elem_of_cons in Hall as [[= _ ->]|]; done. }
  destruct (SecretCommits_ok g1) as (o & g2 & Hsc & Hv2 & Ho).
  pose proof (knows_view _ _ _ k g1 g2 Hv2 Hkn1) as Hkn2. exists g2. split; [done|].
  cbn [DKG set_DKG]. rewrite Hsc. cbn [commit set_DKG]. rewrite Hc.
  rewrite (k_publics _ _ _ _ _ Hkn1), (k_me _ _ _ _ _ Hkn1), (k_poly _ _ _ _ _ Hkn1), length_keys in Ho.
  destruct (bool_decide (k ∈ K)) eqn:EK.
  - apply bool_decide_eq_true in EK. left. split; [|auto]. by destruct o.
  - apply bool_decide_eq_false in EK. destruct o as [c|e| |]; [|left|done..].
    + right. split; [done|]. exists c. split; [done|]. cbn. by rewrite (n_nodes _ _ _ _ _ Hok).
    + split; [done|]. intros Hall. exfalso. apply Ho. intros j' Hj' Hjk.
      apply (k_resps _ _ _ _ _ Hkn1); [done|]. left. auto.
Qed.

Lemma read_resp C K i j k o0 nd x :
  node_ok C K k o0 nd → coherent C K → insts !! k = Some o0 →
  sent C K (TResp i j k) → gate C (TResp i j k) → TResp i j k ∉ C →
  valid_resp keys i j x → reads C K k o0 nd (Response x) (TResp i j k).
Proof.
  intros Hok Hco Ho0 [Hk Hij] [Hs Hd] HC Hval. pose proof (good_size good) as H2.
  split; [done|]. destruct (s_closed _ _ Hco _ Hij) as [(Hi & Hj & Hne & _) _].
  assert (TResp i j k ∈ to_resps k) as Hin by (apply elem_of_to_resps; naive_solver).
  pose proof (remaining_here C _ _ (NoDup_to_resps k) Hin HC) as Hrem.
  pose proof (n_publics _ _ _ _ _ Hok Hs) as Hpub.
  pose proof (after_resp C K _ k Hco Hs Hd Hin HC) as Hafter.
  assert (∀ inst', publics inst' = publics (inst nd) →
    next AtResponse (remaining C (to_resps k)) loop_commits (set_inst nd inst')
    = (Ret [], set_pc (set_inst nd inst') (expected_pc (TResp i j k :: C) k))) as Hnext.
  { intros inst' Hp. rewrite Hafter, Hrem. destruct (remaining (TResp i j k :: C) (to_resps k)) as [|m].
    - assert (length (publics inst') = n) as Hl by (by rewrite Hp, Hpub, length_fmap, length_keys).
      cbn [next]. rewrite loop_commits_ok by (cbn; lia). cbn [set_inst inst]. by rewrite Hl.
    - by rewrite next_more. }
  assert (∀ inst', pc (set_pc (set_inst nd inst') (expected_pc (TResp i j k :: C) k)) = Returned →
    Done inst' = true) as Hdone by (intros inst'; cbn; rewrite Hafter; by case_match).
  assert (remaining C (to_deals k) = 0%nat) as Ed by (apply remaining_0; auto).
  unfold receive. rewrite (n_pc _ _ _ _ _ Hok), (pc_resps C k _ Hs Ed Hrem), <-Hrem.
  unfold both, sbind, sret.
  destruct (allResponse_ok C K i j k o0 nd x) as (g & Hkn & [[Hh Hown]|(HK & c & Hval' & Hh)]); try done;
    rewrite Hh, Hnext, app_nil_r by done.
  - eexists _, _, K, []. split; [reflexivity|].
    split; [|split; [done|split; [auto|split; [by right|split; [|split; [|split; [|split]]]]]]].
    + apply (node_ok_with C K _ _ _ _ nd _ g); try done; [exact (n_commit _ _ _ _ _ Hok)|apply Hdone].
    + auto.
    + done.
    + constructor.
    + apply sent_news; [set_solver|]. by intros [].
    + set_solver.
  - eexists _, _, (k :: K), ((λ k', TCommit k k') <$> seq 0 n). split; [reflexivity|].
    split; [|split; [set_solver|split; [|split; [by right|split; [|split; [|split; [|split]]]]]]].
    + apply (node_ok_with C K _ _ _ _ nd _ g); try done; [|apply Hdone].
      cbn. symmetry. apply bool_decide_eq_true. by left.
    + intros k' [->|]%elem_of_cons; auto.
    + intros _ _. by left.
    + by apply multicast_matches.
    + by apply NoDup_multicast; intros ?? [=].
    + intros t'. split.
      * destruct t' as [| | | | |k1 k2| |];
          try (intros Hst; left; apply (not_caused C K (TResp i j k)); [intros []|exact Hst]).
        intros [Hk2 [->|HkK]%elem_of_cons]; [|by left]. right.
        apply list_elem_of_fmap. exists k2. split; [done|]. apply elem_of_seq. lia.
      * intros [Hst|(k' & -> & Hk'%elem_of_seq)%list_elem_of_fmap].
        -- revert Hst. apply sent_mono; set_solver.
        -- cbn. split; [lia|by left].
    + intros t' (k' & -> & _)%list_elem_of_fmap [_ H]. done.
Qed.

Lemma started_init C K k : coherent C K → (k < n)%nat → TStart k ∈ C → k = 0%nat ∨ TInit k ∈ C.
Proof.
  intros Hco Hk Hs. destruct (decide (k = 0%nat)) as [|Hk0]; [by left|right].
  destruct (s_closed _ _ Hco _ Hs) as [[_ Hall] _].
  assert (TReply k ∈ C) as [[_ Hin] _]%(s_closed _ _ Hco); [|done].
  apply Hall, elem_of_replies. exists k. split; [done|lia].
Qed.

Lemma all_certified C k g :
  knows keys poly_of C k g → (k < n)%nat → TStart k ∈ C → (∀ t, t ∈ to_deals k → t ∈ C) →
  (∀ t, t ∈ to_resps k → t ∈ C) →
  certified (view g) ∧ ∀ i, (i < length keys)%nat → v_deals (view g) !! i = Some (poly_of i).
Proof.
  intros Hkn Hk Hs Hd Hr. apply (knows_certified keys poly_of C k); rewrite ?length_keys; try done.
  - intros i Hi Hik. apply Hd, elem_of_to_deals. eauto.
  - intros i j Hi Hj Hij. apply Hr, elem_of_to_resps. naive_solver.
Qed.

Lemma all_finished C k g :
  knows keys poly_of C k g → (k < n)%nat → TStart k ∈ C → (∀ t, t ∈ to_deals k → t ∈ C) →
  (∀ t, t ∈ to_resps k → t ∈ C) → (∀ t, t ∈ to_commits k → t ∈ C) →
  Finished g = true ∧
  ∃ X, NewSharedSecret (Some g) =
       Ret {| ss_Index := Z.of_nat k; ss_V := share_at (poly_total n poly_of) (Z.of_nat k);
              ss_X := X |} ∧
    X ≡ point_mul None (share_secret (poly_total n poly_of)).
Proof.
  intros Hkn Hk Hs Hd Hr Hc. destruct (all_certified C k g) as [Hcert Hdeals]; try done.
  rewrite <-length_keys. apply (knows_finished keys poly_of C k); try done.
  intros i Hi. apply Hc, elem_of_to_commits. rewrite length_keys in Hi. eauto.
Qed.

(** After the last commit. *)
Lemma wait_ok C K t k o0 nd nd1 g :
  node_ok C K k o0 nd → coherent C K → (k < n)%nat → TStart k ∈ C →
  same_static nd nd1 → DKG (inst nd1) = Some g → knows keys poly_of (t :: C) k g →
  (∀ x, x ∈ to_deals k → x ∈ C) → (∀ x, x ∈ to_resps k → x ∈ C) →
  t ∈ to_commits k → t ∉ C → remaining (t :: C) (to_commits k) = 0%nat →
  ∃ nd2, wait nd1 = (Ret (if w && (k =? 0)%nat then Multicast WaitSetup (seq 1 (n - 1)) else []), nd2) ∧
    same_static nd nd2 ∧ DKG (inst nd2) = Some g ∧ commit (inst nd2) = commit (inst nd1) ∧
    pc nd2 = expected_pc (t :: C) k ∧ (pc nd2 = Returned → Done (inst nd2) = true).
Proof.
  intros Hok Hco Hk Hs Hss Hg Hkn Hd Hr Ht HC H0. pose proof (good_size good) as H2.
  assert (Wait (inst nd1) = w) as Hw.
  { destruct Hss as (_ & _ & _ & _ & _ & -> & _). apply (n_wait _ _ _ _ _ Hok).
    by apply (started_init C K). }
  assert (me (inst nd1) = k ∧ nodes (inst nd1) = n) as [Hme Hno].
  { destruct Hss as (-> & _ & _ & -> & _). by destruct Hok. }
  assert (∀ V, (∀ x, x ∈ V → x ∈ C) → remaining (t :: C) V = 0%nat) as Hrem.
  { intros V HV. apply remaining_0. intros x Hx. right. auto. }
  assert (expected_pc (t :: C) k =
    if negb w then Returned else if decide (k = 0%nat) then AtWaitReply else AtWaitSetup) as Hpc.
  { rewrite pc_end; [|by right|by auto..]. destruct w; [|done]. cbn.
    apply elem_of_to_commits in Ht as Ht'. destruct Ht' as (i & -> & _).
    destruct (decide (k = 0%nat)) as [->|].
    - rewrite remaining_elsewhere by (intros (? & ? & _)%elem_of_wait_replies; done).
      rewrite (remaining_all C _ (no_wait_replies C K _ Hco Ht HC)).
      unfold wait_replies. rewrite length_fmap, length_seq. destruct (n - 1)%nat eqn:E; [lia|done].
    - rewrite decide_False; [done|]. intros [|Hx]%elem_of_cons; [done|].
      by apply (no_wait C K k _ Hco Ht HC). }
  unfold wait, sbind, sget. rewrite Hw, Hpc. destruct w; cbn [negb].
  - unfold IsRoot. rewrite Hme. cbn [andb]. destruct (decide (k = 0%nat)) as [->|Hk0].
    + cbn [Nat.eqb]. unfold goto, sbind, sget, sput, sret, SendToChildren, children, IsRoot.
      rewrite Hme, Hno. cbn [Nat.eqb]. eexists. split; [reflexivity|]. done.
    + rewrite (proj2 (Nat.eqb_neq k 0)) by done. unfold goto, sbind, sget, sput, sret.
      eexists. split; [reflexivity|]. done.
  - destruct (all_finished (t :: C) k g) as [Hf _]; try done; try by right.
    { intros x Hx. right. auto. } { intros x Hx. right. auto. } { by apply remaining_0. }
    rewrite (finish_ok nd1 g Hg Hf). eexists. split; [reflexivity|]. done.
Qed.

Lemma after_commit C t k m :
  TStart k ∈ C → (∀ x, x ∈ to_deals k → x ∈ C) → (∀ x, x ∈ to_resps k → x ∈ C) →
  remaining (t :: C) (to_commits k) = Datatypes.S m →
  expected_pc (t :: C) k = AtSecretCommit (Datatypes.S m).
Proof.
  intros Hs Hd Hr Hm. apply pc_commits; [by right| | |done];
    apply remaining_0; intros; right; auto.
Qed.

Lemma read_commit C K i k o0 nd c :
  node_ok C K k o0 nd → coherent C K → insts !! k = Some o0 →
  sent C K (TCommit i k) → gate C (TCommit i k) → TCommit i k ∉ C →
  valid_commit keys i (poly_of i) c → reads C K k o0 nd (SecretCommit c) (TCommit i k).
Proof.
  intros Hok Hco Ho0 [Hk HiK] (Hs & Hd & Hr) HC Hval. pose proof (good_size good) as H2.
  split; [done|]. destruct (s_committed _ _ Hco i HiK) as [Hi _].
  assert (TCommit i k ∈ to_commits k) as Hin by (apply elem_of_to_commits; eauto).
  pose proof (remaining_here C _ _ (NoDup_to_commits k) Hin HC) as Hrem.
  destruct (n_dkg _ _ _ _ _ Hok Hs) as (g & Hg & Hkn).
  destruct (all_certified C k g Hkn Hk Hs Hd Hr) as [Hcert Hdeals].
  destruct (knows_commit keys poly_of C k g i c Hkn Hcert) as (g' & Hpc & Hkn').
  { apply Hdeals. by rewrite length_keys. } { done. }
  set (nd1 := set_inst nd (set_DKG (inst nd) (Some g'))).
  assert (handle (allSecretCommit c) nd = (Ret [], nd1)) as Hh.
  { unfold handle, allSecretCommit, on_dkg, sbind, sret. by rewrite Hg, Hpc. }
  assert (same_static nd nd1) as Hss by done.
  assert (remaining C (to_deals k) = 0%nat) as Ed by (apply remaining_0; auto).
  assert (remaining C (to_resps k) = 0%nat) as Er by (apply remaining_0; auto).
  unfold receive. rewrite (n_pc _ _ _ _ _ Hok), (pc_commits C k _ Hs Ed Er Hrem), <-Hrem.
  unfold both, sbind, sret. rewrite Hh, Hrem.
  destruct (remaining (TCommit i k :: C) (to_commits k)) as [|m] eqn:Em.
  - cbn [next].
    destruct (wait_ok C K (TCommit i k) k o0 nd nd1 g') as (nd2 & -> & Hss2 & Hg2 & Hc2 & Hpc2 & Hdone);
      try done.
    eexists _, _, K, (if w && (k =? 0)%nat then TWaitS <$> seq 1 (n - 1) else []).
    split; [reflexivity|].
    split; [|split; [done|split; [auto|split; [by right|split; [|split; [|split; [|split]]]]]]].
    + apply (node_ok_with C K _ _ _ _ nd _ g'); try done.
      rewrite Hc2. exact (n_commit _ _ _ _ _ Hok).
    + intros Hst Hr'. by apply (coherent_commits_cons C K (TCommit i k) Hco I).
    + rewrite app_nil_l. destruct (w && _); [|done].
      unfold Multicast. apply Forall2_fmap_2, Forall_Forall2_diag, Forall_forall. done.
    + destruct (w && _); [|constructor].
      apply NoDup_fmap_2_strong; [intros ?? _ _ [= ->]; done|apply NoDup_seq].
    + assert (∀ x, x ∈ to_commits k → x ∈ TCommit i k :: C) as Hall by (by apply remaining_0).
      apply sent_news.
      * intros t'. destruct w eqn:Ew; [|set_solver]. destruct (Nat.eqb_spec k 0) as [->|]; [|set_solver].
        intros (k' & -> & Hk'%elem_of_seq)%list_elem_of_fmap. cbn. split; [done|]. split; [lia|done].
      * intros [] Hc; try done. intros (Hw & Hk' & Hall'). destruct (Nat.eqb_spec k 0) as [->|Hk0].
        -- right. rewrite Hw. cbn. apply list_elem_of_fmap. exists k0. split; [done|].
           apply elem_of_seq. lia.
        -- left. split; [done|]. split; [done|]. intros x Hx.
           specialize (Hall' x Hx). apply elem_of_cons in Hall' as [->|]; [|done].
           apply elem_of_to_commits in Hx as (i' & [= _ Hx] & _). by destruct Hk0.
    + intros t'. destruct w; [|set_solver]. destruct (Nat.eqb_spec k 0) as [->|]; [|set_solver].
      intros (k' & -> & _)%list_elem_of_fmap (_ & _ & Hall). by apply HC, Hall.
  - rewrite next_more. eexists _, _, K, []. split; [reflexivity|].
    split; [|split; [done|split; [auto|split; [by right|split; [|split; [|split; [|split]]]]]]].
    + apply (node_ok_with C K _ _ _ _ nd _ g'); try done; [exact (n_commit _ _ _ _ _ Hok)|].
      by rewrite (after_commit C _ k m).
    + intros Hst Hr'. by apply (coherent_commits_cons C K (TCommit i k) Hco I).
    + done.
    + constructor.
    + apply sent_news; [set_solver|]. intros [] Hc; try done. intros (Hw & Hk' & Hall').
      left. split; [done|]. split; [done|]. destruct (decide (k = 0%nat)) as [->|Hk0].
      * apply remaining_0 in Hall'. rewrite Hall' in Em. done.
      * intros x Hx. specialize (Hall' x Hx). apply elem_of_cons in Hall' as [->|]; [|done].
        apply elem_of_to_commits in Hx as (i' & [= _ Hx] & _). by destruct Hk0.
    + set_solver.
Qed.

Lemma read_wait_setup C K k o0 nd :
  node_ok C K k o0 nd → coherent C K → insts !! k = Some o0 →
  sent C K (TWaitS k) → gate C (TWaitS k) → TWaitS k ∉ C →
  reads C K k o0 nd WaitSetup (TWaitS k).
Proof.
  intros Hok Hco Ho0 (Hw & Hk & Hall) (Hs & Hd & Hr & Hc) HC. split; [done|].
  destruct (n_dkg _ _ _ _ _ Hok Hs) as (g & Hg & Hkn).
  destruct (all_finished C k g) as [Hf _]; try done; [lia|].
  assert (knows keys poly_of (TWaitS k :: C) k g) as Hkn'.
  { by apply knows_cons. }
  assert (expected_pc C k = AtWaitSetup) as Hpc.
  { rewrite pc_end by (done || by apply remaining_0). rewrite Hw. cbn.
    by rewrite !decide_False by (done || lia). }
  unfold receive. rewrite (n_pc _ _ _ _ _ Hok), Hpc. unfold both, sbind at 1, sret at 1.
  unfold sbind. rewrite (finish_ok nd g Hg Hf).
  eexists _, _, K, [TWaitR k]. split; [reflexivity|].
  split; [|split; [done|split; [auto|split; [by right|split; [|split; [|split; [|split]]]]]]].
  - apply (node_ok_with C K _ _ _ _ nd _ g); try done; [exact (n_commit _ _ _ _ _ Hok)|].
    cbn. assert (∀ V, (∀ x, x ∈ V → x ∈ C) → remaining (TWaitS k :: C) V = 0%nat) as Hrem.
    { intros V HV. apply remaining_0. intros x Hx. right. auto. }
    rewrite pc_end by (by auto || by right). rewrite Hw. cbn.
    rewrite decide_False by lia. by rewrite decide_True by (by left).
  - intros Hst Hr'. apply (coherent_commits_cons C K (TWaitS k) Hco I); [lia|done..].
  - unfold SendToParent, IsRoot. rewrite (n_me _ _ _ _ _ Hok).
    rewrite (proj2 (Nat.eqb_neq k 0)) by lia. cbn. constructor; [done|constructor].
  - apply NoDup_singleton.
  - apply sent_news.
    + intros t' ->%list_elem_of_singleton. by left.
    + intros [] Hc'; try done. cbn in Hc'. subst. right. by apply list_elem_of_singleton.
  - intros t' ->%list_elem_of_singleton. done.
Qed.

Lemma node_ok_wait_reply C K j o0 nd inst' pc' q :
  node_ok C K 0 o0 nd → TStart 0 ∈ C →
  inst' = inst nd ∨ inst' = set_Done (inst nd) →
  pc' = expected_pc (TWaitR j :: C) 0 → (pc' = Returned → Done inst' = true) →
  (remaining (TWaitR j :: C) wait_replies ≠ 0%nat →
    (length q + remaining (TWaitR j :: C) wait_replies = n - 1)%nat) →
  node_ok (TWaitR j :: C) K 0 o0 (set_pc (set_inst (set_wait_queue nd q) inst') pc').
Proof.
  intros [Hme ? ? ? ? Hw ? ? ? Hg ? Hpc Hiq Hwq Hd] Hs Hinst Hpc' Hdone Hq.
  assert (∃ g, DKG (inst nd) = Some g ∧ knows keys poly_of (TWaitR j :: C) 0 g) as Hg'.
  { destruct (Hg Hs) as (g & Hg1 & Hkn). exists g. split; [done|]. by apply knows_cons. }
  assert (TStart 0 ∈ TWaitR j :: C) as Hs' by (by right).
  destruct Hinst as [-> | ->]; (split; try done; cbn [set_inst set_wait_queue set_pc pc inst set_Done
    publics me roster Threshold nodes keypair Wait random commit DKG Done wait_queue init_queue]).
  all: try (intros _; apply Hw; by left); try (intros Hn; by destruct Hn); try by auto.
  all: intros _; rewrite remaining_elsewhere by (by intros (? & ? & _)%elem_of_replies).
  all: intros Hn; destruct (Hiq eq_refl Hn) as (H1 & H2 & H3); split; [done|split].
  all: intros j'.
  1, 3: intros p Hj'; destruct (H2 j' p Hj'); split; [by right|done].
  all: intros Hj'; apply H3; by apply elem_of_cons in Hj' as [|].
Qed.

Lemma read_wait_reply C K o0 nd j :
  node_ok C K 0 o0 nd → coherent C K → insts !! 0%nat = Some o0 →
  sent C K (TWaitR j) → TWaitR j ∉ C → reads C K 0 o0 nd (WaitReply j) (TWaitR j).
Proof.
  intros Hok Hco Ho0 Hsent HC. pose proof (good_size good) as H2. cbn in Hsent.
  destruct (s_closed _ _ Hco _ Hsent) as [(Hw & Hj & Hc) _].
  assert (TCommit 0 0 ∈ C) as [_ (Hs & Hd & Hr)]%(s_closed _ _ Hco).
  { apply Hc, elem_of_to_commits. exists 0%nat. split; [done|lia]. }
  split; [done|].
  assert (TWaitR j ∈ wait_replies) as Hin by (apply elem_of_wait_replies; eauto).
  pose proof (remaining_here C _ _ NoDup_wait_replies Hin HC) as Hrem.
  pose proof (n_wait_queue _ _ _ _ _ Hok eq_refl ltac:(lia)) as Hlq.
  destruct (n_dkg _ _ _ _ _ Hok Hs) as (g & Hg & Hkn).
  destruct (all_finished C 0 g) as [Hf _]; try done; [lia|].
  assert (∀ V, (∀ x, x ∈ V → x ∈ C) → remaining (TWaitR j :: C) V = 0%nat) as Hrem0.
  { intros V HV. apply remaining_0. intros x Hx. right. auto. }
  assert (expected_pc C 0 = AtWaitReply) as Hpc.
  { rewrite pc_end by (done || by apply remaining_0). rewrite Hw, Hrem. done. }
  assert (expected_pc (TWaitR j :: C) 0 =
    match remaining (TWaitR j :: C) wait_replies with O => Returned | _ => AtWaitReply end) as Hpc'.
  { rewrite pc_end by (by auto || by right). by rewrite Hw. }
  set (q := wait_queue nd ++ [j]).
  assert (length q = Datatypes.S (length (wait_queue nd))) as Hlq' by (unfold q; rewrite length_app; cbn; lia).
  unfold receive. rewrite (n_pc _ _ _ _ _ Hok), Hpc. unfold IsRoot. rewrite (n_me _ _ _ _ _ Hok).
  cbn [Nat.eqb negb andb orb]. fold q.
  rewrite length_children by (by destruct Hok).
  assert (∃ nd' inst' q' pc', (if bool_decide (length q = (n - 1)%nat)
      then Some (finish (set_wait_queue nd [])) else Some (Ret [], set_wait_queue nd q))
      = Some (Ret [], nd') ∧ nd' = set_pc (set_inst (set_wait_queue nd q') inst') pc' ∧
      (inst' = inst nd ∨ inst' = set_Done (inst nd)) ∧
      pc' = expected_pc (TWaitR j :: C) 0 ∧ (pc' = Returned → Done inst' = true) ∧
      (remaining (TWaitR j :: C) wait_replies ≠ 0%nat →
        (length q' + remaining (TWaitR j :: C) wait_replies = n - 1)%nat))
    as (nd' & inst' & q' & pc' & Hrecv & -> & Hinst & Hpc1 & Hdone & Hq).
  { rewrite Hpc'. case_bool_decide as Hl.
    - rewrite (finish_ok (set_wait_queue nd []) g Hg Hf).
      eexists _, (set_Done (inst nd)), [], Returned. split; [reflexivity|]. split; [done|].
      split; [by right|]. replace (remaining (TWaitR j :: C) wait_replies) with 0%nat by lia. done.
    - eexists _, (inst nd), q, AtWaitReply. split; [reflexivity|]. split.
      { unfold set_pc, set_inst, set_wait_queue. cbn. by rewrite <-Hpc, <-(n_pc _ _ _ _ _ Hok). }
      split; [by left|]. destruct (remaining (TWaitR j :: C) wait_replies) eqn:Em; [lia|].
      split; [done|]. split; [done|]. lia. }
  rewrite Hrecv. eexists _, _, K, []. split; [reflexivity|].
  split; [|split; [done|split; [auto|split; [by right|split; [|split; [|split; [|split]]]]]]].
  - by apply node_ok_wait_reply.
  - intros Hst Hr'. apply (coherent_commits_cons C K (TWaitR j) Hco I); [lia|done..].
  - done.
  - constructor.
  - apply sent_news; [set_solver|]. by intros [].
  - set_solver.
Qed.

(** *** Every delivery *)

Lemma pc_inv C k :
  match expected_pc C k with
  | AtStartDeal => TStart k ∉ C
  | AtDeal _ => gate C (TDeal 0 k)
  | AtResponse _ => gate C (TResp 0 0 k)
  | AtSecretCommit _ => gate C (TCommit 0 k)
  | _ => gate C (TWaitS k)
  end.
Proof.
  unfold expected_pc. case_decide as Hs; [done|].
  assert (TStart k ∈ C) as Hs' by (destruct (decide (TStart k ∈ C)); tauto).
  pose proof (remaining_0 C (to_deals k)) as [Hd _].
  pose proof (remaining_0 C (to_resps k)) as [Hr _].
  pose proof (remaining_0 C (to_commits k)) as [Hc _].
  destruct (remaining C (to_deals k)); [|done]. specialize (Hd eq_refl).
  destruct (remaining C (to_resps k)); [|done]. specialize (Hr eq_refl).
  destruct (remaining C (to_commits k)); [|done]. specialize (Hc eq_refl).
  destruct w; cbn; [|done]. repeat case_decide || case_match; done.
Qed.

(** A message is only read when the specification allows it. *)
Lemma ready C K k o0 nd m t x :
  node_ok C K k o0 nd → matches (k, m) t → receive m nd = Some x → gate C t.
Proof.
  intros Hok [Hk Hm] Hr. cbn in Hk. unfold receive in Hr. rewrite (n_pc _ _ _ _ _ Hok) in Hr.
  pose proof (pc_inv C (dest t)) as Hpc. rewrite <-Hk in Hpc.
  destruct t, m; try done; cbn [dest] in *; subst; by destruct (expected_pc C _).
Qed.

Lemma read_any C K k o0 nd m t :
  node_ok C K k o0 nd → coherent C K → insts !! k = Some o0 → matches (k, m) t →
  sent C K t → gate C t → t ∉ C → reads C K k o0 nd m t.
Proof.
  intros Hok Hco Ho0 [Hk Hm] Hs Hg HC. cbn in Hk. subst k. destruct t, m; try done; cbn in Hm.
  - subst. by apply read_init.
  - destruct Hm as [-> Hm]. by apply read_reply.
  - destruct Hm as [-> ->]. by apply read_start.
  - by apply read_deal.
  - by apply read_resp.
  - by apply read_commit.
  - by apply read_wait_setup.
  - subst. by apply read_wait_reply.
Qed.

(** A message in flight, its name and its receiver. *)
Lemma in_flight C K net l1 l2 k m nd :
  sim C K net → net_msgs net = l1 ++ (k, m) :: l2 → net_nodes net !! k = Some nd →
  ∃ t ts1 ts2 o0, insts !! k = Some o0 ∧ node_ok C K k o0 nd ∧
    Forall2 matches l1 ts1 ∧ Forall2 matches l2 ts2 ∧ matches (k, m) t ∧
    NoDup (ts1 ++ t :: ts2) ∧ (∀ t', t' ∈ ts1 ++ t :: ts2 ↔ sent C K t' ∧ t' ∉ C) ∧
    sent C K t ∧ t ∉ C.
Proof.
  intros Hsim Hmsgs Hnd. destruct (s_nodes _ _ _ Hsim k nd Hnd) as (o0 & Ho0 & Hok).
  destruct (s_bag _ _ _ Hsim) as (ts & Hts & Hm & Hin). rewrite Hmsgs in Hm.
  apply Forall2_app_inv_l in Hm as (ts1 & ts' & H1 & H2 & ->).
  apply Forall2_cons_inv_l in H2 as (t & ts2 & Ht & H2 & ->).
  exists t, ts1, ts2, o0. do 7 (split; [done|]). apply Hin. set_solver.
Qed.

Lemma step_sim C K net net' :
  sim C K net → step net net' → ∃ t K', t ∉ C ∧ sim (t :: C) K' net'.
Proof.
  intros Hsim Hstep. destruct Hstep as [net l1 l2 k m nd out nd' Hmsgs Hnd Hr].
  destruct (in_flight C K net l1 l2 k m nd Hsim Hmsgs Hnd)
    as (t & ts1 & ts2 & o0 & Ho0 & Hok & H1 & H2 & Hm & Hts & Hin & Hs & HC).
  pose proof (ready C K k o0 nd m t _ Hok Hm Hr) as Hg.
  pose proof (read_any C K k o0 nd m t Hok (s_coherent _ _ _ Hsim) Ho0 Hm Hs Hg HC) as Hreads.
  destruct (reads_sim C K net l1 l2 k m nd o0 ts1 ts2 t) as (out' & nd1 & K' & Hr' & Hsim'); try done.
  rewrite Hr in Hr'. injection Hr' as <- <-. eauto.
Qed.

Lemma sim_no_panic C K net : sim C K net → ¬ panics net.
Proof.
  intros Hsim (k & m & nd & nd' & v & Hin & Hnd & Hr).
  apply list_elem_of_split in Hin as (l1 & l2 & Hmsgs).
  destruct (in_flight C K net l1 l2 k m nd Hsim Hmsgs Hnd)
    as (t & ts1 & ts2 & o0 & Ho0 & Hok & H1 & H2 & Hm & Hts & Hin & Hs & HC).
  pose proof (ready C K k o0 nd m t _ Hok Hm Hr) as Hg.
  destruct (read_any C K k o0 nd m t Hok (s_coherent _ _ _ Hsim) Ho0 Hm Hs Hg HC)
    as (_ & out & nd1 & K' & _ & Hr' & _). rewrite Hr in Hr'. discriminate Hr'.
Qed.

(** In a network without a step, whatever is sent and allowed has been read. *)
Lemma stuck_read C K net t :
  sim C K net → (∀ net', ¬ step net net') → sent C K t → (dest t < n)%nat → gate C t → t ∈ C.
Proof.
  intros Hsim Hstuck Hs Hd Hg. destruct (decide (t ∈ C)) as [|HC]; [done|]. exfalso.
  destruct (s_bag _ _ _ Hsim) as (ts & Hts & Hm & Hin).
  assert (t ∈ ts) as Ht by (apply Hin; done).
  apply list_elem_of_split in Ht as (ts1 & ts2 & ->).
  apply Forall2_app_inv_r in Hm as (l1 & l2' & H1 & H2 & Hmsgs).
  apply Forall2_cons_inv_r in H2 as ([k m] & l2 & Hmt & H2 & ->).
  destruct (lookup_in_range (net_nodes net) k) as [nd Hnd].
  { rewrite (s_length _ _ _ Hsim). destruct Hmt as [Hk _]. cbn in Hk. by rewrite Hk. }
  destruct (s_nodes _ _ _ Hsim k nd Hnd) as (o0 & Ho0 & Hok).
  destruct (read_any C K k o0 nd m t Hok (s_coherent _ _ _ Hsim) Ho0 Hmt Hs Hg HC)
    as (_ & out & nd1 & K' & _ & Hr' & _).
  apply (Hstuck _ (step_deliver net l1 l2 k m nd out nd1 Hmsgs Hnd Hr')).
Qed.

(** *** The end of a run *)

Lemma stuck_all C K net :
  sim C K net → (∀ net', ¬ step net net') →
  (∀ k, (k < n)%nat → TStart k ∈ C ∧ (∀ t, t ∈ to_deals k → t ∈ C) ∧
    (∀ t, t ∈ to_resps k → t ∈ C) ∧ (∀ t, t ∈ to_commits k → t ∈ C)) ∧
  (∀ t, sent C K t → t ∈ C).
Proof.
  intros Hsim Hstuck. pose proof (good_size good) as H2.
  pose proof (λ t, stuck_read C K net t Hsim Hstuck) as HR.
  pose proof (s_coherent _ _ _ Hsim) as Hco.
  assert (∀ k, (0 < k < n)%nat → TInit k ∈ C) as Hinit.
  { intros k Hk. apply HR; [done|cbn; lia|done]. }
  assert (∀ k, (0 < k < n)%nat → TReply k ∈ C) as Hreply.
  { intros k Hk. apply HR; [split; auto|cbn; lia|done]. }
  assert (∀ k, (k < n)%nat → TStart k ∈ C) as Hst.
  { intros k Hk. apply HR; [|done|done]. split; [done|].
    intros t (i & -> & Hi)%elem_of_replies. auto. }
  assert (∀ k, (k < n)%nat → ∀ t, t ∈ to_deals k → t ∈ C) as Hdeal.
  { intros k Hk t (i & -> & Hi & Hik)%elem_of_to_deals. apply HR; [cbn|done|by apply Hst]. auto. }
  assert (∀ k, (k < n)%nat → ∀ t, t ∈ to_resps k → t ∈ C) as Hresp.
  { intros k Hk t (i & j & -> & Hi & Hj & Hij)%elem_of_to_resps. apply HR; [|done|split; [by apply Hst|by apply Hdeal]].
    split; [done|]. apply (Hdeal j Hj), elem_of_to_deals. eauto. }
  assert (∀ k, (k < n)%nat → k ∈ K) as HK.
  { intros k Hk. apply (s_commits _ _ Hco k Hk (Hst k Hk)). intros j Hj Hjk.
    apply (Hresp k Hk), elem_of_to_resps. exists k, j. naive_solver. }
  assert (∀ k, (k < n)%nat → ∀ t, t ∈ to_commits k → t ∈ C) as Hcommit.
  { intros k Hk t (i & -> & Hi)%elem_of_to_commits. apply HR; [by split; auto|done|].
    split; [by apply Hst|]. split; [by apply Hdeal|by apply Hresp]. }
  split.
  { intros k Hk. split; [by apply Hst|]. split; [by apply Hdeal|].
    split; [by apply Hresp|by apply Hcommit]. }
  intros t Ht. destruct t as [k|k|k|i k|i j k|i k|k|k]; cbn in Ht.
  - auto.
  - apply Hreply. tauto.
  - apply Hst. tauto.
  - apply (Hdeal k), elem_of_to_deals; [tauto|]. exists i. tauto.
  - destruct Ht as [Hk Hij]. destruct (s_closed _ _ Hco _ Hij) as [(Hi & Hj & Hne & _) _].
    apply (Hresp k Hk), elem_of_to_resps. exists i, j. done.
  - destruct Ht as [Hk Hi]. destruct (s_committed _ _ Hco i Hi) as [Hin _].
    apply (Hcommit k Hk), elem_of_to_commits. eauto.
  - destruct Ht as (Hw & Hk & Hall). assert (k < n)%nat by lia. apply HR; [done|done|].
    split; [by apply Hst|]. split; [by apply Hdeal|]. split; [by apply Hresp|by apply Hcommit].
  - apply HR; [done|cbn; lia|done].
Qed.

Lemma stuck_node C K net k nd :
  sim C K net → (∀ net', ¬ step net net') → net_nodes net !! k = Some nd →
  Done (inst nd) = true ∧
  ∃ X, SharedSecret (inst nd) =
       Ret {| ss_Index := Z.of_nat k; ss_V := share_at (poly_total n poly_of) (Z.of_nat k);
              ss_X := X |} ∧
    X ≡ point_mul None (share_secret (poly_total n poly_of)).
Proof.
  intros Hsim Hstuck Hnd. destruct (stuck_all C K net Hsim Hstuck) as [Hall Hsent].
  destruct (s_nodes _ _ _ Hsim k nd Hnd) as (o0 & Ho0 & Hok).
  destruct (inst_fresh k o0 Ho0) as (_ & Hk & _).
  destruct (Hall k Hk) as (Hs & Hd & Hr & Hc).
  destruct (n_dkg _ _ _ _ _ Hok Hs) as (g & Hg & Hkn).
  destruct (all_finished C k g) as [_ HX]; try done. split; [|by unfold SharedSecret; rewrite Hg].
  apply (n_done _ _ _ _ _ Hok). rewrite (n_pc _ _ _ _ _ Hok), pc_end by (done || by apply remaining_0).
  destruct w eqn:Ew; [|done]. cbn.
  assert (∀ j, (0 < j < n)%nat → TWaitS j ∈ C) as Hws.
  { intros j Hj. apply Hsent. split; [done|]. split; [done|].
    apply (Hall 0%nat). lia. }
  destruct (decide (k = 0%nat)) as [->|Hk0].
  - rewrite (proj2 (remaining_0 C wait_replies)); [done|].
    intros t (j & -> & Hj)%elem_of_wait_replies. apply Hsent. cbn. auto.
  - rewrite decide_True; [done|]. apply Hws. lia.
Qed.

(** *** The start of a run *)

Lemma imap_lookup k nd :
  imap (new_node r) rnds !! k = Some nd →
  ∃ o0, insts !! k = Some o0 ∧
    nd = {| inst := o0; pc := AtStartDeal; init_queue := []; wait_queue := [] |}.
Proof.
  rewrite list_lookup_imap. destruct (rnds !! k) as [rnd|] eqn:E; [|done]. intros [= <-].
  exists (NewSetupDKG r k rnd). split; [|done]. unfold insts. by rewrite list_lookup_imap, E.
Qed.

Lemma start_node_ok k o0 v :
  insts !! k = Some o0 → (k = 0%nat → v = w) →
  node_ok [] [] k o0 {| inst := set_Wait o0 v; pc := AtStartDeal; init_queue := [];
                        wait_queue := [] |}.
Proof.
  intros Ho0 Hv. destruct (inst_fresh k o0 Ho0) as (rnd & Hk & -> & _).
  unfold NewSetupDKG. destruct (NewKeyPair rnd) as [[sec pub] rnd'].
  pose proof (good_roster good) as Hr.
  split; cbn [inst pc init_queue wait_queue set_Wait me roster Threshold nodes keypair Wait random
    publics DKG commit Done]; try done.
  - intros [Hk0|Hk0]; [auto|by apply not_elem_of_nil in Hk0].
  - intros _. by rewrite repeat_length.
  - intros Hs. by apply not_elem_of_nil in Hs.
  - intros Hs. by apply not_elem_of_nil in Hs.
  - intros _ _. rewrite remaining_nil. unfold replies. rewrite length_fmap, length_seq. set_solver.
  - intros _ _. rewrite remaining_nil. unfold wait_replies. by rewrite length_fmap, length_seq.
Qed.

Lemma start_sim : ∃ net, start r w rnds = Ret net ∧ sim [] [] net.
Proof.
  pose proof (good_size good) as H2. unfold start.
  destruct (imap (new_node r) rnds) as [|root nds] eqn:E.
  { apply (f_equal length) in E. rewrite length_imap in E. cbn in E. lia. }
  assert (length (root :: nds) = n) as Hlen by (by rewrite <-E, length_imap).
  assert (∀ k nd, (root :: nds) !! k = Some nd → ∃ o0, insts !! k = Some o0 ∧
    nd = {| inst := o0; pc := AtStartDeal; init_queue := []; wait_queue := [] |}) as Hnds
    by (rewrite <-E; exact imap_lookup).
  destruct (Hnds 0%nat root eq_refl) as (o0 & Ho0 & ->).
  destruct (inst_fresh 0 o0 Ho0) as (rnd & _ & Ho0eq & _).
  assert (me o0 = 0%nat ∧ nodes o0 = n) as [Hme Hno].
  { rewrite Ho0eq. unfold NewSetupDKG. destruct (NewKeyPair rnd) as [[??]?].
    split; [done|]. cbn. apply (good_roster good). }
  eexists. split; [reflexivity|].
  split; cbn [net_nodes net_msgs set_inst inst].
  - done.
  - intros [|k] nd Hnd; cbn in Hnd.
    + injection Hnd as <-. exists o0. split; [done|]. by apply start_node_ok.
    + destruct (Hnds (Datatypes.S k) nd Hnd) as (o & Ho & ->). exists o. split; [done|].
      pose proof (start_node_ok (Datatypes.S k) o (Wait o) Ho ltac:(done)) as Hok.
      by destruct o.
  - exists (TInit <$> others 0). split; [|split].
    + apply NoDup_fmap_2_strong; [intros ?? _ _ [= ->]; done|apply NoDup_others].
    + unfold Broadcast, Multicast. cbn [me set_Wait nodes]. rewrite Hme, Hno. fold (others 0).
      apply Forall2_fmap_2, Forall_Forall2_diag, Forall_forall. done.
    + intros t. rewrite list_elem_of_fmap. setoid_rewrite elem_of_others. split.
      * intros (k & -> & Hk). split; [cbn; lia|apply not_elem_of_nil].
      * intros [Hs _]. destruct t as [k|k|k|i k|i j k|i k|k|k]; cbn [sent] in Hs.
        -- exists k. split; [done|lia].
        -- by destruct Hs as [_ ?%not_elem_of_nil].
        -- exfalso. destruct Hs as [_ Hs]. apply (not_elem_of_nil (TReply 1)), Hs, elem_of_replies.
           exists 1%nat. split; [done|lia].
        -- by destruct Hs as (_ & _ & _ & ?%not_elem_of_nil).
        -- by destruct Hs as [_ ?%not_elem_of_nil].
        -- by destruct Hs as [_ ?%not_elem_of_nil].
        -- exfalso. destruct Hs as (_ & _ & Hs).
           apply (not_elem_of_nil (TCommit 0 0)), Hs, elem_of_to_commits.
           exists 0%nat. split; [done|lia].
        -- by apply not_elem_of_nil in Hs.
  - constructor.
  - split; [intros t Ht|intros k Hk|intros k _ Hs]; by apply not_elem_of_nil in Ht || apply not_elem_of_nil in Hk || apply not_elem_of_nil in Hs.
Qed.

(** *** How long a run is *)

Definition all_messages : list Tag :=
  (TInit <$> seq 0 n) ++ (TReply <$> seq 0 n) ++ (TStart <$> seq 0 n) ++
  (seq 0 n ≫= to_deals) ++ (seq 0 n ≫= to_resps) ++ (seq 0 n ≫= to_commits) ++
  (TWaitS <$> seq 0 n) ++ (TWaitR <$> seq 0 n).

Lemma length_bind_const {A B} (f : A → list B) l m :
  (∀ x, x ∈ l → length (f x) = m) → length (l ≫= f) = (length l * m)%nat.
Proof.
  induction l as [|x l IH]; intros Hf; [done|]. cbn.
  rewrite length_app, Hf by set_solver. rewrite IH by set_solver. done.
Qed.

Lemma length_all_messages :
  length all_messages = (n * (n - 1) + n * (n * (n - 1)) + n * n + 5 * n)%nat.
Proof.
  unfold all_messages. rewrite !length_app, !length_fmap, !length_seq.
  rewrite (length_bind_const to_deals _ (n - 1)) by (intros k Hk%elem_of_seq; apply length_to_deals; lia).
  rewrite (length_bind_const to_resps _ (n * (n - 1))) by (intros k _; apply length_to_resps).
  rewrite (length_bind_const to_commits _ n) by (intros k _; apply length_to_commits).
  rewrite !length_seq. lia.
Qed.

Lemma coherent_bounded C K t : coherent C K → t ∈ C → t ∈ all_messages.
Proof.
  intros Hco Ht. destruct (s_closed _ _ Hco t Ht) as [Hs _]. unfold all_messages.
  assert (∀ k, (k < n)%nat → k ∈ seq 0 n) as Hseq by (intros; apply elem_of_seq; lia).
  rewrite !elem_of_app.
  destruct t as [k|k|k|i k|i j k|i k|k|k]; cbn [sent] in Hs.
  - left. apply list_elem_of_fmap_2, Hseq. lia.
  - do 1 right. left. apply list_elem_of_fmap_2, Hseq. lia.
  - do 2 right. left. apply list_elem_of_fmap_2, Hseq. tauto.
  - do 3 right. left. apply list_elem_of_bind. exists k. split; [|apply Hseq; tauto].
    apply elem_of_to_deals. exists i. tauto.
  - destruct Hs as [Hk Hij]. destruct (s_closed _ _ Hco _ Hij) as [(Hi & Hj & Hne & _) _].
    do 4 right. left. apply list_elem_of_bind. exists k. split; [|auto].
    apply elem_of_to_resps. exists i, j. done.
  - destruct Hs as [Hk Hi]. destruct (s_committed _ _ Hco i Hi) as [Hin _].
    do 5 right. left. apply list_elem_of_bind. exists k. split; [|auto].
    apply elem_of_to_commits. eauto.
  - do 6 right. left. apply list_elem_of_fmap_2, Hseq. lia.
  - destruct (s_closed _ _ Hco _ Hs) as [(_ & Hk & _) _].
    do 7 right. apply list_elem_of_fmap_2, Hseq. lia.
Qed.

Lemma run_sim m net net' C K :
  sim C K net → nsteps step m net net' → ∃ C' K', sim C' K' net' ∧ length C' = (m + length C)%nat.
Proof.
  intros Hsim Hrun. revert C K Hsim.
  induction Hrun as [net|m net1 net2 net3 Hstep Hrun IH]; intros C K Hsim; [eauto|].
  destruct (step_sim C K net1 net2 Hsim Hstep) as (t & K' & _ & Hsim').
  destruct (IH _ _ Hsim') as (C' & K2 & Hs & Hl). exists C', K2. split; [done|]. cbn in Hl. lia.
Qed.

Lemma length_poly_add (p q : list Scalar) m :
  (length p <= m)%nat → (length q <= m)%nat → (length (poly_add p q) <= m)%nat.
Proof.
  revert q m. induction p as [|a p IH]; intros q m Hp Hq; [done|].
  destruct q as [|b q]; [done|]. cbn in *. destruct m as [|m]; [lia|].
  specialize (IH q m). lia.
Qed.

Lemma length_poly_total m : (length (poly_total m poly_of) <= 2)%nat.
Proof.
  unfold poly_total. induction (seq 0 m) as [|i l IH]; cbn; [lia|].
  apply length_poly_add; [apply length_poly_of|done].
Qed.
End refinement.

(** ** The theorem *)

Section theorem.
Import SetupDKG.
Context {S : Suite} {U : UuidLib} {D : DkgLib S} {DL : DkgLaws D}.

(** C7: distributed key generation, for every interleaving.  From the start of
    the root on, with two or more servers that hold distinct keys and honest
    generators, no order in which the messages are read makes a node panic;
    every run ends within a fixed number of deliveries; and a run that cannot
    go on has delivered everything, all nodes are done, and they hold shares,
    with their position in the tree as index, of one secret whose public key
    they agree on, on a polynomial with two coefficients. *)
Theorem setup_dkg_completes (r : Rosters.Roster) (w : bool) (rnds : list Stream) :
  good_setup r rnds →
  let n := length rnds in
  ∃ net0, start r w rnds = Ret net0 ∧
  ∀ steps net, nsteps step steps net0 net →
    ¬ panics net ∧ (steps <= n * (n - 1) + n * (n * (n - 1)) + n * n + 5 * n)%nat ∧
    ((∀ net', ¬ step net net') →
      net_msgs net = [] ∧ length (net_nodes net) = n ∧
      ∃ p, (length p <= 2)%nat ∧
      ∀ k nd, net_nodes net !! k = Some nd →
        Done (inst nd) = true ∧
        ∃ X, SharedSecret (inst nd)
             = Ret {| ss_Index := Z.of_nat k; ss_V := share_at p (Z.of_nat k); ss_X := X |} ∧
          X ≡ point_mul None (share_secret p)).
Proof.
  intros good n. destruct (start_sim r w rnds good) as (net0 & H0 & Hsim0).
  exists net0. split; [done|]. intros steps net Hrun.
  destruct (run_sim r w rnds good steps net0 net [] [] Hsim0 Hrun) as (C & K & Hsim & Hlen).
  split; [by apply (sim_no_panic r w rnds good C K)|]. split.
  { pose proof (length_all_messages r rnds good) as Hb. fold n in Hb. rewrite <-Hb. replace steps with (length C) by (rewrite Hlen; cbn; lia).
    apply submseteq_length, NoDup_submseteq; [apply (s_nodup _ _ _ _ _ _ Hsim)|].
    intros t. apply (coherent_bounded w rnds C K), (s_coherent _ _ _ _ _ _ Hsim). }
  intros Hstuck. split; [|split; [apply (s_length _ _ _ _ _ _ Hsim)|]].
  - destruct (s_bag _ _ _ _ _ _ Hsim) as (ts & _ & Hm & Hin).
    destruct (stuck_all r w rnds good C K net Hsim Hstuck) as [_ Hall].
    destruct ts as [|t ts]; [by apply Forall2_nil_inv_r in Hm|].
    assert (sent w rnds C K t ∧ t ∉ C) as [Hs HC] by (apply Hin; set_solver).
    destruct (HC (Hall t Hs)).
  - exists (poly_total n (poly_of r rnds)). split; [by apply length_poly_total|].
    intros k nd Hnd. by apply (stuck_node r w rnds good C K net).
Qed.
End theorem.

(** ** A concrete generator and run *)

Module DkgExample.
Import ZSuite SetupDKG.

Definition all_in (v : View (S := Zsuite)) : bool :=
  let ns := seq 0 (length (v_publics v)) in
  forallb (λ i, bool_decide (is_Some (v_deals v !! i))) ns &&
  forallb (λ i, forallb (λ j, bool_decide (i = j) || bool_decide ((i, j) ∈ v_resps v)) ns) ns.

Definition own_approved (v : View (S := Zsuite)) : bool :=
  forallb (λ j, bool_decide (j = v_me v) || bool_decide ((v_me v, j) ∈ v_resps v))
          (seq 0 (length (v_publics v))).

Definition draw (n : nat) (rnd : Z) : list Z := imap (λ i _, 3 + (rnd + Z.of_nat i) mod 97) (replicate n 0).

(** Generators that trust what they are told. *)
Definition toy_keys (rnd : @Stream Zsuite) : @Scalar Zsuite * @Point Zsuite * @Stream Zsuite :=
  (rnd, rnd, Z.succ rnd).

Definition toy_new (sec : @Scalar Zsuite) (publics : list (option (@Point Zsuite)))
    (rnd : @Stream Zsuite) (t : Z) : outcome error (View (S := Zsuite)) * @Stream Zsuite :=
  (match mapM id publics, list_find (λ p : Z, p = sec) (omap id publics) with
   | Some pks, Some (me, _) =>
       if bool_decide (2 <= t <= Z.of_nat (length pks))
       then Ret {| v_publics := pks; v_me := me; v_poly := draw (Z.to_nat t) rnd;
                   v_deals := ∅; v_resps := ∅; v_commits := ∅ |}
       else Err "dealer: t invalid"
   | _, _ => Err "dkg: own public key not found in list of participants"
   end, rnd).

#[global] Instance toy_dkg : DkgLib Zsuite := {|
  DistKeyGenerator := View (S := Zsuite);
  dkg_Deal := nat * nat * list Z;
  dkg_Response := nat * nat;
  dkg_Justification := unit;
  dkg_SecretCommits := nat * list Z;
  dkg_Complaint := unit;
  NewKeyPair := toy_keys;
  NewDistKeyGenerator := toy_new;
  Deals := λ v,
    (Ret ((λ k, (Z.of_nat k, (v_me v, k, v_poly v)))
            <$> filter (λ k, k ≠ v_me v) (seq 0 (length (v_publics v)))),
     add_deal (v_me v) (v_poly v) v);
  ProcessDeal := λ '(i, j, f) v,
    if decide (j = v_me v) then (Ret (i, j), add_deal i f v) else (Err "wrong receiver", v);
  ProcessResponse := λ '(i, j) v,
    if bool_decide ((i, j) ∈ v_resps v) then (Err "already existing response", v)
    else (Ret None, add_resp i j v);
  SecretCommits := λ v,
    (if own_approved v then Ret (v_me v, v_poly v) else Err "deal not certified", v);
  ProcessSecretCommits := λ '(i, f) v,
    if all_in v && bool_decide (v_deals v !! i = Some f) then (Ret None, add_commit i v)
    else (Err "wrong commits", v);
  Finished := λ v,
    all_in v && forallb (λ i, bool_decide (i ∈ v_commits v)) (seq 0 (length (v_publics v)));
  dkg_Index := λ v, Z.of_nat (v_me v);
  DistKeyShare := λ v,
    let p := poly_total (length (v_publics v)) (λ i, default [] (v_deals v !! i)) in
    Ret (share_at p (Z.of_nat (v_me v)), share_secret p);
|}.

Lemma all_in_certified v : all_in v = true ↔ certified v.
Proof.
  unfold all_in, certified. rewrite andb_true_iff, !forallb_forall.
  setoid_rewrite forallb_forall. setoid_rewrite orb_true_iff. setoid_rewrite bool_decide_eq_true.
  setoid_rewrite <-list_elem_of_In. setoid_rewrite elem_of_seq. split.
  - intros [Hd Hr]. split; [intros i Hi; apply Hd; lia|]. intros i j Hi Hj Hij.
    destruct (Hr i ltac:(lia) j ltac:(lia)); done.
  - intros [Hd Hr]. split; [intros i Hi; apply Hd; lia|]. intros i Hi j Hj.
    destruct (decide (i = j)); [by left|right]. apply Hr; [lia..|done].
Qed.

Lemma own_approved_spec v :
  own_approved v = true ↔
  ∀ j, (j < length (v_publics v))%nat → j ≠ v_me v → (v_me v, j) ∈ v_resps v.
Proof.
  unfold own_approved. rewrite forallb_forall. setoid_rewrite orb_true_iff.
  setoid_rewrite bool_decide_eq_true. setoid_rewrite <-list_elem_of_In.
  setoid_rewrite elem_of_seq. split.
  - intros H j Hj Hne. destruct (H j ltac:(lia)); done.
  - intros H j Hj. destruct (decide (j = v_me v)); [by left|right]. apply H; [lia|done].
Qed.

Lemma foldr_iff_in {A B} (f g : A → B → B) b l :
  (∀ x b, x ∈ l → f x b = g x b) → foldr f b l = foldr g b l.
Proof.
  induction l as [|x l IH]; intros H; [done|]. cbn. rewrite H by set_solver.
  by rewrite IH by set_solver.
Qed.

Lemma mapM_id_Some {A} (l : list A) : mapM id (Some <$> l) = Some l.
Proof. induction l as [|a l IH]; [done|]. cbn. by rewrite IH. Qed.
Lemma omap_id_Some {A} (l : list A) : omap id (Some <$> l) = l.
Proof. induction l as [|a l IH]; [done|]. cbn. by rewrite IH. Qed.

#[global] Instance toy_dkg_laws : DkgLaws toy_dkg.
Proof.
  refine {| view := λ v : DistKeyGenerator (DkgLib := toy_dkg), v;
            valid_deal _ i j f d := d = (i, j, f);
            valid_resp _ i j x := x = (i, j);
            valid_commit _ i f c := c = (i, f) |}.
  - intros rnd. cbn. unfold equiv. cbn. lia.
  - intros sec pks me p rnd t Hdk Hp Hsec Ht. cbn [NewDistKeyGenerator toy_dkg].
    unfold toy_new. rewrite mapM_id_Some, omap_id_Some.
    assert (p = sec) as -> by (unfold equiv in Hsec; cbn in Hsec; lia).
    match goal with |- context [list_find ?P ?l] => destruct (list_find P l) as [[i q]|] eqn:E end.
    + apply list_find_Some in E as (Hi & -> & _).
      assert (i = me) as -> by (by apply (Hdk i me sec sec)).
      rewrite bool_decide_true by done. eexists _, _. split; [reflexivity|]. split; [|done].
      unfold draw. by rewrite length_imap, length_replicate.
    + exfalso. apply list_find_None in E. rewrite Forall_lookup in E. by apply (E me sec).
  - intros g Hg. eexists _, _. split; [reflexivity|]. split; [done|]. split.
    + rewrite <-list_fmap_compose. done.
    + intros k d Hin. apply list_elem_of_fmap in Hin as (k' & [= Hk ->] & _).
      apply Nat2Z.inj in Hk. by subst.
  - intros g i f d -> Hd. eexists _, _. cbn. rewrite decide_True by done. done.
  - intros g i j x -> Hd Hij Hn. eexists. cbn. rewrite bool_decide_false by done. done.
  - intros g i j x -> Hin. eexists _, _. cbn. rewrite bool_decide_true by done.
    split; [reflexivity|]. split; [done|]. right. eauto.
  - intros g. eexists _, _. split; [reflexivity|]. split; [done|].
    destruct (own_approved g) eqn:E; [done|]. rewrite <-own_approved_spec, E. done.
  - intros g i f c Hc Hd ->. eexists. cbn. rewrite (proj2 (all_in_certified g) Hc).
    rewrite bool_decide_true by done. done.
  - intros g F n Hc Hd Hcom. cbn. rewrite (proj2 (all_in_certified g) Hc). cbn.
    split; [|split; [done|]].
    + apply forallb_forall. intros i Hi%list_elem_of_In%elem_of_seq.
      apply bool_decide_eq_true, Hcom. unfold n. cbn. lia.
    + assert (∀ i, i ∈ seq 0 n → default [] (v_deals g !! i) = F i) as HF.
      { intros i Hi%elem_of_seq. by rewrite Hd by lia. }
      eexists. split.
      * do 3 f_equal; unfold poly_total; apply foldr_iff_in; intros i p Hi; by rewrite <-HF.
      * unfold poly_total. rewrite (foldr_iff_in _ (λ i p, poly_add (F i) p))
          by (intros i p Hi; by rewrite HF). symmetry. apply Z.mul_1_l.
Qed.

(** Three servers. *)
Definition server (i : Z) : Network.ServerIdentity :=
  {| Network.Public := i; Network.ID := [byte_of i]; Network.Address := []; Network.Description := [] |}.
Definition servers3 : Rosters.Roster :=
  {| Rosters.ID := [x01]; Rosters.List := server <$> [7; 11; 23]; Rosters.Aggregate := 41 |}.
Definition streams3 : list (@Stream Zsuite) := [100; 200; 300].

Lemma good3 : good_setup servers3 streams3.
Proof.
  split.
  - cbn. lia.
  - reflexivity.
  - unfold Rosters.distinct. apply (bool_decide_eq_true_1 _). by_vm.
  - intros i j p q Hi Hj E. unfold equiv in E. cbn in E. subst q.
    change (([100; 200; 300] : list Z) !! i = Some p) in Hi.
    change (([100; 200; 300] : list Z) !! j = Some p) in Hj.
    destruct i as [|[|[|i]]], j as [|[|[|j]]]; cbn in Hi, Hj; try done; congruence.
Qed.

Lemma setup_dkg_completes_witness :
  good_setup servers3 streams3 ∧
  ∃ net0, start servers3 true streams3 = Ret net0 ∧ ¬ panics net0.
Proof.
  split; [exact good3|].
  destruct (setup_dkg_completes servers3 true streams3 good3) as (net0 & H0 & H).
  exists net0. split; [exact H0|]. apply (H 0%nat net0). constructor.
Defined.

(** One schedule: always the first message that can be read. *)
Fixpoint first_readable (nds : list Node) (before after : list (nat * Msg)) : option Net :=
  match after with
  | [] => None
  | (k, m) :: after =>
      match nds !! k ≫= receive m with
      | Some (Ret out, nd) =>
          Some {| net_nodes := <[k := nd]> nds; net_msgs := before ++ after ++ out |}
      | _ => first_readable nds (before ++ [(k, m)]) after
      end
  end.
Fixpoint schedule (fuel : nat) (net : Net) : Net :=
  match fuel with
  | O => net
  | Datatypes.S fuel =>
      match first_readable (net_nodes net) [] (net_msgs net) with
      | Some net => schedule fuel net
      | None => net
      end
  end.

Lemma schedule3 :
  match start servers3 true streams3 with
  | Ret net =>
      let net := schedule 100 net in
      (length (net_msgs net), Done ∘ inst <$> net_nodes net,
       (λ nd, match SharedSecret (inst nd) with
              | Ret s => Some (ss_Index s, ss_V s, ss_X s) | _ => None end) <$> net_nodes net)
  | _ => (1%nat, [], [])
  end = (0%nat, [true; true; true], [Some (0, 63, 30); Some (1, 96, 30); Some (2, 129, 30)]).
Proof. by_vm. Qed.
End DkgExample.
