(* ===== verification/CreateDkgs.v ===== *)
(** * Generators set up in one place ([protocol/onchain.go], [CreateDKGs])

    [CreateDKGs] sets up the generators of a distributed key generation in one
    process: it makes the deals, hands every response and every commit to every
    generator, and checks that all are finished.  The generators are those of
    [Dkg.v], with the same laws: what the loops achieve is stated with the tags of
    the messages they have handed over. *)
From S2P Require Import Prelude Suite Tree Reencrypt Dkg DkgRun.
Local Open Scope Z_scope.

Module CreateDKGs.
Section create.
Context {S : Suite} {D : DkgLib S}.

(** The slice of generators, which are pointers: a call on one changes it in
    place. *)
Abbreviation G := (SM (list DistKeyGenerator) error).

Definition on {A} (k : Z) (c : SM DistKeyGenerator error A) : G A := λ gs,
  match index gs k with
  | Ret g => let '(r, g') := c g in (r, <[Z.to_nat k := g']> gs)
  | Err e => (Err e, gs)
  | Panic w => (Panic w, gs)
  | OutOfFuel => (OutOfFuel, gs)
  end.

(** [for k := range dkgs]. *)
Definition nodes (gs : list DistKeyGenerator) : list Z := Z.of_nat <$> seq 0 (length gs).

(** 1a: the scalars; [random.Stream] is threaded through. *)
Fixpoint pick_scalars (n : nat) (random : Stream) : list Scalar * Stream :=
  match n with
  | O => ([], random)
  | Datatypes.S n =>
      let '(s, random) := scalar_pick random in
      let '(scalars, random) := pick_scalars n random in
      (s :: scalars, random)
  end.

(** 1b: the generators. *)
Definition new_generators (scalars : list Scalar) (points : list Point) (threshold : Z)
    : SM Stream error (list DistKeyGenerator) :=
  sforM (λ gs s,
    do! g := (λ random, NewDistKeyGenerator s (Some <$> points) random threshold) in
    sret (gs ++ [g])) [] scalars.

(** The deals of [i], and the responses to them by receiver; nil for [i]. *)
Definition deal_row (i : Z) : G (list (option dkg_Response)) :=
  do! deals := on i Deals in
  do! gs := sget in
  sforM (λ row '(j, d),
    do! r := on j (ProcessDeal d) in
    slift (set_index row j (Some r))) (replicate (length gs) None) deals.

Definition exchange_deals : G (list (list (option dkg_Response))) :=
  do! gs := sget in
  sforM (λ responses i, do! row := deal_row i in sret (responses ++ [row])) [] (nodes gs).

(** One response to one generator. *)
Definition process_response (j k : Z) (r : option dkg_Response) : G unit :=
  match r with
  | Some r =>
      if decide (j ≠ k) then
        do! justification := on k (ProcessResponse r) in
        match justification with
        | Some _ => sthrow "there should be no justification"
        | None => sret tt
        end
      else sret tt
  | None => sret tt
  end.

Definition process_responses (responses : list (list (option dkg_Response))) : G unit :=
  do! gs := sget in
  sforM (λ _ resp,
    sforM (λ _ '(j, r), sforM (λ _ k, process_response j k r) tt (nodes gs)) tt
      (imap (λ j r, (Z.of_nat j, r)) resp)) tt responses.

Definition process_commit (i : Z) : G unit :=
  do! commit := on i SecretCommits in
  do! gs := sget in
  sforM (λ _ k,
    do! compl := on k (ProcessSecretCommits commit) in
    match compl with
    | Some _ => sthrow "there should be no complaint"
    | None => sret tt
    end) tt (nodes gs).

Definition exchange_commits : G unit :=
  do! gs := sget in
  sforM (λ _ i, process_commit i) tt (nodes gs).

(** The steps after the generators are made. *)
Definition exchange : G unit :=
  do! responses := exchange_deals in
  do! _ := process_responses responses in
  do! _ := exchange_commits in
  do! gs := sget in
  if forallb Finished gs then sret tt else sthrow "one of the dkgs is not finished yet".

Definition CreateDKGs (nbrNodes threshold : Z) : SM Stream error (list DistKeyGenerator) := λ random,
  if nbrNodes <? 0 then (Panic "makeslice: len out of range", random)
  else
    let '(scalars, random) := pick_scalars (Z.to_nat nbrNodes) random in
    (do! dkgs := new_generators scalars (point_mul None <$> scalars) threshold in
     λ random,
       match exchange dkgs with
       | (Ret _, dkgs) => (Ret dkgs, random)
       | (Err e, _) => (Err e, random)
       | (Panic w, _) => (Panic w, random)
       | (OutOfFuel, _) => (OutOfFuel, random)
       end) random.

(** ** What the loops have handed over *)
Context {DL : DkgLaws D} (pks : list Point) (F : nat → list Scalar).
Local Abbreviation n := (length pks).

Definition all_know (C : list Tag) (gs : list DistKeyGenerator) : Prop :=
  length gs = n ∧ ∀ k g, gs !! k = Some g → knows pks F C k g.

(** Tags that only the generator [k] sees. *)
Definition for_node (t : Tag) (k : nat) : Prop :=
  match t with
  | TStart k' | TDeal _ k' | TResp _ _ k' | TCommit _ k' => k' = k
  | _ => False
  end.

Lemma knows_elsewhere C t k k' g : for_node t k → k' ≠ k → knows pks F C k' g → knows pks F (t :: C) k' g.
Proof.
  intros Ht Hk. destruct t; try done; cbn in Ht; subst; apply knows_local; intros; rewrite ?elem_of_cons in *; naive_solver.
Qed.

Lemma all_know_step C gs t k g' :
  all_know C gs → for_node t k → knows pks F (t :: C) k g' → all_know (t :: C) (<[k := g']> gs).
Proof.
  intros [Hl Hk] Ht Hg. split; [by rewrite length_insert|]. intros k' g Hin.
  apply list_lookup_insert_Some in Hin as [(<- & <- & _)|[Hne Hin]]; [done|].
  apply (knows_elsewhere C t k); [done|congruence|by apply Hk].
Qed.

Lemma all_know_view C gs k g g' :
  all_know C gs → gs !! k = Some g → view g' = view g → all_know C (<[k := g']> gs).
Proof.
  intros [Hl Hk] Hg E. split; [by rewrite length_insert|]. intros k' g1 Hin.
  apply list_lookup_insert_Some in Hin as [(<- & <- & _)|[_ Hin]]; [|by apply Hk].
  apply (knows_view pks F _ _ g); [done|by apply Hk].
Qed.

(** A call on a generator that is there. *)
Lemma on_node {A} (c : SM DistKeyGenerator error A) gs k g :
  gs !! k = Some g → on (Z.of_nat k) c gs = ((c g).1, <[k := (c g).2]> gs).
Proof.
  intros Hg. unfold on. rewrite (index_Ret gs k g Hg). destruct (c g) as [r g']. by rewrite Nat2Z.id.
Qed.

(** ** Deals *)

(** The responses to the deals of [i]: one of each other node. *)
Definition row_ok (i : nat) (row : list (option dkg_Response)) : Prop :=
  length row = n ∧ ∀ j o, row !! j = Some o →
    j = i ∧ o = None ∨ j ≠ i ∧ ∃ r, o = Some r ∧ valid_resp pks i j r.

(** The row while the receivers in [js] have answered. *)
Definition row_upto (i : nat) (js : list Z) (row : list (option dkg_Response)) : Prop :=
  length row = n ∧ ∀ j, (j < n)%nat →
    if decide (Z.of_nat j ∈ js) then ∃ r, row !! j = Some (Some r) ∧ valid_resp pks i j r
    else row !! j = Some None.

Lemma row_upto_snoc i js row j r :
  row_upto i js row → (j < n)%nat → valid_resp pks i j r →
  row_upto i (js ++ [Z.of_nat j]) (<[j := Some r]> row).
Proof.
  intros [Hl Hr] Hj Hv. split; [by rewrite length_insert|]. intros j' Hj'. destruct (decide (j' = j)) as [->|Hne].
  - rewrite decide_True by (apply elem_of_app; right; by left). exists r. split; [|done].
    apply list_lookup_insert_eq. lia.
  - rewrite list_lookup_insert_ne by done. specialize (Hr j' Hj').
    rewrite (decide_ext _ (Z.of_nat j' ∈ js)); [done|].
    rewrite elem_of_app, list_elem_of_singleton. split; [|tauto]. intros [?|E]; [done|]. by apply Nat2Z.inj in E.
Qed.

(** The state after the deals of [i] to [js]. *)
Definition dealt (C : list Tag) (i : nat) (js : list Z) (gs : list DistKeyGenerator) : Prop :=
  ∃ C', all_know C' gs ∧
    ∀ t, t ∈ C' ↔ t ∈ C ∨ t = TStart i ∨ ∃ k, Z.of_nat k ∈ js ∧ t = TDeal i k.

Lemma deal_one C i js gs k d row :
  (∀ k, TDeal i k ∉ C) → dealt C i js gs → row_upto i js row →
  k ≠ i → (k < n)%nat → Z.of_nat k ∉ js → valid_deal pks i k (F i) d →
  ∃ row' gs',
    (do! r := on (Z.of_nat k) (ProcessDeal d) in slift (set_index row (Z.of_nat k) (Some r))) gs = (Ret row', gs') ∧
    dealt C i (js ++ [Z.of_nat k]) gs' ∧ row_upto i (js ++ [Z.of_nat k]) row'.
Proof.
  intros HC (C' & Hall & HC') Hrow Hk Hkn Hjs Hd.
  destruct (lookup_lt_is_Some_2 gs k) as [g Hg]; [by rewrite (proj1 Hall)|].
  destruct (knows_deal pks F C' k g i d (proj2 Hall k g Hg)) as (r & g' & Hr & Hg' & Hv); [done| |done|].
  { rewrite HC'. intros [H|[H|(k' & Hin & [= ->])]]; [by apply (HC k)|done|done]. }
  exists (<[k := Some r]> row), (<[k := g']> gs). split; [|split].
  - unfold sbind. rewrite (on_node _ gs k g Hg), Hr. cbn [fst snd]. unfold slift.
    rewrite set_index_Ret by (rewrite (proj1 Hrow); lia). by rewrite Nat2Z.id.
  - exists (TDeal i k :: C'). split; [by apply all_know_step|]. intros t.
    rewrite elem_of_cons, HC'. setoid_rewrite elem_of_app. setoid_rewrite list_elem_of_singleton. split.
    + intros [->|[?|[?|(k' & ? & ->)]]]; [right; right; exists k; auto|auto|auto|right; right; exists k'; auto].
    + intros [?|[?|(k' & [?|E] & ->)]]; [auto|auto|right; right; right; exists k'; auto|]. apply Nat2Z.inj in E as ->. auto.
  - by apply row_upto_snoc.
Qed.

Lemma deal_row_ok C i gs :
  all_know C gs → (i < n)%nat → TStart i ∉ C → (∀ k, TDeal i k ∉ C) →
  ∃ C' row gs', deal_row (Z.of_nat i) gs = (Ret row, gs') ∧ all_know C' gs' ∧ row_ok i row ∧
    ∀ t, t ∈ C' ↔ t ∈ C ∨ t = TStart i ∨ ∃ k, (k < n)%nat ∧ k ≠ i ∧ t = TDeal i k.
Proof.
  intros Hall Hi Hs Hd. destruct (lookup_lt_is_Some_2 gs i) as [g Hg]; [by rewrite (proj1 Hall)|].
  destruct (knows_start pks F C i g (proj2 Hall i g Hg) Hs (Hd i)) as (ds & g' & Hds & Hg' & Hperm & Hval).
  unfold deal_row. unfold sbind at 1. rewrite (on_node _ gs i g Hg), Hds. cbn [fst snd].
  unfold sbind at 1, sget. rewrite length_insert, (proj1 Hall).
  assert (NoDup ds.*1) as Hnd.
  { rewrite Hperm. apply NoDup_fmap_2; [exact _|]. apply NoDup_filter, NoDup_seq. }
  destruct (sforM_inv (λ l row gs, dealt C i l.*1 gs ∧ row_upto i l.*1 row)
    (λ row '(j, d), do! r := on j (ProcessDeal d) in slift (set_index row j (Some r))) ds (replicate n None)
    (<[i := g']> gs)) as (row & gs' & -> & (C' & Hall' & HC') & Hrow).
  - intros l1 [z d] l2 row gs1 E [Hdealt Hrow]. rewrite fmap_app. cbn [fmap list_fmap fst].
    assert (z ∈ ds.*1) as Hz by (rewrite E, fmap_app; apply elem_of_app; right; by left).
    rewrite Hperm in Hz. apply list_elem_of_fmap in Hz as (k & -> & [Hki Hk%elem_of_seq]%list_elem_of_filter).
    apply (deal_one C i l1.*1 gs1 k d row Hd Hdealt Hrow Hki); [lia| |].
    + rewrite E, fmap_app in Hnd. apply NoDup_app in Hnd as (_ & Hx & _). intros Hin. apply (Hx _ Hin). by left.
    + apply Hval. rewrite E. apply elem_of_app. right. by left.
  - split.
    + exists (TStart i :: C). split; [by apply all_know_step|]. intros t. rewrite elem_of_cons. split; [tauto|].
      intros [?|[?|(k & ?%elem_of_nil & _)]]; tauto.
    + split; [apply length_replicate|]. intros j Hj. rewrite decide_False by apply not_elem_of_nil.
      by apply lookup_replicate_2.
  - assert (∀ j, Z.of_nat j ∈ ds.*1 ↔ (j < n)%nat ∧ j ≠ i) as Hin.
    { intros j. rewrite Hperm, list_elem_of_fmap. split.
      - intros (j' & E%Nat2Z.inj & [? ?%elem_of_seq]%list_elem_of_filter). subst. split; [lia|done].
      - intros [Hj Hne]. exists j. split; [done|]. apply list_elem_of_filter. split; [done|]. apply elem_of_seq. lia. }
    exists C', row, gs'. split; [done|]. split; [done|]. split.
    + destruct Hrow as [Hl Hr]. split; [done|]. intros j o Ho. pose proof (lookup_lt_Some _ _ _ Ho) as Hj.
      rewrite Hl in Hj. specialize (Hr j Hj). case_decide as E.
      * right. destruct Hr as (r & Hr & Hv). rewrite Ho in Hr. injection Hr as ->. apply Hin in E as [_ E]. eauto.
      * left. rewrite Ho in Hr. injection Hr as ->. split; [|done]. destruct (decide (j = i)); [done|].
        destruct E. by apply Hin.
    + intros t. rewrite HC'. split; (intros [?|[?|(k & Hk)]]; [auto|auto|right; right; exists k]);
        [destruct Hk as [[? ?]%Hin ->]; auto|destruct Hk as (? & ? & ->); split; [by apply Hin|done]].
Qed.

Local Abbreviation all := (Z.of_nat <$> seq 0 n).
Lemma nodes_all C gs : all_know C gs → nodes gs = all.
Proof. intros [Hl _]. unfold nodes. by rewrite Hl. Qed.

(** The element of a loop over all indices. *)
Lemma all_split l1 a l2 : all = l1 ++ a :: l2 → a = Z.of_nat (length l1) ∧ (length l1 < n)%nat.
Proof.
  intros E. assert (all !! length l1 = Some a) as Ha by (rewrite E; by apply list_lookup_middle).
  rewrite list_lookup_fmap in Ha. apply fmap_Some in Ha as (k & [-> Hk]%lookup_seq & ->). done.
Qed.

Definition all_dealt (C : list Tag) : Prop :=
  ∀ t, t ∈ C ↔ (∃ k, (k < n)%nat ∧ t = TStart k) ∨ ∃ i k, (i < n)%nat ∧ (k < n)%nat ∧ k ≠ i ∧ t = TDeal i k.

Lemma exchange_deals_ok gs :
  all_know [] gs →
  ∃ C rows gs', exchange_deals gs = (Ret rows, gs') ∧ all_know C gs' ∧ all_dealt C ∧ length rows = n ∧
    ∀ i row, rows !! i = Some row → row_ok i row.
Proof.
  intros H0. unfold exchange_deals. unfold sbind at 1, sget. rewrite (nodes_all _ _ H0).
  destruct (sforM_inv (λ l rows gs, length rows = length l ∧ (∀ i row, rows !! i = Some row → row_ok i row) ∧
      ∃ C, all_know C gs ∧ ∀ t, t ∈ C ↔ (∃ k, (k < length l)%nat ∧ t = TStart k) ∨
        ∃ i k, (i < length l)%nat ∧ (k < n)%nat ∧ k ≠ i ∧ t = TDeal i k)
    (λ rows i, do! row := deal_row i in sret (rows ++ [row])) all [] gs)
    as (rows & gs' & -> & Hl & Hrows & C & Hall & HC).
  - intros l1 a l2 rows gs1 [-> Hlt]%all_split (Hl & Hrows & C & Hall & HC).
    destruct (deal_row_ok C (length l1) gs1 Hall Hlt) as (C' & row & gs2 & Hrun & Hall' & Hrow & HC').
    { rewrite HC. intros [(k & Hk & [= <-])|(i & k & _ & _ & _ & [=])]. lia. }
    { intros k. rewrite HC. intros [(k' & _ & [=])|(i & k' & Hi & _ & _ & [= <- _])]. lia. }
    exists (rows ++ [row]), gs2. unfold sbind. rewrite Hrun. split; [done|]. rewrite !length_app. cbn. split; [lia|]. split.
    + intros i row' [[_ Hi]|[-> <-]]%lookup_snoc_Some; [by apply Hrows|by rewrite Hl].
    + exists C'. split; [done|]. intros t. rewrite HC', HC. split.
      * intros [[(k & ? & ->)|(i & k & ? & ? & ? & ->)]|[->|(k & ? & ? & ->)]].
        -- left. exists k. split; [lia|done].
        -- right. exists i, k. split; [lia|done].
        -- left. exists (length l1). split; [lia|done].
        -- right. exists (length l1), k. split; [lia|done].
      * intros [(k & Hk & ->)|(i & k & Hi & ? & ? & ->)].
        -- destruct (decide (k = length l1)) as [->|]; [auto|]. left. left. exists k. split; [lia|done].
        -- destruct (decide (i = length l1)) as [->|]; [right; right; by exists k|]. left. right. exists i, k. split; [lia|done].
  - split; [done|]. split; [done|]. exists []. split; [done|]. intros t. cbn. split; [by intros ?%elem_of_nil|].
    intros [(k & ? & _)|(i & k & ? & _)]; lia.
  - rewrite length_fmap, length_seq in *. by exists C, rows, gs'.
Qed.

(** ** Responses *)

Lemma respond_one C i j gs k r :
  all_know C gs → (k < n)%nat → (i = k ∧ TStart k ∈ C ∨ TDeal i k ∈ C) → i ≠ j → k ≠ j → TResp i j k ∉ C →
  valid_resp pks i j r →
  ∃ gs', process_response (Z.of_nat j) (Z.of_nat k) (Some r) gs = (Ret tt, gs') ∧ all_know (TResp i j k :: C) gs'.
Proof.
  intros Hall Hk Hd Hij Hkj HC Hv. destruct (lookup_lt_is_Some_2 gs k) as [g Hg]; [by rewrite (proj1 Hall)|].
  destruct (knows_resp pks F C k g i j r (proj2 Hall k g Hg)) as (o & g' & Hr & Hg' & Ho); [done..| |done|].
  { intros ->. done. }
  destruct Ho as [->|[-> _]]; [|done]. exists (<[k := g']> gs). split; [|by apply all_know_step].
  unfold process_response. rewrite decide_True by (intros E; apply Hkj; by apply Nat2Z.inj).
  unfold sbind. rewrite (on_node _ gs k g Hg), Hr. done.
Qed.

(** One response to all generators but the one that made it. *)
Lemma respond_all C i j o gs :
  all_know C gs → (∀ k, (k < n)%nat → i = k ∧ TStart k ∈ C ∨ TDeal i k ∈ C) → (∀ k, TResp i j k ∉ C) →
  (j = i ∧ o = None ∨ j ≠ i ∧ ∃ r, o = Some r ∧ valid_resp pks i j r) →
  ∃ C' gs', sforM (λ _ k, process_response (Z.of_nat j) k o) tt all gs = (Ret tt, gs') ∧ all_know C' gs' ∧
    ∀ t, t ∈ C' ↔ t ∈ C ∨ ∃ k, (k < n)%nat ∧ k ≠ j ∧ j ≠ i ∧ t = TResp i j k.
Proof.
  intros Hall Hd HC Ho.
  destruct (sforM_inv (λ l _ gs, ∃ C', all_know C' gs ∧
      ∀ t, t ∈ C' ↔ t ∈ C ∨ ∃ k, (k < length l)%nat ∧ k ≠ j ∧ j ≠ i ∧ t = TResp i j k)
    (λ _ k, process_response (Z.of_nat j) k o) all tt gs) as ([] & gs' & -> & C' & Hall' & HC').
  - intros l1 a l2 [] gs1 [-> Hlt]%all_split (C1 & Hall1 & HC1). rewrite length_app. cbn [length].
    destruct (decide (j ≠ i ∧ length l1 ≠ j)) as [[Hji Hlj]|Hskip].
    + destruct Ho as [[-> _]|(_ & r & -> & Hv)]; [done|].
      destruct (respond_one C1 i j gs1 (length l1) r Hall1 Hlt) as (gs2 & Hrun & Hall2); [|done..| |done|].
      { destruct (Hd _ Hlt) as [[-> ?]|?]; [left; split; [done|]|right]; apply HC1; by left. }
      { rewrite HC1. intros [H|(k & Hk & _ & _ & [= <-])]; [by apply HC in H|lia]. }
      exists tt, gs2. split; [done|]. eexists. split; [exact Hall2|]. intros t. rewrite elem_of_cons, HC1. split.
      * intros [->|[?|(k & ? & ? & ? & ->)]]; [right; exists (length l1); split; [lia|done]|by left|right; exists k; split; [lia|done]].
      * intros [?|(k & Hk & ? & ? & ->)]; [by right; left|]. destruct (decide (k = length l1)) as [->|]; [by left|].
        right. right. exists k. split; [lia|done].
    + exists tt, gs1. split.
      { destruct Ho as [[_ ->]|(Hji & r & -> & _)]; [done|]. unfold process_response. rewrite decide_False; [done|].
        intros E. apply Hskip. split; [done|]. intros <-. done. }
      exists C1. split; [done|]. intros t. rewrite HC1. split; (intros [?|(k & Hk & H1 & H2 & ->)]; [by left|right; exists k]).
      * split; [lia|done].
      * split; [|done]. destruct (decide (k = length l1)) as [->|]; [by destruct Hskip|lia].
  - exists C. split; [done|]. intros t. cbn. split; [by left|]. intros [?|(k & ? & _)]; [done|lia].
  - exists C', gs'. rewrite length_fmap, length_seq in HC'. done.
Qed.

Lemma respond_row C i row gs :
  all_know C gs → (∀ k, (k < n)%nat → i = k ∧ TStart k ∈ C ∨ TDeal i k ∈ C) → (∀ j k, TResp i j k ∉ C) → row_ok i row →
  ∃ C' gs',
    sforM (λ _ '(j, r), sforM (λ _ k, process_response j k r) tt all) tt (imap (λ j r, (Z.of_nat j, r)) row) gs
      = (Ret tt, gs') ∧ all_know C' gs' ∧
    ∀ t, t ∈ C' ↔ t ∈ C ∨ ∃ j k, (j < n)%nat ∧ (k < n)%nat ∧ k ≠ j ∧ j ≠ i ∧ t = TResp i j k.
Proof.
  intros Hall Hd HC [Hlen Hrow].
  destruct (sforM_inv (λ l _ gs, ∃ C', all_know C' gs ∧
      ∀ t, t ∈ C' ↔ t ∈ C ∨ ∃ j k, (j < length l)%nat ∧ (k < n)%nat ∧ k ≠ j ∧ j ≠ i ∧ t = TResp i j k)
    (λ _ '(j, r), sforM (λ _ k, process_response j k r) tt all) (imap (λ j r, (Z.of_nat j, r)) row) tt gs)
    as ([] & gs' & -> & C' & Hall' & HC').
  - intros l1 [z o] l2 [] gs1 E (C1 & Hall1 & HC1). rewrite length_app. cbn [length].
    assert (∃ o', row !! length l1 = Some o' ∧ (Z.of_nat (length l1), o') = (z, o)) as (o' & Ho & [= <- <-]).
    { assert (imap (λ j r, (Z.of_nat j, r)) row !! length l1 = Some (z, o)) as Hz by (rewrite E; by apply list_lookup_middle).
      rewrite list_lookup_imap in Hz. apply fmap_Some in Hz as (o' & Ho' & Heq). by exists o'. }
    destruct (respond_all C1 i (length l1) o' gs1 Hall1) as (C2 & gs2 & Hrun & Hall2 & HC2); [|..|by apply Hrow|].
    + intros k Hk. destruct (Hd k Hk) as [[? ?]|?]; [left; split; [done|]|right]; apply HC1; by left.
    + intros k. rewrite HC1. intros [H|(j & k' & Hj & _ & _ & _ & [= <- _])]; [by apply HC in H|lia].
    + exists tt, gs2. split; [done|]. exists C2. split; [done|]. intros t. rewrite HC2, HC1. split.
      * intros [[?|(j & k & ? & ? & ? & ? & ->)]|(k & ? & ? & ? & ->)]; [by left|right; exists j, k; split; [lia|done]|].
        right. exists (length l1), k. split; [lia|done].
      * intros [?|(j & k & Hj & ? & ? & ? & ->)]; [by left; left|]. destruct (decide (j = length l1)) as [->|].
        -- right. by exists k.
        -- left. right. exists j, k. split; [lia|done].
  - exists C. split; [done|]. intros t. cbn. split; [by left|]. intros [?|(j & k & ? & _)]; [done|lia].
  - exists C', gs'. rewrite length_imap, Hlen in HC'. done.
Qed.

Definition all_answered (C : list Tag) : Prop :=
  (∀ i, (i < n)%nat → TStart i ∈ C) ∧
  (∀ i k, (i < n)%nat → (k < n)%nat → k ≠ i → TDeal i k ∈ C) ∧
  (∀ i j k, (i < n)%nat → (j < n)%nat → (k < n)%nat → k ≠ j → j ≠ i → TResp i j k ∈ C).

Lemma process_responses_ok C rows gs :
  all_know C gs → all_dealt C → length rows = n → (∀ i row, rows !! i = Some row → row_ok i row) →
  ∃ C' gs', process_responses rows gs = (Ret tt, gs') ∧ all_know C' gs' ∧ all_answered C'.
Proof.
  intros Hall HC Hlen Hrows. unfold process_responses, sbind, sget. rewrite (nodes_all _ _ Hall).
  assert (∀ i k, (i < n)%nat → (k < n)%nat → i = k ∧ TStart k ∈ C ∨ TDeal i k ∈ C) as Hd.
  { intros i k Hi Hk. destruct (decide (i = k)) as [->|Hne]; [left; split; [done|]|right]; apply HC; [left; by exists k|].
    right. exists i, k. done. }
  assert (∀ i j k, TResp i j k ∉ C) as Hno.
  { intros i j k. rewrite (HC (TResp i j k)). intros [(? & _ & [=])|(? & ? & _ & _ & _ & [=])]. }
  destruct (sforM_inv (λ l _ gs, ∃ C', all_know C' gs ∧ ∀ t, t ∈ C' ↔ t ∈ C ∨
      ∃ i j k, (i < length l)%nat ∧ (j < n)%nat ∧ (k < n)%nat ∧ k ≠ j ∧ j ≠ i ∧ t = TResp i j k)
    (λ _ resp, sforM (λ _ '(j, r), sforM (λ _ k, process_response j k r) tt all) tt (imap (λ j r, (Z.of_nat j, r)) resp))
    rows tt gs) as ([] & gs' & -> & C' & Hall' & HC').
  - intros l1 row l2 [] gs1 E (C1 & Hall1 & HC1). rewrite length_app. cbn [length].
    assert (rows !! length l1 = Some row) as Hrow by (rewrite E; by apply list_lookup_middle).
    pose proof (lookup_lt_Some _ _ _ Hrow) as Hlt. rewrite Hlen in Hlt.
    destruct (respond_row C1 (length l1) row gs1 Hall1) as (C2 & gs2 & Hrun & Hall2 & HC2); [|..|by apply Hrows|].
    + intros k Hk. destruct (Hd _ k Hlt Hk) as [[? ?]|?]; [left; split; [done|]|right]; apply HC1; by left.
    + intros j k. rewrite HC1. intros [H|(i & j' & k' & Hi & _ & _ & _ & _ & [= <- _ _])]; [by apply Hno in H|lia].
    + exists tt, gs2. split; [done|]. exists C2. split; [done|]. intros t. rewrite HC2, HC1. split.
      * intros [[?|(i & j & k & ? & Hx)]|(j & k & ?)]; [by left|right; exists i, j, k; split; [lia|done]|].
        right. exists (length l1), j, k. split; [lia|done].
      * intros [?|(i & j & k & Hi & Hx)]; [by left; left|]. destruct (decide (i = length l1)) as [->|].
        -- right. by exists j, k.
        -- left. right. exists i, j, k. split; [lia|done].
  - exists C. split; [done|]. intros t. cbn. split; [by left|]. intros [?|(i & j & k & ? & _)]; [done|lia].
  - exists C', gs'. split; [done|]. split; [done|]. rewrite Hlen in HC'. split; [|split].
    + intros i Hi. apply HC'. left. apply HC. left. by exists i.
    + intros i k Hi Hk Hne. apply HC'. left. apply HC. right. by exists i, k.
    + intros i j k Hi Hj Hk Hkj Hji. apply HC'. right. by exists i, j, k.
Qed.

(** ** Commits *)

Lemma all_answered_cons C t : all_answered C → all_answered (t :: C).
Proof. intros (Hs & Hd & Hr). split; [|split]; intros; right; auto. Qed.

(** A generator that has been handed everything but commits is certified. *)
Lemma answered_certified C k g :
  knows pks F C k g → all_answered C → (k < n)%nat →
  certified (view g) ∧ ∀ i, (i < n)%nat → v_deals (view g) !! i = Some (F i).
Proof.
  intros [Kp Km Kf Kd Kr Kc] (Hs & Hd & Hr) Hk.
  assert (∀ i, (i < n)%nat → v_deals (view g) !! i = Some (F i)) as Hdeals.
  { intros i Hi. apply Kd. split; [|done]. destruct (decide (k = i)) as [->|Hne]; [left; split; [done|by apply Hs]|].
    right. by apply Hd. }
  split; [|done]. unfold certified. rewrite Kp. split; [eauto|]. intros i j Hi Hj Hij. apply Kr; [done|].
  destruct (decide (j = k)) as [->|Hne]; [right; split; [done|]; by apply Hd|left; by apply Hr].
Qed.

Lemma secret_commits C k g :
  knows pks F C k g → all_answered C → (k < n)%nat →
  ∃ c g', SecretCommits g = (Ret c, g') ∧ view g' = view g ∧ valid_commit pks k (F k) c.
Proof.
  intros Hkn Ha Hk. destruct (answered_certified C k g Hkn Ha Hk) as [[_ Hcert] _].
  destruct Hkn as [Kp Km Kf _ _ _]. rewrite Kp in Hcert.
  destruct (SecretCommits_ok g) as (o & g' & Hg & Hv & Ho). rewrite Kp, Km, Kf in Ho.
  destruct o as [c|e|w|]; [by exists c, g'| |done..]. destruct Ho. intros j Hj Hne. apply Hcert; [done..|congruence].
Qed.

Lemma process_commit_ok C i gs :
  all_know C gs → all_answered C → (i < n)%nat →
  ∃ C' gs', process_commit (Z.of_nat i) gs = (Ret tt, gs') ∧ all_know C' gs' ∧ all_answered C' ∧ C ⊆ C' ∧
    ∀ k, (k < n)%nat → TCommit i k ∈ C'.
Proof.
  intros Hall Ha Hi. destruct (lookup_lt_is_Some_2 gs i) as [g Hg]; [by rewrite (proj1 Hall)|].
  destruct (secret_commits C i g (proj2 Hall i g Hg) Ha Hi) as (c & g' & Hc & Hv & Hval).
  unfold process_commit. unfold sbind at 1. rewrite (on_node _ gs i g Hg), Hc. cbn [fst snd].
  pose proof (all_know_view C gs i g g' Hall Hg Hv) as Hall1. unfold sbind at 1, sget. rewrite (nodes_all _ _ Hall1).
  destruct (sforM_inv (λ l _ gs, ∃ C', all_know C' gs ∧ all_answered C' ∧ C ⊆ C' ∧ ∀ k, (k < length l)%nat → TCommit i k ∈ C')
    (λ _ k, do! compl := on k (ProcessSecretCommits c) in
      match compl with Some _ => sthrow "there should be no complaint" | None => sret tt end) all tt (<[i := g']> gs))
    as ([] & gs' & -> & C' & Hall' & Ha' & Hsub & HC').
  - intros l1 a l2 [] gs1 [-> Hlt]%all_split (C1 & Hall2 & Ha1 & Hsub & HC1). rewrite length_app. cbn [length].
    destruct (lookup_lt_is_Some_2 gs1 (length l1)) as [g1 Hg1]; [by rewrite (proj1 Hall2)|].
    pose proof (proj2 Hall2 _ _ Hg1) as Hk1. destruct (answered_certified C1 _ g1 Hk1 Ha1 Hlt) as [Hcert Hdeals].
    destruct (knows_commit pks F C1 (length l1) g1 i c Hk1 Hcert (Hdeals i Hi) Hval) as (g2 & Hp & Hg2).
    exists tt, (<[length l1 := g2]> gs1). split.
    { unfold sbind. rewrite (on_node _ gs1 _ g1 Hg1), Hp. done. }
    exists (TCommit i (length l1) :: C1). split; [by apply all_know_step|]. split; [by apply all_answered_cons|].
    split; [by apply list_subseteq_cons|]. intros k Hk. destruct (decide (k = length l1)) as [->|]; [by left|].
    right. apply HC1. lia.
  - exists C. split; [done|]. split; [done|]. split; [done|]. cbn. intros k Hk. lia.
  - exists C', gs'. split; [done|]. split; [done|]. split; [done|]. split; [done|]. intros k Hk. apply HC'.
    by rewrite length_fmap, length_seq.
Qed.

Lemma exchange_commits_ok C gs :
  all_know C gs → all_answered C →
  ∃ C' gs', exchange_commits gs = (Ret tt, gs') ∧ all_know C' gs' ∧ all_answered C' ∧
    ∀ i k, (i < n)%nat → (k < n)%nat → TCommit i k ∈ C'.
Proof.
  intros Hall Ha. unfold exchange_commits, sbind, sget. rewrite (nodes_all _ _ Hall).
  destruct (sforM_inv (λ l _ gs, ∃ C', all_know C' gs ∧ all_answered C' ∧
      ∀ i k, (i < length l)%nat → (k < n)%nat → TCommit i k ∈ C') (λ _ i, process_commit i) all tt gs)
    as ([] & gs' & -> & C' & Hall' & Ha' & HC').
  - intros l1 a l2 [] gs1 [-> Hlt]%all_split (C1 & Hall1 & Ha1 & HC1). rewrite length_app. cbn [length].
    destruct (process_commit_ok C1 (length l1) gs1 Hall1 Ha1 Hlt) as (C2 & gs2 & Hrun & Hall2 & Ha2 & Hsub & HC2).
    exists tt, gs2. split; [done|]. exists C2. split; [done|]. split; [done|]. intros i k Hi Hk.
    destruct (decide (i = length l1)) as [->|]; [by apply HC2|]. apply Hsub, HC1; [lia|done].
  - exists C. split; [done|]. split; [done|]. cbn. intros i k Hi. lia.
  - exists C', gs'. split; [done|]. split; [done|]. split; [done|]. intros i k Hi Hk. apply HC'; [|done].
    by rewrite length_fmap, length_seq.
Qed.

(** The generators at the end. *)
Definition shares (p : list Scalar) (gs : list DistKeyGenerator) : Prop :=
  ∀ k g, gs !! k = Some g → Finished g = true ∧
    ∃ X, SetupDKG.NewSharedSecret (Some g) =
      Ret {| ss_Index := Z.of_nat k; ss_V := share_at p (Z.of_nat k); ss_X := X |} ∧ X ≡ point_mul None (share_secret p).

Lemma exchange_ok gs :
  all_know [] gs → ∃ gs', exchange gs = (Ret tt, gs') ∧ length gs' = n ∧ shares (poly_total n F) gs'.
Proof.
  intros H0. unfold exchange. destruct (exchange_deals_ok gs H0) as (C1 & rows & gs1 & H1 & Hall1 & Hd & Hlen & Hrows).
  destruct (process_responses_ok C1 rows gs1 Hall1 Hd Hlen Hrows) as (C2 & gs2 & H2 & Hall2 & Ha2).
  destruct (exchange_commits_ok C2 gs2 Hall2 Ha2) as (C3 & gs3 & H3 & Hall3 & Ha3 & HC3).
  unfold sbind, sget. rewrite H1, H2, H3.
  assert (shares (poly_total n F) gs3) as Hsh.
  { intros k g Hg. pose proof (proj2 Hall3 k g Hg) as Hk. apply lookup_lt_Some in Hg as Hlt. rewrite (proj1 Hall3) in Hlt.
    destruct (answered_certified C3 k g Hk Ha3 Hlt) as [Hcert Hdeals].
    apply (knows_finished pks F C3 k g Hk Hcert Hdeals). intros i Hi. by apply HC3. }
  exists gs3. split; [|split; [apply (proj1 Hall3)|done]]. rewrite (proj2 (forallb_forall _ _)); [done|].
  intros g Hg%list_elem_of_In. apply list_elem_of_lookup in Hg as [k Hk]. by apply (Hsh k g).
Qed.
End create.

(** ** The theorem *)
Section theorem.
Context {S : Suite} {SL : SuiteLaws S} {D : DkgLib S} {DL : DkgLaws D}.

Definition fresh_view (pks : list Point) (k : nat) (f : list Scalar) : View :=
  {| v_publics := pks; v_me := k; v_poly := f; v_deals := ∅; v_resps := ∅; v_commits := ∅ |}.

Lemma new_generators_ok scalars t random :
  let points := point_mul None <$> scalars in
  distinct_keys points → 2 <= t <= Z.of_nat (length scalars) →
  ∃ gs random', new_generators scalars points t random = (Ret gs, random') ∧ length gs = length scalars ∧
    ∀ k g, gs !! k = Some g → ∃ f, length f = Z.to_nat t ∧ view g = fresh_view points k f.
Proof.
  intros points Hd Ht. unfold new_generators.
  destruct (sforM_inv (λ l gs (_ : Stream), length gs = length l ∧
      ∀ k g, gs !! k = Some g → ∃ f, length f = Z.to_nat t ∧ view g = fresh_view points k f)
    (λ gs s, do! g := (λ random, NewDistKeyGenerator s (Some <$> points) random t) in sret (gs ++ [g])) scalars [] random)
    as (gs & random' & -> & Hl & Hgs); [| |by exists gs, random'].
  - intros l1 s l2 gs random1 E [Hl Hgs].
    destruct (NewDistKeyGenerator_ok s points (length l1) (point_mul None s) random1 t Hd) as (g & f & Hg & Hf & Hv).
    + unfold points. rewrite E, list_lookup_fmap, list_lookup_middle by done. done.
    + reflexivity.
    + unfold points. by rewrite length_fmap.
    + unfold sbind. destruct (NewDistKeyGenerator s (Some <$> points) random1 t) as [r random2]. cbn [fst] in Hg. subst r.
      exists (gs ++ [g]), random2. split; [done|]. rewrite !length_app. cbn. split; [lia|].
      intros k g' [[_ Hk]|[-> <-]]%lookup_snoc_Some; [by apply Hgs|]. rewrite Hl. by exists f.
  - split; [done|]. intros k g Hk. by rewrite lookup_nil in Hk.
Qed.

Lemma pick_scalars_length k random : length (pick_scalars k random).1 = k.
Proof.
  revert random. induction k as [|k IH]; intros random; [done|]. cbn. destruct (scalar_pick random) as [s random1].
  specialize (IH random1). destruct (pick_scalars k random1). cbn in *. by rewrite IH.
Qed.

Lemma total_length k (F : nat → list Scalar) m : (∀ i, (length (F i) <= m)%nat) → (length (poly_total k F) <= m)%nat.
Proof.
  intros HF. unfold poly_total. induction (seq 0 k) as [|i l IH]; cbn; [lia|]. by apply length_poly_add.
Qed.

(** C8: [CreateDKGs], when the scalars it draws have different public keys and the
    threshold is between two and the number of nodes: with honest generators no
    call fails and none is left out, it returns that many generators, all of them
    finished, and they hold shares, with their position as index, of one secret
    whose public key they agree on, on a polynomial of at most [threshold]
    coefficients. *)
Theorem create_dkgs_correct (nbrNodes threshold : Z) (random : Stream) :
  distinct_keys (point_mul None <$> (pick_scalars (Z.to_nat nbrNodes) random).1) → 2 <= threshold <= nbrNodes →
  ∃ dkgs random' p, CreateDKGs nbrNodes threshold random = (Ret dkgs, random') ∧
    length dkgs = Z.to_nat nbrNodes ∧ (length p <= Z.to_nat threshold)%nat ∧ shares p dkgs.
Proof.
  intros Hd Ht. unfold CreateDKGs. destruct (Z.ltb_spec nbrNodes 0) as [Hneg|_]; [lia|].
  pose proof (pick_scalars_length (Z.to_nat nbrNodes) random) as Hlen.
  destruct (pick_scalars (Z.to_nat nbrNodes) random) as [scalars random1]. cbn [fst] in *.
  destruct (new_generators_ok scalars threshold random1 Hd) as (gs & random2 & Hgs & Hl & Hviews); [lia|].
  set (F := λ k, match gs !! k with Some g => v_poly (view g) | None => [] end).
  set (pks := point_mul None <$> scalars) in *.
  assert (all_know pks F [] gs) as Hall.
  { split; [unfold pks; rewrite length_fmap; lia|]. intros k g Hk. destruct (Hviews k g Hk) as (f & _ & Hv).
    assert (F k = f) as HF by (unfold F; rewrite Hk, Hv; done). split; rewrite Hv; cbn; try done.
    - intros i f'. rewrite lookup_empty. split; [done|]. by intros [[[_ []%elem_of_nil]|[]%elem_of_nil] _].
    - intros i j _. split; [by intros []%elem_of_empty|]. by intros [[]%elem_of_nil|[_ []%elem_of_nil]].
    - by intros i []%elem_of_nil. }
  destruct (exchange_ok pks F gs Hall) as (gs' & Hrun & Hl' & Hsh). unfold pks in Hl'. rewrite length_fmap in Hl'.
  exists gs', random2, (poly_total (length pks) F). unfold sbind. rewrite Hgs, Hrun. split; [done|].
  split; [lia|]. split; [|done]. apply total_length. intros i. unfold F. destruct (gs !! i) as [g|] eqn:Hi; [|cbn; lia].
  destruct (Hviews i g Hi) as (f & Hf & Hv). rewrite Hv. cbn. lia.
Qed.
End theorem.
End CreateDKGs.

(** ** Witness *)
Module CreateExample.
Import ZSuite DkgExample CreateDKGs.

Lemma create_dkgs_correct_witness :
  ∃ dkgs random', CreateDKGs (S := Zsuite) 3 2 100 = (Ret dkgs, random') ∧ length dkgs = 3%nat ∧
    ∀ k g, dkgs !! k = Some g → Finished g = true.
Proof.
  destruct (create_dkgs_correct (S := Zsuite) 3 2 100) as (dkgs & random' & p & Hrun & Hl & _ & Hsh); [|lia|].
  - intros i j a b Ha Hb E. unfold equiv in E. cbn in E. subst b.
    change (([101; 81; 470] : list Z) !! i = Some a) in Ha. change (([101; 81; 470] : list Z) !! j = Some a) in Hb.
    destruct i as [|[|[|i]]], j as [|[|[|j]]]; cbn in Ha, Hb; try done; congruence.
  - exists dkgs, random'. split; [exact Hrun|]. split; [exact Hl|]. intros k g Hk. by apply (Hsh k g).
Defined.
End CreateExample.
