(* ===== verification/OcsService.v ===== *)
(** * The onchain-secrets service ([onchain-secrets/service.go])

    The state of the service of one node and its handlers.  The rest of the
    system (the other nodes, the network, the clock) is a value [World] that
    the calls leaving the node may change; such a call may also change the
    service's own state, as other handlers run meanwhile: [OcsEnv] is the record
    of these calls and [OcsEnvLaws] says what they keep. *)
From S2P Require Import Prelude Sha256 Suite Schnorr Tree Skipchain Bunch ClientError Messages.
From S2P Require Import Reencrypt.
Local Open Scope Z_scope.

Definition ErrorParameter : Z := 4000.
Definition ErrorProtocol : Z := 4001.

(** What [network.Marshal] writes for a [Storage] is opaque; [None] is data
    of another type. *)
Section state.
Context {S : Suite} {U : UuidLib} {World : Type}.

(** [Storage]: the bunches with the blocks they point to, and the secrets by
    genesis ID. *)
Record StorageData := {
  st_heap : Heap;
  OCSs : SBBStorage;
  Shared : gmap bytes SharedSecret;
}.

Record Service := {
  st : StorageData;
  disk : option bytes;
  me : ServerIdentity;
  world : World;
}.

Definition set_st (s : Service) (d : StorageData) : Service :=
  {| st := d; disk := disk s; me := me s; world := world s |}.
Definition set_blocks (s : Service) (h : Heap) (o : SBBStorage) : Service :=
  set_st s {| st_heap := h; OCSs := o; Shared := Shared (st s) |}.
Definition set_Shared (s : Service) (k : bytes) (sh : SharedSecret) : Service :=
  set_st s {| st_heap := st_heap (st s); OCSs := OCSs (st s);
              Shared := <[k := sh]> (Shared (st s)) |}.
Definition set_disk (s : Service) (b : bytes) : Service :=
  {| st := st s; disk := Some b; me := me s; world := world s |}.
End state.
Arguments Service : clear implicits. Arguments Service {S} World.

(** How the DKG of [CreateSkipchains] ends. *)
Inductive dkg_end {S : Suite} :=
  | DkgNil
  | DkgStartFailed (e : error)
  | DkgTimeout
  | DkgDone (r : outcome error SharedSecret).

Section env.
Context {S : Suite} {U : UuidLib} {P : PvssLib S}.

Class OcsEnv (World : Type) := {
  (** [skipchain.ErrorBlockInProgress]. *)
  ErrorBlockInProgress : Z;
  CreateGenesis : option Roster → Ocs.DataOCS → SM (Service World) ClientError SkipBlock;
  StoreSkipBlock : SkipBlock → option Roster → Ocs.DataOCS →
                   SM (Service World) ClientError SkipBlock;
  GetSingleBlock : option Roster → SkipBlockID → SM (Service World) ClientError SkipBlock;
  propagateOCS : option Roster → ptr → SM (Service World) error Z;
  (** [CreateProtocol], [Start] and [Done] of the DKG. *)
  run_dkg : Trees.Tree → bytes → SM (Service World) ClientError dkg_end;
  (** The secrets the service of another node holds. *)
  peer_shared : World → ServerIdentity → gmap bytes SharedSecret;
  (** The supply of random UUIDs. *)
  uuid_supply : World → nat;
  MarshalStorage : StorageData → outcome error bytes;
  UnmarshalStorage : bytes → outcome error (option StorageData);
  WriteFile : bytes → World → outcome error unit;
  (** The order in which ranging over a map visits its entries. *)
  bunch_order : World → nat → SBBStorage → list SkipBlockBunch;
  block_order : World → SkipBlockBunch → list ptr;
}.

Definition SInv {L : SkipchainLib} {World} (s : Service World) : Prop :=
  StorageInv (st_heap (st s)) (OCSs (st s)).

(** What happens to the blocks of a service while time passes: the storage
    stays well formed, blocks only grow, and no bunch or block is lost. *)
Definition blocks_evolve {L : SkipchainLib} (h : Heap) (o : SBBStorage) (h' : Heap)
    (o' : SBBStorage) : Prop :=
  StorageInv h' o' ∧ heap_grows h h' ∧
  (∀ g id p, Storage.GetFromGenesisByID o g id = Some p →
             Storage.GetFromGenesisByID o' g id = Some p) ∧
  (∀ g, is_Some (o !! g) → is_Some (o' !! g)).

Definition evolves {L : SkipchainLib} {World} (s s' : Service World) : Prop :=
  me s' = me s ∧
  (SInv s → blocks_evolve (st_heap (st s)) (OCSs (st s)) (st_heap (st s')) (OCSs (st s'))).

#[global] Instance evolves_preorder {L : SkipchainLib} {World} : PreOrder (evolves (World := World)).
Proof.
  split.
  - intros s. split; [done|]. intros HI. split; [done|]. split; [reflexivity|]. done.
  - intros s1 s2 s3 [M1 H1] [M2 H2]. split; [congruence|].
    intros HI. destruct (H1 HI) as (I2 & G1 & F1 & B1).
    destruct (H2 I2) as (I3 & G2 & F2 & B2).
    split; [done|]. split; [by etrans|]. split; auto.
Qed.

Class OcsEnvLaws {L : SkipchainLib} {World} (Env : OcsEnv World) : Prop := {
  CreateGenesis_evolves r d : preserves evolves (CreateGenesis r d);
  StoreSkipBlock_evolves sb r d : preserves evolves (StoreSkipBlock sb r d);
  GetSingleBlock_evolves r id : preserves evolves (GetSingleBlock r id);
  propagateOCS_evolves r p : preserves evolves (propagateOCS r p);
  run_dkg_evolves t c : preserves evolves (run_dkg t c);
  bunch_order_perm w n s : bunch_order w n s ≡ₚ (map_to_list s).*2;
  block_order_perm w b : range_of b (block_order w b);
}.
End env.

Module OcsService.
Section service.
Context {S : Suite} {U : UuidLib} {P : PvssLib S} {L : SkipchainLib} {C : Codec P}.
Context {SL : ShareLib S} {World : Type} {Env : OcsEnv World}.

Abbreviation M := (SM (Service World) ClientError).

(** ** Small steps *)

Definition of_error {A} (c : outcome error A) : outcome ClientError A :=
  omap_err (NewClientErrorCode ErrorProtocol) c.
Definition protocol_error {A} (c : SM (Service World) error A) : M A := λ s,
  (of_error (c s).1, (c s).2).

(** A block that arrives is a new object. *)
Definition alloc (sb : SkipBlock) : M ptr :=
  do! s := sget in
  let p := fresh (dom (st_heap (st s))) in
  do! _ := sput (set_blocks s (<[p := sb]> (st_heap (st s))) (OCSs (st s))) in
  sret p.
Definition load (p : ptr) : M SkipBlock :=
  do! s := sget in slift (deref (st_heap (st s) !! p)).
Definition bunch_at (g : SkipBlockID) : M SkipBlockBunch :=
  do! s := sget in slift (deref (OCSs (st s) !! g)).
Definition latest_roster (g : SkipBlockID) : M (option Roster) :=
  do! b := bunch_at g in
  do! l := load (Latest b) in
  sret (sb_Roster (sb_Fix l)).

(** [s.Storage.OCSs.GetByID(id)]; [n] counts the calls of one handler. *)
Definition get_by_id (s : Service World) (n : nat) (id : SkipBlockID) : option ptr :=
  Storage.GetByID (bunch_order (world s) n (OCSs (st s))) id.

(** [bunch.Store(sb)] and [s.Storage.OCSs.Store(sb)]. *)
Definition bunch_store (g : SkipBlockID) (p : ptr) : M (option SkipBlockID) :=
  do! bunch := bunch_at g in
  do! s := sget in
  do! (h, bunch, id) := slift (of_error (Bunch.Store (st_heap (st s)) bunch p)) in
  do! _ := sput (set_blocks s h (<[g := bunch]> (OCSs (st s)))) in
  sret id.
Definition storage_store (p : ptr) : M unit :=
  do! s := sget in
  do! (h, o) := slift (of_error (Storage.Store (st_heap (st s)) (OCSs (st s)) p)) in
  sput (set_blocks s h o).

(** ** Handlers *)

(** [BunchAddBlock]: the bunch is given by its genesis ID. *)
Definition BunchAddBlock (g : SkipBlockID) (r : option Roster) (data : Ocs.DataOCS) : M ptr :=
  do! bunch := bunch_at g in
  do! latest := load (Latest bunch) in
  do! sbNew := StoreSkipBlock latest r data in
  do! sbNew := alloc sbNew in
  do! id := bunch_store g sbNew in
  match id with
  | None => sthrow (NewClientErrorCode ErrorProtocol "Couldn't add block to bunch")
  | Some _ => sret sbNew
  end.

(** The loop of the three writing handlers: try again while another block is
    being added. *)
Fixpoint add_retry (fuel : nat) (g : SkipBlockID) (r : option Roster) (data : Ocs.DataOCS)
    : M ptr := λ s,
  match fuel with
  | O => (OutOfFuel, s)
  | Datatypes.S fuel =>
      match BunchAddBlock g r data s with
      | (Err cerr, s) =>
          if ErrorCode cerr =? ErrorBlockInProgress then add_retry fuel g r data s
          else (Err cerr, s)
      | r => r
      end
  end.

(** The end of these handlers: the block is sent to the roster of the latest
    block. *)
Definition propagate_latest (g : SkipBlockID) (sb : ptr) : M ptr :=
  do! r := latest_roster g in
  do! replies := protocol_error (propagateOCS r sb) in
  do! r := latest_roster g in
  do! _ := slift (deref r) in
  sret sb.

(** The roster of the genesis block of the chain [id], or the error message. *)
Definition find_chain (missing : string) (id : SkipBlockID) : M (option Roster) :=
  do! s := sget in
  match Storage.GetBunch (OCSs (st s)) id with
  | None => sthrow (NewClientErrorCode ErrorParameter missing)
  | Some ocsBunch =>
      match Bunch.GetByID ocsBunch id with
      | None => sthrow (NewClientErrorCode ErrorParameter "Didn't find block-skipchain")
      | Some block => do! block := load block in sret (sb_Roster (sb_Fix block))
      end
  end.

Definition WriteRequest (fuel : nat) (req : Ocs.WriteRequest) : M ptr :=
  do! r := find_chain "didn't find that bunch" (Ocs.wr_OCS req) in
  let data := {| Ocs.d_Write := Ocs.wr_Write req; Ocs.d_Read := None;
                 Ocs.d_Readers := Ocs.wr_Readers req; Ocs.d_OTSWrite := None |} in
  do! sb := add_retry fuel (Ocs.wr_OCS req) r data in
  propagate_latest (Ocs.wr_OCS req) sb.

Definition OTSWriteRequest (fuel : nat) (req : Ocs.OTSWriteRequest) : M ptr :=
  do! r := find_chain "didn't find that bunch" (Ocs.owr_OCS req) in
  let data := {| Ocs.d_Write := None; Ocs.d_Read := None;
                 Ocs.d_Readers := Ocs.owr_Readers req; Ocs.d_OTSWrite := Ocs.owr_Write req |} in
  do! sb := add_retry fuel (Ocs.owr_OCS req) r data in
  propagate_latest (Ocs.owr_OCS req) sb.

(** The reader is logged first, so a request without [Read] is a panic. *)
Definition ReadRequest (fuel : nat) (req : Ocs.ReadRequest) : M ptr :=
  do! _ := slift (deref (Ocs.rr_Read req)) in
  do! r := find_chain "didn't find that block" (Ocs.rr_OCS req) in
  let data := {| Ocs.d_Write := None; Ocs.d_Read := Ocs.rr_Read req;
                 Ocs.d_Readers := None; Ocs.d_OTSWrite := None |} in
  do! sb := add_retry fuel (Ocs.rr_OCS req) r data in
  propagate_latest (Ocs.rr_OCS req) sb.

(** [CreateSkipchains]: the genesis block and the collective key. *)
Definition CreateSkipchains (r : option Roster) : M (ptr * Point) :=
  let ocsData := {| Ocs.d_Write := None; Ocs.d_Read := None; Ocs.d_Readers := None;
                    Ocs.d_OTSWrite := None |} in
  do! ocs := CreateGenesis r ocsData in
  do! p := alloc ocs in
  do! _ := protocol_error (propagateOCS r p) in
  do! r := slift (deref r) in
  do! s := sget in
  do! (tree, _) := slift (of_error (Trees.GenerateNaryTreeWithRoot r
                     (Z.of_nat (length (Rosters.List r))) (me s) (uuid_supply (world s)))) in
  do! tree := slift (deref tree) in
  do! ocs := load p in
  do! e := run_dkg tree (Hash ocs) in
  match e with
  | DkgNil => slift (Panic "interface conversion: nil is not *SetupDKG")
  | DkgStartFailed e => sthrow (NewClientErrorCode ErrorProtocol e)
  | DkgTimeout => sthrow (NewClientErrorCode ErrorProtocol "dkg didn't finish in time")
  | DkgDone r =>
      do! shared := slift (of_error r) in
      do! s := sget in
      do! _ := sput (set_Shared s (Hash ocs) shared) in
      sret (p, ss_X shared)
  end.

(** The loop of [GetReadRequests]; [OutOfFuel] is a request that goes on. *)
Fixpoint read_loop (fuel : nat) (s : Service World) (Count : Z) (doc : SkipBlockID)
    (current : option ptr) (Documents : list Ocs.ReadDoc) : outcome ClientError (list Ocs.ReadDoc) :=
  match fuel with
  | O => OutOfFuel
  | Datatypes.S fuel =>
      if negb ((Count =? 0) || (Z.of_nat (length Documents) <? Count)) then Ret Documents
      else
        let! p := deref current in
        let! sb := deref (st_heap (st s) !! p) in
        let next Documents :=
          match ForwardLink sb with
          | fl :: _ =>
              read_loop fuel s Count doc
                (Storage.GetFromGenesisByID (OCSs (st s)) (SkipChainID sb) (bl_Hash fl)) Documents
          | [] => Ret Documents
          end in
        match Unmarshal (Data (sb_Fix sb)) with
        | Ret (MDataOCS dataOCS) =>
            match Ocs.d_Read dataOCS with
            | Some rd =>
                if (Count =? 0) && negb (id_Equal (Ocs.rd_DataID rd) doc)
                then read_loop fuel s Count doc current Documents
                else next (Documents ++ [{| Ocs.doc_Reader := Ocs.rd_Public rd;
                                            Ocs.doc_ReadID := Hash sb;
                                            Ocs.doc_DataID := Ocs.rd_DataID rd |}])
            | None => next Documents
            end
        | Ret _ => Err (NewClientErrorCode ErrorParameter "unknown block in ocs-skipchain")
        | Err _ => next Documents
        | Panic w => Panic w
        | OutOfFuel => OutOfFuel
        end
  end.

Definition GetReadRequests (fuel : nat) (req : Ocs.GetReadRequests) (s : Service World)
    : outcome ClientError (list Ocs.ReadDoc) :=
  match get_by_id s 0 (Ocs.grr_Start req) with
  | None => Err (NewClientErrorCode ErrorParameter "didn't find starting skipblock")
  | Some current =>
      let! doc :=
        if Ocs.grr_Count req =? 0 then
          let! sb := deref (st_heap (st s) !! current) in
          let! dataOCS := of_error (NewDataOCS (Data (sb_Fix sb))) in
          match dataOCS with
          | Some {| Ocs.d_OTSWrite := Some _ |} => Ret (Hash sb)
          | _ => Err (NewClientErrorCode ErrorParameter "id is not a writer-block")
          end
        else Ret [] in
      read_loop fuel s (Ocs.grr_Count req) doc (Some current) []
  end.

Definition SharedPublic (genesis : bytes) (s : Service World) : outcome ClientError Point :=
  match Shared (st s) !! genesis with
  | None => Err (NewClientErrorCode ErrorParameter "didn't find this skipchain")
  | Some shared => Ret (ss_X shared)
  end.

(** [GetBunches]: the genesis blocks, nil when a bunch has lost its own. *)
Definition GetBunches (s : Service World) : list (option ptr) :=
  (λ b, Bunch.GetByID b (bunch_GenesisID b)) <$> bunch_order (world s) 0 (OCSs (st s)).

Definition NameDKG : string := "SetupDKG".
Definition NameOCS : string := "OCS".

Inductive ProtocolInstance := PiNil | PiDKG | PiOCS (o : OCS).

(** [NewProtocol]; the configuration may be nil. *)
Definition NewProtocol (secrets : gmap bytes SharedSecret) (name : string) (conf : option bytes)
    : outcome error ProtocolInstance :=
  if decide (name = NameDKG) then Ret PiDKG
  else if decide (name = NameOCS) then
    let! Data := deref conf in
    match secrets !! Data with
    | None => Err "didn't find skipchain"
    | Some shared =>
        Ret (PiOCS {| o_Shared := Some shared; o_U := None; o_Xc := None; o_Uis := [] |})
    end
  else Ret PiNil.

(** The goroutine [NewProtocol] starts, once the DKG is done. *)
Definition dkg_finished (conf : option bytes) (r : outcome error SharedSecret) : M unit :=
  match r with
  | Ret shared =>
      do! Data := slift (deref conf) in
      do! s := sget in
      sput (set_Shared s Data shared)
  | Err _ => sret tt
  | Panic w => slift (Panic w)
  | OutOfFuel => slift OutOfFuel
  end.

(** The instances the other nodes of the tree make when the first message
    arrives; a node that makes none does not answer. *)
Definition ocs_children (w : World) (conf : bytes) (nodes : list Trees.TreeNode)
    : outcome error (option (list OCS)) :=
  let! kids := omapM (λ n,
    let! si := deref (Trees.tn_ServerIdentity n) in
    match NewProtocol (peer_shared w si) NameOCS (Some conf) with
    | Ret (PiOCS o) => Ret (Some o)
    | _ => Ret None
    end) nodes in
  Ret (mapM id kids).

(** [Start] and the wait for [Done]; [OutOfFuel] when an answer never comes. *)
Definition run_ocs (w : World) (t : Trees.Tree) (conf : bytes) (root : OCS) : outcome error OCS :=
  let! _ := Start root in
  let! nodes := Trees.List t in
  let! kids := ocs_children w conf (tail nodes) in
  match kids with
  | None => OutOfFuel
  | Some kids =>
      let! o := run root kids in
      match o with Some o => Ret o | None => OutOfFuel end
  end.

Definition DecryptKeyRequest (id : SkipBlockID) (s : Service World)
    : outcome ClientError Ocs.DecryptKeyReply :=
  let block n id :=
    let! p := deref (get_by_id s n id) in deref (st_heap (st s) !! p) in
  let! readSB := block 0%nat id in
  let! read := of_error (NewDataOCS (Data (sb_Fix readSB))) in
  match read with
  | Some {| Ocs.d_Read := Some rd |} =>
      let! fileSB := block 1%nat (Ocs.rd_DataID rd) in
      let! file := of_error (NewDataOCS (Data (sb_Fix fileSB))) in
      match file with
      | Some {| Ocs.d_Write := Some write |} =>
          let! r := deref (sb_Roster (sb_Fix fileSB)) in
          let nodes := Z.of_nat (length (Rosters.List r)) in
          let! (tree, _) := of_error (Trees.GenerateNaryTreeWithRoot r nodes (me s)
                                        (uuid_supply (world s))) in
          let! tree := deref tree in
          let secret := Shared (st s) !! GenesisID (sb_Fix fileSB) in
          let! o := of_error (run_ocs (world s) tree (GenesisID (sb_Fix fileSB))
            {| o_Shared := secret; o_U := Ocs.dw_U write; o_Xc := Some (Ocs.rd_Public rd);
               o_Uis := [] |}) in
          let! XhatEnc := of_error (RecoverCommit (o_Uis o) (nodes - 1) nodes) in
          let! secret := deref secret in
          Ret {| Ocs.dk_Cs := Ocs.dw_Cs write; Ocs.dk_XhatEnc := XhatEnc;
                 Ocs.dk_X := ss_X secret |}
      | _ => Err (NewClientErrorCode ErrorParameter "Data-block is broken")
      end
  | _ => Err (NewClientErrorCode ErrorParameter "This is not a read-block")
  end.

(** ** Persistence *)

(** [save]: a failure is only logged. *)
Definition save : M unit :=
  do! s := sget in
  match MarshalStorage (st s) with
  | Ret buf =>
      match WriteFile buf (world s) with
      | Ret _ => sput (set_disk s buf)
      | _ => sret tt
      end
  | Err _ => sret tt
  | Panic w => slift (Panic w)
  | OutOfFuel => slift OutOfFuel
  end.

(** [tryLoad], with what [s.Storage] is afterwards: the failed type assertion
    has already assigned nil. *)
Definition tryLoad (s : Service World) : outcome error unit * option StorageData :=
  match disk s with
  | None => (Ret tt, Some (st s))
  | Some buf =>
      match UnmarshalStorage buf with
      | Ret (Some d) => (Ret tt, Some d)
      | Ret None => (Err "Data of wrong type", None)
      | Err e => (Err e, Some (st s))
      | Panic w => (Panic w, Some (st s))
      | OutOfFuel => (OutOfFuel, Some (st s))
      end
  end.

(** [newService] on a node with the given disk: the error of [tryLoad] is
    logged; [None] is a service whose [Storage] is nil. *)
Definition newService (me : ServerIdentity) (d : option bytes) (w : World)
    : option (Service World) :=
  let s := {| st := {| st_heap := ∅; OCSs := Storage.NewSBBStorage; Shared := ∅ |};
              disk := d; me := me; world := w |} in
  set_st s <$> (tryLoad s).2.

(** ** Propagation *)

(** [propagateOCSFunc]; [None] is a message of another type. *)
Definition propagateOCSFunc (sbI : option ptr) : M unit :=
  match sbI with
  | None => sret tt
  | Some p =>
      do! _ := storage_store p in
      do! sb := load p in
      if Index (sb_Fix sb) =? 0 then sret tt
      else
        do! _ := sforM (λ _ sbID, λ s,
          match GetSingleBlock (sb_Roster (sb_Fix sb)) sbID s with
          | (Ret sbNew, s) => (do! q := alloc sbNew in storage_store q) s
          | (Err _, s) => (Ret tt, s)
          | (Panic w, s) => (Panic w, s)
          | (OutOfFuel, s) => (OutOfFuel, s)
          end) tt (BackLinkIDs (sb_Fix sb)) in
        save
  end.

(** ** Verification of new blocks *)

(** The search for the file: its write and readers. *)
Fixpoint find_write (h : Heap) (range : list ptr) (id : SkipBlockID)
    : outcome error (option (Ocs.DataOTSWrite * option Ocs.DataOCSReaders)) :=
  match range with
  | [] => Ret None
  | p :: range =>
      let! sb := deref (h !! p) in
      let! wd := NewDataOCS (Data (sb_Fix sb)) in
      match wd with
      | Some {| Ocs.d_OTSWrite := Some w; Ocs.d_Readers := readers |} =>
          if decide (Hash sb = id) then Ret (Some (w, readers)) else find_write h range id
      | _ => find_write h range id
      end
  end.

(** Whether one of the readers has signed. *)
Fixpoint some_reader (pks : list Point) (id : SkipBlockID) (sig : option SchnorrSig)
    : outcome error bool :=
  match pks with
  | [] => Ret false
  | pk :: pks =>
      let! sg := deref sig in
      match VerifySchnorr pk id sg with
      | Ret _ => Ret true
      | Err _ => some_reader pks id sig
      | Panic w => Panic w
      | OutOfFuel => OutOfFuel
      end
  end.

(** The write branch. *)
Definition verify_write (write : Ocs.DataOTSWrite) : outcome error bool :=
  let! d := deref (Ocs.dow_Data write) in
  match CreatePointH (Ocs.ow_ReaderPk d) with
  | Ret h =>
      match VerifyEncShareBatch h (Ocs.ow_SCPublicKeys d) (Ocs.ow_EncProofs d) (Ocs.ow_EncShares d) with
      | Ret (_, validShares) =>
          Ret (negb (length validShares <? length (Ocs.ow_EncShares d))%nat)
      | Err _ => Ret false
      | Panic w => Panic w
      | OutOfFuel => OutOfFuel
      end
  | Err _ => Ret false
  | Panic w => Panic w
  | OutOfFuel => OutOfFuel
  end.

(** The read branch; [gid] is the hash of the genesis block. *)
Definition verify_read (s : Service World) (gid : SkipBlockID) (rd : Ocs.DataOCSRead)
    : outcome error bool :=
  let! bunch := deref (Storage.GetBunch (OCSs (st s)) gid) in
  let! found := find_write (st_heap (st s)) (block_order (world s) bunch) (Ocs.rd_DataID rd) in
  match found with
  | None => Ret false
  | Some (_, None) => Ret false
  | Some (_, Some readersBlock) =>
      some_reader (Ocs.dr_Readers readersBlock) (Ocs.rd_DataID rd) (Ocs.rd_Signature rd)
  end.

Definition verifyOCS (sb : SkipBlock) (s : Service World) : outcome error bool :=
  let! dataOCS := NewDataOCS (Data (sb_Fix sb)) in
  match dataOCS with
  | None => Ret false
  | Some d =>
      match Storage.GetFromGenesisByID (OCSs (st s)) (SkipChainID sb) (SkipChainID sb) with
      | None => Ret false
      | Some g =>
          let! genesis := deref (st_heap (st s) !! g) in
          let! ocsData := NewDataOCS (Data (sb_Fix genesis)) in
          match ocsData with
          | None => Ret false
          | Some _ =>
              match Ocs.d_OTSWrite d, Ocs.d_Read d with
              | Some write, _ => verify_write write
              | None, Some rd => verify_read s (Hash genesis) rd
              | None, None => Ret false
              end
          end
      end
  end.

(** ** Verification *)

Section readers.
Context {SLaws : SuiteLaws S}.

Lemma some_reader_true pks id sig :
  some_reader pks id sig = Ret true ↔
  ∃ sg pk, sig = Some sg ∧ pk ∈ pks ∧ VerifySchnorr pk id sg = Ret tt.
Proof.
  induction pks as [|pk pks IH]; cbn; [set_solver|].
  destruct sig as [sg|]; cbn; [|naive_solver].
  pose proof (VerifySchnorr_returns pk id sg) as Hr.
  destruct (VerifySchnorr pk id sg) as [[]|e| |] eqn:E; [|clear Hr|done..].
  - split; [|done]. intros _. exists sg, pk. set_solver.
  - rewrite IH. split.
    + intros (sg' & pk' & Hs & Hp & Hv). exists sg', pk'. set_solver.
    + intros (sg' & pk' & Hs & [->|Hp]%elem_of_cons & Hv); [congruence|eauto].
Qed.

End readers.

Section verification.
Context {CL : CodecLaws C} {LL : SkipchainLaws L} {EL : OcsEnvLaws Env} {SLaws : SuiteLaws S}.

(** The block [p] is a write with readers, stored under [id]. *)
Definition file_at (h : Heap) (p : ptr) (id : SkipBlockID)
    (w : Ocs.DataOTSWrite) (readers : option Ocs.DataOCSReaders) : Prop :=
  ∃ sb d, h !! p = Some sb ∧ Hash sb = id ∧ NewDataOCS (Data (sb_Fix sb)) = Ret (Some d) ∧
          Ocs.d_OTSWrite d = Some w ∧ Ocs.d_Readers d = readers.

Lemma find_write_spec h range id :
  (∀ p, p ∈ range → is_Some (h !! p)) →
  (∀ p q sp sq, p ∈ range → q ∈ range → h !! p = Some sp → h !! q = Some sq →
                Hash sp = Hash sq → p = q) →
  ∃ r, find_write h range id = Ret r ∧
    ∀ w rs, r = Some (w, rs) ↔ ∃ p, p ∈ range ∧ file_at h p id w rs.
Proof.
  induction range as [|p range IH]; intros Hin Hu; cbn.
  { exists None. split; [done|]. set_solver. }
  destruct (Hin p) as [sb Hsb]; [set_solver|]. rewrite Hsb. cbn.
  destruct (NewDataOCS_Ret (Data (sb_Fix sb))) as [wd Hwd]. rewrite Hwd. cbn.
  destruct IH as (r & Hr & Hspec); [set_solver|set_solver|]. setoid_rewrite elem_of_cons.
  assert ((∀ w rs, ¬ file_at h p id w rs) →
          ∀ w rs, r = Some (w, rs) ↔ ∃ q, (q = p ∨ q ∈ range) ∧ file_at h q id w rs) as Hskip.
  { intros Hno w rs. rewrite Hspec. split; [naive_solver|].
    intros (q & [->|Hq] & Hf); [by destruct (Hno w rs)|eauto]. }
  destruct wd as [[dW dR rs0 [w0|]]|].
  2, 3: exists r; split; [done|]; apply Hskip; intros w rs (sb' & d & ? & ? & ? & ? & ?);
        assert (sb' = sb) as -> by congruence; rewrite Hwd in *; by simplify_eq/=.
  case_decide as Hid.
  2: { exists r. split; [done|]. apply Hskip. intros w rs (sb' & d & ? & ? & ?). simplify_eq. }
  eexists. split; [done|]. intros w rs. split.
  - intros [= <- <-]. exists p. split; [auto|]. eexists _, _. split; [done|]. done.
  - intros (q & Hq & sb' & d & Hsb' & Hid' & Hd & Hw & Hrs).
    assert (q = p) as -> by (eapply Hu; [| |done|done|congruence]; set_solver).
    assert (sb' = sb) as -> by congruence. rewrite Hwd in Hd. by simplify_eq/=.
Qed.

(** The blocks of a well formed bunch. *)
Lemma block_order_in s b p :
  p ∈ block_order (world s) b ↔ ∃ k, SkipBlocks b !! k = Some p.
Proof.
  rewrite (block_order_perm (world s) b), list_elem_of_fmap. split.
  - intros ([k q] & -> & Hk%elem_of_map_to_list). eauto.
  - intros [k Hk]. exists (k, p). split; [done|]. by apply elem_of_map_to_list.
Qed.

Lemma find_write_bunch s b id :
  BunchInv (st_heap (st s)) b →
  ∃ r, find_write (st_heap (st s)) (block_order (world s) b) id = Ret r ∧
    ∀ w rs, r = Some (w, rs) ↔
      ∃ p, SkipBlocks b !! id = Some p ∧ file_at (st_heap (st s)) p id w rs.
Proof.
  intros HB.
  destruct (find_write_spec (st_heap (st s)) (block_order (world s) b) id) as (r & Hr & Hs).
  - intros p [k Hk]%block_order_in. destruct (inv_keyed _ _ HB _ _ Hk) as (sb & -> & _). eauto.
  - intros p q sp sq [k Hk]%block_order_in [k' Hk']%block_order_in Hp Hq HH.
    destruct (inv_keyed _ _ HB _ _ Hk) as (sp' & ? & <-).
    destruct (inv_keyed _ _ HB _ _ Hk') as (sq' & ? & <-). simplify_eq. congruence.
  - exists r. split; [done|]. intros w rs. rewrite Hs.
    split; intros (p & Hp & Hf); exists p; (split; [|done]).
    + apply block_order_in in Hp as [k Hk]. destruct Hf as (sb & d & Hsb & <- & _).
      destruct (inv_keyed _ _ HB _ _ Hk) as (sb' & ? & <-). simplify_eq. done.
    + apply block_order_in. eauto.
Qed.
End verification.
End service.
End OcsService.

(** ** Properties *)

Section verify_props.
Import OcsService.
Context {S : Suite} {U : UuidLib} {P : PvssLib S} {L : SkipchainLib} {C : Codec P}.
Context {SL : ShareLib S} {World : Type} {Env : OcsEnv World}.
Context {CL : CodecLaws C} {LL : SkipchainLaws L} {EL : OcsEnvLaws Env} {SLaws : SuiteLaws S}.

(** The service has the genesis block of the chain of [sb], with OCS data. *)
Definition has_genesis (s : Service World) (sb : SkipBlock) : Prop :=
  ∃ g genesis gd,
    Storage.GetFromGenesisByID (OCSs (st s)) (SkipChainID sb) (SkipChainID sb) = Some g ∧
    st_heap (st s) !! g = Some genesis ∧ NewDataOCS (Data (sb_Fix genesis)) = Ret (Some gd).

Lemma verifyOCS_branches s sb d :
  SInv s → NewDataOCS (Data (sb_Fix sb)) = Ret (Some d) →
  verifyOCS sb s = Ret true ↔
  has_genesis s sb ∧
  match Ocs.d_OTSWrite d, Ocs.d_Read d with
  | Some write, _ => verify_write write
  | None, Some rd => verify_read s (SkipChainID sb) rd
  | None, None => Ret false
  end = Ret true.
Proof.
  intros HI Hd. unfold verifyOCS, has_genesis. rewrite Hd. cbn.
  destruct (Storage.GetFromGenesisByID _ _ _) as [g|] eqn:Hg; [|naive_solver].
  pose proof Hg as Hg'. unfold Storage.GetFromGenesisByID, Storage.GetBunch in Hg'.
  destruct (OCSs (st s) !! SkipChainID sb) as [b|] eqn:Hb; [|done].
  destruct (HI _ _ Hb) as [HB _]. destruct (inv_keyed _ _ HB _ _ Hg') as (gen & Hgen & HH).
  rewrite Hgen. cbn.
  destruct (NewDataOCS_Ret (Data (sb_Fix gen))) as [[gd|] Hgd]; rewrite Hgd; cbn.
  - rewrite HH. split; [|by intros [_ ?]]. intros H. split; [|exact H]. by exists g, gen, gd.
  - split; [done|]. intros [(g' & gen' & gd & [= <-] & Hgen' & Hgd') _].
    rewrite Hgen in Hgen'. injection Hgen' as <-. congruence.
Qed.

(** The write that [rd] names, with its readers, in the chain [g]. *)
Definition names_file (s : Service World) (g : SkipBlockID) (rd : Ocs.DataOCSRead)
    (readers : Ocs.DataOCSReaders) : Prop :=
  ∃ p w, Storage.GetFromGenesisByID (OCSs (st s)) g (Ocs.rd_DataID rd) = Some p ∧
         file_at (st_heap (st s)) p (Ocs.rd_DataID rd) w (Some readers).

(** C3: access control of reads.  A read block is accepted exactly when the
    service has the genesis block of its chain, the read names a write block
    of that chain which lists readers, and the read carries a signature over
    the name of the write that verifies under the key of one of these readers:
    the loop over all blocks in map order finds what a lookup finds. *)
Theorem verify_ocs_read_correct s sb d rd :
  SInv s → NewDataOCS (Data (sb_Fix sb)) = Ret (Some d) →
  Ocs.d_OTSWrite d = None → Ocs.d_Read d = Some rd →
  verifyOCS sb s = Ret true ↔
  has_genesis s sb ∧
  ∃ readers sg pk, names_file s (SkipChainID sb) rd readers ∧
    Ocs.rd_Signature rd = Some sg ∧ pk ∈ Ocs.dr_Readers readers ∧
    VerifySchnorr pk (Ocs.rd_DataID rd) sg = Ret tt.
Proof.
  intros HI Hd HW HR. rewrite (verifyOCS_branches s sb d HI Hd), HW, HR.
  unfold verify_read, names_file, Storage.GetFromGenesisByID, Storage.GetBunch, Bunch.GetByID.
  destruct (OCSs (st s) !! SkipChainID sb) as [b|] eqn:Hb; cbn; [|naive_solver].
  destruct (HI _ _ Hb) as [HB _].
  destruct (find_write_bunch s b (Ocs.rd_DataID rd) HB) as (r & -> & Hr). cbn.
  apply and_iff_compat_l. split.
  - destruct r as [[w [rs|]]|]; [|done..]. intros (sg & pk & Hsg & Hpk & Hv)%some_reader_true.
    destruct (proj1 (Hr w (Some rs)) eq_refl) as (p & Hp & Hf). exists rs, sg, pk.
    split; [by exists p, w|done].
  - intros (rs & sg & pk & (p & w & Hp & Hf) & Hsg & Hpk & Hv).
    rewrite (proj2 (Hr w (Some rs))) by eauto. apply some_reader_true. by exists sg, pk.
Qed.

(** The key a read asks re-encryption for is not bound by the signature:
    if a read is accepted, a block of the same chain whose read differs from it
    only in [Public] is accepted too. *)
Theorem verify_ocs_read_unbound_key s sb sb' d d' rd rd' :
  SInv s →
  NewDataOCS (Data (sb_Fix sb)) = Ret (Some d) → NewDataOCS (Data (sb_Fix sb')) = Ret (Some d') →
  Ocs.d_OTSWrite d = None → Ocs.d_OTSWrite d' = None →
  Ocs.d_Read d = Some rd → Ocs.d_Read d' = Some rd' →
  SkipChainID sb' = SkipChainID sb →
  Ocs.rd_DataID rd' = Ocs.rd_DataID rd → Ocs.rd_Signature rd' = Ocs.rd_Signature rd →
  verifyOCS sb s = Ret true → verifyOCS sb' s = Ret true.
Proof.
  intros HI Hd Hd' HW HW' HR HR' Hc Hid Hsig.
  rewrite (verifyOCS_branches s sb d HI Hd), HW, HR.
  rewrite (verifyOCS_branches s sb' d' HI Hd'), HW', HR'.
  unfold has_genesis, verify_read. rewrite Hc, Hid, Hsig. done.
Qed.




End verify_props.

Section evolve_props.
Import OcsService.
Context {S : Suite} {U : UuidLib} {P : PvssLib S} {L : SkipchainLib} {C : Codec P}.
Context {SL : ShareLib S} {World : Type} {Env : OcsEnv World}.
Context {LL : SkipchainLaws L} {EL : OcsEnvLaws Env}.

Abbreviation keeps := (preserves (evolves (World := World))).

Lemma evolves_blocks (s : Service World) (d : StorageData) :
  (SInv s → blocks_evolve (st_heap (st s)) (OCSs (st s)) (st_heap d) (OCSs d)) →
  evolves s (set_st s d).
Proof. intros H. split; done. Qed.

Lemma alloc_evolves sb : keeps (alloc sb).
Proof.
  apply preserves_get_bind. intros s. apply evolves_blocks. intros HI.
  assert (heap_grows (st_heap (st s)) (<[fresh (dom (st_heap (st s))) := sb]> (st_heap (st s)))) as G.
  { intros p b Hp. exists b. split; [|reflexivity]. rewrite lookup_insert_ne; [done|].
    intros <-. apply (is_fresh (dom (st_heap (st s)))), elem_of_dom. eauto. }
  split; [by eapply Storage.StorageInv_grows|]. done.
Qed.

Lemma storage_store_evolves p : keeps (storage_store p).
Proof.
  apply preserves_get_bind. intros s. unfold sbind, slift, of_error.
  destruct (Storage.Store _ _ p) as [[h o]| | |] eqn:Hst; [|reflexivity..].
  apply evolves_blocks. cbn. intros HI.
  destruct (Storage.Storage_Store_inv _ _ _ _ _ HI Hst) as [HI' G].
  split; [done|]. split; [done|].
  pose proof (storage_store_keeps _ _ _ _ _ HI Hst) as [HF HB]. done.
Qed.

Lemma bunch_store_evolves g p : keeps (bunch_store g p).
Proof.
  intros s. unfold bunch_store, bunch_at, sbind, sget, slift, of_error, deref.
  destruct (OCSs (st s) !! g) as [b|] eqn:Hb; [|reflexivity]. cbn.
  destruct (Bunch.Store (st_heap (st s)) b p) as [[[h b'] id]| | |] eqn:Hst; [|reflexivity..].
  apply evolves_blocks. cbn. intros HI. destruct (HI _ _ Hb) as [HB Hg].
  destruct (Bunch.Store_inv _ _ _ _ _ _ HB Hst) as (HB' & G & Hg' & Hsub).
  split.
  { apply Storage.StorageInv_insert; [by eapply Storage.StorageInv_grows|done|congruence]. }
  split; [done|]. split.
  - intros g' id' q. apply GetBunch_insert. intros b0 q0 Hb0 Hq0. simplify_eq.
    by eapply lookup_weaken.
  - intros g' Hg2. destruct (decide (g = g')) as [<-|Hne].
    + rewrite lookup_insert_eq. eauto.
    + by rewrite lookup_insert_ne.
Qed.

Lemma set_Shared_evolves (s : Service World) k sh : evolves s (set_Shared s k sh).
Proof. apply evolves_blocks. intros HI. split; [done|]. split; [reflexivity|done]. Qed.

Lemma set_disk_evolves (s : Service World) b : evolves s (set_disk s b).
Proof. split; [done|]. intros HI. split; [done|]. split; [reflexivity|done]. Qed.

Lemma protocol_error_evolves {A} (c : SM (Service World) error A) :
  keeps c → keeps (protocol_error c).
Proof. intros Hc s. exact (Hc s). Qed.

Lemma load_evolves p : keeps (load p).
Proof. apply preserves_get_bind. reflexivity. Qed.
Lemma bunch_at_evolves g : keeps (bunch_at g).
Proof. apply preserves_get_bind. reflexivity. Qed.

Lemma sput_step {A} (s s' : Service World) (k : unit → SM (Service World) ClientError A) :
  evolves s s' → keeps (k tt) → evolves s (sbind (sput s') k s).2.
Proof. intros H Hk. etrans; [exact H|apply Hk]. Qed.

Create HintDb evo.
#[local] Hint Resolve alloc_evolves storage_store_evolves bunch_store_evolves load_evolves
  bunch_at_evolves protocol_error_evolves set_Shared_evolves set_disk_evolves
  CreateGenesis_evolves StoreSkipBlock_evolves GetSingleBlock_evolves propagateOCS_evolves
  run_dkg_evolves : evo.

(** One step through a handler. *)
Ltac keep_step :=
  match goal with
  | |- preserves _ (sbind sget _) => apply preserves_get_bind; intros ?
  | |- preserves _ (sbind _ _) => apply preserves_bind; [..|intros ?]
  | |- preserves _ (match ?x with _ => _ end) => destruct x
  | |- _ (match ?x with _ => _ end _).2 => destruct x
  | |- evolves ?s (sbind (sput _) _ ?s).2 => apply sput_step
  | |- evolves ?s (sbind ?c ?k ?s).2 =>
      refine (preserves_bind evolves c k _ _ s); [|intros ?]
  | |- evolves ?s (sput _ ?s).2 => cbn
  | |- preserves _ (sput _) => fail
  | |- _ => first [ solve [eauto with evo] | solve [eauto with gohints typeclass_instances]
                  | apply _ | reflexivity ]
  end.

Lemma BunchAddBlock_evolves g r data : keeps (BunchAddBlock g r data).
Proof. unfold BunchAddBlock. repeat keep_step. Qed.

Lemma add_retry_evolves fuel g r data : keeps (add_retry fuel g r data).
Proof.
  induction fuel as [|fuel IH]; intros s; cbn [add_retry]; [reflexivity|].
  pose proof (BunchAddBlock_evolves g r data s) as H.
  destruct (BunchAddBlock g r data s) as [[p|e| |] s']; [exact H| |exact H..].
  destruct (_ =? _); [|exact H]. etrans; [exact H|apply IH].
Qed.

Lemma find_chain_evolves m id : keeps (find_chain m id).
Proof. apply preserves_get_bind. intros s. repeat keep_step. Qed.

Lemma propagate_latest_evolves g sb : keeps (propagate_latest g sb).
Proof. unfold propagate_latest, latest_roster. repeat keep_step. Qed.

#[local] Hint Resolve add_retry_evolves find_chain_evolves propagate_latest_evolves : evo.

Lemma save_evolves : keeps save.
Proof.
  apply preserves_get_bind. intros s.
  destruct (MarshalStorage (st s)); [|reflexivity..].
  destruct (WriteFile _ _); cbn; [apply set_disk_evolves|reflexivity..].
Qed.

Lemma backlink_evolves r sbID : keeps (λ s : Service World,
  match GetSingleBlock r sbID s with
  | (Ret sbNew, s) => (do! q := alloc sbNew in storage_store q) s
  | (Err _, s) => (Ret tt, s)
  | (Panic w, s) => (Panic w, s)
  | (OutOfFuel, s) => (OutOfFuel, s)
  end).
Proof.
  intros s. pose proof (GetSingleBlock_evolves r sbID s) as H.
  destruct (GetSingleBlock r sbID s) as [[b| | |] s']; [|exact H..].
  etrans; [exact H|]. clear H. revert s'. change (keeps (do! q := alloc b in storage_store q)).
  eauto with gohints evo typeclass_instances.
Qed.

Lemma propagateOCSFunc_evolves sbI : keeps (propagateOCSFunc sbI).
Proof.
  destruct sbI as [p|]; [|intros s; reflexivity].
  apply preserves_bind; [apply _|apply storage_store_evolves|intros _].
  apply preserves_bind; [apply _|apply load_evolves|intros sb].
  destruct (_ =? _); [intros s; reflexivity|].
  apply preserves_bind; [apply _| |intros _; apply save_evolves].
  apply preserves_for; [apply _|]. intros _ id. apply backlink_evolves.
Qed.

Lemma CreateSkipchains_evolves r : keeps (CreateSkipchains r).
Proof. unfold CreateSkipchains. repeat keep_step. Qed.

(** C9: whatever its outcome (reply, error or panic), every handler of the
    service keeps the block storage well formed, only lets stored blocks gain
    links, and loses no block and no bunch, also while other handlers run
    during the calls that leave the node. *)
Theorem handlers_keep_storage (h : Service World → Service World) :
  (∃ fuel req, h = λ s, (WriteRequest fuel req s).2) ∨
  (∃ fuel req, h = λ s, (OTSWriteRequest fuel req s).2) ∨
  (∃ fuel req, h = λ s, (ReadRequest fuel req s).2) ∨
  (∃ r, h = λ s, (CreateSkipchains r s).2) ∨
  (∃ sbI, h = λ s, (propagateOCSFunc sbI s).2) ∨
  (∃ conf r, h = λ s, (dkg_finished conf r s).2) ∨
  h = (λ s, (save s).2) →
  ∀ s, SInv s →
    blocks_evolve (st_heap (st s)) (OCSs (st s)) (st_heap (st (h s))) (OCSs (st (h s))).
Proof.
  assert (∀ A (c : SM (Service World) ClientError A), keeps c → ∀ s, SInv s →
    blocks_evolve (st_heap (st s)) (OCSs (st s)) (st_heap (st (c s).2)) (OCSs (st (c s).2))) as K
    by (intros A c Hc s HI; exact (proj2 (Hc s) HI)).
  intros [(f & r & ->)|[(f & r & ->)|[(f & r & ->)|[(r & ->)|[(p & ->)|[(c & r & ->)| ->]]]]]];
    cbn beta; apply K.
  - unfold WriteRequest. repeat keep_step.
  - unfold OTSWriteRequest. repeat keep_step.
  - unfold ReadRequest. repeat keep_step.
  - apply CreateSkipchains_evolves.
  - apply propagateOCSFunc_evolves.
  - unfold dkg_finished. repeat keep_step.
  - apply save_evolves.
Qed.
End evolve_props.

Section writing_props.
Import OcsService.
Context {S : Suite} {U : UuidLib} {P : PvssLib S} {L : SkipchainLib} {C : Codec P}.
Context {SL : ShareLib S} {World : Type} {Env : OcsEnv World}.
Context {LL : SkipchainLaws L} {EL : OcsEnvLaws Env}.

(** The block [p] of the heap is stored in the chain [g] under its hash. *)
Definition in_chain (s : Service World) (g : SkipBlockID) (p : ptr) : Prop :=
  ∃ sb, st_heap (st s) !! p = Some sb ∧
        is_Some (Storage.GetFromGenesisByID (OCSs (st s)) g (Hash sb)).

Lemma in_chain_evolves s s' g p : SInv s → evolves s s' → in_chain s g p → in_chain s' g p.
Proof.
  intros HI [_ He] (sb & Hsb & [q Hq]). destruct (He HI) as (_ & G & F & _).
  destruct (G _ _ Hsb) as (sb' & Hsb' & _ & HH & _). exists sb'. rewrite HH. eauto.
Qed.

Lemma SInv_evolves (s s' : Service World) : SInv s → evolves s s' → SInv s'.
Proof. intros HI [_ He]. exact (proj1 (He HI)). Qed.

Lemma sbind_Ret {St E A B} (c : SM St E A) (k : A → SM St E B) s b s' :
  sbind c k s = (Ret b, s') → ∃ a s1, c s = (Ret a, s1) ∧ k a s1 = (Ret b, s').
Proof. unfold sbind. destruct (c s) as [[a| | |] s1]; naive_solver. Qed.

Lemma bunch_store_finds s g p id s' :
  SInv s → bunch_store g p s = (Ret (Some id), s') → in_chain s' g p.
Proof.
  intros HI Hst. pose proof (bunch_store_evolves g p s) as He. rewrite Hst in He.
  unfold bunch_store, bunch_at, sbind, sget, slift, of_error, deref in Hst.
  destruct (OCSs (st s) !! g) as [b|] eqn:Hb; [|done]. destruct (HI _ _ Hb) as [HB _].
  destruct (Bunch.Store (st_heap (st s)) b p) as [[[h b'] o]| | |] eqn:HS; [|done..].
  cbn in Hst. injection Hst as _ <-.
  destruct (st_heap (st s) !! p) as [sb|] eqn:Hp.
  2: { unfold Bunch.Store in HS. by rewrite Hp in HS. }
  pose proof (Store_finds _ _ _ _ _ _ _ HB Hp HS) as [q Hq].
  destruct (proj2 He HI) as (_ & G & _). destruct (G _ _ Hp) as (sb' & Hsb' & _ & HH & _).
  exists sb'. split; [done|]. cbn. unfold Storage.GetFromGenesisByID, Storage.GetBunch, Bunch.GetByID.
  rewrite lookup_insert_eq, HH. eauto.
Qed.

Lemma BunchAddBlock_stores s g r data p s' :
  SInv s → BunchAddBlock g r data s = (Ret p, s') → in_chain s' g p.
Proof.
  intros HI H. unfold BunchAddBlock in H.
  apply sbind_Ret in H as (b & s1 & H1 & H). apply sbind_Ret in H as (l & s2 & H2 & H).
  apply sbind_Ret in H as (sb & s3 & H3 & H). apply sbind_Ret in H as (q & s4 & H4 & H).
  apply sbind_Ret in H as (id & s5 & H5 & H).
  assert (SInv s4) as HI4.
  { pose proof (bunch_at_evolves g s) as E1. rewrite H1 in E1.
    pose proof (load_evolves (Latest b) s1) as E2. rewrite H2 in E2.
    pose proof (StoreSkipBlock_evolves l r data s2) as E3. rewrite H3 in E3.
    pose proof (alloc_evolves sb s3) as E4. rewrite H4 in E4. cbn in *.
    eauto using SInv_evolves. }
  destruct id as [id|]; [|done]. injection H as <- <-. by eapply bunch_store_finds.
Qed.

(** [n] attempts to add the block meet another one in progress. *)
Inductive busy (g : SkipBlockID) (r : option Roster) (data : Ocs.DataOCS)
    : nat → Service World → Service World → Prop :=
  | busy_none s : busy g r data 0 s s
  | busy_retry n s e s1 s2 :
      BunchAddBlock g r data s = (Err e, s1) → ErrorCode e = ErrorBlockInProgress →
      busy g r data n s1 s2 → busy g r data (Datatypes.S n) s s2.

Definition in_progress {A} (o : outcome ClientError A) : Prop :=
  ∃ e, o = Err e ∧ ErrorCode e = ErrorBlockInProgress.

Lemma add_retry_busy g r data n s s1 o s2 :
  busy g r data n s s1 → BunchAddBlock g r data s1 = (o, s2) → ¬ in_progress o →
  ∀ fuel, add_retry fuel g r data s = (o, s2) ∨
          (fuel <= n)%nat ∧ (add_retry fuel g r data s).1 = OutOfFuel.
Proof.
  induction 1 as [s|n s e s1 s2' Hadd He _ IH]; intros Hlast Ho fuel;
    (destruct fuel as [|fuel]; [right; split; [lia|done]|]); cbn [add_retry].
  - left. rewrite Hlast. destruct o as [p|e| |]; [done| |done..].
    destruct (Z.eqb_spec (ErrorCode e) ErrorBlockInProgress) as [He|]; [|done].
    destruct Ho. by exists e.
  - rewrite Hadd, He, Z.eqb_refl. destruct (IH Hlast Ho fuel) as [H|[Hf H]]; [by left|].
    right. split; [lia|done].
Qed.

Lemma busy_evolves g r data n s s' : busy g r data n s s' → evolves s s'.
Proof.
  induction 1 as [s|n s e s1 s2 Hadd _ _ IH]; [reflexivity|].
  pose proof (BunchAddBlock_evolves g r data s) as E. rewrite Hadd in E. by etrans.
Qed.

(** The retry loop.  If adding the block meets another one in progress [n]
    times and then ends otherwise, the loop ends after exactly [n + 1] attempts
    with that outcome, fewer rounds leave it undecided, and a block it returns
    is stored in its chain under its hash; if every attempt meets a block in
    progress, the loop never ends. *)
Theorem add_retry_result g r data s :
  (∀ n s1 o s2,
    busy g r data n s s1 → BunchAddBlock g r data s1 = (o, s2) → ¬ in_progress o →
    (∀ fuel, (n < fuel)%nat → add_retry fuel g r data s = (o, s2)) ∧
    (SInv s → ∀ p, o = Ret p → in_chain s2 g p)) ∧
  ((∀ n, ∃ s1, busy g r data n s s1) →
   ∀ fuel, (add_retry fuel g r data s).1 = OutOfFuel).
Proof.
  split.
  - intros n s1 o s2 Hb Hadd Ho. split.
    + intros fuel Hf. destruct (add_retry_busy _ _ _ _ _ _ _ _ Hb Hadd Ho fuel) as [H|[]];
        [done|lia].
    + intros HI p ->. eapply BunchAddBlock_stores; [|done].
      eapply SInv_evolves; [exact HI|by eapply busy_evolves].
  - intros Hall fuel. destruct (Hall fuel) as [s1 Hb]. clear Hall.
    induction Hb as [s|n s e s1 s2 Hadd He _ IH]; [done|]. cbn [add_retry].
    by rewrite Hadd, He, Z.eqb_refl.
Qed.

Lemma latest_roster_Ret g (s : Service World) l : (latest_roster g s).1 = Ret l → latest_roster g s = (Ret l, s).
Proof.
  unfold latest_roster, bunch_at, load, sbind, sget, slift, sret, deref.
  destruct (OCSs (st s) !! g) as [b|]; [|done].
  destruct (st_heap (st s) !! Latest b); [|done]. cbn. by intros ->.
Qed.

(** A one-time-secret write.  When the chain is known, the retry loop ends
    with a block and the propagation succeeds, the handler replies with this
    block, and it is stored in the requested chain; an unknown chain is a
    parameter error that changes nothing. *)
Theorem ots_write_request_stores req s :
  let g := Ocs.owr_OCS req in
  let data := {| Ocs.d_Write := None; Ocs.d_Read := None;
                 Ocs.d_Readers := Ocs.owr_Readers req; Ocs.d_OTSWrite := Ocs.owr_Write req |} in
  (OCSs (st s) !! g = None →
   ∀ fuel, OTSWriteRequest fuel req s
           = (Err (NewClientErrorCode ErrorParameter "didn't find that bunch"), s)) ∧
  ∀ b pg genesis n s1 p s2 l k s3 l3,
    SInv s → OCSs (st s) !! g = Some b → SkipBlocks b !! g = Some pg →
    st_heap (st s) !! pg = Some genesis →
    busy g (sb_Roster (sb_Fix genesis)) data n s s1 →
    BunchAddBlock g (sb_Roster (sb_Fix genesis)) data s1 = (Ret p, s2) →
    (latest_roster g s2).1 = Ret l → propagateOCS l p s2 = (Ret k, s3) →
    (latest_roster g s3).1 = Ret (Some l3) →
    (∀ fuel, (n < fuel)%nat → OTSWriteRequest fuel req s = (Ret p, s3)) ∧ in_chain s3 g p.
Proof.
  intros g data. split.
  { intros Hg fuel. unfold OTSWriteRequest, find_chain, sbind, sget, Storage.GetBunch. subst g.
    by rewrite Hg. }
  intros b pg gen n s1 p s2 l k s3 l3 HI Hb Hpg Hgen Hbusy Hadd Hl Hprop Hl3.
  split.
  - intros fuel Hf. unfold OTSWriteRequest, sbind at 1.
    unfold find_chain, sbind at 1, sget, Storage.GetBunch, Bunch.GetByID. fold g.
    rewrite Hb, Hpg. unfold load, sbind, sget, slift, sret. rewrite Hgen. cbn [deref].
    fold data. destruct (add_retry_busy _ _ _ _ _ _ _ _ Hbusy Hadd ltac:(by intros (? & ? & _)) fuel)
      as [->|[]]; [|lia].
    unfold propagate_latest, sbind, slift, sret. rewrite (latest_roster_Ret _ _ _ Hl). unfold protocol_error.
    rewrite Hprop. cbn [of_error omap_err fst snd]. rewrite (latest_roster_Ret _ _ _ Hl3). done.
  - pose proof (propagateOCS_evolves l p s2) as E. rewrite Hprop in E. cbn in E.
    pose proof (BunchAddBlock_evolves g (sb_Roster (sb_Fix gen)) data s1) as E1.
    rewrite Hadd in E1. cbn in E1.
    assert (SInv s1) as HI1 by (eapply SInv_evolves; [exact HI|by eapply busy_evolves]).
    eapply in_chain_evolves; [|exact E|by eapply BunchAddBlock_stores].
    by eapply SInv_evolves.
Qed.
End writing_props.

Section reading_props.
Import OcsService.
Context {S : Suite} {U : UuidLib} {P : PvssLib S} {L : SkipchainLib} {C : Codec P}.
Context {SL : ShareLib S} {World : Type} {Env : OcsEnv World}.
Context {CL : CodecLaws C} {LL : SkipchainLaws L}.

(** The blocks from [p] on along the first forward links, up to a block
    without. *)
Inductive walk (s : Service World) : option ptr → list SkipBlock → Prop :=
  | walk_last p sb :
      st_heap (st s) !! p = Some sb → ForwardLink sb = [] → walk s (Some p) [sb]
  | walk_next p sb fl fls l :
      st_heap (st s) !! p = Some sb → ForwardLink sb = fl :: fls →
      walk s (Storage.GetFromGenesisByID (OCSs (st s)) (SkipChainID sb) (bl_Hash fl)) l →
      walk s (Some p) (sb :: l).

Lemma walk_head s p l : walk s p l → ∃ q sb l', p = Some q ∧ st_heap (st s) !! q = Some sb ∧ l = sb :: l'.
Proof. intros [q sb Hq _|q sb fl fls l' Hq _ _]; eauto 10. Qed.

(** The read a block holds, if any, and whether it can be on the chain. *)
Definition read_of (sb : SkipBlock) : option Ocs.ReadDoc :=
  match Unmarshal (Data (sb_Fix sb)) with
  | Ret (MDataOCS d) =>
      (λ rd, {| Ocs.doc_Reader := Ocs.rd_Public rd; Ocs.doc_ReadID := Hash sb;
                Ocs.doc_DataID := Ocs.rd_DataID rd |}) <$> Ocs.d_Read d
  | _ => None
  end.
Definition ocs_block (sb : SkipBlock) : Prop :=
  match Unmarshal (Data (sb_Fix sb)) with
  | Ret (MDataOCS _) | Err _ => True
  | _ => False
  end.

(** One round of the loop at a block that is fit for the chain. *)
Lemma read_loop_step fuel (s : Service World) Count doc p sb docs :
  st_heap (st s) !! p = Some sb → ocs_block sb →
  read_loop (Datatypes.S fuel) s Count doc (Some p) docs =
  if negb ((Count =? 0) || (Z.of_nat (length docs) <? Count)) then Ret docs
  else
    match read_of sb with
    | Some rd =>
        if (Count =? 0) && negb (bool_decide (Ocs.doc_DataID rd = doc))
        then read_loop fuel s Count doc (Some p) docs
        else match ForwardLink sb with
             | fl :: _ => read_loop fuel s Count doc
                 (Storage.GetFromGenesisByID (OCSs (st s)) (SkipChainID sb) (bl_Hash fl)) (docs ++ [rd])
             | [] => Ret (docs ++ [rd])
             end
    | None => match ForwardLink sb with
              | fl :: _ => read_loop fuel s Count doc
                  (Storage.GetFromGenesisByID (OCSs (st s)) (SkipChainID sb) (bl_Hash fl)) docs
              | [] => Ret docs
              end
    end.
Proof.
  intros Hp Hok. cbn [read_loop]. destruct (negb _); [done|]. cbn. rewrite Hp. cbn.
  unfold ocs_block, read_of in *. destruct (Unmarshal _) as [[d| | | |]|e| |]; try done.
  destruct (Ocs.d_Read d) as [rd|]; cbn; [|done]. rewrite id_Equal_spec. done.
Qed.

Lemma read_loop_count fuel (s : Service World) Count doc p l docs :
  Count ≠ 0 → walk s p l → Forall ocs_block l → (length l < fuel)%nat →
  read_loop fuel s Count doc p docs
  = Ret (docs ++ take (Z.to_nat Count - length docs) (omap read_of l)).
Proof.
  intros HC Hw. revert fuel docs.
  induction Hw as [p sb Hp Hfl|p sb fl fls l Hp Hfl _ IH]; intros fuel docs Hok Hf;
    (destruct fuel as [|fuel]; [cbn in Hf; lia|]); apply Forall_cons in Hok as [Hsb Hok];
    rewrite (read_loop_step _ _ _ _ _ _ _ Hp Hsb), Hfl, (proj2 (Z.eqb_neq _ _) HC); cbn [orb andb];
    (destruct (Z.ltb_spec (Z.of_nat (length docs)) Count) as [Hlt|Hge]; cbn [negb];
      [|replace (Z.to_nat Count - length docs)%nat with O by lia; by rewrite take_0, app_nil_r]).
  - cbn. destruct (read_of sb) as [rd|]; [|by rewrite take_nil, app_nil_r].
    rewrite firstn_all2; [done|]. cbn. lia.
  - cbn in Hf |- *. destruct (read_of sb) as [rd|]; [|by rewrite IH by (done || lia)].
    rewrite IH by (done || lia). rewrite <-app_assoc, length_app. cbn [length].
    replace (Z.to_nat Count - length docs)%nat
      with (Datatypes.S (Z.to_nat Count - (length docs + 1))) by lia. done.
Qed.

Lemma read_loop_all fuel (s : Service World) doc p l docs :
  walk s p l → Forall ocs_block l → (length l < fuel)%nat →
  Forall (λ rd, Ocs.doc_DataID rd = doc) (omap read_of l) →
  read_loop fuel s 0 doc p docs = Ret (docs ++ omap read_of l).
Proof.
  intros Hw. revert fuel docs.
  induction Hw as [p sb Hp Hfl|p sb fl fls l Hp Hfl _ IH]; intros fuel docs Hok Hf Hall;
    (destruct fuel as [|fuel]; [cbn in Hf; lia|]); apply Forall_cons in Hok as [Hsb Hok];
    rewrite (read_loop_step _ _ _ _ _ _ _ Hp Hsb), Hfl; cbn in Hall, Hf |- *;
    (destruct (read_of sb) as [rd|]; [apply Forall_cons in Hall as [Hrd Hall]|]);
    rewrite ?bool_decide_true by done; cbn; rewrite ?app_nil_r, ?IH by (done || lia);
    by rewrite <-?app_assoc.
Qed.

Lemma read_loop_stuck fuel (s : Service World) doc p l docs :
  walk s p l → Forall ocs_block l →
  Exists (λ rd, Ocs.doc_DataID rd ≠ doc) (omap read_of l) →
  read_loop fuel s 0 doc p docs = OutOfFuel.
Proof.
  revert p l docs. induction fuel as [|fuel IH]; intros p l docs Hw Hok Hex; [done|].
  pose proof Hw as Hw'.
  destruct Hw as [p sb Hp Hfl|p sb fl fls l Hp Hfl Hw]; apply Forall_cons in Hok as [Hsb Hok];
    rewrite (read_loop_step _ _ _ _ _ _ _ Hp Hsb), Hfl; cbn in Hex |- *;
    (destruct (read_of sb) as [rd|] eqn:Hrd; [|try (by apply Exists_nil in Hex); by eapply IH]);
    (case_bool_decide as Hd; cbn;
      [|eapply IH; [exact Hw'|by constructor|cbn; rewrite Hrd; exact Hex]]);
    apply Exists_cons in Hex as [|Hex]; try done.
  - by apply Exists_nil in Hex.
  - by eapply IH.
Qed.

(** [GetReadRequests] along a finite chain of OCS blocks.  With a count it
    ends and returns the first [Count] reads of the chain from the start on, in
    chain order (none for a negative count).  Without a count the start must be
    a one-time-secret write; if all reads of the chain are for it, they are
    returned; but if the chain holds a read for any other write, the loop
    skips it without advancing and never ends. *)
Theorem get_read_requests_correct (s : Service World) req p start l fuel :
  get_by_id s 0 (Ocs.grr_Start req) = Some p → st_heap (st s) !! p = Some start →
  walk s (Some p) l → Forall ocs_block l → (length l < fuel)%nat →
  (Ocs.grr_Count req ≠ 0 →
    GetReadRequests fuel req s = Ret (take (Z.to_nat (Ocs.grr_Count req)) (omap read_of l))) ∧
  (Ocs.grr_Count req = 0 →
    ∀ d w, NewDataOCS (Data (sb_Fix start)) = Ret (Some d) → Ocs.d_OTSWrite d = Some w →
    if decide (Forall (λ rd, Ocs.doc_DataID rd = Hash start) (omap read_of l))
    then GetReadRequests fuel req s = Ret (omap read_of l)
    else ∀ fuel, GetReadRequests fuel req s = OutOfFuel) ∧
  (Ocs.grr_Count req = 0 →
    (∀ d w, NewDataOCS (Data (sb_Fix start)) = Ret (Some d) → Ocs.d_OTSWrite d ≠ Some w) →
    GetReadRequests fuel req s
    = Err (NewClientErrorCode ErrorParameter "id is not a writer-block")).
Proof.
  intros Hid Hp Hw Hok Hf. unfold GetReadRequests. rewrite Hid. split; [|split].
  - intros HC. rewrite (proj2 (Z.eqb_neq _ _) HC). cbn [obind].
    rewrite (read_loop_count _ _ _ _ _ _ _ HC Hw Hok Hf). cbn. by rewrite Nat.sub_0_r.
  - intros -> [dW dR rs w0] w Hd Hwr. cbn in Hwr. subst w0. rewrite Hp. cbn. rewrite Hd. cbn.
    case_decide as Hall; [by rewrite (read_loop_all _ _ _ _ _ _ Hw Hok Hf Hall)|].
    intros fuel'. eapply read_loop_stuck; [done|done|]. by apply not_Forall_Exists in Hall; [|apply _].
  - intros -> Hno. rewrite Hp. cbn.
    destruct (NewDataOCS_Ret (Data (sb_Fix start))) as [[[dW dR rs [w|]]|] Hd]; rewrite Hd; cbn;
      [|done..]. by destruct (Hno _ w Hd).
Qed.

(** The first forward link of a stored block leads to a stored block of the
    same chain with a higher index. *)
Definition links_forward (s : Service World) (g : SkipBlockID) : Prop :=
  ∀ id p sb fl fls,
    Storage.GetFromGenesisByID (OCSs (st s)) g id = Some p → st_heap (st s) !! p = Some sb →
    SkipChainID sb = g ∧
    (ForwardLink sb = fl :: fls →
     ∃ q sq, Storage.GetFromGenesisByID (OCSs (st s)) g (bl_Hash fl) = Some q ∧
             st_heap (st s) !! q = Some sq ∧ Index (sb_Fix sb) < Index (sb_Fix sq)).

(** When forward links lead to stored blocks of higher index, the chain
    walked by [GetReadRequests] is finite: from a stored block it has at most
    as many blocks as there are indices up to the latest block, so a request
    with a count ends within that many rounds and does not panic. *)
Theorem get_read_requests_terminates (s : Service World) g b id p sb latest :
  SInv s → links_forward s g → OCSs (st s) !! g = Some b →
  st_heap (st s) !! Latest b = Some latest →
  Storage.GetFromGenesisByID (OCSs (st s)) g id = Some p → st_heap (st s) !! p = Some sb →
  ∃ l, walk s (Some p) l ∧
    Z.of_nat (length l) <= Index (sb_Fix latest) - Index (sb_Fix sb) + 1 ∧
    (Forall ocs_block l → ∀ Count fuel, Count ≠ 0 →
     Index (sb_Fix latest) - Index (sb_Fix sb) + 1 < Z.of_nat fuel →
     read_loop fuel s Count [] (Some p) [] = Ret (take (Z.to_nat Count) (omap read_of l))).
Proof.
  intros HI Hfw Hb Hlat Hp Hsb. destruct (HI _ _ Hb) as [HB _].
  assert (∀ id p sb, Storage.GetFromGenesisByID (OCSs (st s)) g id = Some p →
    st_heap (st s) !! p = Some sb → Index (sb_Fix sb) <= Index (sb_Fix latest)) as Hmax.
  { intros id' p' sb' Hp' Hsb'. destruct (inv_latest _ _ HB) as (l & Hl & _ & Hm). simplify_eq.
    unfold Storage.GetFromGenesisByID, Storage.GetBunch in Hp'. rewrite Hb in Hp'. by eapply Hm. }
  assert (∃ l, walk s (Some p) l ∧
    Z.of_nat (length l) <= Index (sb_Fix latest) - Index (sb_Fix sb) + 1) as (l & Hw & Hl).
  { remember (Z.to_nat (Index (sb_Fix latest) - Index (sb_Fix sb))) as n eqn:Hn.
    revert id p sb Hp Hsb Hn. induction (lt_wf n) as [n _ IH]. intros id p sb Hp Hsb Hn.
    pose proof (Hmax _ _ _ Hp Hsb) as Hle.
    destruct (ForwardLink sb) as [|fl fls] eqn:Hfl.
    { exists [sb]. split; [by constructor|]. cbn. lia. }
    destruct (Hfw _ _ _ fl fls Hp Hsb) as [Hg Hnext].
    destruct (Hnext Hfl) as (q & sq & Hq & Hsq & Hlt). pose proof (Hmax _ _ _ Hq Hsq) as Hle'.
    destruct (IH (Z.to_nat (Index (sb_Fix latest) - Index (sb_Fix sq))) ltac:(lia) _ _ _ Hq Hsq eq_refl)
      as (l & Hw & Hl).
    exists (sb :: l). split; [|cbn; lia]. eapply walk_next; [done..|]. by rewrite Hg, Hq. }
  exists l. split; [done|]. split; [done|]. intros Hok Count fuel HC Hf.
  rewrite (read_loop_count _ _ _ _ _ _ _ HC Hw Hok) by lia. cbn. by rewrite Nat.sub_0_r.
Qed.
End reading_props.

Section decrypt_props.
Import OcsService.
Context {S : Suite} {U : UuidLib} {P : PvssLib S} {L : SkipchainLib} {C : Codec P}.
Context {SL : ShareLib S} {World : Type} {Env : OcsEnv World}.
Context {SLaws : SuiteLaws S}.

(** The servers hold shares of the polynomial [p] for the chain [g]: the
    service [s] itself and the services of the other nodes. *)
Record sharing (s : Service World) (g : SkipBlockID) (p : list Scalar)
    (servers : list ServerIdentity) (sec : ServerIdentity → SharedSecret) : Prop := {
  own_secret : Shared (st s) !! g = Some (sec (me s));
  peer_secret si : si ∈ servers → si ≠ me s → peer_shared (world s) si !! g = Some (sec si);
  secret_share si : si ∈ servers →
    0 <= ss_Index (sec si) < Z.of_nat (length servers) ∧
    ss_V (sec si) = share_at p (ss_Index (sec si));
  secret_indices : NoDup (ss_Index ∘ sec <$> servers);
}.

Lemma NewProtocol_OCS secrets g sh :
  secrets !! g = Some sh → NewProtocol secrets NameOCS (Some g) = Ret (PiOCS (child sh)).
Proof. intros H. unfold NewProtocol. cbn [obind deref decide]. rewrite H. done. Qed.
#[local] Arguments NewProtocol : simpl never.

Lemma ocs_children_secrets s g p servers sec others nodes :
  sharing s g p servers sec → (∀ si, si ∈ others → si ∈ servers ∧ si ≠ me s) →
  Trees.tn_ServerIdentity <$> nodes = Some <$> others →
  ocs_children (world s) g nodes = Ret (Some (child ∘ sec <$> others)).
Proof.
  intros Hs. unfold ocs_children. revert nodes.
  induction others as [|si others IH]; intros nodes Hin Hn.
  { apply fmap_nil_inv in Hn. subst. done. }
  destruct nodes as [|n nodes]; [done|]. cbn in Hn. injection Hn as Hn1 Hn2.
  destruct (Hin si) as [Hsi Hne]; [set_solver|].
  specialize (IH nodes ltac:(set_solver) Hn2).
  cbn. rewrite Hn1. cbn. rewrite (NewProtocol_OCS _ _ _ (peer_secret _ _ _ _ _ Hs si Hsi Hne)). cbn.
  destruct (omapM _ nodes) as [kids| | |]; [|done..]. cbn in IH |- *. injection IH as ->. done.
Qed.

Lemma servers_perm {A} (l : list A) i x :
  l !! i = Some x → x :: take i l ++ drop (i + 1) l ≡ₚ l.
Proof.
  intros H. rewrite Nat.add_1_r. rewrite <-(take_drop_middle l i x H) at 3.
  apply Permutation_middle.
Qed.

(** The blocks a request is about: the read, and the file it names. *)
Definition request_blocks (s : Service World) (id : SkipBlockID) (rd : Ocs.DataOCSRead)
    (fileSB : SkipBlock) (write : Ocs.DataOCSWrite) : Prop :=
  ∃ pr readSB dr pf df,
    get_by_id s 0 id = Some pr ∧ st_heap (st s) !! pr = Some readSB ∧
    NewDataOCS (Data (sb_Fix readSB)) = Ret (Some dr) ∧ Ocs.d_Read dr = Some rd ∧
    get_by_id s 1 (Ocs.rd_DataID rd) = Some pf ∧ st_heap (st s) !! pf = Some fileSB ∧
    NewDataOCS (Data (sb_Fix fileSB)) = Ret (Some df) ∧ Ocs.d_Write df = Some write.

Lemma run_ocs_kids w t conf root nodes kids :
  Trees.List t = Ret nodes → ocs_children w conf (tail nodes) = Ret (Some kids) →
  run_ocs w t conf root = let! o := run root kids in
                          match o with Some o => Ret o | None => OutOfFuel end.
Proof.
  intros Hl Hk. unfold run_ocs. rewrite Hl. cbn. rewrite Hk. cbn.
  unfold run. destruct (Start root); done.
Qed.

(** C4: [DecryptKeyRequest] end to end.  When the node is in the roster of the
    file and the roster's nodes hold shares of a secret for its chain, a
    request for a read of a file whose key was encoded for the collective key
    gets a reply from which the reader, with the private key to the
    [Public] of the read, decodes exactly that key. *)
Theorem decrypt_key_request_correct s id rd fileSB write r i p sec key x xc rnd Ku rnd' :
  let n := Z.of_nat (length (Rosters.List r)) in
  request_blocks s id rd fileSB write →
  sb_Roster (sb_Fix fileSB) = Some r → Rosters.distinct r → Rosters.List r !! i = Some (me s) →
  sharing s (GenesisID (sb_Fix fileSB)) p (Rosters.List r) sec →
  RecoverLaw (n - 1) → Z.of_nat (length p) <= n - 1 →
  x = share_secret p → ss_X (sec (me s)) ≡ point_mul None x →
  Ocs.rd_Public rd ≡ point_mul None xc → Ocs.dw_U write = Some Ku →
  EncodeKey (ss_X (sec (me s))) key rnd = Ret (Ku, Ocs.dw_Cs write, rnd') →
  ∃ reply, DecryptKeyRequest id s = Ret reply ∧
    DecodeKey (Ocs.dk_X reply) (Ocs.dk_Cs reply) (Ocs.dk_XhatEnc reply) xc = Ret key.
Proof.
  intros n (pr & readSB & [dW dR drs dO] & pf & [fW fR frs fO] & Hpr & Hread & Hdr & Hrd & Hpf & Hfile & Hdf & Hw)
    Hros Hdist Hme Hs HR Hp Hx HX HXc HU HE. cbn in Hrd, Hw. subst dR fW.
  set (others := take i (Rosters.List r) ++ drop (i + 1) (Rosters.List r)).
  pose proof (servers_perm _ _ _ Hme) as Hperm. fold others in Hperm.
  destruct (Trees.GenerateNaryTreeWithRoot_servers r n i (me s) (uuid_supply (world s)))
    as (t & root & nodes & u' & Ht & _ & Hl & _ & Hsv); [|done|done|].
  { pose proof (lookup_lt_Some _ _ _ Hme). lia. }
  apply fmap_cons_inv in Hsv as (_ & _ & _ & Hnodes & [= <- <-]). symmetry in Hnodes.
  assert (∀ si, si ∈ others → si ∈ Rosters.List r ∧ si ≠ me s) as Hothers.
  { intros si Hsi. split; [rewrite <-Hperm; set_solver|]. intros ->.
    apply NoDup_fmap_1 in Hdist. rewrite <-Hperm in Hdist. by apply NoDup_cons in Hdist as []. }
  pose proof (ocs_children_secrets _ _ _ _ _ _ _ Hs Hothers Hnodes) as Hkids.
  assert (n = Z.of_nat (Datatypes.S (length (sec <$> others)))) as Hn.
  { rewrite length_fmap. unfold n. by rewrite <-Hperm. }
  destruct (run_decodes (sec (me s)) (sec <$> others) p [] (ss_X (sec (me s))) x xc
    (Ocs.rd_Public rd) key rnd Ku (Ocs.dw_Cs write) rnd') as (o & q & Hrun & Hq & Hdec); try done.
  1, 2: by rewrite <-Hn.
  { rewrite <-Hn, <-fmap_cons. intros k (si & -> & Hsi)%list_elem_of_fmap.
    apply (secret_share _ _ _ _ _ Hs). rewrite <-Hperm. exact Hsi. }
  { rewrite <-fmap_cons, <-list_fmap_compose, Hperm. apply (secret_indices _ _ _ _ _ Hs). }
  eexists. unfold DecryptKeyRequest. rewrite Hpr. cbn. rewrite Hread. cbn. rewrite Hdr. cbn.
  rewrite Hpf. cbn. rewrite Hfile. cbn. rewrite Hdf. cbn. rewrite Hros. cbn. fold n.
  rewrite Ht. cbn. rewrite (own_secret _ _ _ _ _ Hs), HU.
  rewrite (run_ocs_kids _ _ _ _ _ _ Hl Hkids), list_fmap_compose, Hrun. cbn.
  rewrite Hn, Hq. cbn. split; [done|]. exact Hdec.
Qed.

(** Requests for blocks the node does not have: [DecryptKeyRequest] does
    not reply with an error but dereferences nil, for an unknown read as for a
    known read of an unknown file, and so does a roster without this node. *)
Theorem decrypt_key_request_unknown s id :
  (get_by_id s 0 id = None → DecryptKeyRequest id s = Panic "nil pointer dereference") ∧
  (∀ pr readSB d rd, get_by_id s 0 id = Some pr → st_heap (st s) !! pr = Some readSB →
    NewDataOCS (Data (sb_Fix readSB)) = Ret (Some d) → Ocs.d_Read d = Some rd →
    get_by_id s 1 (Ocs.rd_DataID rd) = None →
    DecryptKeyRequest id s = Panic "nil pointer dereference") ∧
  (∀ rd fileSB write r, request_blocks s id rd fileSB write →
    sb_Roster (sb_Fix fileSB) = Some r → (∀ e, e ∈ Rosters.List r → Network.ID e ≠ Network.ID (me s)) →
    DecryptKeyRequest id s = Panic "nil pointer dereference").
Proof.
  unfold DecryptKeyRequest. split; [|split].
  - intros ->. done.
  - intros pr readSB [dW dR drs dO] rd -> Hread Hd Hrd Hf. cbn in Hrd. subst dR. cbn.
    rewrite Hread. cbn. rewrite Hd. cbn. by rewrite Hf.
  - intros rd fileSB write r (pr & readSB & [dW dR drs dO] & pf & [fW fR frs fO] & Hpr & Hread &
      Hdr & Hrd & Hpf & Hfile & Hdf & Hw) Hros Hno.
    cbn in Hrd, Hw. subst dR fW. rewrite Hpr. cbn. rewrite Hread. cbn. rewrite Hdr. cbn.
    rewrite Hpf. cbn. rewrite Hfile. cbn. rewrite Hdf. cbn. rewrite Hros. cbn.
    unfold Trees.GenerateNaryTreeWithRoot, Rosters.Search.
    pose proof (Rosters.search_from_spec 0 (Rosters.List r) (Network.ID (me s))) as Hsp.
    destruct (Rosters.search_from 0 (Rosters.List r) (Network.ID (me s))) as [j [e|]].
    + destruct Hsp as (_ & Hl & He & _). destruct (Hno e); [|done].
      by eapply list_elem_of_lookup_2.
    + destruct Hsp as [-> _]. done.
Qed.
End decrypt_props.

(** ** Witnesses *)

Module OcsServiceExample.
Import ZSuite ToySkipchain ToyMessages OcsService.

(** A world that gives the next answer of a list to every call. *)
Record World := { answers : list (outcome ClientError SkipBlock);
                  peers : ServerIdentity → gmap bytes (SharedSecret (S := Zsuite)) }.

Definition next (s : Service World) : outcome ClientError SkipBlock * Service World :=
  match answers (world s) with
  | a :: l => (a, {| st := st s; disk := disk s; me := me s;
                     world := {| answers := l; peers := peers (world s) |} |})
  | [] => (Err (NewClientErrorCode 4100 "no answer"), s)
  end.

#[local] Instance toy_env : OcsEnv World := {|
  ErrorBlockInProgress := 4102;
  CreateGenesis _ _ := next;
  StoreSkipBlock _ _ _ := next;
  GetSingleBlock _ _ := next;
  propagateOCS _ _ := sret 3;
  run_dkg _ _ := sret DkgTimeout;
  peer_shared := peers;
  uuid_supply _ := 0%nat;
  MarshalStorage _ := Ret [];
  UnmarshalStorage _ := Ret None;
  WriteFile _ _ := Ret tt;
  bunch_order _ _ s := (map_to_list s).*2;
  block_order _ b := (map_to_list (SkipBlocks b)).*2;
|}.

Lemma next_evolves : preserves evolves next.
Proof.
  intros s. unfold next. destruct (answers (world s)); [reflexivity|].
  split; [done|]. intros HI. split; [done|]. split; [reflexivity|done].
Qed.

#[local] Instance toy_env_laws : OcsEnvLaws toy_env.
Proof.
  split; intros; try apply next_evolves; try (intros ?; reflexivity).
  - done.
  - unfold range_of. done.
Qed.

#[local] Existing Instance TreeExample.toy_uuid.

Definition ids : list ServerIdentity := TreeExample.server <$> [3; 5; 7].
Definition ros : Roster := Rosters.NewRoster ids 0.

(** Data of the blocks: the genesis, a write, a read of it, an old-style write
    and a read of that. *)
Definition empty_data : Ocs.DataOCS :=
  {| Ocs.d_Write := None; Ocs.d_Read := None; Ocs.d_Readers := None; Ocs.d_OTSWrite := None |}.
Definition sig : SchnorrSig (S := Zsuite) := SchnorrExample.sign [x02].
Definition write_data : Ocs.DataOTSWrite :=
  {| Ocs.dow_Data := Some {| Ocs.ow_G := 1; Ocs.ow_SCPublicKeys := [3; 5; 7];
       Ocs.ow_EncShares := [(0, 9); (1, 9); (2, 9)]; Ocs.ow_EncProofs := [9; 9; 9];
       Ocs.ow_HashEnc := []; Ocs.ow_ReaderPk := 42 |};
     Ocs.dow_Signature := Some (SchnorrExample.sign (Sum256 [x06])) |}.
Definition readers : Ocs.DataOCSReaders :=
  {| Ocs.dr_ID := []; Ocs.dr_Readers := [41; 42]; Ocs.dr_Admins := []; Ocs.dr_Threshold := 0;
     Ocs.dr_Signature := None |}.
Definition d_write : Ocs.DataOCS :=
  {| Ocs.d_Write := None; Ocs.d_Read := None; Ocs.d_Readers := Some readers;
     Ocs.d_OTSWrite := Some write_data |}.
Definition read_data (pk : Z) (id : bytes) : Ocs.DataOCSRead :=
  {| Ocs.rd_DataID := id; Ocs.rd_Public := pk; Ocs.rd_Signature := Some sig |}.
Definition d_read (pk : Z) (id : bytes) : Ocs.DataOCS :=
  {| Ocs.d_Write := None; Ocs.d_Read := Some (read_data pk id); Ocs.d_Readers := None;
     Ocs.d_OTSWrite := None |}.
Definition encoded := EncodeKey (S := Zsuite) 77 ReencryptExample.key 3.
Definition old_write : Ocs.DataOCSWrite :=
  match encoded with
  | Ret (U, Cs, _) => {| Ocs.dw_Data := []; Ocs.dw_U := Some U; Ocs.dw_Cs := Cs; Ocs.dw_Readers := [] |}
  | _ => {| Ocs.dw_Data := []; Ocs.dw_U := None; Ocs.dw_Cs := []; Ocs.dw_Readers := [] |}
  end.
Definition d_old : Ocs.DataOCS :=
  {| Ocs.d_Write := Some old_write; Ocs.d_Read := None; Ocs.d_Readers := None;
     Ocs.d_OTSWrite := None |}.

#[local] Instance codec : Codec toy_pvss := toy_codec
  [([xa0], MDataOCS empty_data); ([xa1], MDataOCS d_write); ([xa2], MDataOCS (d_read 42 [x02]));
   ([xa3], MDataOCS d_old); ([xa4], MDataOCS (d_read 9 [x04])); ([xa5], MDataOCS (d_read 66 [x02]))].
#[local] Instance codec_laws : CodecLaws codec := toy_codec_laws _.
#[local] Existing Instances ReencryptExample.two_shares ReencryptExample.two_shares_law.

Definition blk (i : Z) (hash : bytes) (data : bytes) (next : list bytes) : SkipBlock := {|
  sb_Fix := {| Index := i; BackLinkIDs := [[x01]]; ParentBlockID := []; GenesisID := [x01];
               Data := data; sb_Roster := Some ros; fix_rest := [] |};
  Hash := hash; ForwardLink := (λ h, {| bl_Hash := h; bl_Signature := h |}) <$> next;
  ChildSL := [] |}.

(** What the data of the blocks decodes to. *)
Lemma decodes :
  NewDataOCS (C := codec) [xa0] = Ret (Some empty_data) ∧
  NewDataOCS (C := codec) [xa1] = Ret (Some d_write) ∧
  NewDataOCS (C := codec) [xa2] = Ret (Some (d_read 42 [x02])) ∧
  NewDataOCS (C := codec) [xa3] = Ret (Some d_old) ∧
  NewDataOCS (C := codec) [xa4] = Ret (Some (d_read 9 [x04])) ∧
  NewDataOCS (C := codec) [xa5] = Ret (Some (d_read 66 [x02])).
Proof. repeat split; by_vm. Qed.
Definition decodes1 := proj1 (proj2 decodes).
Definition decodes2 := proj1 (proj2 (proj2 decodes)).
Definition decodes3 := proj1 (proj2 (proj2 (proj2 decodes))).
Definition decodes4 := proj1 (proj2 (proj2 (proj2 (proj2 decodes)))).
Definition decodes5 := proj2 (proj2 (proj2 (proj2 (proj2 decodes)))).

Definition genesis := blk 0 [x01] [xa0] [[x02]].
Definition wblock := blk 1 [x02] [xa1] [[x03]].
Definition rblock := blk 2 [x03] [xa2] [].
Definition h3 : Heap := {[ 0%nat := genesis; 1%nat := wblock; 2%nat := rblock ]}.
Definition bunch3 : SkipBlockBunch := {| bunch_GenesisID := [x01]; Latest := 2%nat;
  SkipBlocks := {[ [x01] := 0%nat; [x02] := 1%nat; [x03] := 2%nat ]} |}.

Definition service (h : Heap) (b : SkipBlockBunch) (l : list (outcome ClientError SkipBlock))
    : Service World :=
  {| st := {| st_heap := h; OCSs := {[ [x01] := b ]};
              Shared := {[ [x01] := ReencryptExample.secret_of 2 ]} |};
     disk := None; me := TreeExample.server 7;
     world := {| answers := l; peers si := {[ [x01] :=
       ReencryptExample.secret_of (if decide (Network.Public si = 3) then 0 else 1) ]} |} |}.

(** A bunch over a heap is well formed, decided by enumeration. *)
Lemma bunch_check (h : Heap) (b : SkipBlockBunch) :
  Forall (λ kp, match h !! kp.2 with
                | Some sb => Hash sb = kp.1 ∧
                             match h !! Latest b with
                             | Some l => Index (sb_Fix sb) <= Index (sb_Fix l)
                             | None => False
                             end
                | None => False
                end) (map_to_list (SkipBlocks b)) →
  (∃ l, h !! Latest b = Some l ∧ SkipBlocks b !! Hash l = Some (Latest b)) →
  BunchInv h b.
Proof.
  rewrite Forall_forall. intros H (l & Hl & Hin).
  split.
  - intros k p Hk%elem_of_map_to_list. specialize (H _ Hk). cbn in H.
    destruct (h !! p) as [sb|]; [|done]. destruct H. eauto.
  - exists l. do 2 (split; [done|]). intros k p sb Hk%elem_of_map_to_list Hp.
    specialize (H _ Hk). cbn in H. rewrite Hp, Hl in H. tauto.
Qed.

Lemma service_inv h b l : BunchInv h b → bunch_GenesisID b = [x01] → SInv (service h b l).
Proof. intros HB Hg. by apply map_Forall_singleton. Qed.

Lemma bunch3_inv : BunchInv h3 bunch3.
Proof.
  apply bunch_check; [|eexists; done].
  lazymatch goal with
  | |- Forall ?f ?l => let l' := eval vm_compute in l in change (Forall f l')
  end.
  repeat (apply Forall_cons; split; [vm_compute; split; [reflexivity|by intros]|]).
  by apply Forall_nil.
Qed.
Definition inv3 l : SInv (service h3 bunch3 l) := service_inv _ _ l bunch3_inv eq_refl.

Lemma verify_ocs_read_correct_witness :
  verifyOCS (blk 3 [x05] [xa2] []) (service h3 bunch3 []) = Ret true ∧
  ∃ readers sg pk, names_file (service h3 bunch3 []) [x01] (read_data 42 [x02]) readers ∧
    pk ∈ Ocs.dr_Readers readers ∧ VerifySchnorr (S := Zsuite) pk [x02] sg = Ret tt.
Proof.
  assert (verifyOCS (blk 3 [x05] [xa2] []) (service h3 bunch3 []) = Ret true) as H
    by (by_vm).
  split; [exact H|].
  destruct (proj1 (verify_ocs_read_correct (service h3 bunch3 []) (blk 3 [x05] [xa2] [])
    (d_read 42 [x02]) (read_data 42 [x02]) (inv3 []) decodes2 eq_refl eq_refl) H)
    as (_ & rs & sg & pk & Hf & _ & Hpk & Hv).
  exists rs, sg, pk. exact (conj Hf (conj Hpk Hv)).
Defined.

(** The same signature with the key 66 of somebody else. *)
Lemma verify_ocs_read_unbound_key_witness :
  verifyOCS (blk 3 [x05] [xa5] []) (service h3 bunch3 []) = Ret true.
Proof.
  apply (verify_ocs_read_unbound_key (service h3 bunch3 []) (blk 3 [x05] [xa2] [])
    (blk 3 [x05] [xa5] []) (d_read 42 [x02]) (d_read 66 [x02]) (read_data 42 [x02])
    (read_data 66 [x02]) (inv3 []) decodes2 decodes5 eq_refl eq_refl eq_refl eq_refl eq_refl
    eq_refl eq_refl).
  by_vm.
Defined.


(** A new write: one attempt meets a block in progress, the second succeeds. *)
Definition in_prog : outcome ClientError SkipBlock := Err (NewClientErrorCode 4102 "in progress").
Definition new_block := blk 3 [x05] [xa1] [].
Definition svc := service h3 bunch3 [in_prog; Ret new_block].
Definition svc1 := service h3 bunch3 [Ret new_block].
Definition ots_req : Ocs.OTSWriteRequest :=
  {| Ocs.owr_Write := Some write_data; Ocs.owr_Readers := Some readers; Ocs.owr_OCS := [x01] |}.

Lemma handlers_keep_storage_witness :
  blocks_evolve h3 {[ [x01] := bunch3 ]}
    (st_heap (st (OTSWriteRequest 2 ots_req svc).2)) (OCSs (st (OTSWriteRequest 2 ots_req svc).2)).
Proof.
  apply (handlers_keep_storage (λ s, (OTSWriteRequest 2 ots_req s).2)
    ltac:(right; left; by exists 2%nat, ots_req) svc (inv3 _)).
Defined.

Lemma svc_busy : busy [x01] (Some ros) d_write 1 svc svc1.
Proof. eapply busy_retry; [reflexivity|reflexivity|]. apply busy_none. Qed.

Definition svc2 : Service World := (BunchAddBlock [x01] (Some ros) d_write svc1).2.

Lemma fst_pair {A B} (p : A * B) a : p.1 = a → p = (a, p.2).
Proof. destruct p. by intros <-. Qed.

Lemma add_retry_result_witness :
  ∃ s2, add_retry 2 [x01] (Some ros) d_write svc = (Ret 3%nat, s2) ∧ in_chain s2 [x01] 3%nat.
Proof.
  destruct (proj1 (add_retry_result [x01] (Some ros) d_write svc) 1%nat svc1 (Ret 3%nat)
    svc2 svc_busy) as [Hr Hc].
  - apply fst_pair. by_vm.
  - by intros (? & ? & _).
  - eexists. split; [apply Hr; lia|]. by apply Hc; [apply inv3|].
Defined.

Lemma ots_write_request_stores_witness :
  ∃ s3, OTSWriteRequest 2 ots_req svc = (Ret 3%nat, s3) ∧ in_chain s3 [x01] 3%nat.
Proof.
  destruct (proj2 (ots_write_request_stores ots_req svc) bunch3 0%nat genesis 1%nat svc1 3%nat
    svc2 (Some ros) 3 svc2 ros (inv3 _) eq_refl eq_refl eq_refl svc_busy)
    as [Hr Hc].
  - apply fst_pair. by_vm.
  - by_vm.
  - reflexivity.
  - by_vm.
  - eexists. split; [apply Hr; lia|exact Hc].
Defined.

Definition svc3 := service h3 bunch3 [].
Definition doc3 : Ocs.ReadDoc :=
  {| Ocs.doc_Reader := 42; Ocs.doc_ReadID := [x03]; Ocs.doc_DataID := [x02] |}.

Lemma walk3 : walk svc3 (Some 0%nat) [genesis; wblock; rblock].
Proof.
  eapply walk_next; [reflexivity..|]. eapply walk_next; [reflexivity..|].
  by eapply walk_last.
Qed.

(** With a count all is well; without, a read of the other write [x04] on the
    chain of the write [x02] is enough to block the request. *)
Definition h4 : Heap := {[ 0%nat := genesis; 1%nat := wblock; 2%nat := blk 2 [x03] [xa4] [] ]}.

Lemma ocs_blocks3 : Forall ocs_block [genesis; wblock; rblock].
Proof. repeat (apply Forall_cons; split; [vm_cast_no_check I|]). by apply Forall_nil. Qed.
Lemma ocs_blocks4 : Forall ocs_block [wblock; blk 2 [x03] [xa4] []].
Proof. repeat (apply Forall_cons; split; [vm_cast_no_check I|]). by apply Forall_nil. Qed.
Lemma walk4 : walk (service h4 bunch3 []) (Some 1%nat) [wblock; blk 2 [x03] [xa4] []].
Proof. eapply walk_next; [reflexivity..|]. by eapply walk_last. Qed.
Lemma reads3 : omap read_of [genesis; wblock; rblock] = [doc3].
Proof. by_vm. Qed.
Lemma reads4 : omap read_of [wblock; blk 2 [x03] [xa4] []] =
  [{| Ocs.doc_Reader := 9; Ocs.doc_ReadID := [x03]; Ocs.doc_DataID := [x04] |}].
Proof. by_vm. Qed.

Lemma get_read_requests_correct_witness :
  GetReadRequests 4 {| Ocs.grr_Start := [x01]; Ocs.grr_Count := 5 |} svc3 = Ret [doc3] ∧
  ∀ fuel, GetReadRequests fuel {| Ocs.grr_Start := [x02]; Ocs.grr_Count := 0 |}
            (service h4 bunch3 []) = OutOfFuel.
Proof.
  split.
  - pose proof (proj1 (get_read_requests_correct svc3
      {| Ocs.grr_Start := [x01]; Ocs.grr_Count := 5 |} 0%nat genesis _ 4 eq_refl eq_refl walk3
      ocs_blocks3 ltac:(cbn [length]; lia)) ltac:(discriminate)) as H.
    rewrite reads3 in H. exact H.
  - pose proof (proj1 (proj2 (get_read_requests_correct (service h4 bunch3 [])
      {| Ocs.grr_Start := [x02]; Ocs.grr_Count := 0 |} 1%nat wblock _ 3 eq_refl eq_refl walk4
      ocs_blocks4 ltac:(cbn [length]; lia))) eq_refl d_write write_data decodes1 eq_refl) as H.
    rewrite reads4 in H. case_decide as Hd; [|exact H].
    exfalso. apply Forall_cons in Hd as [Hd _]. discriminate Hd.
Defined.

Lemma get_read_requests_terminates_witness :
  ∃ l, walk svc3 (Some 0%nat) l ∧ Z.of_nat (length l) <= 3.
Proof.
  destruct (get_read_requests_terminates svc3 [x01] bunch3 [x01] 0%nat genesis rblock (inv3 []))
    as (l & Hw & Hl & _); try reflexivity.
  - intros id p sb fl fls Hp Hsb.
    assert (p = 0%nat ∧ sb = genesis ∨ p = 1%nat ∧ sb = wblock ∨ p = 2%nat ∧ sb = rblock)
      as [[-> ->]|[[-> ->]|[-> ->]]].
    { cbn in Hsb. unfold h3 in Hsb.
      apply lookup_insert_Some in Hsb as [[<- <-]|[_ Hsb]]; [auto|].
      apply lookup_insert_Some in Hsb as [[<- <-]|[_ Hsb]]; [auto|].
      apply lookup_singleton_Some in Hsb as [<- <-]. auto. }
    all: split; [reflexivity|]; intros [= <- <-]; eexists _, _;
      do 2 (split; [reflexivity|]); cbn; lia.
  - exists l. split; [exact Hw|]. exact Hl.
Defined.

(** Node 7 of three, holding the share with index 2, serves a read by key 9 of
    the file [x04]. *)
Definition h5 : Heap := {[ 0%nat := genesis; 1%nat := blk 1 [x04] [xa3] [];
                           2%nat := blk 2 [x06] [xa4] [] ]}.
Definition bunch5 : SkipBlockBunch := {| bunch_GenesisID := [x01]; Latest := 2%nat;
  SkipBlocks := {[ [x01] := 0%nat; [x04] := 1%nat; [x06] := 2%nat ]} |}.
Definition svc5 := service h5 bunch5 [].
Definition sec5 (si : ServerIdentity) : SharedSecret (S := Zsuite) :=
  ReencryptExample.secret_of
    (if decide (Network.Public si = 3) then 0 else if decide (Network.Public si = 7) then 2 else 1).

Lemma decrypt_key_request_correct_witness :
  ∃ reply, DecryptKeyRequest [x06] svc5 = Ret reply ∧
    DecodeKey (S := Zsuite) (Ocs.dk_X reply) (Ocs.dk_Cs reply) (Ocs.dk_XhatEnc reply) 9
    = Ret ReencryptExample.key.
Proof.
  destruct encoded as [[[Ku Cs] rnd']|?|?|] eqn:HE; [|vm_compute in HE; discriminate HE..].
  apply (decrypt_key_request_correct svc5 [x06] (read_data 9 [x04]) (blk 1 [x04] [xa3] []) old_write
    ros 2 ReencryptExample.poly sec5 ReencryptExample.key 77 9 3 Ku rnd').
  - eexists 2%nat, _, _, 1%nat, _. do 2 (split; [reflexivity|]). split; [exact decodes4|].
    do 3 (split; [reflexivity|]). split; [exact decodes3|reflexivity].
  - reflexivity.
  - by apply (bool_decide_unpack _).
  - reflexivity.
  - split.
    + reflexivity.
    + intros si Hsi Hne. cbn in Hsi. rewrite !elem_of_cons, elem_of_nil in Hsi.
      by destruct Hsi as [->|[->|[->|[]]]].
    + intros si Hsi. cbn in Hsi. rewrite !elem_of_cons, elem_of_nil in Hsi.
      destruct Hsi as [->|[->|[->|[]]]]; (split; [vm_compute; done|reflexivity]).
    + by apply (bool_decide_unpack _).
  - exact ReencryptExample.two_shares_law.
  - cbn. lia.
  - reflexivity.
  - reflexivity.
  - reflexivity.
  - unfold old_write. by rewrite HE.
  - unfold old_write. rewrite HE. exact HE.
Defined.

Lemma decrypt_key_request_unknown_witness :
  DecryptKeyRequest [x77] svc5 = Panic "nil pointer dereference".
Proof. apply (proj1 (decrypt_key_request_unknown svc5 [x77])). reflexivity. Defined.
End OcsServiceExample.
