(* ===== verification/Otssmc.v ===== *)
(** * The decryption protocol of the trustees ([otssmc])

    [protocol.go]: the check of a decryption request, the re-encryption of a
    share for the reader and what the leaves and the root of the tree do;
    [service.go]: the request handler; [api.go]: the client call.  What a node
    holds besides the request (its private key, its randomness) is [NodeLib],
    the collective signature check [CosiLib]. *)
From S2P Require Import Prelude Sha256 Suite Schnorr Tree Skipchain Messages.
Local Open Scope Z_scope.

Class CosiLib {S : Suite} := {
  (** [cosi.VerifySignature(suite, publics, message, signature)]. *)
  cosi_VerifySignature : list Point → bytes → bytes → outcome error unit;
}.
Arguments CosiLib : clear implicits.

(** The hosts of the system: their keys and random streams, and the order in
    which the overlay collects the answers of children. *)
Class NodeLib {S : Suite} := {
  host_private : ServerIdentity → Scalar;
  host_random : ServerIdentity → Stream;
  arrival : list (Smc.DecryptedShare) → list (Smc.DecryptedShare);
}.
Arguments NodeLib : clear implicits.

Class NodeLaws {S : Suite} (N : NodeLib S) : Prop :=
  arrival_perm l : arrival l ≡ₚ l.

Module Otssmc.
Section otssmc.
Context {S : Suite} {U : UuidLib} {P : PvssLib S} {L : SkipchainLib} {C : Codec P}.
Context {Co : CosiLib S}.

(** [min]. *)
Definition min (a b : Z) : Z := if a <? b then a else b.

(** The loop of [elGamalEncrypt]; a message of [n] bytes takes at most [n]
    rounds. *)
Fixpoint elgamal_loop (fuel : nat) (s : Point) (msg : bytes) (random : Stream)
    : outcome error (list Point * Stream) :=
  match msg with
  | [] => Ret ([], random)
  | _ =>
      match fuel with
      | O => OutOfFuel
      | Datatypes.S fuel =>
          let '(kp, _, random) := point_pick msg random in
          let msg := drop (Z.to_nat (min (Z.of_nat (length msg))
                                         (Z.of_nat (point_pick_len kp)))) msg in
          let! (Cs, random) := elgamal_loop fuel s msg random in
          Ret (point_add s kp :: Cs, random)
      end
  end.

(** [elGamalEncrypt]: nil and nil when the share cannot be marshalled. *)
Definition elGamalEncrypt (ds : PubVerShare) (rPubKey : Point) (random : Stream)
    : outcome error (option Point * list Point * Stream) :=
  match Marshal (MPubVerShare ds) with
  | Ret msg =>
      let '(k, random) := scalar_pick random in
      let K := point_mul None k in
      let s := point_mul (Some rPubKey) k in
      let! (Cs, random) := elgamal_loop (length msg) s msg random in
      Ret (Some K, Cs, random)
  | Err _ => Ret (None, [], random)
  | Panic w => Panic w
  | OutOfFuel => OutOfFuel
  end.

(** [tmp.( *ocs.DataOCS)]. *)
Definition as_DataOCS (m : Message) : outcome error Ocs.DataOCS :=
  match m with MDataOCS d => Ret d | _ => Panic "interface conversion" end.

(** [verifyDecryptionRequest]. *)
Definition verifyDecryptionRequest (req : option Smc.DecryptRequestData) (sig : option SchnorrSig)
    : outcome error Ocs.OTSWrite :=
  let! decReqData := deref req in
  let! writeSBF := deref (Smc.WriteSBF decReqData) in
  let! tmp := Unmarshal (Data writeSBF) in
  let! d := as_DataOCS tmp in
  let! otsWrite := deref (Ocs.d_OTSWrite d) in
  let writeData := Ocs.dow_Data otsWrite in
  let! readSBF := deref (Smc.ReadSBF decReqData) in
  let! tmp := Unmarshal (Data readSBF) in
  let! d := as_DataOCS tmp in
  let read := Ocs.d_Read d in
  let! drd := Marshal (MDecryptRequestData decReqData) in
  let drdHash := Sum256 drd in
  let! writeData := deref writeData in
  let! sig := deref sig in
  let! _ := VerifySchnorr (Ocs.ow_ReaderPk writeData) drdHash sig in
  let readSBHash := CalculateHash readSBF in
  let! proof := deref (Smc.InclusionProof decReqData) in
  if decide (length (bl_Signature proof) = 0%nat) then Err "No signature present on forward-link"
  else if negb (id_Equal (bl_Hash proof) readSBHash)
  then Err "Forward link hash does not match read transaction hash"
  else
    let! _ := cosi_VerifySignature (Smc.ACPublicKeys decReqData) (bl_Hash proof)
                (bl_Signature proof) in
    let writeSBHash := CalculateHash writeSBF in
    let! read := deref read in
    if negb (id_Equal (Ocs.rd_DataID read) writeSBHash)
    then Err "Invalid write block hash in the read block"
    else Ret writeData.

Definition nil_share : Smc.DecryptedShare := {| Smc.ds_K := None; Smc.ds_Cs := [] |}.

(** The share of the trustee with index [idx], decrypted and re-encrypted for
    the reader; without [K] and [Cs] when it cannot be decrypted. *)
Definition own_share (idx : Z) (public : Point) (private : Scalar) (random : Stream)
    (writeData : Ocs.OTSWrite) : outcome error Smc.DecryptedShare :=
  let! h := CreatePointH (Ocs.ow_ReaderPk writeData) in
  let! proof := index (Ocs.ow_EncProofs writeData) idx in
  let! encShare := index (Ocs.ow_EncShares writeData) idx in
  match DecShare h public proof private encShare random with
  | Ret (tempSh, random) =>
      let! (K, Cs, _) := elGamalEncrypt tempSh (Ocs.ow_ReaderPk writeData) random in
      Ret {| Smc.ds_K := K; Smc.ds_Cs := Cs |}
  | Err _ => Ret nil_share
  | Panic w => Panic w
  | OutOfFuel => OutOfFuel
  end.

(** The fields of a protocol instance. *)
Record OTSDecrypt := {
  DecReqData : option Smc.DecryptRequestData;
  Signature : option SchnorrSig;
  p_RootIndex : Z;
}.

Context {N : NodeLib S}.

(** [Dispatch] of a leaf with the announcement it got: the reply it sends. *)
Definition dispatch_leaf (node : Trees.TreeNode) (p : OTSDecrypt)
    : outcome error Smc.DecryptedShare :=
  let! writeData := verifyDecryptionRequest (DecReqData p) (Signature p) in
  let! si := deref (Trees.tn_ServerIdentity node) in
  own_share (Trees.tn_RosterIndex node) (Network.Public si) (host_private si) (host_random si)
            writeData.

(** [Dispatch] of the root, once the replies of all children are there: what it
    sends on [DecShares]. *)
Definition dispatch_root (si : ServerIdentity) (p : OTSDecrypt) (reply : list Smc.DecryptedShare)
    : outcome error (list Smc.DecryptedShare) :=
  let! writeData := verifyDecryptionRequest (DecReqData p) (Signature p) in
  let! ds := own_share (p_RootIndex p) (Network.Public si) (host_private si) (host_random si)
               writeData in
  Ret (reply ++ [ds]).

(** What a child does: one that is not a leaf waits for the replies of its own
    children, to whom nobody sends an announcement. *)
Definition child_reply (p : OTSDecrypt) (c : Trees.TreeNode) : outcome error Smc.DecryptedShare :=
  if Trees.IsLeaf c then match dispatch_leaf c p with Err _ => OutOfFuel | r => r end else OutOfFuel.

(** A run of the protocol.  [OutOfFuel] is a request that waits for ever: for a
    child that does not reply, for the share of a root that ended with an error,
    or, alone in the tree, for an announcement.  A panic ends the node. *)
Definition run (t : Trees.Tree) (p : OTSDecrypt) : outcome error (list Smc.DecryptedShare) :=
  let! root := deref (Trees.t_Root t) in
  let! si := deref (Trees.tn_ServerIdentity root) in
  if Trees.IsLeaf root then OutOfFuel
  else
    let! replies := omapM (child_reply p) (Trees.tn_Children root) in
    match dispatch_root si p (arrival replies) with
    | Err _ => OutOfFuel
    | r => r
    end.

Definition ErrorParse : Z := 4000.

(** [DecryptRequest] at the server [me]. *)
Definition DecryptRequest (me : ServerIdentity) (u : nat) (req : Smc.DecryptRequest)
    : outcome error (list Smc.DecryptedShare) :=
  let! r := deref (Smc.req_Roster req) in
  let childCount := Z.of_nat (length (Rosters.List r)) - 1 in
  let! (tree, _) := Trees.GenerateNaryTreeWithRoot r childCount me u in
  match tree with
  | None => Err "couldn't create tree"
  | Some tree =>
      run tree {| DecReqData := Smc.req_Data req; Signature := Smc.req_Signature req;
                  p_RootIndex := Smc.RootIndex req |}
  end.

(** [OTSDecrypt] of the client; the request reaches the server it is sent to. *)
Definition client_OTSDecrypt (u : nat) (r : option Roster) (writeSBF readSBF : option SkipBlockFix)
    (inclusionProof : option BlockLink) (acPubKeys : list Point) (privKey : Scalar)
    (random : Stream) : outcome error (list Smc.DecryptedShare) :=
  let data := {| Smc.WriteSBF := writeSBF; Smc.ReadSBF := readSBF;
                 Smc.InclusionProof := inclusionProof; Smc.ACPublicKeys := acPubKeys |} in
  let! msg := Marshal (MDecryptRequestData data) in
  let! (sig, _) := SignMessage msg privKey random in
  let rootIdx := 0 in
  let req := {| Smc.RootIndex := rootIdx; Smc.req_Roster := r; Smc.req_Data := Some data;
                Smc.req_Signature := Some sig |} in
  let! ros := deref r in
  let! dst := index (Rosters.List ros) rootIdx in
  DecryptRequest dst u req.

(** ** The client's decryption ([otsclient/ots.go]) *)

(** One share of [ElGamalDecrypt]: parts without data are skipped. *)
Definition decrypt_share (privKey : Scalar) (tmp : Smc.DecryptedShare)
    : outcome error PubVerShare :=
  let! decSh := ofoldM (λ decSh c,
    let s := point_mul (Smc.ds_K tmp) privKey in
    let decShPart := point_sub c s in
    match point_data decShPart with
    | Ret d => Ret (decSh ++ d)
    | Err _ => Ret decSh
    | Panic w => Panic w
    | OutOfFuel => OutOfFuel
    end) [] (Smc.ds_Cs tmp) in
  let! tmpSh := Unmarshal decSh in
  match tmpSh with
  | MPubVerShare sh => Ret sh
  | _ => Panic "interface conversion"
  end.

Definition ElGamalDecrypt (shares : list Smc.DecryptedShare) (privKey : Scalar)
    : outcome error (list PubVerShare) :=
  omapM (decrypt_share privKey) shares.

(** ** Lemmas *)

Section lemmas.
Context {SLaws : SuiteLaws S} {CL : CodecLaws C}.

Lemma elgamal_loop_total fuel s msg rnd :
  (length msg <= fuel)%nat → ∃ Cs rnd', elgamal_loop fuel s msg rnd = Ret (Cs, rnd').
Proof.
  revert msg rnd. induction fuel as [|fuel IH]; intros msg rnd Hf.
  - destruct msg; [cbn; eauto|cbn in Hf; lia].
  - destruct msg as [|b msg]; [cbn; eauto|]. cbn [elgamal_loop].
    destruct (point_pick (b :: msg) rnd) as [[kp r] rnd'].
    pose proof (point_pick_len_pos kp) as Hp.
    destruct (IH (drop (Z.to_nat (min (Z.of_nat (length (b :: msg))) (Z.of_nat (point_pick_len kp))))
                (b :: msg)) rnd') as (Cs & rnd2 & ->); [|cbn; eauto].
    rewrite length_drop. unfold min. cbn [length] in *. destruct (_ <? _); lia.
Qed.

(** Taking the mask off gives the message back. *)
Lemma decrypt_encrypted fuel s s' msg rnd Cs rnd' acc :
  s ≡ s' → elgamal_loop fuel s msg rnd = Ret (Cs, rnd') →
  ofoldM (λ decSh c, match point_data (point_sub c s') with
                     | Ret d => Ret (decSh ++ d)
                     | Err _ => Ret decSh
                     | Panic w => Panic w
                     | OutOfFuel => OutOfFuel
                     end) acc Cs = Ret (E := error) (acc ++ msg).
Proof.
  intros Hs. revert msg rnd Cs acc. induction fuel as [|fuel IH]; intros msg rnd Cs acc.
  { destruct msg; [|done]. intros [= <- <-]. cbn. by rewrite app_nil_r. }
  destruct msg as [|b msg]; [intros [= <- <-]; cbn; by rewrite app_nil_r|].
  cbn [elgamal_loop]. pose proof (point_pick_data (b :: msg) rnd ltac:(done)) as Hd.
  destruct (point_pick (b :: msg) rnd) as [[kp r] rnd1]. cbn [fst snd] in Hd.
  intros ([Cs' rnd2] & Hloop & [= <- <-])%obind_ret_inv. cbn [ofoldM].
  rewrite (point_data_proper _ kp).
  2: { rewrite <-Hs, (point_add_comm s). rewrite point_sub_def, <-point_add_assoc, point_add_neg.
       apply point_add_null_r. }
  rewrite Hd. cbn [obind]. rewrite (IH _ _ _ _ Hloop), <-app_assoc. f_equal. f_equal.
  destruct (take_drop_min (point_pick_len kp) (b :: msg)) as [_ Hmin]. unfold min.
  replace (Z.to_nat _) with (Init.Nat.min (length (b :: msg)) (point_pick_len kp)).
  2: { destruct (Z.ltb_spec (Z.of_nat (length (b :: msg))) (Z.of_nat (point_pick_len kp))); lia. }
  rewrite Hmin, take_drop. done.
Qed.

Lemma elGamalEncrypt_total ds pk rnd :
  ∃ K Cs rnd', elGamalEncrypt ds pk rnd = Ret (Some K, Cs, rnd').
Proof.
  unfold elGamalEncrypt. destruct (marshal_share ds) as (b & -> & _ & _).
  destruct (scalar_pick rnd) as [k rnd1].
  destruct (elgamal_loop_total (length b) (point_mul (Some pk) k) b rnd1) as (Cs & rnd2 & ->);
    [done|]. cbn. eauto.
Qed.

Lemma decrypt_share_encrypted ds pk x rnd K Cs rnd' :
  pk ≡ point_mul None x → elGamalEncrypt ds pk rnd = Ret (K, Cs, rnd') →
  ∃ ds', decrypt_share x {| Smc.ds_K := K; Smc.ds_Cs := Cs |} = Ret ds' ∧ ds' ≡ ds.
Proof.
  intros Hpk. unfold elGamalEncrypt, decrypt_share.
  destruct (marshal_share ds) as (b & -> & _ & ds' & Hds & Heq).
  destruct (scalar_pick rnd) as [k rnd1].
  intros ([Cs' rnd2] & Hloop & [= <- <- <-])%obind_ret_inv. cbn [Smc.ds_K Smc.ds_Cs].
  assert (point_mul (Some pk) k ≡ point_mul (Some (point_mul None k)) x) as Hs.
  { rewrite (point_mul_proper _ _ k Hpk). apply diffie_hellman. }
  rewrite (decrypt_encrypted _ _ _ _ _ _ _ [] Hs Hloop). cbn. rewrite Hds. cbn. eauto.
Qed.
End lemmas.
End otssmc.
End Otssmc.

(** ** Properties *)

Section props.
Import Otssmc.
Context {S : Suite} {U : UuidLib} {P : PvssLib S} {L : SkipchainLib} {C : Codec P}.
Context {Co : CosiLib S} {N : NodeLib S}.

(** What a valid decryption request proves to a trustee: the write block holds
    the write [w], the read block a read of it, the reader named in the write
    has signed the request, and a collective signature links to the read
    block. *)
Definition valid_request (req : Smc.DecryptRequestData) (sig : SchnorrSig) (w : Ocs.OTSWrite) : Prop :=
  ∃ write read proof dw ow dr rd msg,
    Smc.WriteSBF req = Some write ∧ Smc.ReadSBF req = Some read ∧
    Smc.InclusionProof req = Some proof ∧
    (Unmarshal (Data write) = Ret (MDataOCS dw) ∧ Ocs.d_OTSWrite dw = Some ow ∧
     Ocs.dow_Data ow = Some w) ∧
    (Unmarshal (Data read) = Ret (MDataOCS dr) ∧ Ocs.d_Read dr = Some rd ∧
     Ocs.rd_DataID rd = CalculateHash write) ∧
    (Marshal (MDecryptRequestData req) = Ret msg ∧
     VerifySchnorr (Ocs.ow_ReaderPk w) (Sum256 msg) sig = Ret tt) ∧
    (bl_Signature proof ≠ [] ∧ bl_Hash proof = CalculateHash read ∧
     cosi_VerifySignature (Smc.ACPublicKeys req) (bl_Hash proof) (bl_Signature proof) = Ret tt).

Lemma deref_Ret {A} (o : option A) a : deref (E := error) o = Ret a → o = Some a.
Proof. destruct o; [by intros [= ->]|done]. Qed.

Lemma as_DataOCS_Ret m d : as_DataOCS m = Ret d → m = MDataOCS d.
Proof. destruct m; try done. by intros [= ->]. Qed.

Lemma verify_valid {LL : SkipchainLaws L} req sig w :
  verifyDecryptionRequest (Some req) (Some sig) = Ret w ↔ valid_request req sig w.
Proof.
  split.
  - unfold verifyDecryptionRequest. cbn [deref obind].
    intros (write & Hw%deref_Ret & (m1 & Hm1 & (dw & ->%as_DataOCS_Ret & (ow & How%deref_Ret &
      (read & Hr%deref_Ret & (m2 & Hm2 & (dr & ->%as_DataOCS_Ret & (msg & Hmsg & (w' & Hw'%deref_Ret &
      ([] & Hsig & (proof & Hp%deref_Ret & Hrest)%obind_ret_inv)%obind_ret_inv)%obind_ret_inv
      )%obind_ret_inv)%obind_ret_inv)%obind_ret_inv)%obind_ret_inv)%obind_ret_inv)%obind_ret_inv
      )%obind_ret_inv)%obind_ret_inv.
    rewrite !id_Equal_spec in Hrest. case_decide as Hlen; [done|].
    case_bool_decide as Hh; cbn [negb] in Hrest; [|done].
    apply obind_ret_inv in Hrest as ([] & Hcosi & (rd & Hrd%deref_Ret & Hrest)%obind_ret_inv).
    rewrite id_Equal_spec in Hrest. case_bool_decide as Hid; cbn [negb] in Hrest; [|done].
    injection Hrest as <-. exists write, read, proof, dw, ow, dr, rd, msg.
    do 6 (split; [done|]). split; [|done]. intros E. apply Hlen. by rewrite E.
  - intros (write & read & proof & dw & ow & dr & rd & msg & Hw & Hr & Hp & (Hm1 & How & Hw') &
      (Hm2 & Hrd & Hid) & (Hmsg & Hsig) & (Hlen & Hh & Hcosi)).
    unfold verifyDecryptionRequest. cbn [deref obind].
    rewrite Hw. cbn. rewrite Hm1. cbn. rewrite How. cbn. rewrite Hr. cbn. rewrite Hm2. cbn.
    rewrite Hmsg. cbn. rewrite Hw'. cbn. rewrite Hsig. cbn. rewrite Hp. cbn.
    rewrite decide_False by (intros ?%length_zero_iff_nil; done).
    rewrite !id_Equal_spec, bool_decide_true by done. cbn. rewrite Hcosi. cbn.
    rewrite Hrd. cbn. rewrite id_Equal_spec, bool_decide_true by done. done.
Qed.

(** C5: a trustee decrypts exactly for valid requests: [verifyDecryptionRequest]
    returns a write if and only if the request is a valid request for it. *)
Theorem verify_decryption_request_correct {LL : SkipchainLaws L} req sig w :
  verifyDecryptionRequest (Some req) (Some sig) = Ret w ↔ valid_request req sig w.
Proof. apply verify_valid. Qed.

(** ElGamal for the reader: encrypting a share ends, and decrypting what it
    gives with the private key to the reader's public key gives an equal share,
    whatever the randomness and the number of points. *)
Theorem elgamal_roundtrip {SLaws : SuiteLaws S} {CL : CodecLaws C} ds pk x rnd :
  pk ≡ point_mul None x →
  ∃ K Cs rnd', elGamalEncrypt ds pk rnd = Ret (Some K, Cs, rnd') ∧ Cs ≠ [] ∧
    ∃ ds', ElGamalDecrypt [{| Smc.ds_K := Some K; Smc.ds_Cs := Cs |}] x = Ret [ds'] ∧ ds' ≡ ds.
Proof.
  intros Hpk. destruct (elGamalEncrypt_total ds pk rnd) as (K & Cs & rnd' & HE).
  exists K, Cs, rnd'. split; [done|].
  split.
  - intros ->. unfold elGamalEncrypt in HE. destruct (marshal_share ds) as (b & Hb & Hne & _).
    rewrite Hb in HE. destruct (scalar_pick rnd) as [k rnd1]. destruct b as [|x0 b]; [done|].
    cbn in HE. destruct (point_pick (x0 :: b) rnd1) as [[kp r] rnd2].
    apply obind_ret_inv in HE as ([Cs' rnd3] & Hl & [= _ HCs _]). subst.
    by apply obind_ret_inv in Hl as ([Cs'' ?] & _ & [= ? _]).
  - destruct (decrypt_share_encrypted _ _ _ _ _ _ _ Hpk HE) as (ds' & Hd & Heq).
    exists ds'. split; [|done]. unfold ElGamalDecrypt. cbn. by rewrite Hd.
Qed.

(** One share that could not be decrypted by its trustee (no [K], no [Cs])
    makes the reader's decryption of all shares fail, however many good shares
    there are, when empty data does not unmarshal. *)
Theorem elgamal_decrypt_needs_all shares1 shares2 x e :
  Unmarshal [] = Err e → ∀ l, ElGamalDecrypt (shares1 ++ nil_share :: shares2) x ≠ Ret l.
Proof.
  intros He l. unfold ElGamalDecrypt. revert l.
  induction shares1 as [|sh shares1 IH]; intros l; cbn.
  - unfold decrypt_share at 1. cbn. by rewrite He.
  - intros (a & _ & (b & Hb & _)%obind_ret_inv)%obind_ret_inv. by eapply IH.
Qed.

(** *** The protocol *)

Section sharing.
Context {SLaws : SuiteLaws S} {CL : CodecLaws C} {PL : PvssLaws P}.

(** The write [w] shares a secret among the keys of [servers]. *)
Record write_shares (w : Ocs.OTSWrite) (servers : list ServerIdentity) (h : Point)
    (poly : CommitPoly) (secret : Scalar) (t : Z) : Prop := {
  ws_h : CreatePointH (Ocs.ow_ReaderPk w) = Ret h;
  ws_keys : Ocs.ow_SCPublicKeys w = Network.Public <$> servers;
  ws_shares : ∃ rnd rnd', EncShares h (Ocs.ow_SCPublicKeys w) secret t rnd
                          = Ret (Ocs.ow_EncShares w, poly, rnd');
  ws_proofs : Ocs.ow_EncProofs w
              = (λ s, poly_Eval poly (share_I s)) <$> Ocs.ow_EncShares w;
  ws_private : Forall (λ si, Network.Public si ≡ point_mul None (host_private si)) servers;
}.

(** [e] holds, encrypted for the reader with key [y], the share of trustee
    [i]: decrypting it gives [d]. *)
Definition answers (w : Ocs.OTSWrite) (h : Point) (poly : CommitPoly) (y : Scalar)
    (i : nat) (e : Smc.DecryptedShare) (d : PubVerShare) : Prop :=
  decrypt_share y e = Ret d ∧ share_I d = Z.of_nat i ∧
  ∃ s Xi x ds r r', Ocs.ow_EncShares w !! i = Some s ∧ Ocs.ow_SCPublicKeys w !! i = Some Xi ∧
    Xi ≡ point_mul None x ∧
    DecShare h Xi (poly_Eval poly (share_I s)) x s r = Ret (ds, r') ∧ d ≡ ds.

Lemma own_share_answers w servers h poly secret t y i si :
  write_shares w servers h poly secret t → Ocs.ow_ReaderPk w ≡ point_mul None y →
  servers !! i = Some si →
  ∃ e d, own_share (Z.of_nat i) (Network.Public si) (host_private si) (host_random si) w = Ret e ∧
         answers w h poly y i e d.
Proof.
  intros [Hh Hk (rnd & rnd' & HE) Hp Hx] Hy Hsi.
  destruct (EncShares_shares _ _ _ _ _ _ _ _ HE) as (Hlen & HI & _).
  assert (Ocs.ow_SCPublicKeys w !! i = Some (Network.Public si)) as HXi
    by (by rewrite Hk, list_lookup_fmap, Hsi).
  destruct (lookup_in_range (Ocs.ow_EncShares w) i) as [s Hs].
  { rewrite Hlen. by eapply lookup_lt_Some. }
  rewrite Forall_lookup in Hx. specialize (Hx _ _ Hsi).
  destruct (DecShare_own _ _ _ _ _ _ _ _ i s _ _ (host_random si) HE Hs HXi Hx)
    as (ds & r' & Hds & HdI).
  destruct (elGamalEncrypt_total ds (Ocs.ow_ReaderPk w) r') as (K & Cs & r2 & Henc).
  destruct (decrypt_share_encrypted _ _ _ _ _ _ _ Hy Henc) as (d & Hd & Heq).
  exists {| Smc.ds_K := Some K; Smc.ds_Cs := Cs |}, d. split.
  - unfold own_share. rewrite Hh. cbn [obind]. rewrite (index_Ret _ i (poly_Eval poly (share_I s))).
    2: { by rewrite Hp, list_lookup_fmap, Hs. }
    cbn [obind]. rewrite (index_Ret _ _ _ Hs). cbn [obind]. rewrite Hds, Henc. done.
  - split; [done|]. split.
    + rewrite (share_I_proper _ _ Heq), HdI. by apply HI.
    + by exists s, (Network.Public si), (host_private si), ds, (host_random si), r'.
Qed.

(** All the answers to a request, in some order. *)
Definition all_answers w h poly y n (shares : list Smc.DecryptedShare) : Prop :=
  ∃ es ds, shares ≡ₚ es ∧ length es = n ∧ length ds = n ∧
    ∀ i e d, es !! i = Some e → ds !! i = Some d → answers w h poly y i e d.

(** The trees the protocol works on: the root is the first server, its children
    are leaves, one for each other server, with their places in the roster. *)
Record star (servers : list ServerIdentity) (t : Trees.Tree) (root : Trees.TreeNode) : Prop := {
  star_root : Trees.t_Root t = Some root;
  star_first : Trees.tn_ServerIdentity root = servers !! 0%nat;
  star_inner : Trees.IsLeaf root = false;
  star_leaves : Forall (λ c, Trees.IsLeaf c = true) (Trees.tn_Children root);
  star_places : ∃ places, places ≡ₚ seq 1 (length servers - 1) ∧
    (λ c, (Trees.tn_ServerIdentity c, Trees.tn_RosterIndex c)) <$> Trees.tn_Children root
    = (λ i, (servers !! i, Z.of_nat i)) <$> places;
}.

Lemma leaves_answer w h poly y p secret t servers cs places :
  write_shares w servers h poly secret t → Ocs.ow_ReaderPk w ≡ point_mul None y →
  verifyDecryptionRequest (DecReqData p) (Signature p) = Ret w →
  Forall (λ c, Trees.IsLeaf c = true) cs → Forall (λ i, i < length servers)%nat places →
  (λ c, (Trees.tn_ServerIdentity c, Trees.tn_RosterIndex c)) <$> cs = (λ i, (servers !! i, Z.of_nat i)) <$> places →
  ∃ es, omapM (child_reply p) cs = Ret (E := error) es ∧
    Forall2 (λ i e, ∃ d, answers w h poly y i e d) places es.
Proof.
  intros Hw Hy Hv Hleaf. revert places. induction Hleaf as [|c cs Hc _ IH]; intros [|i places] Hp Hcs; try done; [by exists []|].
  cbn in Hcs. injection Hcs as Hsi Hix Hcs. apply Forall_cons in Hp as [Hi Hp].
  destruct (lookup_in_range servers i Hi) as [si Hk].
  destruct (own_share_answers _ _ _ _ _ _ _ _ _ Hw Hy Hk) as (e & d & He & Ha).
  destruct (IH places Hp Hcs) as (es & Hes & Hall). exists (e :: es). split; [|constructor; [by exists d|done]].
  cbn [omapM]. unfold child_reply at 1, dispatch_leaf. rewrite Hc, Hv, Hsi, Hk, Hix. cbn [obind deref]. rewrite He. cbn [obind].
  by rewrite Hes.
Qed.

(** Answers in some order are those of the places in order. *)
Lemma answers_in_order w h poly y places es n :
  places ≡ₚ seq 0 n → Forall2 (λ i e, ∃ d, answers w h poly y i e d) places es → all_answers w h poly y n es.
Proof.
  intros Hp Hall. destruct (Permutation.Permutation_Forall2 Hp Hall) as (es' & Hes & Hall').
  assert (∃ ds, length ds = n ∧ ∀ i e d, es' !! i = Some e → ds !! i = Some d → answers w h poly y i e d) as (ds & Hl & Hds).
  { clear -Hall'. assert (∀ k, Forall2 (λ i e, ∃ d, answers w h poly y i e d) (seq k n) es' →
      ∃ ds, length ds = n ∧ ∀ i e d, es' !! i = Some e → ds !! i = Some d → answers w h poly y (k + i) e d) as H.
    { clear Hall'. revert es'. induction n as [|n IH]; intros es k H; [by exists []|].
      apply Forall2_cons_inv_l in H as (e & es2 & [d Hd] & H & ->). destruct (IH _ _ H) as (ds & Hl & Hds).
      exists (d :: ds). split; [cbn; by rewrite Hl|]. intros [|i] e' d' He Hd'; cbn in He, Hd'; simplify_eq.
      - by rewrite Nat.add_0_r.
      - rewrite <-Nat.add_succ_comm. by apply Hds. }
    exact (H 0%nat Hall'). }
  exists es', ds. split; [done|]. split; [|by split]. apply Forall2_length in Hall'. by rewrite length_seq in Hall'.
Qed.

(** A valid request on such a tree is answered by all. *)
Lemma run_answers {NL : NodeLaws N} w h poly secret t y p servers tree root :
  star servers tree root → p_RootIndex p = 0 → servers ≠ [] →
  write_shares w servers h poly secret t → Ocs.ow_ReaderPk w ≡ point_mul None y →
  verifyDecryptionRequest (DecReqData p) (Signature p) = Ret w →
  ∃ shares, run tree p = Ret shares ∧ all_answers w h poly y (length servers) shares.
Proof.
  intros [Hroot Hfirst Hinner Hleaves (places & Hpl & Hcs)] Hp0 Hne Hw Hy Hv. unfold run. rewrite Hroot. cbn [deref obind].
  destruct servers as [|si rest]; [done|]. rewrite Hfirst. cbn [lookup list_lookup deref obind]. rewrite Hinner.
  destruct (leaves_answer w h poly y p secret t (si :: rest) (Trees.tn_Children root) places Hw Hy Hv Hleaves) as (es & -> & Hall); [|done|].
  { rewrite Hpl. apply Forall_seq. cbn. lia. }
  cbn [obind]. unfold dispatch_root. rewrite Hv, Hp0. cbn [obind].
  destruct (own_share_answers _ _ _ _ _ _ _ 0 si Hw Hy eq_refl) as (e & d & He & Ha). change (Z.of_nat 0) with 0 in He. rewrite He. cbn [obind].
  eexists. split; [done|].
  destruct (answers_in_order w h poly y (0%nat :: places) (e :: es) (Datatypes.S (length rest))) as (es' & ds & Hperm & H).
  { cbn [length] in Hpl. rewrite Hpl. cbn. by rewrite Nat.sub_0_r. }
  { constructor; [by exists d|done]. }
  exists es', ds. split; [|done]. by rewrite (arrival_perm es), <-Permutation_cons_append, Hperm.
Qed.

(** The answers of a server that runs the protocol as the first of its roster. *)
Lemma DecryptRequest_answers {NL : NodeLaws N} w h poly secret t y req r si rest u :
  Rosters.List r = si :: rest → rest ≠ [] → Rosters.distinct r →
  write_shares w (Rosters.List r) h poly secret t → Ocs.ow_ReaderPk w ≡ point_mul None y →
  Smc.req_Roster req = Some r → Smc.RootIndex req = 0 →
  verifyDecryptionRequest (Smc.req_Data req) (Smc.req_Signature req) = Ret w →
  ∃ shares, DecryptRequest si u req = Ret shares ∧
            all_answers w h poly y (length (Rosters.List r)) shares.
Proof.
  intros Hr Hrest Hd Hw Hy Hros Hroot Hv. unfold DecryptRequest. rewrite Hros. cbn [deref obind].
  destruct (Trees.star_with_root r 0 si (length rest) u) as (t0 & root & u' & Ht & Ht0 & Hleaf & Hsi & Hls & Hcs);
    [destruct rest; [done|cbn; lia]|by rewrite Hr|done|by rewrite Hr|].
  replace (Z.of_nat (length (Rosters.List r)) - 1) with (Z.of_nat (length rest))
    by (rewrite Hr; cbn; lia).
  rewrite Ht. cbn [obind]. apply (run_answers w h poly secret t y _ (Rosters.List r) t0 root); try done; [|by rewrite Hr].
  constructor; try done; [by rewrite Hsi, Hr|]. exists (seq 1 (length rest)).
  rewrite Hr in Hcs |- *. split; [cbn; by rewrite Nat.sub_0_r|]. rewrite Hcs. change (take 0 (si :: rest) ++ drop (0 + 1) (si :: rest)) with rest.
  apply list_eq. intros k. rewrite list_lookup_imap, list_lookup_fmap. destruct (decide (k < length rest)%nat) as [Hk|Hk].
  - rewrite lookup_seq_lt by done. destruct (lookup_in_range rest k Hk) as [sk Hsk]. rewrite Hsk. cbn [fmap option_fmap option_map].
    change ((si :: rest) !! (1 + k)%nat) with (rest !! k). by rewrite Hsk.
  - rewrite (lookup_ge_None_2 (seq _ _)), (lookup_ge_None_2 rest) by (rewrite ?length_seq; lia); done.
Qed.

(** A valid request to the first server of the write's roster is answered
    with one share per server, in some order, each encrypted for the reader and
    each the decryption by its trustee of that trustee's share in the write. *)
Theorem decrypt_request_shares {NL : NodeLaws N} w h poly secret t y req data sig r si rest u :
  Rosters.List r = si :: rest → rest ≠ [] → Rosters.distinct r →
  write_shares w (Rosters.List r) h poly secret t → Ocs.ow_ReaderPk w ≡ point_mul None y →
  Smc.req_Roster req = Some r → Smc.RootIndex req = 0 →
  Smc.req_Data req = Some data → Smc.req_Signature req = Some sig →
  verifyDecryptionRequest (Some data) (Some sig) = Ret w →
  ∃ shares es ds, DecryptRequest si u req = Ret shares ∧ shares ≡ₚ es ∧
    length es = length (Rosters.List r) ∧ length ds = length (Rosters.List r) ∧
    ∀ i e d, es !! i = Some e → ds !! i = Some d → answers w h poly y i e d.
Proof.
  intros Hr Hrest Hd Hw Hy Hros Hroot Hdata Hsig Hv. rewrite <-Hdata, <-Hsig in Hv.
  destruct (DecryptRequest_answers _ _ _ _ _ _ _ _ _ _ u Hr Hrest Hd Hw Hy Hros Hroot Hv)
    as (shares & Hs & es & ds & Hall).
  exists shares, es, ds. done.
Qed.

(** No reply to a request that does not verify.  The leaves end without
    answering and the root waits for their answers, so the request hangs
    instead of failing; a server alone in its roster is a leaf that waits for
    an announcement nobody sends, whatever the request. *)
Theorem decrypt_request_invalid_hangs req r i si u :
  Rosters.distinct r → Smc.req_Roster req = Some r → Rosters.List r !! i = Some si →
  ((1 < length (Rosters.List r))%nat →
   (∃ e, verifyDecryptionRequest (Smc.req_Data req) (Smc.req_Signature req) = Err e) →
   DecryptRequest si u req = OutOfFuel) ∧
  (Rosters.List r = [si] → DecryptRequest si u req = OutOfFuel).
Proof.
  intros Hd Hros Hi. unfold DecryptRequest. rewrite Hros. cbn [deref obind]. split.
  - intros Hl [e He].
    destruct (Trees.star_with_root r i si (length (Rosters.List r) - 1) u)
      as (t & root & u' & Ht & Hroot & Hleaf & Hsi & Hls & Hcs); [lia|lia|done|done|].
    replace (Z.of_nat (length (Rosters.List r) - 1)) with (Z.of_nat (length (Rosters.List r)) - 1)
      in Ht by lia.
    rewrite Ht. cbn [obind]. unfold run. rewrite Hroot. cbn [deref obind]. rewrite Hsi.
    cbn [deref obind]. rewrite Hleaf. destruct (Trees.tn_Children root) as [|c cs].
    { apply (f_equal length) in Hcs. rewrite length_imap, length_app, length_take, length_drop in Hcs.
      apply lookup_lt_Some in Hi. cbn in Hcs. lia. }
    apply Forall_cons in Hls as [Hc _]. cbn [omapM]. unfold child_reply at 1, dispatch_leaf. rewrite Hc. cbn [DecReqData Signature]. by rewrite He.
  - intros Hr. unfold Trees.GenerateNaryTreeWithRoot, Rosters.Search. rewrite Hr. cbn.
    unfold uuid_Equal. rewrite bool_decide_true by done. cbn. done.
Qed.
End sharing.
End props.
