(* ===== verification/OtsClient.v ===== *)
(** * The clients ([onchain-secrets/api.go], [otsclient/ots.go])

    [Api] models the client of the onchain-secrets service: every call runs the
    handler of [OcsService] on the first server of the roster.  [OtsClient]
    models the one-time-secret client: sharing and encrypting a message, writing
    and reading the blocks, collecting the shares; [recover_secret] is the end
    of the round of [otssmc/simulation/otssmc.go].  [ots_end_to_end] is the
    theorem about the whole system. *)
From S2P Require Import Prelude Sha256 Suite Schnorr Tree Skipchain Bunch ClientError.
From S2P Require Import Messages Reencrypt OcsService Otssmc.
Local Open Scope Z_scope.

Module Api.
Import OcsService.
Section api.
Context {S : Suite} {U : UuidLib} {P : PvssLib S} {L : SkipchainLib} {C : Codec P}.
Context {SL : ShareLib S} {World : Type} {Env : OcsEnv World}.

Abbreviation M := (SM (Service World) ClientError).

(** [ocsurl.Roster.List[0]]: the server [SendProtobuf] is given. *)
Definition first_server (r : option Roster) : M ServerIdentity :=
  do! r := slift (deref r) in slift (of_error (index (Rosters.List r) 0)).

Definition parameter_error {A} (c : outcome error A) : M A :=
  slift (omap_err (NewClientErrorCode ErrorParameter) c).

Definition CreateSkipchain (r : option Roster) : M Ocs.SkipChainURL :=
  do! _ := first_server r in
  do! (ocs, _) := CreateSkipchains r in
  do! sb := load ocs in
  sret (Ocs.NewSkipChainURL sb).

(** The signature is put into the request, which is shared with the caller. *)
Definition sign_write (wr : Ocs.OTSWriteRequest) (wrPrivKey : Scalar) (random : Stream)
    : outcome error Ocs.OTSWriteRequest :=
  let! write := deref (Ocs.owr_Write wr) in
  let! data := deref (Ocs.dow_Data write) in
  let! msg := Marshal (MOTSWrite data) in
  let! (sig, _) := SignMessage msg wrPrivKey random in
  Ret {| Ocs.owr_Write := Some {| Ocs.dow_Data := Some data; Ocs.dow_Signature := Some sig |};
         Ocs.owr_Readers := Ocs.owr_Readers wr; Ocs.owr_OCS := Ocs.owr_OCS wr |}.

Definition OTSWriteRequest (fuel : nat) (ocsurl : Ocs.SkipChainURL) (wr : Ocs.OTSWriteRequest)
    (wrPrivKey : Scalar) (random : Stream) : M SkipBlock :=
  do! wr := parameter_error (sign_write wr wrPrivKey random) in
  do! _ := first_server (Ocs.url_Roster ocsurl) in
  do! sb := OcsService.OTSWriteRequest fuel wr in
  load sb.

Definition sread {A} (f : Service World → outcome ClientError A) : M A := λ s, (f s, s).

(** [WriteRequest]: data over 10 MB is refused. *)
Definition WriteRequest (fuel : nat) (ocsurl : Ocs.SkipChainURL) (encData symKey : bytes)
    (readList : list Point) (random : Stream) : M SkipBlock :=
  if 10000000 <? Z.of_nat (length encData)
  then sthrow (NewClientErrorCode ErrorParameter "Cannot store data bigger than 10MB")
  else
    do! _ := first_server (Ocs.url_Roster ocsurl) in
    do! X := sread (SharedPublic (Ocs.url_Genesis ocsurl)) in
    do! (Ku, Cs, _) := slift (of_error (EncodeKey X symKey random)) in
    let wr := {|
      Ocs.wr_Write := Some {| Ocs.dw_Data := encData; Ocs.dw_U := Some Ku; Ocs.dw_Cs := Cs;
                              Ocs.dw_Readers := [] |};
      Ocs.wr_Readers := Some {| Ocs.dr_ID := []; Ocs.dr_Readers := readList; Ocs.dr_Admins := [];
                                Ocs.dr_Threshold := 0; Ocs.dr_Signature := None |};
      Ocs.wr_OCS := Ocs.url_Genesis ocsurl |} in
    do! sb := OcsService.WriteRequest fuel wr in
    load sb.

(** [ReadRequest]: the reader signs the name of the write. *)
Definition ReadRequest (fuel : nat) (ocsurl : Ocs.SkipChainURL) (dataID : SkipBlockID)
    (reader : Scalar) (random : Stream) : M SkipBlock :=
  do! (sig, _) := parameter_error (SignSchnorr reader dataID random) in
  let request := {|
    Ocs.rr_Read := Some {| Ocs.rd_DataID := dataID; Ocs.rd_Public := point_mul None reader;
                           Ocs.rd_Signature := Some sig |};
    Ocs.rr_OCS := Ocs.url_Genesis ocsurl |} in
  do! _ := first_server (Ocs.url_Roster ocsurl) in
  do! sb := OcsService.ReadRequest fuel request in
  load sb.

Definition OTSReadRequest := ReadRequest.

Definition DecryptKeyRequest (ocsurl : Ocs.SkipChainURL) (readID : SkipBlockID) (reader : Scalar)
    : M bytes :=
  do! _ := first_server (Ocs.url_Roster ocsurl) in
  do! reply := sread (OcsService.DecryptKeyRequest readID) in
  slift (omap_err (λ e, NewClientErrorCode ErrorProtocol (String.append "couldn't decode sym: " e))
    (DecodeKey (Ocs.dk_X reply) (Ocs.dk_Cs reply) (Ocs.dk_XhatEnc reply) reader)).

(** [GetOTSWrite]: the field is read before the type assertion is checked. *)
Definition GetOTSWrite (ocsurl : Ocs.SkipChainURL) (dataID : SkipBlockID)
    : M (SkipBlock * Ocs.DataOTSWrite) :=
  do! sb := GetSingleBlock (Ocs.url_Roster ocsurl) dataID in
  do! ocsDataI := slift (omap_err NewClientError (Unmarshal (Data (sb_Fix sb)))) in
  do! ocsData := slift (deref (match ocsDataI with MDataOCS d => Some d | _ => None end)) in
  match Ocs.d_OTSWrite ocsData with
  | Some otsWrite => sret (sb, otsWrite)
  | None => sthrow (NewClientError "not correct type of data")
  end.

Definition GetData (ocsurl : Ocs.SkipChainURL) (dataID : SkipBlockID) : M bytes :=
  do! sb := GetSingleBlock (Ocs.url_Roster ocsurl) dataID in
  do! ocsDataI := slift (omap_err NewClientError (Unmarshal (Data (sb_Fix sb)))) in
  match ocsDataI with
  | MDataOCS {| Ocs.d_Write := Some w |} => sret (Ocs.dw_Data w)
  | _ => sthrow (NewClientError "not correct type of data")
  end.

Definition GetReadRequests (fuel : nat) (ocsurl : Ocs.SkipChainURL) (start : SkipBlockID) (count : Z)
    : M (list Ocs.ReadDoc) :=
  do! _ := first_server (Ocs.url_Roster ocsurl) in
  sread (OcsService.GetReadRequests fuel {| Ocs.grr_Start := start; Ocs.grr_Count := count |}).
End api.
End Api.

Module OtsClient.
Import OcsService.
Section client.
Context {S : Suite} {U : UuidLib} {P : PvssLib S} {L : SkipchainLib} {C : Codec P}.

(** [DataPVSS]; the fields [SetupPVSS] sets are nil before. *)
Record DataPVSS := {
  NumTrustee : Z;
  Threshold : Z;
  dp_G : option Point;
  dp_H : option Point;
  Secret : option Scalar;
  dp_SCPublicKeys : list Point;
  dp_EncShares : list PubVerShare;
  dp_EncProofs : list Point;
}.

(** [SetupPVSS]. *)
Definition SetupPVSS (dp : DataPVSS) (pubKey : Point) (random : Stream)
    : outcome error (DataPVSS * Stream) :=
  let g := point_base in
  let! h := CreatePointH pubKey in
  let '(secret, random) := scalar_pick random in
  let threshold := Z.quot (2 * NumTrustee dp) 3 + 1 in
  let! (encShares, commitPoly, random) := EncShares h (dp_SCPublicKeys dp) secret threshold random in
  if NumTrustee dp <? 0 then Panic "makeslice: len out of range"
  else
    let! encProofs := omapM (λ i,
      let! s := index encShares (Z.of_nat i) in
      Ret (poly_Eval commitPoly (share_I s))) (seq 0 (Z.to_nat (NumTrustee dp))) in
    Ret ({| NumTrustee := NumTrustee dp; Threshold := threshold; dp_G := Some g; dp_H := Some h;
            Secret := Some secret; dp_SCPublicKeys := dp_SCPublicKeys dp;
            dp_EncShares := encShares; dp_EncProofs := encProofs |}, random).

(** [EncryptMessage]: the encrypted message and its hash. *)
Definition EncryptMessage (dp : DataPVSS) (mesg : bytes) : outcome error (bytes * bytes) :=
  let! secret := deref (Secret dp) in
  let! g_s := point_marshal (point_mul None secret) in
  let symKey := Sum256 g_s in
  let encMesg := cipher_seal (cipher symKey) mesg in
  Ret (encMesg, Sum256 encMesg).

Definition DecryptMessage (recSecret : Point) (encMesg : bytes) : outcome error bytes :=
  let! g_s := point_marshal recSecret in
  let symKey := Sum256 g_s in
  cipher_open (cipher symKey) encMesg.

(** [bytes.Compare]: lexicographic. *)
Fixpoint Compare (a b : bytes) : Z :=
  match a, b with
  | [], [] => 0
  | [], _ => -1
  | _, [] => 1
  | x :: a, y :: b =>
      if byte_val x <? byte_val y then -1
      else if byte_val y <? byte_val x then 1 else Compare a b
  end.

Definition VerifyEncMesg (writeData : Ocs.OTSWrite) (encMesg : bytes) : Z :=
  Compare (Sum256 encMesg) (Ocs.ow_HashEnc writeData).

Definition VerifyWriteSignature (writeData : Ocs.OTSWrite) (sig : option SchnorrSig)
    (wrPubKey : Point) : outcome error unit :=
  let! buf := Marshal (MOTSWrite writeData) in
  let! sig := deref sig in
  VerifySchnorr wrPubKey (Sum256 buf) sig.

(** The request [WriteRequest] sends; a nil [G] cannot be marshalled. *)
Definition write_request (scurl : Ocs.SkipChainURL) (dp : DataPVSS) (hashEnc : bytes) (pubKey : Point)
    : outcome error Ocs.OTSWriteRequest :=
  let! g := deref (dp_G dp) in
  let wrData := {| Ocs.ow_G := g; Ocs.ow_SCPublicKeys := dp_SCPublicKeys dp;
                   Ocs.ow_EncShares := dp_EncShares dp; Ocs.ow_EncProofs := dp_EncProofs dp;
                   Ocs.ow_HashEnc := hashEnc; Ocs.ow_ReaderPk := pubKey |} in
  Ret {| Ocs.owr_Write := Some {| Ocs.dow_Data := Some wrData; Ocs.dow_Signature := None |};
         Ocs.owr_Readers := Some {| Ocs.dr_ID := []; Ocs.dr_Readers := [pubKey];
                                    Ocs.dr_Admins := []; Ocs.dr_Threshold := 0;
                                    Ocs.dr_Signature := None |};
         Ocs.owr_OCS := Ocs.url_Genesis scurl |}.

Section calls.
Context {SL : ShareLib S} {World : Type} {Env : OcsEnv World}.

Abbreviation M := (SM (Service World) ClientError).

Definition CreateSkipchain (roster : option Roster) : M Ocs.SkipChainURL :=
  Api.CreateSkipchain roster.

Definition WriteRequest (fuel : nat) (scurl : Ocs.SkipChainURL) (dp : DataPVSS) (hashEnc : bytes)
    (pubKey : Point) (wrPrivKey : Scalar) (random : Stream) : M SkipBlock :=
  do! wr := slift (of_error (write_request scurl dp hashEnc pubKey)) in
  Api.OTSWriteRequest fuel scurl wr wrPrivKey random.

Definition ReadRequest (fuel : nat) (scurl : Ocs.SkipChainURL) (dataID : SkipBlockID)
    (privKey : Scalar) (random : Stream) : M SkipBlock :=
  Api.OTSReadRequest fuel scurl dataID privKey random.

Definition GetUpdatedWriteSB (scurl : Ocs.SkipChainURL) (sbid : SkipBlockID) : M SkipBlock :=
  GetSingleBlock (Ocs.url_Roster scurl) sbid.

(** [GetWriteSB]: a copy of the write, with its signature. *)
Definition GetWriteSB (scurl : Ocs.SkipChainURL) (dataID : SkipBlockID)
    : M (SkipBlock * Ocs.OTSWrite * option SchnorrSig) :=
  do! (sbWrite, tmp) := Api.GetOTSWrite scurl dataID in
  do! d := slift (deref (Ocs.dow_Data tmp)) in
  sret (sbWrite, {| Ocs.ow_G := Ocs.ow_G d; Ocs.ow_SCPublicKeys := Ocs.ow_SCPublicKeys d;
                    Ocs.ow_EncShares := Ocs.ow_EncShares d; Ocs.ow_EncProofs := Ocs.ow_EncProofs d;
                    Ocs.ow_HashEnc := Ocs.ow_HashEnc d; Ocs.ow_ReaderPk := Ocs.ow_ReaderPk d |},
        Ocs.dow_Signature tmp).

(** [AddDummyWRPairs]: writes for fresh readers, then reads of all but the
    last; an error of [EncryptMessage] is ignored and leaves the hash nil. *)
Definition dummy_write (fuel : nat) (scurl : Ocs.SkipChainURL) (st : DataPVSS * list (SkipBlockID * Scalar) * Stream)
    : M (DataPVSS * list (SkipBlockID * Scalar) * Stream) :=
  let '(dp, acc, random) := st in
  let '(readerSK, random) := scalar_pick random in
  let readerPK := point_mul None readerSK in
  let '(writerSK, random) := scalar_pick random in
  do! (dp, random) := slift (of_error (SetupPVSS dp readerPK random)) in
  do! hashEnc := slift (match EncryptMessage dp (String.list_byte_of_string "I am a dummy message!") with
                        | Ret (_, hashEnc) => Ret hashEnc
                        | Err _ => Ret []
                        | Panic w => Panic w
                        | OutOfFuel => OutOfFuel
                        end) in
  do! tmp := WriteRequest fuel scurl dp hashEnc readerPK writerSK random in
  sret (dp, acc ++ [(Hash tmp, readerSK)], (scalar_pick random).2).

Definition AddDummyWRPairs (fuel : nat) (scurl : Ocs.SkipChainURL) (dp : DataPVSS) (pairCount : Z)
    (random : Stream) : M DataPVSS :=
  if pairCount <? 0 then slift (Panic "makeslice: len out of range")
  else
    do! (dp, pairs, random) := sforM (λ st _, dummy_write fuel scurl st) (dp, [], random)
                                 (seq 0 (Z.to_nat pairCount)) in
    do! _ := sforM (λ random '(id, sk),
               do! _ := ReadRequest fuel scurl id sk random in
               sret (scalar_pick random).2) random (take (Z.to_nat pairCount - 1) pairs) in
    sret dp.
End calls.

Context {Co : CosiLib S} {N : NodeLib S}.

(** The table of shares by index: the loop of [GetDecryptedShares]. *)
Definition place_shares (tmpDecShares : list PubVerShare) : outcome error (list (option PubVerShare)) :=
  ofoldM (λ decShares sh, set_index decShares (share_I sh) (Some sh))
    (repeat None (length tmpDecShares)) tmpDecShares.

(** [GetDecryptedShares]. *)
Definition GetDecryptedShares (u : nat) (roster : option Roster) (writeSB : SkipBlock)
    (readSBF : SkipBlockFix) (acPubKeys scPubKeys : list Point) (privKey : Scalar) (index : Z)
    (random : Stream) : outcome error (list (option PubVerShare)) :=
  let idx := index - Index (sb_Fix writeSB) - 1 in
  if idx <? 0 then Err "Forward-link index is negative"
  else
    match GetForward writeSB idx with
    | None => Err "Forward-link does not exist"
    | Some inclusionProof =>
        let! reencShares := Otssmc.client_OTSDecrypt u roster (Some (sb_Fix writeSB)) (Some readSBF)
                              (Some inclusionProof) acPubKeys privKey random in
        let! tmpDecShares := Otssmc.ElGamalDecrypt reencShares privKey in
        place_shares tmpDecShares
    end.

(** The end of a round of the simulation: the shares and their keys are
    collected by index and the secret is recovered. *)
Definition recover_secret (writeData : Ocs.OTSWrite) (decShares : list (option PubVerShare))
    (threshold numTrustee : Z) : outcome error Point :=
  let size := length decShares in
  let! valid := omapM (λ i,
    let! key := index (Ocs.ow_SCPublicKeys writeData) (Z.of_nat i) in
    let! enc := index (Ocs.ow_EncShares writeData) (Z.of_nat i) in
    let! dec := index decShares (Z.of_nat i) in
    Ret (key, enc, dec)) (seq 0 size) in
  RecoverSecret (Ocs.ow_G writeData) (fst ∘ fst <$> valid) (snd ∘ fst <$> valid) (snd <$> valid)
    threshold numTrustee.
End client.
End OtsClient.

(** ** Properties *)

Section props.
Import OcsService OtsClient.
Context {S : Suite} {U : UuidLib} {P : PvssLib S} {L : SkipchainLib} {C : Codec P}.
Context {SLaws : SuiteLaws S} {CL : CodecLaws C} {PL : PvssLaws P} {LL : SkipchainLaws L}.

Lemma Compare_refl a : Compare a a = 0.
Proof. induction a as [|x a IH]; cbn; [done|]. rewrite Z.ltb_irrefl. done. Qed.

(** The threshold of [SetupPVSS] can be met by the trustees. *)
Lemma threshold_range n : 0 < n → 0 < Z.quot (2 * n) 3 + 1 <= n.
Proof.
  intros H. rewrite Z.quot_div_nonneg by lia.
  pose proof (Z.div_lt_upper_bound (2 * n) 3 n). pose proof (Z.div_pos (2 * n) 3). lia.
Qed.

(** What [SetupPVSS] leaves in its argument. *)
Lemma SetupPVSS_spec dp pubKey rnd dp' rnd' :
  SetupPVSS dp pubKey rnd = Ret (dp', rnd') →
  NumTrustee dp = Z.of_nat (length (dp_SCPublicKeys dp)) →
  ∃ h secret poly r1 r2,
    CreatePointH pubKey = Ret h ∧ dp_SCPublicKeys dp' = dp_SCPublicKeys dp ∧
    EncShares h (dp_SCPublicKeys dp) secret (Threshold dp') r1 = Ret (dp_EncShares dp', poly, r2) ∧
    dp_EncProofs dp' = (λ s, poly_Eval poly (share_I s)) <$> dp_EncShares dp' ∧
    Secret dp' = Some secret ∧ dp_G dp' = Some point_base ∧ NumTrustee dp' = NumTrustee dp ∧
    Threshold dp' = Z.quot (2 * NumTrustee dp) 3 + 1.
Proof.
  unfold SetupPVSS. intros H Hn. apply obind_ret_inv in H as (h & Hh & H).
  destruct (scalar_pick rnd) as [secret rnd1].
  apply obind_ret_inv in H as ([[sh poly] rnd2] & HE & H).
  destruct (Z.ltb_spec (NumTrustee dp) 0); [done|].
  apply obind_ret_inv in H as (proofs & Hproofs & [= <- <-]).
  exists h, secret, poly, rnd1, rnd2. do 3 (split; [done|]). split; [|done]. cbn.
  destruct (EncShares_shares _ _ _ _ _ _ _ _ HE) as (Hlen & _).
  replace (Z.to_nat (NumTrustee dp))
    with (length ((λ s, poly_Eval poly (share_I s)) <$> sh)) in Hproofs
    by (rewrite length_fmap; lia).
  rewrite omapM_seq in Hproofs; [by injection Hproofs as <-|].
  intros i y Hi. apply list_lookup_fmap_Some in Hi as (s & -> & Hs).
  by rewrite (index_Ret _ _ _ Hs).
Qed.

(** The writes the client makes are the ones the service accepts: what
    [SetupPVSS] produces passes the check of the encrypted shares in
    [verifyOCS], with a threshold between one and the number of trustees; and
    the signature the client adds verifies for the reader of the write. *)
Theorem client_write_accepted scurl dp pubKey rnd dp' rnd' hashEnc wr k wr' rnd2 :
  SetupPVSS dp pubKey rnd = Ret (dp', rnd') →
  NumTrustee dp = Z.of_nat (length (dp_SCPublicKeys dp)) → 0 < NumTrustee dp →
  write_request scurl dp' hashEnc pubKey = Ret wr →
  Api.sign_write wr k rnd2 = Ret wr' →
  0 < Threshold dp' <= NumTrustee dp' ∧
  ∃ write w, Ocs.owr_Write wr' = Some write ∧ Ocs.dow_Data write = Some w ∧
    verify_write write = Ret true ∧
    VerifyWriteSignature w (Ocs.dow_Signature write) (point_mul None k) = Ret tt.
Proof.
  intros HS Hn Hpos HW Hsig.
  destruct (SetupPVSS_spec _ _ _ _ _ HS Hn) as (h & secret & poly & r1 & r2 & Hh & Hkeys & HE &
    Hproofs & _ & HG & HN & HT).
  split; [rewrite HN, HT; by apply threshold_range|].
  unfold write_request in HW. rewrite HG in HW. cbn in HW. injection HW as <-.
  unfold Api.sign_write in Hsig. cbn in Hsig.
  apply obind_ret_inv in Hsig as (msg & Hmsg & ([sig rnd3] & Hs & [= <-])%obind_ret_inv).
  eexists _, _. do 2 (split; [done|]). split.
  - unfold verify_write. cbn. rewrite Hh. rewrite Hproofs, Hkeys.
    destruct (EncShares_shares _ _ _ _ _ _ _ _ HE) as (_ & _ & ->).
    f_equal. apply negb_true_iff, Nat.ltb_irrefl.
  - unfold VerifyWriteSignature. rewrite Hmsg. cbn. by eapply SignMessage_verifies.
Qed.

Lemma encrypt_roundtrip dp mesg enc hash q secret :
  Secret dp = Some secret → q ≡ point_mul None secret →
  EncryptMessage dp mesg = Ret (enc, hash) →
  DecryptMessage q enc = Ret mesg ∧
  ∀ w, VerifyEncMesg w enc = 0 ↔ Ocs.ow_HashEnc w = hash.
Proof.
  intros HS Hq. unfold EncryptMessage, DecryptMessage. rewrite HS. cbn.
  intros (g_s & Hg & [= <- <-])%obind_ret_inv. split.
  - rewrite (point_marshal_proper _ _ Hq), Hg. cbn. apply cipher_open_seal.
  - intros w. unfold VerifyEncMesg. split.
    + generalize (Sum256 (cipher_seal (cipher (Sum256 g_s)) mesg)) as a.
      generalize (Ocs.ow_HashEnc w) as b. intros b a. revert b.
      induction a as [|x a IH]; intros [|y b]; cbn; try done.
      destruct (Z.ltb_spec (byte_val x) (byte_val y)); [done|].
      destruct (Z.ltb_spec (byte_val y) (byte_val x)); [done|].
      intros ->%IH. f_equal. apply byte_val_inj. lia.
    + intros ->. apply Compare_refl.
Qed.

(** An encrypted message decrypts under any representation of the committed
    secret, and its hash verifies; [VerifyEncMesg] is 0 exactly for the hash. *)
Theorem encrypt_message_roundtrip dp mesg enc hash q secret :
  Secret dp = Some secret → q ≡ point_mul None secret →
  EncryptMessage dp mesg = Ret (enc, hash) →
  DecryptMessage q enc = Ret mesg ∧
  ∀ w, VerifyEncMesg w enc = 0 ↔ Ocs.ow_HashEnc w = hash.
Proof. apply encrypt_roundtrip. Qed.

Lemma recover_secret_lists w decs t n :
  length (Ocs.ow_SCPublicKeys w) = length decs → length (Ocs.ow_EncShares w) = length decs →
  recover_secret w decs t n
  = RecoverSecret (Ocs.ow_G w) (Ocs.ow_SCPublicKeys w) (Ocs.ow_EncShares w) decs t n.
Proof.
  intros Hk Hs. unfold recover_secret.
  set (v := zip (zip (Ocs.ow_SCPublicKeys w) (Ocs.ow_EncShares w)) decs).
  assert (length v = length decs) as Hv by (unfold v; rewrite !length_zip_with; lia).
  rewrite <-Hv, omapM_seq.
  - cbn [obind]. unfold v. rewrite !list_fmap_compose.
    rewrite (fst_zip (zip _ _)), (snd_zip (zip _ _)) by (rewrite length_zip_with; lia).
    by rewrite fst_zip, snd_zip by lia.
  - intros i [[k s] d] Hi. unfold v in Hi. rewrite !lookup_zip_with in Hi.
    destruct (Ocs.ow_SCPublicKeys w !! i) as [k'|] eqn:E1; [|done].
    destruct (Ocs.ow_EncShares w !! i) as [s'|] eqn:E2; [|done].
    destruct (decs !! i) as [d'|] eqn:E3; [|done]. cbn in Hi. simplify_eq.
    by rewrite (index_Ret _ _ _ E1), (index_Ret _ _ _ E2), (index_Ret _ _ _ E3).
Qed.

(** Decrypted shares, in any order, end up in the place of their index. *)
Lemma place_shares_all tmp ds :
  tmp ≡ₚ ds → (∀ i d, ds !! i = Some d → share_I d = Z.of_nat i) →
  ∃ decs, place_shares tmp = Ret decs ∧ decs = Some <$> ds.
Proof.
  intros Hp HI. unfold place_shares.
  assert (share_I <$> ds = Z.of_nat <$> seq 0 (length ds)) as Hidx.
  { apply list_eq. intros i. rewrite !list_lookup_fmap.
    destruct (ds !! i) as [d|] eqn:E.
    - rewrite lookup_seq_lt by (by eapply lookup_lt_Some). cbn. f_equal. by apply HI.
    - rewrite (lookup_ge_None_2 (seq _ _)); [done|]. rewrite length_seq.
      by apply lookup_ge_None_1. }
  destruct (ofoldM_set_index (E := error) share_I tmp (repeat None (length tmp)))
    as (r & -> & Hl & Hin & _).
  - rewrite Hp, Hidx. apply (NoDup_fmap_2 Z.of_nat), NoDup_seq.
  - intros d Hd. rewrite repeat_length, Hp. rewrite Hp in Hd.
    apply list_elem_of_lookup in Hd as [i Hi]. rewrite (HI _ _ Hi).
    apply lookup_lt_Some in Hi. lia.
  - exists r. split; [done|]. rewrite repeat_length in Hl. apply list_eq. intros i.
    rewrite list_lookup_fmap. destruct (ds !! i) as [d|] eqn:E.
    + assert (d ∈ tmp) as Hd by (rewrite Hp; by eapply list_elem_of_lookup_2).
      pose proof (Hin d Hd) as H. by rewrite (HI _ _ E), Nat2Z.id in H.
    + apply lookup_ge_None_2. rewrite Hl, Hp. by apply lookup_ge_None_1.
Qed.

Section end_to_end.
Context {Co : CosiLib S} {N : NodeLib S} {NL : NodeLaws N}.

(** The answers of all servers give the commitment to the secret. *)
Lemma answers_recover w servers h poly secret t y shares :
  Otssmc.write_shares w servers h poly secret t → Otssmc.all_answers w h poly y (length servers) shares →
  Ocs.ow_G w = point_base → 0 < t <= Z.of_nat (length servers) →
  ∃ tmp decs q, Otssmc.ElGamalDecrypt shares y = Ret tmp ∧ place_shares tmp = Ret decs ∧
    recover_secret w decs t (Z.of_nat (length servers)) = Ret q ∧ q ≡ point_mul None secret.
Proof.
  intros [_ Hk (r1 & r2 & HE) _ _] (es & ds & Hperm & Hle & Hld & Hall) HG Ht.
  destruct (omapM_perm (Otssmc.decrypt_share y) shares es ds Hperm) as (tmp & Htmp & Hptmp);
    [lia|intros i e d He Hd'; apply (Hall i e d He Hd')|].
  exists tmp. unfold Otssmc.ElGamalDecrypt.
  assert (∀ i d, ds !! i = Some d → ∃ e, Otssmc.answers w h poly y i e d) as Hds.
  { intros i d Hi. destruct (lookup_in_range es i) as [e He].
    - rewrite Hle, <-Hld. by eapply lookup_lt_Some.
    - exists e. by apply Hall. }
  destruct (place_shares_all tmp ds Hptmp) as (decs & Hpl & ->).
  { intros i d Hi. destruct (Hds i d Hi) as (e & _ & HI & _). done. }
  exists (Some <$> ds). destruct (EncShares_shares _ _ _ _ _ _ _ _ HE) as (Hlsh & _).
  assert (length (Ocs.ow_SCPublicKeys w) = length ds) as Hlk by (rewrite Hk, length_fmap; lia).
  rewrite recover_secret_lists by (rewrite length_fmap; lia). rewrite HG.
  destruct (RecoverSecret_correct h (Ocs.ow_SCPublicKeys w) secret t r1
    (Ocs.ow_EncShares w) poly r2 (Some <$> ds)) as (q & Hq & Hqe); [done|rewrite length_fmap; lia| | |].
  { intros i d Hi. apply list_lookup_fmap_Some in Hi as (d' & [= ->] & Hi).
    destruct (Hds i d' Hi) as (e & _ & _ & Hans). exact Hans. }
  { replace (omap id (Some <$> ds)) with ds
      by (clear; induction ds as [|d ds IH]; [done|cbn; by f_equal]). by rewrite Hld. }
  exists q. rewrite Hlsh, Hlk, Hld in Hq. done.
Qed.

(** The write block [writeSB] holds the write [w], the block [readSBF] a read
    of it, and the write block has a forward link, collectively signed, to the
    block with the read's hash. *)
Definition read_of_write (writeSB : SkipBlock) (readSBF : SkipBlockFix) (w : Ocs.OTSWrite)
    (index : Z) (acPubKeys : list Point) (proof : BlockLink) : Prop :=
  (∃ dw ow, Unmarshal (Data (sb_Fix writeSB)) = Ret (MDataOCS dw) ∧
            Ocs.d_OTSWrite dw = Some ow ∧ Ocs.dow_Data ow = Some w) ∧
  (∃ dr rd, Unmarshal (Data readSBF) = Ret (MDataOCS dr) ∧ Ocs.d_Read dr = Some rd ∧
            Ocs.rd_DataID rd = CalculateHash (sb_Fix writeSB)) ∧
  0 <= index - Index (sb_Fix writeSB) - 1 ∧
  GetForward writeSB (index - Index (sb_Fix writeSB) - 1) = Some proof ∧
  bl_Signature proof ≠ [] ∧ bl_Hash proof = CalculateHash readSBF ∧
  cosi_VerifySignature acPubKeys (bl_Hash proof) (bl_Signature proof) = Ret tt.

(** C1: one-time secrets, end to end.  A writer shares a secret among the
    servers for the reader's key [pubKey = y·G], encrypts a message under it
    and stores the write; once a read of it is on the chain, the holder of [y]
    who asks the first server gets, for every order of answers and all choices
    of randomness, shares from which the secret is recovered, and the message
    decrypts to what was encrypted, its hash matching the write. *)
Theorem ots_end_to_end dp0 dp pubKey y rnd rnd' mesg enc hash scurl wr write w r si rest writeSB
    readSBF index acPubKeys scPubKeys proof u rndc msg sig rndc' :
  SetupPVSS dp0 pubKey rnd = Ret (dp, rnd') →
  EncryptMessage dp mesg = Ret (enc, hash) →
  write_request scurl dp hash pubKey = Ret wr →
  Ocs.owr_Write wr = Some write → Ocs.dow_Data write = Some w →
  pubKey ≡ point_mul None y →
  Rosters.List r = si :: rest → rest ≠ [] → Rosters.distinct r →
  NumTrustee dp0 = Z.of_nat (length (Rosters.List r)) →
  dp_SCPublicKeys dp0 = Network.Public <$> Rosters.List r →
  Forall (λ si, Network.Public si ≡ point_mul None (host_private si)) (Rosters.List r) →
  read_of_write writeSB readSBF w index acPubKeys proof →
  Marshal (MDecryptRequestData
    {| Smc.WriteSBF := Some (sb_Fix writeSB); Smc.ReadSBF := Some readSBF;
       Smc.InclusionProof := Some proof; Smc.ACPublicKeys := acPubKeys |}) = Ret msg →
  SignMessage msg y rndc = Ret (sig, rndc') →
  ∃ decs q,
    GetDecryptedShares u (Some r) writeSB readSBF acPubKeys scPubKeys y index rndc = Ret decs ∧
    recover_secret w decs (Threshold dp) (NumTrustee dp) = Ret q ∧
    DecryptMessage q enc = Ret mesg ∧ VerifyEncMesg w enc = 0.
Proof.
  intros HS HEnc HW Hwrite Hw Hy Hr Hrest Hd HN Hkeys Hpriv
    ((dw & ow & Hdw & How & Howw) & (dr & rd & Hdr & Hrd & Hid) & Hidx & Hproof & Hsig & Hhash & Hcosi)
    Hmsg Hsign.
  destruct (SetupPVSS_spec _ _ _ _ _ HS) as (h & secret & poly & r1 & r2 & Hh & Hk & HE & Hproofs &
    Hsec & HG & HNum & HT); [by rewrite HN, Hkeys, length_fmap|].
  unfold write_request in HW. rewrite HG in HW. cbn in HW. injection HW as <-.
  cbn in Hwrite. injection Hwrite as <-. cbn in Hw. injection Hw as <-.
  set (w := {| Ocs.ow_G := point_base |}) in *.
  assert (Otssmc.write_shares w (Rosters.List r) h poly secret (Threshold dp)) as Hws.
  { split; [done|by rewrite <-Hkeys, <-Hk|exists r1, r2; cbn; by rewrite Hk|done|done]. }
  unfold GetDecryptedShares. rewrite (proj2 (Z.ltb_ge _ _)), Hproof by done.
  unfold Otssmc.client_OTSDecrypt. rewrite Hmsg. cbn [obind]. rewrite Hsign. cbn [obind deref].
  rewrite Hr, index_0. cbn [obind].
  match goal with |- context [Otssmc.DecryptRequest si u ?req] =>
    destruct (Otssmc.DecryptRequest_answers w h poly secret (Threshold dp) y req r si rest u)
      as (shares & -> & Hall) end; try done.
  { cbn [Smc.req_Data Smc.req_Signature]. apply Otssmc.verify_valid.
    exists (sb_Fix writeSB), readSBF, proof, dw, ow, dr, rd, msg. do 5 (split; [done|]).
    split; [|done]. split; [done|]. rewrite (VerifySchnorr_proper _ _ _ _ Hy).
    by eapply SignMessage_verifies. }
  destruct (answers_recover w (Rosters.List r) h poly secret (Threshold dp) y shares Hws Hall eq_refl)
    as (tmp & decs & q & Htmp & Hdecs & Hq & Hqe); [rewrite HT, HN; apply threshold_range; rewrite Hr; cbn; lia|].
  cbn [obind]. rewrite Htmp. cbn [obind]. exists decs, q. split; [done|]. split; [by rewrite HNum, HN|].
  destruct (encrypt_roundtrip dp mesg enc hash q secret Hsec Hqe HEnc) as [Hdec Hver].
  split; [exact Hdec|]. by apply Hver.
Qed.
End end_to_end.
End props.

Section api_props.
Import OcsService.
Context {S : Suite} {U : UuidLib} {P : PvssLib S} {L : SkipchainLib} {C : Codec P}.
Context {SL : ShareLib S} {World : Type} {Env : OcsEnv World}.

(** [GetOTSWrite] on a block that holds something else than OCS data
    dereferences nil instead of returning the error meant for it, which is only
    returned for OCS data without a one-time-secret write. *)
Theorem get_ots_write_wrong_type ocsurl id (s s' : Service World) sb m :
  GetSingleBlock (Ocs.url_Roster ocsurl) id s = (Ret sb, s') →
  Unmarshal (Data (sb_Fix sb)) = Ret m →
  Api.GetOTSWrite ocsurl id s =
    match m with
    | MDataOCS d => match Ocs.d_OTSWrite d with
                    | Some w => (Ret (sb, w), s')
                    | None => (Err (NewClientErrorCode 0 "not correct type of data"), s')
                    end
    | _ => (Panic "nil pointer dereference", s')
    end.
Proof.
  intros Hget Hm. unfold Api.GetOTSWrite, sbind at 1. rewrite Hget. unfold sbind, slift.
  rewrite Hm. cbn [omap_err]. destruct m as [d| | | |]; cbn; [|done..].
  by destruct (Ocs.d_OTSWrite d).
Qed.

(** The read a client makes for a write is the read the service accepts:
    the handler gets a read of that write, for the client's public key, whose
    signature verifies under every representation of that key, so that the
    search among the readers of the write finds it when the key is listed. *)
Theorem client_read_accepted {SLaws : SuiteLaws S} reader dataID rnd sig rnd' pks :
  SignSchnorr reader dataID rnd = Ret (sig, rnd') →
  ∀ fuel ocsurl r s, Ocs.url_Roster ocsurl = Some r → Rosters.List r ≠ [] →
  let rd := {| Ocs.rd_DataID := dataID; Ocs.rd_Public := point_mul None reader;
               Ocs.rd_Signature := Some sig |} in
  Api.ReadRequest fuel ocsurl dataID reader rnd s
  = (do! p := ReadRequest (World := World) fuel
       {| Ocs.rr_Read := Some rd; Ocs.rr_OCS := Ocs.url_Genesis ocsurl |} in load p) s ∧
  (Exists (λ pk, pk ≡ point_mul None reader) pks →
   some_reader pks (Ocs.rd_DataID rd) (Ocs.rd_Signature rd) = Ret true).
Proof.
  intros Hsig fuel ocsurl r s Hr Hne rd. split.
  - unfold Api.ReadRequest, Api.parameter_error, sbind at 1, slift. rewrite Hsig. cbn [omap_err].
    unfold Api.first_server, sbind at 1, sbind at 1, slift. rewrite Hr. cbn [deref].
    destruct (Rosters.List r) as [|si l]; [done|]. rewrite index_0. done.
  - intros (pk & Hpk & Heq)%Exists_exists. apply (proj2 (some_reader_true pks _ _)). exists sig, pk.
    do 2 (split; [done|]). cbn. rewrite (VerifySchnorr_proper _ _ _ _ Heq).
    by eapply VerifySchnorr_signed.
Qed.
End api_props.

(** ** Witnesses *)

Module OtsClientExample.
Import ZSuite ToySkipchain ToyMessages OcsService OtsClient.
#[local] Existing Instance TreeExample.toy_uuid.

#[local] Instance toy_cosi : CosiLib Zsuite := {|
  cosi_VerifySignature pks msg sg := if decide (sg = [x01]) then Ret tt else Err "invalid signature";
|}.

(** In [ZSuite] a key pair is twice the same number; answers arrive reversed. *)
#[local] Instance toy_nodes : NodeLib Zsuite := {|
  host_private si := Network.Public si;
  host_random si := 11;
  arrival l := reverse l;
|}.
#[local] Instance toy_nodes_laws : NodeLaws toy_nodes.
Proof. intros l. apply reverse_Permutation. Qed.

Definition ids : list ServerIdentity := TreeExample.server <$> [3; 5; 7].
Definition ros : Roster := Rosters.NewRoster ids 0.
Definition scurl : Ocs.SkipChainURL := {| Ocs.url_Roster := Some ros; Ocs.url_Genesis := [x01] |}.
Definition dp0 : DataPVSS := {| NumTrustee := 3; Threshold := 0; dp_G := None; dp_H := None;
  Secret := None; dp_SCPublicKeys := [3; 5; 7]; dp_EncShares := []; dp_EncProofs := [] |}.
Definition mesg : bytes := String.list_byte_of_string "meet me at noon".

Definition dp1 : DataPVSS := match SetupPVSS dp0 42 3 with Ret (dp, _) => dp | _ => dp0 end.
Definition enc_hash : bytes * bytes :=
  match EncryptMessage dp1 mesg with Ret p => p | _ => ([], []) end.
Definition no_request : Ocs.OTSWriteRequest :=
  {| Ocs.owr_Write := None; Ocs.owr_Readers := None; Ocs.owr_OCS := [] |}.
Definition wr1 : Ocs.OTSWriteRequest :=
  match write_request scurl dp1 enc_hash.2 42 with Ret wr => wr | _ => no_request end.
Definition w1 : Ocs.OTSWrite :=
  {| Ocs.ow_G := 1; Ocs.ow_SCPublicKeys := [3; 5; 7]; Ocs.ow_EncShares := dp_EncShares dp1;
     Ocs.ow_EncProofs := dp_EncProofs dp1; Ocs.ow_HashEnc := enc_hash.2; Ocs.ow_ReaderPk := 42 |}.
Definition ow1 : Ocs.DataOTSWrite := {| Ocs.dow_Data := Some w1; Ocs.dow_Signature := None |}.

Definition fix_ (i : Z) (data : bytes) : SkipBlockFix :=
  {| Index := i; BackLinkIDs := []; ParentBlockID := []; GenesisID := [x01]; Data := data;
     sb_Roster := Some ros; fix_rest := [] |}.
Definition readSBF := fix_ 2 [xa2].
Definition proof1 : BlockLink := {| bl_Hash := [x02; xa2]; bl_Signature := [x01] |}.
Definition writeSB : SkipBlock := {| sb_Fix := fix_ 1 [xa1]; Hash := [x01; xa1];
  ForwardLink := [proof1]; ChildSL := [] |}.
Definition dw1 : Ocs.DataOCS := {| Ocs.d_Write := None; Ocs.d_Read := None; Ocs.d_Readers := None;
  Ocs.d_OTSWrite := Some ow1 |}.
Definition rd1 : Ocs.DataOCSRead :=
  {| Ocs.rd_DataID := [x01; xa1]; Ocs.rd_Public := 42; Ocs.rd_Signature := None |}.
Definition dr1 : Ocs.DataOCS := {| Ocs.d_Write := None; Ocs.d_Read := Some rd1;
  Ocs.d_Readers := None; Ocs.d_OTSWrite := None |}.

#[local] Instance codec : Codec toy_pvss :=
  toy_codec [([xa1], MDataOCS dw1); ([xa2], MDataOCS dr1); ([xa3], MOther [])].
#[local] Instance codec_laws : CodecLaws codec := toy_codec_laws _.

Lemma setup1 : ∃ rnd', SetupPVSS dp0 42 3 = Ret (dp1, rnd').
Proof. exists (match SetupPVSS dp0 42 3 with Ret (_, r) => r | _ => 0 end). by_vm. Qed.
Lemma encrypt1 : EncryptMessage dp1 mesg = Ret (enc_hash.1, enc_hash.2).
Proof. by_vm. Qed.
Lemma request1 : write_request scurl dp1 enc_hash.2 42 = Ret wr1.
Proof. by_vm. Qed.
Lemma write1 : Ocs.owr_Write wr1 = Some ow1.
Proof. by_vm. Qed.

Lemma reads1 : read_of_write writeSB readSBF w1 2 [3; 5; 7] proof1.
Proof.
  split; [exists dw1, ow1; split; [by_vm|done]|].
  split; [exists dr1, rd1; split; [by_vm|done]|].
  split; [cbn; lia|]. by_vm || (split; [by_vm|]; split; [done|]; split; by_vm).
Qed.

Definition sig1 : SchnorrSig (S := Zsuite) * Z :=
  match SignMessage (S := Zsuite) [x05] 42 8 with
  | Ret p => p | _ => ({| Challenge := 0; Response := 0 |}, 0) end.

Lemma ots_end_to_end_witness :
  ∃ decs q,
    GetDecryptedShares 0 (Some ros) writeSB readSBF [3; 5; 7] [3; 5; 7] 42 2 8 = Ret decs ∧
    recover_secret w1 decs (Threshold dp1) (NumTrustee dp1) = Ret q ∧
    DecryptMessage (S := Zsuite) q enc_hash.1 = Ret mesg ∧ VerifyEncMesg w1 enc_hash.1 = 0.
Proof.
  destruct setup1 as [rnd' HS].
  apply (ots_end_to_end dp0 dp1 42 42 3 rnd' mesg enc_hash.1 enc_hash.2 scurl wr1 ow1 w1 ros
    (TreeExample.server 3) (TreeExample.server <$> [5; 7]) writeSB readSBF 2 [3; 5; 7] [3; 5; 7]
    proof1 0 8 [x05] sig1.1 sig1.2 HS encrypt1 request1 write1).
  - reflexivity.
  - reflexivity.
  - reflexivity.
  - discriminate.
  - by apply (bool_decide_unpack _).
  - reflexivity.
  - reflexivity.
  - repeat (apply Forall_cons; split; [reflexivity|]). by apply Forall_nil.
  - exact reads1.
  - reflexivity.
  - by_vm.
Defined.

Definition wr2 : Ocs.OTSWriteRequest :=
  match Api.sign_write wr1 9 5 with Ret wr => wr | _ => no_request end.
Lemma signed2 : Api.sign_write wr1 9 5 = Ret wr2.
Proof. by_vm. Qed.

Lemma client_write_accepted_witness :
  0 < Threshold dp1 <= NumTrustee dp1 ∧
  ∃ write, Ocs.owr_Write wr2 = Some write ∧ verify_write write = Ret true.
Proof.
  destruct setup1 as [rnd' HS].
  destruct (client_write_accepted scurl dp0 42 3 dp1 rnd' enc_hash.2 wr1 9 wr2 5 HS eq_refl
    eq_refl request1 signed2) as [HT (write & w & Hw & _ & Hv & _)].
  split; [exact HT|]. exists write. exact (conj Hw Hv).
Defined.

Definition secret1 : Z := default 0 (Secret dp1).
Lemma has_secret1 : Secret dp1 = Some secret1.
Proof. by_vm. Qed.

Lemma encrypt_message_roundtrip_witness :
  DecryptMessage (S := Zsuite) secret1 enc_hash.1 = Ret mesg.
Proof.
  apply (proj1 (encrypt_message_roundtrip dp1 mesg enc_hash.1 enc_hash.2 secret1 secret1
    has_secret1 (eq_sym (Z.mul_1_l _)) encrypt1)).
Defined.

Definition forged : SchnorrSig (S := Zsuite) :=
  @Build_SchnorrSig Zsuite (0 : Z) (0 : Z).

(** *** The decryption protocol *)

Definition data1 : Smc.DecryptRequestData :=
  {| Smc.WriteSBF := Some (sb_Fix writeSB); Smc.ReadSBF := Some readSBF;
     Smc.InclusionProof := Some proof1; Smc.ACPublicKeys := [3; 5; 7] |}.
Definition req1 (sg : SchnorrSig (S := Zsuite)) : Smc.DecryptRequest :=
  {| Smc.RootIndex := 0; Smc.req_Roster := Some ros; Smc.req_Data := Some data1;
     Smc.req_Signature := Some sg |}.

Lemma verified1 : Otssmc.verifyDecryptionRequest (Some data1) (Some sig1.1) = Ret w1.
Proof. by_vm. Qed.

Lemma verify_decryption_request_correct_witness :
  Otssmc.valid_request data1 sig1.1 w1 ∧
  ∀ w, ¬ Otssmc.valid_request data1 forged w.
Proof.
  split; [exact (proj1 (Otssmc.verify_decryption_request_correct data1 sig1.1 w1) verified1)|].
  intros w H. apply (Otssmc.verify_decryption_request_correct data1 _ w) in H.
  assert (Otssmc.verifyDecryptionRequest (Some data1) (Some forged)
    = Err "Signature not valid: Reconstructed challenge isn't equal to challenge in signature") as E
    by by_vm.
  rewrite E in H. discriminate H.
Defined.

Lemma elgamal_roundtrip_witness :
  ∃ K Cs rnd', Otssmc.elGamalEncrypt (C := codec) (1, 9) 42 8 = Ret (Some K, Cs, rnd') ∧
    Otssmc.ElGamalDecrypt [{| Smc.ds_K := Some K; Smc.ds_Cs := Cs |}] 42 = Ret [(1, 9)].
Proof.
  destruct (Otssmc.elgamal_roundtrip (S := Zsuite) (C := codec) (1, 9) 42 42 8 eq_refl)
    as (K & Cs & rnd' & HE & _ & ds' & HD & Heq).
  exists K, Cs, rnd'. split; [exact HE|]. rewrite HD. f_equal. f_equal. exact Heq.
Defined.

Definition good_share : Smc.DecryptedShare := {| Smc.ds_K := Some 3; Smc.ds_Cs := [5; 7] |}.

Lemma elgamal_decrypt_needs_all_witness :
  Otssmc.ElGamalDecrypt (C := codec) [good_share; Otssmc.nil_share; good_share] 42 ≠ Ret [].
Proof.
  apply (Otssmc.elgamal_decrypt_needs_all (C := codec) [good_share] [good_share] 42 "unknown type").
  reflexivity.
Defined.

Lemma shares1 : ∃ h poly secret t, Otssmc.write_shares w1 (Rosters.List ros) h poly secret t.
Proof.
  exists (match CreatePointH (S := Zsuite) 42 with Ret h => h | _ => 0 end),
    (default 0 (Secret dp1)), (default 0 (Secret dp1)), 3.
  split.
  - by_vm.
  - reflexivity.
  - exists 3, 4. by_vm.
  - by_vm.
  - repeat (apply Forall_cons; split; [reflexivity|]). by apply Forall_nil.
Qed.

Lemma decrypt_request_shares_witness :
  ∃ shares, Otssmc.DecryptRequest (TreeExample.server 3) 0 (req1 sig1.1) = Ret shares ∧
            length shares = 3%nat.
Proof.
  destruct shares1 as (h & poly & secret & t & Hw).
  destruct (Otssmc.decrypt_request_shares w1 h poly secret t 42 (req1 sig1.1) data1 sig1.1 ros
    (TreeExample.server 3) (TreeExample.server <$> [5; 7]) 0) as (sh & es & ds & Hsh & Hp & Hl & _).
  - reflexivity.
  - discriminate.
  - by apply (bool_decide_unpack _).
  - exact Hw.
  - reflexivity.
  - reflexivity.
  - reflexivity.
  - reflexivity.
  - reflexivity.
  - exact verified1.
  - exists sh. split; [exact Hsh|]. rewrite Hp. exact Hl.
Defined.

(** A forged signature makes the request hang. *)
Lemma decrypt_request_invalid_hangs_witness :
  Otssmc.DecryptRequest (TreeExample.server 3) 0 (req1 forged)
  = OutOfFuel.
Proof.
  apply (proj1 (Otssmc.decrypt_request_invalid_hangs (req1 forged)
    ros 0 (TreeExample.server 3) 0 ltac:(by apply (bool_decide_unpack _)) eq_refl eq_refl)).
  - cbn. lia.
  - exists "Signature not valid: Reconstructed challenge isn't equal to challenge in signature".
    by_vm.
Defined.

(** *** The client of the service *)

#[local] Existing Instance OcsServiceExample.toy_env.

Definition svc (l : list (outcome ClientError SkipBlock)) : Service OcsServiceExample.World :=
  OcsServiceExample.service OcsServiceExample.h3 OcsServiceExample.bunch3 l.

Lemma get_ots_write_wrong_type_witness :
  ∃ s', Api.GetOTSWrite scurl [x07]
    (svc [Ret {| sb_Fix := fix_ 1 [xa3]; Hash := [x07]; ForwardLink := []; ChildSL := [] |}])
  = (Panic "nil pointer dereference", s').
Proof.
  exists (svc []). apply (get_ots_write_wrong_type scurl [x07] _ (svc [])
    {| sb_Fix := fix_ 1 [xa3]; Hash := [x07]; ForwardLink := []; ChildSL := [] |} (MOther []));
    reflexivity.
Defined.

Lemma client_read_accepted_witness :
  some_reader (S := Zsuite) [41; 42] [x02] (Some OcsServiceExample.sig) = Ret true.
Proof.
  assert (SignSchnorr (S := Zsuite) 42 [x02] 7
    = Ret (OcsServiceExample.sig, (scalar_pick (Suite := Zsuite) 7).2)) as E by by_vm.
  destruct (client_read_accepted (S := Zsuite) (World := OcsServiceExample.World) 42 [x02] 7 _ _ [41; 42] E 0
    scurl ros (svc []) eq_refl ltac:(discriminate)) as [_ H].
  apply H. apply Exists_exists. exists 42. split; [apply list_elem_of_further, list_elem_of_here|reflexivity].
Defined.
End OtsClientExample.
