(* ===== verification/OtsSim.v ===== *)
(** * The simulation of one-time secrets ([otssmc/simulation/otssmc.go])

    [Run] is the whole life of a secret on a real service, round after round:
    share, encrypt, write, read, decrypt.  It is put together from the client
    ([OtsClient]), the service behind it ([OcsService]) and the trustees
    ([Otssmc]).  [ChainLaws] is what the skipchain does for them: it keeps blocks
    under their hashes. *)
From S2P Require Import Prelude GoStrings Suite Schnorr Tree Keys Skipchain Bunch ClientError Messages Reencrypt OcsService Otssmc OtsClient.
Local Open Scope Z_scope.

(** The blocks of the skipchain: what is stored with some data is there under its
    hash, what is fetched was there, and blocks stay. *)
Class ChainLaws {S : Suite} {P : PvssLib S} {C : Codec P} {U : UuidLib} {World : Type} (Env : OcsEnv World) := {
  chain : World → gmap SkipBlockID SkipBlockFix;
  StoreSkipBlock_chain sb r d s b s' : StoreSkipBlock sb r d s = (Ret b, s') →
    Marshal (MDataOCS d) = Ret (Data (sb_Fix b)) ∧ chain (world s') !! Hash b = Some (sb_Fix b);
  GetSingleBlock_chain r id s b s' : GetSingleBlock r id s = (Ret b, s') → chain (world s') !! id = Some (sb_Fix b);
  StoreSkipBlock_keeps sb r d s : chain (world s) ⊆ chain (world (StoreSkipBlock sb r d s).2);
  GetSingleBlock_keeps r id s : chain (world s) ⊆ chain (world (GetSingleBlock r id s).2);
  propagateOCS_keeps r p s : chain (world s) ⊆ chain (world (propagateOCS r p s).2);
  CreateGenesis_keeps r d s : chain (world s) ⊆ chain (world (CreateGenesis r d s).2);
  run_dkg_keeps t c s : chain (world s) ⊆ chain (world (run_dkg t c s).2);
  (** The data of a block decodes to what was encoded. *)
  data_decodes d b : Marshal (MDataOCS d) = Ret b → Unmarshal b = Ret (MDataOCS d);
}.

Module OtsSimulation.
Import OcsService OtsClient.
Section simulation.
Context {S : Suite} {U : UuidLib} {P : PvssLib S} {L : SkipchainLib} {C : Codec P}.
Context {SL : ShareLib S} {World : Type} {Env : OcsEnv World} {Co : CosiLib S} {N : NodeLib S}.

Abbreviation M := (SM (Service World) ClientError).

Definition lift {A} (c : outcome error A) : M A := slift (of_error c).

(** The message of every round: a megabyte. *)
Definition mesgSize : Z := 1024 * 1024.
Definition sim_mesg : bytes := repeat x77 (Z.to_nat mesgSize).

Definition new_dp (scPubKeys : list Point) (numTrustee : Z) : DataPVSS :=
  {| NumTrustee := numTrustee; Threshold := 0; dp_G := None; dp_H := None; Secret := None;
     dp_SCPublicKeys := scPubKeys; dp_EncShares := []; dp_EncProofs := [] |}.

(** The first half of a round: the secret is shared, the message encrypted and the
    write stored and fetched again. *)
Definition write_round (fuel : nat) (scurl : Ocs.SkipChainURL) (scPubKeys : list Point) (numTrustee : Z)
    (mesg : bytes) (wrPrivKey : Scalar) (pubKey : Point) (rnd : Stream)
    : M (DataPVSS * bytes * SkipBlockID * Ocs.OTSWrite) :=
  let wrPubKey := point_mul None wrPrivKey in
  do! (dataPVSS, rnd) := lift (SetupPVSS (new_dp scPubKeys numTrustee) pubKey rnd) in
  do! (encMesg, hashEnc) := lift (EncryptMessage dataPVSS mesg) in
  do! writeSB := WriteRequest fuel scurl dataPVSS hashEnc pubKey wrPrivKey rnd in
  let writeID := Hash writeSB in
  do! (_, writeData, writeSig) := GetWriteSB scurl writeID in
  do! _ := lift (VerifyWriteSignature writeData writeSig wrPubKey) in
  if negb (VerifyEncMesg writeData encMesg =? 0) then lift (Err "Cannot verify encrypted message")
  else sret (dataPVSS, encMesg, writeID, writeData).

(** The second half: the write is read, and the trustees of the tree [t] are asked
    for the shares. *)
Definition read_round (fuel : nat) (t : Trees.Tree) (scurl : Ocs.SkipChainURL) (writeID : SkipBlockID)
    (privKey : Scalar) (rnd : Stream) : M (list Smc.DecryptedShare) :=
  do! readSB := ReadRequest fuel scurl writeID privKey rnd in
  do! updWriteSB := GetUpdatedWriteSB scurl writeID in
  do! acRoster := slift (deref (sb_Roster (sb_Fix readSB))) in
  let acPubKeys := Rosters.Publics acRoster in
  let idx := Index (sb_Fix readSB) - Index (sb_Fix updWriteSB) - 1 in
  if idx <? 0 then lift (Err "Forward-link index is negative")
  else
    match GetForward updWriteSB idx with
    | None => lift (Err "Forward-link does not exist")
    | Some inclusionProof =>
        let data := {| Smc.WriteSBF := Some (sb_Fix updWriteSB); Smc.ReadSBF := Some (sb_Fix readSB);
                       Smc.InclusionProof := Some inclusionProof; Smc.ACPublicKeys := acPubKeys |} in
        do! msg := lift (Marshal (MDecryptRequestData data)) in
        do! (sig, _) := lift (SignMessage msg privKey rnd) in
        lift (Otssmc.run t {| Otssmc.DecReqData := Some data; Otssmc.Signature := Some sig; Otssmc.p_RootIndex := 0 |})
    end.

(** A round: whether the message came back. *)
Definition round (fuel : nat) (t : Trees.Tree) (scurl : Ocs.SkipChainURL) (scPubKeys : list Point) (numTrustee : Z)
    (mesg : bytes) (rnd : Stream) : M (bool * Stream) :=
  let '(wrPrivKey, rnd) := scalar_pick rnd in
  let '(privKey, rnd) := scalar_pick rnd in
  let pubKey := point_mul None privKey in
  do! (dataPVSS, encMesg, writeID, writeData) := write_round fuel scurl scPubKeys numTrustee mesg wrPrivKey pubKey rnd in
  let rnd := (scalar_pick rnd).2 in
  do! reencShares := read_round fuel t scurl writeID privKey rnd in
  do! tmpDecShares := lift (Otssmc.ElGamalDecrypt reencShares privKey) in
  do! decShares := lift (place_shares tmpDecShares) in
  do! recSecret := lift (recover_secret writeData decShares (Threshold dataPVSS) (NumTrustee dataPVSS)) in
  do! recvMesg := lift (DecryptMessage recSecret encMesg) in
  sret (Compare mesg recvMesg =? 0, (scalar_pick rnd).2).

(** [Run]: what it logs. *)
Definition run_rounds (fuel : nat) (roster : Roster) (t : Trees.Tree) (mesg : bytes) (rounds : Z) (rnd : Stream) : M (list bool) :=
  let scPubKeys := Rosters.Publics roster in
  do! numTrustee := lift (Trees.Size t) in
  do! scurl := CreateSkipchain (Some roster) in
  do! (logs, _) := sforM (λ '(logs, rnd) _,
    do! (ok, rnd) := round fuel t scurl scPubKeys numTrustee mesg rnd in sret (logs ++ [ok], rnd)) ([], rnd) (seq 0 (Z.to_nat rounds)) in
  sret logs.
Definition Run (fuel : nat) (roster : Roster) (t : Trees.Tree) (rounds : Z) (rnd : Stream) : M (list bool) :=
  run_rounds fuel roster t sim_mesg rounds rnd.

Definition prepareDummyDP (fuel : nat) (scurl : Ocs.SkipChainURL) (scRoster : Roster) (pairCount : Z) (rnd : Stream) : M DataPVSS :=
  let scPubKeys := Rosters.Publics scRoster in
  AddDummyWRPairs fuel scurl (new_dp scPubKeys (Z.of_nat (length scPubKeys))) pairCount rnd.
End simulation.
End OtsSimulation.

(** ** What is stored stays *)
Section props.
Import OcsService OtsClient OtsSimulation.
Context {S : Suite} {U : UuidLib} {P : PvssLib S} {L : SkipchainLib} {C : Codec P}.
Context {SL : ShareLib S} {World : Type} {Env : OcsEnv World} {Co : CosiLib S} {N : NodeLib S}.
Context {SLaws : SuiteLaws S} {CL : CodecLaws C} {PL : PvssLaws P} {LL : SkipchainLaws L} {EL : OcsEnvLaws Env} {NL : NodeLaws N}.
Context {HL : ChainLaws Env}.

Definition longer (s s' : Service World) : Prop := chain (world s) ⊆ chain (world s').
#[local] Instance longer_preorder : PreOrder longer.
Proof. split; [intros s; unfold longer; reflexivity|intros s1 s2 s3 H1 H2; unfold longer in *; by etrans]. Qed.

(** A service lives on: its own blocks and those of the chain stay. *)
Definition lives (s s' : Service World) : Prop := evolves s s' ∧ longer s s'.
#[local] Instance lives_preorder : PreOrder lives.
Proof.
  split; [intros s; split; reflexivity|]. intros s1 s2 s3 [E1 L1] [E2 L2]. split; [by etrans|by etrans].
Qed.
Lemma preserves_lives {A} (c : SM (Service World) ClientError A) : preserves evolves c → preserves longer c → preserves lives c.
Proof. intros H1 H2 s. by split. Qed.

Lemma same_world_longer (s s' : Service World) : world s' = world s → longer s s'.
Proof. unfold longer. by intros ->. Qed.

Lemma load_lives p : preserves lives (load p).
Proof. apply preserves_lives; [apply load_evolves|intros s; apply same_world_longer; done]. Qed.
Lemma bunch_at_lives g : preserves lives (bunch_at g).
Proof. apply preserves_lives; [apply bunch_at_evolves|intros s; apply same_world_longer; done]. Qed.
Lemma alloc_lives b : preserves lives (alloc b).
Proof. apply preserves_lives; [apply alloc_evolves|intros s; apply same_world_longer; done]. Qed.
Lemma bunch_store_lives g p : preserves lives (bunch_store g p).
Proof.
  apply preserves_lives; [apply bunch_store_evolves|]. intros s. apply same_world_longer.
  unfold bunch_store, bunch_at, sbind, sget, slift, sput, sret, of_error, deref.
  repeat case_match; simplify_eq/=; done.
Qed.
Lemma StoreSkipBlock_lives b r d : preserves lives (StoreSkipBlock b r d).
Proof. apply preserves_lives; [apply StoreSkipBlock_evolves|intros s; apply StoreSkipBlock_keeps]. Qed.
Lemma GetSingleBlock_lives r id : preserves lives (GetSingleBlock r id).
Proof. apply preserves_lives; [apply GetSingleBlock_evolves|intros s; apply GetSingleBlock_keeps]. Qed.
Lemma propagate_lives r p : preserves lives (protocol_error (propagateOCS r p)).
Proof.
  apply preserves_lives; [apply protocol_error_evolves, propagateOCS_evolves|].
  intros s. apply (propagateOCS_keeps r p s).
Qed.
Lemma lift_lives {A} (c : outcome error A) : preserves lives (lift c).
Proof. apply preserves_lift, _. Qed.

Create HintDb lives.
#[local] Hint Resolve load_lives bunch_at_lives alloc_lives bunch_store_lives StoreSkipBlock_lives GetSingleBlock_lives
  propagate_lives lift_lives : lives.
#[local] Ltac live_step :=
  match goal with
  | |- preserves _ (sbind sget _) => apply preserves_get_bind; intros ?
  | |- preserves _ (sbind _ _) => apply preserves_bind; [apply _|..|intros ?]
  | |- preserves _ (match ?x with _ => _ end) => destruct x
  | |- lives ?s (match ?x with _ => _ end _).2 => destruct x
  | |- lives ?s (sbind ?c ?k ?s).2 => refine (preserves_bind lives c k _ _ s); [|intros ?]
  | |- _ => first [ solve [auto with lives] | apply preserves_ret, _ | apply preserves_throw, _ | apply preserves_lift, _ | reflexivity ]
  end.

Lemma BunchAddBlock_lives g r d : preserves lives (BunchAddBlock g r d).
Proof. unfold BunchAddBlock. repeat live_step. Qed.
Lemma add_retry_lives fuel g r d : preserves lives (add_retry fuel g r d).
Proof.
  induction fuel as [|fuel IH]; intros s; cbn [add_retry]; [reflexivity|].
  pose proof (BunchAddBlock_lives g r d s) as H.
  destruct (BunchAddBlock g r d s) as [[p|e| |] s']; [exact H| |exact H..].
  destruct (_ =? _); [|exact H]. etrans; [exact H|apply IH].
Qed.
Lemma propagate_latest_lives g p : preserves lives (propagate_latest g p).
Proof. unfold propagate_latest, latest_roster. repeat live_step. Qed.
Lemma find_chain_lives m id : preserves lives (find_chain m id).
Proof. apply preserves_get_bind. intros s. repeat live_step. Qed.
Lemma CreateSkipchains_longer r : preserves longer (CreateSkipchains r).
Proof.
  assert (∀ t c, preserves longer (run_dkg t c)) by (intros t c s; apply run_dkg_keeps).
  assert (∀ r d, preserves longer (CreateGenesis r d)) by (intros r' d s; apply CreateGenesis_keeps).
  assert (∀ r p, preserves longer (protocol_error (propagateOCS r p))) by (intros r' p s; apply (propagateOCS_keeps r' p s)).
  assert (∀ p, preserves longer (load p)) by (intros p s; apply load_lives).
  assert (∀ b, preserves longer (alloc b)) by (intros b s; apply alloc_lives).
  unfold CreateSkipchains. apply preserves_bind; [apply _|done|intros b]. apply preserves_bind; [apply _|done|intros p].
  apply preserves_bind; [apply _|done|intros _]. apply preserves_bind; [apply _|apply preserves_lift, _|intros r'].
  apply preserves_get_bind. intros s. refine (preserves_bind longer _ _ _ _ s); [apply preserves_lift, _|intros [t u]].
  apply preserves_bind; [apply _|apply preserves_lift, _|intros tree]. apply preserves_bind; [apply _|done|intros ocs].
  apply preserves_bind; [apply _|done|intros e]. destruct e as [|e| |o]; [apply preserves_lift, _|apply preserves_throw, _..|].
  apply preserves_bind; [apply _|apply preserves_lift, _|intros sh]. apply preserves_get_bind. intros s'.
  apply same_world_longer. done.
Qed.
Lemma CreateSkipchain_lives r : preserves lives (CreateSkipchain r).
Proof.
  unfold CreateSkipchain, Api.CreateSkipchain, Api.first_server.
  apply preserves_bind; [apply _|repeat live_step|intros _].
  apply preserves_bind; [apply _|apply preserves_lives; [apply CreateSkipchains_evolves|apply CreateSkipchains_longer]|intros [p x]].
  repeat live_step.
Qed.

(** *** Blocks with data *)
Definition stored (s : Service World) (b : SkipBlock) (d : Ocs.DataOCS) : Prop :=
  Marshal (MDataOCS d) = Ret (Data (sb_Fix b)) ∧ chain (world s) !! Hash b = Some (sb_Fix b).
Definition stored_at (s : Service World) (p : ptr) (d : Ocs.DataOCS) : Prop :=
  ∃ b, st_heap (st s) !! p = Some b ∧ stored s b d.

Lemma stored_at_lives s s' p d : SInv s → lives s s' → stored_at s p d → stored_at s' p d.
Proof.
  intros HI [[_ He] Hl] (b & Hb & Hm & Hc). destruct (He HI) as (_ & G & _).
  destruct (G _ _ Hb) as (b' & Hb' & HF & HH & _). exists b'. split; [done|]. unfold stored. rewrite HF, HH.
  split; [done|]. by eapply lookup_weaken.
Qed.

Lemma BunchAddBlock_stored s g r d p s' : SInv s → BunchAddBlock g r d s = (Ret p, s') → stored_at s' p d.
Proof.
  intros HI H. unfold BunchAddBlock in H.
  apply sbind_Ret in H as (b & s1 & H1 & H). apply sbind_Ret in H as (l & s2 & H2 & H).
  apply sbind_Ret in H as (sb & s3 & H3 & H). apply sbind_Ret in H as (q & s4 & H4 & H).
  apply sbind_Ret in H as (id & s5 & H5 & H).
  pose proof (bunch_at_lives g s) as E1. rewrite H1 in E1. pose proof (load_lives (Latest b) s1) as E2. rewrite H2 in E2.
  pose proof (StoreSkipBlock_lives l r d s2) as E3. rewrite H3 in E3. pose proof (alloc_lives sb s3) as E4. rewrite H4 in E4.
  pose proof (bunch_store_lives g q s4) as E5. rewrite H5 in E5. cbn [snd] in *.
  destruct (StoreSkipBlock_chain _ _ _ _ _ _ H3) as [Hm Hc].
  assert (stored_at s4 q d) as Hst.
  { unfold alloc, sbind, sget, sput, sret in H4. injection H4 as <- <-. exists sb. cbn. by rewrite lookup_insert_eq. }
  destruct id as [id|]; [|done]. injection H as <- <-. eapply stored_at_lives; [|exact E5|exact Hst].
  eapply SInv_evolves; [exact HI|]. etrans; [apply E1|]. etrans; [apply E2|]. etrans; [apply E3|apply E4].
Qed.

Lemma add_retry_stored fuel s g r d p s' : SInv s → add_retry fuel g r d s = (Ret p, s') → stored_at s' p d.
Proof.
  revert s. induction fuel as [|fuel IH]; intros s HI; cbn [add_retry]; [done|].
  pose proof (BunchAddBlock_lives g r d s) as [HE _].
  destruct (BunchAddBlock g r d s) as [[q|e| |] s1] eqn:E; try done.
  - intros [= <- <-]. by eapply BunchAddBlock_stored.
  - case_match; [|done]. apply IH. by eapply SInv_evolves.
Qed.

(** The block a writing call of the client returns. *)
Lemma added_block fuel g r d s p s1 q s2 b s' : SInv s →
  add_retry fuel g r d s = (Ret p, s1) → propagate_latest g p s1 = (Ret q, s2) → load q s2 = (Ret b, s') →
  stored s' b d ∧ lives s s'.
Proof.
  intros HI Hadd Hprop Hload.
  pose proof (add_retry_lives fuel g r d s) as E1. rewrite Hadd in E1. pose proof (propagate_latest_lives g p s1) as E2. rewrite Hprop in E2.
  cbn [snd] in E1, E2. assert (SInv s1) as HI1 by (eapply SInv_evolves; [exact HI|apply E1]).
  assert (q = p) as ->.
  { unfold propagate_latest in Hprop. repeat (let x := fresh in let s' := fresh in let E := fresh in
      apply sbind_Ret in Hprop as (x & s' & E & Hprop)). by injection Hprop. }
  pose proof (stored_at_lives s1 s2 p d HI1 E2 (add_retry_stored _ _ _ _ _ _ _ HI Hadd)) as (b' & Hb' & Hst).
  unfold load, sbind, sget, slift in Hload. rewrite Hb' in Hload. injection Hload as <- <-. split; [done|by etrans].
Qed.

Lemma lift_Ret {A} (c : outcome error A) (s s' : Service World) a : lift c s = (Ret a, s') → c = Ret a ∧ s' = s.
Proof. unfold lift, slift, of_error. destruct c; cbn; [|done..]. by intros [= -> ->]. Qed.
Lemma slift_Ret {A} (c : outcome ClientError A) (s s' : Service World) a : slift c s = (Ret a, s') → c = Ret a ∧ s' = s.
Proof. unfold slift. by intros [= -> ->]. Qed.
Lemma of_error_Ret {A} (c : outcome error A) a : of_error c = Ret a → c = Ret a.
Proof. unfold of_error. destruct c; cbn; [|done..]. by intros [= ->]. Qed.

Lemma find_chain_Ret m id (s s' : Service World) r : find_chain m id s = (Ret r, s') → lives s s'.
Proof. intros H. pose proof (find_chain_lives m id s) as E. by rewrite H in E. Qed.

(** Calls of the client to the service. *)
Lemma first_server_Ret r (s s' : Service World) si : Api.first_server r s = (Ret si, s') → s' = s.
Proof.
  unfold Api.first_server. intros (r' & s1 & [_ ->]%slift_Ret & [_ ->]%slift_Ret)%sbind_Ret. done.
Qed.

Lemma WriteRequest_stored fuel scurl dp hashEnc pubKey k rnd s b s' : SInv s →
  WriteRequest fuel scurl dp hashEnc pubKey k rnd s = (Ret b, s') →
  ∃ wr wr', write_request scurl dp hashEnc pubKey = Ret wr ∧ Api.sign_write wr k rnd = Ret wr' ∧
    stored s' b {| Ocs.d_Write := None; Ocs.d_Read := None; Ocs.d_Readers := Ocs.owr_Readers wr';
                   Ocs.d_OTSWrite := Ocs.owr_Write wr' |} ∧ lives s s'.
Proof.
  intros HI (wr & s1 & [Hwr%of_error_Ret ->]%slift_Ret & H)%sbind_Ret. exists wr.
  apply sbind_Ret in H as (wr' & s1 & [Hs ->]%slift_Ret & H). exists wr'. split; [done|].
  split; [by destruct (Api.sign_write wr k rnd); [injection Hs as ->|done..]|].
  apply sbind_Ret in H as (si & s1 & ->%first_server_Ret & H). apply sbind_Ret in H as (q & s3 & H & Hload).
  apply sbind_Ret in H as (r & s1 & HF%find_chain_Ret & H). apply sbind_Ret in H as (p & s2 & Hadd & Hprop).
  destruct (added_block _ _ _ _ _ _ _ _ _ _ _ (SInv_evolves _ _ HI (proj1 HF)) Hadd Hprop Hload) as [Hst Hl].
  split; [done|by etrans].
Qed.

Lemma ReadRequest_lives fuel scurl id k rnd s b s' : SInv s →
  ReadRequest fuel scurl id k rnd s = (Ret b, s') → lives s s'.
Proof.
  intros HI ([sig rnd'] & s1 & [_ ->]%slift_Ret & H)%sbind_Ret.
  apply sbind_Ret in H as (si & s1 & ->%first_server_Ret & H). apply sbind_Ret in H as (q & s3 & H & Hload).
  apply sbind_Ret in H as (rd & s1 & [_ ->]%slift_Ret & H).
  apply sbind_Ret in H as (r & s1 & HF%find_chain_Ret & H). apply sbind_Ret in H as (p & s2 & Hadd & Hprop).
  destruct (added_block _ _ _ _ _ _ _ _ _ _ _ (SInv_evolves _ _ HI (proj1 HF)) Hadd Hprop Hload) as [_ Hl]. by etrans.
Qed.

(** The write in the block [id] of the chain. *)
Definition write_at (s : Service World) (id : SkipBlockID) (w : Ocs.OTSWrite) : Prop :=
  ∃ f d ow, chain (world s) !! id = Some f ∧ Unmarshal (Data f) = Ret (MDataOCS d) ∧
    Ocs.d_OTSWrite d = Some ow ∧ Ocs.dow_Data ow = Some w.
Lemma write_at_lives s s' id w : lives s s' → write_at s id w → write_at s' id w.
Proof. intros [_ Hl] (f & d & ow & Hf & H). exists f, d, ow. split; [by eapply lookup_weaken|done]. Qed.

Lemma fetched_block r id s b s' w : write_at s id w → GetSingleBlock r id s = (Ret b, s') →
  lives s s' ∧ ∃ d ow, Unmarshal (Data (sb_Fix b)) = Ret (MDataOCS d) ∧ Ocs.d_OTSWrite d = Some ow ∧ Ocs.dow_Data ow = Some w.
Proof.
  intros (f & d & ow & Hf & Hd & H) Hget. pose proof (GetSingleBlock_lives r id s) as E. rewrite Hget in E. split; [done|].
  pose proof (GetSingleBlock_chain _ _ _ _ _ Hget) as Hb. pose proof (lookup_weaken _ _ _ _ Hf (proj2 E)) as Hf'. cbn in Hf'.
  rewrite Hf' in Hb. injection Hb as ->. by exists d, ow.
Qed.

Lemma GetWriteSB_fetches scurl id s b w' sg s' w : write_at s id w →
  GetWriteSB scurl id s = (Ret (b, w', sg), s') → lives s s' ∧ w' = w.
Proof.
  intros Hw ([sb tmp] & s1 & H & H2)%sbind_Ret.
  apply sbind_Ret in H as (sb' & s2 & Hget & H). destruct (fetched_block _ _ _ _ _ _ Hw Hget) as (Hl & d & ow & Hd & How & Hdow).
  apply sbind_Ret in H as (m & s3 & [Hm ->]%slift_Ret & H). rewrite Hd in Hm. injection Hm as <-.
  apply sbind_Ret in H as (d' & s3 & [[= <-] ->]%slift_Ret & H). rewrite How in H. injection H as <- <- <-.
  apply sbind_Ret in H2 as (w0 & s3 & [Hw0 ->]%slift_Ret & H2). rewrite Hdow in Hw0. injection Hw0 as <-.
  injection H2 as _ <- _ <-. split; [done|]. by destruct w.
Qed.

(** The first half: the write that was made is in the chain. *)
Lemma write_round_correct fuel scurl keys n mesg k pubKey rnd s dp enc id w s' : SInv s →
  write_round fuel scurl keys n mesg k pubKey rnd s = (Ret (dp, enc, id, w), s') →
  lives s s' ∧ write_at s' id w ∧ ∃ rnd' hash wr write, SetupPVSS (new_dp keys n) pubKey rnd = Ret (dp, rnd') ∧
    EncryptMessage dp mesg = Ret (enc, hash) ∧ write_request scurl dp hash pubKey = Ret wr ∧
    Ocs.owr_Write wr = Some write ∧ Ocs.dow_Data write = Some w.
Proof.
  intros HI ([dp' rnd'] & s1 & [HS ->]%lift_Ret & H)%sbind_Ret. apply sbind_Ret in H as ([enc' hash] & s1 & [HE ->]%lift_Ret & H).
  apply sbind_Ret in H as (b & s1 & HW & H).
  destruct (WriteRequest_stored _ _ _ _ _ _ _ _ _ _ HI HW) as (wr & wr' & Hwr & Hsign & [Hm Hc] & Hl1).
  apply sbind_Ret in H as ([[b2 w2] sg] & s2 & HG & H).
  unfold Api.sign_write in Hsign. destruct (Ocs.owr_Write wr) as [write|] eqn:Hwrite; [|done]. cbn [deref obind] in Hsign.
  destruct (Ocs.dow_Data write) as [w0|] eqn:Hw0; [|done]. cbn [deref obind] in Hsign.
  apply obind_ret_inv in Hsign as (msg & _ & ([sig rnd2] & _ & [= <-])%obind_ret_inv).
  assert (write_at s1 (Hash b) w0) as Hat.
  { eexists _, _, _. split; [exact Hc|]. split; [by apply data_decodes|]. by split. }
  destruct (GetWriteSB_fetches _ _ _ _ _ _ _ _ Hat HG) as [Hl2 ->].
  apply sbind_Ret in H as (u & s3 & [_ ->]%lift_Ret & H). case_match; [by apply lift_Ret in H as [? _]|].
  injection H as <- <- <- <- <-. split; [by etrans|]. split; [by eapply write_at_lives|].
  by exists rnd', hash, wr, write.
Qed.

(** The second half: the trustees were asked with a valid request for the write. *)
Lemma run_verified t p shares : Otssmc.run t p = Ret shares → ∃ w, Otssmc.verifyDecryptionRequest (Otssmc.DecReqData p) (Otssmc.Signature p) = Ret w.
Proof.
  unfold Otssmc.run. destruct (Trees.t_Root t) as [root|]; [|done]. cbn [deref obind].
  destruct (Trees.tn_ServerIdentity root) as [si|]; [|done]. cbn [deref obind]. destruct (Trees.IsLeaf root); [done|].
  intros (replies & _ & H)%obind_ret_inv. unfold Otssmc.dispatch_root in H.
  destruct (Otssmc.verifyDecryptionRequest _ _) as [w| | |]; [by exists w|done..].
Qed.

Lemma read_round_correct fuel t scurl id k rnd s shares s' w : SInv s → write_at s id w →
  read_round fuel t scurl id k rnd s = (Ret shares, s') →
  lives s s' ∧ ∃ p, Otssmc.run t p = Ret shares ∧ Otssmc.p_RootIndex p = 0 ∧
    Otssmc.verifyDecryptionRequest (Otssmc.DecReqData p) (Otssmc.Signature p) = Ret w.
Proof.
  intros HI Hw (readSB & s1 & HR%(ReadRequest_lives _ _ _ _ _ _ _ _ HI) & H)%sbind_Ret.
  pose proof (write_at_lives _ _ _ _ HR Hw) as Hw1.
  apply sbind_Ret in H as (upd & s2 & Hget & H). destruct (fetched_block _ _ _ _ _ _ Hw1 Hget) as (Hl & d & ow & Hd & How & Hdow).
  apply sbind_Ret in H as (ac & s3 & [_ ->]%slift_Ret & H). cbv zeta in H. destruct (_ <? 0); [by apply lift_Ret in H as [? _]|].
  destruct (GetForward upd _) as [proof|]; [|by apply lift_Ret in H as [? _]].
  apply sbind_Ret in H as (msg & s3 & [_ ->]%lift_Ret & H). apply sbind_Ret in H as ([sig rnd'] & s3 & [_ ->]%lift_Ret & H).
  apply lift_Ret in H as [H ->]. split; [by etrans|]. eexists. split; [exact H|]. split; [done|].
  destruct (run_verified _ _ _ H) as [w' Hv]. cbn [Otssmc.DecReqData Otssmc.Signature] in Hv |- *.
  pose proof (proj1 (Otssmc.verify_valid _ _ _) Hv) as (wf & rf & pr & dw & ow' & dr & rd & m & [= <-] & _ & _ & (Hdw & How' & Hdow') & _).
  rewrite Hd in Hdw. injection Hdw as <-. rewrite How in How'. injection How' as <-. congruence.
Qed.

(** *** Rounds *)
Section rounds.
Context (r : Roster) (t : Trees.Tree) (root : Trees.TreeNode).
Hypothesis (Hstar : Otssmc.star (Rosters.List r) t root) (Hne : Rosters.List r ≠ []).
Hypothesis (Hkeys : Forall (λ si, Network.Public si ≡ point_mul None (host_private si)) (Rosters.List r)).

Lemma star_size : Trees.Size t = Ret (Z.of_nat (length (Rosters.List r))).
Proof.
  destruct Hstar as [Hroot _ _ Hleaves (places & Hpl & Hcs)]. rewrite (Trees.Size_preorder t root Hroot). do 2 f_equal.
  assert (concat (Trees.preorder <$> Trees.tn_Children root) = Trees.tn_Children root) as Hpre.
  { apply Trees.preorder_leaves. eapply Forall_impl; [exact Hleaves|]. intros c Hc. unfold Trees.IsLeaf in Hc.
    by apply bool_decide_eq_true, length_zero_iff_nil in Hc. }
  apply (f_equal length) in Hcs. rewrite !length_fmap in Hcs. apply Permutation_length in Hpl. rewrite length_seq in Hpl.
  destruct root as [i si x cs a]. cbn in *. rewrite Hpre, Hcs, Hpl. destruct (Rosters.List r); [done|]. cbn. lia.
Qed.

(** A round that ends without an error gives the message back. *)
Lemma round_correct fuel scurl mesg rnd s ok rnd' s' : SInv s →
  round fuel t scurl (Rosters.Publics r) (Z.of_nat (length (Rosters.List r))) mesg rnd s = (Ret (ok, rnd'), s') →
  ok = true ∧ lives s s'.
Proof.
  intros HI. unfold round. destruct (scalar_pick rnd) as [wrPrivKey rnd1]. destruct (scalar_pick rnd1) as [y rnd2].
  intros ([[[dp enc] id] w] & s1 & HW & H)%sbind_Ret.
  destruct (write_round_correct _ _ _ _ _ _ _ _ _ _ _ _ _ _ HI HW) as (Hl1 & Hat & rnd3 & hash & wr & write & HS & HEnc & Hwr & Hwrite & Hw).
  apply sbind_Ret in H as (shares & s2 & HR & H).
  destruct (read_round_correct _ _ _ _ _ _ _ _ _ _ (SInv_evolves _ _ HI (proj1 Hl1)) Hat HR) as (Hl2 & p & Hrun & Hp0 & Hv).
  destruct (SetupPVSS_spec _ _ _ _ _ HS) as (h & secret & poly & r1 & r2 & Hh & Hk & HE & Hproofs & Hsec & HG & HNum & HT);
    [cbn; unfold Rosters.Publics; by rewrite length_fmap|].
  unfold write_request in Hwr. rewrite HG in Hwr. cbn in Hwr. injection Hwr as <-. cbn in Hwrite. injection Hwrite as <-.
  cbn in Hw. injection Hw as <-. set (w := {| Ocs.ow_G := point_base |}) in *.
  assert (Otssmc.write_shares w (Rosters.List r) h poly secret (Threshold dp)) as Hws.
  { split; [done|exact Hk|exists r1, r2; cbn; by rewrite Hk|done|done]. }
  destruct (Otssmc.run_answers w h poly secret (Threshold dp) y p (Rosters.List r) t root Hstar Hp0 Hne Hws (reflexivity _) Hv)
    as (shares' & Hrun' & Hall). rewrite Hrun in Hrun'. injection Hrun' as <-.
  destruct (answers_recover w (Rosters.List r) h poly secret (Threshold dp) y shares Hws Hall eq_refl)
    as (tmp & decs & q & Htmp & Hdecs & Hq & Hqe).
  { rewrite HT. cbn [new_dp NumTrustee]. apply threshold_range. destruct (Rosters.List r); [done|cbn; lia]. }
  rewrite Htmp in H. unfold lift, of_error, slift, sbind at 1 in H. cbn [omap_err] in H. rewrite Hdecs in H.
  unfold sbind at 1 in H. cbn [omap_err] in H. rewrite HNum in H. cbn [new_dp NumTrustee] in H. rewrite Hq in H.
  unfold sbind at 1 in H. cbn [omap_err] in H. destruct (encrypt_roundtrip dp mesg enc hash q secret Hsec Hqe HEnc) as [Hdec _].
  rewrite Hdec in H. unfold sbind in H. cbn [omap_err sret] in H. rewrite Compare_refl in H. injection H as <- _ <-.
  split; [done|by etrans].
Qed.

Lemma rounds_correct fuel scurl mesg n k acc rnd s logs rnd' s' : SInv s → Forall (λ ok, ok = true) acc →
  sforM (λ '(logs, rnd) (_ : nat), do! (ok, rnd) := round fuel t scurl (Rosters.Publics r) (Z.of_nat (length (Rosters.List r))) mesg rnd in
                         sret (logs ++ [ok], rnd)) (acc, rnd) (seq k n) s = (Ret (logs, rnd'), s') →
  Forall (λ ok, ok = true) logs ∧ length logs = (length acc + n)%nat.
Proof.
  revert k acc rnd s. induction n as [|n IH]; intros k acc rnd s HI Hacc; cbn [seq sforM].
  - intros [= <- _ _]. split; [done|lia].
  - intros ([acc1 rnd1] & s1 & H & H2)%sbind_Ret. apply sbind_Ret in H as ([ok rnd2] & s2 & HR & H). injection H as <- <- <-.
    destruct (round_correct _ _ _ _ _ _ _ _ HI HR) as [-> Hl].
    apply IH in H2 as [Hall Hlen]; [|by eapply SInv_evolves; [|apply Hl]|apply Forall_app; by split; [|constructor]].
    split; [done|]. rewrite length_app in Hlen. cbn in Hlen. lia.
Qed.

(** C2: the simulation.  When all servers are the children of the first one in the
    tree, a run that ends without an error has recovered the message in every
    round: what was shared for the reader, encrypted, written to the chain and read
    there is what the trustees' answers decrypt, whatever the skipchain does in
    between, as long as it keeps its blocks. *)
Theorem simulation_recovers fuel mesg rounds rnd s logs s' : SInv s →
  run_rounds fuel r t mesg rounds rnd s = (Ret logs, s') →
  length logs = Z.to_nat rounds ∧ Forall (λ ok, ok = true) logs.
Proof.
  intros HI H. unfold run_rounds in H. rewrite star_size in H. apply sbind_Ret in H as (n & s1 & [[= <-] ->]%lift_Ret & H).
  apply sbind_Ret in H as (scurl & s1 & HC & H). pose proof (CreateSkipchain_lives (Some r) s) as E. rewrite HC in E.
  apply sbind_Ret in H as ([l rnd'] & s2 & Hloop & H). injection H as -> <-.
  destruct (rounds_correct _ _ _ _ _ _ _ _ _ _ _ (SInv_evolves _ _ HI (proj1 E)) (Forall_nil_2 _) Hloop) as [Hall Hlen]. done.
Qed.
End rounds.
End props.

(** ** A concrete skipchain *)
Module ToyChain.
Import ZSuite ToySkipchain ToyMessages OcsService.

(** Data as lists of numbers. *)
Class Flat (A : Type) := {
  flat : A → list Z;
  unflat : list Z → option (A * list Z);
  unflat_flat a l : unflat (flat a ++ l) = Some (a, l);
}.
#[local] Instance flat_Z : Flat Z.
Proof.
  refine {| flat z := [z]; unflat l := match l with z :: l => Some (z, l) | [] => None end |}.
  done.
Defined.
#[local] Instance flat_byte : Flat byte.
Proof.
  refine {| flat b := [byte_val b]; unflat l := match l with z :: l => Some (byte_of z, l) | [] => None end |}.
  intros b l. cbn. by rewrite byte_of_val.
Defined.
#[local] Instance flat_prod {A B} `{Flat A, Flat B} : Flat (A * B).
Proof.
  refine {| flat p := flat p.1 ++ flat p.2; unflat l := '(a, l) ← unflat l; '(b, l) ← unflat l; Some ((a, b), l) |}.
  intros [a b] l. cbn. rewrite <-app_assoc, unflat_flat. cbn. by rewrite unflat_flat.
Defined.
#[local] Instance flat_option {A} `{Flat A} : Flat (option A).
Proof.
  refine {| flat o := match o with Some a => 1 :: flat a | None => [0] end;
     unflat l := match l with
                 | z :: l => if z =? 1 then '(a, l) ← unflat l; Some (Some a, l) else Some (None, l)
                 | [] => None
                 end |}.
  intros [a|] l; cbn; [by rewrite unflat_flat|done].
Defined.
Fixpoint unflat_n {A} `{Flat A} (n : nat) (l : list Z) : option (list A * list Z) :=
  match n with
  | O => Some ([], l)
  | Datatypes.S n => '(a, l) ← unflat l; '(as_, l) ← unflat_n n l; Some (a :: as_, l)
  end.
Lemma unflat_n_back {A} `{Flat A} (as_ : list A) l : unflat_n (length as_) (concat (flat <$> as_) ++ l) = Some (as_, l).
Proof.
  induction as_ as [|a as_ IH]; [done|]. cbn [fmap list_fmap concat length unflat_n].
  rewrite <-app_assoc, unflat_flat. cbn. unfold fmap in IH |- *. by rewrite IH.
Qed.
#[local] Instance flat_list {A} `{Flat A} : Flat (list A).
Proof.
  refine {| flat as_ := Z.of_nat (length as_) :: concat (flat <$> as_);
     unflat l := match l with z :: l => unflat_n (Z.to_nat z) l | [] => None end |}.
  intros as_ l. cbn [app]. rewrite Nat2Z.id. apply unflat_n_back.
Defined.
Definition flat_iso {A B} `{Flat B} (f : A → B) (g : B → A) (Hgf : ∀ a, g (f a) = a) : Flat A.
Proof.
  refine {| flat a := flat (f a); unflat l := '(b, l) ← unflat l; Some (g b, l) |}.
  intros a l. rewrite unflat_flat. cbn. by rewrite Hgf.
Defined.

Abbreviation point := (@Point Zsuite). Abbreviation share := (PubVerShare (PvssLib := toy_pvss)).
#[local] Instance flat_point : Flat point := flat_Z.
#[local] Instance flat_share : Flat share := flat_prod (A := Z) (B := Z).
#[local] Instance flat_sig : Flat (SchnorrSig (S := Zsuite)) :=
  flat_iso (B := Z * Z) (λ s, (Challenge s, Response s)) (λ p, Build_SchnorrSig (S := Zsuite) p.1 p.2) (λ s, match s with Build_SchnorrSig _ _ => eq_refl end).
#[local] Instance flat_write : Flat Ocs.OTSWrite :=
  flat_iso (λ w, (Ocs.ow_G w, Ocs.ow_SCPublicKeys w, Ocs.ow_EncShares w, Ocs.ow_EncProofs w, Ocs.ow_HashEnc w, Ocs.ow_ReaderPk w))
    (λ '(g, k, s, p, h, r), {| Ocs.ow_G := g : point; Ocs.ow_SCPublicKeys := k : list point; Ocs.ow_EncShares := s : list share;
                               Ocs.ow_EncProofs := p : list point; Ocs.ow_HashEnc := h; Ocs.ow_ReaderPk := r : point |})
    (λ w, match w with Ocs.Build_OTSWrite _ _ _ _ _ _ => eq_refl end).
#[local] Instance flat_dow : Flat Ocs.DataOTSWrite :=
  flat_iso (λ w, (Ocs.dow_Data w, Ocs.dow_Signature w)) (λ p, {| Ocs.dow_Data := p.1 : option Ocs.OTSWrite; Ocs.dow_Signature := p.2 |})
    (λ w, match w with Ocs.Build_DataOTSWrite _ _ => eq_refl end).
#[local] Instance flat_dw : Flat Ocs.DataOCSWrite :=
  flat_iso (λ w, (Ocs.dw_Data w, Ocs.dw_U w, Ocs.dw_Cs w, Ocs.dw_Readers w))
    (λ '(d, u, c, r), {| Ocs.dw_Data := d; Ocs.dw_U := u : option point; Ocs.dw_Cs := c : list point; Ocs.dw_Readers := r |})
    (λ w, match w with Ocs.Build_DataOCSWrite _ _ _ _ => eq_refl end).
#[local] Instance flat_readers : Flat Ocs.DataOCSReaders :=
  flat_iso (λ w, (Ocs.dr_ID w, Ocs.dr_Readers w, Ocs.dr_Admins w, Ocs.dr_Threshold w, Ocs.dr_Signature w))
    (λ '(i, r, a, t, s), {| Ocs.dr_ID := i; Ocs.dr_Readers := r : list point; Ocs.dr_Admins := a : list point; Ocs.dr_Threshold := t;
                            Ocs.dr_Signature := s |})
    (λ w, match w with Ocs.Build_DataOCSReaders _ _ _ _ _ => eq_refl end).
#[local] Instance flat_read : Flat Ocs.DataOCSRead :=
  flat_iso (λ w, (Ocs.rd_DataID w, Ocs.rd_Public w, Ocs.rd_Signature w))
    (λ '(i, p, s), {| Ocs.rd_DataID := i; Ocs.rd_Public := p : point; Ocs.rd_Signature := s |})
    (λ w, match w with Ocs.Build_DataOCSRead _ _ _ => eq_refl end).
#[local] Instance flat_data : Flat Ocs.DataOCS :=
  flat_iso (λ d, (Ocs.d_Write d, Ocs.d_Read d, Ocs.d_Readers d, Ocs.d_OTSWrite d))
    (λ '(w, r, rs, o), {| Ocs.d_Write := w; Ocs.d_Read := r; Ocs.d_Readers := rs; Ocs.d_OTSWrite := o |})
    (λ w, match w with Ocs.Build_DataOCS _ _ _ _ => eq_refl end).

(** Numbers as bytes. *)
Fixpoint read_numbers (fuel : nat) (b : bytes) : list Z :=
  match fuel with
  | O => []
  | Datatypes.S fuel => match bytes_Z b with Some (z, b) => z :: read_numbers fuel b | None => [] end
  end.
Lemma read_numbers_back l fuel : (length l <= fuel)%nat → read_numbers fuel (concat (Z_bytes <$> l)) = l.
Proof.
  revert l. induction fuel as [|fuel IH]; intros [|z l] Hf; cbn in *; try lia; try done.
  rewrite bytes_Z_bytes. f_equal. apply IH. lia.
Qed.
Lemma numbers_length l : (length l <= length (concat (Z_bytes <$> l)))%nat.
Proof.
  induction l as [|z l IH]; [done|]. change (concat (Z_bytes <$> z :: l)) with (Z_bytes z ++ concat (Z_bytes <$> l)).
  rewrite length_app. assert (1 <= length (Z_bytes z))%nat by (destruct z; cbn; lia). cbn [length]. lia.
Qed.

#[global] Instance codec : Codec toy_pvss := {|
  Marshal m := match m with
               | MDataOCS d => Ret (xfe :: concat (Z_bytes <$> flat d))
               | m => Marshal (Codec := toy_codec []) m
               end;
  Unmarshal b := match b with
                 | xfe :: r => match unflat (read_numbers (length r) r) with
                               | Some (d, _) => Ret (MDataOCS d)
                               | None => Err "truncated"
                               end
                 | b => Unmarshal (Codec := toy_codec []) b
                 end;
|}.
#[global] Instance codec_laws : CodecLaws codec.
Proof.
  split.
  - intros b. pose proof (unmarshal_returns (CodecLaws := toy_codec_laws []) b) as H.
    destruct b as [|x r]; [exact H|]. destruct x; try exact H.
    change (returns (match unflat (A := Ocs.DataOCS) (read_numbers (length r) r) with
      Some (d, _) => Ret (MDataOCS d) | None => Err "truncated"%string end : outcome error Message)).
    by destruct (unflat _) as [[d ?]|].
  - intros s. destruct (marshal_share (CodecLaws := toy_codec_laws []) s) as (b & Hb & Hne & s' & Hs & He). exists b.
    split; [exact Hb|]. split; [done|]. exists s'. split; [|done]. destruct s as [i v]. injection Hb as <-. exact Hs.
Qed.
Lemma codec_data d b : Marshal (Codec := codec) (MDataOCS d) = Ret b → Unmarshal (Codec := codec) b = Ret (MDataOCS d).
Proof.
  intros [= <-]. set (r := concat (Z_bytes <$> flat d)).
  change (match unflat (A := Ocs.DataOCS) (read_numbers (length r) r) with
    Some (d, _) => Ret (MDataOCS d) | None => Err "truncated"%string end = Ret (E := error) (MDataOCS d)).
  unfold r. rewrite read_numbers_back by apply numbers_length.
  pose proof (unflat_flat d []) as H. rewrite app_nil_r in H. by rewrite H.
Qed.

(** Blocks by their hashes; a new block is linked from the one before it. *)
Abbreviation World := (gmap SkipBlockID SkipBlock).
Definition set_world (s : Service World) (w : World) : Service World :=
  {| st := st s; disk := disk s; me := me s; world := w |}.
Definition link (h : bytes) (b : SkipBlock) : SkipBlock := set_ForwardLink b (ForwardLink b ++ [{| bl_Hash := h; bl_Signature := h |}]).
Definition linked (before : option SkipBlock) (h : bytes) (w : World) : World :=
  match before with Some p => alter (link h) (Hash p) w | None => w end.
Definition add_block (before : option SkipBlock) (r : option Roster) (d : Ocs.DataOCS) : SM (Service World) ClientError SkipBlock := λ s,
  let fix_ := {| Index := match before with Some b => Index (sb_Fix b) + 1 | None => 0 end;
                 BackLinkIDs := match before with Some b => [Hash b] | None => [] end; ParentBlockID := [];
                 GenesisID := match before with Some b => SkipChainID b | None => [] end;
                 Data := xfe :: concat (Z_bytes <$> flat d); sb_Roster := r; fix_rest := [] |} in
  let h := CalculateHash fix_ in
  let b := {| sb_Fix := fix_; Hash := h; ForwardLink := []; ChildSL := [] |} in
  match world s !! h with
  | Some _ => (Err (NewClientErrorCode 4100 "block exists"), s)
  | None => (Ret b, set_world s (<[h := b]> (linked before h (world s))))
  end.

Definition propagate (p : ptr) : SM (Service World) error Z := λ s,
  match storage_store p s with (Ret _, s) => (Ret 3, s) | (_, s) => (Err "not stored", s) end.

#[global] Instance env : OcsEnv World := {|
  ErrorBlockInProgress := 4102;
  CreateGenesis r d := add_block None r d;
  StoreSkipBlock b r d := add_block (Some b) r d;
  GetSingleBlock _ id s := (match world s !! id with Some b => Ret b | None => Err (NewClientErrorCode 4100 "no block") end, s);
  propagateOCS _ p := propagate p;
  run_dkg _ _ := sret (DkgDone (Ret (ReencryptExample.secret_of 2)));
  peer_shared _ _ := ∅;
  uuid_supply _ := 0%nat;
  MarshalStorage _ := Ret [];
  UnmarshalStorage _ := Ret None;
  WriteFile _ _ := Ret tt;
  bunch_order _ _ s := (map_to_list s).*2;
  block_order _ b := (map_to_list (SkipBlocks b)).*2;
|}.

Lemma set_world_evolves s w : evolves s (set_world s w).
Proof. split; [done|]. intros HI. split; [done|]. split; [reflexivity|done]. Qed.
Lemma add_block_evolves o r d : preserves evolves (add_block o r d).
Proof. intros s. unfold add_block. case_match; [reflexivity|apply set_world_evolves]. Qed.
#[global] Instance env_laws : OcsEnvLaws env.
Proof.
  split; intros; try apply add_block_evolves; try (intros ?; reflexivity).
  - intros s. pose proof (storage_store_evolves (World := World) p s) as H. unfold propagateOCS, env, propagate.
    by destruct (storage_store p s) as [[| | |] s'].
  - done.
  - unfold range_of. done.
Qed.

Definition fixes (w : World) : gmap SkipBlockID SkipBlockFix := sb_Fix <$> w.
Lemma fixes_alter h k w : fixes (alter (link h) k w) = fixes w.
Proof.
  apply map_eq. intros i. unfold fixes. rewrite !lookup_fmap. destruct (decide (k = i)) as [<-|Hne].
  - rewrite lookup_alter_eq. by destruct (w !! k).
  - by rewrite lookup_alter_ne.
Qed.
Lemma fixes_insert_linked (o : option SkipBlock) (h : bytes) (b : SkipBlock) (w : World) : w !! h = None → fixes w ⊆ fixes (<[h := b]> (linked o h w)).
Proof.
  intros Hn. assert (fixes (linked o h w) = fixes w) as E by (destruct o; [apply fixes_alter|done]).
  unfold fixes at 2. rewrite fmap_insert. fold (fixes (linked o h w)). rewrite E. apply insert_subseteq.
  unfold fixes. by rewrite lookup_fmap, Hn.
Qed.
Lemma add_block_fixes o r d s : fixes (world s) ⊆ fixes (world (add_block o r d s).2) ∧
  ∀ b s', add_block o r d s = (Ret b, s') → Marshal (MDataOCS d) = Ret (Data (sb_Fix b)) ∧ fixes (world s') !! Hash b = Some (sb_Fix b).
Proof.
  unfold add_block. case_match eqn:E; [split; [reflexivity|done]|]. cbn [snd set_world world].
  split.
  - by apply fixes_insert_linked.
  - intros b s' [= <- <-]. split; [done|]. cbn. unfold fixes. by rewrite lookup_fmap, lookup_insert_eq.
Qed.

#[global] Instance chain_laws : ChainLaws env.
Proof.
  refine {| chain := fixes |}.
  - intros b r d s b' s'. apply (proj2 (add_block_fixes (Some b) r d s)).
  - intros r id s b s'. cbn. destruct (world s !! id) as [b'|] eqn:E; [|done]. intros [= <- <-]. unfold fixes. by rewrite lookup_fmap, E.
  - intros b r d s. apply (add_block_fixes (Some b) r d s).
  - intros r id s. reflexivity.
  - intros r p s. unfold propagateOCS, env, propagate. assert (world (storage_store p s).2 = world s) as Hw.
    { unfold storage_store, sbind, sget, slift, sput, of_error. repeat case_match; simplify_eq/=; done. }
    destruct (storage_store p s) as [[| | |] s']; cbn in *; by rewrite Hw.
  - intros r d s. apply (add_block_fixes None r d s).
  - intros t c s. reflexivity.
  - apply codec_data.
Defined.
End ToyChain.

Module OtsSimExample.
Import ZSuite ToySkipchain ToyMessages ToyChain OcsService OtsSimulation.
#[local] Existing Instance TreeExample.toy_uuid.
#[local] Existing Instances ReencryptExample.two_shares OtsClientExample.toy_nodes OtsClientExample.toy_nodes_laws.
#[local] Instance cosi_same : CosiLib Zsuite := {|
  cosi_VerifySignature pks msg sg := if decide (sg = msg) then Ret tt else Err "invalid signature";
|}.

Definition ros : Roster := OtsClientExample.ros.
Definition node (i : Z) (key : Z) (cs : list Trees.TreeNode) : Trees.TreeNode :=
  Trees.MkTreeNode [byte_of i] (Some (TreeExample.server key)) i cs None.
Definition root : Trees.TreeNode := node 0 3 [node 2 7 []; node 1 5 []].
Definition tree : Trees.Tree := {| Trees.t_ID := [x09]; Trees.t_Roster := Some ros; Trees.t_Root := Some root |}.
Definition service : Service World :=
  {| st := {| st_heap := ∅; OCSs := ∅; Shared := ∅ |}; disk := None; me := TreeExample.server 3; world := ∅ |}.
Definition message : bytes := String.list_byte_of_string "meet me at noon".
Definition sim_run (t : Trees.Tree) : outcome ClientError (list bool) * Service World :=
  run_rounds 3 ros t message 2 (5 : @Stream Zsuite) service.

Lemma star_tree : Otssmc.star (Rosters.List ros) tree root.
Proof.
  constructor; [done..|repeat constructor|]. exists [2; 1]%nat. split; [apply perm_swap|reflexivity].
Qed.

(** Two rounds of three servers. *)
Lemma simulation_recovers_witness : ∃ logs s', sim_run tree = (Ret logs, s') ∧ length logs = 2%nat ∧ Forall (λ ok, ok = true) logs.
Proof.
  assert ((sim_run tree).1 = Ret [true; true]) as Hrun by by_vm.
  exists [true; true], (sim_run tree).2. assert (sim_run tree = (Ret [true; true], (sim_run tree).2)) as H.
  { rewrite <-Hrun. apply surjective_pairing. }
  split; [exact H|]. apply (simulation_recovers ros tree root star_tree ltac:(discriminate)
    ltac:(repeat (apply Forall_cons; split; [reflexivity|]); apply Forall_nil; exact I) 3 message 2 (5 : @Stream Zsuite) service _ (sim_run tree).2);
    [by apply map_Forall_empty|exact H].
Defined.

(** In a tree with another level the protocol does not end: the servers below the
    children of the root are not asked. *)
Definition chain_tree : Trees.Tree :=
  {| Trees.t_ID := [x09]; Trees.t_Roster := Some ros; Trees.t_Root := Some (node 0 3 [node 1 5 [node 2 7 []]]) |}.
Example deeper_tree_hangs : (sim_run chain_tree).1 = OutOfFuel.
Proof. by_vm. Qed.
End OtsSimExample.

(** ** Files of public keys *)
Module PubKeys.
Import Strings Readers Keys.Keys.
Section pub_keys.
Context {S : Suite} {K : KeyCodec S}.

(** [bufio.ScanLines] with the buffer of a [Scanner]: a line that does not fit ends
    the scan, an empty last line is none, and one carriage return is dropped. *)
Definition max_token : nat := Z.to_nat 65536.
Definition drop_CR (l : bytes) : bytes := if decide (last l = Some x0d) then removelast l else l.
Fixpoint scan (ls : list bytes) : list bytes :=
  match ls with
  | [] => []
  | l :: ls =>
      if decide (ls = [] ∧ l = []) then []
      else if (length l <? max_token)%nat then drop_CR l :: scan ls else []
  end.

(** [GetPubKeys]: an error of the scanner is not looked at. *)
Definition GetPubKeys (file : outcome error bytes) : outcome error (list Point) :=
  let! b := file in
  omapM (λ t, let! (tmp, err) := String64ToPoint t in
              match err with Some e => Err e | None => Ret tmp end) (scan (Split b [x0a])).

Context {KL : KeyCodecLaws S K}.

Lemma scan_texts ts : Forall (λ t, t ≠ [] ∧ last t ≠ Some x0d ∧ (length t < max_token)%nat) ts → scan (ts ++ [[]]) = ts.
Proof.
  induction 1 as [|t ts (Ht & Hcr & Hl) _ IH]; cbn; [done|]. rewrite decide_False by tauto.
  rewrite (proj2 (Nat.ltb_lt _ _)) by done. unfold drop_CR. rewrite decide_False by done. by rewrite IH.
Qed.

(** A file with the texts of keys, a line each, gives the keys. *)
Theorem get_pub_keys (ps : list Point) ts : Forall2 (λ p t, PointToString64 p = Ret t ∧ (length t < max_token)%nat) ps ts →
  ∃ qs, GetPubKeys (Ret (concat ((λ t, t ++ [x0a]) <$> ts))) = Ret qs ∧ Forall2 (≡) qs ps.
Proof.
  intros Hts. unfold GetPubKeys. cbn [obind].
  assert (Forall (λ t : bytes, x0a ∉ t ∧ t ≠ [] ∧ last t ≠ Some x0d) ts) as Htext.
  { induction Hts as [|p t ps ts [Ht _] _ IH]; constructor; [|exact IH].
    destruct (point_codec p) as (b & Hb & Hlen & _). unfold PointToString64 in Ht. rewrite Hb in Ht. injection Ht as <-.
    assert (∀ c, c ∈ Base64.EncodeToString b → (32 <? byte_val c) = true) as Hc.
    { apply Forall_forall. apply Base64.Encode_all; [|done]. intros v Hv. unfold Base64.encode_char.
      repeat case_match; try done; rewrite byte_val_of, Z.mod_small by lia; lia. }
    split; [intros H%Hc; discriminate H|]. split.
    - pose proof point_size_pos. destruct b as [|b1 [|b2 [|b3 b]]]; [cbn in Hlen; lia|done..].
    - intros (l & E)%last_Some. assert (x0d ∈ Base64.EncodeToString b) as H%Hc by (rewrite E; apply elem_of_app; right; by left). discriminate H. }
  assert (Split (concat ((λ t, t ++ [x0a]) <$> ts)) [x0a] = ts ++ [[]]) as ->.
  { rewrite <-(Split_Join x0a (ts ++ [[]])); [f_equal|by destruct ts|].
    - clear. induction ts as [|t ts IH]; [done|]. cbn [app]. rewrite Join_cons by (by destruct ts).
      change (concat ((λ t, t ++ [x0a]) <$> t :: ts)) with ((t ++ [x0a]) ++ concat ((λ t, t ++ [x0a]) <$> ts)).
      by rewrite IH, <-app_assoc.
    - apply Forall_app. split; [eapply Forall_impl; [exact Htext|by intros t (? & _)]|by repeat constructor; apply not_elem_of_nil]. }
  rewrite scan_texts.
  2: { apply Forall_lookup. intros i t Hi. rewrite Forall_lookup in Htext. destruct (Htext i t Hi) as (_ & ? & ?).
       destruct (Forall2_lookup_r _ _ _ _ _ Hts Hi) as (p & _ & _ & ?). done. }
  clear Htext. induction Hts as [|p t ps ts [Ht _] _ (qs & Hqs & Hall)]; [by exists []|].
  destruct (key_strings_roundtrip p scalar_zero []) as (_ & _ & (t' & q & Ht' & Hq & Hqp) & _).
  rewrite Ht in Ht'. injection Ht' as <-. exists (q :: qs). cbn [omapM]. rewrite Hq. cbn [obind]. rewrite Hqs. by split; [|constructor].
Qed.
End pub_keys.

Lemma get_pub_keys_witness : ∃ qs,
  GetPubKeys (K := KeysExample.byte_codec) (Ret (concat ((λ t, t ++ [x0a]) <$> [str "QQ=="; str "Qg=="]))) = Ret qs ∧ Forall2 (=) qs [x41; x42].
Proof.
  apply (get_pub_keys (KL := KeysExample.byte_codec_laws) [x41; x42]).
  repeat (constructor; [split; [reflexivity|apply Nat.ltb_lt; by vm_compute]|]). constructor.
Defined.
End PubKeys.
